(* ===== verification/_CoqProject ===== *)
-Q . S2P
Prelude.v
LinkedList.v
ListPrograms.v
Qerr.v
Varint.v
Protocol.v
Frames.v
AckFrame.v
FrameCodec.v
FrameParser.v
FrameSorter.v
LinkedSorter.v
Float.v
RTTStats.v
FlowControl.v
ReceivedPackets.v
LinkedHistory.v
Congestion.v
SentHistory.v
LinkedSent.v
PacketNumbers.v
SentPackets.v
SentLinks.v
LossRecovery.v
StreamsMap.v
Header.v
SendStream.v
ReceiveStream.v
CryptoStream.v
Framer.v
Packer.v
Receiving.v
Scheduler.v
TransportParams.v
Endpoints.v
Listener.v
Dialing.v
Cookies.v
Crypto.v
CryptoSetup.v
Stream.v
Session.v
SessionRun.v
HttpHeaders.v
HttpServer.v
HttpClient.v
Utilities.v
