(* ===== verification/Prelude.v ===== *)
(** * QED: a verification development of a multipath QUIC implementation

    The program (under src/) is a QUIC transport in Go with extensions for
    several paths.  Packets arrive at a session, which hands their frames to the
    streams, the flow controllers and the packet handlers; what is to be sent is
    collected from the same places, packed, and tracked until it is
    acknowledged.  The development models the parts that decide what the
    protocol does, as functions on explicit states, and proves what makes them
    correct.

    ** Files

    - Prelude: machine integers with their wrap-around, errors and results of Go
      functions ([outcome]: a value, an error or a panic), byte readers as a
      monad, writers, the tactics and the hint databases.
    - LinkedList (internal/utils/linkedlist and the lists generated from it): the
      linked lists, with their pointers, on a heap; a heap represents sequences.
      ListPrograms runs any sequence of operations on both.
    - Qerr (internal/qerr): error codes and their names.
    - Varint (internal/utils): variable-length integers, byte order, packet
      numbers on the wire.
    - Protocol (internal/protocol): packet numbers and their truncation, stream
      identifiers, connection IDs, versions.
    - Frames, AckFrame, FrameCodec, FrameParser (internal/wire): the frames, with
      their Write, Length and parse functions.  The class [FrameCodec] is what
      the parser relies on, [FrameCodecLaws] its laws (round trip, length,
      safety on arbitrary input), with an instance for each frame type.
    - FrameSorter (frame_sorter.go): reassembly of the data of a stream, with a
      sequence of gaps; LinkedSorter has the linked list of the code.
    - Float: rounding arithmetic of float32 and float64 on dyadic rationals.
    - RTTStats, Congestion (internal/congestion): round-trip times; Cubic and
      Reno, hybrid slow start, proportional rate reduction, pacing.  The class
      [SendAlgorithm] is the interface of the loss recovery to them.
    - FlowControl (internal/flowcontrol): the windows of a connection and of its
      streams, and their interplay.
    - ReceivedPackets, SentHistory, PacketNumbers, SentPackets
      (internal/ackhandler): what is acknowledged and when; the packets that
      were sent, their retransmission and loss detection.  SentLinks and
      LossRecovery hold the theory of SentPackets; LinkedHistory and LinkedSent
      have the histories with the linked lists of the code.
    - StreamsMap (streams_map*.go): the streams of a session; the two generic maps
      and the four copies that are generated from them.
    - Header (internal/wire/header*.go, version_negotiation.go): packet headers
      and version negotiation packets.
    - SendStream, ReceiveStream (send_stream.go, receive_stream.go): the streams.
      A Write or Read that waits is a state, so that the calls of the application
      and of the session interleave where they give up the mutex.
    - CryptoStream (crypto_stream*.go): the streams of handshake messages.
    - Framer (framer.go, window_update_queue.go): the frames that are due, against
      the class [StreamGetter] of a session's streams.
    - Packer (packet_packer.go): packets and their retransmission, against the
      class [PackerEnv] of the rest of the session; sealers are parameters.
    - Receiving (packet_handler_map.go, packet_unpacker.go): routing by connection
      ID and unpacking; opening a packet is a parameter.
    - Scheduler (scheduler.go, schedulerImplementation.go, path.go,
      address_helper.go): the paths and the choice between them.  Addresses have
      an identity, because the code compares pointers.
    - TransportParams (internal/handshake/transport_parameters.go and
      tls_extension*.go): transport parameters and their exchange.
    - Endpoints (client.go, server.go, server_session.go): version negotiation,
      Retry, and when a session is started.
    - Listener (server.go, multiplexer.go, buffer_pool.go and the reading goroutine
      of packet_handler_map.go): a server with its goroutines; a step is what one of
      them does between two points where it can wait.  Dialing (client.go): the
      goroutines of a client that dials, in the same way.
    - Cookies (internal/handshake/cookie_*.go): the tokens of the Retry exchange,
      from their encoding to their acceptance.
    - Crypto (internal/crypto, internal/handshake/aead.go): HKDF, the keys of
      Initial packets and the nonces, over a model of SHA-256.
    - CryptoSetup (internal/handshake/crypto_setup.go): the session, the TLS
      library and [RunHandshake] as three goroutines that meet at channels; a step
      is one communication, and the TLS library is a program of its calls.
    - Stream (stream.go): a bidirectional stream, made of its two halves.
    - Session (session.go): packets and frames are handled, packets are sent, the
      session is closed; one iteration of the run loop is a function.  It
      instantiates the classes [StreamGetter] and [PackerEnv] with the session's
      own components.  The handshake is the class [CryptoSetup].  SessionRun
      holds its theory: runs, and what every step keeps.
    - HttpHeaders, HttpServer, HttpClient (h2quic): HTTP over QUIC.  Requests and
      responses as lists of header fields, against the class [HttpLib] of what is
      used of net/url and golang.org/x/net; the header stream and the requests of a
      server; the goroutines of a client.
    - Utilities (internal/utils): the timer of a session, log levels, host names.

    ** How the code is modelled

    A struct is a record with the same fields, a method a function that returns
    the new record; pointers that are shared are replaced by the place that
    owns the object, or by identities in a store where the code compares or
    updates through them (the list of sent packets), or by a heap (LinkedList).  Unsigned integers are [Z]
    with the wrap-around written out ([+64] and so on).  Times are nanoseconds.
    A call that panics in Go gives [Panic].  Mutexes are left out: a method that
    holds its mutex from beginning to end is one step.  Time, random numbers and
    the results of system calls are arguments.

    ** What is proved

    - Codecs: what is written is read back, lengths are exact, and no input
      makes the parser panic, apart from the defects listed below.
    - Reassembly: the data read is the data sent, for every order of arrival.
    - Flow control and stream limits: invariants of every reachable state.
    - Acknowledgements: exactly the received packets are acknowledged, in time.
    - Loss recovery: no packet is forgotten, bytes in flight are exact, and no
      operation fails; the history of sent packets implements a list of packets.
    - Linked lists: every program on them runs without nil dereferences and does
      what it does on sequences, so the frame sorter and the two histories do the
      same with pointers as with sequences.
    - Streams: what is written is read, for all interleavings and losses; every
      frame is within the windows; no wake-up is lost.
    - Packets: the packer makes packets of at most the maximum size with the
      frames that are due; what is packed is routed and unpacked by the peer; a
      lost packet is sent again completely; no bytes from the network panic.
    - Multipath: the scheduler always finds a path; the shares of the paths.
    - Connection set-up: version negotiation cannot be misused without failing
      the handshake; a server starts sessions only for tokens of its own, bound to
      an address; the Retry exchange of a client with a server succeeds; Initial
      packets can be opened by the other end; the transport parameters of any two
      configurations are accepted; Accept hands over each session once; Close ends
      the sessions and can always complete; dial succeeds only after a handshake.
    - Handshake: messages reach TLS in order and on their level, keys are used in
      order, and no interleaving of a regular handshake deadlocks.
    - Sessions: what one packs the other handles; a session is closed once, for
      its first reason, and when it expires; what cannot be opened does no harm;
      the loop that sends packets ends.
    - HTTP: requests arrive as they were sent and in order; each gets one response,
      header first, whatever its handler does; responses are matched with their
      requests.
    - Congestion control: the window stays within its bounds, and a loss event
      reduces it once, in spite of the float32 arithmetic.

    Theorems on defects of the code ([owd_ack_read_as_owd],
    [addr_mod_oversized_panics], [empty_ack_panics], [handshake_bytes_leak],
    [probe_after_ack], [accept_stuck_after_delete], [zero_stream_limit],
    [data_after_reset], [set_deadline_deadlock], [retry_forgets_client],
    [removed_address_still_used], [unknown_type_closes_client],
    [owd_from_future_panics], [owd_ping_pong], [keep_alive_too_late],
    [unexpected_message_panics], [message_after_error], [close_needs_accept],
    [closed_server_panics], [session_after_close], [dial_returns_early],
    [failed_request_is_sent], [reader_stuck], [cancelled_request_ends_others] and
    others)
    show an execution, or all executions, that have them.

    ** Bounds and fuel

    Fuel is only used where the Go code loops, and a lemma next to the
    definition shows that it is enough: the length of the input for byte
    readers, the number of entries of a queue, the number of streams between two
    identifiers.  Quantities are assumed below the limits of the encoding (2^62
    for what travels as a variable-length integer) where a theorem needs it.

    ** Not modelled

    The TLS library and the block ciphers are parameters, and so are net/http,
    net/url, HTTP/2 framing and HPACK; sockets, timers and goroutines are effects of
    the run time, of which the steps are modelled.  Left out are resolving
    addresses, opening sockets and loading certificates, logging and String
    methods, which format text, and the examples, test servers and the proxy of
    the integration tests, which are not parts of the library. *)

From Stdlib Require Export ZArith Lia.
From stdpp Require Export base gmap strings option list.

#[export] Set Default Goal Selector "!".

Declare Scope go_scope.
Delimit Scope go_scope with go.
Open Scope Z_scope.

(** ** Machine integers *)

(** Conversions to the unsigned and signed integer types of Go. *)
Definition u8 (z : Z) : Z := z mod 2 ^ 8.
Definition u16 (z : Z) : Z := z mod 2 ^ 16.
Definition u32 (z : Z) : Z := z mod 2 ^ 32.
Definition u64 (z : Z) : Z := z mod 2 ^ 64.
Definition i64 (z : Z) : Z := (z + 2 ^ 63) mod 2 ^ 64 - 2 ^ 63.

Definition is_u8 (z : Z) : Prop := 0 <= z < 2 ^ 8.
Definition is_u16 (z : Z) : Prop := 0 <= z < 2 ^ 16.
Definition is_u32 (z : Z) : Prop := 0 <= z < 2 ^ 32.
Definition is_u64 (z : Z) : Prop := 0 <= z < 2 ^ 64.
Definition is_i64 (z : Z) : Prop := - 2 ^ 63 <= z < 2 ^ 63.

(** Arithmetic of [uint64], the type behind ByteCount, PacketNumber and
    StreamID. *)
Definition add64 (a b : Z) : Z := u64 (a + b).
Definition sub64 (a b : Z) : Z := u64 (a - b).
Definition mul64 (a b : Z) : Z := u64 (a * b).

Infix "+64" := add64 (at level 50, left associativity) : go_scope.
Infix "-64" := sub64 (at level 50, left associativity) : go_scope.
Infix "*64" := mul64 (at level 40, left associativity) : go_scope.
Open Scope go_scope.

(** The length of a slice, as Go's [len] gives it. *)
Definition len {A} (l : list A) : Z := Z.of_nat (length l).

(** [l[:n]] and [l[n:]] for an index that the caller keeps in range. *)
Definition take_z {A} (n : Z) (l : list A) : list A := take (Z.to_nat n) l.
Definition drop_z {A} (n : Z) (l : list A) : list A := drop (Z.to_nat n) l.

(** ** Errors and results

    A Go error value: the sentinel errors of package io, errors made by
    [errors.New] and [fmt.Errorf] (format string and integer arguments), a
    bare [qerr.ErrorCode] used as an error, and a [*qerr.QuicError]. *)
Inductive go_error : Type :=
  | EOF
  | ErrUnexpectedEOF
  | Errorf (format : string) (args : list Z)
  | ErrorCode (code : Z)
  | QuicError (code : Z) (msg : error_msg)
with error_msg : Type :=
  | Msg (format : string) (args : list Z)
  | MsgOf (e : go_error).

(** What a call does: it returns a value, returns an error, or panics. *)
Inductive outcome (A : Type) : Type :=
  | Ok (a : A)
  | Err (e : go_error)
  | Panic (msg : string).
Arguments Ok {A} a.
Arguments Err {A} e.
Arguments Panic {A} msg.

#[export] Instance outcome_ret : MRet outcome := fun A a => Ok a.
#[export] Instance outcome_bind : MBind outcome := fun A B f m =>
  match m with
  | Ok a => f a
  | Err e => Err e
  | Panic s => Panic s
  end.
#[export] Instance outcome_fmap : FMap outcome := fun A B f m =>
  match m with Ok a => Ok (f a) | Err e => Err e | Panic s => Panic s end.

Definition is_ok {A} (o : outcome A) : bool :=
  match o with Ok _ => true | _ => false end.

(** A reader over the bytes that are left in a [*bytes.Reader]. *)
Definition reader (A : Type) : Type := list Z -> outcome (A * list Z).

#[export] Instance reader_ret : MRet reader := fun A a r => Ok (a, r).
#[export] Instance reader_bind : MBind reader := fun A B f m r =>
  match m r with
  | Ok (a, r') => f a r'
  | Err e => Err e
  | Panic s => Panic s
  end.

Definition fail {A} (e : go_error) : reader A := fun _ => Err e.
Definition crash {A} (s : string) : reader A := fun _ => Panic s.

(** A call that does not touch the reader. *)
Definition lift {A} (o : outcome A) : reader A := fun r => a ← o; Ok (a, r).

(** [r.ReadByte()]. *)
Definition ReadByte : reader Z := fun r =>
  match r with
  | [] => Err EOF
  | b :: r' => Ok (b, r')
  end.

(** [r.Len()]. *)
Definition Len : reader Z := fun r => Ok (len r, r).

(** [io.ReadFull(r, buf)] with a buffer of [n] bytes. *)
Definition ReadFull (n : Z) : reader (list Z) := fun r =>
  if n =? 0 then Ok ([], r)
  else if len r =? 0 then Err EOF
  else if len r <? n then Err ErrUnexpectedEOF
  else Ok (take_z n r, drop_z n r).

(** The bytes a sequence of writes appends to a [*bytes.Buffer]; a write can
    panic or fail, and then the later ones do not run. *)
Definition writes : Type := outcome (list Z).

Definition wseq (a b : writes) : writes :=
  x ← a; y ← b; Ok (x ++ y).
Infix "+w+" := wseq (at level 60, right associativity) : go_scope.

Definition is_byte (b : Z) : Prop := 0 <= b < 256.
Definition bytes (l : list Z) : Prop := Forall is_byte l.

(** ** Tactics *)

(** Turn the boolean comparisons of the code into propositions. *)
Ltac bool_to_prop :=
  repeat match goal with
  | H : _ && _ = true |- _ => apply andb_true_iff in H as [? ?]
  | H : _ || _ = false |- _ => apply orb_false_iff in H as [? ?]
  | H : negb _ = true |- _ => apply negb_true_iff in H
  | H : negb _ = false |- _ => apply negb_false_iff in H
  | H : (_ <? _) = true |- _ => apply Z.ltb_lt in H
  | H : (_ <? _) = false |- _ => apply Z.ltb_ge in H
  | H : (_ <=? _) = true |- _ => apply Z.leb_le in H
  | H : (_ <=? _) = false |- _ => apply Z.leb_gt in H
  | H : (_ =? _) = true |- _ => apply Z.eqb_eq in H
  | H : (_ =? _) = false |- _ => apply Z.eqb_neq in H
  end.

(** Case analysis on the integer comparisons of the goal. *)
Ltac case_cmp :=
  repeat match goal with
  | |- context [?a <? ?b] => destruct (Z.ltb_spec a b)
  | |- context [?a <=? ?b] => destruct (Z.leb_spec a b)
  | |- context [?a =? ?b] => destruct (Z.eqb_spec a b)
  end.

Ltac unfold_int :=
  unfold add64, sub64, mul64, is_u8, is_u16, is_u32, is_u64, is_i64, is_byte in *.

(** ** Hint databases *)

Create HintDb qed.
#[export] Hint Constructors Forall : qed.
Create Rewrite HintDb go_rw.

(** ** Integers *)

Lemma u64_small z : 0 <= z < 2 ^ 64 -> u64 z = z.
Proof. apply Z.mod_small. Qed.

Lemma u8_small z : 0 <= z < 256 -> u8 z = z.
Proof. apply Z.mod_small. Qed.

Lemma u16_small z : 0 <= z < 2 ^ 16 -> u16 z = z.
Proof. apply Z.mod_small. Qed.

Lemma u32_small z : 0 <= z < 2 ^ 32 -> u32 z = z.
Proof. apply Z.mod_small. Qed.

Lemma i64_small z : - 2 ^ 63 <= z < 2 ^ 63 -> i64 z = z.
Proof. intros H. unfold i64. rewrite Z.mod_small; lia. Qed.

Lemma u64_range z : is_u64 (u64 z).
Proof. apply Z.mod_pos_bound. lia. Qed.

Lemma u32_range z : is_u32 (u32 z).
Proof. apply Z.mod_pos_bound. lia. Qed.

Lemma u16_range z : is_u16 (u16 z).
Proof. apply Z.mod_pos_bound. lia. Qed.

Lemma u8_range z : is_byte (u8 z).
Proof. apply (Z.mod_pos_bound z (2 ^ 8)). lia. Qed.

Lemma i64_range z : is_i64 (i64 z).
Proof.
  unfold i64, is_i64. pose proof (Z.mod_pos_bound (z + 2 ^ 63) (2 ^ 64)). lia.
Qed.

Lemma add64_small a b : 0 <= a + b < 2 ^ 64 -> a +64 b = a + b.
Proof. apply u64_small. Qed.

Lemma sub64_small a b : 0 <= a - b < 2 ^ 64 -> a -64 b = a - b.
Proof. apply u64_small. Qed.

Lemma mul64_small a b : 0 <= a * b < 2 ^ 64 -> a *64 b = a * b.
Proof. apply u64_small. Qed.

(** Remove the wrap-around of the operations that provably do not need it. *)
Ltac norm64 :=
  repeat match goal with
  | |- context [?a +64 ?b] => rewrite (add64_small a b) by lia
  | |- context [?a -64 ?b] => rewrite (sub64_small a b) by lia
  | |- context [?a *64 ?b] => rewrite (mul64_small a b) by lia
  end.

#[export] Hint Resolve u64_range u32_range u16_range u8_range i64_range : qed.

(** A literal list of bytes. *)
Ltac solve_bytes :=
  unfold bytes;
  repeat (apply Forall_cons_2; [first [apply u8_range | unfold is_byte; lia] |]);
  try apply Forall_nil_2.

(** A property of bytes that holds of each of the 256 values. *)
Definition all_bytes : list Z := Z.of_nat <$> seq 0 256.

Lemma byte_forall (P : Z -> bool) :
  forallb P all_bytes = true -> forall b, is_byte b -> P b = true.
Proof.
  intros H b Hb. rewrite forallb_forall in H. apply H.
  unfold all_bytes. rewrite <- list_elem_of_In. apply list_elem_of_fmap.
  exists (Z.to_nat b). unfold is_byte in Hb. split; [lia |].
  apply elem_of_seq. lia.
Qed.

(** ** Slices *)

Section Slices.
Context {A : Type}.
Implicit Types (l k : list A).

Lemma len_nonneg l : 0 <= len l.
Proof. unfold len. lia. Qed.

Lemma len_nil : len (@nil A) = 0.
Proof. reflexivity. Qed.

Lemma len_cons x l : len (x :: l) = 1 + len l.
Proof. unfold len. cbn [length]. lia. Qed.

Lemma len_app l k : len (l ++ k) = len l + len k.
Proof. unfold len. rewrite length_app. lia. Qed.

Lemma len_zero l : len l = 0 -> l = [].
Proof. destruct l; [done |]. rewrite len_cons. pose proof (len_nonneg l). lia. Qed.

Lemma take_z_app l k : take_z (len l) (l ++ k) = l.
Proof. unfold take_z, len. rewrite Nat2Z.id. apply take_app_length. Qed.

Lemma drop_z_app l k : drop_z (len l) (l ++ k) = k.
Proof. unfold drop_z, len. rewrite Nat2Z.id. apply drop_app_length. Qed.

Lemma take_drop_z n l : take_z n l ++ drop_z n l = l.
Proof. apply take_drop. Qed.

Lemma len_take_z n l : 0 <= n <= len l -> len (take_z n l) = n.
Proof. intros H. unfold len, take_z in *. rewrite length_take. lia. Qed.

Lemma len_drop_z n l : 0 <= n <= len l -> len (drop_z n l) = len l - n.
Proof. intros H. unfold len, drop_z in *. rewrite length_drop. lia. Qed.
End Slices.

#[export] Hint Rewrite @len_nil @len_cons @len_app : go_rw.
#[export] Hint Resolve len_nonneg : qed.

Ltac len_simpl := autorewrite with go_rw in *.

Lemma bytes_nil : bytes [].
Proof. constructor. Qed.
#[export] Hint Resolve bytes_nil : core.

Lemma bytes_cons b l : bytes (b :: l) <-> is_byte b /\ bytes l.
Proof. apply Forall_cons. Qed.

Lemma bytes_app l k : bytes (l ++ k) <-> bytes l /\ bytes k.
Proof. apply Forall_app. Qed.

(** ** Outcomes and readers *)

Lemma outcome_bind_Ok {A B} (m : outcome A) (f : A -> outcome B) b :
  (m ≫= f) = Ok b -> exists a, m = Ok a /\ f a = Ok b.
Proof. destruct m; cbn; intros H; [eauto | discriminate..]. Qed.

Lemma reader_bind_Ok {A B} (m : reader A) (f : A -> reader B) r b r' :
  (m ≫= f) r = Ok (b, r') ->
  exists a r1, m r = Ok (a, r1) /\ f a r1 = Ok (b, r').
Proof.
  unfold mbind, reader_bind. destruct (m r) as [[a r1] | |]; intros H;
    [eauto | discriminate..].
Qed.

(** Running a reader whose first action is known to succeed. *)
Lemma reader_bind_step {A B} (m : reader A) (f : A -> reader B) r a r1 :
  m r = Ok (a, r1) -> (m ≫= f) r = f a r1.
Proof. intros H. unfold mbind, reader_bind. by rewrite H. Qed.

Lemma ReadByte_cons b r : ReadByte (b :: r) = Ok (b, r).
Proof. done. Qed.

Lemma ReadByte_step {B} (k : Z -> reader B) b r : (ReadByte ≫= k) (b :: r) = k b r.
Proof. done. Qed.

Lemma Len_step {B} (k : Z -> reader B) r : (Len ≫= k) r = k (len r) r.
Proof. done. Qed.

Lemma ret_step {A B} (k : A -> reader B) a r : (mret a ≫= k) r = k a r.
Proof. done. Qed.

Lemma ReadFull_app l r : ReadFull (len l) (l ++ r) = Ok (l, r).
Proof.
  unfold ReadFull. destruct (Z.eqb_spec (len l) 0) as [E | E].
  - apply len_zero in E. by subst.
  - rewrite len_app. pose proof (len_nonneg l). pose proof (len_nonneg r).
    case_cmp; try lia. by rewrite take_z_app, drop_z_app.
Qed.

Lemma ReadFull_step {B} (k : list Z -> reader B) l r n : n = len l ->
  (ReadFull n ≫= k) (l ++ r) = k l r.
Proof. intros ->. apply reader_bind_step, ReadFull_app. Qed.

Lemma wseq_Ok a b l :
  a +w+ b = Ok l -> exists x y, a = Ok x /\ b = Ok y /\ l = x ++ y.
Proof.
  unfold wseq. intros H. apply outcome_bind_Ok in H as (x & Hx & H).
  apply outcome_bind_Ok in H as (y & Hy & H). inv H. eauto.
Qed.

Lemma wseq_Ok_intro a b x y : a = Ok x -> b = Ok y -> a +w+ b = Ok (x ++ y).
Proof. by intros -> ->. Qed.

(** ** Safe readers

    A reader is safe for [P] when on every input of bytes it does not panic,
    its result satisfies [P], and what it leaves is a suffix of the input. *)
Definition safe_on {A} (P : A -> Prop) (r : list Z) (o : outcome (A * list Z)) : Prop :=
  match o with
  | Ok (a, r') => P a /\ suffix r' r
  | Err _ => True
  | Panic _ => False
  end.

Definition safe {A} (m : reader A) (P : A -> Prop) : Prop :=
  forall r, bytes r -> safe_on P r (m r).

Lemma bytes_suffix r r' : suffix r' r -> bytes r -> bytes r'.
Proof. intros [k ->] H. apply bytes_app in H. tauto. Qed.

Lemma len_suffix {A} (r r' : list A) : suffix r' r -> len r' <= len r.
Proof. intros H%suffix_length. unfold len. lia. Qed.

Lemma safe_on_bind {A B} (m : reader A) (f : A -> reader B) P Q r :
  bytes r -> safe_on P r (m r) ->
  (forall a r', P a -> suffix r' r -> bytes r' -> safe_on Q r' (f a r')) ->
  safe_on Q r ((m ≫= f) r).
Proof.
  intros Hr Hm Hf. unfold mbind, reader_bind. destruct (m r) as [[a r'] | e | s]; [| done | done].
  destruct Hm as [Ha Hs]. specialize (Hf a r' Ha Hs (bytes_suffix _ _ Hs Hr)).
  destruct (f a r') as [[b r''] | e | s]; [| done | done].
  destruct Hf as [Hb Hs']. split; [done |]. by transitivity r'.
Qed.

Lemma safe_bind {A B} (m : reader A) (f : A -> reader B) P Q :
  safe m P -> (forall a, P a -> safe (f a) Q) -> safe (m ≫= f) Q.
Proof.
  intros Hm Hf r Hr. eapply safe_on_bind; [done | by apply Hm |].
  intros a r' Ha _ Hr'. by apply (Hf a).
Qed.

Lemma safe_ret {A} (a : A) (P : A -> Prop) : P a -> safe (mret a) P.
Proof. by intros Ha r Hr. Qed.

Lemma safe_fail {A} e (P : A -> Prop) : safe (fail e) P.
Proof. done. Qed.

Lemma safe_if {A} (b : bool) (m1 m2 : reader A) P :
  (b = true -> safe m1 P) -> (b = false -> safe m2 P) -> safe (if b then m1 else m2) P.
Proof. destruct b; auto. Qed.

Lemma safe_weaken {A} (m : reader A) (P Q : A -> Prop) :
  safe m P -> (forall a, P a -> Q a) -> safe m Q.
Proof.
  intros Hm HPQ r Hr. specialize (Hm r Hr). unfold safe_on in *.
  destruct (m r) as [[a r'] | |]; [| done | done]. destruct Hm; auto.
Qed.

Lemma safe_ReadByte : safe ReadByte is_byte.
Proof.
  intros [| b r] Hr; [done |]. apply bytes_cons in Hr as [Hb _].
  split; [done |]. by exists [b].
Qed.

Lemma safe_Len : safe Len (fun n => 0 <= n).
Proof. intros r Hr. split; [apply len_nonneg | done]. Qed.

Lemma safe_ReadFull n : 0 <= n -> safe (ReadFull n) (fun l => bytes l /\ len l = n).
Proof.
  intros Hn r Hr. unfold ReadFull. destruct (Z.eqb_spec n 0) as [-> | Hn0].
  { split; [| done]. split; [constructor | done]. }
  case_cmp; try done.
  pose proof (len_nonneg r). split.
  - split; [| apply len_take_z; lia].
    rewrite <- (take_drop_z n r), bytes_app in Hr. tauto.
  - exists (take_z n r). by rewrite take_drop_z.
Qed.

(** A reader that starts by reading a byte, and so consumes at least one. *)
Definition safe1 {A} (m : reader A) (P : A -> Prop) : Prop :=
  is_ok (m []) = false /\ forall b r, bytes (b :: r) -> safe_on P r (m (b :: r)).

Lemma safe1_ReadByte {A} (k : Z -> reader A) P :
  (forall b, is_byte b -> safe (k b) P) -> safe1 (ReadByte ≫= k) P.
Proof.
  intros Hk. split; [done |]. intros b r [Hb Hr]%bytes_cons. by apply (Hk b).
Qed.

Lemma safe1_bind {A B} (m : reader A) (f : A -> reader B) P Q :
  safe1 m P -> (forall a, P a -> safe (f a) Q) -> safe1 (m ≫= f) Q.
Proof.
  intros [Hm0 Hm] Hf. split.
  { unfold mbind, reader_bind. by destruct (m []) as [[] | |]. }
  intros b r Hr. specialize (Hm b r Hr). unfold mbind, reader_bind.
  apply bytes_cons in Hr as [_ Hr].
  destruct (m (b :: r)) as [[a r'] | e | s]; [| done | done].
  destruct Hm as [Ha Hs]. specialize (Hf a Ha r' (bytes_suffix _ _ Hs Hr)). unfold safe_on in *.
  destruct (f a r') as [[c r2] | |]; [| done | done]. destruct Hf as [Hc Hs2].
  split; [done |]. by transitivity r'.
Qed.

Create HintDb safe.
#[export] Hint Resolve safe_ret safe_fail safe_ReadByte safe_Len safe_ReadFull : safe.

(** Walk through the actions of a reader. *)
Ltac safe_step :=
  lazymatch goal with
  | |- safe (mret _) _ => apply safe_ret
  | |- safe (fail _) _ => apply safe_fail
  | |- safe (if _ then _ else _) _ => apply safe_if; intros ?
  | |- safe1 (ReadByte ≫= _) _ => apply safe1_ReadByte; intros ? ?
  | |- safe (_ ≫= _) _ =>
      eapply safe_bind; [eauto with safe | cbv beta; intros ? ?]
  | |- safe (let _ := _ in _) _ => cbv zeta
  | |- safe _ _ => solve [eauto with safe]
  end.
