(* ===== verification/LinkedList.v ===== *)
(** * Linked lists (internal/utils/linkedlist/linkedlist.go)

    The generic list of which the lists of byte intervals, of packet intervals
    and of packets are generated copies.  Elements are shared by pointers: an
    element lives in a heap, a list is a ring of elements closed by the root
    element inside of the list.  The operations change the heap as the code
    does, pointer by pointer; [repr] says which sequences of elements a heap
    holds, and every operation implements the one on sequences. *)

From S2P Require Import Prelude.

(** ** The heap *)

(** A pointer to an element: the root of a list, or an element of its own. *)
Inductive loc : Type := Root (l : nat) | Node (n : nat).

#[export] Instance loc_eq_dec : EqDecision loc.
Proof. solve_decision. Defined.

#[export] Instance Node_inj : Inj (=) (=) Node.
Proof. by intros ?? [= ->]. Qed.

Record ItemElement (V : Type) : Type := mkElement {
  el_next : option loc; el_prev : option loc; el_list : option nat; el_Value : V }.
Record ItemList (V : Type) : Type := mkList { root : ItemElement V; list_len : Z }.
Record heap (V : Type) : Type := mkHeap { nodes : list (ItemElement V); lists : list (ItemList V) }.
Arguments mkElement {V}.
Arguments el_next {V}.
Arguments el_prev {V}.
Arguments el_list {V}.
Arguments el_Value {V}.
Arguments mkList {V}.
Arguments root {V}.
Arguments list_len {V}.
Arguments mkHeap {V}.
Arguments nodes {V}.
Arguments lists {V}.

Section operations.
Context {V : Type} (zero : V).

Definition set_next (p : option loc) (e : ItemElement V) : ItemElement V :=
  mkElement p (el_prev e) (el_list e) (el_Value e).
Definition set_prev (p : option loc) (e : ItemElement V) : ItemElement V :=
  mkElement (el_next e) p (el_list e) (el_Value e).
Definition set_list (l : option nat) (e : ItemElement V) : ItemElement V :=
  mkElement (el_next e) (el_prev e) l (el_Value e).
Definition set_Value (v : V) (e : ItemElement V) : ItemElement V :=
  mkElement (el_next e) (el_prev e) (el_list e) v.

Definition load (h : heap V) (p : loc) : option (ItemElement V) :=
  match p with
  | Root l => root <$> lists h !! l
  | Node n => nodes h !! n
  end.

Definition upd (f : ItemElement V -> ItemElement V) (p : loc) (h : heap V) : heap V :=
  match p with
  | Root l => mkHeap (nodes h) (alter (fun L => mkList (f (root L)) (list_len L)) l (lists h))
  | Node n => mkHeap (alter f n (nodes h)) (lists h)
  end.

(** Programs on the heap. *)
Definition prog (A : Type) : Type := heap V -> outcome (A * heap V).

#[export] Instance prog_ret : MRet prog := fun A a h => Ok (a, h).
#[export] Instance prog_bind : MBind prog := fun A B f m h =>
  match m h with Ok (a, h') => f a h' | Err e => Err e | Panic s => Panic s end.

Definition nil_dereference {A} : outcome A := Panic "invalid memory address or nil pointer dereference".

Definition deref (p : option loc) : prog loc := fun h =>
  match p with Some p => Ok (p, h) | None => nil_dereference end.
Definition get (p : loc) : prog (ItemElement V) := fun h =>
  match load h p with Some e => Ok (e, h) | None => nil_dereference end.
Definition modify (p : loc) (f : ItemElement V -> ItemElement V) : prog unit := fun h =>
  match load h p with Some _ => Ok (tt, upd f p h) | None => nil_dereference end.
Definition get_list (l : nat) : prog (ItemList V) := fun h =>
  match lists h !! l with Some L => Ok (L, h) | None => nil_dereference end.
Definition set_len (l : nat) (n : Z) : prog unit := fun h =>
  match lists h !! l with
  | Some _ => Ok (tt, mkHeap (nodes h) (alter (fun L => mkList (root L) n) l (lists h)))
  | None => nil_dereference
  end.

(** [new(ItemList)] and [&ItemElement{Value: v}] *)
Definition new_ItemList : prog nat := fun h =>
  Ok (length (lists h), mkHeap (nodes h) (lists h ++ [mkList (mkElement None None None zero) 0])).
Definition new_ItemElement (v : V) : prog loc := fun h =>
  Ok (Node (length (nodes h)), mkHeap (nodes h ++ [mkElement None None None v]) (lists h)).

(** ** The operations *)

Definition ItemElement_Next (e : loc) : prog (option loc) :=
  el ← get e;
  match el_list el with
  | Some l => if bool_decide (el_next el = Some (Root l)) then mret None else mret (el_next el)
  | None => mret None
  end.

Definition ItemElement_Prev (e : loc) : prog (option loc) :=
  el ← get e;
  match el_list el with
  | Some l => if bool_decide (el_prev el = Some (Root l)) then mret None else mret (el_prev el)
  | None => mret None
  end.

Definition ItemList_Init (l : nat) : prog unit :=
  modify (Root l) (set_next (Some (Root l)));;
  modify (Root l) (set_prev (Some (Root l)));;
  set_len l 0.

Definition NewItemList : prog nat := l ← new_ItemList; ItemList_Init l;; mret l.

Definition ItemList_Len (l : nat) : prog Z := L ← get_list l; mret (list_len L).

Definition ItemList_Front (l : nat) : prog (option loc) :=
  L ← get_list l; if list_len L =? 0 then mret None else mret (el_next (root L)).

Definition ItemList_Back (l : nat) : prog (option loc) :=
  L ← get_list l; if list_len L =? 0 then mret None else mret (el_prev (root L)).

Definition ItemList_lazyInit (l : nat) : prog unit :=
  r ← get (Root l);
  match el_next r with None => ItemList_Init l | Some _ => mret tt end.

Definition ItemList_insert (l : nat) (e at' : loc) : prog loc :=
  a ← get at'; n ← deref (el_next a);
  modify at' (set_next (Some e));;
  modify e (set_prev (Some at'));;
  modify e (set_next (Some n));;
  modify n (set_prev (Some e));;
  modify e (set_list (Some l));;
  L ← get_list l; set_len l (list_len L + 1);;
  mret e.

Definition ItemList_insertValue (l : nat) (v : V) (at' : loc) : prog loc :=
  e ← new_ItemElement v; ItemList_insert l e at'.

Definition ItemList_remove (l : nat) (e : loc) : prog loc :=
  el ← get e; p ← deref (el_prev el); modify p (set_next (el_next el));;
  el ← get e; n ← deref (el_next el); modify n (set_prev (el_prev el));;
  modify e (set_next None);;
  modify e (set_prev None);;
  modify e (set_list None);;
  L ← get_list l; set_len l (list_len L - 1);;
  mret e.

Definition ItemList_Remove (l : nat) (e : loc) : prog V :=
  el ← get e;
  (if bool_decide (el_list el = Some l) then ItemList_remove l e;; mret tt else mret tt);;
  el ← get e; mret (el_Value el).

Definition ItemList_PushFront (l : nat) (v : V) : prog loc :=
  ItemList_lazyInit l;; ItemList_insertValue l v (Root l).

Definition ItemList_PushBack (l : nat) (v : V) : prog loc :=
  ItemList_lazyInit l;;
  r ← get (Root l); p ← deref (el_prev r); ItemList_insertValue l v p.

Definition ItemList_InsertBefore (l : nat) (v : V) (mark : loc) : prog (option loc) :=
  m ← get mark;
  if bool_decide (el_list m = Some l) then
    p ← deref (el_prev m); e ← ItemList_insertValue l v p; mret (Some e)
  else mret None.

Definition ItemList_InsertAfter (l : nat) (v : V) (mark : loc) : prog (option loc) :=
  m ← get mark;
  if bool_decide (el_list m = Some l) then
    e ← ItemList_insertValue l v mark; mret (Some e)
  else mret None.

Definition ItemList_MoveToFront (l : nat) (e : loc) : prog unit :=
  el ← get e; r ← get (Root l);
  if bool_decide (el_list el ≠ Some l) || bool_decide (el_next r = Some e) then mret tt
  else ItemList_remove l e;; ItemList_insert l e (Root l);; mret tt.

(** The calls in the arguments of [insert] are evaluated before the fields are
    read. *)
Definition ItemList_MoveToBack (l : nat) (e : loc) : prog unit :=
  el ← get e; r ← get (Root l);
  if bool_decide (el_list el ≠ Some l) || bool_decide (el_prev r = Some e) then mret tt
  else ItemList_remove l e;; r ← get (Root l); p ← deref (el_prev r); ItemList_insert l e p;; mret tt.

Definition ItemList_MoveBefore (l : nat) (e mark : loc) : prog unit :=
  el ← get e; m ← get mark;
  if bool_decide (el_list el ≠ Some l) || bool_decide (e = mark) || bool_decide (el_list m ≠ Some l)
  then mret tt
  else ItemList_remove l e;; m ← get mark; p ← deref (el_prev m); ItemList_insert l e p;; mret tt.

Definition ItemList_MoveAfter (l : nat) (e mark : loc) : prog unit :=
  el ← get e; m ← get mark;
  if bool_decide (el_list el ≠ Some l) || bool_decide (e = mark) || bool_decide (el_list m ≠ Some l)
  then mret tt
  else ItemList_remove l e;; ItemList_insert l e mark;; mret tt.

(** The loops run [i] times. *)
Fixpoint push_back_list (l : nat) (i : nat) (e : option loc) : prog unit :=
  match i with
  | O => mret tt
  | S i =>
      p ← deref e; el ← get p;
      (r ← get (Root l); b ← deref (el_prev r); ItemList_insertValue l (el_Value el) b);;
      n ← ItemElement_Next p; push_back_list l i n
  end.

Definition ItemList_PushBackList (l other : nat) : prog unit :=
  ItemList_lazyInit l;;
  i ← ItemList_Len other; e ← ItemList_Front other; push_back_list l (Z.to_nat i) e.

Fixpoint push_front_list (l : nat) (i : nat) (e : option loc) : prog unit :=
  match i with
  | O => mret tt
  | S i =>
      p ← deref e; el ← get p;
      ItemList_insertValue l (el_Value el) (Root l);;
      n ← ItemElement_Prev p; push_front_list l i n
  end.

Definition ItemList_PushFrontList (l other : nat) : prog unit :=
  ItemList_lazyInit l;;
  i ← ItemList_Len other; e ← ItemList_Back other; push_front_list l (Z.to_nat i) e.

End operations.

(** The generated copies of the file are the operations at one type. *)
Record list_operations (V : Type) : Type := mkOperations {
  lo_New : @prog V nat; lo_Init : nat -> @prog V unit; lo_Len : nat -> @prog V Z;
  lo_Front : nat -> @prog V (option loc); lo_Back : nat -> @prog V (option loc);
  lo_Next : loc -> @prog V (option loc); lo_Prev : loc -> @prog V (option loc);
  lo_Remove : nat -> loc -> @prog V V;
  lo_PushFront : nat -> V -> @prog V loc; lo_PushBack : nat -> V -> @prog V loc;
  lo_InsertBefore : nat -> V -> loc -> @prog V (option loc);
  lo_InsertAfter : nat -> V -> loc -> @prog V (option loc);
  lo_MoveToFront : nat -> loc -> @prog V unit; lo_MoveToBack : nat -> loc -> @prog V unit;
  lo_MoveBefore : nat -> loc -> loc -> @prog V unit; lo_MoveAfter : nat -> loc -> loc -> @prog V unit;
  lo_PushBackList : nat -> nat -> @prog V unit; lo_PushFrontList : nat -> nat -> @prog V unit }.

Definition ItemList_operations {V} (zero : V) : list_operations V :=
  {| lo_New := NewItemList zero; lo_Init := ItemList_Init; lo_Len := ItemList_Len;
     lo_Front := ItemList_Front; lo_Back := ItemList_Back;
     lo_Next := ItemElement_Next; lo_Prev := ItemElement_Prev; lo_Remove := ItemList_Remove;
     lo_PushFront := ItemList_PushFront; lo_PushBack := ItemList_PushBack;
     lo_InsertBefore := ItemList_InsertBefore; lo_InsertAfter := ItemList_InsertAfter;
     lo_MoveToFront := ItemList_MoveToFront; lo_MoveToBack := ItemList_MoveToBack;
     lo_MoveBefore := ItemList_MoveBefore; lo_MoveAfter := ItemList_MoveAfter;
     lo_PushBackList := ItemList_PushBackList; lo_PushFrontList := ItemList_PushFrontList |}.

Arguments lo_New {V}.
Arguments lo_Len {V}.
Arguments lo_Front {V}.
Arguments lo_Back {V}.
Arguments lo_Next {V}.
Arguments lo_Prev {V}.
Arguments lo_Remove {V}.
Arguments lo_PushFront {V}.
Arguments lo_PushBack {V}.
Arguments lo_InsertBefore {V}.
Arguments lo_InsertAfter {V}.

(** ** What an operation does to the heap *)

Section heaps.
Context {V : Type}.
Implicit Types (h : heap V) (p e : loc) (l : nat).

Definition nextof h p : option loc := load h p ≫= el_next.
Definition prevof h p : option loc := load h p ≫= el_prev.
Definition listof h p : option nat := load h p ≫= el_list.
Definition lenof h l : option Z := list_len <$> lists h !! l.
Definition same_size h h' : Prop :=
  length (nodes h') = length (nodes h) /\ length (lists h') = length (lists h).

#[export] Instance same_size_trans : Transitive same_size.
Proof. intros h1 h2 h3 [] []. split; congruence. Qed.

Lemma load_upd f p h x : load (upd f p h) x = (if decide (x = p) then f <$> load h x else load h x).
Proof.
  destruct p as [l | n], x as [l' | n']; cbn [load upd nodes lists]; try (by rewrite decide_False).
  - rewrite list_lookup_alter. destruct (decide (l' = l)) as [-> | Hne].
    + rewrite !decide_True by done. by destruct (lists h !! l).
    + rewrite !decide_False by congruence. done.
  - rewrite list_lookup_alter. destruct (decide (n' = n)) as [-> | Hne].
    + by rewrite !decide_True by done.
    + by rewrite !decide_False by congruence.
Qed.

Lemma lenof_upd f p h l : lenof (upd f p h) l = lenof h l.
Proof.
  destruct p as [l' | n]; [| done]. unfold lenof; cbn [upd lists].
  rewrite list_lookup_alter. destruct (decide _) as [-> |]; [| done]. by destruct (lists h !! _).
Qed.

Lemma same_size_upd f p h : same_size h (upd f p h).
Proof. destruct p; split; cbn [upd nodes lists]; by rewrite ?length_alter. Qed.

Definition with_len l n h : heap V :=
  mkHeap (nodes h) (alter (fun L => mkList (root L) n) l (lists h)).

Lemma load_with_len l n h x : load (with_len l n h) x = load h x.
Proof.
  destruct x as [l' |]; [| done]. cbn [load with_len lists].
  rewrite list_lookup_alter. destruct (decide _) as [-> |]; [| done]. by destruct (lists h !! _).
Qed.

Lemma lenof_with_len l n h l' :
  lenof (with_len l n h) l' = (if decide (l' = l) then const n <$> lenof h l' else lenof h l').
Proof.
  unfold lenof, with_len; cbn [lists]. rewrite list_lookup_alter.
  repeat case_decide; subst; try done. by destruct (lists h !! _).
Qed.

Lemma same_size_with_len l n h : same_size h (with_len l n h).
Proof. split; [done |]. cbn. by rewrite length_alter. Qed.

(** *** Running a program *)

Lemma prog_bind_step {A B} (m : prog A) (k : A -> prog B) h a h' :
  m h = Ok (a, h') -> (m ≫= k) h = k a h'.
Proof. intros H. unfold mbind, prog_bind. by rewrite H. Qed.

Lemma prog_bind_step_unit {B} (m : prog unit) (k : prog B) h h' :
  m h = Ok (tt, h') -> (m ;; k) h = k h'.
Proof. apply (prog_bind_step (B := B) m (fun _ => k)). Qed.

Lemma get_step {B} (k : ItemElement V -> prog B) h p el :
  load h p = Some el -> (get p ≫= k) h = k el h.
Proof. intros H. apply prog_bind_step. unfold get. by rewrite H. Qed.

Lemma deref_step {B} (k : loc -> prog B) h p : (deref (Some p) ≫= k) h = k p h.
Proof. done. Qed.

Lemma modify_step {B} (k : prog B) h p f :
  is_Some (load h p) -> (modify p f ;; k) h = k (upd f p h).
Proof. intros [el H]. apply prog_bind_step_unit. unfold modify. by rewrite H. Qed.

Lemma get_list_step {B} (k : ItemList V -> prog B) h l L :
  lists h !! l = Some L -> (get_list l ≫= k) h = k L h.
Proof. intros H. apply prog_bind_step. unfold get_list. by rewrite H. Qed.

Lemma set_len_step {B} (k : prog B) h l n :
  is_Some (lists h !! l) -> (set_len l n ;; k) h = k (with_len l n h).
Proof. intros [el H]. apply prog_bind_step_unit. unfold set_len. by rewrite H. Qed.

Lemma load_upd_is_Some f p h x : is_Some (load h x) -> is_Some (load (upd f p h) x).
Proof. intros H. rewrite load_upd. case_decide; [by apply fmap_is_Some | done]. Qed.

Lemma lists_upd_is_Some f p h l : is_Some (lists h !! l) -> is_Some (lists (upd f p h) !! l).
Proof. rewrite !lookup_lt_is_Some. by rewrite (proj2 (same_size_upd f p h)). Qed.

Lemma lenof_Some h l k : lenof h l = Some k -> exists L, lists h !! l = Some L /\ list_len L = k.
Proof. unfold lenof. destruct (lists h !! l) as [L |]; [| done]. intros [= <-]. eauto. Qed.

(** What [insert] and [remove] leave of an element [x]. *)
Definition inserted l e at' n x (el : ItemElement V) : ItemElement V :=
  mkElement (if decide (x = e) then Some n else if decide (x = at') then Some e else el_next el)
    (if decide (x = n) then Some e else if decide (x = e) then Some at' else el_prev el)
    (if decide (x = e) then Some l else el_list el) (el_Value el).

Definition removed e p n x (el : ItemElement V) : ItemElement V :=
  mkElement (if decide (x = e) then None else if decide (x = p) then Some n else el_next el)
    (if decide (x = e) then None else if decide (x = n) then Some p else el_prev el)
    (if decide (x = e) then None else el_list el) (el_Value el).

Lemma insert_run h l e at' n k : nextof h at' = Some n -> is_Some (load h n) -> is_Some (load h e) ->
  at' <> e -> n <> e -> lenof h l = Some k ->
  exists h', ItemList_insert l e at' h = Ok (e, h') /\ same_size h h' /\
    (forall x, load h' x = inserted l e at' n x <$> load h x) /\
    (forall l', lenof h' l' = if decide (l' = l) then Some (k + 1) else lenof h l').
Proof.
  unfold nextof. intros Hnext Hn He Hat Hne Hk.
  destruct (load h at') as [a |] eqn:Ha; [| done]. cbn in Hnext.
  unfold ItemList_insert. rewrite (get_step _ _ _ _ Ha), Hnext, deref_step.
  rewrite !modify_step by eauto using load_upd_is_Some.
  set (h1 := upd _ e (upd _ n _)).
  assert (Hlen : forall l', lenof h1 l' = lenof h l') by (intros; unfold h1; by rewrite !lenof_upd).
  rewrite <- Hlen in Hk. apply lenof_Some in Hk as (L & HL & Hk).
  rewrite (get_list_step _ _ _ _ HL), set_len_step by eauto. rewrite Hk.
  eexists. split_and!; [done | | |].
  - unfold h1. etrans; [| apply same_size_with_len]. repeat (etrans; [| apply same_size_upd]). by split.
  - intros x. rewrite load_with_len. unfold h1. rewrite !load_upd. unfold inserted.
    destruct (load h x) as [[] |]; repeat case_decide; by simplify_eq/=.
  - intros l'. rewrite lenof_with_len, Hlen. case_decide; [| done]. subst l'. rewrite <- Hlen. unfold lenof. by rewrite HL.
Qed.

Lemma remove_run h l e p n k : nextof h e = Some n -> prevof h e = Some p ->
  is_Some (load h n) -> is_Some (load h p) -> p <> e -> n <> e -> lenof h l = Some k ->
  exists h', ItemList_remove l e h = Ok (e, h') /\ same_size h h' /\
    (forall x, load h' x = removed e p n x <$> load h x) /\
    (forall l', lenof h' l' = if decide (l' = l) then Some (k - 1) else lenof h l').
Proof.
  unfold nextof, prevof. intros Hnext Hprev Hn Hp Hpe Hne Hk.
  destruct (load h e) as [el |] eqn:He; [| done]. cbn in Hnext, Hprev.
  unfold ItemList_remove. rewrite (get_step _ _ _ _ He), Hprev, deref_step, modify_step by done.
  rewrite (get_step _ _ e el) by (rewrite load_upd, decide_False; done). rewrite Hnext, Hprev, deref_step.
  rewrite !modify_step by eauto using load_upd_is_Some.
  set (h1 := upd _ e (upd _ e _)).
  assert (Hlen : forall l', lenof h1 l' = lenof h l') by (intros; unfold h1; by rewrite !lenof_upd).
  rewrite <- Hlen in Hk. apply lenof_Some in Hk as (L & HL & Hk).
  rewrite (get_list_step _ _ _ _ HL), set_len_step by eauto. rewrite Hk.
  eexists. split_and!; [done | | |].
  - unfold h1. etrans; [| apply same_size_with_len].
    repeat (etrans; [| apply same_size_upd]). by split.
  - intros x. rewrite load_with_len. unfold h1. rewrite !load_upd. unfold removed.
    destruct (load h x) as [[] |] eqn:Hx; repeat case_decide; by simplify_eq/=.
  - intros l'. rewrite lenof_with_len, Hlen. case_decide; [| done]. subst l'. rewrite <- Hlen.
    unfold lenof. by rewrite HL.
Qed.
End heaps.

(** ** Rings

    [last_loc l p] is what precedes, and [head_loc l q] what follows, the place
    between [p] and [q] in the ring of list [l]. *)
Section rings.
Context {V : Type}.
Implicit Types (h : heap V) (p q xs : list nat) (x : loc) (l : nat).

Definition last_loc l (p : list nat) : loc := default (Root l) (Node <$> last p).
Definition head_loc l (q : list nat) : loc := default (Root l) (Node <$> head q).

Definition links h l (xs : list nat) : Prop := forall p q, xs = p ++ q ->
  nextof h (last_loc l p) = Some (head_loc l q) /\ prevof h (head_loc l q) = Some (last_loc l p).

Definition on_ring l (xs : list nat) x : Prop := x = Root l \/ exists n, x = Node n /\ n ∈ xs.

Lemma last_loc_snoc l p z : last_loc l (p ++ [z]) = Node z.
Proof. unfold last_loc. by rewrite last_snoc. Qed.

Lemma last_loc_app l p k : k <> [] -> last_loc l (p ++ k) = last_loc l k.
Proof.
  destruct k as [| z k _] using rev_ind; [done |]. intros _.
  by rewrite app_assoc, !last_loc_snoc.
Qed.

Lemma last_loc_on_ring l p : on_ring l p (last_loc l p).
Proof.
  destruct p as [| z p _] using rev_ind; [by left |]. rewrite last_loc_snoc. right.
  exists z. split; [done |]. set_solver.
Qed.

Lemma head_loc_on_ring l q : on_ring l q (head_loc l q).
Proof. destruct q as [| z q]; [by left |]. right. exists z. split; [done | set_solver]. Qed.

Lemma on_ring_mono l xs ys x : xs ⊆ ys -> on_ring l xs x -> on_ring l ys x.
Proof. intros Hsub [-> | (n & -> & Hn)]; [by left |]. right. eauto. Qed.

Lemma last_loc_ne l p k : k <> [] -> NoDup (p ++ k) -> last_loc l p <> last_loc l (p ++ k).
Proof.
  intros Hk Hnd. rewrite last_loc_app by done. apply NoDup_app in Hnd as (_ & Hdis & _).
  destruct k as [| z k _] using rev_ind; [done |]. rewrite last_loc_snoc.
  destruct (last_loc_on_ring l p) as [-> | (n & -> & Hn)]; [done |]. intros [= ->].
  apply (Hdis _ Hn). set_solver.
Qed.

Lemma head_loc_ne l k q : k <> [] -> NoDup (k ++ q) -> head_loc l (k ++ q) <> head_loc l q.
Proof.
  intros Hk Hnd. destruct k as [| z k]; [done |]. apply NoDup_app in Hnd as (_ & Hdis & _).
  destruct (head_loc_on_ring l q) as [-> | (n & -> & Hn)]; [done |]. intros [= <-].
  apply (Hdis z); [set_solver | done].
Qed.

Lemma on_ring_Node l xs n : on_ring l xs (Node n) <-> n ∈ xs.
Proof. split; [intros [? | (m & [= ->] & Hm)]; done | right; eauto]. Qed.

Lemma last_loc_on l p q : on_ring l (p ++ q) (last_loc l p).
Proof. eapply on_ring_mono, last_loc_on_ring. set_solver. Qed.
Lemma head_loc_on l p q : on_ring l (p ++ q) (head_loc l q).
Proof. eapply on_ring_mono, head_loc_on_ring. set_solver. Qed.

Lemma in_middle (n m : nat) p q : m ∈ p ++ n :: q <-> m = n \/ m ∈ p ++ q.
Proof. set_solver. Qed.

Lemma links_frame h h' l xs : links h l xs ->
  (forall x, on_ring l xs x -> nextof h' x = nextof h x /\ prevof h' x = prevof h x) -> links h' l xs.
Proof.
  intros Hl Hsame p q ->. destruct (Hl p q eq_refl) as [Hn Hp].
  destruct (Hsame (last_loc l p)) as [-> _]; [apply last_loc_on |].
  destruct (Hsame (head_loc l q)) as [_ ->]; [apply head_loc_on |].
  done.
Qed.

Lemma not_on_ring l xs n x : n ∉ xs -> on_ring l xs x -> x <> Node n.
Proof. intros Hn Hx ->. by apply on_ring_Node in Hx. Qed.

Lemma NoDup_middle (n : nat) p q : NoDup (p ++ n :: q) -> (n ∉ p) /\ (n ∉ q) /\ NoDup (p ++ q).
Proof.
  rewrite !NoDup_app, NoDup_cons. intros (Hp & Hdis & Hn & Hq). split_and!; try done; set_solver.
Qed.

Lemma NoDup_insert (n : nat) p q : NoDup (p ++ q) -> n ∉ p ++ q -> NoDup (p ++ n :: q).
Proof. rewrite !NoDup_app, NoDup_cons. set_solver. Qed.

Lemma NoDup_parts p q : NoDup (p ++ q) -> NoDup p /\ NoDup q.
Proof. by intros (? & _ & ?)%NoDup_app. Qed.

Section insert.
Context h h' l p q n (Hload : forall x, load h' x = inserted l (Node n) (last_loc l p) (head_loc l q) x <$> load h x).

Lemma nextof_inserted x : x <> Node n -> x <> last_loc l p -> nextof h' x = nextof h x.
Proof. intros. unfold nextof. rewrite Hload. destruct (load h x); [| done]. cbn. by rewrite !decide_False. Qed.

Lemma prevof_inserted x : x <> Node n -> x <> head_loc l q -> prevof h' x = prevof h x.
Proof. intros. unfold prevof. rewrite Hload. destruct (load h x); [| done]. cbn. by rewrite !decide_False. Qed.

Lemma new_links : links h l (p ++ q) -> is_Some (load h (Node n)) -> NoDup (p ++ n :: q) ->
  nextof h' (last_loc l p) = Some (Node n) /\ prevof h' (Node n) = Some (last_loc l p) /\
  nextof h' (Node n) = Some (head_loc l q) /\ prevof h' (head_loc l q) = Some (Node n).
Proof.
  intros Hl [el Hel] Hnd. apply NoDup_middle in Hnd as (Hnp & Hnq & Hnd).
  assert (Hat := not_on_ring _ _ _ _ Hnp (last_loc_on_ring l p)).
  assert (Hto := not_on_ring _ _ _ _ Hnq (head_loc_on_ring l q)).
  destruct (Hl p q eq_refl) as [Hpq Hqp]. unfold nextof, prevof in *. rewrite !Hload, Hel.
  destruct (load h (last_loc l p)); [| done]. destruct (load h (head_loc l q)); [| done]. cbn.
  repeat case_decide; by simplify_eq.
Qed.

Lemma kept_insert p' q' : links h l (p ++ q) -> NoDup (p ++ n :: q) -> p ++ q = p' ++ q' ->
  last_loc l p' <> last_loc l p -> head_loc l q' <> head_loc l q ->
  nextof h' (last_loc l p') = Some (head_loc l q') /\ prevof h' (head_loc l q') = Some (last_loc l p').
Proof.
  intros Hl Hnd Heq Hp Hq. destruct (Hl p' q' Heq) as [H1 H2].
  apply NoDup_middle in Hnd as (Hnp & Hnq & _).
  assert (Hn : (n ∉ p') /\ (n ∉ q')) by (assert (n ∉ p' ++ q') by (rewrite <- Heq; set_solver); set_solver).
  destruct Hn as [Hnp' Hnq'].
  assert (Hat := not_on_ring _ _ _ _ Hnp' (last_loc_on_ring l p')).
  assert (Hto := not_on_ring _ _ _ _ Hnq' (head_loc_on_ring l q')).
  by rewrite nextof_inserted, prevof_inserted.
Qed.

Lemma links_insert : links h l (p ++ q) -> is_Some (load h (Node n)) -> NoDup (p ++ n :: q) ->
  links h' l (p ++ n :: q).
Proof.
  intros Hl Hel Hnd. destruct (new_links Hl Hel Hnd) as (Hn1 & Hn2 & Hn3 & Hn4).
  assert (Hnd' := Hnd). apply NoDup_middle in Hnd' as (Hnp & Hnq & Hnd').
  intros p' q' Heq. apply app_eq_inv in Heq as [(k & Hp & ->) | (k & -> & Hq)].
  - destruct k as [| y k]; [by rewrite app_nil_r in Hp; subst p' |].
    apply (kept_insert p' ((y :: k) ++ q)); try done.
    + by rewrite Hp, <- app_assoc.
    + rewrite Hp. apply last_loc_ne; [done |]. rewrite <- Hp. by apply (NoDup_parts _ _ Hnd').
    + apply head_loc_ne; [done |]. rewrite Hp, <- app_assoc in Hnd'. by apply (NoDup_parts _ _ Hnd').
  - destruct k as [| y k]; cbn in Hq; [subst q'; by rewrite app_nil_r |]. injection Hq as <- Hq.
    destruct k as [| z k]; [cbn in Hq; subst q'; by rewrite last_loc_snoc |].
    rewrite last_loc_app by done. change (n :: z :: k) with ([n] ++ z :: k).
    rewrite last_loc_app by done. rewrite <- (last_loc_app l p (z :: k)) by done.
    apply kept_insert; try done.
    + by rewrite Hq, <- app_assoc.
    + apply not_eq_sym, last_loc_ne; [done |]. rewrite Hq, app_assoc in Hnd'. by apply (NoDup_parts _ _ Hnd').
    + rewrite Hq. apply not_eq_sym, head_loc_ne; [done |]. rewrite <- Hq. by apply (NoDup_parts _ _ Hnd').
Qed.
End insert.

Section remove.
Context h h' l p q n (Hload : forall x, load h' x = removed (Node n) (last_loc l p) (head_loc l q) x <$> load h x).

Lemma nextof_removed x : x <> Node n -> x <> last_loc l p -> nextof h' x = nextof h x.
Proof. intros. unfold nextof. rewrite Hload. destruct (load h x); [| done]. cbn. by rewrite !decide_False. Qed.

Lemma prevof_removed x : x <> Node n -> x <> head_loc l q -> prevof h' x = prevof h x.
Proof. intros. unfold prevof. rewrite Hload. destruct (load h x); [| done]. cbn. by rewrite !decide_False. Qed.

Lemma closed_link : links h l (p ++ n :: q) -> NoDup (p ++ n :: q) ->
  nextof h' (last_loc l p) = Some (head_loc l q) /\ prevof h' (head_loc l q) = Some (last_loc l p).
Proof.
  intros Hl Hnd. apply NoDup_middle in Hnd as (Hnp & Hnq & Hnd).
  assert (Hat := not_on_ring _ _ _ _ Hnp (last_loc_on_ring l p)).
  assert (Hto := not_on_ring _ _ _ _ Hnq (head_loc_on_ring l q)).
  destruct (Hl p (n :: q) eq_refl) as [H1 _].
  destruct (Hl (p ++ [n]) q ltac:(by rewrite <- app_assoc)) as [_ H2].
  unfold nextof, prevof in *. rewrite !Hload.
  destruct (load h (last_loc l p)); [| done]. destruct (load h (head_loc l q)); [| done]. cbn.
  repeat case_decide; by simplify_eq.
Qed.

Lemma kept_remove p' q' p1 q1 : links h l (p ++ n :: q) -> n ∉ p' -> n ∉ q' -> p ++ n :: q = p1 ++ q1 ->
  last_loc l p1 = last_loc l p' -> head_loc l q1 = head_loc l q' ->
  last_loc l p' <> last_loc l p -> head_loc l q' <> head_loc l q ->
  nextof h' (last_loc l p') = Some (head_loc l q') /\ prevof h' (head_loc l q') = Some (last_loc l p').
Proof.
  intros Hl Hnp' Hnq' Heq Hp1 Hq1 Hp Hq. destruct (Hl p1 q1 Heq) as [H1 H2].
  assert (Hat := not_on_ring _ _ _ _ Hnp' (last_loc_on_ring l p')).
  assert (Hto := not_on_ring _ _ _ _ Hnq' (head_loc_on_ring l q')).
  rewrite nextof_removed, prevof_removed by done. by rewrite <- Hp1, <- Hq1.
Qed.

Lemma links_remove : links h l (p ++ n :: q) -> NoDup (p ++ n :: q) -> links h' l (p ++ q).
Proof.
  intros Hl Hnd. assert (Hc := closed_link Hl Hnd).
  assert (Hnd' := Hnd). apply NoDup_middle in Hnd' as (Hnp & Hnq & Hnd').
  intros p' q' Heq. assert (Hn : n ∉ p' ++ q') by (rewrite <- Heq; by intros [|]%elem_of_app).
  apply not_elem_of_app in Hn as [Hnp' Hnq'].
  apply app_eq_inv in Heq as [(k & Hp & ->) | (k & -> & Hq)].
  - destruct k as [| y k]; [by rewrite app_nil_r in Hp; subst p' |].
    apply (kept_remove _ _ p' ((y :: k) ++ n :: q)); try done.
    + by rewrite Hp, <- app_assoc.
    + rewrite Hp. apply last_loc_ne; [done |]. rewrite <- Hp. by apply (NoDup_parts _ _ Hnd').
    + apply head_loc_ne; [done |]. rewrite Hp, <- app_assoc in Hnd'. by apply (NoDup_parts _ _ Hnd').
  - destruct k as [| z k]; [cbn in Hq; subst q'; by rewrite app_nil_r |].
    apply (kept_remove _ _ (p ++ n :: z :: k) q'); try done.
    + rewrite Hq. by rewrite <- app_assoc.
    + change (n :: z :: k) with ([n] ++ z :: k). by rewrite !last_loc_app.
    + apply not_eq_sym, last_loc_ne; [done |]. rewrite Hq, app_assoc in Hnd'. by apply (NoDup_parts _ _ Hnd').
    + rewrite Hq. apply not_eq_sym, head_loc_ne; [done |]. rewrite <- Hq. by apply (NoDup_parts _ _ Hnd').
Qed.
End remove.
End rings.

(** ** What a heap represents

    The value of every element, and the elements of every list in their order. *)
Record sequences (V : Type) : Type := mkSeqs { values : list V; seqs : list (list nat) }.
Arguments mkSeqs {V}.
Arguments values {V}.
Arguments seqs {V}.

Section representation.
Context {V : Type} (zero : V).
Implicit Types (h : heap V) (a : sequences V) (p q xs : list nat) (x : loc) (l n : nat).

Record repr h a : Prop := mkRepr {
  repr_values : el_Value <$> nodes h = values a;
  repr_lists : length (lists h) = length (seqs a);
  repr_len l xs : seqs a !! l = Some xs -> lenof h l = Some (len xs);
  repr_links l xs : seqs a !! l = Some xs -> links h l xs \/ xs = [] /\ nextof h (Root l) = None;
  repr_nodup l xs : seqs a !! l = Some xs -> NoDup xs;
  repr_owner n l : listof h (Node n) = Some l <-> exists xs, seqs a !! l = Some xs /\ n ∈ xs }.

Definition with_seq a l xs : sequences V := mkSeqs (values a) (<[l := xs]> (seqs a)).

Lemma seqs_with_seq a l xs l' : is_Some (seqs a !! l) ->
  seqs (with_seq a l xs) !! l' = if decide (l' = l) then Some xs else seqs a !! l'.
Proof.
  intros Hl. cbn. case_decide.
  - subst. apply list_lookup_insert_eq. by apply lookup_lt_is_Some.
  - by apply list_lookup_insert_ne.
Qed.

Lemma repr_disjoint h a l l' xs xs' n : repr h a -> seqs a !! l = Some xs -> seqs a !! l' = Some xs' ->
  n ∈ xs -> n ∈ xs' -> l = l'.
Proof.
  intros Hr Hl Hl' Hn Hn'.
  assert (H : listof h (Node n) = Some l) by (apply (repr_owner _ _ Hr); eauto).
  assert (H' : listof h (Node n) = Some l') by (apply (repr_owner _ _ Hr); eauto). congruence.
Qed.

(** One list changes, and the elements it has or gets. *)
Lemma repr_update h h' a l xs xs' : repr h a -> seqs a !! l = Some xs ->
  same_size h h' -> el_Value <$> nodes h' = el_Value <$> nodes h ->
  (forall l', lenof h' l' = if decide (l' = l) then Some (len xs') else lenof h l') ->
  links h' l xs' -> NoDup xs' ->
  (forall x, ~ on_ring l xs x -> ~ on_ring l xs' x -> nextof h' x = nextof h x /\ prevof h' x = prevof h x) ->
  (forall n, n ∈ xs' -> n ∈ xs \/ listof h (Node n) = None) ->
  (forall n, listof h' (Node n) =
     if decide (n ∈ xs') then Some l else if decide (n ∈ xs) then None else listof h (Node n)) ->
  repr h' (with_seq a l xs').
Proof.
  intros Hr Hl [Hn Hs] Hv Hlen Hlinks Hnd Hframe Hnew Hown. assert (Hl' : is_Some (seqs a !! l)) by eauto.
  assert (Hother : forall l' ys n, l' <> l -> seqs a !! l' = Some ys -> n ∈ ys -> (n ∉ xs) /\ (n ∉ xs')).
  { intros l' ys n Hne Hys Hin. assert (Hx : n ∉ xs) by (intros ?; by eapply Hne, repr_disjoint).
    split; [done |]. intros Hin'. destruct (Hnew n Hin') as [| Hnone]; [done |].
    assert (listof h (Node n) = Some l') by (apply (repr_owner _ _ Hr); eauto). congruence. }
  split.
  - rewrite Hv. apply Hr.
  - rewrite Hs. cbn. rewrite length_insert. apply Hr.
  - intros l' ys. rewrite seqs_with_seq, Hlen by done. case_decide; [by intros [= ->] | apply Hr].
  - intros l' ys. rewrite seqs_with_seq by done. case_decide; [intros [= ->]; subst; by left |].
    intros Hys. assert (Hsame : forall x, on_ring l' ys x -> nextof h' x = nextof h x /\ prevof h' x = prevof h x).
    { intros x [-> | (n & -> & Hin)]; apply Hframe; try (intros [? | (? & ? & _)]; congruence).
      all: rewrite on_ring_Node; by eapply Hother. }
    destruct (repr_links _ _ Hr _ _ Hys) as [| [-> Hnone]]; [left; by eapply links_frame |].
    right. split; [done |]. rewrite (proj1 (Hsame (Root l') (or_introl eq_refl))). done.
  - intros l' ys. rewrite seqs_with_seq by done. case_decide; [by intros [= ->] | apply Hr].
  - intros n l'. rewrite Hown, seqs_with_seq by done. destruct (decide (l' = l)) as [-> | Hne].
    + case_decide; [split; eauto |]. split; [| intros (? & [= <-] & ?); done]. case_decide; [done |].
      intros (ys & Hys & Hin)%(repr_owner _ _ Hr). by simplify_eq.
    + rewrite <- (repr_owner _ _ Hr n l'). split.
      * case_decide; [congruence |]. by case_decide.
      * intros Ho. assert (Ho' := Ho). apply (repr_owner _ _ Hr) in Ho' as (ys & Hys & Hin).
        destruct (Hother l' ys n Hne Hys Hin). by rewrite !decide_False.
Qed.

Lemma values_kept h h' (f : loc -> ItemElement V -> ItemElement V) :
  (forall x, load h' x = f x <$> load h x) -> (forall x el, el_Value (f x el) = el_Value el) ->
  el_Value <$> nodes h' = el_Value <$> nodes h.
Proof.
  intros Hload Hf. apply list_eq. intros i. rewrite !list_lookup_fmap.
  specialize (Hload (Node i)). cbn in Hload. rewrite Hload. destruct (nodes h !! i); [| done].
  cbn. by rewrite Hf.
Qed.

Lemma nextof_load h x y : nextof h x = Some y -> is_Some (load h x).
Proof. unfold nextof. destruct (load h x); [eauto | done]. Qed.
Lemma prevof_load h x y : prevof h x = Some y -> is_Some (load h x).
Proof. unfold prevof. destruct (load h x); [eauto | done]. Qed.

Lemma insert_spec h a l p q n : repr h a -> seqs a !! l = Some (p ++ q) -> links h l (p ++ q) ->
  is_Some (load h (Node n)) -> listof h (Node n) = None ->
  exists h', ItemList_insert l (Node n) (last_loc l p) h = Ok (Node n, h') /\
    repr h' (with_seq a l (p ++ n :: q)) /\ links h' l (p ++ n :: q).
Proof.
  intros Hr Hl Hlinks Hn Hnone. destruct (Hlinks p q eq_refl) as [Hnext Hprev].
  assert (Hfree : n ∉ p ++ q).
  { intros Hin. assert (listof h (Node n) = Some l) by (apply (repr_owner _ _ Hr); eauto). congruence. }
  assert (Hnd : NoDup (p ++ n :: q)).
  { apply (repr_nodup _ _ Hr) in Hl. by apply NoDup_insert. }
  destruct (insert_run h l (Node n) (last_loc l p) (head_loc l q) (len (p ++ q)))
    as (h' & Hrun & Hsize & Hload & Hlen); eauto using prevof_load.
  { by eapply not_on_ring, last_loc_on. }
  { by eapply not_on_ring, head_loc_on. }
  { by apply Hr. }
  assert (Hlinks' := links_insert _ _ _ _ _ _ Hload Hlinks Hn Hnd).
  exists h'. split_and!; [done | | done]. eapply repr_update; eauto.
  - by eapply values_kept.
  - intros l'. rewrite Hlen. case_decide; [| done]. f_equal. len_simpl. lia.
  - intros x Hx Hx'. split; [eapply nextof_inserted | eapply prevof_inserted]; try done.
    all: intros ->; solve [apply Hx', on_ring_Node, in_middle; auto | apply Hx; auto using last_loc_on, head_loc_on].
  - intros m [-> |]%in_middle; auto.
  - intros m. unfold listof. rewrite Hload. destruct (decide (m = n)) as [-> | Hne].
    + rewrite decide_True by (apply in_middle; auto). destruct Hn as [el ->]. cbn. by rewrite decide_True.
    + assert (Hsame : listof h' (Node m) = listof h (Node m)).
      { unfold listof. rewrite Hload. destruct (load h (Node m)); [| done]. cbn.
        by rewrite decide_False by congruence. }
      unfold listof in Hsame. rewrite <- Hload, Hsame. case_decide as Hin.
      * apply (repr_owner _ _ Hr). apply in_middle in Hin as [|]; [done | eauto].
      * rewrite decide_False; [done |]. intros ?. apply Hin, in_middle. auto.
Qed.

Lemma remove_spec h a l p q n : repr h a -> seqs a !! l = Some (p ++ n :: q) ->
  exists h', ItemList_remove l (Node n) h = Ok (Node n, h') /\
    repr h' (with_seq a l (p ++ q)) /\ links h' l (p ++ q).
Proof.
  intros Hr Hl. assert (Hnd := repr_nodup _ _ Hr _ _ Hl).
  destruct (repr_links _ _ Hr _ _ Hl) as [Hlinks | [Hnil _]]; [| by destruct p].
  destruct (Hlinks p (n :: q) eq_refl) as [Hnext1 Hprev1].
  destruct (Hlinks (p ++ [n]) q ltac:(by rewrite <- app_assoc)) as [Hnext2 Hprev2].
  rewrite last_loc_snoc in Hnext2, Hprev2.
  assert (Hnd' := Hnd). apply NoDup_middle in Hnd' as (Hnp & Hnq & Hnd').
  destruct (remove_run h l (Node n) (last_loc l p) (head_loc l q) (len (p ++ n :: q)))
    as (h' & Hrun & Hsize & Hload & Hlen); eauto using prevof_load, nextof_load.
  { by eapply not_on_ring, last_loc_on_ring. }
  { by eapply not_on_ring, head_loc_on_ring. }
  { by apply Hr. }
  assert (Hlinks' := links_remove _ _ _ _ _ _ Hload Hlinks Hnd).
  exists h'. split_and!; [done | | done]. eapply repr_update; eauto.
  - by eapply values_kept.
  - intros l'. rewrite Hlen. case_decide; [| done]. f_equal. len_simpl. lia.
  - intros x Hx Hx'. split; [eapply nextof_removed | eapply prevof_removed]; try done.
    all: intros ->; solve [apply Hx, on_ring_Node, in_middle; auto | apply Hx'; auto using last_loc_on, head_loc_on].
  - intros m Hm. left. apply in_middle. auto.
  - intros m. destruct (decide (m = n)) as [-> | Hne].
    + rewrite decide_False by (intros [|]%elem_of_app; done).
      rewrite decide_True by (apply in_middle; auto). unfold listof. rewrite Hload.
      destruct (load h (Node n)); [| done]. cbn. by rewrite decide_True.
    + assert (Hsame : listof h' (Node m) = listof h (Node m)).
      { unfold listof. rewrite Hload. destruct (load h (Node m)); [| done]. cbn.
        by rewrite decide_False by congruence. }
      rewrite Hsame. case_decide as Hin.
      * apply (repr_owner _ _ Hr). exists (p ++ n :: q). rewrite in_middle. auto.
      * rewrite decide_False; [done |]. by intros [|]%in_middle.
Qed.

(** *** Reading *)

Lemma repr_nodes h a : repr h a -> length (nodes h) = length (values a).
Proof. intros Hr. rewrite <- (repr_values _ _ Hr). by rewrite length_fmap. Qed.

Lemma repr_node h a n : repr h a -> (n < length (values a))%nat ->
  exists el, load h (Node n) = Some el /\ values a !! n = Some (el_Value el).
Proof.
  intros Hr Hn. rewrite <- (repr_nodes _ _ Hr) in Hn. apply lookup_lt_is_Some in Hn as [el Hel].
  exists el. split; [done |]. rewrite <- (repr_values _ _ Hr), list_lookup_fmap. cbn in Hel. by rewrite Hel.
Qed.

Lemma repr_valid h a l xs n : repr h a -> seqs a !! l = Some xs -> n ∈ xs -> (n < length (values a))%nat.
Proof.
  intros Hr Hl Hn. assert (Ho : listof h (Node n) = Some l) by (apply (repr_owner _ _ Hr); eauto).
  rewrite <- (repr_nodes _ _ Hr). apply lookup_lt_is_Some. unfold listof in Ho. cbn in Ho.
  destruct (nodes h !! n); [eauto | done].
Qed.

Lemma repr_list h a l xs : repr h a -> seqs a !! l = Some xs ->
  exists L, lists h !! l = Some L /\ list_len L = len xs.
Proof. intros Hr Hl. by apply lenof_Some, Hr. Qed.

Lemma Len_spec h a l xs : repr h a -> seqs a !! l = Some xs -> ItemList_Len l h = Ok (len xs, h).
Proof.
  intros Hr Hl. destruct (repr_list _ _ _ _ Hr Hl) as (L & HL & Hlen).
  unfold ItemList_Len. rewrite (get_list_step _ _ _ _ HL). by rewrite Hlen.
Qed.

Lemma list_len_zero {A} (xs : list A) : (len xs =? 0) = bool_decide (xs = []).
Proof. destruct xs; [done |]. rewrite bool_decide_eq_false_2 by done. apply Z.eqb_neq. unfold len. cbn. lia. Qed.

Lemma root_links h a l xs L : repr h a -> seqs a !! l = Some xs -> lists h !! l = Some L -> xs <> [] ->
  el_next (root L) = Node <$> head xs /\ el_prev (root L) = Node <$> last xs.
Proof.
  intros Hr Hl HL Hne. destruct (repr_links _ _ Hr _ _ Hl) as [Hlinks | [? _]]; [| done].
  destruct (Hlinks [] xs eq_refl) as [H1 _].
  destruct (Hlinks xs [] ltac:(by rewrite app_nil_r)) as [_ H2].
  unfold nextof, prevof, last_loc, head_loc in *. cbn in H1, H2. rewrite HL in H1, H2. cbn in H1, H2.
  rewrite H1, H2. split; [by destruct xs |].
  destruct xs as [| z xs _] using rev_ind; [done |]. by rewrite last_snoc.
Qed.

Lemma Front_spec h a l xs : repr h a -> seqs a !! l = Some xs ->
  ItemList_Front l h = Ok (Node <$> head xs, h).
Proof.
  intros Hr Hl. destruct (repr_list _ _ _ _ Hr Hl) as (L & HL & Hlen).
  unfold ItemList_Front. rewrite (get_list_step _ _ _ _ HL), Hlen, list_len_zero.
  case_bool_decide as Hx; [by subst |]. by rewrite (proj1 (root_links _ _ _ _ _ Hr Hl HL Hx)).
Qed.

Lemma Back_spec h a l xs : repr h a -> seqs a !! l = Some xs ->
  ItemList_Back l h = Ok (Node <$> last xs, h).
Proof.
  intros Hr Hl. destruct (repr_list _ _ _ _ Hr Hl) as (L & HL & Hlen).
  unfold ItemList_Back. rewrite (get_list_step _ _ _ _ HL), Hlen, list_len_zero.
  case_bool_decide as Hx; [by subst |]. by rewrite (proj2 (root_links _ _ _ _ _ Hr Hl HL Hx)).
Qed.

(** The element between [p] and [q]. *)
Lemma repr_element h a l p n q : repr h a -> seqs a !! l = Some (p ++ n :: q) ->
  exists el, load h (Node n) = Some el /\ values a !! n = Some (el_Value el) /\ el_list el = Some l /\
    el_next el = Some (head_loc l q) /\ el_prev el = Some (last_loc l p).
Proof.
  intros Hr Hl. assert (Hin : n ∈ p ++ n :: q) by (apply in_middle; auto).
  destruct (repr_node h a n) as (el & Hel & Hv); [done | by eapply repr_valid |].
  assert (Ho : listof h (Node n) = Some l) by (apply (repr_owner _ _ Hr); eauto).
  destruct (repr_links _ _ Hr _ _ Hl) as [Hlinks | [? _]]; [| by destruct p].
  destruct (Hlinks p (n :: q) eq_refl) as [_ H1].
  destruct (Hlinks (p ++ [n]) q ltac:(by rewrite <- app_assoc)) as [H2 _].
  rewrite last_loc_snoc in H2. change (head_loc l (n :: q)) with (Node n) in H1.
  unfold nextof, prevof, listof in *. rewrite Hel in *. exists el. by split_and!.
Qed.

Lemma Next_spec h a l p n q : repr h a -> seqs a !! l = Some (p ++ n :: q) ->
  ItemElement_Next (Node n) h = Ok (Node <$> head q, h).
Proof.
  intros Hr Hl. destruct (repr_element _ _ _ _ _ _ Hr Hl) as (el & Hel & _ & Ho & Hn & _).
  unfold ItemElement_Next. rewrite (get_step _ _ _ _ Hel), Ho, Hn. destruct q; by case_bool_decide.
Qed.

Lemma Prev_spec h a l p n q : repr h a -> seqs a !! l = Some (p ++ n :: q) ->
  ItemElement_Prev (Node n) h = Ok (Node <$> last p, h).
Proof.
  intros Hr Hl. destruct (repr_element _ _ _ _ _ _ Hr Hl) as (el & Hel & _ & Ho & _ & Hp).
  unfold ItemElement_Prev. rewrite (get_step _ _ _ _ Hel), Ho, Hp.
  destruct p as [| z p _] using rev_ind; [by rewrite bool_decide_eq_true_2 |].
  rewrite last_loc_snoc, last_snoc. by rewrite bool_decide_eq_false_2.
Qed.

(** An element of no list. *)
Lemma repr_detached h a n : repr h a -> (n < length (values a))%nat -> (forall l xs, seqs a !! l = Some xs -> n ∉ xs) ->
  exists el, load h (Node n) = Some el /\ values a !! n = Some (el_Value el) /\ el_list el = None.
Proof.
  intros Hr Hn Hno. destruct (repr_node h a n Hr Hn) as (el & Hel & Hv). exists el. split_and!; [done | done |].
  destruct (el_list el) as [l |] eqn:Hl; [| done]. exfalso.
  destruct (proj1 (repr_owner _ _ Hr n l)) as (xs & Hxs & Hin); [by unfold listof; rewrite Hel |].
  by eapply Hno.
Qed.

(** *** Inserting and removing *)

Definition add_value a (v : V) : sequences V := mkSeqs (values a ++ [v]) (seqs a).

Lemma load_new h v x el : load h x = Some el ->
  load (mkHeap (nodes h ++ [mkElement None None None v]) (lists h)) x = Some el.
Proof. destruct x; [done |]. cbn. intros ?. by apply lookup_app_l_Some. Qed.

Lemma new_ItemElement_spec h a v : repr h a ->
  exists h', new_ItemElement v h = Ok (Node (length (values a)), h') /\ repr h' (add_value a v) /\
    is_Some (load h' (Node (length (values a)))) /\ listof h' (Node (length (values a))) = None /\
    (forall l xs, links h l xs -> links h' l xs).
Proof.
  intros Hr. assert (Hlen := repr_nodes _ _ Hr).
  assert (Hnew : load (mkHeap (nodes h ++ [mkElement None None None v]) (lists h)) (Node (length (values a)))
    = Some (mkElement None None None v)) by (cbn; rewrite <- Hlen; by apply list_lookup_middle).
  assert (Hkeep : forall l xs, links h l xs -> links (mkHeap (nodes h ++ [mkElement None None None v]) (lists h)) l xs).
  { intros l xs Hlinks p q Hpq. destruct (Hlinks p q Hpq) as [H1 H2]. unfold nextof, prevof in *.
    destruct (load h (last_loc l p)) eqn:E1; [| done]. destruct (load h (head_loc l q)) eqn:E2; [| done].
    by rewrite !(load_new _ _ _ _ E1), !(load_new _ _ _ _ E2). }
  eexists. split_and!; [unfold new_ItemElement; by rewrite Hlen | | eauto | |].
  - split; cbn; try apply Hr.
    + rewrite fmap_app, (repr_values _ _ Hr). done.
    + intros l xs Hl. destruct (repr_links _ _ Hr _ _ Hl) as [|]; auto.
    + intros n l. rewrite <- (repr_owner _ _ Hr n l). unfold listof. cbn.
      destruct (decide (n < length (nodes h))%nat).
      * by rewrite lookup_app_l.
      * rewrite (lookup_ge_None_2 (nodes h)) by lia. destruct (decide (n = length (nodes h))) as [-> |].
        -- by rewrite list_lookup_middle.
        -- rewrite lookup_ge_None_2; [done |]. rewrite length_app. cbn. lia.
  - unfold listof. by rewrite Hnew.
  - done.
Qed.

Lemma insertValue_spec h a l p q v : repr h a -> seqs a !! l = Some (p ++ q) -> links h l (p ++ q) ->
  exists h', ItemList_insertValue l v (last_loc l p) h = Ok (Node (length (values a)), h') /\
    repr h' (with_seq (add_value a v) l (p ++ length (values a) :: q)) /\
    links h' l (p ++ length (values a) :: q).
Proof.
  intros Hr Hl Hlinks. destruct (new_ItemElement_spec h a v Hr) as (h1 & Hnew & Hr1 & Hn & Ho & Hkeep).
  unfold ItemList_insertValue. rewrite (prog_bind_step _ _ _ _ _ Hnew). by apply insert_spec; auto.
Qed.

Lemma with_seq_id a l xs : seqs a !! l = Some xs -> with_seq a l xs = a.
Proof. intros Hl. destruct a. unfold with_seq; cbn in *. by rewrite list_insert_id. Qed.

Lemma links_nil h l : nextof h (Root l) = Some (Root l) -> prevof h (Root l) = Some (Root l) -> links h l [].
Proof. intros Hn Hp p q Hpq. symmetry in Hpq. by apply app_nil in Hpq as [-> ->]. Qed.

Lemma Init_spec h a l : repr h a -> seqs a !! l = Some [] ->
  exists h', ItemList_Init l h = Ok (tt, h') /\ repr h' a /\ links h' l [].
Proof.
  intros Hr Hl. destruct (repr_list _ _ _ _ Hr Hl) as (L & HL & Hlen).
  assert (Hroot : load h (Root l) = Some (root L)) by (cbn; by rewrite HL).
  unfold ItemList_Init. rewrite !modify_step by eauto using load_upd_is_Some.
  set (h1 := upd _ _ (upd _ _ h)). exists (with_len l 0 h1).
  assert (Hload : forall x, load (with_len l 0 h1) x =
    if decide (x = Root l) then Some (mkElement (Some (Root l)) (Some (Root l)) (el_list (root L)) (el_Value (root L)))
    else load h x).
  { intros x. rewrite load_with_len. unfold h1. rewrite !load_upd. case_decide; [| done]. subst.
    by rewrite Hroot. }
  assert (Hlinks : links (with_len l 0 h1) l []).
  { apply links_nil; unfold nextof, prevof; rewrite Hload; by rewrite decide_True. }
  split_and!; [| | done].
  { unfold set_len, with_len. destruct (lists_upd_is_Some (set_prev (Some (Root l))) (Root l)
      (upd (set_next (Some (Root l))) (Root l) h) l) as [L1 HL1]; [by apply lists_upd_is_Some; eauto |].
    unfold h1. by rewrite HL1. }
  rewrite <- (with_seq_id a l []) by done. eapply repr_update; eauto using NoDup_nil_2.
  - etrans; [| apply same_size_with_len]. unfold h1. etrans; apply same_size_upd.
  - intros l'. rewrite lenof_with_len. unfold h1. rewrite !lenof_upd. case_decide; [| done]. subst.
    unfold lenof. by rewrite HL.
  - intros x Hx _. unfold nextof, prevof. rewrite Hload, decide_False; [done |]. intros ->. apply Hx. by left.
Qed.

Lemma lazyInit_spec h a l xs : repr h a -> seqs a !! l = Some xs ->
  exists h', ItemList_lazyInit l h = Ok (tt, h') /\ repr h' a /\ links h' l xs.
Proof.
  intros Hr Hl. destruct (repr_list _ _ _ _ Hr Hl) as (L & HL & _).
  assert (Hroot : load h (Root l) = Some (root L)) by (cbn; by rewrite HL).
  unfold ItemList_lazyInit. rewrite (get_step _ _ _ _ Hroot).
  destruct (repr_links _ _ Hr _ _ Hl) as [Hlinks | [-> Hnone]].
  - destruct (Hlinks [] xs eq_refl) as [Hn _]. change (last_loc l []) with (Root l) in Hn.
    unfold nextof in Hn. rewrite Hroot in Hn. cbn in Hn. rewrite Hn. eauto.
  - unfold nextof in Hnone. rewrite Hroot in Hnone. cbn in Hnone. rewrite Hnone. by apply Init_spec.
Qed.

Lemma NewItemList_spec h a : repr h a ->
  exists h', NewItemList zero h = Ok (length (seqs a), h') /\ repr h' (mkSeqs (values a) (seqs a ++ [[]])).
Proof.
  intros Hr. set (h1 := mkHeap (nodes h) (lists h ++ [mkList (mkElement None None None zero) 0])).
  assert (Hlt : forall l xs, seqs a !! l = Some xs -> lists h1 !! l = lists h !! l).
  { intros l xs Hl. cbn. apply lookup_app_l. rewrite (repr_lists _ _ Hr). by eapply lookup_lt_Some. }
  assert (Hr1 : repr h1 (mkSeqs (values a) (seqs a ++ [[]]))).
  { assert (Hnew : lists h1 !! length (seqs a) = Some (mkList (mkElement None None None zero) 0)).
    { cbn. rewrite <- (repr_lists _ _ Hr). by apply list_lookup_middle. }
    split; cbn [seqs values].
    - apply Hr.
    - cbn. rewrite !length_app. by rewrite (repr_lists _ _ Hr).
    - intros l xs [[_ Hl] | [-> <-]]%lookup_snoc_Some.
      + unfold lenof. rewrite (Hlt _ _ Hl). by apply Hr.
      + unfold lenof. by rewrite Hnew.
    - intros l xs [[_ Hl] | [-> <-]]%lookup_snoc_Some.
      + assert (Hroot : load h1 (Root l) = load h (Root l)) by (cbn; by rewrite <- (Hlt _ _ Hl)).
        destruct (repr_links _ _ Hr _ _ Hl) as [Hlinks | [-> Hnone]].
        * left. eapply links_frame; [done |]. intros x [-> | (n & -> & _)]; [| done].
          unfold nextof, prevof. by rewrite Hroot.
        * right. split; [done |]. unfold nextof. by rewrite Hroot.
      + right. split; [done |]. unfold nextof, load. by rewrite Hnew.
    - intros l xs [[_ Hl] | [-> <-]]%lookup_snoc_Some; [by eapply Hr | apply NoDup_nil_2].
    - intros n l. change (listof h1 (Node n)) with (listof h (Node n)). rewrite (repr_owner _ _ Hr).
      split; intros (xs & Hl & Hn); exists xs; split; try done.
      + by apply lookup_app_l_Some.
      + apply lookup_snoc_Some in Hl as [[_ Hl] | [_ <-]]; [done | by apply elem_of_nil in Hn]. }
  destruct (Init_spec h1 (mkSeqs (values a) (seqs a ++ [[]])) (length (seqs a)) Hr1) as (h2 & Hi & Hr2 & _).
  { cbn. by apply list_lookup_middle. }
  exists h2. split; [| done]. unfold NewItemList.
  rewrite (prog_bind_step _ _ h (length (seqs a)) h1) by (unfold new_ItemList; by rewrite (repr_lists _ _ Hr)).
  by rewrite (prog_bind_step_unit _ _ _ _ Hi).
Qed.

Lemma set_Value_spec h a n v : repr h a -> (n < length (values a))%nat ->
  exists h', modify (Node n) (set_Value v) h = Ok (tt, h') /\ repr h' (mkSeqs (<[n := v]> (values a)) (seqs a)).
Proof.
  intros Hr Hn. destruct (repr_node h a n Hr Hn) as (el & Hel & _).
  exists (upd (set_Value v) (Node n) h). split; [unfold modify; by rewrite Hel |].
  assert (Hsame : forall x, nextof (upd (set_Value v) (Node n) h) x = nextof h x /\
    prevof (upd (set_Value v) (Node n) h) x = prevof h x /\ listof (upd (set_Value v) (Node n) h) x = listof h x).
  { intros x. unfold nextof, prevof, listof. rewrite load_upd. case_decide; [| done]. subst. by rewrite Hel. }
  split; cbn [values seqs]; try apply Hr.
  - rewrite <- (repr_values _ _ Hr). cbn in Hel |- *. apply list_eq. intros i.
    rewrite list_lookup_fmap, list_lookup_alter. destruct (decide (i = n)) as [-> | Hne].
    + rewrite list_lookup_insert_eq by (rewrite length_fmap; by eapply lookup_lt_Some).
      by rewrite ?decide_True, Hel.
    + rewrite list_lookup_insert_ne, list_lookup_fmap by done. by rewrite ?decide_False.
  - intros l xs Hl. destruct (repr_links _ _ Hr _ _ Hl) as [Hlinks | [-> Hnone]].
    + left. eapply links_frame; [done |]. intros x _. destruct (Hsame x) as (? & ? & _). done.
    + right. split; [done |]. by rewrite (proj1 (Hsame _)).
  - intros m l. rewrite (proj2 (proj2 (Hsame _))). apply Hr.
Qed.

Lemma with_seq_twice a l xs ys : with_seq (with_seq a l xs) l ys = with_seq a l ys.
Proof. unfold with_seq; cbn. by rewrite list_insert_insert_eq. Qed.

(** An element is of list [l], or it is not. *)
Lemma repr_is_in h a l n el : repr h a -> load h (Node n) = Some el ->
  bool_decide (el_list el = Some l) = true <-> exists xs, seqs a !! l = Some xs /\ n ∈ xs.
Proof.
  intros Hr Hel. rewrite bool_decide_eq_true, <- (repr_owner _ _ Hr). unfold listof. by rewrite Hel.
Qed.

Lemma Remove_in h a l p n q : repr h a -> seqs a !! l = Some (p ++ n :: q) ->
  exists h' v, ItemList_Remove l (Node n) h = Ok (v, h') /\ values a !! n = Some v /\
    repr h' (with_seq a l (p ++ q)).
Proof.
  intros Hr Hl. destruct (repr_element _ _ _ _ _ _ Hr Hl) as (el & Hel & Hv & Ho & _).
  destruct (remove_spec _ _ _ _ _ _ Hr Hl) as (h1 & Hrem & Hr1 & _).
  destruct (repr_node h1 (with_seq a l (p ++ q)) n Hr1) as (el1 & Hel1 & Hv1); [by eapply lookup_lt_Some |].
  exists h1, (el_Value el1). split_and!; [| done | done].
  unfold ItemList_Remove. rewrite (get_step _ _ _ _ Hel), bool_decide_eq_true_2 by done.
  rewrite (prog_bind_step_unit _ _ h h1) by (by rewrite (prog_bind_step _ _ _ _ _ Hrem)).
  by rewrite (get_step _ _ _ _ Hel1).
Qed.

Lemma foreign_list h a l n : repr h a -> (n < length (values a))%nat -> n ∉ default [] (seqs a !! l) ->
  exists el, load h (Node n) = Some el /\ values a !! n = Some (el_Value el) /\ el_list el <> Some l.
Proof.
  intros Hr Hn Hno. destruct (repr_node h a n Hr Hn) as (el & Hel & Hv). exists el. split_and!; [done | done |].
  intros Ho. destruct (proj1 (repr_owner _ _ Hr n l)) as (xs & Hxs & Hin); [by unfold listof; rewrite Hel |].
  rewrite Hxs in Hno. done.
Qed.

Lemma Remove_out h a l n : repr h a -> (n < length (values a))%nat -> n ∉ default [] (seqs a !! l) ->
  exists v, ItemList_Remove l (Node n) h = Ok (v, h) /\ values a !! n = Some v.
Proof.
  intros Hr Hn Hno. destruct (foreign_list _ _ _ _ Hr Hn Hno) as (el & Hel & Hv & Ho).
  exists (el_Value el). split; [| done]. unfold ItemList_Remove.
  rewrite (get_step _ _ _ _ Hel), bool_decide_eq_false_2 by done.
  rewrite (prog_bind_step_unit _ _ h h) by done. by rewrite (get_step _ _ _ _ Hel).
Qed.

Lemma PushFront_spec h a l xs v : repr h a -> seqs a !! l = Some xs ->
  exists h', ItemList_PushFront l v h = Ok (Node (length (values a)), h') /\
    repr h' (with_seq (add_value a v) l (length (values a) :: xs)).
Proof.
  intros Hr Hl. destruct (lazyInit_spec _ _ _ _ Hr Hl) as (h1 & Hi & Hr1 & Hlinks).
  destruct (insertValue_spec h1 a l [] xs v Hr1 Hl Hlinks) as (h2 & Hins & Hr2 & _).
  exists h2. split; [| done]. unfold ItemList_PushFront. by rewrite (prog_bind_step_unit _ _ _ _ Hi).
Qed.

Lemma root_prev h a l xs : repr h a -> seqs a !! l = Some xs -> links h l xs ->
  exists r, load h (Root l) = Some r /\ el_prev r = Some (last_loc l xs) /\ el_next r = Some (head_loc l xs).
Proof.
  intros Hr Hl Hlinks. destruct (Hlinks xs [] ltac:(by rewrite app_nil_r)) as [_ H2].
  destruct (Hlinks [] xs eq_refl) as [H1 _].
  change (head_loc l []) with (Root l) in H2. change (last_loc l []) with (Root l) in H1.
  unfold prevof, nextof in H1, H2. destruct (load h (Root l)) as [r |]; [eauto | done].
Qed.

(** [l.insertValue(v, l.root.prev)] *)
Lemma append_spec h a l xs v : repr h a -> seqs a !! l = Some xs -> links h l xs ->
  exists h', (r ← get (Root l); b ← deref (el_prev r); ItemList_insertValue l v b) h =
      Ok (Node (length (values a)), h') /\
    repr h' (with_seq (add_value a v) l (xs ++ [length (values a)])) /\ links h' l (xs ++ [length (values a)]).
Proof.
  intros Hr Hl Hlinks. destruct (root_prev _ _ _ _ Hr Hl Hlinks) as (r & Hroot & Hp & _).
  rewrite (get_step _ _ _ _ Hroot), Hp, deref_step.
  apply (insertValue_spec h a l xs [] v); by rewrite ?app_nil_r.
Qed.

Lemma PushBack_spec h a l xs v : repr h a -> seqs a !! l = Some xs ->
  exists h', ItemList_PushBack l v h = Ok (Node (length (values a)), h') /\
    repr h' (with_seq (add_value a v) l (xs ++ [length (values a)])).
Proof.
  intros Hr Hl. destruct (lazyInit_spec _ _ _ _ Hr Hl) as (h1 & Hi & Hr1 & Hlinks).
  destruct (append_spec h1 a l xs v Hr1 Hl Hlinks) as (h2 & Hins & Hr2 & _).
  exists h2. split; [| done]. unfold ItemList_PushBack. by rewrite (prog_bind_step_unit _ _ _ _ Hi).
Qed.

Lemma member_links h a l p n q : repr h a -> seqs a !! l = Some (p ++ n :: q) -> links h l (p ++ n :: q).
Proof. intros Hr Hl. by destruct (repr_links _ _ Hr _ _ Hl) as [| [? _]]; [| destruct p]. Qed.

Lemma InsertBefore_in h a l p m q v : repr h a -> seqs a !! l = Some (p ++ m :: q) ->
  exists h', ItemList_InsertBefore l v (Node m) h = Ok (Some (Node (length (values a))), h') /\
    repr h' (with_seq (add_value a v) l (p ++ length (values a) :: m :: q)).
Proof.
  intros Hr Hl. destruct (repr_element _ _ _ _ _ _ Hr Hl) as (el & Hel & _ & Ho & _ & Hp).
  destruct (insertValue_spec h a l p (m :: q) v) as (h2 & Hins & Hr2 & _); eauto using member_links.
  exists h2. split; [| done]. unfold ItemList_InsertBefore.
  rewrite (get_step _ _ _ _ Hel), bool_decide_eq_true_2, Hp, deref_step by done.
  by rewrite (prog_bind_step _ _ _ _ _ Hins).
Qed.

Lemma InsertAfter_in h a l p m q v : repr h a -> seqs a !! l = Some (p ++ m :: q) ->
  exists h', ItemList_InsertAfter l v (Node m) h = Ok (Some (Node (length (values a))), h') /\
    repr h' (with_seq (add_value a v) l (p ++ m :: length (values a) :: q)).
Proof.
  intros Hr Hl. destruct (repr_element _ _ _ _ _ _ Hr Hl) as (el & Hel & _ & Ho & _).
  destruct (insertValue_spec h a l (p ++ [m]) q v) as (h2 & Hins & Hr2 & _); rewrite <- ?app_assoc; cbn;
    eauto using member_links.
  rewrite last_loc_snoc in Hins. rewrite <- app_assoc in Hr2. cbn in Hr2.
  exists h2. split; [| done]. unfold ItemList_InsertAfter.
  rewrite (get_step _ _ _ _ Hel), bool_decide_eq_true_2 by done.
  by rewrite (prog_bind_step _ _ _ _ _ Hins).
Qed.

Lemma Insert_out h a l m v : repr h a -> (m < length (values a))%nat -> m ∉ default [] (seqs a !! l) ->
  ItemList_InsertBefore l v (Node m) h = Ok (None, h) /\ ItemList_InsertAfter l v (Node m) h = Ok (None, h).
Proof.
  intros Hr Hm Hno. destruct (foreign_list _ _ _ _ Hr Hm Hno) as (el & Hel & _ & Ho).
  unfold ItemList_InsertBefore, ItemList_InsertAfter.
  by rewrite !(get_step _ _ _ _ Hel), !bool_decide_eq_false_2.
Qed.

(** *** Moving an element within its list *)

Lemma move_spec h a l p q n p1 q1 : repr h a -> seqs a !! l = Some (p ++ n :: q) -> p ++ q = p1 ++ q1 ->
  exists h1 h', ItemList_remove l (Node n) h = Ok (Node n, h1) /\
    repr h1 (with_seq a l (p1 ++ q1)) /\ links h1 l (p1 ++ q1) /\
    ItemList_insert l (Node n) (last_loc l p1) h1 = Ok (Node n, h') /\
    repr h' (with_seq a l (p1 ++ n :: q1)).
Proof.
  intros Hr Hl Heq. destruct (remove_spec _ _ _ _ _ _ Hr Hl) as (h1 & Hrem & Hr1 & Hlinks).
  assert (Hlt : (n < length (values a))%nat) by (eapply repr_valid; eauto; apply in_middle; auto).
  assert (Hsome : is_Some (seqs a !! l)) by eauto.
  rewrite Heq in Hr1, Hlinks. exists h1.
  destruct (insert_spec h1 (with_seq a l (p1 ++ q1)) l p1 q1 n) as (h2 & Hins & Hr2 & _); try done.
  - rewrite seqs_with_seq by done. by rewrite decide_True.
  - destruct (repr_node _ _ n Hr1 Hlt) as (el & Hel & _). eauto.
  - destruct (listof h1 (Node n)) as [l' |] eqn:Ho; [| done]. exfalso.
    apply (repr_owner _ _ Hr1) in Ho as (ys & Hys & Hin). rewrite seqs_with_seq in Hys by done.
    case_decide as Hl'.
    + injection Hys as <-. rewrite <- Heq in Hin. apply (repr_nodup _ _ Hr), NoDup_middle in Hl.
      apply elem_of_app in Hin. tauto.
    + apply Hl'. eapply (repr_disjoint h a l' l); eauto. apply in_middle. auto.
  - exists h2. rewrite with_seq_twice in Hr2. done.
Qed.

Lemma MoveToFront_in h a l p n q : repr h a -> seqs a !! l = Some (p ++ n :: q) ->
  exists h', ItemList_MoveToFront l (Node n) h = Ok (tt, h') /\ repr h' (with_seq a l (n :: p ++ q)).
Proof.
  intros Hr Hl. assert (Hlinks := member_links _ _ _ _ _ _ Hr Hl).
  destruct (repr_element _ _ _ _ _ _ Hr Hl) as (el & Hel & _ & Ho & _).
  destruct (root_prev _ _ _ _ Hr Hl Hlinks) as (r & Hroot & _ & Hn).
  unfold ItemList_MoveToFront. rewrite (get_step _ _ _ _ Hel), (get_step _ _ _ _ Hroot), Ho, Hn.
  rewrite bool_decide_eq_false_2 by naive_solver. cbn [orb]. case_bool_decide as Hfirst.
  - destruct p as [| y p].
    + exists h. split; [done |]. by rewrite with_seq_id.
    + exfalso. apply (repr_nodup _ _ Hr), NoDup_middle in Hl as (Hnp & _). injection Hfirst as ->.
      apply Hnp. left.
  - destruct (move_spec h a l p q n [] (p ++ q) Hr Hl eq_refl) as (h1 & h2 & Hrem & _ & _ & Hins & Hr2).
    exists h2. split; [| done]. rewrite (prog_bind_step _ _ _ _ _ Hrem).
    by rewrite (prog_bind_step _ _ _ _ _ Hins).
Qed.

Lemma MoveToBack_in h a l p n q : repr h a -> seqs a !! l = Some (p ++ n :: q) ->
  exists h', ItemList_MoveToBack l (Node n) h = Ok (tt, h') /\ repr h' (with_seq a l ((p ++ q) ++ [n])).
Proof.
  intros Hr Hl. assert (Hlinks := member_links _ _ _ _ _ _ Hr Hl).
  destruct (repr_element _ _ _ _ _ _ Hr Hl) as (el & Hel & _ & Ho & _).
  destruct (root_prev _ _ _ _ Hr Hl Hlinks) as (r & Hroot & Hp & _).
  unfold ItemList_MoveToBack. rewrite (get_step _ _ _ _ Hel), (get_step _ _ _ _ Hroot), Ho, Hp.
  rewrite bool_decide_eq_false_2 by naive_solver. cbn [orb]. case_bool_decide as Hlast.
  - destruct q as [| z q _] using rev_ind.
    + exists h. split; [done |]. rewrite app_nil_r. by rewrite with_seq_id.
    + exfalso. apply (repr_nodup _ _ Hr), NoDup_middle in Hl as (_ & Hnq & _).
      change (n :: q ++ [z]) with ((n :: q) ++ [z]) in Hlast. rewrite app_assoc, last_loc_snoc in Hlast.
      injection Hlast as ->. apply Hnq, elem_of_app. right. left.
  - destruct (move_spec h a l p q n (p ++ q) [] Hr Hl) as (h1 & h2 & Hrem & Hr1 & Hl1 & Hins & Hr2);
      [by rewrite app_nil_r |]. rewrite app_nil_r in Hr1, Hl1.
    destruct (root_prev h1 _ l (p ++ q) Hr1) as (r1 & Hroot1 & Hp1 & _); [| done |].
    { rewrite seqs_with_seq by eauto. by rewrite decide_True. }
    exists h2. split; [| done]. rewrite (prog_bind_step _ _ _ _ _ Hrem).
    rewrite (get_step _ _ _ _ Hroot1), Hp1, deref_step. by rewrite (prog_bind_step _ _ _ _ _ Hins).
Qed.

(** [p ++ q] is the list without [n], and has [m] between [p1] and [q1]. *)
Lemma MoveBefore_in h a l p n q p1 m q1 : repr h a -> seqs a !! l = Some (p ++ n :: q) ->
  p ++ q = p1 ++ m :: q1 ->
  exists h', ItemList_MoveBefore l (Node n) (Node m) h = Ok (tt, h') /\
    repr h' (with_seq a l (p1 ++ n :: m :: q1)).
Proof.
  intros Hr Hl Heq. destruct (repr_element _ _ _ _ _ _ Hr Hl) as (el & Hel & _ & Ho & _).
  assert (Hm : m ∈ p ++ q) by (rewrite Heq; apply in_middle; auto).
  assert (Hne : n <> m).
  { intros ->. apply (repr_nodup _ _ Hr), NoDup_middle in Hl. apply elem_of_app in Hm. tauto. }
  destruct (list_elem_of_split (p ++ n :: q) m) as (p2 & q2 & Hsplit); [apply in_middle; auto |].
  destruct (repr_element h a l p2 m q2 Hr) as (em & Hem & _ & Hom & _); [by rewrite Hl, Hsplit |].
  unfold ItemList_MoveBefore. rewrite (get_step _ _ _ _ Hel), (get_step _ _ _ _ Hem), Ho, Hom.
  rewrite !bool_decide_eq_false_2 by naive_solver. cbn [orb].
  destruct (move_spec h a l p q n p1 (m :: q1) Hr Hl Heq) as (h1 & h2 & Hrem & Hr1 & Hl1 & Hins & Hr2).
  destruct (repr_element h1 _ l p1 m q1 Hr1) as (em1 & Hem1 & _ & _ & _ & Hp1).
  { rewrite seqs_with_seq by eauto. by rewrite decide_True. }
  exists h2. split; [| done]. rewrite (prog_bind_step _ _ _ _ _ Hrem).
  rewrite (get_step _ _ _ _ Hem1), Hp1, deref_step. by rewrite (prog_bind_step _ _ _ _ _ Hins).
Qed.

Lemma MoveAfter_in h a l p n q p1 m q1 : repr h a -> seqs a !! l = Some (p ++ n :: q) ->
  p ++ q = p1 ++ m :: q1 ->
  exists h', ItemList_MoveAfter l (Node n) (Node m) h = Ok (tt, h') /\
    repr h' (with_seq a l (p1 ++ m :: n :: q1)).
Proof.
  intros Hr Hl Heq. destruct (repr_element _ _ _ _ _ _ Hr Hl) as (el & Hel & _ & Ho & _).
  assert (Hm : m ∈ p ++ q) by (rewrite Heq; apply in_middle; auto).
  assert (Hne : n <> m).
  { intros ->. apply (repr_nodup _ _ Hr), NoDup_middle in Hl. apply elem_of_app in Hm. tauto. }
  destruct (list_elem_of_split (p ++ n :: q) m) as (p2 & q2 & Hsplit); [apply in_middle; auto |].
  destruct (repr_element h a l p2 m q2 Hr) as (em & Hem & _ & Hom & _); [by rewrite Hl, Hsplit |].
  unfold ItemList_MoveAfter. rewrite (get_step _ _ _ _ Hel), (get_step _ _ _ _ Hem), Ho, Hom.
  rewrite !bool_decide_eq_false_2 by naive_solver. cbn [orb].
  destruct (move_spec h a l p q n (p1 ++ [m]) q1 Hr Hl) as (h1 & h2 & Hrem & Hr1 & Hl1 & Hins & Hr2).
  { by rewrite <- app_assoc. }
  rewrite last_loc_snoc in Hins. rewrite <- app_assoc in Hr2.
  exists h2. split; [| done]. rewrite (prog_bind_step _ _ _ _ _ Hrem).
  by rewrite (prog_bind_step _ _ _ _ _ Hins).
Qed.

(** An element of another list, or of none, is not moved. *)
Lemma Move_out h a l n m : repr h a -> (n < length (values a))%nat -> (m < length (values a))%nat ->
  is_Some (seqs a !! l) ->
  (n ∉ default [] (seqs a !! l) ->
    ItemList_MoveToFront l (Node n) h = Ok (tt, h) /\ ItemList_MoveToBack l (Node n) h = Ok (tt, h)) /\
  (n ∉ default [] (seqs a !! l) \/ n = m \/ m ∉ default [] (seqs a !! l) ->
    ItemList_MoveBefore l (Node n) (Node m) h = Ok (tt, h) /\
    ItemList_MoveAfter l (Node n) (Node m) h = Ok (tt, h)).
Proof.
  intros Hr Hn Hm [xs Hl]. destruct (repr_node h a n Hr Hn) as (el & Hel & _).
  destruct (repr_node h a m Hr Hm) as (em & Hem & _).
  destruct (repr_list _ _ _ _ Hr Hl) as (L & HL & _).
  assert (Hroot : load h (Root l) = Some (root L)) by (cbn; by rewrite HL).
  unfold ItemList_MoveToFront, ItemList_MoveToBack, ItemList_MoveBefore, ItemList_MoveAfter.
  rewrite !(get_step _ _ _ _ Hel), !(get_step _ _ _ _ Hroot), !(get_step _ _ _ _ Hem). split.
  - intros Hno. destruct (foreign_list _ _ _ _ Hr Hn Hno) as (el' & Hel' & _ & Ho). simplify_eq.
    by rewrite bool_decide_eq_true_2.
  - intros [Hno | [-> | Hno]].
    + destruct (foreign_list _ _ _ _ Hr Hn Hno) as (el' & Hel' & _ & Ho). simplify_eq.
      by rewrite bool_decide_eq_true_2.
    + by rewrite (bool_decide_eq_true_2 (Node m = Node m)), orb_true_r by done.
    + destruct (foreign_list _ _ _ _ Hr Hm Hno) as (em' & Hem' & _ & Ho). simplify_eq.
      by rewrite (bool_decide_eq_true_2 (el_list em <> Some l)), !orb_true_r by done.
Qed.

(** *** Copying a list

    The copied list may be the one that grows. *)

Definition seq_of a l : list nat := default [] (seqs a !! l).
Definition push_front a l (v : V) : sequences V :=
  with_seq (add_value a v) l (length (values a) :: seq_of a l).
Definition push_back a l (v : V) : sequences V :=
  with_seq (add_value a v) l (seq_of a l ++ [length (values a)]).

Lemma omap_values_app a v ys : Forall (fun y => (y < length (values a))%nat) ys ->
  omap (fun y => (values a ++ [v]) !! y) ys = omap (fun y => values a !! y) ys.
Proof. induction 1 as [| y ys Hy _ IH]; [done |]. cbn. by rewrite lookup_app_l, IH. Qed.

Lemma push_back_list_spec l other ys : forall h a xs ys1 zs, repr h a -> seqs a !! l = Some xs ->
  links h l xs -> seqs a !! other = Some (ys1 ++ ys ++ zs) ->
  exists h', push_back_list l (length ys) (Node <$> head (ys ++ zs)) h = Ok (tt, h') /\
    repr h' (foldl (fun a v => push_back a l v) a (omap (fun y => values a !! y) ys)).
Proof.
  induction ys as [| y ys IH]; intros h a xs ys1 zs Hr Hl Hlinks Hother; [by exists h |].
  destruct (repr_element h a other ys1 y (ys ++ zs)) as (el & Hel & Hv & _); [done | done |].
  destruct (append_spec h a l xs (el_Value el) Hr Hl Hlinks) as (h1 & Hins & Hr1 & Hl1).
  assert (Ha : with_seq (add_value a (el_Value el)) l (xs ++ [length (values a)]) = push_back a l (el_Value el))
    by (unfold push_back, seq_of; by rewrite Hl). rewrite Ha in Hr1.
  assert (Hzs : exists zs', seqs (push_back a l (el_Value el)) !! other = Some (ys1 ++ y :: ys ++ zs')).
  { unfold push_back. rewrite seqs_with_seq by eauto. unfold seq_of. case_decide as Heq.
    - subst. rewrite Hother. exists (zs ++ [length (values a)]). apply f_equal. cbn [default from_option id]. by rewrite <- !app_assoc.
    - by exists zs. }
  destruct Hzs as [zs' Hother']. assert (Hnext := Next_spec _ _ _ _ _ _ Hr1 Hother').
  assert (Hvalid : Forall (fun y => (y < length (values a))%nat) ys).
  { apply Forall_forall. intros z Hz. eapply repr_valid; [done | exact Hother |].
    rewrite !elem_of_app. right. left. by right. }
  destruct (IH h1 (push_back a l (el_Value el)) (xs ++ [length (values a)]) (ys1 ++ [y]) zs')
    as (h2 & Hloop & Hr2); [done | | done | by rewrite <- app_assoc |].
  { unfold push_back. rewrite seqs_with_seq, decide_True by eauto. unfold seq_of. by rewrite Hl. }
  exists h2. cbn [length push_back_list]. change (Node <$> head ((y :: ys) ++ zs)) with (Some (Node y)).
  rewrite deref_step, (get_step _ _ _ _ Hel), (prog_bind_step _ _ _ _ _ Hins).
  rewrite (prog_bind_step _ _ _ _ _ Hnext), Hloop. split; [done |].
  cbn. rewrite Hv. cbn. rewrite <- (omap_values_app a (el_Value el)) by done. done.
Qed.

Lemma push_front_list_spec l other rs : forall h a xs ys1 zs, repr h a -> seqs a !! l = Some xs ->
  links h l xs -> seqs a !! other = Some ((zs ++ reverse rs) ++ ys1) ->
  exists h', push_front_list l (length rs) (Node <$> last (zs ++ reverse rs)) h = Ok (tt, h') /\
    repr h' (foldl (fun a v => push_front a l v) a (omap (fun y => values a !! y) rs)).
Proof.
  induction rs as [| y rs IH]; intros h a xs ys1 zs Hr Hl Hlinks Hother; [by exists h |].
  rewrite reverse_cons, app_assoc, <- (app_assoc _ [y]) in Hother.
  destruct (repr_element h a other (zs ++ reverse rs) y ys1) as (el & Hel & Hv & _); [done | done |].
  destruct (insertValue_spec h a l [] xs (el_Value el) Hr Hl Hlinks) as (h1 & Hins & Hr1 & Hl1).
  assert (Ha : with_seq (add_value a (el_Value el)) l ([] ++ length (values a) :: xs) = push_front a l (el_Value el))
    by (unfold push_front, seq_of; by rewrite Hl). rewrite Ha in Hr1.
  assert (Hzs : exists zs', seqs (push_front a l (el_Value el)) !! other = Some ((zs' ++ reverse rs) ++ y :: ys1)).
  { unfold push_front. rewrite seqs_with_seq by eauto. unfold seq_of. case_decide as Heq.
    - subst. rewrite Hother. by exists (length (values a) :: zs).
    - by exists zs. }
  destruct Hzs as [zs' Hother']. assert (Hprev := Prev_spec _ _ _ _ _ _ Hr1 Hother').
  assert (Hvalid : Forall (fun y => (y < length (values a))%nat) rs).
  { apply Forall_forall. intros z Hz. eapply repr_valid; [done | exact Hother |].
    rewrite !elem_of_app. left. right. by apply elem_of_reverse. }
  destruct (IH h1 (push_front a l (el_Value el)) (length (values a) :: xs) (y :: ys1) zs')
    as (h2 & Hloop & Hr2); [done | | done | done |].
  { unfold push_front. rewrite seqs_with_seq, decide_True by eauto. unfold seq_of. by rewrite Hl. }
  exists h2. cbn [length push_front_list]. rewrite reverse_cons, app_assoc, last_snoc.
  change (Node <$> Some y) with (Some (Node y)). change (Root l) with (last_loc l []).
  rewrite deref_step, (get_step _ _ _ _ Hel), (prog_bind_step _ _ _ _ _ Hins).
  rewrite (prog_bind_step _ _ _ _ _ Hprev), Hloop. split; [done |].
  cbn. rewrite Hv. cbn. rewrite <- (omap_values_app a (el_Value el)) by done. done.
Qed.

Lemma PushBackList_spec h a l other : repr h a -> is_Some (seqs a !! l) -> is_Some (seqs a !! other) ->
  exists h', ItemList_PushBackList l other h = Ok (tt, h') /\
    repr h' (foldl (fun a v => push_back a l v) a (omap (fun y => values a !! y) (seq_of a other))).
Proof.
  intros Hr [xs Hl] [ys Hother]. destruct (lazyInit_spec _ _ _ _ Hr Hl) as (h1 & Hi & Hr1 & Hlinks).
  destruct (push_back_list_spec l other ys h1 a xs [] []) as (h2 & Hloop & Hr2); rewrite ?app_nil_r; try done.
  exists h2. unfold seq_of. rewrite Hother. split; [| done]. unfold ItemList_PushBackList.
  rewrite (prog_bind_step_unit _ _ _ _ Hi), (prog_bind_step _ _ _ _ _ (Len_spec _ _ _ _ Hr1 Hother)).
  rewrite (prog_bind_step _ _ _ _ _ (Front_spec _ _ _ _ Hr1 Hother)).
  rewrite app_nil_r in Hloop. unfold len. by rewrite Nat2Z.id.
Qed.

Lemma PushFrontList_spec h a l other : repr h a -> is_Some (seqs a !! l) -> is_Some (seqs a !! other) ->
  exists h', ItemList_PushFrontList l other h = Ok (tt, h') /\
    repr h' (foldl (fun a v => push_front a l v) a (omap (fun y => values a !! y) (reverse (seq_of a other)))).
Proof.
  intros Hr [xs Hl] [ys Hother]. destruct (lazyInit_spec _ _ _ _ Hr Hl) as (h1 & Hi & Hr1 & Hlinks).
  destruct (push_front_list_spec l other (reverse ys) h1 a xs [] []) as (h2 & Hloop & Hr2);
    rewrite ?app_nil_r, ?app_nil_l, ?reverse_involutive; try done.
  exists h2. unfold seq_of. rewrite Hother. split; [| done]. unfold ItemList_PushFrontList.
  rewrite (prog_bind_step_unit _ _ _ _ Hi), (prog_bind_step _ _ _ _ _ (Len_spec _ _ _ _ Hr1 Hother)).
  rewrite (prog_bind_step _ _ _ _ _ (Back_spec _ _ _ _ Hr1 Hother)).
  rewrite app_nil_l, reverse_involutive, length_reverse in Hloop. unfold len. by rewrite Nat2Z.id.
Qed.

(** ** The values of a list *)

Definition holds a xs (vs : list V) : Prop := Forall2 (fun n v => values a !! n = Some v) xs vs.

Lemma holds_add a xs vs v : holds a xs vs -> holds (add_value a v) xs vs.
Proof. intros H. eapply Forall2_impl; [exact H |]. intros n w. cbn. by apply lookup_app_l_Some. Qed.

Lemma holds_new a v : holds (add_value a v) [length (values a)] [v].
Proof. constructor; [| constructor]. cbn. by apply list_lookup_middle. Qed.

Lemma holds_set a xs vs n v : n ∉ xs -> holds a xs vs -> holds (mkSeqs (<[n := v]> (values a)) (seqs a)) xs vs.
Proof.
  intros Hn H. induction H as [| m w xs vs Hm _ IH]; [constructor |].
  apply not_elem_of_cons in Hn as [Hne Hn]. constructor; [| by apply IH].
  cbn. by rewrite list_lookup_insert_ne.
Qed.

Lemma holds_set_self a n v : (n < length (values a))%nat ->
  holds (mkSeqs (<[n := v]> (values a)) (seqs a)) [n] [v].
Proof. intros Hn. constructor; [| constructor]. cbn. by apply list_lookup_insert_eq. Qed.

Lemma holds_length a xs vs : holds a xs vs -> length xs = length vs.
Proof. apply Forall2_length. Qed.

Lemma holds_seqs a b xs vs : values a = values b -> holds a xs vs -> holds b xs vs.
Proof. unfold holds. by intros ->. Qed.

(** A list whose elements have the values [vs], in this order. *)
Definition represents h l (vs : list V) : Prop :=
  exists a xs, repr h a /\ seqs a !! l = Some xs /\ holds a xs vs.

Lemma represents_with_seq h a l xs vs : repr h (with_seq a l xs) -> is_Some (seqs a !! l) -> holds a xs vs ->
  represents h l vs.
Proof.
  intros Hr Hl Hv. eexists _, _. split_and!; [done | |].
  - rewrite seqs_with_seq by done. by rewrite decide_True.
  - by apply (holds_seqs a).
Qed.

Lemma holds_cons a n v xs vs : holds a (n :: xs) (v :: vs) <-> values a !! n = Some v /\ holds a xs vs.
Proof. unfold holds. by rewrite Forall2_cons. Qed.

(** A list with the element [r] between [p] and [q]. *)
Section place.
Context (h : heap V) (a : sequences V) (l r : nat) (p q : list nat).
Context (u : V) (us vq : list V).
Context (Hr : repr h a) (Hl : seqs a !! l = Some (p ++ r :: q)).
Context (Hp : holds a p us) (Hu : values a !! r = Some u) (Hq : holds a q vq).

Lemma place_represents : represents h l (us ++ u :: vq).
Proof. exists a. eexists. split_and!; [done | done |]. apply Forall2_app; [done | by constructor]. Qed.

Lemma place_get : exists el, load h (Node r) = Some el /\ el_Value el = u.
Proof.
  destruct (repr_element _ _ _ _ _ _ Hr Hl) as (el & Hel & Hv & _). exists el. split; [done |]. congruence.
Qed.

Lemma place_distinct : (r ∉ p) /\ (r ∉ q).
Proof. by apply (repr_nodup _ _ Hr), NoDup_middle in Hl as (H1 & H2 & _). Qed.

Lemma place_set v : exists h' a', modify (Node r) (set_Value v) h = Ok (tt, h') /\ repr h' a' /\
  seqs a' !! l = Some (p ++ r :: q) /\ holds a' p us /\ values a' !! r = Some v /\ holds a' q vq.
Proof.
  assert (Hlt : (r < length (values a))%nat) by by eapply lookup_lt_Some.
  destruct (set_Value_spec h a r v Hr Hlt) as (h' & Hrun & Hr'). destruct place_distinct as [H1 H2].
  eexists h', _. split_and!; [done | done | done | by apply holds_set | | by apply holds_set].
  cbn. by apply list_lookup_insert_eq.
Qed.

Lemma place_remove : exists h' v, ItemList_Remove l (Node r) h = Ok (v, h') /\
  repr h' (with_seq a l (p ++ q)) /\ represents h' l (us ++ vq).
Proof.
  destruct (Remove_in _ _ _ _ _ _ Hr Hl) as (h' & v & Hrun & _ & Hr'). exists h', v.
  split_and!; [done | done |]. eapply represents_with_seq; [done | eauto |]. by apply Forall2_app.
Qed.
End place.

Lemma represents_Len h l vs : represents h l vs -> ItemList_Len l h = Ok (len vs, h).
Proof.
  intros (a & xs & Hr & Hl & Hv). rewrite (Len_spec _ _ _ _ Hr Hl). unfold len.
  by rewrite (holds_length _ _ _ Hv).
Qed.

Lemma represents_PushBack h l vs v : represents h l vs ->
  exists h' e, ItemList_PushBack l v h = Ok (e, h') /\ represents h' l (vs ++ [v]).
Proof.
  intros (a & xs & Hr & Hl & Hv). destruct (PushBack_spec _ _ _ _ v Hr Hl) as (h' & Hrun & Hr').
  exists h'. eexists. split; [done |]. eapply represents_with_seq; [done | eauto |].
  apply Forall2_app; [by apply holds_add | apply holds_new].
Qed.

(** Nothing is allocated. *)
Definition no_heap : heap V := mkHeap [] [].
Definition no_sequences : sequences V := mkSeqs [] [].

Lemma repr_empty : repr no_heap no_sequences.
Proof. split; try done. intros n l. split; [done |]. by intros (xs & Hl & _). Qed.

Lemma holds_reverse a xs vs : holds a xs vs -> holds a (reverse xs) (reverse vs).
Proof. apply Forall2_reverse. Qed.

End representation.
