(* ===== verification/ListPrograms.v ===== *)
(** * Programs that use linked lists

    Sequences of operations on linked lists, as any client of
    internal/utils/linkedlist/linkedlist.go can perform them, give the answers of
    the same operations on sequences of elements. *)

From S2P Require Import Prelude LinkedList.

(** ** Sequences of operations *)

Section programs.
Context {V : Type} (zero : V).
Implicit Types (h : heap V) (a : sequences V) (l n m : nat).

(** The exported operations, and the assignment to the value of an element. *)
Inductive op : Type :=
| NewList | Len (l : nat) | Front (l : nat) | Back (l : nat) | Next (n : nat) | Prev (n : nat)
| SetValue (n : nat) (v : V) | Remove (l n : nat) | PushFront (l : nat) (v : V) | PushBack (l : nat) (v : V)
| InsertBefore (l : nat) (v : V) (m : nat) | InsertAfter (l : nat) (v : V) (m : nat)
| MoveToFront (l n : nat) | MoveToBack (l n : nat) | MoveBefore (l n m : nat) | MoveAfter (l n m : nat)
| PushBackList (l other : nat) | PushFrontList (l other : nat).

Inductive answer : Type :=
| Nothing | AList (l : nat) | ALen (n : Z) | AElement (e : option loc) | AValue (v : V).

Definition run_op (o : op) : prog answer :=
  match o with
  | NewList => l ← NewItemList zero; mret (AList l)
  | Len l => n ← ItemList_Len l; mret (ALen n)
  | Front l => e ← ItemList_Front l; mret (AElement e)
  | Back l => e ← ItemList_Back l; mret (AElement e)
  | Next n => e ← ItemElement_Next (Node n); mret (AElement e)
  | Prev n => e ← ItemElement_Prev (Node n); mret (AElement e)
  | SetValue n v => modify (Node n) (set_Value v);; mret Nothing
  | Remove l n => v ← ItemList_Remove l (Node n); mret (AValue v)
  | PushFront l v => e ← ItemList_PushFront l v; mret (AElement (Some e))
  | PushBack l v => e ← ItemList_PushBack l v; mret (AElement (Some e))
  | InsertBefore l v m => e ← ItemList_InsertBefore l v (Node m); mret (AElement e)
  | InsertAfter l v m => e ← ItemList_InsertAfter l v (Node m); mret (AElement e)
  | MoveToFront l n => ItemList_MoveToFront l (Node n);; mret Nothing
  | MoveToBack l n => ItemList_MoveToBack l (Node n);; mret Nothing
  | MoveBefore l n m => ItemList_MoveBefore l (Node n) (Node m);; mret Nothing
  | MoveAfter l n m => ItemList_MoveAfter l (Node n) (Node m);; mret Nothing
  | PushBackList l other => ItemList_PushBackList l other;; mret Nothing
  | PushFrontList l other => ItemList_PushFrontList l other;; mret Nothing
  end.

(** The same operations on sequences. *)
Fixpoint succ_of n (xs : list nat) : option nat :=
  match xs with
  | [] => None
  | x :: xs => if decide (x = n) then head xs else succ_of n xs
  end.
Fixpoint insert_before m n (xs : list nat) : list nat :=
  match xs with
  | [] => []
  | x :: xs => if decide (x = m) then n :: x :: xs else x :: insert_before m n xs
  end.
Fixpoint insert_after m n (xs : list nat) : list nat :=
  match xs with
  | [] => []
  | x :: xs => if decide (x = m) then x :: n :: xs else x :: insert_after m n xs
  end.
Definition without n (xs : list nat) : list nat := filter (fun m => m <> n) xs.
Definition list_with a n : list nat := default [] (head (filter (fun xs => n ∈ xs) (seqs a))).

Definition spec_op (o : op) a : answer * sequences V :=
  let new := length (values a) in
  match o with
  | NewList => (AList (length (seqs a)), mkSeqs (values a) (seqs a ++ [[]]))
  | Len l => (ALen (len (seq_of a l)), a)
  | Front l => (AElement (Node <$> head (seq_of a l)), a)
  | Back l => (AElement (Node <$> last (seq_of a l)), a)
  | Next n => (AElement (Node <$> succ_of n (list_with a n)), a)
  | Prev n => (AElement (Node <$> succ_of n (reverse (list_with a n))), a)
  | SetValue n v => (Nothing, mkSeqs (<[n := v]> (values a)) (seqs a))
  | Remove l n => (AValue (default zero (values a !! n)), with_seq a l (without n (seq_of a l)))
  | PushFront l v => (AElement (Some (Node new)), push_front a l v)
  | PushBack l v => (AElement (Some (Node new)), push_back a l v)
  | InsertBefore l v m =>
      if decide (m ∈ seq_of a l) then
        (AElement (Some (Node new)), with_seq (add_value a v) l (insert_before m new (seq_of a l)))
      else (AElement None, a)
  | InsertAfter l v m =>
      if decide (m ∈ seq_of a l) then
        (AElement (Some (Node new)), with_seq (add_value a v) l (insert_after m new (seq_of a l)))
      else (AElement None, a)
  | MoveToFront l n =>
      (Nothing, if decide (n ∈ seq_of a l) then with_seq a l (n :: without n (seq_of a l)) else a)
  | MoveToBack l n =>
      (Nothing, if decide (n ∈ seq_of a l) then with_seq a l (without n (seq_of a l) ++ [n]) else a)
  | MoveBefore l n m =>
      (Nothing, if decide (n ∈ seq_of a l /\ n <> m /\ m ∈ seq_of a l)
                then with_seq a l (insert_before m n (without n (seq_of a l))) else a)
  | MoveAfter l n m =>
      (Nothing, if decide (n ∈ seq_of a l /\ n <> m /\ m ∈ seq_of a l)
                then with_seq a l (insert_after m n (without n (seq_of a l))) else a)
  | PushBackList l other =>
      (Nothing, foldl (fun a v => push_back a l v) a (omap (fun y => values a !! y) (seq_of a other)))
  | PushFrontList l other =>
      (Nothing, foldl (fun a v => push_front a l v) a (omap (fun y => values a !! y) (reverse (seq_of a other))))
  end.

(** Pointers are to lists and elements that exist. *)
Definition has_list a l : Prop := (l < length (seqs a))%nat.
Definition has_node a n : Prop := (n < length (values a))%nat.
Definition op_ok (o : op) a : Prop :=
  match o with
  | NewList => True
  | Len l | Front l | Back l | PushFront l _ | PushBack l _ => has_list a l
  | Next n | Prev n | SetValue n _ => has_node a n
  | Remove l n | MoveToFront l n | MoveToBack l n | InsertBefore l _ n | InsertAfter l _ n =>
      has_list a l /\ has_node a n
  | MoveBefore l n m | MoveAfter l n m => has_list a l /\ has_node a n /\ has_node a m
  | PushBackList l other | PushFrontList l other => has_list a l /\ has_list a other
  end.

(** *** Sequences at a place *)

Lemma succ_of_split n p q : n ∉ p -> succ_of n (p ++ n :: q) = head q.
Proof.
  induction p as [| x p IH]; cbn; intros Hn.
  - by rewrite decide_True.
  - apply not_elem_of_cons in Hn as [? ?]. rewrite decide_False by done. auto.
Qed.

Lemma insert_before_split m n p q : m ∉ p -> insert_before m n (p ++ m :: q) = p ++ n :: m :: q.
Proof.
  induction p as [| x p IH]; cbn; intros Hm.
  - by rewrite decide_True.
  - apply not_elem_of_cons in Hm as [? ?]. rewrite decide_False by done. by rewrite IH.
Qed.

Lemma insert_after_split m n p q : m ∉ p -> insert_after m n (p ++ m :: q) = p ++ m :: n :: q.
Proof.
  induction p as [| x p IH]; cbn; intros Hm.
  - by rewrite decide_True.
  - apply not_elem_of_cons in Hm as [? ?]. rewrite decide_False by done. by rewrite IH.
Qed.

Lemma without_id n xs : n ∉ xs -> without n xs = xs.
Proof.
  induction xs as [| x xs IH]; [done |]. intros [Hne Hn]%not_elem_of_cons. unfold without in *.
  rewrite filter_cons_True by done. by rewrite IH.
Qed.

Lemma without_split n p q : NoDup (p ++ n :: q) -> without n (p ++ n :: q) = p ++ q.
Proof.
  intros (Hp & Hq & _)%NoDup_middle. unfold without. rewrite filter_app, filter_cons_False by tauto.
  f_equal; by apply without_id.
Qed.

Lemma list_with_eq h a l xs n : repr h a -> seqs a !! l = Some xs -> n ∈ xs -> list_with a n = xs.
Proof.
  intros Hr Hl Hn. unfold list_with.
  destruct (filter (fun xs => n ∈ xs) (seqs a)) as [| ys rest] eqn:Hf.
  - exfalso. assert (Hin : xs ∈ filter (fun xs => n ∈ xs) (seqs a)).
    { apply list_elem_of_filter. split; [done |]. by eapply list_elem_of_lookup_2. }
    rewrite Hf in Hin. by apply elem_of_nil in Hin.
  - assert (Hin : ys ∈ filter (fun xs => n ∈ xs) (seqs a)) by (rewrite Hf; left).
    apply list_elem_of_filter in Hin as [Hn' [l' Hl']%list_elem_of_lookup_1].
    assert (l = l') by eauto using repr_disjoint. subst. cbn. congruence.
Qed.

Lemma list_with_none a n : (forall l xs, seqs a !! l = Some xs -> n ∉ xs) -> list_with a n = [].
Proof.
  intros Hno. unfold list_with. destruct (filter _ (seqs a)) as [| ys rest] eqn:Hf; [done |].
  exfalso. assert (Hin : ys ∈ filter (fun xs => n ∈ xs) (seqs a)) by (rewrite Hf; left).
  apply list_elem_of_filter in Hin as [Hn' [l' Hl']%list_elem_of_lookup_1]. by eapply Hno.
Qed.

Lemma has_list_Some a l : has_list a l -> seqs a !! l = Some (seq_of a l).
Proof. intros [xs H]%lookup_lt_is_Some. unfold seq_of. by rewrite H. Qed.

(** An element of a sequence without duplicates, by its place. *)
Lemma place h a l n : repr h a -> has_list a l -> n ∈ seq_of a l ->
  exists p q, seqs a !! l = Some (p ++ n :: q) /\ seq_of a l = p ++ n :: q /\ (n ∉ p) /\ (n ∉ q) /\
    without n (seq_of a l) = p ++ q.
Proof.
  intros Hr Hl%has_list_Some (p & q & Heq)%list_elem_of_split. rewrite Heq in *.
  exists p, q. assert (Hnd := repr_nodup _ _ Hr _ _ Hl). rewrite (without_split n p q Hnd).
  by apply NoDup_middle in Hnd as (? & ? & _).
Qed.

(** *** One operation *)

Definition implements h a (o : op) : Prop :=
  exists h', run_op o h = Ok (fst (spec_op o a), h') /\ repr h' (snd (spec_op o a)).

(** A step whose program returns what the specification says. *)
Lemma run_step {A} (m : prog A) (f : A -> answer) h x h' : m h = Ok (x, h') ->
  (y ← m; mret (f y)) h = Ok (f x, h').
Proof. intros H. by rewrite (prog_bind_step _ _ _ _ _ H). Qed.

Lemma member_or_not h a n : repr h a -> has_node a n ->
  (exists l p q, seqs a !! l = Some (p ++ n :: q) /\ (n ∉ p) /\ (n ∉ q) /\ list_with a n = p ++ n :: q) \/
  (list_with a n = [] /\ exists el, load h (Node n) = Some el /\ el_list el = None).
Proof.
  intros Hr Hn. destruct (repr_node h a n Hr Hn) as (el & Hel & _).
  destruct (el_list el) as [l |] eqn:Ho.
  - left. assert (Hl : listof h (Node n) = Some l) by (unfold listof; by rewrite Hel).
    apply (repr_owner _ _ Hr) in Hl as (xs & Hl & Hin).
    assert (Hlist : has_list a l) by by eapply lookup_lt_Some.
    assert (Hxs : seq_of a l = xs) by (unfold seq_of; by rewrite Hl). rewrite <- Hxs in Hin.
    destruct (place _ _ _ _ Hr Hlist Hin) as (p & q & Hpq & _ & Hp & Hq & _).
    exists l, p, q. split_and!; try done. eapply list_with_eq; [done | done |]. apply in_middle. auto.
  - right. split; [| eauto]. apply list_with_none. intros l xs Hl Hin.
    assert (Hown : listof h (Node n) = Some l) by (apply (repr_owner _ _ Hr); eauto).
    unfold listof in Hown. rewrite Hel in Hown. cbn in Hown. congruence.
Qed.

Lemma Next_refines h a n : repr h a -> has_node a n ->
  ItemElement_Next (Node n) h = Ok (Node <$> succ_of n (list_with a n), h) /\
  ItemElement_Prev (Node n) h = Ok (Node <$> succ_of n (reverse (list_with a n)), h).
Proof.
  intros Hr Hn. destruct (member_or_not _ _ _ Hr Hn) as [(l & p & q & Hl & Hp & Hq & ->) | (-> & el & Hel & Ho)].
  - rewrite reverse_app, reverse_cons, <- app_assoc. cbn [app].
    rewrite !succ_of_split, head_reverse by (by rewrite ?elem_of_reverse). eauto using Next_spec, Prev_spec.
  - unfold ItemElement_Next, ItemElement_Prev. by rewrite !(get_step _ _ _ _ Hel), Ho.
Qed.

Ltac by_run H := cbn [fst snd]; eexists; split; [apply run_step, H | done].

Lemma read_refines h a o : repr h a -> op_ok o a ->
  match o with Len _ | Front _ | Back _ | Next _ | Prev _ => True | _ => False end -> implements h a o.
Proof.
  intros Hr Hok Hread. destruct o; try done; cbn in Hok; unfold implements; cbn.
  - apply has_list_Some in Hok. by_run (Len_spec _ _ _ _ Hr Hok).
  - apply has_list_Some in Hok. by_run (Front_spec _ _ _ _ Hr Hok).
  - apply has_list_Some in Hok. by_run (Back_spec _ _ _ _ Hr Hok).
  - by_run (proj1 (Next_refines _ _ _ Hr Hok)).
  - by_run (proj2 (Next_refines _ _ _ Hr Hok)).
Qed.

Lemma write_refines h a o : repr h a -> op_ok o a ->
  match o with
  | NewList | SetValue _ _ | PushFront _ _ | PushBack _ _ | PushBackList _ _ | PushFrontList _ _ => True
  | _ => False
  end -> implements h a o.
Proof.
  intros Hr Hok Hwrite. destruct o; try done; cbn in Hok; unfold implements; cbn.
  - destruct (NewItemList_spec zero h a Hr) as (h' & Hrun & Hr'). by_run Hrun.
  - destruct (set_Value_spec h a n v Hr Hok) as (h' & Hrun & Hr').
    exists h'. by rewrite (prog_bind_step_unit _ _ _ _ Hrun).
  - apply has_list_Some in Hok. destruct (PushFront_spec h a l _ v Hr Hok) as (h' & Hrun & Hr').
    exists h'. split; [apply (run_step _ (fun e => AElement (Some e)) _ _ _ Hrun) | done].
  - apply has_list_Some in Hok. destruct (PushBack_spec h a l _ v Hr Hok) as (h' & Hrun & Hr').
    exists h'. split; [apply (run_step _ (fun e => AElement (Some e)) _ _ _ Hrun) | done].
  - destruct Hok as [Hl%has_list_Some Ho%has_list_Some].
    destruct (PushBackList_spec h a l other) as (h' & Hrun & Hr'); eauto.
    exists h'. by rewrite (prog_bind_step_unit _ _ _ _ Hrun).
  - destruct Hok as [Hl%has_list_Some Ho%has_list_Some].
    destruct (PushFrontList_spec h a l other) as (h' & Hrun & Hr'); eauto.
    exists h'. by rewrite (prog_bind_step_unit _ _ _ _ Hrun).
Qed.

Lemma element_refines h a o : repr h a -> op_ok o a ->
  match o with
  | Remove _ _ | InsertBefore _ _ _ | InsertAfter _ _ _ | MoveToFront _ _ | MoveToBack _ _ => True
  | _ => False
  end -> implements h a o.
Proof.
  intros Hr Hok Hel. destruct o as [| | | | | | | l n | | | l v n | l v n | l n | l n | | | |]; try done;
    destruct Hok as [Hl Hn]; unfold implements; cbn;
    (destruct (decide (n ∈ seq_of a l)) as [Hin | Hno];
     [destruct (place _ _ _ _ Hr Hl Hin) as (p & q & Hpq & Heq & Hp & Hq & Hw) |]).
  - destruct (Remove_in _ _ _ _ _ _ Hr Hpq) as (h' & v & Hrun & Hv & Hr').
    rewrite Hw, Hv. by_run Hrun.
  - destruct (Remove_out _ _ _ _ Hr Hn Hno) as (v & Hrun & Hv).
    rewrite without_id, with_seq_id, Hv by eauto using has_list_Some. by_run Hrun.
  - destruct (InsertBefore_in _ _ _ _ _ _ v Hr Hpq) as (h' & Hrun & Hr').
    rewrite Heq, insert_before_split by done. by_run Hrun.
  - destruct (Insert_out _ _ _ _ v Hr Hn Hno) as [Hrun _]. by_run Hrun.
  - destruct (InsertAfter_in _ _ _ _ _ _ v Hr Hpq) as (h' & Hrun & Hr').
    rewrite Heq, insert_after_split by done. by_run Hrun.
  - destruct (Insert_out _ _ _ _ v Hr Hn Hno) as [_ Hrun]. by_run Hrun.
  - destruct (MoveToFront_in _ _ _ _ _ _ Hr Hpq) as (h' & Hrun & Hr').
    exists h'. by rewrite Hw, (prog_bind_step_unit _ _ _ _ Hrun).
  - destruct (proj1 (Move_out h a l n n Hr Hn Hn ltac:(eauto using has_list_Some)) Hno) as [Hrun _].
    exists h. by rewrite (prog_bind_step_unit _ _ _ _ Hrun).
  - destruct (MoveToBack_in _ _ _ _ _ _ Hr Hpq) as (h' & Hrun & Hr').
    exists h'. by rewrite Hw, (prog_bind_step_unit _ _ _ _ Hrun).
  - destruct (proj1 (Move_out h a l n n Hr Hn Hn ltac:(eauto using has_list_Some)) Hno) as [_ Hrun].
    exists h. by rewrite (prog_bind_step_unit _ _ _ _ Hrun).
Qed.

Lemma move_refines h a l n m : repr h a -> has_list a l -> has_node a n -> has_node a m ->
  implements h a (MoveBefore l n m) /\ implements h a (MoveAfter l n m).
Proof.
  intros Hr Hl Hn Hm. unfold implements; cbn.
  destruct (decide (n ∈ seq_of a l /\ n <> m /\ m ∈ seq_of a l)) as [(Hin & Hne & Hmin) | Hno].
  - destruct (place _ _ _ _ Hr Hl Hin) as (p & q & Hpq & Heq & Hp & Hq & Hw). rewrite Hw.
    assert (Hmpq : m ∈ p ++ q) by (rewrite Heq in Hmin; by apply in_middle in Hmin as [|]).
    destruct (list_elem_of_split_l _ _ Hmpq) as (p1 & q1 & Hsplit & Hnot).
    rewrite Hsplit, insert_before_split, insert_after_split by done.
    destruct (MoveBefore_in h a l p n q p1 m q1 Hr Hpq Hsplit) as (h1 & Hrun1 & Hr1).
    destruct (MoveAfter_in h a l p n q p1 m q1 Hr Hpq Hsplit) as (h2 & Hrun2 & Hr2).
    split; [exists h1; by rewrite (prog_bind_step_unit _ _ _ _ Hrun1) |].
    exists h2. by rewrite (prog_bind_step_unit _ _ _ _ Hrun2).
  - destruct (proj2 (Move_out h a l n m Hr Hn Hm ltac:(eauto using has_list_Some))) as [Hrun1 Hrun2].
    { destruct (decide (n ∈ seq_of a l)); [| by left]. destruct (decide (n = m)); [by right; left |].
      right. right. intros ?. by apply Hno. }
    split; exists h; [by rewrite (prog_bind_step_unit _ _ _ _ Hrun1) | by rewrite (prog_bind_step_unit _ _ _ _ Hrun2)].
Qed.

Lemma op_refines h a o : repr h a -> op_ok o a -> implements h a o.
Proof.
  intros Hr Hok. destruct o; try (by apply read_refines); try (by apply write_refines);
    try (by apply element_refines); destruct Hok as (Hl & Hn & Hm); by apply move_refines.
Qed.

(** *** Sequences of operations *)

Fixpoint run_ops (os : list op) : prog (list answer) :=
  match os with
  | [] => mret []
  | o :: os => r ← run_op o; rs ← run_ops os; mret (r :: rs)
  end.

Fixpoint spec_ops (os : list op) a : list answer * sequences V :=
  match os with
  | [] => ([], a)
  | o :: os => let '(r, a) := spec_op o a in let '(rs, a) := spec_ops os a in (r :: rs, a)
  end.

Fixpoint ops_ok (os : list op) a : Prop :=
  match os with
  | [] => True
  | o :: os => op_ok o a /\ ops_ok os (snd (spec_op o a))
  end.

Lemma ops_refine os : forall h a, repr h a -> ops_ok os a ->
  exists h', run_ops os h = Ok (fst (spec_ops os a), h') /\ repr h' (snd (spec_ops os a)).
Proof.
  induction os as [| o os IH]; intros h a Hr Hok; [by exists h |]. destruct Hok as [Ho Hos].
  destruct (op_refines h a o Hr Ho) as (h1 & Hrun & Hr1).
  destruct (IH h1 _ Hr1 Hos) as (h2 & Hruns & Hr2). exists h2. cbn [run_ops spec_ops].
  rewrite (prog_bind_step _ _ _ _ _ Hrun), (prog_bind_step _ _ _ _ _ Hruns).
  destruct (spec_op o a) as [r a1]. cbn [fst snd] in *. by destruct (spec_ops os a1).
Qed.

(** C22. Every sequence of operations on linked lists, whichever lists and
    elements they are applied to, runs without dereferencing a nil pointer, gives
    the answers of the same operations on plain sequences, and leaves rings that
    hold these sequences: elements of other lists are ignored, moving an element
    next to itself changes nothing, and a list can be appended to itself. *)
Theorem linked_lists_correct os : ops_ok os no_sequences ->
  exists h, run_ops os no_heap = Ok (fst (spec_ops os no_sequences), h) /\
    repr h (snd (spec_ops os no_sequences)).
Proof. apply ops_refine, repr_empty. Qed.
End programs.

(** Two lists; elements are moved, removed, removed again, and copied, also within
    one list. *)
Definition sample_ops : list (@op Z) :=
  [NewList; NewList; PushBack 0 1; PushBack 0 2; PushFront 0 3; InsertAfter 0 4 2; PushBack 1 5;
   MoveBefore 0 0 3; MoveToFront 0 1; Remove 0 4; Remove 0 2; Next 2; PushBackList 0 0; PushFrontList 1 0;
   Len 0; Back 1; Prev 1; InsertBefore 1 6 1].

Lemma linked_lists_correct_witness :
  exists h, run_ops 0 sample_ops no_heap = Ok (fst (spec_ops 0 sample_ops no_sequences), h) /\
    repr h (snd (spec_ops 0 sample_ops no_sequences)) /\
    seqs (snd (spec_ops 0 sample_ops no_sequences)) = [[1; 0; 3; 5; 6; 7]; [13; 12; 11; 10; 9; 8; 4]]%nat.
Proof.
  destruct (linked_lists_correct 0 sample_ops) as (h & Hrun & Hr).
  { repeat split; vm_compute; lia. }
  exists h. split; [exact Hrun |]. split; [exact Hr |]. vm_compute. reflexivity.
Defined.

(** [Init] does not clear a list that has elements: they are still of the list, so
    that removing one makes its length negative. *)
Theorem init_keeps_elements (v : Z) :
  (fst <$> (l ← NewItemList 0; e ← ItemList_PushBack l v; ItemList_Init l;;
     ItemList_Remove l e;; ItemList_Len l) no_heap) = Ok (-1).
Proof. reflexivity. Qed.
