(* ===== verification/Qerr.v ===== *)
(** * QUIC error codes (internal/qerr)

    The error codes of error_codes.go, the generated [String] method of
    errorcode_string.go, and the conversions of quic_error.go. *)

From S2P Require Import Prelude.

(** ** error_codes.go

    The codes the modelled code uses by name; [error_codes] has all of them. *)

Definition InternalError : Z := 1.
Definition StreamDataAfterTermination : Z := 2.
Definition InvalidPacketHeader : Z := 3.
Definition InvalidFrameData : Z := 4.
Definition MissingPayload : Z := 48.
Definition InvalidStreamData : Z := 46.
Definition UnencryptedStreamData : Z := 61.
Definition InvalidAckData : Z := 9.
Definition InvalidVersionNegotiationPacket : Z := 10.
Definition DecryptionFailure : Z := 12.
Definition PeerGoingAway : Z := 16.
Definition InvalidStreamID : Z := 17.
Definition TooManyOpenStreams : Z := 18.
Definition InvalidVersion : Z := 20.
Definition NetworkIdleTimeout : Z := 25.
Definition HandshakeTimeout : Z := 67.
Definition FlowControlReceivedTooMuchData : Z := 59.
Definition TooManyOutstandingReceivedPackets : Z := 69.
Definition TimeoutsWithOpenStreams : Z := 74.
Definition HandshakeFailed : Z := 28.
Definition ProofInvalid : Z := 42.
Definition VersionNegotiationMismatch : Z := 55.

(** Every declared code with its name, in the order of the declarations. *)
Definition error_codes : list (string * Z) :=
  [ ("InternalError", InternalError);
    ("StreamDataAfterTermination", StreamDataAfterTermination);
    ("InvalidPacketHeader", InvalidPacketHeader);
    ("InvalidFrameData", InvalidFrameData);
    ("MissingPayload", MissingPayload);
    ("InvalidFecData", 5);
    ("InvalidStreamData", InvalidStreamData);
    ("OverlappingStreamData", 87);
    ("UnencryptedStreamData", UnencryptedStreamData);
    ("AttemptToSendUnencryptedStreamData", 88);
    ("UnencryptedFecData", 77);
    ("InvalidRstStreamData", 6);
    ("InvalidConnectionCloseData", 7);
    ("InvalidGoawayData", 8);
    ("InvalidWindowUpdateData", 57);
    ("InvalidBlockedData", 58);
    ("InvalidStopWaitingData", 60);
    ("InvalidPathCloseData", 78);
    ("InvalidAckData", InvalidAckData);
    ("InvalidVersionNegotiationPacket", InvalidVersionNegotiationPacket);
    ("InvalidPublicRstPacket", 11);
    ("DecryptionFailure", DecryptionFailure);
    ("EncryptionFailure", 13);
    ("PacketTooLarge", 14);
    ("PeerGoingAway", PeerGoingAway);
    ("InvalidStreamID", InvalidStreamID);
    ("InvalidPriority", 49);
    ("TooManyOpenStreams", TooManyOpenStreams);
    ("TooManyAvailableStreams", 76);
    ("PublicReset", 19);
    ("InvalidVersion", InvalidVersion);
    ("InvalidHeaderID", 22);
    ("InvalidNegotiatedValue", 23);
    ("DecompressionFailure", 24);
    ("NetworkIdleTimeout", NetworkIdleTimeout);
    ("HandshakeTimeout", HandshakeTimeout);
    ("ErrorMigratingAddress", 26);
    ("ErrorMigratingPort", 86);
    ("PacketWriteError", 27);
    ("PacketReadError", 51);
    ("EmptyStreamFrameNoFin", 50);
    ("InvalidHeadersStreamData", 56);
    ("HeadersStreamDataDecompressFailure", 97);
    ("FlowControlReceivedTooMuchData", FlowControlReceivedTooMuchData);
    ("FlowControlSentTooMuchData", 63);
    ("FlowControlInvalidWindow", 64);
    ("ConnectionIPPooled", 62);
    ("TooManyOutstandingSentPackets", 68);
    ("TooManyOutstandingReceivedPackets", TooManyOutstandingReceivedPackets);
    ("ConnectionCancelled", 70);
    ("BadPacketLossRate", 71);
    ("PublicResetsPostHandshake", 73);
    ("TimeoutsWithOpenStreams", TimeoutsWithOpenStreams);
    ("FailedToSerializePacket", 75);
    ("TooManyRtos", 85);
    ("HandshakeFailed", HandshakeFailed);
    ("CryptoTagsOutOfOrder", 29);
    ("CryptoTooManyEntries", 30);
    ("CryptoInvalidValueLength", 31);
    ("CryptoMessageAfterHandshakeComplete", 32);
    ("InvalidCryptoMessageType", 33);
    ("InvalidCryptoMessageParameter", 34);
    ("InvalidChannelIDSignature", 52);
    ("CryptoMessageParameterNotFound", 35);
    ("CryptoMessageParameterNoOverlap", 36);
    ("CryptoMessageIndexNotFound", 37);
    ("CryptoInternalError", 38);
    ("CryptoVersionNotSupported", 39);
    ("CryptoHandshakeStatelessReject", 72);
    ("CryptoNoSupport", 40);
    ("CryptoTooManyRejects", 41);
    ("ProofInvalid", ProofInvalid);
    ("CryptoDuplicateTag", 43);
    ("CryptoEncryptionLevelIncorrect", 44);
    ("CryptoServerConfigExpired", 45);
    ("CryptoSymmetricKeySetupFailed", 53);
    ("CryptoMessageWhileValidatingClientHello", 54);
    ("CryptoUpdateBeforeHandshakeComplete", 65);
    ("VersionNegotiationMismatch", VersionNegotiationMismatch);
    ("BadMultipathFlag", 79);
    ("IPAddressChanged", 80);
    ("ConnectionMigrationNoMigratableStreams", 81);
    ("ConnectionMigrationTooManyChanges", 82);
    ("ConnectionMigrationNoNewNetwork", 83);
    ("ConnectionMigrationNonMigratableStream", 84) ]%string.

(** ** errorcode_string.go *)

Definition ErrorCode_name_0 : string := "InternalErrorStreamDataAfterTerminationInvalidPacketHeaderInvalidFrameDataInvalidFecDataInvalidRstStreamDataInvalidConnectionCloseDataInvalidGoawayDataInvalidAckDataInvalidVersionNegotiationPacketInvalidPublicRstPacketDecryptionFailureEncryptionFailurePacketTooLarge".
Definition ErrorCode_name_1 : string := "PeerGoingAwayInvalidStreamIDTooManyOpenStreamsPublicResetInvalidVersion".
Definition ErrorCode_name_2 : string := "InvalidHeaderIDInvalidNegotiatedValueDecompressionFailureNetworkIdleTimeoutErrorMigratingAddressPacketWriteErrorHandshakeFailedCryptoTagsOutOfOrderCryptoTooManyEntriesCryptoInvalidValueLengthCryptoMessageAfterHandshakeCompleteInvalidCryptoMessageTypeInvalidCryptoMessageParameterCryptoMessageParameterNotFoundCryptoMessageParameterNoOverlapCryptoMessageIndexNotFoundCryptoInternalErrorCryptoVersionNotSupportedCryptoNoSupportCryptoTooManyRejectsProofInvalidCryptoDuplicateTagCryptoEncryptionLevelIncorrectCryptoServerConfigExpiredInvalidStreamData".
Definition ErrorCode_name_3 : string := "MissingPayloadInvalidPriorityEmptyStreamFrameNoFinPacketReadErrorInvalidChannelIDSignatureCryptoSymmetricKeySetupFailedCryptoMessageWhileValidatingClientHelloVersionNegotiationMismatchInvalidHeadersStreamDataInvalidWindowUpdateDataInvalidBlockedDataFlowControlReceivedTooMuchDataInvalidStopWaitingDataUnencryptedStreamDataConnectionIPPooledFlowControlSentTooMuchDataFlowControlInvalidWindowCryptoUpdateBeforeHandshakeComplete".
Definition ErrorCode_name_4 : string := "HandshakeTimeoutTooManyOutstandingSentPacketsTooManyOutstandingReceivedPacketsConnectionCancelledBadPacketLossRateCryptoHandshakeStatelessRejectPublicResetsPostHandshakeTimeoutsWithOpenStreamsFailedToSerializePacketTooManyAvailableStreamsUnencryptedFecDataInvalidPathCloseDataBadMultipathFlagIPAddressChangedConnectionMigrationNoMigratableStreamsConnectionMigrationTooManyChangesConnectionMigrationNoNewNetworkConnectionMigrationNonMigratableStreamTooManyRtosErrorMigratingPortOverlappingStreamDataAttemptToSendUnencryptedStreamData".
Definition ErrorCode_name_5 : string := "HeadersStreamDataDecompressFailure".
Definition ErrorCode_index_0 : list nat :=
  [0; 13; 39; 58; 74; 88; 108; 134; 151; 165; 196; 218; 235; 252; 266]%nat.
Definition ErrorCode_index_1 : list nat :=
  [0; 13; 28; 46; 57; 71]%nat.
Definition ErrorCode_index_2 : list nat :=
  [0; 15; 37; 57; 75; 96; 112; 127; 147; 167; 191; 226; 250; 279; 309; 340; 366; 385;
   410; 425; 445; 457; 475; 505; 530; 547]%nat.
Definition ErrorCode_index_3 : list nat :=
  [0; 14; 29; 50; 65; 90; 119; 158; 184; 208; 231; 249; 279; 301; 322; 340; 366; 390;
   425]%nat.
Definition ErrorCode_index_4 : list nat :=
  [0; 16; 45; 78; 97; 114; 144; 169; 192; 215; 238; 256; 276; 292; 308; 346; 379; 410;
   448; 459; 477; 498; 532]%nat.

(** The part of the joined names between two consecutive indices. *)
Definition name_between (name : string) (index : list nat) (i : nat) : option string :=
  a ← index !! i; b ← index !! S i; Some (String.substring a (b - a) name).

(** [None] stands for the default case, which formats the number. *)
Definition ErrorCode_String (i : Z) : option string :=
  if (1 <=? i) && (i <=? 14) then
    name_between ErrorCode_name_0 ErrorCode_index_0 (Z.to_nat (i - 1))
  else if (16 <=? i) && (i <=? 20) then
    name_between ErrorCode_name_1 ErrorCode_index_1 (Z.to_nat (i - 16))
  else if (22 <=? i) && (i <=? 46) then
    name_between ErrorCode_name_2 ErrorCode_index_2 (Z.to_nat (i - 22))
  else if (48 <=? i) && (i <=? 65) then
    name_between ErrorCode_name_3 ErrorCode_index_3 (Z.to_nat (i - 48))
  else if (67 <=? i) && (i <=? 88) then
    name_between ErrorCode_name_4 ErrorCode_index_4 (Z.to_nat (i - 67))
  else if i =? 97 then Some ErrorCode_name_5
  else None.

(** ** quic_error.go *)

(** [(e *QuicError) Timeout], on the error code. *)
Definition QuicError_Timeout (code : Z) : bool :=
  (code =? NetworkIdleTimeout) || (code =? HandshakeTimeout)
  || (code =? TimeoutsWithOpenStreams).

(** The code and the message of the [*QuicError] that is returned. *)
Definition ToQuicError (err : go_error) : Z * error_msg :=
  match err with
  | QuicError code msg => (code, msg)
  | ErrorCode code => (code, Msg "" [])
  | e => (InternalError, MsgOf e)
  end.

(** ** Properties *)

(** The generated name table agrees with the declarations: the name of
    every declared code is its identifier, and no two codes are equal, so each
    error is reported under its own name. *)
Theorem error_code_names :
  forallb (fun '(name, code) =>
    bool_decide (ErrorCode_String code = Some name)) error_codes = true
  /\ NoDup (snd <$> error_codes).
Proof. split; [by vm_compute | apply (bool_decide_unpack _); by vm_compute]. Qed.
