(* ===== verification/Varint.v ===== *)
(** * Integer encodings (internal/utils)

    The varint format, the packet-number varint format and the big-endian
    integers of internal/utils/varint.go, varint_packetnumber.go and
    byteorder_big_endian.go. *)

From S2P Require Import Prelude.

(** ** varint.go *)

Definition maxVarInt1 : Z := 63.
Definition maxVarInt2 : Z := 16383.
Definition maxVarInt4 : Z := 1073741823.
Definition maxVarInt8 : Z := 4611686018427387903.

Definition ReadVarInt : reader Z :=
  firstByte ← ReadByte;
  let length := 1 ≪ ((Z.land firstByte 0xc0) ≫ 6) in
  let b1 := Z.land firstByte (0xff - 0xc0) in
  if length =? 1 then mret b1 else
  b2 ← ReadByte;
  if length =? 2 then mret (u64 (b2 + b1 ≪ 8)) else
  b3 ← ReadByte;
  b4 ← ReadByte;
  if length =? 4 then mret (u64 (b4 + b3 ≪ 8 + b2 ≪ 16 + b1 ≪ 24)) else
  b5 ← ReadByte;
  b6 ← ReadByte;
  b7 ← ReadByte;
  b8 ← ReadByte;
  mret (u64 (b8 + b7 ≪ 8 + b6 ≪ 16 + b5 ≪ 24 + b4 ≪ 32 + b3 ≪ 40
             + b2 ≪ 48 + b1 ≪ 56)).

Definition WriteVarInt (i : Z) : writes :=
  if i <=? maxVarInt1 then Ok [u8 i]
  else if i <=? maxVarInt2 then Ok [Z.lor (u8 (i ≫ 8)) 0x40; u8 i]
  else if i <=? maxVarInt4 then
    Ok [Z.lor (u8 (i ≫ 24)) 0x80; u8 (i ≫ 16); u8 (i ≫ 8); u8 i]
  else if i <=? maxVarInt8 then
    Ok [Z.lor (u8 (i ≫ 56)) 0xc0; u8 (i ≫ 48); u8 (i ≫ 40); u8 (i ≫ 32);
        u8 (i ≫ 24); u8 (i ≫ 16); u8 (i ≫ 8); u8 i]
  else Panic "value doesn't fit into 62 bits".

(** [VarIntLen] panics on the values [WriteVarInt] panics on. *)
Definition VarIntLen (i : Z) : outcome Z :=
  if i <=? maxVarInt1 then Ok 1
  else if i <=? maxVarInt2 then Ok 2
  else if i <=? maxVarInt4 then Ok 4
  else if i <=? maxVarInt8 then Ok 8
  else Panic "value doesn't fit into 62 bits".

(** ** varint_packetnumber.go *)

Definition PacketNumberLen1 : Z := 1.
Definition PacketNumberLen2 : Z := 2.
Definition PacketNumberLen4 : Z := 4.
Definition PacketNumberLen6 : Z := 6.

Definition ReadVarIntPacketNumber : reader (Z * Z) :=
  b1 ← ReadByte;
  if Z.land b1 0x80 =? 0 then mret (b1, PacketNumberLen1) else
  b2 ← ReadByte;
  if Z.land b1 0x40 =? 0 then
    mret (u64 ((Z.land b1 0x3f) ≪ 8 + b2), PacketNumberLen2) else
  b3 ← ReadByte;
  b4 ← ReadByte;
  mret (u64 ((Z.land b1 0x3f) ≪ 24 + b2 ≪ 16 + b3 ≪ 8 + b4), PacketNumberLen4).

Definition WriteVarIntPacketNumber (i length : Z) : writes :=
  if length =? PacketNumberLen1 then Ok [u8 (Z.land i 0x7f)]
  else if length =? PacketNumberLen2 then
    Ok [Z.lor (Z.land (u8 (i ≫ 8)) 0x3f) 0x80; u8 i]
  else if length =? PacketNumberLen4 then
    Ok [Z.lor (Z.land (u8 (i ≫ 24)) 0x3f) 0xc0; u8 (i ≫ 16); u8 (i ≫ 8); u8 i]
  else Err (Errorf "invalid packet number length: %d" [length]).

(** ** byteorder_big_endian.go *)

(** The loop of [ReadUintN], for the [i] that are left; the shift distance is
    computed at the width of a uint8. *)
Fixpoint ReadUintN_loop (todo : nat) (length i res : Z) : reader Z :=
  match todo with
  | O => mret res
  | S todo =>
      bt ← ReadByte;
      ReadUintN_loop todo length (i + 1)
        (Z.lxor res (u64 (bt ≪ u8 (u8 (length - 1 - i) * 8))))
  end.

Definition ReadUintN (length : Z) : reader Z :=
  ReadUintN_loop (Z.to_nat length) length 0 0.

Definition ReadUint64 : reader Z :=
  b8 ← ReadByte; b7 ← ReadByte; b6 ← ReadByte; b5 ← ReadByte;
  b4 ← ReadByte; b3 ← ReadByte; b2 ← ReadByte; b1 ← ReadByte;
  mret (u64 (b1 + b2 ≪ 8 + b3 ≪ 16 + b4 ≪ 24 + b5 ≪ 32 + b6 ≪ 40
             + b7 ≪ 48 + b8 ≪ 56)).

Definition ReadUint32 : reader Z :=
  b4 ← ReadByte; b3 ← ReadByte; b2 ← ReadByte; b1 ← ReadByte;
  mret (u32 (b1 + b2 ≪ 8 + b3 ≪ 16 + b4 ≪ 24)).

Definition ReadUint16 : reader Z :=
  b2 ← ReadByte; b1 ← ReadByte;
  mret (u16 (b1 + b2 ≪ 8)).

Definition WriteUint64 (i : Z) : writes :=
  Ok [u8 (i ≫ 56); u8 (i ≫ 48); u8 (i ≫ 40); u8 (i ≫ 32);
      u8 (i ≫ 24); u8 (i ≫ 16); u8 (i ≫ 8); u8 i].

Definition WriteUint32 (i : Z) : writes :=
  Ok [u8 (i ≫ 24); u8 (i ≫ 16); u8 (i ≫ 8); u8 i].

Definition WriteUint16 (i : Z) : writes := Ok [u8 (i ≫ 8); u8 i].

(** ** Reference definition: the big-endian value of a byte string *)

Definition be_value (l : list Z) : Z := foldl (fun acc b => 256 * acc + b) 0 l.
(** The last [n] bytes of [i], the highest first. *)
Definition big_bytes (n i : Z) : list Z := (fun j => u8 (i ≫ ((n - 1 - j) * 8))) <$> seqZ 0 n.
Definition is_varint (i : Z) : Prop := 0 <= i <= maxVarInt8.

(** ** Lemmas *)

Lemma u8_shiftr i k : 0 <= k -> u8 (i ≫ k) = (i / 2 ^ k) mod 256.
Proof. intros H. unfold u8. by rewrite Z.shiftr_div_pow2. Qed.

(** Peeling one byte off a quotient. *)
Lemma div_byte i k k' : 0 <= k -> k' = k + 8 ->
  i / 2 ^ k = 256 * (i / 2 ^ k') + (i / 2 ^ k) mod 256.
Proof.
  intros H ->. rewrite Z.pow_add_r, <- Z.div_div by lia.
  apply (Z.div_mod (i / 2 ^ k) 256). lia.
Qed.

Lemma digits2 i : i = u8 i + 256 * (i / 2 ^ 8).
Proof.
  unfold u8. change (2 ^ 8) with 256. pose proof (Z.div_mod i 256). lia.
Qed.

Ltac digits i :=
  pose proof (digits2 i);
  pose proof (div_byte i 8 16 ltac:(lia) eq_refl);
  pose proof (div_byte i 16 24 ltac:(lia) eq_refl);
  pose proof (div_byte i 24 32 ltac:(lia) eq_refl);
  pose proof (div_byte i 32 40 ltac:(lia) eq_refl);
  pose proof (div_byte i 40 48 ltac:(lia) eq_refl);
  pose proof (div_byte i 48 56 ltac:(lia) eq_refl);
  pose proof (div_byte i 56 64 ltac:(lia) eq_refl).

Ltac norm_shift :=
  rewrite ?u8_shiftr by lia; rewrite ?Z.shiftl_mul_pow2 by lia.

(** The two tag bits of the first byte: adding and removing them. *)
Lemma tag_first_byte (b t : Z) :
  0 <= b < 64 -> (t = 0 \/ t = 0x40 \/ t = 0x80 \/ t = 0xc0) ->
  Z.lor b t = b + t /\ Z.land (b + t) (0xff - 0xc0) = b
  /\ Z.land (b + t) 0x3f = b
  /\ Z.land (b + t) 0xc0 = t.
Proof.
  intros Hb Ht.
  pose (P := fun b : Z => implb (b <? 64) (forallb (fun t =>
      (Z.lor b t =? b + t) && (Z.land (b + t) (0xff - 0xc0) =? b)
      && (Z.land (b + t) 0x3f =? b)
      && (Z.land (b + t) 0xc0 =? t)) [0; 0x40; 0x80; 0xc0])).
  assert (HP : P b = true).
  { apply byte_forall; [by vm_compute | unfold is_byte; lia]. }
  unfold P in HP. rewrite (proj2 (Z.ltb_lt b 64)) in HP by lia. cbn [implb] in HP.
  rewrite forallb_forall in HP. specialize (HP t).
  assert (HP' : (Z.lor b t =? b + t) && (Z.land (b + t) (0xff - 0xc0) =? b)
      && (Z.land (b + t) 0x3f =? b) && (Z.land (b + t) 0xc0 =? t) = true).
  { apply HP. destruct_or! Ht; subst; cbn; tauto. }
  bool_to_prop. auto.
Qed.

Lemma u8_shiftr_small i k : 0 <= k -> 0 <= i < 2 ^ (k + 6) ->
  u8 (i ≫ k) = i / 2 ^ k /\ 0 <= i / 2 ^ k < 64.
Proof.
  intros Hk Hi. rewrite u8_shiftr by lia.
  assert (0 <= i / 2 ^ k < 64).
  { rewrite Z.pow_add_r in Hi by lia.
    split; [apply Z.div_pos; lia | apply Z.div_lt_upper_bound; lia]. }
  rewrite Z.mod_small; lia.
Qed.

(** One multi-byte form: [k] is the weight of the first byte, [t] its tag. *)
Ltac varint_case i k t :=
  destruct (u8_shiftr_small i k) as [-> Hd]; [lia.. |];
  destruct (tag_first_byte (i / 2 ^ k) t) as (-> & E1 & _ & E2); [lia | tauto |];
  eexists; split_and!; eauto;
  [ solve_bytes |];
  intros rest; unfold ReadVarInt; cbn [app];
  erewrite reader_bind_step by apply ReadByte_cons; cbv zeta; rewrite E1, E2;
  match goal with |- context [1 ≪ ?e] =>
    let v := eval vm_compute in (1 ≪ e) in change (1 ≪ e) with v end;
  cbn [Z.eqb Pos.eqb];
  repeat (erewrite reader_bind_step by apply ReadByte_cons); norm_shift;
  digits i; rewrite u64_small by lia; unfold mret, reader_ret; do 2 f_equal; lia.

(** What [WriteVarInt] writes, and that reading it back gives the number. *)
Lemma varint_spec i : is_varint i ->
  exists bs, WriteVarInt i = Ok bs /\ VarIntLen i = Ok (len bs) /\ bytes bs
    /\ forall rest, ReadVarInt (bs ++ rest) = Ok (i, rest).
Proof.
  unfold is_varint, WriteVarInt, VarIntLen, maxVarInt1, maxVarInt2, maxVarInt4,
    maxVarInt8. intros Hi.
  destruct (Z.leb_spec i 63); [| destruct (Z.leb_spec i 16383);
    [| destruct (Z.leb_spec i 1073741823);
    [| destruct (Z.leb_spec i 4611686018427387903); [| lia]]]].
  - rewrite u8_small by lia. eexists. split_and!; eauto.
    { solve_bytes. }
    intros rest. destruct (tag_first_byte i 0) as (_ & E1 & _ & E2); [lia | tauto |].
    rewrite Z.add_0_r in E1, E2. unfold ReadVarInt.
    erewrite reader_bind_step by apply ReadByte_cons. cbv zeta. by rewrite E1, E2.
  - varint_case i 8 0x40.
  - varint_case i 24 0x80.
  - varint_case i 56 0xc0.
Qed.

Lemma ReadVarInt_WriteVarInt i bs rest :
  is_varint i -> WriteVarInt i = Ok bs -> ReadVarInt (bs ++ rest) = Ok (i, rest).
Proof.
  intros Hi Hw. destruct (varint_spec i Hi) as (bs' & E & _ & _ & Hr).
  rewrite Hw in E. injection E as ->. apply Hr.
Qed.

Lemma WriteVarInt_len i bs :
  is_varint i -> WriteVarInt i = Ok bs -> VarIntLen i = Ok (len bs) /\ bytes bs.
Proof.
  intros Hi Hw. destruct (varint_spec i Hi) as (bs' & E & ? & ? & _).
  rewrite Hw in E. injection E as ->. done.
Qed.

Lemma WriteVarInt_Ok i bs : 0 <= i -> WriteVarInt i = Ok bs -> is_varint i.
Proof.
  unfold WriteVarInt, is_varint, maxVarInt8, maxVarInt1, maxVarInt2, maxVarInt4.
  intros Hi. case_cmp; try done; lia.
Qed.

Lemma VarIntLen_range i n : VarIntLen i = Ok n -> 1 <= n <= 8.
Proof. unfold VarIntLen. case_cmp; intros [= <-]; lia. Qed.

(** ** Rewriting with varints *)

(** The encoding of a varint and its length, as total functions. *)
Definition varint_bytes (i : Z) : list Z :=
  match WriteVarInt i with Ok bs => bs | _ => [] end.

Definition vlen (i : Z) : Z :=
  if i <=? maxVarInt1 then 1 else if i <=? maxVarInt2 then 2
  else if i <=? maxVarInt4 then 4 else 8.

Lemma VarIntLen_vlen i : is_varint i -> VarIntLen i = Ok (vlen i).
Proof. unfold is_varint, VarIntLen, vlen, maxVarInt8. intros H. case_cmp; (done || lia). Qed.

Lemma vlen_range i : 1 <= vlen i <= 8.
Proof. unfold vlen. case_cmp; lia. Qed.

Lemma WriteVarInt_bytes i : is_varint i -> WriteVarInt i = Ok (varint_bytes i).
Proof.
  intros Hi. destruct (varint_spec i Hi) as (bs & E & _). unfold varint_bytes. by rewrite E.
Qed.

Lemma len_varint_bytes i : is_varint i -> len (varint_bytes i) = vlen i.
Proof.
  intros Hi. destruct (varint_spec i Hi) as (bs & E & L & _).
  unfold varint_bytes. rewrite E. rewrite VarIntLen_vlen in L by done. congruence.
Qed.

Lemma bytes_varint_bytes i : is_varint i -> bytes (varint_bytes i).
Proof. intros Hi. by apply (WriteVarInt_len i), WriteVarInt_bytes. Qed.

Lemma ReadVarInt_bytes i rest : is_varint i ->
  ReadVarInt (varint_bytes i ++ rest) = Ok (i, rest).
Proof. intros Hi. by apply ReadVarInt_WriteVarInt, WriteVarInt_bytes. Qed.

Lemma ReadVarInt_step {B} (k : Z -> reader B) i rest : is_varint i ->
  (ReadVarInt ≫= k) (varint_bytes i ++ rest) = k i rest.
Proof. intros Hi. by apply reader_bind_step, ReadVarInt_bytes. Qed.

(** Consuming one byte of a reader. *)
Lemma ReadByte_Ok r b r' : ReadByte r = Ok (b, r') -> r = b :: r'.
Proof. destruct r; cbn; congruence. Qed.

(** The low six bits and the length class of the first byte. *)
Lemma first_byte b : is_byte b ->
  0 <= Z.land b (0xff - 0xc0) < 64
  /\ In (1 ≪ ((Z.land b 0xc0) ≫ 6)) [1; 2; 4; 8].
Proof.
  intros Hb.
  pose (P := fun b : Z => (0 <=? Z.land b (0xff - 0xc0))
    && (Z.land b (0xff - 0xc0) <? 64)
    && existsb (Z.eqb (1 ≪ ((Z.land b 0xc0) ≫ 6))) [1; 2; 4; 8]).
  assert (HP : P b = true) by (by apply byte_forall; [vm_compute |]).
  unfold P in HP. bool_to_prop. split; [lia |].
  match goal with H : existsb _ _ = true |- _ =>
    apply existsb_exists in H as (x & Hx & E) end.
  apply Z.eqb_eq in E. by rewrite E.
Qed.

(** Run one [ReadByte] of a reader that is known to have succeeded. *)
Ltac read_step H :=
  apply reader_bind_Ok in H;
  let b := fresh "b" in let r := fresh "r" in let E := fresh "E" in
  destruct H as (b & r & E & H); apply ReadByte_Ok in E; subst;
  repeat match goal with
  | Hb : bytes (_ :: _) |- _ =>
      let Hc := fresh "Hc" in apply bytes_cons in Hb as [Hc Hb]; unfold is_byte in Hc
  end.

(** [ReadVarInt] consumes a prefix, its result is a 62-bit number, and no
    encoding of that number is shorter than the one [WriteVarInt] chooses. *)
Lemma ReadVarInt_sound r i r' : bytes r -> ReadVarInt r = Ok (i, r') ->
  is_varint i /\ exists bs, r = bs ++ r' /\ bytes r'
    /\ exists n, VarIntLen i = Ok n /\ n <= len bs.
Proof.
  intros Hr H. unfold ReadVarInt in H. read_step H. cbv zeta in H.
  destruct (first_byte b) as [Hlow Hlen]; [unfold is_byte; lia |].
  remember (Z.land b (0xff - 0xc0)) as low eqn:E; clear E.
  remember (1 ≪ ((Z.land b 0xc0) ≫ 6)) as n eqn:E; clear E.
  unfold is_varint, VarIntLen, maxVarInt1, maxVarInt2, maxVarInt4, maxVarInt8.
  cbn in Hlen. destruct_or! Hlen; try done; subst n; cbn in H.
  - injection H as -> ->. split; [lia |]. exists [b]. split_and!; [done.. |].
    case_cmp; try lia; eexists; (split; [done | unfold len; cbn [length]; lia]).
  - read_step H. cbn in H. injection H as <- ->.
    rewrite Z.shiftl_mul_pow2, u64_small by lia.
    split; [lia |]. exists [b; b0]. split_and!; [done.. |].
    case_cmp; try lia; eexists; (split; [done | unfold len; cbn [length]; lia]).
  - do 3 read_step H. cbn in H. injection H as <- ->.
    rewrite !Z.shiftl_mul_pow2, u64_small by lia.
    split; [lia |]. exists [b; b0; b1; b2]. split_and!; [done.. |].
    case_cmp; try lia; eexists; (split; [done | unfold len; cbn [length]; lia]).
  - do 7 read_step H. cbn in H. injection H as <- ->.
    rewrite !Z.shiftl_mul_pow2, u64_small by lia.
    split; [lia |]. exists [b; b0; b1; b2; b3; b4; b5; b6]. split_and!; [done.. |].
    case_cmp; try lia; eexists; (split; [done | unfold len; cbn [length]; lia]).
Qed.

Lemma safe_ReadVarInt : safe ReadVarInt is_varint.
Proof.
  assert (Hs : safe ReadVarInt (fun _ => True)) by (unfold ReadVarInt; repeat safe_step; done).
  intros r Hr. specialize (Hs r Hr). unfold safe_on in *.
  destruct (ReadVarInt r) as [[i r'] | e | s] eqn:E; [| done | done].
  apply ReadVarInt_sound in E as (Hi & _); [| done]. tauto.
Qed.
#[export] Hint Resolve safe_ReadVarInt : safe.

(** The only error of a reader made of [ReadByte]s is the end of the input. *)
Lemma ReadByte_bind_EOF {B} (f : Z -> reader B) r e :
  (ReadByte ≫= f) r = Err e -> e = EOF \/ exists b r', f b r' = Err e.
Proof.
  destruct r as [| b r]; [intros [= <-]; by left |]. intros H. right. by exists b, r.
Qed.

Lemma ReadVarInt_EOF r e : ReadVarInt r = Err e -> e = EOF.
Proof.
  unfold ReadVarInt. cbv zeta. intros H.
  repeat (apply ReadByte_bind_EOF in H as [-> | (? & ? & H)]; [done |];
          repeat case_match; try discriminate).
Qed.

(** Reading a varint consumes at least one byte. *)
Lemma safe_on_ReadVarInt {B} (f : Z -> reader B) Q r : bytes r ->
  (forall i r', is_varint i -> len r' < len r -> bytes r' -> safe_on Q r' (f i r')) ->
  safe_on Q r ((ReadVarInt ≫= f) r).
Proof.
  intros Hr Hf. unfold mbind, reader_bind. pose proof (safe_ReadVarInt r Hr) as Hs.
  destruct (ReadVarInt r) as [[i r'] | e | s] eqn:E; [| done | done].
  apply ReadVarInt_sound in E as (Hi & bs & -> & Hr' & n & Hn & Hle); [| done].
  apply VarIntLen_range in Hn. specialize (Hf i r' Hi).
  rewrite len_app in Hf. specialize (Hf ltac:(lia) Hr').
  unfold safe_on in *. destruct (f i r') as [[b r2] | |]; [| done | done].
  destruct Hf as [Hb Hs2]. split; [done |]. by apply suffix_app_r.
Qed.

(** ** Big-endian integers *)

Lemma WriteUint16_read i rest bs : is_u16 i -> WriteUint16 i = Ok bs ->
  ReadUint16 (bs ++ rest) = Ok (i, rest) /\ len bs = 2 /\ bytes bs.
Proof.
  unfold is_u16. intros Hi [= <-]. split_and!; [| done | solve_bytes].
  unfold ReadUint16. cbn [app].
  repeat (erewrite reader_bind_step by apply ReadByte_cons). norm_shift.
  digits i. assert (i / 2 ^ 16 = 0) by (apply Z.div_small; lia).
  rewrite u16_small by lia. unfold mret, reader_ret. do 2 f_equal; lia.
Qed.

Lemma WriteUint32_read i rest bs : is_u32 i -> WriteUint32 i = Ok bs ->
  ReadUint32 (bs ++ rest) = Ok (i, rest) /\ len bs = 4 /\ bytes bs.
Proof.
  unfold is_u32. intros Hi [= <-]. split_and!; [| done | solve_bytes].
  unfold ReadUint32. cbn [app].
  repeat (erewrite reader_bind_step by apply ReadByte_cons). norm_shift.
  digits i. assert (i / 2 ^ 32 = 0) by (apply Z.div_small; lia).
  rewrite u32_small by lia. unfold mret, reader_ret. do 2 f_equal; lia.
Qed.

Lemma WriteUint64_read i rest bs : is_u64 i -> WriteUint64 i = Ok bs ->
  ReadUint64 (bs ++ rest) = Ok (i, rest) /\ len bs = 8 /\ bytes bs.
Proof.
  unfold is_u64. intros Hi [= <-]. split_and!; [| done | solve_bytes].
  unfold ReadUint64. cbn [app].
  repeat (erewrite reader_bind_step by apply ReadByte_cons). norm_shift.
  digits i. assert (i / 2 ^ 64 = 0) by (apply Z.div_small; lia).
  rewrite u64_small by lia. unfold mret, reader_ret. do 2 f_equal; lia.
Qed.

(** The two bytes of a 16-bit value, for rewriting. *)
Definition u16_bytes (i : Z) : list Z := [u8 (i ≫ 8); u8 i].

Lemma WriteUint16_bytes i : WriteUint16 i = Ok (u16_bytes i).
Proof. done. Qed.

Lemma bytes_u16_bytes i : bytes (u16_bytes i).
Proof. unfold u16_bytes. solve_bytes. Qed.

Lemma ReadUint16_step {B} (k : Z -> reader B) i rest : is_u16 i ->
  (ReadUint16 ≫= k) (u16_bytes i ++ rest) = k i rest.
Proof. intros Hi. apply reader_bind_step. by apply WriteUint16_read. Qed.

Lemma safe_ReadUint16 : safe ReadUint16 is_u16.
Proof. unfold ReadUint16. repeat safe_step. apply u16_range. Qed.
#[export] Hint Resolve safe_ReadUint16 : safe.

Lemma len_u16_bytes i : len (u16_bytes i) = 2.
Proof. done. Qed.
#[global] Opaque u16_bytes.

Lemma foldl_be_acc l acc :
  foldl (fun acc b => 256 * acc + b) acc l = acc * 256 ^ len l + be_value l.
Proof.
  unfold be_value. revert acc. induction l as [| b l IH] using rev_ind; intros acc.
  - rewrite len_nil. cbn [foldl]. lia.
  - rewrite !foldl_app, len_app. cbn [foldl]. rewrite IH.
    change (len [b]) with 1.
    rewrite Z.pow_add_r by (pose proof (len_nonneg l); lia). lia.
Qed.

Lemma be_value_app l b : be_value (l ++ [b]) = 256 * be_value l + b.
Proof. unfold be_value. by rewrite foldl_app. Qed.

Lemma be_value_range l : bytes l -> 0 <= be_value l < 256 ^ len l.
Proof.
  induction l as [| b l IH] using rev_ind; intros H; [done |].
  apply bytes_app in H as [Hl Hb%bytes_cons]. destruct Hb as [Hb _].
  unfold is_byte in Hb.
  rewrite be_value_app, len_app. change (len [b]) with 1.
  rewrite Z.pow_add_r by (pose proof (len_nonneg l); lia). specialize (IH Hl). lia.
Qed.

(** Xoring a byte into the zero low bits is adding it. *)
Lemma lxor_shifted a b k : 0 <= k -> 0 <= b < 2 ^ k ->
  Z.lxor (a ≪ k) b = a * 2 ^ k + b.
Proof.
  intros Hk Hb. rewrite Z.shiftl_mul_pow2 by lia.
  rewrite Z.add_nocarry_lxor; [done |].
  apply Z.bits_inj'. intros n Hn. rewrite Z.land_spec, Z.bits_0.
  destruct (Z.lt_ge_cases n k) as [Hlt | Hge].
  - by rewrite Z.mul_pow2_bits_low.
  - rewrite <- (Z.mod_small b (2 ^ k)), Z.mod_pow2_bits_high by lia.
    apply andb_false_r.
Qed.

Lemma be_value_cons b l : be_value (b :: l) = b * 256 ^ len l + be_value l.
Proof. unfold be_value at 1. cbn [foldl]. by rewrite foldl_be_acc. Qed.

Lemma pow256 n : 0 <= n -> 256 ^ n = 2 ^ (8 * n).
Proof. intros H. by rewrite Z.pow_mul_r. Qed.

(** The loop has read the bytes of [p] and still has those of [l] to read. *)
Lemma ReadUintN_loop_spec l rest length i p :
  bytes l -> len l = length - i -> 0 <= i -> length <= 8 -> 0 <= p ->
  ReadUintN_loop (List.length l) length i (p * 256 ^ len l) (l ++ rest)
  = Ok (p * 256 ^ len l + be_value l, rest).
Proof.
  revert i p. induction l as [| b l IH]; intros i p Hl Hlen Hi Hle Hp.
  { cbn. unfold mret, reader_ret. do 2 f_equal. change (be_value []) with 0. lia. }
  rewrite len_cons in Hlen. apply bytes_cons in Hl as [Hb Hl].
  pose proof (len_nonneg l). unfold is_byte in Hb.
  cbn [List.length ReadUintN_loop app].
  erewrite reader_bind_step by apply ReadByte_cons.
  replace (u8 (u8 (length - 1 - i) * 8)) with (8 * len l)
    by (rewrite !u8_small by (rewrite ?u8_small; lia); lia).
  assert (Hpow : 0 < 2 ^ (8 * len l) <= 2 ^ 56).
  { split; [apply Z.pow_pos_nonneg; lia | apply Z.pow_le_mono_r; lia]. }
  rewrite (Z.shiftl_mul_pow2 b), u64_small by nia.
  rewrite len_cons, pow256 by lia. rewrite <- (Z.shiftl_mul_pow2 p) by lia.
  rewrite lxor_shifted; [| lia |].
  2:{ replace (8 * (1 + len l)) with (8 + 8 * len l) by lia.
      rewrite Z.pow_add_r by lia. nia. }
  replace (p * 2 ^ (8 * (1 + len l)) + b * 2 ^ (8 * len l))
    with ((256 * p + b) * 256 ^ len l).
  2:{ replace (8 * (1 + len l)) with (8 + 8 * len l) by lia.
      rewrite Z.pow_add_r, pow256 by lia. lia. }
  rewrite IH by (lia || done). rewrite be_value_cons.
  replace (8 * (1 + len l)) with (8 + 8 * len l) by lia.
  rewrite Z.shiftl_mul_pow2, Z.pow_add_r, pow256 by lia. do 2 f_equal. lia.
Qed.

Lemma ReadUintN_be l rest : bytes l -> len l <= 8 ->
  ReadUintN (len l) (l ++ rest) = Ok (be_value l, rest).
Proof.
  intros Hl Hn. unfold ReadUintN. unfold len at 1. rewrite Nat2Z.id.
  apply (ReadUintN_loop_spec l rest (len l) 0 0); (done || lia).
Qed.

(** ** Packet numbers *)

(** The number of bits of the packet number that are sent. *)
Definition pn_bits (length : Z) : Z :=
  if length =? PacketNumberLen1 then 7
  else if length =? PacketNumberLen2 then 14 else 30.

Lemma tag_pn_byte b : is_byte b ->
  Z.land (Z.land b 0x7f) 0x80 = 0
  /\ Z.land (Z.lor (Z.land b 0x3f) 0x80) 0x80 <> 0
  /\ Z.land (Z.lor (Z.land b 0x3f) 0x80) 0x40 = 0
  /\ Z.land (Z.lor (Z.land b 0x3f) 0x80) 0x3f = b mod 64
  /\ Z.land (Z.lor (Z.land b 0x3f) 0xc0) 0x80 <> 0
  /\ Z.land (Z.lor (Z.land b 0x3f) 0xc0) 0x40 <> 0
  /\ Z.land (Z.lor (Z.land b 0x3f) 0xc0) 0x3f = b mod 64
  /\ is_byte (Z.lor (Z.land b 0x3f) 0x80) /\ is_byte (Z.lor (Z.land b 0x3f) 0xc0).
Proof.
  intros Hb.
  pose (P := fun b : Z =>
     (Z.land (Z.land b 0x7f) 0x80 =? 0)
  && negb (Z.land (Z.lor (Z.land b 0x3f) 0x80) 0x80 =? 0)
  && (Z.land (Z.lor (Z.land b 0x3f) 0x80) 0x40 =? 0)
  && (Z.land (Z.lor (Z.land b 0x3f) 0x80) 0x3f =? b mod 64)
  && negb (Z.land (Z.lor (Z.land b 0x3f) 0xc0) 0x80 =? 0)
  && negb (Z.land (Z.lor (Z.land b 0x3f) 0xc0) 0x40 =? 0)
  && (Z.land (Z.lor (Z.land b 0x3f) 0xc0) 0x3f =? b mod 64)
  && (0 <=? Z.lor (Z.land b 0x3f) 0x80) && (Z.lor (Z.land b 0x3f) 0x80 <? 256)
  && (0 <=? Z.lor (Z.land b 0x3f) 0xc0) && (Z.lor (Z.land b 0x3f) 0xc0 <? 256)).
  assert (HP : P b = true) by (by apply byte_forall; [vm_compute |]).
  unfold P in HP. bool_to_prop. unfold is_byte. split_and!; done.
Qed.

Lemma land_7f i : Z.land i 0x7f = i mod 2 ^ 7.
Proof. exact (Z.land_ones i 7 ltac:(lia)). Qed.

Lemma mod_split i k n : 0 <= k -> 0 <= n ->
  i mod 2 ^ (k + n) = i mod 2 ^ k + 2 ^ k * ((i / 2 ^ k) mod 2 ^ n).
Proof. intros Hk Hn. rewrite Z.pow_add_r by lia. apply Z.rem_mul_r; lia. Qed.

Lemma u8_mod64 i k : 0 <= k -> u8 (i ≫ k) mod 64 = (i / 2 ^ k) mod 2 ^ 6.
Proof.
  intros Hk. rewrite u8_shiftr by lia. apply Z.mod_mod_divide. by exists 4.
Qed.

(** Reading a written packet number gives its low bits and the length. *)
Lemma packet_number_wire i length rest :
  0 <= i < 2 ^ 64 ->
  length = PacketNumberLen1 \/ length = PacketNumberLen2 \/ length = PacketNumberLen4 ->
  exists bs, WriteVarIntPacketNumber i length = Ok bs /\ len bs = length /\ bytes bs
    /\ ReadVarIntPacketNumber (bs ++ rest)
       = Ok ((i mod 2 ^ pn_bits length, length), rest).
Proof.
  intros Hi Hl. unfold WriteVarIntPacketNumber, ReadVarIntPacketNumber.
  unfold PacketNumberLen1, PacketNumberLen2, PacketNumberLen4 in *.
  destruct_or! Hl; subst length; cbn [Z.eqb Pos.eqb]; eexists; (split; [done |]);
    (split; [done |]).
  - rewrite land_7f. pose proof (Z.mod_pos_bound i (2 ^ 7)).
    rewrite u8_small by lia. split; [solve_bytes |]. cbn [app].
    erewrite reader_bind_step by apply ReadByte_cons.
    destruct (tag_pn_byte (i mod 2 ^ 7)) as (E & _); [unfold is_byte; lia |].
    rewrite land_7f, Z.mod_mod in E by lia. by rewrite E.
  - pose proof (tag_pn_byte (u8 (i ≫ 8)) (u8_range _))
      as (_ & E1 & E2 & E3 & _ & _ & _ & R & _).
    split; [apply bytes_cons; split; [done | solve_bytes] |]. cbn [app].
    erewrite reader_bind_step by apply ReadByte_cons.
    rewrite (proj2 (Z.eqb_neq _ _) E1), E2, E3. cbn [Z.eqb].
    erewrite reader_bind_step by apply ReadByte_cons. rewrite u8_mod64 by lia.
    pose proof (mod_split i 8 6 ltac:(lia) ltac:(lia)) as Hs.
    pose proof (Z.mod_pos_bound i (2 ^ 8)). pose proof (Z.mod_pos_bound (i / 2 ^ 8) (2 ^ 6)).
    rewrite Z.shiftl_mul_pow2, u64_small by (unfold u8; lia).
    unfold mret, reader_ret, u8. change (pn_bits 2) with (8 + 6). do 3 f_equal. lia.
  - pose proof (tag_pn_byte (u8 (i ≫ 24)) (u8_range _))
      as (_ & _ & _ & _ & E1 & E2 & E3 & _ & R).
    split; [apply bytes_cons; split; [done | solve_bytes] |]. cbn [app].
    erewrite reader_bind_step by apply ReadByte_cons.
    rewrite (proj2 (Z.eqb_neq _ _) E1).
    erewrite reader_bind_step by apply ReadByte_cons.
    rewrite (proj2 (Z.eqb_neq _ _) E2), E3, u8_mod64 by lia.
    repeat (erewrite reader_bind_step by apply ReadByte_cons).
    pose proof (mod_split i 24 6 ltac:(lia) ltac:(lia)) as H3.
    pose proof (mod_split i 16 8 ltac:(lia) ltac:(lia)) as H2.
    pose proof (mod_split i 8 8 ltac:(lia) ltac:(lia)) as H1.
    pose proof (Z.mod_pos_bound i (2 ^ (24 + 6))).
    change (16 + 8) with 24 in H2. change (8 + 8) with 16 in H1.
    rewrite !u8_shiftr by lia. change 256 with (2 ^ 8). unfold u8.
    rewrite !Z.shiftl_mul_pow2, u64_small by lia.
    unfold mret, reader_ret. change (pn_bits 4) with (24 + 6). do 3 f_equal. lia.
Qed.

(** ** Properties *)

(** Every value below 2^62 is written, [VarIntLen] is the number of bytes,
    and reading them, whatever follows, gives the value back; every larger
    value makes [WriteVarInt] and [VarIntLen] panic. *)
Theorem varint_roundtrip i : 0 <= i ->
  if i <? 2 ^ 62 then
    exists bs, WriteVarInt i = Ok bs /\ VarIntLen i = Ok (len bs) /\ bytes bs
      /\ forall rest, ReadVarInt (bs ++ rest) = Ok (i, rest)
  else is_ok (WriteVarInt i) = false /\ is_ok (VarIntLen i) = false.
Proof.
  intros Hi. destruct (Z.ltb_spec i (2 ^ 62)).
  - apply varint_spec. unfold is_varint, maxVarInt8. lia.
  - unfold WriteVarInt, VarIntLen, maxVarInt1, maxVarInt2, maxVarInt4, maxVarInt8.
    case_cmp; (lia || done).
Qed.

Lemma varint_roundtrip_witness :
  exists bs, WriteVarInt 151288809941952652 = Ok bs
    /\ VarIntLen 151288809941952652 = Ok (len bs) /\ bytes bs
    /\ forall rest, ReadVarInt (bs ++ rest) = Ok (151288809941952652, rest).
Proof. apply (varint_roundtrip 151288809941952652). lia. Defined.

(** Reading a varint from arbitrary bytes does not panic; a value that is
    read is below 2^62, the bytes read are a prefix of the input, and they are
    at least as many as [WriteVarInt] would write for the value. *)
Theorem varint_read_sound r : bytes r ->
  match ReadVarInt r with
  | Ok (i, r') => 0 <= i < 2 ^ 62
      /\ exists bs ws, r = bs ++ r' /\ WriteVarInt i = Ok ws /\ len ws <= len bs
  | Err e => e = EOF
  | Panic _ => False
  end.
Proof.
  intros Hr. pose proof (safe_ReadVarInt r Hr) as Hs.
  destruct (ReadVarInt r) as [[i r'] | e | s] eqn:E; [| | done].
  - apply ReadVarInt_sound in E as (Hi & bs & -> & _ & n & Hn & Hle); [| done].
    split; [unfold is_varint, maxVarInt8 in Hi; lia |].
    exists bs, (varint_bytes i). split_and!; [done | by apply WriteVarInt_bytes |].
    rewrite len_varint_bytes by done. rewrite VarIntLen_vlen in Hn by done. congruence.
  - by apply ReadVarInt_EOF in E.
Qed.

Lemma varint_read_sound_witness :
  bytes [0x40; 0x25; 7]
  /\ match ReadVarInt [0x40; 0x25; 7] with
     | Ok (i, r') => 0 <= i < 2 ^ 62
         /\ exists bs ws, [0x40; 0x25; 7] = bs ++ r' /\ WriteVarInt i = Ok ws /\ len ws <= len bs
     | Err e => e = EOF
     | Panic _ => False
     end.
Proof.
  assert (Hb : bytes [0x40; 0x25; 7]) by solve_bytes.
  split; [exact Hb | exact (varint_read_sound _ Hb)].
Defined.

(** ** Big-endian bytes of any number *)

Lemma big_bytes_snoc n i : 0 <= n -> big_bytes (n + 1) i = big_bytes n (i / 256) ++ [u8 i].
Proof.
  intros Hn. unfold big_bytes. rewrite seqZ_app by lia. rewrite fmap_app. change (seqZ (0 + n) 1) with [0 + n]. cbn [fmap list_fmap].
  replace ((n + 1 - 1 - (0 + n)) * 8) with 0 by lia. rewrite Z.shiftr_0_r. f_equal.
  apply list_fmap_ext. intros k j Hj. apply lookup_seqZ in Hj as [-> Hj]. rewrite !Z.shiftr_div_pow2 by lia.
  rewrite Z.div_div by lia. change 256 with (2 ^ 8). rewrite <- Z.pow_add_r by lia. do 3 f_equal. lia.
Qed.

Lemma bytes_big_bytes n i : bytes (big_bytes n i).
Proof. apply Forall_fmap, Forall_forall. intros j _. apply u8_range. Qed.

Lemma len_big_bytes n i : 0 <= n -> len (big_bytes n i) = n.
Proof. intros Hn. unfold len, big_bytes. rewrite length_fmap, length_seqZ. lia. Qed.

Lemma be_value_big_bytes n i : 0 <= n -> be_value (big_bytes n i) = i mod 256 ^ n.
Proof.
  intros Hn. revert i. pattern n. apply natlike_ind; [| | done].
  - intros i. change (be_value (big_bytes 0 i)) with 0. rewrite Z.pow_0_r. by rewrite Z.mod_1_r.
  - intros m Hm IH i. rewrite <- Z.add_1_r, big_bytes_snoc, be_value_app, IH, Z.pow_add_r by lia. rewrite Z.pow_1_r.
    rewrite (Z.mul_comm (256 ^ m)), Z.rem_mul_r by lia. unfold u8. change (2 ^ 8) with 256. lia.
Qed.
