(* ===== verification/Protocol.v ===== *)
(** * Protocol constants and identifiers (internal/protocol)

    Packet numbers, stream identifiers, connection identifiers, perspectives
    and version negotiation, from internal/protocol/*.go, and the minima and
    maxima of internal/utils/minmax.go. *)

From S2P Require Import Prelude Varint.

(** ** minmax.go *)

Definition InfDuration : Z := 2 ^ 63 - 1.
Definition MinByteCount (a b : Z) : Z := if a <? b then a else b.
Definition MaxByteCount_of (a b : Z) : Z := if a <? b then b else a.
Definition MaxPacketNumber (a b : Z) : Z := if b <? a then a else b.
Definition MinPacketNumber (a b : Z) : Z := if a <? b then a else b.
Definition MaxDuration (a b : Z) : Z := if b <? a then a else b.
Definition MinDuration (a b : Z) : Z := if b <? a then b else a.
(** [-d] at the width of an int64: the smallest duration has no negation. *)
Definition AbsDuration (d : Z) : Z := if 0 <=? d then d else i64 (- d).
Definition MinInt64 (a b : Z) : Z := if a <? b then a else b.
Definition MaxInt64 (a b : Z) : Z := if b <? a then a else b.
(** Times are instants in nanoseconds; [a.After(b)] is [b < a]. *)
Definition MaxTime (a b : Z) : Z := if b <? a then a else b.
Definition MinTime (a b : Z) : Z := if b <? a then b else a.

(** ** Constants *)

Definition MaxByteCount : Z := 2 ^ 62 - 1.
Definition MaxReceivePacketSize : Z := 1452.
Definition DefaultTCPMSS : Z := 1460.
Definition MinInitialPacketSize : Z := 1200.
Definition MinConnectionIDLenInitial : Z := 8.
Definition maxConnectionIDLen : Z := 18.
Definition MaxPacketSizeIPv4 : Z := 1252.
Definition MaxPacketSizeIPv6 : Z := 1232.
Definition defaultMaxCongestionWindowPackets : Z := 1000.
Definition DefaultMaxCongestionWindow : Z :=
  defaultMaxCongestionWindowPackets * DefaultTCPMSS.
Definition InitialCongestionWindow : Z := 32 * DefaultTCPMSS.
Definition SkipPacketAveragePeriodLength : Z := 500.
Definition MaxTrackedSkippedPackets : Z := 10.
Definition MaxOutstandingSentPackets : Z := 2 * defaultMaxCongestionWindowPackets.
Definition MaxTrackedSentPackets : Z := MaxOutstandingSentPackets * 5 / 4.
Definition MaxTrackedReceivedAckRanges : Z := defaultMaxCongestionWindowPackets.
Definition MaxNonRetransmittableAcks : Z := 19.
Definition MaxStreamFrameSorterGaps : Z := 1000.
Definition MaxCryptoStreamOffset : Z := 16 * 2 ^ 10.
Definition MinRemoteIdleTimeout : Z := 5 * 10 ^ 9.
Definition MinStreamFrameSize : Z := 128.
Definition MaxAckFrameSize : Z := 1000.
Definition MinPacingDelay : Z := 100 * 10 ^ 3.

Definition PacketTypeInitial : Z := 0x7f.
Definition PacketTypeRetry : Z := 0x7e.
Definition PacketTypeHandshake : Z := 0x7d.
Definition PacketType0RTT : Z := 0x7c.

(** ** perspective.go, encryption_level.go *)

Inductive Perspective : Type := PerspectiveServer | PerspectiveClient.

Definition Opposite (p : Perspective) : Perspective :=
  match p with
  | PerspectiveServer => PerspectiveClient
  | PerspectiveClient => PerspectiveServer
  end.

Inductive EncryptionLevel : Type :=
  | EncryptionUnspecified
  | EncryptionInitial
  | EncryptionHandshake
  | Encryption1RTT.

#[export] Instance Perspective_eq_dec : EqDecision Perspective.
Proof. solve_decision. Defined.
#[export] Instance EncryptionLevel_eq_dec : EqDecision EncryptionLevel.
Proof. solve_decision. Defined.

(** ** stream_id.go *)

Inductive StreamType : Type := StreamTypeUni | StreamTypeBidi.

#[export] Instance StreamType_eq_dec : EqDecision StreamType.
Proof. solve_decision. Defined.

Definition InitiatedBy (s : Z) : Perspective :=
  if s mod 2 =? 0 then PerspectiveClient else PerspectiveServer.

Definition StreamID_Type (s : Z) : StreamType :=
  if 2 <=? s mod 4 then StreamTypeUni else StreamTypeBidi.

Definition StreamNum (s : Z) : Z := s / 4 +64 1.

Definition first_stream_of (stype : StreamType) (pers : Perspective) : Z :=
  match stype, pers with
  | StreamTypeBidi, PerspectiveClient => 0
  | StreamTypeBidi, PerspectiveServer => 1
  | StreamTypeUni, PerspectiveClient => 2
  | StreamTypeUni, PerspectiveServer => 3
  end.

Definition MaxStreamID (stype : StreamType) (numStreams : Z) (pers : Perspective) : Z :=
  if numStreams =? 0 then 0
  else first_stream_of stype pers +64 4 *64 (numStreams -64 1).

Definition FirstStream (stype : StreamType) (pers : Perspective) : Z :=
  MaxStreamID stype 1 pers.

(** ** packet_number.go *)

Definition delta (a b : Z) : Z := if a <? b then b -64 a else a -64 b.

Definition closestTo (target a b : Z) : Z :=
  if delta target a <? delta target b then a else b.

Definition epochDelta (packetNumberLength : Z) : Z :=
  if packetNumberLength =? PacketNumberLen1 then 2 ^ 7
  else if packetNumberLength =? PacketNumberLen2 then 2 ^ 14
  else if packetNumberLength =? PacketNumberLen4 then 2 ^ 30
  else 0.

Definition InferPacketNumber
    (packetNumberLength lastPacketNumber wirePacketNumber : Z) : Z :=
  let epochDelta := epochDelta packetNumberLength in
  let epoch := Z.land lastPacketNumber (u64 (Z.lnot (epochDelta -64 1))) in
  let prevEpochBegin := epoch -64 epochDelta in
  let nextEpochBegin := epoch +64 epochDelta in
  closestTo (lastPacketNumber +64 1) (epoch +64 wirePacketNumber)
    (closestTo (lastPacketNumber +64 1) (prevEpochBegin +64 wirePacketNumber)
       (nextEpochBegin +64 wirePacketNumber)).

Definition GetPacketNumberLengthForHeader (packetNumber leastUnacked : Z) : Z :=
  let diff := packetNumber -64 leastUnacked in
  if diff <? 2 ^ (14 - 1) then PacketNumberLen2 else PacketNumberLen4.

Definition GetPacketNumberLength (packetNumber : Z) : Z :=
  if packetNumber <? 2 ^ (PacketNumberLen1 * 8) then PacketNumberLen1
  else if packetNumber <? 2 ^ (PacketNumberLen2 * 8) then PacketNumberLen2
  else if packetNumber <? 2 ^ (PacketNumberLen4 * 8) then PacketNumberLen4
  else PacketNumberLen6.

(** ** connection_id.go *)

(** The random length chosen by [GenerateConnectionIDForInitial], from the
    random byte [r]. *)
Definition InitialConnectionIDLen (r : Z) : Z :=
  MinConnectionIDLenInitial + r mod (maxConnectionIDLen - MinConnectionIDLenInitial + 1).

Definition ReadConnectionID (length : Z) : reader (list Z) := fun r =>
  if length =? 0 then Ok ([], r)
  else match ReadFull length r with
       | Err ErrUnexpectedEOF => Err EOF
       | res => res
       end.

(** ** version.go *)

Definition VersionTLS : Z := 101.
Definition VersionWhatever : Z := 1.
Definition VersionUnknown : Z := 2 ^ 32 - 1.
Definition SupportedVersions : list Z := [VersionTLS].
Definition gquicVersion0 : Z := 0x51303030.
Definition maxGquicVersion : Z := 0x51303439.

Fixpoint IsSupportedVersion (supported : list Z) (v : Z) : bool :=
  match supported with
  | [] => false
  | t :: supported => if t =? v then true else IsSupportedVersion supported v
  end.

Definition IsValidVersion (v : Z) : bool :=
  (v =? VersionTLS) || IsSupportedVersion SupportedVersions v.

Definition isGQUIC (vn : Z) : bool := (gquicVersion0 <? vn) && (vn <=? maxGquicVersion).

Definition toGQUICVersion (vn : Z) : Z :=
  u32 (10 * u32 (vn - gquicVersion0)) / 0x100 + vn mod 0x10.

Fixpoint ChooseSupportedVersion (ours theirs : list Z) : Z * bool :=
  match ours with
  | [] => (0, false)
  | ourVer :: ours =>
      if IsSupportedVersion theirs ourVer then (ourVer, true)
      else ChooseSupportedVersion ours theirs
  end.

(** The reserved version made from the four random bytes whose big-endian
    value is [rnd]. *)
Definition generateReservedVersion (rnd : Z) : Z :=
  Z.land (Z.lor rnd 0x0a0a0a0a) 0xfafafafa.

(** [posByte] is the random byte that selects the position, [rnd] the value of
    the random bytes of the reserved version. *)
Definition GetGreasedVersions (posByte rnd : Z) (supported : list Z) : list Z :=
  let randPos := posByte mod (len supported + 1) in
  take_z randPos supported ++ generateReservedVersion rnd :: drop_z randPos supported.

Definition is_greased (v : Z) : bool := Z.land v 0x0f0f0f0f =? 0x0a0a0a0a.

Definition StripGreasedVersions (versions : list Z) : list Z :=
  List.filter (fun v => negb (is_greased v)) versions.

(** ** Lemmas: packet numbers *)

Lemma MinByteCount_min a b : MinByteCount a b = Z.min a b.
Proof. unfold MinByteCount. case_cmp; lia. Qed.

Lemma MaxByteCount_max a b : MaxByteCount_of a b = Z.max a b.
Proof. unfold MaxByteCount_of. case_cmp; lia. Qed.

Lemma land_u64 a m : is_u64 a -> Z.land a (u64 m) = Z.land a m.
Proof.
  unfold is_u64, u64. intros Ha. rewrite <- (Z.land_ones m 64) by lia.
  rewrite (Z.land_comm m), Z.land_assoc, Z.land_ones, Z.mod_small by lia. done.
Qed.

(** Clearing the low bits gives the beginning of the epoch. *)
Lemma epoch_begin l k : is_u64 l -> 0 <= k <= 62 ->
  Z.land l (u64 (Z.lnot (2 ^ k -64 1))) = 2 ^ k * (l / 2 ^ k).
Proof.
  intros Hl Hk. assert (0 < 2 ^ k <= 2 ^ 62).
  { split; [apply Z.pow_pos_nonneg; lia | apply Z.pow_le_mono_r; lia]. }
  rewrite land_u64, sub64_small by (done || lia).
  replace (2 ^ k - 1) with (Z.ones k) by (rewrite Z.ones_equiv; lia).
  rewrite <- Z.ldiff_land, Z.ldiff_ones_r by lia.
  rewrite Z.shiftl_mul_pow2, Z.shiftr_div_pow2 by lia. lia.
Qed.

(** [closestTo] on numbers without wrap-around. *)
Lemma delta_abs a b : is_u64 a -> is_u64 b -> delta a b = Z.abs (a - b).
Proof. unfold is_u64, delta. intros. case_cmp; rewrite sub64_small; lia. Qed.

(** The number recovered from the low [k] bits is the sent one whenever it
    lies in the half-window around the next expected packet number. *)
Lemma infer_window k last pn :
  7 <= k <= 30 -> 0 <= last < 2 ^ 62 -> 0 <= pn < 2 ^ 62 ->
  Z.abs (pn - (last + 1)) < 2 ^ (k - 1) ->
  let e := 2 ^ k * (last / 2 ^ k) in
  closestTo (last +64 1) (e +64 pn mod 2 ^ k)
    (closestTo (last +64 1) (e -64 2 ^ k +64 pn mod 2 ^ k)
       (e +64 2 ^ k +64 pn mod 2 ^ k)) = pn.
Proof.
  intros Hk Hl Hp Hw e.
  assert (HD : 2 ^ k = 2 * 2 ^ (k - 1)).
  { replace k with (1 + (k - 1)) at 1 by lia. rewrite Z.pow_add_r; lia. }
  assert (2 ^ 6 <= 2 ^ (k - 1)) by (apply Z.pow_le_mono_r; lia).
  assert (HD2 : 2 ^ k <= 2 ^ 30) by (apply Z.pow_le_mono_r; lia).
  remember (2 ^ (k - 1)) as h eqn:Eh. remember (2 ^ k) as D eqn:ED. clear Eh ED.
  pose proof (Z.div_mod last D ltac:(lia)) as Hle.
  pose proof (Z.mod_pos_bound last D ltac:(lia)).
  pose proof (Z.div_mod pn D ltac:(lia)) as Hpe.
  pose proof (Z.mod_pos_bound pn D ltac:(lia)).
  set (w := pn mod D) in *. subst e. set (q := last / D) in *. set (p := pn / D) in *.
  assert (Hq : 0 <= q) by (apply Z.div_pos; lia).
  assert (Hcase : pn = D * q + w \/ pn = D * q - D + w \/ pn = D * q + D + w).
  { assert (p < q + 2).
    { apply Z.nle_gt. intros Hge. apply (Z.mul_le_mono_nonneg_l _ _ D) in Hge; lia. }
    assert (q - 2 < p).
    { apply Z.nle_gt. intros Hge. apply (Z.mul_le_mono_nonneg_l _ _ D) in Hge; lia. }
    assert (p = q \/ p = q - 1 \/ p = q + 1) as Hc by lia.
    destruct_or! Hc; subst p; lia. }
  assert (Hlow : D * q = 0 \/ D <= D * q).
  { destruct (Z.eq_dec q 0) as [-> | Hq0]; [lia | right].
    pose proof (Z.mul_le_mono_nonneg_l 1 q D). lia. }
  assert (He : 0 <= D * q) by lia.
  remember (D * q) as e eqn:Ee. clearbody w. clear Ee Hpe p q Hq.
  rewrite (add64_small last 1), (add64_small e w), (add64_small e D),
    (add64_small (e + D) w) by lia.
  assert (Hprev : exists prev, e -64 D +64 w = prev /\ is_u64 prev
    /\ (prev = e - D + w \/ (e = 0 /\ prev = 2 ^ 64 - D + w))).
  { destruct Hlow as [-> | Hlow].
    - exists (2 ^ 64 - D + w). unfold is_u64. split; [| lia].
      replace (0 -64 D) with (2 ^ 64 - D); [rewrite add64_small; lia |].
      unfold sub64, u64. rewrite <- (Z.mod_add _ 1) by lia. rewrite Z.mod_small; lia.
    - exists (e - D + w). unfold is_u64. rewrite sub64_small, add64_small by lia. lia. }
  destruct Hprev as (prev & -> & Hpu & Hprev).
  unfold closestTo.
  rewrite (delta_abs _ prev), (delta_abs _ (e + D + w)) by (unfold is_u64 in *; lia).
  destruct (Z.ltb_spec (Z.abs (last + 1 - prev)) (Z.abs (last + 1 - (e + D + w))));
    rewrite !delta_abs by (unfold is_u64 in *; lia);
    match goal with |- (if ?a <? ?b then _ else _) = _ => destruct (Z.ltb_spec a b) end;
    unfold is_u64 in *; lia.
Qed.

Lemma epochDelta_bits length :
  length = PacketNumberLen1 \/ length = PacketNumberLen2 \/ length = PacketNumberLen4 ->
  epochDelta length = 2 ^ pn_bits length /\ 7 <= pn_bits length <= 30.
Proof. intros Hl. destruct_or! Hl; subst; vm_compute; split; done. Qed.

Lemma InferPacketNumber_window length last pn :
  length = PacketNumberLen1 \/ length = PacketNumberLen2 \/ length = PacketNumberLen4 ->
  0 <= last < 2 ^ 62 -> 0 <= pn < 2 ^ 62 ->
  Z.abs (pn - (last + 1)) < 2 ^ (pn_bits length - 1) ->
  InferPacketNumber length last (pn mod 2 ^ pn_bits length) = pn.
Proof.
  intros Hlen Hl Hp Hw. destruct (epochDelta_bits length Hlen) as [E Hb].
  unfold InferPacketNumber. rewrite E.
  rewrite epoch_begin by (unfold is_u64; lia). by apply infer_window.
Qed.

Lemma header_length_choice pn u :
  0 <= u <= pn -> pn < 2 ^ 62 ->
  GetPacketNumberLengthForHeader pn u
  = if pn - u <? 2 ^ 13 then PacketNumberLen2 else PacketNumberLen4.
Proof.
  intros Hu Hp. unfold GetPacketNumberLengthForHeader. cbv zeta.
  rewrite sub64_small by lia. by change (2 ^ (14 - 1)) with (2 ^ 13).
Qed.

(** A packet number that the sender encodes in the length it chooses from
    its least unacknowledged packet is recovered exactly by the receiver: the
    bytes written for it are read back completely, and inferring the number
    from the truncated value gives the sent number, when the receiver has seen
    at least the packet before the least unacknowledged one and reordering is
    below 2^13 packets. *)
Theorem packet_number_roundtrip pn leastUnacked last rest :
  0 <= leastUnacked <= pn -> pn < 2 ^ 61 -> pn - leastUnacked < 2 ^ 29 ->
  leastUnacked <= last + 1 < pn + 2 ^ 13 -> 0 <= last ->
  let length := GetPacketNumberLengthForHeader pn leastUnacked in
  exists bs wire,
    WriteVarIntPacketNumber pn length = Ok bs /\ len bs = length
    /\ ReadVarIntPacketNumber (bs ++ rest) = Ok ((wire, length), rest)
    /\ InferPacketNumber length last wire = pn.
Proof.
  intros Hu Hp Hfar Hl Hl0. cbv zeta. rewrite header_length_choice by lia.
  set (n := if _ <? _ then _ else _).
  assert (Hn : n = PacketNumberLen1 \/ n = PacketNumberLen2 \/ n = PacketNumberLen4)
    by (subst n; case_cmp; tauto).
  destruct (packet_number_wire pn n rest) as (bs & ? & ? & _ & ?); [lia | done |].
  exists bs, (pn mod 2 ^ pn_bits n). split_and!; [done.. |].
  apply InferPacketNumber_window; [done | lia.. |].
  subst n. destruct (Z.ltb_spec (pn - leastUnacked) (2 ^ 13));
    [change (pn_bits _ - 1) with 13 | change (pn_bits _ - 1) with 29]; lia.
Qed.

Lemma packet_number_roundtrip_witness :
  exists bs wire,
    WriteVarIntPacketNumber 100000 2 = Ok bs /\ len bs = 2
    /\ ReadVarIntPacketNumber (bs ++ [7]) = Ok ((wire, 2), [7])
    /\ InferPacketNumber 2 99000 wire = 100000.
Proof.
  exact (packet_number_roundtrip 100000 98000 99000 [7]
    ltac:(lia) ltac:(lia) ltac:(lia) ltac:(lia) ltac:(lia)).
Defined.

(** ** Lemmas: versions *)

Lemma land_lor_absorb a b : Z.land (Z.lor b a) a = a.
Proof.
  apply Z.bits_inj'. intros n Hn. rewrite Z.land_spec, Z.lor_spec.
  by destruct (Z.testbit a n), (Z.testbit b n).
Qed.

Lemma generateReservedVersion_greased rnd : is_greased (generateReservedVersion rnd) = true.
Proof.
  unfold is_greased, generateReservedVersion.
  rewrite <- Z.land_assoc. change (Z.land 0xfafafafa 0x0f0f0f0f) with 0x0a0a0a0a.
  rewrite land_lor_absorb. done.
Qed.

Lemma filter_all_true {A} (f : A -> bool) l :
  Forall (fun x => f x = true) l -> List.filter f l = l.
Proof. induction 1 as [| x l Hx _ IH]; [done |]. cbn. by rewrite Hx, IH. Qed.

(** Greasing is transparent: the list sent by the server contains exactly
    one reserved version, at a random place, and the client's stripping gives
    back the supported versions in their order, whatever the random bytes. *)
Theorem strip_greased_versions posByte rnd supported :
  Forall (fun v => is_greased v = false) supported ->
  StripGreasedVersions (GetGreasedVersions posByte rnd supported) = supported
  /\ len (GetGreasedVersions posByte rnd supported) = len supported + 1.
Proof.
  intros H. unfold GetGreasedVersions, StripGreasedVersions. cbv zeta.
  set (n := posByte mod _). split.
  - rewrite List.filter_app. cbn [List.filter].
    rewrite generateReservedVersion_greased. cbn [negb].
    rewrite <- List.filter_app, take_drop_z. apply filter_all_true.
    eapply Forall_impl; [exact H |]. by intros v ->.
  - rewrite len_app, len_cons.
    replace (len supported) with (len (take_z n supported ++ drop_z n supported))
      by (by rewrite take_drop_z).
    rewrite len_app. lia.
Qed.

Lemma strip_greased_versions_witness :
  StripGreasedVersions (GetGreasedVersions 77 0xdeadbeef [VersionTLS; 7])
  = [VersionTLS; 7]
  /\ len (GetGreasedVersions 77 0xdeadbeef [VersionTLS; 7]) = 3.
Proof. apply (strip_greased_versions 77 0xdeadbeef [VersionTLS; 7]). by repeat constructor. Defined.

Lemma IsSupportedVersion_In supported v : IsSupportedVersion supported v = true <-> In v supported.
Proof.
  induction supported as [| t l IH]; cbn; [by split |].
  destruct (Z.eqb_spec t v); [tauto |]. rewrite IH. tauto.
Qed.

(** Version negotiation picks our most preferred version among those the
    peer offers, and reports failure exactly when there is none. *)
Theorem ChooseSupportedVersion_best ours theirs :
  match ChooseSupportedVersion ours theirs with
  | (v, true) => exists pre post, ours = pre ++ v :: post /\ In v theirs
      /\ forall x, In x pre -> ~ In x theirs
  | (_, false) => forall x, In x ours -> ~ In x theirs
  end.
Proof.
  induction ours as [| o ours IH]; cbn [ChooseSupportedVersion]; [by intros x [] |].
  destruct (IsSupportedVersion theirs o) eqn:E.
  - exists [], ours. split_and!; [done | by apply IsSupportedVersion_In | by intros x []].
  - assert (Ho : ~ In o theirs) by (rewrite <- IsSupportedVersion_In; by rewrite E).
    destruct (ChooseSupportedVersion ours theirs) as [v []].
    + destruct IH as (pre & post & -> & Hv & Hpre). exists (o :: pre), post.
      split_and!; [done | done |]. intros x [<- | Hx]; auto.
    + intros x [<- | Hx]; auto.
Qed.

(** ** Lemmas: stream identifiers *)

Lemma first_stream_range stype pers : 0 <= first_stream_of stype pers < 4.
Proof. destruct stype, pers; cbn; lia. Qed.

Lemma FirstStream_first stype pers : FirstStream stype pers = first_stream_of stype pers.
Proof. by destruct stype, pers. Qed.

Lemma MaxStreamID_value stype pers n : 1 <= n < 2 ^ 62 ->
  MaxStreamID stype n pers = first_stream_of stype pers + 4 * (n - 1).
Proof.
  intros Hn. pose proof (first_stream_range stype pers). unfold MaxStreamID.
  rewrite (proj2 (Z.eqb_neq n 0)) by lia. rewrite (sub64_small n) by lia.
  rewrite (mul64_small 4) by lia. by rewrite add64_small by lia.
Qed.

(** The kind of a stream is in the two lowest bits of its identifier. *)
Lemma stream_id_class stype pers id : id mod 4 = first_stream_of stype pers <->
  StreamID_Type id = stype /\ InitiatedBy id = pers.
Proof.
  unfold StreamID_Type, InitiatedBy.
  assert (H2 : id mod 2 = (id mod 4) mod 2) by (Z.to_euclidean_division_equations; lia). rewrite H2.
  pose proof (Z.mod_pos_bound id 4).
  assert (id mod 4 = 0 \/ id mod 4 = 1 \/ id mod 4 = 2 \/ id mod 4 = 3) as [E | [E | [E | E]]] by lia;
    rewrite E; destruct stype, pers; cbn; split; try done; by intros [? ?].
Qed.

(** The identifier of the n-th stream of a kind belongs to that kind, is
    initiated by that side, and its stream number is n again. *)
Theorem MaxStreamID_inverse stype pers n :
  1 <= n < 2 ^ 62 ->
  let id := MaxStreamID stype n pers in
  StreamID_Type id = stype /\ InitiatedBy id = pers /\ StreamNum id = n
  /\ id = FirstStream stype pers + 4 * (n - 1).
Proof.
  intros Hn. cbv zeta. rewrite FirstStream_first, MaxStreamID_value by done.
  pose proof (first_stream_range stype pers) as Hf.
  destruct (proj1 (stream_id_class stype pers (first_stream_of stype pers + 4 * (n - 1)))) as [H1 H2];
    [Z.to_euclidean_division_equations; lia |].
  split_and!; try done. unfold StreamNum. rewrite add64_small; Z.to_euclidean_division_equations; lia.
Qed.

Lemma MaxStreamID_inverse_witness :
  let id := MaxStreamID StreamTypeUni 100 PerspectiveServer in
  StreamID_Type id = StreamTypeUni /\ InitiatedBy id = PerspectiveServer
  /\ StreamNum id = 100 /\ id = FirstStream StreamTypeUni PerspectiveServer + 4 * (100 - 1).
Proof. apply MaxStreamID_inverse. lia. Defined.
