(* ===== verification/Frames.v ===== *)
(** * Frames (internal/wire/*_frame.go, except ACK)

    For each frame type: the struct, the parser, [Write] and [Length].  A
    parser reads the type byte itself, as in the source; [Write] gives the
    bytes appended to the buffer.  Text addresses are made and resolved by
    package net: its two functions are the fields of the class [NetLib]. *)

From S2P Require Import Prelude Qerr Varint Protocol.

(** ** What package net provides *)

Record UDPAddr : Type := mkUDPAddr { IP : list Z; Port : Z }.

(** [IP.To4], [None] for nil. *)
Definition To4 (ip : list Z) : option (list Z) :=
  if len ip =? 4 then Some ip
  else if (len ip =? 16) && bool_decide (take 12 ip = replicate 10 0 ++ [0xff; 0xff]) then Some (drop 12 ip)
  else None.

Class NetLib : Type := {
  UDPAddr_String : UDPAddr -> list Z;
  ResolveUDPAddr : list Z -> outcome UDPAddr;
}.

(** Resolving the text form of an address of the set [P] gives the address. *)
Class NetLibLaws `{NetLib} (P : UDPAddr -> Prop) : Prop := {
  resolve_string : forall a, P a -> ResolveUDPAddr (UDPAddr_String a) = Ok a;
  string_bytes : forall a, P a -> bytes (UDPAddr_String a);
  string_short : forall a, P a -> len (UDPAddr_String a) < 64;
}.

(** The largest allocation of the runtime; a larger [make] panics. *)
Definition maxAlloc : Z := 2 ^ 48.

Definition make_bytes (n : Z) : reader unit :=
  if maxAlloc <? n then crash "makeslice: len out of range" else mret tt.

(** ** Frame types *)

Record ResetStreamFrame : Type := mkResetStreamFrame {
  ResetStream_StreamID : Z; ResetStream_ErrorCode : Z; ResetStream_ByteOffset : Z }.
Record StopSendingFrame : Type := mkStopSendingFrame {
  StopSending_StreamID : Z; StopSending_ErrorCode : Z }.
Record CryptoFrame : Type := mkCryptoFrame { Crypto_Offset : Z; Crypto_Data : list Z }.
Record NewTokenFrame : Type := mkNewTokenFrame { NewToken_Token : list Z }.
Record MaxDataFrame : Type := mkMaxDataFrame { MaxData_ByteOffset : Z }.
Record MaxStreamDataFrame : Type := mkMaxStreamDataFrame {
  MaxStreamData_StreamID : Z; MaxStreamData_ByteOffset : Z }.
Record MaxStreamsFrame : Type := mkMaxStreamsFrame {
  MaxStreams_Type : StreamType; MaxStreams_MaxStreams : Z }.
Record DataBlockedFrame : Type := mkDataBlockedFrame { DataBlocked_DataLimit : Z }.
Record StreamDataBlockedFrame : Type := mkStreamDataBlockedFrame {
  StreamDataBlocked_StreamID : Z; StreamDataBlocked_DataLimit : Z }.
Record StreamsBlockedFrame : Type := mkStreamsBlockedFrame {
  StreamsBlocked_Type : StreamType; StreamsBlocked_StreamLimit : Z }.
Record PathChallengeFrame : Type := mkPathChallengeFrame { PathChallenge_Data : list Z }.
Record PathResponseFrame : Type := mkPathResponseFrame { PathResponse_Data : list Z }.
Record ConnectionCloseFrame : Type := mkConnectionCloseFrame {
  ConnectionClose_IsApplicationError : bool;
  ConnectionClose_ErrorCode : Z;
  ConnectionClose_ReasonPhrase : list Z }.
Record StreamFrame : Type := mkStreamFrame {
  Stream_StreamID : Z; Stream_FinBit : bool; Stream_DataLenPresent : bool;
  Stream_Offset : Z; Stream_Data : list Z }.
Record AddrModFrame : Type := mkAddrModFrame {
  AddrMod_operation : Z; AddrMod_addressVersion : Z; AddrMod_address : UDPAddr }.
Record OwdFrame : Type := mkOwdFrame { Owd_pathID : Z; Owd_time : Z }.
Record OwdAckFrame : Type := mkOwdAckFrame { OwdAck_pathID : Z; OwdAck_owd : Z }.

Definition DeleteFrame : Z := 0x0.
Definition AddFrame : Z := 0x1.
Definition IPv4 : Z := 0x4.
Definition IPv6 : Z := 0x6.

Section Frames.
Context `{NetLib}.

(** ** PING *)

Definition parsePingFrame : reader unit := _ ← ReadByte; mret tt.
Definition PingFrame_Write : writes := Ok [0x1].
Definition PingFrame_Length : outcome Z := Ok 1.

(** ** RESET_STREAM *)

Definition parseResetStreamFrame : reader ResetStreamFrame :=
  _ ← ReadByte;
  sid ← ReadVarInt;
  errorCode ← ReadUint16;
  bo ← ReadVarInt;
  mret (mkResetStreamFrame sid errorCode bo).

Definition ResetStreamFrame_Write (f : ResetStreamFrame) : writes :=
  Ok [0x4] +w+ WriteVarInt (ResetStream_StreamID f)
  +w+ WriteUint16 (ResetStream_ErrorCode f)
  +w+ WriteVarInt (ResetStream_ByteOffset f).

Definition ResetStreamFrame_Length (f : ResetStreamFrame) : outcome Z :=
  a ← VarIntLen (ResetStream_StreamID f);
  b ← VarIntLen (ResetStream_ByteOffset f);
  Ok (1 +64 a +64 2 +64 b).

(** ** STOP_SENDING *)

Definition parseStopSendingFrame : reader StopSendingFrame :=
  _ ← ReadByte;
  streamID ← ReadVarInt;
  errorCode ← ReadUint16;
  mret (mkStopSendingFrame streamID errorCode).

Definition StopSendingFrame_Write (f : StopSendingFrame) : writes :=
  Ok [0x5] +w+ WriteVarInt (StopSending_StreamID f)
  +w+ WriteUint16 (StopSending_ErrorCode f).

Definition StopSendingFrame_Length (f : StopSendingFrame) : outcome Z :=
  a ← VarIntLen (StopSending_StreamID f); Ok (1 +64 a +64 2).

(** ** CRYPTO *)

Definition parseCryptoFrame : reader CryptoFrame :=
  _ ← ReadByte;
  offset ← ReadVarInt;
  dataLen ← ReadVarInt;
  rlen ← Len;
  if rlen <? dataLen then fail EOF else
  data ← (if dataLen =? 0 then mret [] else ReadFull dataLen);
  mret (mkCryptoFrame offset data).

Definition CryptoFrame_Write (f : CryptoFrame) : writes :=
  Ok [0x6] +w+ WriteVarInt (Crypto_Offset f)
  +w+ WriteVarInt (len (Crypto_Data f)) +w+ Ok (Crypto_Data f).

Definition CryptoFrame_Length (f : CryptoFrame) : outcome Z :=
  a ← VarIntLen (Crypto_Offset f);
  b ← VarIntLen (len (Crypto_Data f));
  Ok (1 +64 a +64 b +64 len (Crypto_Data f)).

Definition CryptoFrame_MaxDataLen (f : CryptoFrame) (maxSize : Z) : outcome Z :=
  a ← VarIntLen (Crypto_Offset f);
  let headerLen := 1 +64 a +64 1 in
  if maxSize <? headerLen then Ok 0 else
  let maxDataLen := maxSize -64 headerLen in
  b ← VarIntLen maxDataLen;
  Ok (if negb (b =? 1) then maxDataLen -64 1 else maxDataLen).

(** ** NEW_TOKEN *)

Definition parseNewTokenFrame : reader NewTokenFrame :=
  _ ← ReadByte;
  tokenLen ← ReadVarInt;
  rlen ← Len;
  if rlen <? tokenLen then fail EOF else
  token ← ReadFull tokenLen;
  mret (mkNewTokenFrame token).

Definition NewTokenFrame_Write (f : NewTokenFrame) : writes :=
  Ok [0x7] +w+ WriteVarInt (len (NewToken_Token f)) +w+ Ok (NewToken_Token f).

Definition NewTokenFrame_Length (f : NewTokenFrame) : outcome Z :=
  a ← VarIntLen (len (NewToken_Token f)); Ok (1 +64 a +64 len (NewToken_Token f)).

(** ** MAX_DATA, MAX_STREAM_DATA, MAX_STREAMS *)

Definition parseMaxDataFrame : reader MaxDataFrame :=
  _ ← ReadByte;
  byteOffset ← ReadVarInt;
  mret (mkMaxDataFrame byteOffset).

Definition MaxDataFrame_Write (f : MaxDataFrame) : writes :=
  Ok [0x10] +w+ WriteVarInt (MaxData_ByteOffset f).

Definition MaxDataFrame_Length (f : MaxDataFrame) : outcome Z :=
  a ← VarIntLen (MaxData_ByteOffset f); Ok (1 +64 a).

Definition parseMaxStreamDataFrame : reader MaxStreamDataFrame :=
  _ ← ReadByte;
  sid ← ReadVarInt;
  offset ← ReadVarInt;
  mret (mkMaxStreamDataFrame sid offset).

Definition MaxStreamDataFrame_Write (f : MaxStreamDataFrame) : writes :=
  Ok [0x11] +w+ WriteVarInt (MaxStreamData_StreamID f)
  +w+ WriteVarInt (MaxStreamData_ByteOffset f).

Definition MaxStreamDataFrame_Length (f : MaxStreamDataFrame) : outcome Z :=
  a ← VarIntLen (MaxStreamData_StreamID f);
  b ← VarIntLen (MaxStreamData_ByteOffset f);
  Ok (1 +64 a +64 b).

(** The zero value of [Type], kept when the type byte is neither of the two,
    is [StreamTypeUni]. *)
Definition parseMaxStreamsFrame : reader MaxStreamsFrame :=
  typeByte ← ReadByte;
  streamID ← ReadVarInt;
  mret (mkMaxStreamsFrame
    (if typeByte =? 0x12 then StreamTypeBidi else StreamTypeUni) streamID).

Definition MaxStreamsFrame_Write (f : MaxStreamsFrame) : writes :=
  (match MaxStreams_Type f with
   | StreamTypeBidi => Ok [0x12]
   | StreamTypeUni => Ok [0x13]
   end) +w+ WriteVarInt (MaxStreams_MaxStreams f).

Definition MaxStreamsFrame_Length (f : MaxStreamsFrame) : outcome Z :=
  a ← VarIntLen (MaxStreams_MaxStreams f); Ok (1 +64 a).

(** ** DATA_BLOCKED, STREAM_DATA_BLOCKED, STREAMS_BLOCKED *)

Definition parseDataBlockedFrame : reader DataBlockedFrame :=
  _ ← ReadByte;
  offset ← ReadVarInt;
  mret (mkDataBlockedFrame offset).

Definition DataBlockedFrame_Write (f : DataBlockedFrame) : writes :=
  Ok [0x14] +w+ WriteVarInt (DataBlocked_DataLimit f).

Definition DataBlockedFrame_Length (f : DataBlockedFrame) : outcome Z :=
  a ← VarIntLen (DataBlocked_DataLimit f); Ok (1 +64 a).

Definition parseStreamDataBlockedFrame : reader StreamDataBlockedFrame :=
  _ ← ReadByte;
  sid ← ReadVarInt;
  offset ← ReadVarInt;
  mret (mkStreamDataBlockedFrame sid offset).

Definition StreamDataBlockedFrame_Write (f : StreamDataBlockedFrame) : writes :=
  Ok [0x15] +w+ WriteVarInt (StreamDataBlocked_StreamID f)
  +w+ WriteVarInt (StreamDataBlocked_DataLimit f).

Definition StreamDataBlockedFrame_Length (f : StreamDataBlockedFrame) : outcome Z :=
  a ← VarIntLen (StreamDataBlocked_StreamID f);
  b ← VarIntLen (StreamDataBlocked_DataLimit f);
  Ok (1 +64 a +64 b).

Definition parseStreamsBlockedFrame : reader StreamsBlockedFrame :=
  typeByte ← ReadByte;
  streamLimit ← ReadVarInt;
  mret (mkStreamsBlockedFrame
    (if typeByte =? 0x16 then StreamTypeBidi else StreamTypeUni) streamLimit).

Definition StreamsBlockedFrame_Write (f : StreamsBlockedFrame) : writes :=
  (match StreamsBlocked_Type f with
   | StreamTypeBidi => Ok [0x16]
   | StreamTypeUni => Ok [0x17]
   end) +w+ WriteVarInt (StreamsBlocked_StreamLimit f).

Definition StreamsBlockedFrame_Length (f : StreamsBlockedFrame) : outcome Z :=
  a ← VarIntLen (StreamsBlocked_StreamLimit f); Ok (1 +64 a).

(** ** PATH_CHALLENGE, PATH_RESPONSE *)

(** [io.ReadFull] into an array, with the partial read reported as EOF. *)
Definition read_array (n : Z) : reader (list Z) := fun r =>
  match ReadFull n r with
  | Err ErrUnexpectedEOF => Err EOF
  | res => res
  end.

Definition parsePathChallengeFrame : reader PathChallengeFrame :=
  _ ← ReadByte; data ← read_array 8; mret (mkPathChallengeFrame data).

Definition PathChallengeFrame_Write (f : PathChallengeFrame) : writes :=
  Ok [0x1a] +w+ Ok (PathChallenge_Data f).

Definition PathChallengeFrame_Length : outcome Z := Ok (1 + 8).

Definition parsePathResponseFrame : reader PathResponseFrame :=
  _ ← ReadByte; data ← read_array 8; mret (mkPathResponseFrame data).

Definition PathResponseFrame_Write (f : PathResponseFrame) : writes :=
  Ok [0x1b] +w+ Ok (PathResponse_Data f).

Definition PathResponseFrame_Length : outcome Z := Ok (1 + 8).

(** ** CONNECTION_CLOSE *)

Definition parseConnectionCloseFrame : reader ConnectionCloseFrame :=
  typeByte ← ReadByte;
  let isApplicationError := typeByte =? 0x1d in
  ec ← ReadUint16;
  _ ← (if negb isApplicationError then ReadVarInt else mret 0);
  reasonPhraseLen ← ReadVarInt;
  rlen ← Len;
  if rlen <? i64 reasonPhraseLen then fail EOF else
  reasonPhrase ← ReadFull reasonPhraseLen;
  mret (mkConnectionCloseFrame isApplicationError ec reasonPhrase).

Definition ConnectionCloseFrame_Length (f : ConnectionCloseFrame) : outcome Z :=
  a ← VarIntLen (len (ConnectionClose_ReasonPhrase f));
  let length := 1 +64 2 +64 a +64 len (ConnectionClose_ReasonPhrase f) in
  Ok (if negb (ConnectionClose_IsApplicationError f) then length +64 1 else length).

Definition ConnectionCloseFrame_Write (f : ConnectionCloseFrame) : writes :=
  Ok [if ConnectionClose_IsApplicationError f then 0x1d else 0x1c]
  +w+ WriteUint16 (ConnectionClose_ErrorCode f)
  +w+ (if negb (ConnectionClose_IsApplicationError f) then WriteVarInt 0 else Ok [])
  +w+ WriteVarInt (len (ConnectionClose_ReasonPhrase f))
  +w+ Ok (ConnectionClose_ReasonPhrase f).

(** ** STREAM *)

Definition StreamFrame_DataLen (f : StreamFrame) : Z := len (Stream_Data f).

Definition parseStreamFrame : reader StreamFrame :=
  typeByte ← ReadByte;
  let hasOffset := 0 <? Z.land typeByte 0x4 in
  let finBit := 0 <? Z.land typeByte 0x1 in
  let dataLenPresent := 0 <? Z.land typeByte 0x2 in
  streamID ← ReadVarInt;
  offset ← (if hasOffset then ReadVarInt else mret 0);
  dataLen ← (if dataLenPresent then
               dataLen ← ReadVarInt;
               rlen ← Len;
               if rlen <? dataLen then fail EOF else mret dataLen
             else Len);
  data ← (if negb (dataLen =? 0) then ReadFull dataLen else mret []);
  let frame := mkStreamFrame streamID finBit dataLenPresent offset data in
  if MaxByteCount <? offset +64 StreamFrame_DataLen frame then
    fail (QuicError InvalidStreamData (Msg "data overflows maximum offset" []))
  else mret frame.

Definition StreamFrame_typeByte (f : StreamFrame) : Z :=
  let typeByte := 0x8 in
  let typeByte := if Stream_FinBit f then Z.lxor typeByte 0x1 else typeByte in
  let typeByte := if Stream_DataLenPresent f then Z.lxor typeByte 0x2 else typeByte in
  if negb (Stream_Offset f =? 0) then Z.lxor typeByte 0x4 else typeByte.

Definition StreamFrame_Write (f : StreamFrame) : writes :=
  if (len (Stream_Data f) =? 0) && negb (Stream_FinBit f) then
    Err (Errorf "StreamFrame: attempting to write empty frame without FIN" [])
  else
    let hasOffset := negb (Stream_Offset f =? 0) in
    Ok [StreamFrame_typeByte f]
    +w+ WriteVarInt (Stream_StreamID f)
    +w+ (if hasOffset then WriteVarInt (Stream_Offset f) else Ok [])
    +w+ (if Stream_DataLenPresent f then WriteVarInt (StreamFrame_DataLen f) else Ok [])
    +w+ Ok (Stream_Data f).

Definition StreamFrame_Length (f : StreamFrame) : outcome Z :=
  a ← VarIntLen (Stream_StreamID f);
  b ← (if negb (Stream_Offset f =? 0) then VarIntLen (Stream_Offset f) else Ok 0);
  c ← (if Stream_DataLenPresent f then VarIntLen (StreamFrame_DataLen f) else Ok 0);
  Ok (1 +64 a +64 b +64 c +64 StreamFrame_DataLen f).

Definition StreamFrame_MaxDataLen (f : StreamFrame) (maxSize : Z) : outcome Z :=
  a ← VarIntLen (Stream_StreamID f);
  b ← (if negb (Stream_Offset f =? 0) then VarIntLen (Stream_Offset f) else Ok 0);
  let headerLen := 1 +64 a +64 b in
  let headerLen := if Stream_DataLenPresent f then headerLen +64 1 else headerLen in
  if maxSize <? headerLen then Ok 0 else
  let maxDataLen := maxSize -64 headerLen in
  if Stream_DataLenPresent f then
    c ← VarIntLen maxDataLen;
    Ok (if negb (c =? 1) then maxDataLen -64 1 else maxDataLen)
  else Ok maxDataLen.

(** The result and the modified receiver; [Ok (None, f)] is the return of two
    nils with nothing modified. *)
Definition MaybeSplitOffFrame (f : StreamFrame) (maxSize : Z)
    : outcome (option StreamFrame * StreamFrame) :=
  l ← StreamFrame_Length f;
  if l <=? maxSize then Ok (None, f) else
  n ← StreamFrame_MaxDataLen f maxSize;
  if n =? 0 then Err (Errorf "too small" []) else
  if len (Stream_Data f) <? n then Panic "slice bounds out of range" else
  Ok (Some (mkStreamFrame (Stream_StreamID f) false (Stream_DataLenPresent f)
              (Stream_Offset f) (take_z n (Stream_Data f))),
      mkStreamFrame (Stream_StreamID f) (Stream_FinBit f) (Stream_DataLenPresent f)
        (Stream_Offset f +64 n) (drop_z n (Stream_Data f))).

(** ** The QED frames: ADDR_MOD, OWD, OWD_ACK *)

Definition NewAddrModFrame (operation version : Z) (addr : UDPAddr) : AddrModFrame :=
  mkAddrModFrame operation version addr.

Definition parseAddrModFrame : reader AddrModFrame :=
  _ ← ReadByte;
  mt ← ReadVarInt;
  av ← ReadVarInt;
  addrLen ← ReadVarInt;
  _ ← make_bytes addrLen;
  addr ← ReadFull addrLen;
  address ← lift (ResolveUDPAddr addr);
  mret (mkAddrModFrame (u8 mt) (u8 av) address).

Definition AddrModFrame_Write (f : AddrModFrame) : writes :=
  Ok [0xf1] +w+ WriteVarInt (AddrMod_operation f)
  +w+ WriteVarInt (AddrMod_addressVersion f)
  +w+ WriteVarInt (len (UDPAddr_String (AddrMod_address f)))
  +w+ Ok (UDPAddr_String (AddrMod_address f)).

(** The loop [for b := range addrArray] binds [b] to the indices of the text. *)
Definition AddrModFrame_Length (f : AddrModFrame) : outcome Z :=
  a ← VarIntLen (AddrMod_operation f);
  b ← VarIntLen (AddrMod_addressVersion f);
  let addrArray := UDPAddr_String (AddrMod_address f) in
  foldl (fun length i => l ← length; n ← VarIntLen (Z.of_nat i); Ok (l +64 n))
    (Ok (a +64 b)) (seq 0 (length addrArray)).

Definition NewOwdFrame (now_unix pathId : Z) : OwdFrame := mkOwdFrame pathId (u64 now_unix).

Definition parseOwdFrame : reader OwdFrame :=
  _ ← ReadByte;
  pi ← ReadVarInt;
  t ← ReadVarInt;
  mret (mkOwdFrame (u32 pi) t).

Definition OwdFrame_Write (f : OwdFrame) : writes :=
  Ok [0xf2] +w+ WriteVarInt (Owd_pathID f) +w+ WriteVarInt (Owd_time f).

Definition OwdFrame_Length (f : OwdFrame) : outcome Z :=
  a ← VarIntLen (Owd_pathID f); b ← VarIntLen (Owd_time f); Ok (1 +64 a +64 b).

Definition NewOwdAckFrame (pathId owd : Z) : OwdAckFrame := mkOwdAckFrame pathId owd.

Definition parseOwdAckFrame : reader OwdAckFrame :=
  _ ← ReadByte;
  pi ← ReadVarInt;
  t ← ReadVarInt;
  mret (mkOwdAckFrame (u32 pi) t).

Definition OwdAckFrame_Write (f : OwdAckFrame) : writes :=
  Ok [0xf2] +w+ WriteVarInt (OwdAck_pathID f) +w+ WriteVarInt (OwdAck_owd f).

Definition OwdAckFrame_Length (f : OwdAckFrame) : outcome Z :=
  a ← VarIntLen (OwdAck_pathID f); b ← VarIntLen (OwdAck_owd f); Ok (1 +64 a +64 b).
End Frames.
