(* ===== verification/AckFrame.v ===== *)
(** * ACK frames (internal/wire/ack_frame.go, ack_range.go) *)

From S2P Require Import Prelude Qerr Varint Protocol.

Record AckRange : Type := mkAckRange { Smallest : Z; Largest : Z }.

(** The ranges are ordered, the highest first; the delay is a duration in
    nanoseconds. *)
Record AckFrame : Type := mkAckFrame { AckRanges : list AckRange; DelayTime : Z }.

Definition ackDelayExponent : Z := 3.
Definition Microsecond : Z := 1000.

Definition AckRange_Len (r : AckRange) : Z := Largest r -64 Smallest r +64 1.

(** Indexing a slice. *)
Definition index {A} (l : list A) (i : nat) : outcome A :=
  match l !! i with
  | Some x => Ok x
  | None => Panic "index out of range"
  end.

Definition errInvalidAckRanges : go_error :=
  Errorf "AckFrame: ACK frame contains invalid ACK ranges" [].

(** ** Accessors *)

Definition LargestAcked (f : AckFrame) : outcome Z :=
  r ← index (AckRanges f) 0; Ok (Largest r).

Definition LowestAcked (f : AckFrame) : outcome Z :=
  r ← (match last (AckRanges f) with
       | Some r => Ok r
       | None => Panic "index out of range"
       end); Ok (Smallest r).

Definition HasMissingRanges (f : AckFrame) : bool := (1 <? length (AckRanges f))%nat.

(** [sort.Search]: the smallest index in [i, j) at which [p] holds, [j] if
    there is none, for a monotone [p]. *)
Fixpoint Search (fuel : nat) (p : nat -> bool) (i j : nat) : nat :=
  match fuel with
  | O => i
  | S fuel =>
      if (i <? j)%nat then
        let h := ((i + j) / 2)%nat in
        if p h then Search fuel p i h else Search fuel p (S h) j
      else i
  end.

Definition sort_Search (n : nat) (p : nat -> bool) : nat := Search (S n) p 0 n.

Definition AcksPacket (f : AckFrame) (p : Z) : outcome bool :=
  lowest ← LowestAcked f;
  largest ← LargestAcked f;
  if (p <? lowest) || (largest <? p) then Ok false else
  let i := sort_Search (length (AckRanges f)) (fun i =>
    match AckRanges f !! i with Some r => Smallest r <=? p | None => false end) in
  r ← index (AckRanges f) i;
  Ok (p <=? Largest r).

(** ** Validation *)

Fixpoint ranges_consistent (last : AckRange) (l : list AckRange) : bool :=
  match l with
  | [] => true
  | ackRange :: l =>
      if Smallest last <=? Smallest ackRange then false
      else if Smallest last <=? Largest ackRange +64 1 then false
      else ranges_consistent ackRange l
  end.

Definition validateAckRanges (f : AckFrame) : bool :=
  match AckRanges f with
  | [] => false
  | first :: rest =>
      forallb (fun ackRange => negb (Largest ackRange <? Smallest ackRange)) (AckRanges f)
      && ranges_consistent first rest
  end.

(** ** Parsing *)

(** The loop over the further ranges: [todo] is [numBlocks - i], and the fuel
    bounds the number of iterations, each of which reads at least two bytes. *)
Fixpoint parse_ranges (fuel : nat) (todo smallest : Z) (acc : list AckRange)
    : reader (list AckRange) :=
  match fuel with
  | O => crash "out of fuel"
  | S fuel =>
      if todo <=? 0 then mret acc else
      gap ← ReadVarInt;
      if smallest <? gap +64 2 then fail errInvalidAckRanges else
      let largest := smallest -64 gap -64 2 in
      ackBlock ← ReadVarInt;
      if largest <? ackBlock then fail errInvalidAckRanges else
      let smallest := largest -64 ackBlock in
      parse_ranges fuel (todo - 1) smallest (acc ++ [mkAckRange smallest largest])
  end.

Definition decodeAckDelay (delay : Z) : Z :=
  i64 (i64 (u64 (delay ≪ ackDelayExponent)) * Microsecond).

Definition parseAckFrame : reader AckFrame :=
  typeByte ← ReadByte;
  let ecn := 0 <? Z.land typeByte 0x1 in
  largestAcked ← ReadVarInt;
  delay ← ReadVarInt;
  let delayTime := decodeAckDelay delay in
  numBlocks ← ReadVarInt;
  ackBlock ← ReadVarInt;
  if largestAcked <? ackBlock then fail (Errorf "invalid first ACK range" []) else
  let smallest := largestAcked -64 ackBlock in
  rlen ← Len;
  ranges ← parse_ranges (S (Z.to_nat rlen)) numBlocks smallest
             [mkAckRange smallest largestAcked];
  let frame := mkAckFrame ranges delayTime in
  if negb (validateAckRanges frame) then fail errInvalidAckRanges else
  _ ← (if ecn then _ ← ReadVarInt; _ ← ReadVarInt; ReadVarInt else mret 0);
  mret frame.

(** ** Writing *)

Definition encodeAckDelay (delay : Z) : Z :=
  u64 (Z.quot delay (1000 * (1 ≪ ackDelayExponent))).

Definition encodeAckRange (f : AckFrame) (i : nat) : outcome (Z * Z) :=
  match i with
  | O => r ← index (AckRanges f) 0; Ok (0, Largest r -64 Smallest r)
  | S i' =>
      prev ← index (AckRanges f) i';
      r ← index (AckRanges f) i;
      Ok (Smallest prev -64 Largest r -64 2, Largest r -64 Smallest r)
  end.

(** The loop of [numEncodableAckRanges]: [todo] ranges are left, from index
    [i] on. *)
Fixpoint numEncodable_loop (f : AckFrame) (todo i : nat) (length : Z) : outcome Z :=
  match todo with
  | O => Ok (Z.of_nat (List.length (AckRanges f)))
  | S todo =>
      '(gap, l) ← encodeAckRange f i;
      a ← VarIntLen gap;
      b ← VarIntLen l;
      let rangeLen := a +64 b in
      if MaxAckFrameSize <? length +64 rangeLen then Ok (Z.of_nat i - 1)
      else numEncodable_loop f todo (S i) (length +64 rangeLen)
  end.

Definition numEncodableAckRanges (f : AckFrame) : outcome Z :=
  la ← LargestAcked f;
  a ← VarIntLen la;
  b ← VarIntLen (encodeAckDelay (DelayTime f));
  let length := 1 +64 a +64 b +64 2 in
  numEncodable_loop f (List.length (AckRanges f) - 1) 1 length.

Fixpoint write_ranges (f : AckFrame) (todo i : nat) : writes :=
  match todo with
  | O => Ok []
  | S todo =>
      '(gap, l) ← encodeAckRange f i;
      WriteVarInt gap +w+ WriteVarInt l +w+ write_ranges f todo (S i)
  end.

Definition AckFrame_Write (f : AckFrame) : writes :=
  la ← LargestAcked f;
  Ok [0x2] +w+ WriteVarInt la +w+ WriteVarInt (encodeAckDelay (DelayTime f))
  +w+ (numRanges ← numEncodableAckRanges f;
       WriteVarInt (u64 (numRanges - 1))
       +w+ ('(_, firstRange) ← encodeAckRange f 0;
            WriteVarInt firstRange +w+ write_ranges f (Z.to_nat (numRanges - 1)) 1)).

Fixpoint length_ranges (f : AckFrame) (todo i : nat) (length : Z) : outcome Z :=
  match todo with
  | O => Ok length
  | S todo =>
      '(gap, l) ← encodeAckRange f i;
      a ← VarIntLen gap;
      b ← VarIntLen l;
      length_ranges f todo (S i) (length +64 a +64 b)
  end.

Definition AckFrame_Length (f : AckFrame) : outcome Z :=
  first ← index (AckRanges f) 0;
  let largestAcked := Largest first in
  numRanges ← numEncodableAckRanges f;
  a ← VarIntLen largestAcked;
  b ← VarIntLen (encodeAckDelay (DelayTime f));
  let length := 1 +64 a +64 b in
  c ← VarIntLen (u64 (numRanges - 1));
  let lowestInFirstRange := Smallest first in
  d ← VarIntLen (largestAcked -64 lowestInFirstRange);
  length_ranges f (Z.to_nat (numRanges - 1)) 1 (length +64 c +64 d).

(** ** Well-formed frames *)

Definition in_range (p : Z) (r : AckRange) : bool := (Smallest r <=? p) && (p <=? Largest r).

(** Ordered from the highest to the lowest, with a gap between neighbours. *)
Fixpoint descending (l : list AckRange) : Prop :=
  match l with
  | [] => True
  | r :: rest =>
      0 <= Smallest r <= Largest r
      /\ (match rest with [] => True | r2 :: _ => Largest r2 + 1 < Smallest r end)
      /\ descending rest
  end.

(** The frames that can be sent: valid ranges, 62-bit packet numbers and a
    delay that fits the encoding. *)
Definition ack_wf (f : AckFrame) : Prop :=
  descending (AckRanges f)
  /\ (match AckRanges f with [] => False | r :: _ => Largest r < 2 ^ 62 end)
  /\ 0 <= DelayTime f < 2 ^ 63.

(** ** Validation *)

Lemma descending_tail r l : descending (r :: l) -> descending l.
Proof. cbn. tauto. Qed.

Lemma descending_bounds r l x : descending (r :: l) -> In x l ->
  0 <= Smallest x <= Largest x /\ Largest x + 1 < Smallest r.
Proof.
  revert r. induction l as [| r2 l IH]; intros r Hd; [by intros [] |].
  intros [<- | Hx]; cbn in Hd; [lia |].
  destruct (IH r2) as [Hb Hlt]; [cbn; tauto | done | lia].
Qed.

Lemma descending_all r l x : descending (r :: l) -> In x (r :: l) ->
  0 <= Smallest x <= Largest x /\ Largest x <= Largest r.
Proof.
  intros Hd [<- | Hx]; [cbn in Hd; lia |].
  pose proof (descending_bounds r l x Hd Hx). cbn in Hd. lia.
Qed.

Lemma ranges_consistent_iff r l :
  Forall (fun x => 0 <= Smallest x <= Largest x /\ Largest x < 2 ^ 62) (r :: l) ->
  ranges_consistent r l = true <-> descending (r :: l).
Proof.
  revert r. induction l as [| r2 l IH]; intros r Hf.
  { apply Forall_cons in Hf as [Hr _]. cbn. split; [lia | done]. }
  apply Forall_cons in Hf as [Hr Hf]. specialize (IH r2 Hf).
  apply Forall_cons in Hf as [Hr2 _]. cbn [ranges_consistent].
  rewrite add64_small by lia.
  destruct (Z.leb_spec (Smallest r) (Smallest r2)); [cbn; split; [done | lia] |].
  destruct (Z.leb_spec (Smallest r) (Largest r2 + 1)); [cbn; split; [done | lia] |].
  rewrite IH. cbn [descending]. split; [intros; split_and!; try tauto; lia | tauto].
Qed.

Lemma descending_Forall r l : descending (r :: l) -> Largest r < 2 ^ 62 ->
  Forall (fun x => 0 <= Smallest x <= Largest x /\ Largest x < 2 ^ 62) (r :: l).
Proof.
  intros Hd Hr. apply Forall_forall. intros x Hx%list_elem_of_In.
  pose proof (descending_all r l x Hd Hx). lia.
Qed.

Lemma validate_descending r l d : descending (r :: l) -> Largest r < 2 ^ 62 ->
  validateAckRanges (mkAckFrame (r :: l) d) = true.
Proof.
  intros Hd Hne. unfold validateAckRanges. cbn [AckRanges].
  pose proof (descending_Forall r l Hd Hne) as Hf.
  rewrite (proj2 (ranges_consistent_iff r l Hf) Hd), andb_true_r.
  apply forallb_forall. intros x Hx.
  pose proof (descending_all r l x Hd Hx). apply negb_true_iff, Z.ltb_ge. lia.
Qed.

(** ** Membership: binary search agrees with the ranges *)

Lemma Search_spec p fuel i j :
  (j - i < fuel)%nat -> (i <= j)%nat ->
  (forall a b, (a <= b)%nat -> (b < j)%nat -> p a = true -> p b = true) ->
  let k := Search fuel p i j in
  (i <= k <= j)%nat
  /\ (forall a, (i <= a < k)%nat -> p a = false)
  /\ ((k < j)%nat -> p k = true).
Proof.
  revert i j. induction fuel as [| fuel IH]; intros i j Hf Hij Hm; [lia |].
  cbn [Search]. destruct (Nat.ltb_spec i j) as [Hlt | Hge].
  2:{ cbv zeta. split_and!; intros; lia. }
  set (h := ((i + j) / 2)%nat).
  assert (Hh : (i <= h < j)%nat).
  { subst h. pose proof (Nat.div_mod_eq (i + j) 2).
    pose proof (Nat.mod_upper_bound (i + j) 2). lia. }
  clearbody h. destruct (p h) eqn:Eh.
  - destruct (IH i h) as (H1 & H2 & H3); [lia | lia | intros; eapply Hm; eauto; lia |].
    split_and!; [lia.. | done |]. intros Hk.
    destruct (decide (Search fuel p i h = h)) as [-> |]; [done | apply H3; lia].
  - destruct (IH (S h) j) as (H1 & H2 & H3); [lia | lia | done |].
    split_and!; [lia | lia | | done]. intros a Ha.
    destruct (decide (a <= h)%nat); [| apply H2; lia].
    destruct (p a) eqn:Ea; [| done]. assert (p h = true) by (eapply Hm; eauto; lia).
    congruence.
Qed.

Lemma descending_lookup l i j a b : descending l ->
  l !! i = Some a -> l !! j = Some b -> (i < j)%nat -> Largest b + 1 < Smallest a.
Proof.
  revert i j. induction l as [| r l IH]; intros i j Hd Hi Hj Hlt; [done |].
  destruct j as [| j]; [lia |]. cbn in Hj.
  destruct i as [| i]; cbn in Hi.
  - injection Hi as ->. apply list_elem_of_lookup_2 in Hj.
    eapply descending_bounds; [exact Hd | by apply list_elem_of_In].
  - apply (IH i j); [by eapply descending_tail | done.. | lia].
Qed.

Lemma descending_at l i a : descending l -> l !! i = Some a ->
  0 <= Smallest a <= Largest a.
Proof.
  revert i. induction l as [| r l IH]; intros i Hd Hi; [done |].
  destruct i; cbn in Hi; [injection Hi as ->; cbn in Hd; lia |].
  eapply IH; eauto using descending_tail.
Qed.

Lemma existsb_lookup {A} (f : A -> bool) l :
  existsb f l = true <-> exists i x, l !! i = Some x /\ f x = true.
Proof.
  rewrite existsb_exists. split.
  - intros (x & Hx%list_elem_of_In & Hf). apply list_elem_of_lookup in Hx as [i Hi]. eauto.
  - intros (i & x & Hi & Hf). exists x. split; [| done].
    apply list_elem_of_In. by eapply list_elem_of_lookup_2.
Qed.

(** The outer bounds of a frame. *)
Lemma ack_bounds l r q j x : descending (r :: l) -> last (r :: l) = Some q ->
  (r :: l) !! j = Some x -> Smallest q <= Smallest x /\ Largest x <= Largest r.
Proof.
  intros Hd Hq Hx. rewrite last_lookup in Hq. cbn [length pred] in Hq.
  pose proof (lookup_lt_Some _ _ _ Hx) as Hj. cbn [length] in Hj.
  pose proof (descending_at _ _ _ Hd Hx). pose proof (descending_at _ _ _ Hd Hq).
  split.
  - destruct (decide (j = length l)) as [-> |].
    { rewrite Hq in Hx. injection Hx as ->. lia. }
    pose proof (descending_lookup _ _ _ _ _ Hd Hx Hq ltac:(lia)). lia.
  - destruct j as [| j]; [by injection Hx as -> |].
    pose proof (descending_lookup (r :: l) 0 (S j) r x Hd eq_refl Hx ltac:(lia)).
    cbn in Hd. lia.
Qed.

(** The index found by the search, for a number that is not below all ranges. *)
Lemma ack_search l q p : descending l -> last l = Some q -> Smallest q <= p ->
  exists r, l !! sort_Search (length l) (fun i =>
      match l !! i with Some r => Smallest r <=? p | None => false end) = Some r
    /\ Smallest r <= p /\ existsb (in_range p) l = (p <=? Largest r).
Proof.
  intros Hd Hq Hp. unfold sort_Search.
  set (P := fun i => match l !! i with Some r => Smallest r <=? p | None => false end).
  assert (Hlen : (0 < length l)%nat) by (destruct l; cbn; [done | lia]).
  rewrite last_lookup in Hq.
  destruct (Search_spec P (S (length l)) 0 (length l)) as (Hk & Hlow & Hhit); [lia | lia | |].
  { intros a b Hab Hb. unfold P.
    destruct (l !! a) as [x |] eqn:Ea; [| done]. intros Hx%Z.leb_le.
    destruct (lookup_lt_is_Some_2 l b Hb) as [y Ey]. rewrite Ey. apply Z.leb_le.
    destruct (decide (a = b)) as [-> |]; [congruence |].
    pose proof (descending_lookup _ _ _ _ _ Hd Ea Ey ltac:(lia)).
    pose proof (descending_at _ _ _ Hd Ey). lia. }
  set (k := Search _ _ _ _) in *. clearbody k.
  assert (Hkl : (k < length l)%nat).
  { apply Nat.nle_gt. intros Hge. assert (P (pred (length l)) = false) as Hf by (apply Hlow; lia).
    unfold P in Hf. rewrite Hq in Hf. bool_to_prop. lia. }
  specialize (Hhit Hkl). unfold P in Hhit.
  destruct (l !! k) as [r |] eqn:Er; [| done]. bool_to_prop.
  exists r. split_and!; [done | done |].
  apply eq_true_iff_eq.
  rewrite existsb_lookup. split.
  - intros (j & x & Hj & Hin). unfold in_range in Hin. bool_to_prop. apply Z.leb_le.
    destruct (lt_eq_lt_dec j k) as [[Hjk | ->] | Hjk].
    + assert (P j = false) as Hf by (apply Hlow; lia). unfold P in Hf. rewrite Hj in Hf.
      bool_to_prop. lia.
    + rewrite Er in Hj. by injection Hj as ->.
    + pose proof (descending_lookup _ _ _ _ _ Hd Er Hj Hjk). lia.
  - intros Hr%Z.leb_le. exists k, r. split; [done |]. unfold in_range. lia.
Qed.

Lemma LargestAcked_cons f r l : AckRanges f = r :: l -> LargestAcked f = Ok (Largest r).
Proof. unfold LargestAcked. by intros ->. Qed.

Lemma LowestAcked_last f q : last (AckRanges f) = Some q -> LowestAcked f = Ok (Smallest q).
Proof. unfold LowestAcked. by intros ->. Qed.

Lemma AcksPacket_spec f p : ack_wf f ->
  AcksPacket f p = Ok (existsb (in_range p) (AckRanges f)).
Proof.
  intros (Hd & Hne & _). destruct (AckRanges f) as [| r l] eqn:El; [done |].
  destruct (last (r :: l)) as [q |] eqn:Hq; [| by apply last_None in Hq].
  unfold AcksPacket.
  rewrite (LargestAcked_cons f r l El), (LowestAcked_last f q) by (by rewrite El).
  cbn [mbind outcome_bind]. rewrite El.
  destruct ((p <? Smallest q) || (Largest r <? p)) eqn:Eout.
  { f_equal. symmetry. apply not_true_iff_false. intros Hex.
    apply existsb_lookup in Hex as (j & x & Hj & Hin).
    pose proof (ack_bounds l r q j x Hd Hq Hj).
    unfold in_range in Hin. bool_to_prop. apply orb_true_iff in Eout. bool_to_prop. lia. }
  apply orb_false_iff in Eout as [Hlo Hhi]. bool_to_prop.
  destruct (ack_search (r :: l) q p Hd Hq Hlo) as (x & Hx & Hxp & ->).
  unfold index. by rewrite Hx.
Qed.

(** ** Encoding and decoding *)

(** Reference encoding of the ranges after [prev]. *)
Fixpoint enc_ranges (prev : AckRange) (l : list AckRange) : writes :=
  match l with
  | [] => Ok []
  | r :: l => WriteVarInt (Smallest prev - Largest r - 2)
              +w+ WriteVarInt (Largest r - Smallest r) +w+ enc_ranges r l
  end.

Lemma encodeAckRange_S f pre prev r l :
  AckRanges f = pre ++ prev :: r :: l -> descending (prev :: r :: l) ->
  Largest prev < 2 ^ 62 ->
  encodeAckRange f (S (length pre)) = Ok (Smallest prev - Largest r - 2, Largest r - Smallest r)
  /\ is_varint (Smallest prev - Largest r - 2) /\ is_varint (Largest r - Smallest r).
Proof.
  intros E Hd Hp. unfold encodeAckRange, index. rewrite E.
  rewrite (list_lookup_middle pre (r :: l) prev (length pre)) by done.
  replace ((pre ++ prev :: r :: l) !! S (length pre)) with (Some r).
  2:{ rewrite cons_middle, app_assoc, list_lookup_middle; [done |].
      rewrite length_app. cbn. lia. }
  cbn [mbind outcome_bind]. cbn in Hd.
  rewrite !sub64_small by (rewrite ?sub64_small; lia).
  unfold is_varint, maxVarInt8. split_and!; (done || lia).
Qed.

Lemma write_ranges_enc f pre prev l todo :
  AckRanges f = pre ++ prev :: l -> descending (prev :: l) -> Largest prev < 2 ^ 62 ->
  (todo <= length l)%nat ->
  write_ranges f todo (S (length pre)) = enc_ranges prev (take todo l).
Proof.
  revert pre prev l. induction todo as [| todo IH]; intros pre prev l E Hd Hp Hle; [done |].
  destruct l as [| r l]; [cbn in Hle; lia |].
  cbn [write_ranges take enc_ranges].
  destruct (encodeAckRange_S f pre prev r l E Hd Hp) as (-> & _ & _).
  cbn [mbind outcome_bind]. do 2 f_equal.
  specialize (IH (pre ++ [prev]) r l). rewrite length_app in IH. cbn in IH.
  rewrite Nat.add_1_r in IH. apply IH.
  - by rewrite E, <- app_assoc.
  - exact (descending_tail prev (r :: l) Hd).
  - cbn in Hd. lia.
  - cbn in Hle. lia.
Qed.

(** The bytes taken by the ranges after [prev]. *)
Fixpoint cost (prev : AckRange) (l : list AckRange) : Z :=
  match l with
  | [] => 0
  | r :: l => vlen (Smallest prev - Largest r - 2) + vlen (Largest r - Smallest r) + cost r l
  end.

Lemma parse_enc_ranges prev l :
  descending (prev :: l) -> Largest prev < 2 ^ 62 ->
  exists bs, enc_ranges prev l = Ok bs /\ bytes bs /\ len bs = cost prev l
    /\ forall fuel acc rest, (length l < fuel)%nat ->
       parse_ranges fuel (len l) (Smallest prev) acc (bs ++ rest) = Ok (acc ++ l, rest).
Proof.
  revert prev. induction l as [| r l IH]; intros prev Hd Hp.
  { exists []. split_and!; [done | constructor | done |].
    intros [| fuel] acc rest Hf; [lia |]. cbn. by rewrite app_nil_r. }
  cbn in Hd. destruct Hd as (Hprev & Hgap & Hd).
  assert (Hr : 0 <= Smallest r <= Largest r) by (cbn in Hd; lia).
  assert (V1 : is_varint (Smallest prev - Largest r - 2)) by (unfold is_varint, maxVarInt8; lia).
  assert (V2 : is_varint (Largest r - Smallest r)) by (unfold is_varint, maxVarInt8; lia).
  destruct (IH r Hd ltac:(lia)) as (b3 & W3 & B3 & L3 & R3).
  eexists. cbn [enc_ranges]. rewrite !WriteVarInt_bytes, W3 by done.
  split_and!; [done | rewrite !bytes_app; auto using bytes_varint_bytes | |].
  { rewrite !len_app, !len_varint_bytes, L3 by done. cbn [cost]. lia. }
  intros [| fuel] acc rest Hf; [lia |]. cbn [parse_ranges length] in *.
  rewrite len_cons. pose proof (len_nonneg l).
  destruct (Z.leb_spec (1 + len l) 0); [lia |].
  rewrite <- !app_assoc, ReadVarInt_step by done.
  rewrite add64_small by lia.
  destruct (Z.ltb_spec (Smallest prev) (Smallest prev - Largest r - 2 + 2)); [lia |].
  rewrite ReadVarInt_step by done.
  replace (Smallest prev -64 (Smallest prev - Largest r - 2) -64 2) with (Largest r)
    by (rewrite !sub64_small; rewrite ?sub64_small; lia).
  destruct (Z.ltb_spec (Largest r) (Largest r - Smallest r)); [lia |].
  replace (Largest r -64 (Largest r - Smallest r)) with (Smallest r)
    by (rewrite sub64_small; lia).
  replace (1 + len l - 1) with (len l) by lia.
  rewrite R3 by lia. destruct r. by rewrite <- app_assoc.
Qed.

Lemma cost_bounds prev l : 2 * len l <= cost prev l.
Proof.
  revert prev. induction l as [| r l IH]; intros prev; cbn [cost]; [done |].
  rewrite len_cons. specialize (IH r).
  pose proof (vlen_range (Smallest prev - Largest r - 2)).
  pose proof (vlen_range (Largest r - Smallest r)). lia.
Qed.

Lemma cost_take prev l i j : (i <= j)%nat -> cost prev (take i l) <= cost prev (take j l).
Proof.
  revert prev i j. induction l as [| r l IH]; intros prev i j Hij; [by rewrite !take_nil |].
  destruct i as [| i]; cbn [take].
  - pose proof (cost_bounds prev (take j (r :: l))).
    pose proof (len_nonneg (take j (r :: l))). cbn [cost]. lia.
  - destruct j as [| j]; [lia |]. cbn [take cost]. specialize (IH r i j). lia.
Qed.

(** The scan for the ranges that fit stops at the first range, number [k] after
    [prev], that would take the frame beyond the limit. *)
Lemma numEncodable_loop_spec f pre prev l L :
  AckRanges f = pre ++ prev :: l -> descending (prev :: l) -> Largest prev < 2 ^ 62 ->
  0 <= L <= MaxAckFrameSize ->
  numEncodable_loop f (length l) (S (length pre)) L = Ok (len (AckRanges f))
    /\ L + cost prev l <= MaxAckFrameSize
  \/ exists k, (k < length l)%nat
    /\ numEncodable_loop f (length l) (S (length pre)) L = Ok (len pre + Z.of_nat k)
    /\ L + cost prev (take k l) <= MaxAckFrameSize < L + cost prev (take (S k) l).
Proof.
  revert pre prev L. induction l as [| r l IH]; intros pre prev L E Hd Hp HL.
  { left. cbn. split; [done | lia]. }
  cbn [length numEncodable_loop].
  destruct (encodeAckRange_S f pre prev r l E Hd Hp) as (-> & V1 & V2).
  cbn [mbind outcome_bind]. rewrite !VarIntLen_vlen by done. cbn [mbind outcome_bind].
  pose proof (vlen_range (Smallest prev - Largest r - 2)) as B1.
  pose proof (vlen_range (Largest r - Smallest r)) as B2.
  unfold MaxAckFrameSize in *.
  rewrite (add64_small (vlen _)), (add64_small L) by lia.
  destruct (Z.ltb_spec 1000 (L + (vlen (Smallest prev - Largest r - 2)
    + vlen (Largest r - Smallest r)))) as [Hlt | Hle].
  { right. exists 0%nat. rewrite firstn_cons, !take_0. cbn [cost].
    split_and!; [lia | | lia..]. f_equal. unfold len. lia. }
  assert (Hd' : descending (r :: l)) by apply (descending_tail prev (r :: l) Hd).
  specialize (IH (pre ++ [prev]) r (L + (vlen (Smallest prev - Largest r - 2)
    + vlen (Largest r - Smallest r)))).
  rewrite length_app, Nat.add_1_r in IH. cbn [length cost take] in *.
  destruct IH as [[-> Hc] | (k & Hk & -> & Hc)].
  - by rewrite E, <- app_assoc.
  - done.
  - cbn in Hd. lia.
  - lia.
  - left. split; [done | lia].
  - right. exists (S k). cbn [take cost]. rewrite len_app, len_cons, len_nil.
    split_and!; [lia | f_equal; lia | lia..].
Qed.

Lemma encodeAckDelay_div d : 0 <= d < 2 ^ 63 ->
  encodeAckDelay d = d / 8000 /\ is_varint (d / 8000)
  /\ decodeAckDelay (d / 8000) = d / 8000 * 8000.
Proof.
  intros Hd. unfold encodeAckDelay, decodeAckDelay, Microsecond, ackDelayExponent.
  change (1000 * (1 ≪ 3)) with 8000.
  assert (0 <= d / 8000 < 2 ^ 60)
    by (split; [apply Z.div_pos | apply Z.div_lt_upper_bound]; lia).
  pose proof (Z.mul_div_le d 8000).
  rewrite Z.quot_div_nonneg, Z.shiftl_mul_pow2 by lia. change (2 ^ 3) with 8.
  rewrite !u64_small by lia. rewrite (i64_small (_ * 8)) by lia.
  rewrite i64_small by lia. unfold is_varint, maxVarInt8. split_and!; lia.
Qed.

(** The number of ranges sent: all of them, or one less than those before the
    first range that does not fit. *)
Lemma numEncodable_spec f r l : AckRanges f = r :: l -> ack_wf f ->
  let base := 3 + vlen (Largest r) + vlen (DelayTime f / 8000) in
  exists m, (m <= length l)%nat /\ numEncodableAckRanges f = Ok (Z.of_nat m + 1)
    /\ base + cost r (take m l) <= MaxAckFrameSize
    /\ ((m < length l)%nat -> MaxAckFrameSize < base + cost r (take (m + 2) l)).
Proof.
  intros El (Hd & Hne & Ht) base. rewrite El in Hd, Hne.
  assert (is_varint (Largest r)) by (unfold is_varint, maxVarInt8; cbn in Hd; lia).
  destruct (encodeAckDelay_div _ Ht) as (Ed & Vd & _).
  unfold numEncodableAckRanges. rewrite (LargestAcked_cons f r l El), Ed.
  cbn [mbind outcome_bind]. rewrite !VarIntLen_vlen by done. cbn [mbind outcome_bind].
  pose proof (vlen_range (Largest r)). pose proof (vlen_range (DelayTime f / 8000)).
  replace (1 +64 vlen (Largest r) +64 vlen (DelayTime f / 8000) +64 2) with base.
  2:{ rewrite (add64_small 1), (add64_small (1 + _)), add64_small; lia. }
  rewrite El. cbn [length]. rewrite Nat.sub_succ, Nat.sub_0_r.
  destruct (numEncodable_loop_spec f [] r l base) as [[Hn Hc] | (k & Hk & Hn & Hc)];
    [done.. | unfold MaxAckFrameSize; lia | |];
    cbn [length] in Hn; rewrite Hn; clear Hn.
  - exists (length l). rewrite El, len_cons, firstn_all. unfold len.
    split_and!; [lia | f_equal; lia | done | lia].
  - destruct k as [| k].
    { destruct l as [| r2 l]; [cbn in Hk; lia |]. rewrite firstn_cons, !take_0 in Hc.
      cbn [cost] in Hc. pose proof (vlen_range (Smallest r - Largest r2 - 2)).
      pose proof (vlen_range (Largest r2 - Smallest r2)). unfold MaxAckFrameSize, base in Hc. lia. }
    exists k. rewrite len_nil. pose proof (cost_take r l k (S k)).
    replace (k + 2)%nat with (S (S k)) by lia.
    split_and!; [lia | f_equal; lia | lia..].
Qed.

Lemma length_ranges_cost f pre prev l todo L :
  AckRanges f = pre ++ prev :: l -> descending (prev :: l) -> Largest prev < 2 ^ 62 ->
  (todo <= length l)%nat -> 0 <= L -> L + cost prev (take todo l) < 2 ^ 64 ->
  length_ranges f todo (S (length pre)) L = Ok (L + cost prev (take todo l)).
Proof.
  revert pre prev l L. induction todo as [| todo IH]; intros pre prev l L E Hd Hp Hle HL HB.
  { rewrite take_0 in *. cbn. by rewrite Z.add_0_r. }
  destruct l as [| r l]; [cbn in Hle; lia |].
  cbn [length_ranges]. rewrite firstn_cons in *. cbn [cost] in *.
  destruct (encodeAckRange_S f pre prev r l E Hd Hp) as (-> & V1 & V2).
  cbn [mbind outcome_bind]. rewrite !VarIntLen_vlen by done. cbn [mbind outcome_bind].
  pose proof (vlen_range (Smallest prev - Largest r - 2)) as B1.
  pose proof (vlen_range (Largest r - Smallest r)) as B2.
  pose proof (cost_bounds r (take todo l)). pose proof (len_nonneg (take todo l)).
  rewrite (add64_small L), add64_small by lia.
  specialize (IH (pre ++ [prev]) r l). rewrite length_app, Nat.add_1_r in IH.
  rewrite IH; [f_equal; lia | by rewrite E, <- app_assoc | | | | lia | lia].
  - exact (descending_tail prev (r :: l) Hd).
  - cbn in Hd. lia.
  - cbn in Hle. lia.
Qed.

Lemma descending_take n l : descending l -> descending (take n l).
Proof.
  revert n. induction l as [| r l IH]; intros n Hd; [by rewrite take_nil |].
  destruct n as [| n]; [done |]. rewrite firstn_cons. cbn in Hd |- *.
  destruct Hd as (H1 & H2 & H3). split_and!; [lia | lia | | by apply IH].
  destruct l; [by rewrite take_nil |]. destruct n; cbn; tauto.
Qed.

Lemma cost_upper prev l : cost prev l <= 16 * len l.
Proof.
  revert prev. induction l as [| r l IH]; intros prev; cbn [cost]; [done |].
  rewrite len_cons. specialize (IH r).
  pose proof (vlen_range (Smallest prev - Largest r - 2)).
  pose proof (vlen_range (Largest r - Smallest r)). lia.
Qed.

Lemma len_take_le {A} n (l : list A) : len (take n l) <= Z.of_nat n.
Proof. unfold len. rewrite length_take. lia. Qed.

(** The bytes of a frame of which [S m] ranges are sent. *)
Definition ack_bytes (r : AckRange) (delay : Z) (m : nat) (bs : list Z) : list Z :=
  [0x2] ++ varint_bytes (Largest r) ++ varint_bytes delay ++ varint_bytes (Z.of_nat m)
  ++ varint_bytes (Largest r - Smallest r) ++ bs.

Lemma parse_ack_bytes r l delay bs rest :
  descending (r :: l) -> Largest r < 2 ^ 62 -> 0 <= delay < 2 ^ 60 ->
  is_varint (len l) -> enc_ranges r l = Ok bs ->
  parseAckFrame (ack_bytes r delay (length l) bs ++ rest)
  = Ok (mkAckFrame (r :: l) (decodeAckDelay delay), rest).
Proof.
  intros Hd Hr Hdelay Vm Hbs.
  destruct (parse_enc_ranges r l Hd Hr) as (bs' & Ebs & _ & Lb & Hparse).
  rewrite Ebs in Hbs. injection Hbs as ->.
  assert (0 <= Smallest r <= Largest r) by (cbn in Hd; lia).
  assert (is_varint (Largest r) /\ is_varint delay /\ is_varint (Largest r - Smallest r))
    as (V1 & V2 & V3) by (unfold is_varint, maxVarInt8; lia).
  unfold parseAckFrame, ack_bytes. rewrite <- !app_assoc. cbn [app].
  erewrite reader_bind_step by apply ReadByte_cons.
  rewrite !ReadVarInt_step by done.
  destruct (Z.ltb_spec (Largest r) (Largest r - Smallest r)); [lia |].
  rewrite sub64_small by lia.
  replace (Largest r - (Largest r - Smallest r)) with (Smallest r) by lia.
  erewrite reader_bind_step by reflexivity.
  erewrite reader_bind_step.
  2:{ change (Z.of_nat (length l)) with (len l). apply Hparse.
      rewrite len_app. pose proof (cost_bounds r l). unfold len in *. lia. }
  cbn [app]. destruct r as [sr lr]; cbn [Smallest Largest] in *.
  by rewrite validate_descending.
Qed.

(** How many further ranges are sent, and the length of the resulting frame. *)
Lemma ack_numbers f r l : AckRanges f = r :: l -> ack_wf f ->
  exists m, (m <= length l)%nat /\ numEncodableAckRanges f = Ok (Z.of_nat m + 1)
    /\ Z.of_nat m <= 500 /\ ((length l <= 61)%nat -> m = length l)
    /\ 1 + vlen (Largest r) + vlen (DelayTime f / 8000) + vlen (Z.of_nat m)
       + vlen (Largest r - Smallest r) + cost r (take m l) <= MaxAckFrameSize + 8.
Proof.
  intros El Hwf.
  destruct (numEncodable_spec f r l El Hwf) as (m & Hm & En & Hfit & Hmax).
  pose proof (cost_bounds r (take m l)) as Hlow.
  pose proof (vlen_range (Largest r)). pose proof (vlen_range (DelayTime f / 8000)).
  pose proof (vlen_range (Largest r - Smallest r)).
  unfold MaxAckFrameSize in *.
  assert (Hm2 : Z.of_nat m <= 500).
  { revert Hlow. unfold len. rewrite length_take_le by done. lia. }
  assert (vlen (Z.of_nat m) <= 2) by (unfold vlen, maxVarInt1, maxVarInt2; case_cmp; lia).
  exists m. split_and!; [done | done | done | | lia].
  intros Hl. destruct (decide (m < length l)%nat) as [Hlt | ?]; [| lia].
  specialize (Hmax Hlt). pose proof (cost_upper r (take (m + 2) l)).
  pose proof (length_take l (m + 2)). unfold len in *. lia.
Qed.

Section Encoded.
Context (f : AckFrame) (r : AckRange) (l : list AckRange) (m : nat) (bs : list Z).
Context (El : AckRanges f = r :: l) (Hwf : ack_wf f) (Hm : (m <= length l)%nat).
Context (En : numEncodableAckRanges f = Ok (Z.of_nat m + 1)) (Hm500 : Z.of_nat m <= 500).
Context (Ebs : enc_ranges r (take m l) = Ok bs).

Lemma ack_parts : descending (r :: l) /\ Largest r < 2 ^ 62
  /\ encodeAckDelay (DelayTime f) = DelayTime f / 8000
  /\ is_varint (DelayTime f / 8000) /\ is_varint (Largest r)
  /\ 0 <= Largest r - Smallest r /\ is_varint (Largest r - Smallest r)
  /\ is_varint (Z.of_nat m).
Proof using Hwf El Hm500.
  clear - Hwf El Hm500. pose proof Hwf as (Hd & Hne & Ht). rewrite El in Hd, Hne.
  destruct (encodeAckDelay_div _ Ht) as (Ed & Vd & _).
  assert (0 <= Smallest r <= Largest r) by (cbn in Hd; lia).
  split_and!; try done; unfold is_varint, maxVarInt8; lia.
Qed.

Lemma len_ack_bytes :
  len (ack_bytes r (DelayTime f / 8000) m bs)
  = 1 + vlen (Largest r) + vlen (DelayTime f / 8000) + vlen (Z.of_nat m)
      + vlen (Largest r - Smallest r) + cost r (take m l).
Proof.
  destruct ack_parts as (Hd & Hne & Ed & Vd & V1 & Hge & V2 & Vm).
  destruct (parse_enc_ranges r (take m l)) as (bs' & Ebs' & _ & Lb & _);
    [apply (descending_take (S m) (r :: l) Hd) | done |].
  rewrite Ebs in Ebs'. injection Ebs' as <-.
  unfold ack_bytes. rewrite !len_app, !len_varint_bytes, Lb by done.
  change (len [2]) with 1. lia.
Qed.

Lemma AckFrame_Write_bytes :
  AckFrame_Write f = Ok (ack_bytes r (DelayTime f / 8000) m bs).
Proof.
  destruct ack_parts as (Hd & Hne & Ed & Vd & V1 & Hge & V2 & Vm).
  unfold AckFrame_Write. rewrite (LargestAcked_cons f r l El), Ed, En.
  cbn [mbind outcome_bind encodeAckRange]. unfold index. rewrite El.
  cbn [lookup list_lookup mbind outcome_bind].
  rewrite Z.add_simpl_r, (u64_small (Z.of_nat m)), sub64_small
    by (unfold is_varint, maxVarInt8 in *; lia).
  pose proof (write_ranges_enc f [] r l m El Hd Hne Hm) as Hw. cbn [length] in Hw.
  rewrite Nat2Z.id, Hw, Ebs. by rewrite !WriteVarInt_bytes by done.
Qed.

Lemma AckFrame_Length_bytes :
  len (ack_bytes r (DelayTime f / 8000) m bs) <= MaxAckFrameSize + 8 ->
  AckFrame_Length f = Ok (len (ack_bytes r (DelayTime f / 8000) m bs)).
Proof.
  destruct ack_parts as (Hd & Hne & Ed & Vd & V1 & Hge & V2 & Vm).
  rewrite len_ack_bytes. unfold MaxAckFrameSize. intros Hmax.
  unfold AckFrame_Length. rewrite En, Ed. unfold index. rewrite El.
  cbn [lookup list_lookup mbind outcome_bind].
  rewrite Z.add_simpl_r, (u64_small (Z.of_nat m)), sub64_small
    by (unfold is_varint, maxVarInt8 in *; lia).
  rewrite !VarIntLen_vlen by done. cbn [mbind outcome_bind]. rewrite Nat2Z.id.
  pose proof (vlen_range (Largest r)). pose proof (vlen_range (DelayTime f / 8000)).
  pose proof (vlen_range (Largest r - Smallest r)). pose proof (vlen_range (Z.of_nat m)).
  pose proof (cost_bounds r (take m l)). pose proof (len_nonneg (take m l)).
  rewrite (add64_small 1), (add64_small (1 + _)), (add64_small (1 + _ + _)),
    (add64_small (1 + _ + _ + _)) by lia.
  apply (length_ranges_cost f [] r l m); (done || lia).
Qed.
End Encoded.

(** The round trip, with the type byte split off. *)
Lemma ack_roundtrip f rest : ack_wf f ->
  exists bs n, AckFrame_Write f = Ok (0x2 :: bs) /\ bytes bs
    /\ AckFrame_Length f = Ok (len (0x2 :: bs))
    /\ (1 <= n <= length (AckRanges f))%nat
    /\ ((length (AckRanges f) <= 62)%nat -> n = length (AckRanges f))
    /\ parseAckFrame (0x2 :: bs ++ rest)
       = Ok (mkAckFrame (take n (AckRanges f)) (DelayTime f / 8000 * 8000), rest).
Proof.
  intros Hwf. destruct (AckRanges f) as [| r l] eqn:El.
  { destruct Hwf as (_ & Hne & _). by rewrite El in Hne. }
  destruct (ack_numbers f r l El Hwf) as (m & Hm & En & Hm500 & Hall & Hmax).
  destruct (ack_parts f r l m El Hwf Hm500) as (Hd & Hne & Ed & Vd & V1 & Hge & V2 & Vm).
  pose proof (descending_take (S m) (r :: l) Hd) as Hdt. rewrite firstn_cons in Hdt.
  destruct (parse_enc_ranges r (take m l) Hdt Hne) as (bs & Ebs & Bb & _).
  pose proof Hwf as (_ & _ & Ht). destruct (encodeAckDelay_div _ Ht) as (_ & _ & <-).
  exists (drop 1 (ack_bytes r (DelayTime f / 8000) m bs)), (S m).
  change (0x2 :: drop 1 (ack_bytes r (DelayTime f / 8000) m bs))
    with (ack_bytes r (DelayTime f / 8000) m bs). split_and!.
  - by eapply AckFrame_Write_bytes.
  - unfold ack_bytes. cbn [drop app]. rewrite drop_0, !bytes_app.
    split_and!; auto using bytes_varint_bytes.
  - eapply AckFrame_Length_bytes; try done. by rewrite (len_ack_bytes f r l).
  - lia.
  - cbn [length]. lia.
  - cbn [length]. intros. f_equal. apply Hall. lia.
  - rewrite firstn_cons. rewrite <- (length_take_le l m) at 1 by done.
    change (0x2 :: drop 1 ?x ++ rest) with (x ++ rest).
    apply parse_ack_bytes; try done.
    + split; [apply Z.div_pos | apply Z.div_lt_upper_bound]; lia.
    + unfold len. rewrite length_take_le by done. done.
Qed.


(** ** Parsing arbitrary input *)

Definition range_ok (x : AckRange) : Prop :=
  0 <= Smallest x <= Largest x /\ Largest x < 2 ^ 62.

(** With fuel for the bytes that are left the loop never runs out of it. *)
Lemma parse_ranges_safe fuel todo smallest acc r :
  bytes r -> len r < Z.of_nat fuel -> 0 <= smallest < 2 ^ 62 -> Forall range_ok acc ->
  acc <> [] ->
  safe_on (fun l => Forall range_ok l /\ head l = head acc) r (parse_ranges fuel todo smallest acc r).
Proof.
  revert todo smallest acc r. induction fuel as [| fuel IH]; intros todo smallest acc r Hr Hf Hs Ha Hne.
  { pose proof (len_nonneg r). lia. }
  cbn [parse_ranges]. destruct (todo <=? 0); [done |].
  apply safe_on_ReadVarInt; [done |].
  intros gap r1 Hgap Hr1 Hb1. unfold is_varint, maxVarInt8 in Hgap.
  rewrite add64_small by lia. destruct (Z.ltb_spec smallest (gap + 2)); [done |].
  rewrite !sub64_small by (rewrite ?sub64_small; lia).
  apply safe_on_ReadVarInt; [done |].
  intros blk r2 Hblk Hr2 Hb2. unfold is_varint, maxVarInt8 in Hblk.
  destruct (Z.ltb_spec (smallest - gap - 2) blk); [done |].
  rewrite sub64_small by lia.
  replace (head acc) with (head (acc ++ [mkAckRange (smallest - gap - 2 - blk) (smallest - gap - 2)]))
    by (by destruct acc).
  apply IH; [done | lia | lia | | by destruct acc].
  apply Forall_app. split; [done |]. apply Forall_singleton. unfold range_ok. cbn. lia.
Qed.

Lemma validate_sound f : Forall range_ok (AckRanges f) -> validateAckRanges f = true ->
  descending (AckRanges f).
Proof.
  unfold validateAckRanges. intros Hf Hv. destruct (AckRanges f) as [| r l]; [done |].
  apply andb_true_iff in Hv as [_ Hv]. by apply ranges_consistent_iff.
Qed.

(** What a parsed ACK frame satisfies. *)
Definition ack_ranges_ok (f : AckFrame) : Prop :=
  descending (AckRanges f)
  /\ match AckRanges f with [] => False | r :: _ => Largest r < 2 ^ 62 end.

Lemma safe_parseAckFrame : safe1 parseAckFrame ack_ranges_ok.
Proof.
  unfold parseAckFrame. safe_step. cbv zeta. do 4 safe_step. safe_step; [apply safe_fail |].
  unfold is_varint, maxVarInt8 in *. bool_to_prop.
  rewrite sub64_small by lia. intros r Hr.
  erewrite reader_bind_step by reflexivity.
  eapply safe_on_bind; [done | apply parse_ranges_safe |].
  { done. } { unfold len. lia. } { lia. }
  { apply Forall_singleton. unfold range_ok. cbn. lia. } { done. }
  cbv beta. cbn [head]. intros ranges r' [Hf Hh] _ Hr'.
  destruct (validateAckRanges (mkAckFrame ranges (decodeAckDelay a0))) eqn:Hv; [| done].
  cbn [negb].
  enough (Hs : safe (_ ← (if 0 <? Z.land b 1 then _ ← ReadVarInt; _ ← ReadVarInt; ReadVarInt
                 else mret 0); mret (mkAckFrame ranges (decodeAckDelay a0))) ack_ranges_ok)
    by (by apply Hs).
  eapply safe_bind with (P := is_varint).
  { repeat safe_step. unfold is_varint, maxVarInt8. lia. }
  intros _ _. apply safe_ret. split.
  - by apply (validate_sound (mkAckFrame ranges (decodeAckDelay a0))) in Hv.
  - destruct ranges as [| x ranges]; [done |]. cbn in *. injection Hh as ->. cbn. lia.
Qed.

(** ** Properties *)

(** [AcksPacket] is membership in the union of the ranges of the frame:
    the binary search over the ranges agrees with looking at all of them. *)
Theorem AcksPacket_member f p : ack_wf f ->
  AcksPacket f p = Ok (existsb (fun r => (Smallest r <=? p) && (p <=? Largest r)) (AckRanges f)).
Proof. apply AcksPacket_spec. Qed.

Definition ack_example : AckFrame :=
  mkAckFrame [mkAckRange 90 100; mkAckRange 70 80; mkAckRange 5 6] 123456.

Lemma ack_example_wf : ack_wf ack_example.
Proof. unfold ack_wf, ack_example. cbn. lia. Qed.

Lemma AcksPacket_member_witness :
  AcksPacket ack_example 75 = Ok true /\ AcksPacket ack_example 85 = Ok false.
Proof.
  rewrite !(AcksPacket_member ack_example) by apply ack_example_wf.
  split; vm_compute; reflexivity.
Defined.

(** A well-formed ACK frame is written without a panic, [Length] is the
    number of bytes written, and parsing them, whatever follows, gives the
    frame back, with the delay rounded down to the 8 microseconds of the
    encoding and the ranges cut after the first [n]; up to 62 ranges are never
    cut. *)
Theorem ack_frame_roundtrip f rest : ack_wf f ->
  exists bs n, AckFrame_Write f = Ok bs /\ bytes bs /\ AckFrame_Length f = Ok (len bs)
    /\ (1 <= n <= length (AckRanges f))%nat
    /\ ((length (AckRanges f) <= 62)%nat -> n = length (AckRanges f))
    /\ parseAckFrame (bs ++ rest)
       = Ok (mkAckFrame (take n (AckRanges f)) (DelayTime f / 8000 * 8000), rest).
Proof.
  intros Hwf. destruct (ack_roundtrip f rest Hwf) as (bs & n & Hw & Hb & Hl & Hn & Hall & Hp).
  exists (0x2 :: bs), n. split_and!; try done; try lia.
  apply bytes_cons. split; [unfold is_byte; lia | done].
Qed.

Lemma ack_frame_roundtrip_witness :
  ack_wf ack_example
  /\ exists bs n, AckFrame_Write ack_example = Ok bs /\ bytes bs
     /\ AckFrame_Length ack_example = Ok (len bs)
     /\ (1 <= n <= length (AckRanges ack_example))%nat
     /\ ((length (AckRanges ack_example) <= 62)%nat -> n = length (AckRanges ack_example))
     /\ parseAckFrame (bs ++ [0])
        = Ok (mkAckFrame (take n (AckRanges ack_example)) (123456 / 8000 * 8000), [0]).
Proof. split; [apply ack_example_wf | apply (ack_frame_roundtrip ack_example [0] ack_example_wf)]. Defined.

(** The limit MaxAckFrameSize is honoured up to the length of the first
    range, which the count of encodable ranges leaves out: a written ACK frame
    has at most 8 bytes more. *)
Theorem ack_frame_size f : ack_wf f ->
  exists bs, AckFrame_Write f = Ok bs /\ len bs <= MaxAckFrameSize + 8.
Proof.
  intros Hwf. destruct (AckRanges f) as [| r l] eqn:El.
  { destruct Hwf as (_ & Hne & _). by rewrite El in Hne. }
  destruct (ack_numbers f r l El Hwf) as (m & Hm & En & Hm500 & Hall & Hmax).
  destruct (ack_parts f r l m El Hwf Hm500) as (Hd & Hne & _).
  pose proof (descending_take (S m) (r :: l) Hd) as Hdt. rewrite firstn_cons in Hdt.
  destruct (parse_enc_ranges r (take m l) Hdt Hne) as (bs & Ebs & _).
  eexists. split; [by eapply AckFrame_Write_bytes |]. by rewrite (len_ack_bytes f r l).
Qed.

Lemma ack_frame_size_witness :
  exists bs, AckFrame_Write ack_example = Ok bs /\ len bs <= MaxAckFrameSize + 8.
Proof. apply (ack_frame_size ack_example), ack_example_wf. Defined.

(** Parsing an ACK frame from arbitrary bytes does not panic, and the loop
    over the ranges ends for every announced count; the ranges of a frame it
    accepts are non-empty, below 2^62, in descending order and separated by
    gaps, and what it leaves is the end of the input. *)
Theorem parseAckFrame_safe typeByte r : bytes (typeByte :: r) ->
  match parseAckFrame (typeByte :: r) with
  | Ok (f, r') => ack_ranges_ok f /\ suffix r' r
  | Err _ => True
  | Panic _ => False
  end.
Proof. apply safe_parseAckFrame. Qed.

Lemma parseAckFrame_safe_witness :
  bytes [2; 60; 0; 1; 10; 8; 11]
  /\ parseAckFrame [2; 60; 0; 1; 10; 8; 11]
     = Ok (mkAckFrame [mkAckRange 50 60; mkAckRange 29 40] 0, [])
  /\ ack_ranges_ok (mkAckFrame [mkAckRange 50 60; mkAckRange 29 40] 0).
Proof.
  assert (Hb : bytes [2; 60; 0; 1; 10; 8; 11]) by solve_bytes.
  pose proof (parseAckFrame_safe _ _ Hb) as H.
  split; [done |]. vm_compute (parseAckFrame _) in H. split; [vm_compute; reflexivity | apply H].
Defined.
