(* ===== verification/FrameCodec.v ===== *)
(** * The contract of the frame types

    The class [FrameCodec] collects the operations of a frame type, and
    [FrameCodecLaws] what the frame parser and the packet packer rely on.  Every
    frame type of Frames.v whose [Length] and type byte are right is an
    instance. *)

From S2P Require Import Prelude Varint Protocol Frames.

(** The operations of a frame type, the type byte it writes, the frames that
    can be written and what may follow them. *)
Class FrameCodec (A : Type) : Type := {
  frame_parse : reader A;
  frame_Write : A -> writes;
  frame_Length : A -> outcome Z;
  frame_tag : A -> Z;
  frame_ok : A -> Prop;
  frame_rest : A -> list Z -> Prop;
}.

(** [Write] writes the type byte and [Length] bytes in total, from which the
    parser gives the frame back; the parser is safe on any input and consumes at
    least the type byte. *)
Class FrameCodecLaws (A : Type) `{FrameCodec A} : Prop := {
  codec_roundtrip : forall a, frame_ok a ->
    exists bs, frame_Write a = Ok (frame_tag a :: bs) /\ bytes bs
      /\ frame_Length a = Ok (1 + len bs)
      /\ forall rest, frame_rest a rest -> frame_parse (frame_tag a :: bs ++ rest) = Ok (a, rest);
  codec_safe : safe1 frame_parse (fun _ => True);
}.

(** Lengths stay far below 2^64. *)
Definition small_data (l : list Z) : Prop := bytes l /\ len l < 2 ^ 60.

Lemma small_data_varint l : small_data l -> is_varint (len l).
Proof. intros [_ H]. pose proof (len_nonneg l). unfold is_varint, maxVarInt8. lia. Qed.

(** Normalise the writers of a frame. *)
Ltac write_step :=
  repeat first
    [ progress rewrite ?WriteVarInt_bytes, ?WriteUint16_bytes, ?VarIntLen_vlen
        by auto using small_data_varint
    | progress cbn [wseq mbind outcome_bind app] ].

Ltac len_of_bytes :=
  repeat progress (rewrite ?len_app, ?len_cons, ?len_nil, ?len_varint_bytes, ?len_u16_bytes
    by auto using small_data_varint);
  repeat match goal with
  | |- context [vlen ?x] =>
      lazymatch goal with
      | _ : 1 <= vlen x <= 8 |- _ => fail
      | _ => pose proof (vlen_range x)
      end
  | |- context [len ?x] =>
      lazymatch goal with
      | _ : 0 <= len x |- _ => fail
      | _ => pose proof (len_nonneg x)
      end
  end.

(** The steps of a parser on the bytes of a frame. *)
Ltac read_steps :=
  repeat first
    [ rewrite ReadByte_step
    | rewrite ReadVarInt_step by auto using small_data_varint
    | rewrite ReadUint16_step by done
    | rewrite Len_step
    | rewrite ret_step
    | rewrite <- app_assoc
    | progress cbn [app] ].

(** The laws of a frame of type [A] whose operations are [p], [w] and [l]. *)
Ltac solve_bytes_of := rewrite ?bytes_app; auto using bytes_varint_bytes, bytes_u16_bytes, small_data_varint.

Ltac solve_length :=
  write_step; len_of_bytes; norm64; f_equal; lia.

Ltac open_codec c :=
  cbn [frame_parse frame_Write frame_Length frame_tag frame_ok frame_rest c] in *.

Ltac solve_codec c p w l :=
  split;
  [ intros a Hok; open_codec c; destruct_and? Hok;
    eexists; split_and!;
    [ unfold w; write_step; reflexivity
    | solve_bytes_of
    | unfold l; solve_length
    | intros rest _; unfold p; read_steps; by destruct a ]
  | open_codec c; unfold p; repeat safe_step; done ].

#[export] Instance ResetStreamFrame_codec : FrameCodec ResetStreamFrame := {
  frame_parse := parseResetStreamFrame;
  frame_Write := ResetStreamFrame_Write;
  frame_Length := ResetStreamFrame_Length;
  frame_tag _ := 0x4;
  frame_ok f := is_varint (ResetStream_StreamID f) /\ is_u16 (ResetStream_ErrorCode f)
    /\ is_varint (ResetStream_ByteOffset f);
  frame_rest _ _ := True }.

#[export] Instance ResetStreamFrame_laws : FrameCodecLaws ResetStreamFrame.
Proof.
  solve_codec ResetStreamFrame_codec parseResetStreamFrame ResetStreamFrame_Write ResetStreamFrame_Length.
Qed.

#[export] Instance StopSendingFrame_codec : FrameCodec StopSendingFrame := {
  frame_parse := parseStopSendingFrame;
  frame_Write := StopSendingFrame_Write;
  frame_Length := StopSendingFrame_Length;
  frame_tag _ := 0x5;
  frame_ok f := is_varint (StopSending_StreamID f) /\ is_u16 (StopSending_ErrorCode f);
  frame_rest _ _ := True }.

#[export] Instance StopSendingFrame_laws : FrameCodecLaws StopSendingFrame.
Proof.
  solve_codec StopSendingFrame_codec parseStopSendingFrame StopSendingFrame_Write StopSendingFrame_Length.
Qed.

#[export] Instance MaxDataFrame_codec : FrameCodec MaxDataFrame := {
  frame_parse := parseMaxDataFrame;
  frame_Write := MaxDataFrame_Write;
  frame_Length := MaxDataFrame_Length;
  frame_tag _ := 0x10;
  frame_ok f := is_varint (MaxData_ByteOffset f);
  frame_rest _ _ := True }.

#[export] Instance MaxDataFrame_laws : FrameCodecLaws MaxDataFrame.
Proof.
  solve_codec MaxDataFrame_codec parseMaxDataFrame MaxDataFrame_Write MaxDataFrame_Length.
Qed.

#[export] Instance MaxStreamDataFrame_codec : FrameCodec MaxStreamDataFrame := {
  frame_parse := parseMaxStreamDataFrame;
  frame_Write := MaxStreamDataFrame_Write;
  frame_Length := MaxStreamDataFrame_Length;
  frame_tag _ := 0x11;
  frame_ok f := is_varint (MaxStreamData_StreamID f) /\ is_varint (MaxStreamData_ByteOffset f);
  frame_rest _ _ := True }.

#[export] Instance MaxStreamDataFrame_laws : FrameCodecLaws MaxStreamDataFrame.
Proof.
  solve_codec MaxStreamDataFrame_codec parseMaxStreamDataFrame MaxStreamDataFrame_Write MaxStreamDataFrame_Length.
Qed.

#[export] Instance DataBlockedFrame_codec : FrameCodec DataBlockedFrame := {
  frame_parse := parseDataBlockedFrame;
  frame_Write := DataBlockedFrame_Write;
  frame_Length := DataBlockedFrame_Length;
  frame_tag _ := 0x14;
  frame_ok f := is_varint (DataBlocked_DataLimit f);
  frame_rest _ _ := True }.

#[export] Instance DataBlockedFrame_laws : FrameCodecLaws DataBlockedFrame.
Proof.
  solve_codec DataBlockedFrame_codec parseDataBlockedFrame DataBlockedFrame_Write DataBlockedFrame_Length.
Qed.

#[export] Instance StreamDataBlockedFrame_codec : FrameCodec StreamDataBlockedFrame := {
  frame_parse := parseStreamDataBlockedFrame;
  frame_Write := StreamDataBlockedFrame_Write;
  frame_Length := StreamDataBlockedFrame_Length;
  frame_tag _ := 0x15;
  frame_ok f := is_varint (StreamDataBlocked_StreamID f)
    /\ is_varint (StreamDataBlocked_DataLimit f);
  frame_rest _ _ := True }.

#[export] Instance StreamDataBlockedFrame_laws : FrameCodecLaws StreamDataBlockedFrame.
Proof.
  solve_codec StreamDataBlockedFrame_codec parseStreamDataBlockedFrame StreamDataBlockedFrame_Write StreamDataBlockedFrame_Length.
Qed.

#[export] Instance OwdFrame_codec : FrameCodec OwdFrame := {
  frame_parse := parseOwdFrame;
  frame_Write := OwdFrame_Write;
  frame_Length := OwdFrame_Length;
  frame_tag _ := 0xf2;
  frame_ok f := is_u32 (Owd_pathID f) /\ is_varint (Owd_time f);
  frame_rest _ _ := True }.

Lemma u32_varint i : is_u32 i -> is_varint i.
Proof. unfold is_u32, is_varint, maxVarInt8. lia. Qed.

#[export] Instance OwdFrame_laws : FrameCodecLaws OwdFrame.
Proof.
  split; open_codec OwdFrame_codec.
  - intros a [Hp Ht]. pose proof (u32_varint _ Hp). eexists. split_and!.
    + unfold OwdFrame_Write. write_step. reflexivity.
    + solve_bytes_of.
    + unfold OwdFrame_Length. solve_length.
    + intros rest _. unfold parseOwdFrame. read_steps. rewrite u32_small by done. by destruct a.
  - unfold parseOwdFrame. repeat safe_step. done.
Qed.

(** ** Frames with two type bytes *)

#[export] Instance MaxStreamsFrame_codec : FrameCodec MaxStreamsFrame := {
  frame_parse := parseMaxStreamsFrame;
  frame_Write := MaxStreamsFrame_Write;
  frame_Length := MaxStreamsFrame_Length;
  frame_tag f := match MaxStreams_Type f with StreamTypeBidi => 0x12 | StreamTypeUni => 0x13 end;
  frame_ok f := is_varint (MaxStreams_MaxStreams f);
  frame_rest _ _ := True }.

#[export] Instance StreamsBlockedFrame_codec : FrameCodec StreamsBlockedFrame := {
  frame_parse := parseStreamsBlockedFrame;
  frame_Write := StreamsBlockedFrame_Write;
  frame_Length := StreamsBlockedFrame_Length;
  frame_tag f :=
    match StreamsBlocked_Type f with StreamTypeBidi => 0x16 | StreamTypeUni => 0x17 end;
  frame_ok f := is_varint (StreamsBlocked_StreamLimit f);
  frame_rest _ _ := True }.

#[export] Instance MaxStreamsFrame_laws : FrameCodecLaws MaxStreamsFrame.
Proof.
  split; open_codec MaxStreamsFrame_codec.
  - intros [[] n] Hn; cbn in Hn; exists (varint_bytes n); unfold MaxStreamsFrame_Write,
      MaxStreamsFrame_Length, parseMaxStreamsFrame;
      cbn [MaxStreams_Type MaxStreams_MaxStreams];
      (split_and!; [by write_step | solve_bytes_of | solve_length | intros; by read_steps]).
  - unfold parseMaxStreamsFrame. repeat safe_step. done.
Qed.

#[export] Instance StreamsBlockedFrame_laws : FrameCodecLaws StreamsBlockedFrame.
Proof.
  split; open_codec StreamsBlockedFrame_codec.
  - intros [[] n] Hn; cbn in Hn; exists (varint_bytes n); unfold StreamsBlockedFrame_Write,
      StreamsBlockedFrame_Length, parseStreamsBlockedFrame;
      cbn [StreamsBlocked_Type StreamsBlocked_StreamLimit];
      (split_and!; [by write_step | solve_bytes_of | solve_length | intros; by read_steps]).
  - unfold parseStreamsBlockedFrame. repeat safe_step. done.
Qed.

(** ** Frames with data *)

#[export] Instance PathChallengeFrame_codec : FrameCodec PathChallengeFrame := {
  frame_parse := parsePathChallengeFrame;
  frame_Write := PathChallengeFrame_Write;
  frame_Length _ := PathChallengeFrame_Length;
  frame_tag _ := 0x1a;
  frame_ok f := bytes (PathChallenge_Data f) /\ len (PathChallenge_Data f) = 8;
  frame_rest _ _ := True }.

#[export] Instance PathResponseFrame_codec : FrameCodec PathResponseFrame := {
  frame_parse := parsePathResponseFrame;
  frame_Write := PathResponseFrame_Write;
  frame_Length _ := PathResponseFrame_Length;
  frame_tag _ := 0x1b;
  frame_ok f := bytes (PathResponse_Data f) /\ len (PathResponse_Data f) = 8;
  frame_rest _ _ := True }.

Lemma read_array_app l r : read_array (len l) (l ++ r) = Ok (l, r).
Proof. unfold read_array. by rewrite ReadFull_app. Qed.

Lemma safe_read_array n : 0 <= n -> safe (read_array n) bytes.
Proof.
  intros Hn r Hr. pose proof (safe_ReadFull n Hn r Hr) as Hs. unfold read_array.
  unfold safe_on in *. destruct (ReadFull n r) as [[] | [] |]; (done || tauto).
Qed.

#[export] Instance PathChallengeFrame_laws : FrameCodecLaws PathChallengeFrame.
Proof.
  split; open_codec PathChallengeFrame_codec.
  - intros [d] [Hb Hl]. cbn in *. exists d. rewrite Hl. split_and!; [done.. |].
    intros rest _. unfold parsePathChallengeFrame. rewrite ReadByte_step, <- Hl.
    by erewrite reader_bind_step by apply read_array_app.
  - unfold parsePathChallengeFrame. safe_step.
    eapply safe_bind; [by apply safe_read_array | intros ? _; by apply safe_ret].
Qed.

#[export] Instance PathResponseFrame_laws : FrameCodecLaws PathResponseFrame.
Proof.
  split; open_codec PathResponseFrame_codec.
  - intros [d] [Hb Hl]. cbn in *. exists d. rewrite Hl. split_and!; [done.. |].
    intros rest _. unfold parsePathResponseFrame. rewrite ReadByte_step, <- Hl.
    by erewrite reader_bind_step by apply read_array_app.
  - unfold parsePathResponseFrame. safe_step.
    eapply safe_bind; [by apply safe_read_array | intros ? _; by apply safe_ret].
Qed.

#[export] Instance CryptoFrame_codec : FrameCodec CryptoFrame := {
  frame_parse := parseCryptoFrame;
  frame_Write := CryptoFrame_Write;
  frame_Length := CryptoFrame_Length;
  frame_tag _ := 0x6;
  frame_ok f := is_varint (Crypto_Offset f) /\ small_data (Crypto_Data f);
  frame_rest _ _ := True }.

(** The check that the announced data is there, and reading it. *)
Lemma read_data_step {B} (e : go_error) (k : list Z -> reader B) l r :
  (if len (l ++ r) <? len l then fail e
   else data ← (if len l =? 0 then mret [] else ReadFull (len l)); k data) (l ++ r) = k l r.
Proof.
  rewrite len_app. pose proof (len_nonneg r). destruct (Z.ltb_spec (len l + len r) (len l)); [lia |].
  destruct (Z.eqb_spec (len l) 0) as [E | E].
  - apply len_zero in E as ->. by rewrite ret_step.
  - by rewrite ReadFull_step.
Qed.

#[export] Instance CryptoFrame_laws : FrameCodecLaws CryptoFrame.
Proof.
  split; open_codec CryptoFrame_codec.
  - intros [off d] [Ho Hd]. cbn in Ho, Hd. eexists.
    unfold CryptoFrame_Write, CryptoFrame_Length, parseCryptoFrame.
    cbn [Crypto_Offset Crypto_Data]. pose proof Hd as [Hb Hl]. split_and!.
    + write_step. reflexivity.
    + solve_bytes_of.
    + solve_length.
    + intros rest _. read_steps. by rewrite read_data_step.
  - unfold parseCryptoFrame. do 4 safe_step. safe_step; [apply safe_fail |].
    unfold is_varint in *. eapply (safe_bind _ _ bytes).
    + safe_step; [apply safe_ret; constructor |].
      eapply safe_weaken; [apply safe_ReadFull; lia | tauto].
    + intros. by apply safe_ret.
Qed.

#[export] Instance NewTokenFrame_codec : FrameCodec NewTokenFrame := {
  frame_parse := parseNewTokenFrame;
  frame_Write := NewTokenFrame_Write;
  frame_Length := NewTokenFrame_Length;
  frame_tag _ := 0x7;
  frame_ok f := small_data (NewToken_Token f);
  frame_rest _ _ := True }.

#[export] Instance NewTokenFrame_laws : FrameCodecLaws NewTokenFrame.
Proof.
  split; open_codec NewTokenFrame_codec.
  - intros [d] Hd. cbn in Hd. eexists.
    unfold NewTokenFrame_Write, NewTokenFrame_Length, parseNewTokenFrame.
    cbn [NewToken_Token]. pose proof Hd as [Hb Hl]. split_and!.
    + write_step. reflexivity.
    + solve_bytes_of.
    + solve_length.
    + intros rest _. read_steps. rewrite len_app. pose proof (len_nonneg rest).
      destruct (Z.ltb_spec (len d + len rest) (len d)); [lia |]. by rewrite ReadFull_step.
  - unfold parseNewTokenFrame. do 3 safe_step. safe_step; [apply safe_fail |].
    unfold is_varint in *. eapply safe_bind; [apply safe_ReadFull; lia |].
    intros. by apply safe_ret.
Qed.

#[export] Instance ConnectionCloseFrame_codec : FrameCodec ConnectionCloseFrame := {
  frame_parse := parseConnectionCloseFrame;
  frame_Write := ConnectionCloseFrame_Write;
  frame_Length := ConnectionCloseFrame_Length;
  frame_tag f := if ConnectionClose_IsApplicationError f then 0x1d else 0x1c;
  frame_ok f := is_u16 (ConnectionClose_ErrorCode f)
    /\ small_data (ConnectionClose_ReasonPhrase f);
  frame_rest _ _ := True }.

Lemma varint_0 : is_varint 0.
Proof. unfold is_varint, maxVarInt8. lia. Qed.
#[export] Hint Resolve varint_0 : core.

#[export] Instance ConnectionCloseFrame_laws : FrameCodecLaws ConnectionCloseFrame.
Proof.
  split; open_codec ConnectionCloseFrame_codec.
  - intros [app ec d] [He Hd]. cbn in He, Hd. eexists.
    unfold ConnectionCloseFrame_Write, ConnectionCloseFrame_Length, parseConnectionCloseFrame.
    cbn [ConnectionClose_IsApplicationError ConnectionClose_ErrorCode ConnectionClose_ReasonPhrase].
    pose proof Hd as [Hb Hl]. split_and!.
    + write_step. instantiate (1 := u16_bytes ec ++ (if app then [] else varint_bytes 0)
        ++ varint_bytes (len d) ++ d). destruct app; cbn [negb]; by write_step.
    + destruct app; rewrite !bytes_app; split_and!;
        auto using bytes_varint_bytes, bytes_u16_bytes, small_data_varint.
    + destruct app; cbn [negb]; [solve_length |]. write_step. len_of_bytes.
      change (vlen 0) with 1. norm64. f_equal. lia.
    + intros rest _. pose proof (len_nonneg rest). pose proof (len_nonneg d).
      destruct app; cbn [negb Z.eqb Pos.eqb]; read_steps; cbn [negb Z.eqb Pos.eqb];
        read_steps; rewrite len_app, i64_small by lia;
        (destruct (Z.ltb_spec (len d + len rest) (len d)); [lia |]); by rewrite ReadFull_step.
  - unfold parseConnectionCloseFrame. safe_step. cbv zeta. safe_step.
    eapply (safe_bind _ _ is_varint); [by repeat safe_step |]. intros _ _.
    do 2 safe_step. safe_step; [apply safe_fail |]. unfold is_varint in *.
    eapply safe_bind; [apply safe_ReadFull; lia |]. intros. by apply safe_ret.
Qed.

#[export] Instance StreamFrame_codec : FrameCodec StreamFrame := {
  frame_parse := parseStreamFrame;
  frame_Write := StreamFrame_Write;
  frame_Length := StreamFrame_Length;
  frame_tag := StreamFrame_typeByte;
  frame_ok f := is_varint (Stream_StreamID f) /\ is_varint (Stream_Offset f)
    /\ small_data (Stream_Data f) /\ Stream_Offset f + len (Stream_Data f) <= MaxByteCount
    /\ (Stream_Data f <> [] \/ Stream_FinBit f = true);
  frame_rest f rest := Stream_DataLenPresent f = true \/ rest = [] }.

Definition stream_bytes (f : StreamFrame) : list Z :=
  varint_bytes (Stream_StreamID f)
  ++ (if Stream_Offset f =? 0 then [] else varint_bytes (Stream_Offset f))
  ++ (if Stream_DataLenPresent f then varint_bytes (len (Stream_Data f)) else [])
  ++ Stream_Data f.

Lemma read_offset o r : is_varint o ->
  (if negb (o =? 0) then ReadVarInt else mret 0) ((if o =? 0 then [] else varint_bytes o) ++ r)
  = Ok (o, r).
Proof.
  intros Ho. destruct (Z.eqb_spec o 0) as [-> | _]; [done | by apply ReadVarInt_bytes].
Qed.

Lemma read_len (p : bool) d rest : small_data d -> p = true \/ rest = [] ->
  (if p then
     dataLen ← ReadVarInt; rlen ← Len; if rlen <? dataLen then fail EOF else mret dataLen
   else Len) ((if p then varint_bytes (len d) else []) ++ d ++ rest)
  = Ok (len d, d ++ rest).
Proof.
  intros Hd Hr. destruct p.
  - rewrite ReadVarInt_step, Len_step by auto using small_data_varint.
    rewrite len_app. pose proof (len_nonneg rest).
    by destruct (Z.ltb_spec (len d + len rest) (len d)); [lia |].
  - destruct Hr as [[=] | ->]. by rewrite app_nil_r.
Qed.

Lemma read_nonempty d rest :
  (if negb (len d =? 0) then ReadFull (len d) else mret []) (d ++ rest) = Ok (d, rest).
Proof.
  destruct (Z.eqb_spec (len d) 0) as [E | _]; cbn [negb]; [| apply ReadFull_app].
  by apply len_zero in E as ->.
Qed.

Section Stream.
Context (f : StreamFrame) (Hok : frame_ok f).

Lemma stream_ok : is_varint (Stream_StreamID f) /\ is_varint (Stream_Offset f)
  /\ small_data (Stream_Data f) /\ Stream_Offset f + len (Stream_Data f) <= MaxByteCount
  /\ (Stream_Data f <> [] \/ Stream_FinBit f = true).
Proof. exact Hok. Qed.

Lemma StreamFrame_Write_bytes :
  StreamFrame_Write f = Ok (StreamFrame_typeByte f :: stream_bytes f).
Proof.
  destruct stream_ok as (Hs & Ho & Hd & _ & Hne). unfold StreamFrame_Write, stream_bytes.
  destruct ((len (Stream_Data f) =? 0) && negb (Stream_FinBit f)) eqn:E.
  { bool_to_prop. destruct Hne as [Hne | Hne]; [| congruence]. by apply len_zero in H. }
  unfold StreamFrame_DataLen.
  destruct (Stream_Offset f =? 0), (Stream_DataLenPresent f); cbn [negb]; by write_step.
Qed.

Lemma bytes_stream_bytes : bytes (stream_bytes f).
Proof.
  destruct stream_ok as (Hs & Ho & Hd & _ & Hne). pose proof Hd as [Hb _].
  unfold stream_bytes. rewrite !bytes_app.
  split_and!; repeat case_match; auto using bytes_varint_bytes, small_data_varint.
Qed.

Lemma StreamFrame_Length_bytes : StreamFrame_Length f = Ok (1 + len (stream_bytes f)).
Proof.
  destruct stream_ok as (Hs & Ho & Hd & _ & Hne). pose proof Hd as [_ Hl].
  unfold StreamFrame_Length, stream_bytes, StreamFrame_DataLen.
  destruct (Stream_Offset f =? 0), (Stream_DataLenPresent f); cbn [negb]; solve_length.
Qed.

(** The flags of the type byte. *)
Lemma typeByte_flags :
  (0 <? Z.land (StreamFrame_typeByte f) 0x4) = negb (Stream_Offset f =? 0)
  /\ (0 <? Z.land (StreamFrame_typeByte f) 0x1) = Stream_FinBit f
  /\ (0 <? Z.land (StreamFrame_typeByte f) 0x2) = Stream_DataLenPresent f
  /\ Z.land (StreamFrame_typeByte f) 0xf8 = 0x8 /\ StreamFrame_typeByte f <> 0.
Proof.
  clear Hok. unfold StreamFrame_typeByte.
  destruct (Stream_Offset f =? 0), (Stream_DataLenPresent f), (Stream_FinBit f);
    (split_and!; [done.. | by intros [=]]).
Qed.

Lemma is_byte_typeByte : is_byte (StreamFrame_typeByte f).
Proof.
  clear Hok. unfold StreamFrame_typeByte, is_byte.
  destruct (Stream_Offset f =? 0), (Stream_DataLenPresent f), (Stream_FinBit f);
    vm_compute; split; congruence.
Qed.

Lemma parseStreamFrame_bytes rest : frame_rest f rest ->
  parseStreamFrame (StreamFrame_typeByte f :: stream_bytes f ++ rest) = Ok (f, rest).
Proof.
  intros Hrest. destruct stream_ok as (Hs & Ho & Hd & Hmax & Hne). pose proof Hd as [_ Hl].
  destruct typeByte_flags as (F1 & F2 & F3 & _).
  unfold parseStreamFrame, stream_bytes. rewrite ReadByte_step, F1, F2, F3. cbv zeta.
  read_steps.
  assert (Hcheck : (MaxByteCount <? Stream_Offset f +64 len (Stream_Data f)) = false).
  { unfold is_varint, MaxByteCount in *. pose proof (len_nonneg (Stream_Data f)).
    norm64. apply Z.ltb_ge. lia. }
  erewrite reader_bind_step by (by apply read_offset).
  erewrite reader_bind_step by (by apply read_len).
  erewrite reader_bind_step by apply read_nonempty.
  unfold StreamFrame_DataLen. cbn [Stream_Data]. rewrite Hcheck. by destruct f.
Qed.
End Stream.

#[export] Instance StreamFrame_laws : FrameCodecLaws StreamFrame.
Proof.
  split.
  - intros a Hok. exists (stream_bytes a).
    split_and!; [by apply StreamFrame_Write_bytes | by apply bytes_stream_bytes
      | by apply StreamFrame_Length_bytes | by apply parseStreamFrame_bytes].
  - open_codec StreamFrame_codec. unfold parseStreamFrame. safe_step. cbv zeta. safe_step.
    eapply (safe_bind _ _ is_varint); [by repeat safe_step |]. intros off Hoff.
    eapply (safe_bind _ _ (fun n => 0 <= n)).
    { safe_step; [| apply safe_Len]. do 2 safe_step. safe_step; [apply safe_fail |].
      apply safe_ret. unfold is_varint in *. lia. }
    intros n Hn. eapply (safe_bind _ _ bytes).
    { safe_step; [| by apply safe_ret].
      eapply safe_weaken; [by apply safe_ReadFull | by intros ? []]. }
    intros d Hd. safe_step; [apply safe_fail | by apply safe_ret].
Qed.

(** ** Fitting data into a frame *)

Definition stream_with (f : StreamFrame) (d : list Z) : StreamFrame :=
  mkStreamFrame (Stream_StreamID f) (Stream_FinBit f) (Stream_DataLenPresent f)
    (Stream_Offset f) d.

Definition crypto_with (f : CryptoFrame) (d : list Z) : CryptoFrame :=
  mkCryptoFrame (Crypto_Offset f) d.

(** The length of a STREAM frame with [d] as its data, and of its header
    without the length field. *)
Definition stream_header_len (f : StreamFrame) : Z :=
  1 + vlen (Stream_StreamID f) + (if Stream_Offset f =? 0 then 0 else vlen (Stream_Offset f)).

Lemma stream_header_range f : 2 <= stream_header_len f <= 17.
Proof.
  unfold stream_header_len. pose proof (vlen_range (Stream_StreamID f)).
  pose proof (vlen_range (Stream_Offset f)). case_match; lia.
Qed.

Lemma StreamFrame_Length_with f d :
  is_varint (Stream_StreamID f) -> is_varint (Stream_Offset f) -> small_data d ->
  StreamFrame_Length (stream_with f d)
  = Ok (stream_header_len f + (if Stream_DataLenPresent f then vlen (len d) else 0) + len d).
Proof.
  intros Hs Ho Hd. pose proof Hd as [_ Hl]. unfold StreamFrame_Length, stream_header_len, stream_with.
  unfold StreamFrame_DataLen.
  cbn [Stream_StreamID Stream_Offset Stream_DataLenPresent Stream_Data].
  destruct (Stream_Offset f =? 0), (Stream_DataLenPresent f); cbn [negb]; solve_length.
Qed.

(** The data that fits below [maxSize], once [room] bytes are left besides the
    header and one byte of length. *)
Lemma fit_with_length room n : 0 <= room < 2 ^ 14 -> 0 < n < 2 ^ 60 ->
  n <= (if negb (vlen room =? 1) then room - 1 else room) <-> vlen n + n <= room + 1.
Proof.
  intros Hr Hn. unfold vlen, maxVarInt1, maxVarInt2, maxVarInt4. case_cmp; cbn [negb]; lia.
Qed.

(** What [MaxDataLen] of both frame types computes: [h] is the length of the
    header without the length field. *)
Definition fit (lenField : bool) (h maxSize : Z) : Z :=
  if lenField then
    if maxSize <? h + 1 then 0
    else let room := maxSize - (h + 1) in if negb (vlen room =? 1) then room - 1 else room
  else if maxSize <? h then 0 else maxSize - h.

Lemma fit_range p h maxSize : 0 <= h -> 0 <= maxSize -> 0 <= fit p h maxSize <= maxSize.
Proof.
  intros. unfold fit. cbv zeta. unfold vlen, maxVarInt1. destruct p; case_cmp; cbn [negb]; lia.
Qed.

Lemma fit_spec p h maxSize n : 2 <= h -> 0 <= maxSize < 2 ^ 14 -> 0 < n < 2 ^ 60 ->
  n <= fit p h maxSize <-> h + (if p then vlen n else 0) + n <= maxSize.
Proof.
  intros Hh Hm Hn. unfold fit. pose proof (vlen_range n). destruct p; cbv zeta.
  - destruct (Z.ltb_spec maxSize (h + 1)); [lia |]. rewrite fit_with_length by lia. lia.
  - destruct (Z.ltb_spec maxSize h); lia.
Qed.

(** Data that does not fit is longer than what fits. *)
Lemma fit_lt (p : bool) h maxSize n : 2 <= h -> 0 <= maxSize < 2 ^ 14 -> 0 <= n < 2 ^ 60 ->
  maxSize < h + (if p then vlen n else 0) + n -> fit p h maxSize <> 0 -> fit p h maxSize < n.
Proof.
  intros Hh Hm Hn Hbig Hne. destruct (Z.ltb_spec (fit p h maxSize) n) as [| Hle]; [done |].
  destruct (Z.eqb_spec n 0) as [-> | Hn0].
  - exfalso. revert Hbig Hne. unfold fit. cbv zeta. change (vlen 0) with 1.
    destruct p; case_cmp; lia.
  - apply fit_spec in Hle; lia.
Qed.

Lemma StreamFrame_MaxDataLen_fit f maxSize :
  is_varint (Stream_StreamID f) -> is_varint (Stream_Offset f) -> 0 <= maxSize < 2 ^ 14 ->
  StreamFrame_MaxDataLen f maxSize = Ok (fit (Stream_DataLenPresent f) (stream_header_len f) maxSize).
Proof.
  intros Hs Ho Hm. pose proof (stream_header_range f) as Hh.
  unfold StreamFrame_MaxDataLen, fit, stream_header_len in *.
  rewrite !VarIntLen_vlen by done.
  pose proof (vlen_range (Stream_StreamID f)). pose proof (vlen_range (Stream_Offset f)).
  destruct (Stream_Offset f =? 0); cbn [negb mbind outcome_bind];
    (destruct (Stream_DataLenPresent f); cbv zeta; norm64; rewrite ?Z.add_0_r in *;
     (case_match; [done |]); bool_to_prop; norm64; try done);
    (rewrite VarIntLen_vlen by (unfold is_varint, maxVarInt8; lia)); cbn [mbind outcome_bind];
    f_equal; case_match; try done; bool_to_prop;
    rewrite sub64_small; try done; unfold vlen, maxVarInt1 in *; case_match; lia.
Qed.

Lemma CryptoFrame_MaxDataLen_fit f maxSize : is_varint (Crypto_Offset f) ->
  0 <= maxSize < 2 ^ 14 ->
  CryptoFrame_MaxDataLen f maxSize = Ok (fit true (1 + vlen (Crypto_Offset f)) maxSize).
Proof.
  intros Ho Hm. unfold CryptoFrame_MaxDataLen, fit. rewrite VarIntLen_vlen by done.
  pose proof (vlen_range (Crypto_Offset f)). cbn [mbind outcome_bind]. norm64.
  case_match; [done |]. bool_to_prop. norm64.
  rewrite VarIntLen_vlen by (unfold is_varint, maxVarInt8; lia). cbn [mbind outcome_bind].
  f_equal. case_match; try done. bool_to_prop.
  rewrite sub64_small; [done |]. unfold vlen, maxVarInt1 in *. case_match; lia.
Qed.

Lemma small_data_nonempty d : small_data d -> d <> [] -> 0 < len d < 2 ^ 60.
Proof.
  intros [_ Hl] Hne. destruct d as [| b d]; [done |].
  rewrite len_cons in *. pose proof (len_nonneg d). lia.
Qed.

Lemma small_data_app a b : small_data (a ++ b) -> small_data a /\ small_data b.
Proof.
  intros [Hb Hl]. apply bytes_app in Hb as [Ha Hb]. rewrite len_app in Hl.
  pose proof (len_nonneg a). pose proof (len_nonneg b). unfold small_data. split_and!; (done || lia).
Qed.

(** ** Properties *)

(** [MaxDataLen] of STREAM and CRYPTO frames is exact: for packets below
    16 KiB, non-empty data fits into the frame, with [Length] at most [maxSize],
    if and only if there are at most [MaxDataLen(maxSize)] bytes of it. *)
Theorem MaxDataLen_exact (s : StreamFrame) (c : CryptoFrame) maxSize d :
  is_varint (Stream_StreamID s) -> is_varint (Stream_Offset s) -> is_varint (Crypto_Offset c) ->
  0 <= maxSize < 2 ^ 14 -> small_data d -> d <> [] ->
  (exists n l, StreamFrame_MaxDataLen s maxSize = Ok n
     /\ StreamFrame_Length (stream_with s d) = Ok l /\ (len d <= n <-> l <= maxSize))
  /\ (exists n l, CryptoFrame_MaxDataLen c maxSize = Ok n
     /\ CryptoFrame_Length (crypto_with c d) = Ok l /\ (len d <= n <-> l <= maxSize)).
Proof.
  intros Hs Ho Hc Hm Hd Hne. pose proof (small_data_nonempty d Hd Hne) as Hn. split.
  - do 2 eexists. split; [by apply StreamFrame_MaxDataLen_fit |].
    split; [by apply StreamFrame_Length_with |]. apply fit_spec; [| lia..].
    apply stream_header_range.
  - do 2 eexists. split; [by apply CryptoFrame_MaxDataLen_fit |].
    split; [| apply (fit_spec true); [pose proof (vlen_range (Crypto_Offset c)); lia | lia..]].
    pose proof Hd as [_ Hl]. unfold CryptoFrame_Length, crypto_with.
    cbn [Crypto_Offset Crypto_Data]. solve_length.
Qed.

Lemma MaxDataLen_exact_witness :
  (exists n l, StreamFrame_MaxDataLen (mkStreamFrame 4 true true 100 []) 70 = Ok n
     /\ StreamFrame_Length (stream_with (mkStreamFrame 4 true true 100 []) [1; 2; 3]) = Ok l
     /\ (len [1; 2; 3] <= n <-> l <= 70))
  /\ (exists n l, CryptoFrame_MaxDataLen (mkCryptoFrame 7 []) 70 = Ok n
     /\ CryptoFrame_Length (crypto_with (mkCryptoFrame 7 []) [1; 2; 3]) = Ok l
     /\ (len [1; 2; 3] <= n <-> l <= 70)).
Proof.
  apply (MaxDataLen_exact (mkStreamFrame 4 true true 100 []) (mkCryptoFrame 7 []) 70 [1; 2; 3]);
    try (unfold is_varint, maxVarInt8; cbn; lia); [| done].
  split; [solve_bytes | vm_compute; reflexivity].
Defined.

(** Splitting a STREAM frame loses nothing: it does not panic; the frame is
    left alone exactly when it fits; otherwise the two parts carry the data in
    order at consecutive offsets, both non-empty, the first one fits, and only
    the second keeps the FIN bit. *)
Theorem stream_frame_split f maxSize : frame_ok f -> 0 <= maxSize < 2 ^ 14 ->
  match MaybeSplitOffFrame f maxSize with
  | Ok (None, f') => f' = f /\ exists l, StreamFrame_Length f = Ok l /\ l <= maxSize
  | Ok (Some g, f') =>
      Stream_Data g ++ Stream_Data f' = Stream_Data f
      /\ Stream_Data g <> [] /\ Stream_Data f' <> []
      /\ g = mkStreamFrame (Stream_StreamID f) false (Stream_DataLenPresent f)
               (Stream_Offset f) (Stream_Data g)
      /\ f' = mkStreamFrame (Stream_StreamID f) (Stream_FinBit f) (Stream_DataLenPresent f)
               (Stream_Offset f + len (Stream_Data g)) (Stream_Data f')
      /\ exists l, StreamFrame_Length g = Ok l /\ l <= maxSize
  | Err _ => StreamFrame_MaxDataLen f maxSize = Ok 0
  | Panic _ => False
  end.
Proof.
  intros Hok Hm. destruct Hok as (Hs & Ho & Hd & Hmax & Hne).
  pose proof (StreamFrame_Length_with f (Stream_Data f) Hs Ho Hd) as Hlen.
  replace (stream_with f (Stream_Data f)) with f in Hlen by (by destruct f).
  unfold MaybeSplitOffFrame. rewrite Hlen, StreamFrame_MaxDataLen_fit by done.
  cbn [mbind outcome_bind].
  match goal with |- context [if ?l <=? maxSize then _ else _] =>
    destruct (Z.leb_spec l maxSize) as [| Hbig]; [eauto |] end.
  pose proof (stream_header_range f) as Hh. pose proof (len_nonneg (Stream_Data f)).
  pose proof (fit_range (Stream_DataLenPresent f) (stream_header_len f) maxSize) as Hr.
  pose proof (fit_lt (Stream_DataLenPresent f) (stream_header_len f) maxSize
    (len (Stream_Data f)) ltac:(lia) Hm
    ltac:(destruct Hd; lia) Hbig) as Hlt.
  remember (fit _ _ _) as n eqn:En. destruct (Z.eqb_spec n 0) as [E0 | E0]; [by rewrite E0 |].
  specialize (Hlt E0). destruct (Z.ltb_spec (len (Stream_Data f)) n); [lia |].
  cbn [Stream_Data]. unfold is_varint, MaxByteCount in *.
  assert (Hlt1 : len (take_z n (Stream_Data f)) = n) by (apply len_take_z; lia).
  assert (Hlt2 : len (drop_z n (Stream_Data f)) = len (Stream_Data f) - n)
    by (apply len_drop_z; lia).
  rewrite Hlt1, add64_small by lia.
  rewrite <- (take_drop_z n (Stream_Data f)) in Hd. apply small_data_app in Hd as [Ht _].
  split_and!; [apply take_drop_z | | | done | done |].
  - intros E. rewrite E, len_nil in Hlt1. lia.
  - intros E. rewrite E, len_nil in Hlt2. lia.
  - eexists. split.
    + by apply (StreamFrame_Length_with (mkStreamFrame (Stream_StreamID f) false
        (Stream_DataLenPresent f) (Stream_Offset f) [])).
    + cbn [Stream_DataLenPresent]. rewrite Hlt1.
      change (stream_header_len _) with (stream_header_len f).
      destruct Ht. apply fit_spec; lia.
Qed.

Lemma stream_frame_split_witness :
  frame_ok (mkStreamFrame 4 true true 100 [1; 2; 3; 4; 5])
  /\ MaybeSplitOffFrame (mkStreamFrame 4 true true 100 [1; 2; 3; 4; 5]) 8
     = Ok (Some (mkStreamFrame 4 false true 100 [1; 2; 3]), mkStreamFrame 4 true true 103 [4; 5])
  /\ [1; 2; 3] ++ [4; 5] = Stream_Data (mkStreamFrame 4 true true 100 [1; 2; 3; 4; 5]).
Proof.
  assert (Hok : frame_ok (mkStreamFrame 4 true true 100 [1; 2; 3; 4; 5])).
  { unfold frame_ok, StreamFrame_codec, is_varint, maxVarInt8, MaxByteCount.
    cbn [Stream_StreamID Stream_Offset Stream_Data Stream_FinBit].
    split_and!; [lia.. | split; [solve_bytes | vm_compute; reflexivity]
      | vm_compute; discriminate | by right]. }
  pose proof (stream_frame_split _ 8 Hok ltac:(lia)) as H.
  vm_compute (MaybeSplitOffFrame _ _) in H.
  split; [exact Hok | split; [vm_compute; reflexivity | apply H]].
Defined.
