(* ===== verification/FrameParser.v ===== *)
(** * The frame parser (internal/wire/frame_parser.go)

    The [Frame] interface as a sum of the frame types, the dispatch on the type
    byte, and the loop that skips PADDING.  The theorems are proved against the
    class [FrameCodec] of the frame types. *)

From S2P Require Import Prelude Qerr Varint Protocol Frames AckFrame FrameCodec.

Inductive Frame : Type :=
  | Ping
  | Ack (f : AckFrame)
  | ResetStream (f : ResetStreamFrame)
  | StopSending (f : StopSendingFrame)
  | Crypto (f : CryptoFrame)
  | NewToken (f : NewTokenFrame)
  | MaxData (f : MaxDataFrame)
  | MaxStreamData (f : MaxStreamDataFrame)
  | MaxStreams (f : MaxStreamsFrame)
  | DataBlocked (f : DataBlockedFrame)
  | StreamDataBlocked (f : StreamDataBlockedFrame)
  | StreamsBlocked (f : StreamsBlockedFrame)
  | PathChallenge (f : PathChallengeFrame)
  | PathResponse (f : PathResponseFrame)
  | ConnectionClose (f : ConnectionCloseFrame)
  | Stream (f : StreamFrame)
  | AddrMod (f : AddrModFrame)
  | Owd (f : OwdFrame)
  | OwdAck (f : OwdAckFrame).

Section Parser.
Context `{NetLib}.

(** The dynamic dispatch of [Write] and [Length]. *)
Definition Frame_Write (f : Frame) : writes :=
  match f with
  | Ping => PingFrame_Write
  | Ack f => AckFrame_Write f
  | ResetStream f => ResetStreamFrame_Write f
  | StopSending f => StopSendingFrame_Write f
  | Crypto f => CryptoFrame_Write f
  | NewToken f => NewTokenFrame_Write f
  | MaxData f => MaxDataFrame_Write f
  | MaxStreamData f => MaxStreamDataFrame_Write f
  | MaxStreams f => MaxStreamsFrame_Write f
  | DataBlocked f => DataBlockedFrame_Write f
  | StreamDataBlocked f => StreamDataBlockedFrame_Write f
  | StreamsBlocked f => StreamsBlockedFrame_Write f
  | PathChallenge f => PathChallengeFrame_Write f
  | PathResponse f => PathResponseFrame_Write f
  | ConnectionClose f => ConnectionCloseFrame_Write f
  | Stream f => StreamFrame_Write f
  | AddrMod f => AddrModFrame_Write f
  | Owd f => OwdFrame_Write f
  | OwdAck f => OwdAckFrame_Write f
  end.

Definition Frame_Length (f : Frame) : outcome Z :=
  match f with
  | Ping => PingFrame_Length
  | Ack f => AckFrame_Length f
  | ResetStream f => ResetStreamFrame_Length f
  | StopSending f => StopSendingFrame_Length f
  | Crypto f => CryptoFrame_Length f
  | NewToken f => NewTokenFrame_Length f
  | MaxData f => MaxDataFrame_Length f
  | MaxStreamData f => MaxStreamDataFrame_Length f
  | MaxStreams f => MaxStreamsFrame_Length f
  | DataBlocked f => DataBlockedFrame_Length f
  | StreamDataBlocked f => StreamDataBlockedFrame_Length f
  | StreamsBlocked f => StreamsBlockedFrame_Length f
  | PathChallenge f => PathChallengeFrame_Length
  | PathResponse f => PathResponseFrame_Length
  | ConnectionClose f => ConnectionCloseFrame_Length f
  | Stream f => StreamFrame_Length f
  | AddrMod f => AddrModFrame_Length f
  | Owd f => OwdFrame_Length f
  | OwdAck f => OwdAckFrame_Length f
  end.

Definition as_frame {A} (c : A -> Frame) (m : reader A) : reader Frame := a ← m; mret (c a).

(** [qerr.Error(qerr.InvalidFrameData, err.Error())] *)
Definition invalid_frame_data (m : reader Frame) : reader Frame := fun r =>
  match m r with
  | Err e => Err (QuicError InvalidFrameData (MsgOf e))
  | o => o
  end.

Definition parse_by_type (typeByte : Z) : reader Frame :=
  match typeByte with
  | 0x1 => as_frame (fun _ => Ping) parsePingFrame
  | 0x2 | 0x3 => as_frame Ack parseAckFrame
  | 0x4 => as_frame ResetStream parseResetStreamFrame
  | 0x5 => as_frame StopSending parseStopSendingFrame
  | 0x6 => as_frame Crypto parseCryptoFrame
  | 0x7 => as_frame NewToken parseNewTokenFrame
  | 0x10 => as_frame MaxData parseMaxDataFrame
  | 0x11 => as_frame MaxStreamData parseMaxStreamDataFrame
  | 0x12 | 0x13 => as_frame MaxStreams parseMaxStreamsFrame
  | 0x14 => as_frame DataBlocked parseDataBlockedFrame
  | 0x15 => as_frame StreamDataBlocked parseStreamDataBlockedFrame
  | 0x16 | 0x17 => as_frame StreamsBlocked parseStreamsBlockedFrame
  | 0x1a => as_frame PathChallenge parsePathChallengeFrame
  | 0x1b => as_frame PathResponse parsePathResponseFrame
  | 0x1c | 0x1d => as_frame ConnectionClose parseConnectionCloseFrame
  | 0xf1 => as_frame AddrMod parseAddrModFrame
  | 0xf2 => as_frame Owd parseOwdFrame
  | 0xf3 => as_frame OwdAck parseOwdAckFrame
  | _ => fail (Errorf "unknown type byte 0x%x" [typeByte])
  end.

Definition parseFrame (typeByte : Z) : reader Frame :=
  invalid_frame_data
    (if Z.land typeByte 0xf8 =? 0x8 then as_frame Stream parseStreamFrame
     else parse_by_type typeByte).

(** [None] is the return of two nils at the end of the payload. *)
Fixpoint ParseNextFrame (r : list Z) : outcome (option Frame * list Z) :=
  match r with
  | [] => Ok (None, [])
  | typeByte :: r' =>
      if typeByte =? 0x0 then ParseNextFrame r'
      else '(f, rest) ← parseFrame typeByte r; Ok (Some f, rest)
  end.
End Parser.

(** ** Frames that can be sent *)

Section Properties.
Context `{Net : NetLib} {P : UDPAddr -> Prop} {Laws : NetLibLaws P}.

Definition sendable (f : Frame) : Prop :=
  match f with
  | Ping => True
  | Ack f => ack_wf f
  | ResetStream f => frame_ok f
  | StopSending f => frame_ok f
  | Crypto f => frame_ok f
  | NewToken f => frame_ok f
  | MaxData f => frame_ok f
  | MaxStreamData f => frame_ok f
  | MaxStreams f => frame_ok f
  | DataBlocked f => frame_ok f
  | StreamDataBlocked f => frame_ok f
  | StreamsBlocked f => frame_ok f
  | PathChallenge f => frame_ok f
  | PathResponse f => frame_ok f
  | ConnectionClose f => frame_ok f
  | Stream f => frame_ok f
  | AddrMod f => is_u8 (AddrMod_operation f) /\ is_u8 (AddrMod_addressVersion f)
      /\ P (AddrMod_address f)
  | Owd f => frame_ok f
  | OwdAck f => is_u32 (OwdAck_pathID f) /\ is_varint (OwdAck_owd f)
  end.

(** Only a STREAM frame without a length field extends to the end. *)
Definition followed_by (f : Frame) (rest : list Z) : Prop :=
  match f with Stream f => frame_rest f rest | _ => True end.

(** The frame the peer sees: an ACK frame can lose its last ranges and the
    precision of its delay. *)
Definition received (f f' : Frame) : Prop :=
  match f, f' with
  | Ack a, Ack a' =>
      (exists n, (1 <= n <= length (AckRanges a))%nat
        /\ ((length (AckRanges a) <= 62)%nat -> n = length (AckRanges a))
        /\ AckRanges a' = take n (AckRanges a))
      /\ DelayTime a' = DelayTime a / 8000 * 8000
  | _, _ => f' = f
  end.

Definition is_OwdAck (f : Frame) : bool := match f with OwdAck _ => true | _ => false end.
Definition is_AddrMod (f : Frame) : bool := match f with AddrMod _ => true | _ => false end.

(** [Write] of [f] gives bytes that are parsed as [f'] in front of [rest]. *)
Definition transmits (f f' : Frame) (rest : list Z) : Prop :=
  exists bs, Frame_Write f = Ok bs /\ bytes bs /\ bs <> []
    /\ (is_AddrMod f = false -> Frame_Length f = Ok (len bs))
    /\ ParseNextFrame (bs ++ rest) = Ok (Some f', rest).

(** The parser reaches [p] for the type byte [t]. *)
Definition dispatches {A} (t : Z) (c : A -> Frame) (p : reader A) : Prop :=
  is_byte t /\ t <> 0 /\ parseFrame t = invalid_frame_data (as_frame c p).

Lemma parse_dispatched {A} t (c : A -> Frame) p bs a rest :
  dispatches t c p -> p (t :: bs) = Ok (a, rest) ->
  ParseNextFrame (t :: bs) = Ok (Some (c a), rest).
Proof.
  intros (_ & Ht & Hd) Hp. cbn [ParseNextFrame]. destruct (Z.eqb_spec t 0); [done |].
  rewrite Hd. unfold invalid_frame_data, as_frame. by erewrite reader_bind_step by apply Hp.
Qed.

Lemma codec_transmits {A} `{FrameCodecLaws A} (c : A -> Frame) a rest :
  dispatches (frame_tag a) c frame_parse ->
  Frame_Write (c a) = frame_Write a -> Frame_Length (c a) = frame_Length a ->
  frame_ok a -> frame_rest a rest -> transmits (c a) (c a) rest.
Proof.
  intros Hd HW HL Hok Hr. destruct (codec_roundtrip a Hok) as (bs & Ew & Hb & El & Hp).
  exists (frame_tag a :: bs). rewrite HW, HL, Ew, El, len_cons. split_and!; try done.
  - apply bytes_cons. split; [apply Hd | done].
  - by apply (parse_dispatched _ c frame_parse); [| apply Hp].
Qed.

Lemma AddrMod_transmits f rest : sendable (AddrMod f) -> transmits (AddrMod f) (AddrMod f) rest.
Proof.
  intros (Ho & Hv & Ha). destruct f as [op ver addr]. cbn in *.
  pose proof (resolve_string addr Ha) as Hres. pose proof (string_bytes addr Ha) as Hb.
  pose proof (string_short addr Ha) as Hs. pose proof (len_nonneg (UDPAddr_String addr)).
  assert (is_varint op /\ is_varint ver /\ is_varint (len (UDPAddr_String addr)))
    as (V1 & V2 & V3) by (unfold is_varint, maxVarInt8, is_u8 in *; lia).
  eexists. cbn [Frame_Write is_AddrMod]. unfold AddrModFrame_Write.
  cbn [AddrMod_operation AddrMod_addressVersion AddrMod_address].
  split; [write_step; reflexivity |]. split_and!; [| done | done |].
  - rewrite bytes_cons. split; [unfold is_byte; lia |]. solve_bytes_of.
  - cbn [app]. apply (parse_dispatched _ AddrMod parseAddrModFrame); [by repeat split |].
    unfold parseAddrModFrame. read_steps. unfold make_bytes, maxAlloc.
    destruct (Z.ltb_spec (2 ^ 48) (len (UDPAddr_String addr))); [lia |].
    rewrite ret_step, ReadFull_step by done.
    erewrite reader_bind_step by (unfold lift; rewrite Hres; reflexivity).
    by rewrite !u8_small.
Qed.

Lemma Ack_transmits f rest : ack_wf f -> exists f', received (Ack f) (Ack f') /\ transmits (Ack f) (Ack f') rest.
Proof.
  intros Hwf. destruct (ack_roundtrip f rest Hwf) as (bs & n & Hw & Hb & Hl & Hn & Hall & Hp).
  exists (mkAckFrame (take n (AckRanges f)) (DelayTime f / 8000 * 8000)).
  split; [split; [exists n; auto | done] |]. exists (0x2 :: bs).
  cbn [Frame_Write Frame_Length]. split_and!; [done | | done | done |].
  - apply bytes_cons. split; [unfold is_byte; lia | done].
  - apply (parse_dispatched _ Ack parseAckFrame); [by repeat split | done].
Qed.

(** ** Properties *)

(** Every frame but OWD_ACK is transmitted. *)
Lemma frame_transmits f rest :
  sendable f -> is_OwdAck f = false -> followed_by f rest ->
  exists f', received f f' /\ transmits f f' rest.
Proof.
  intros Hs Ho Hr. destruct f; try discriminate Ho;
    try by (eexists; split; [| apply codec_transmits; (done || by repeat split)]).
  - exists Ping. split; [done |]. exists [0x1]. split_and!; (done || solve_bytes).
  - destruct (Ack_transmits f rest Hs) as (f' & ? & ?). eauto.
  - exists (MaxStreams f). split; [done |]. apply codec_transmits; try done.
    destruct f as [[] n]; by repeat split.
  - exists (StreamsBlocked f). split; [done |]. apply codec_transmits; try done.
    destruct f as [[] n]; by repeat split.
  - exists (ConnectionClose f). split; [done |]. apply codec_transmits; try done.
    destruct f as [[] ? ?]; by repeat split.
  - exists (Stream f). split; [done |]. apply codec_transmits; try done.
    destruct (typeByte_flags f) as (_ & _ & _ & E8 & E0). split_and!; [| done |].
    + apply is_byte_typeByte.
    + unfold parseFrame. cbn [frame_tag StreamFrame_codec]. by rewrite E8.
  - exists (AddrMod f). split; [done | by apply AddrMod_transmits].
Qed.


Lemma OwdAck_transmits f rest : sendable (OwdAck f) ->
  transmits (OwdAck f) (Owd (mkOwdFrame (OwdAck_pathID f) (OwdAck_owd f))) rest.
Proof.
  intros [Hp Ho]. destruct f as [id owd].
  assert (Hok : frame_ok (mkOwdFrame id owd)) by (by split).
  destruct (codec_roundtrip (mkOwdFrame id owd) Hok) as (bs & Ew & Hb & El & Hr).
  exists (0xf2 :: bs). split_and!; [exact Ew | | done | | ].
  - apply bytes_cons. split; [unfold is_byte; lia | done].
  - intros _. rewrite len_cons. exact El.
  - apply (parse_dispatched _ Owd parseOwdFrame); [by repeat split | by apply Hr].
Qed.

(** What the peer parses: an OWD_ACK is taken for an OWD frame. *)
Definition seen (f f' : Frame) : Prop :=
  match f with
  | OwdAck f => f' = Owd (mkOwdFrame (OwdAck_pathID f) (OwdAck_owd f))
  | _ => received f f'
  end.

Lemma frame_seen f rest : sendable f -> followed_by f rest -> exists f', seen f f' /\ transmits f f' rest.
Proof.
  intros Hs Hr. destruct (is_OwdAck f) eqn:Eo.
  - destruct f; try done. eexists. split; [done |]. by apply OwdAck_transmits.
  - destruct (frame_transmits f rest Hs Eo Hr) as (f' & Hf & Ht). exists f'. split; [| done]. by destruct f.
Qed.

(** An OWD_ACK frame is written with the type byte of OWD, so the peer
    reads it as an OWD frame whose time is the measured delay. *)
Theorem owd_ack_read_as_owd f rest : sendable (OwdAck f) ->
  transmits (OwdAck f) (Owd (mkOwdFrame (OwdAck_pathID f) (OwdAck_owd f))) rest.
Proof. apply OwdAck_transmits. Qed.

Lemma index_lengths n acc : (n <= 64)%nat -> 0 <= acc < 2 ^ 60 ->
  foldl (fun length i => l ← length; n ← VarIntLen (Z.of_nat i); Ok (l +64 n))
    (Ok acc) (seq 0 n) = Ok (acc + Z.of_nat n).
Proof.
  intros Hn Ha. induction n as [| n IH]; [cbn; f_equal; lia |].
  rewrite seq_S, foldl_app, IH by lia. cbn [foldl mbind outcome_bind].
  rewrite VarIntLen_vlen by (unfold is_varint, maxVarInt8; lia).
  unfold vlen, maxVarInt1. destruct (Z.leb_spec (Z.of_nat (0 + n)) 63); [| lia].
  cbn [mbind outcome_bind]. norm64. f_equal. lia.
Qed.

(** [Length] of an ADDR_MOD frame is two bytes too small: it leaves out the
    type byte and the length of the address. *)
Theorem addr_mod_length_short f : sendable (AddrMod f) ->
  exists bs, AddrModFrame_Write f = Ok bs /\ AddrModFrame_Length f = Ok (len bs - 2).
Proof.
  intros (Ho & Hv & Ha). destruct f as [op ver addr]. cbn in Ho, Hv, Ha.
  pose proof (string_short addr Ha) as Hs. pose proof (len_nonneg (UDPAddr_String addr)).
  assert (is_varint op /\ is_varint ver /\ is_varint (len (UDPAddr_String addr)))
    as (V1 & V2 & V3) by (unfold is_varint, maxVarInt8, is_u8 in *; lia).
  unfold AddrModFrame_Write, AddrModFrame_Length.
  cbn [AddrMod_operation AddrMod_addressVersion AddrMod_address].
  eexists. split; [write_step; reflexivity |]. write_step. len_of_bytes. norm64.
  rewrite index_lengths by (unfold len in *; lia). f_equal.
  assert (vlen (len (UDPAddr_String addr)) = 1)
    by (unfold vlen, maxVarInt1; case_cmp; lia).
  unfold len in *. lia.
Qed.

(** ** Arbitrary input *)

(** The parsers that cannot panic: all but the one of ADDR_MOD. *)
Definition frame_valid (f : Frame) : Prop :=
  match f with Ack a => ack_ranges_ok a | _ => True end.

Lemma safe1_as_frame {A} (c : A -> Frame) (m : reader A) (Q : A -> Prop) :
  safe1 m Q -> (forall a, Q a -> frame_valid (c a)) -> safe1 (as_frame c m) frame_valid.
Proof. intros Hm Hc. eapply safe1_bind; [done |]. intros a Ha. by apply safe_ret, Hc. Qed.

Lemma safe1_fail {A} e (Q : A -> Prop) : safe1 (fail e) Q.
Proof. done. Qed.

Lemma safe1_codec {A} `{FrameCodecLaws A} (c : A -> Frame) :
  (forall a, frame_valid (c a)) -> safe1 (as_frame c frame_parse) frame_valid.
Proof. intros Hc. eapply safe1_as_frame; [apply codec_safe |]. intros a _. apply Hc. Qed.

Lemma safe1_parseOwdAckFrame : safe1 parseOwdAckFrame (fun _ => True).
Proof. unfold parseOwdAckFrame. repeat safe_step. done. Qed.

Lemma parse_by_type_safe t : t <> 0xf1 -> safe1 (parse_by_type t) frame_valid.
Proof.
  intros Ht. unfold parse_by_type. repeat (case_match; try apply safe1_fail; try done).
  all: lazymatch goal with
  | |- safe1 (as_frame Ack _) _ =>
      eapply safe1_as_frame; [apply safe_parseAckFrame | by intros]
  | |- safe1 (as_frame OwdAck _) _ =>
      eapply safe1_as_frame; [apply safe1_parseOwdAckFrame | by intros]
  | |- safe1 (as_frame AddrMod _) _ => by contradiction Ht
  | |- safe1 (as_frame _ parsePingFrame) _ =>
      apply (safe1_as_frame _ _ (fun _ => True)); [| by intros];
      unfold parsePingFrame; repeat safe_step; done
  | |- safe1 (as_frame ?c _) _ => pose proof (safe1_codec c) as Hc; by apply Hc
  end.
Qed.

Lemma parseFrame_safe t : t <> 0xf1 -> safe1 (parseFrame t) frame_valid.
Proof.
  intros Ht. unfold parseFrame.
  assert (Hs : safe1 (if Z.land t 0xf8 =? 0x8 then as_frame Stream parseStreamFrame
                      else parse_by_type t) frame_valid).
  { pose proof (safe1_codec Stream) as Hc.
    case_match; [by apply Hc | by apply parse_by_type_safe]. }
  revert Hs. generalize (if Z.land t 0xf8 =? 0x8 then as_frame Stream parseStreamFrame
                         else parse_by_type t). intros m [H0 Hs].
  unfold invalid_frame_data. split; [by destruct (m []) |].
  intros b r Hr. specialize (Hs b r Hr). by destruct (m (b :: r)).
Qed.

(** What a parse leaves when it succeeds, also in an ADDR_MOD frame. *)
Lemma ReadVarInt_suffix r i r' : bytes r -> ReadVarInt r = Ok (i, r') ->
  0 <= i /\ suffix r' r /\ bytes r'.
Proof.
  intros Hr E. apply ReadVarInt_sound in E as (Hi & bs & -> & Hb & _); [| done].
  split_and!; [apply Hi | by exists bs | done].
Qed.

Lemma parseAddrModFrame_suffix b r f r' : bytes (b :: r) ->
  parseAddrModFrame (b :: r) = Ok (f, r') -> suffix r' r.
Proof.
  intros [_ Hr]%bytes_cons E. unfold parseAddrModFrame in E. rewrite ReadByte_step in E.
  apply reader_bind_Ok in E as (mt & r1 & E1 & E).
  apply ReadVarInt_suffix in E1 as (_ & S1 & B1); [| done].
  apply reader_bind_Ok in E as (av & r2 & E2 & E).
  apply ReadVarInt_suffix in E2 as (_ & S2 & B2); [| done].
  apply reader_bind_Ok in E as (n & r3 & E3 & E).
  apply ReadVarInt_suffix in E3 as (Hn & S3 & B3); [| done].
  apply reader_bind_Ok in E as ([] & r4 & E4 & E). unfold make_bytes in E4.
  case_match; [done |]. injection E4 as <-.
  apply reader_bind_Ok in E as (addr & r5 & E5 & E).
  pose proof (safe_ReadFull n Hn r3 B3) as Hs. rewrite E5 in Hs. destruct Hs as [_ S5].
  unfold lift in E. apply reader_bind_Ok in E as (a & r6 & E6 & E).
  apply outcome_bind_Ok in E6 as (a' & _ & [= -> <-]). injection E as _ <-.
  by transitivity r3; [| transitivity r2; [| transitivity r1]].
Qed.

Lemma parseFrame_error t r e : parseFrame t r = Err e ->
  exists e', e = QuicError InvalidFrameData (MsgOf e').
Proof. unfold parseFrame, invalid_frame_data. case_match; intros [= <-]. eauto. Qed.

Lemma parseFrame_shrinks b r f r' : bytes (b :: r) -> parseFrame b (b :: r) = Ok (f, r') ->
  frame_valid f /\ suffix r' r.
Proof.
  intros Hr E. destruct (decide (b = 0xf1)) as [-> | Hne].
  - unfold parseFrame, invalid_frame_data in E. cbn -[parseAddrModFrame] in E.
    unfold as_frame in E. case_match eqn:E'; simplify_eq.
    apply reader_bind_Ok in E' as (a & r1 & E1 & [= <- <-]).
    split; [done | by eapply parseAddrModFrame_suffix].
  - destruct (parseFrame_safe b Hne) as [_ Hs]. specialize (Hs b r Hr). by rewrite E in Hs.
Qed.

(** The parser on arbitrary bytes. *)
Lemma next_frame_safe r : bytes r ->
  match ParseNextFrame r with
  | Ok (None, r') => r' = [] /\ r = replicate (length r) 0x0
  | Ok (Some f, r') => frame_valid f /\ suffix r' r /\ (length r' < length r)%nat
  | Err e => exists e', e = QuicError InvalidFrameData (MsgOf e')
  | Panic _ => exists k r', r = replicate k 0x0 ++ 0xf1 :: r'
  end.
Proof.
  induction r as [| b r IH]; intros Hr; [done |]. cbn [ParseNextFrame].
  destruct (Z.eqb_spec b 0) as [-> | Hb0].
  - pose proof Hr as [_ Hr']%bytes_cons. specialize (IH Hr').
    destruct (ParseNextFrame r) as [[[f |] r'] | e | s]; [| | done |].
    + destruct IH as (? & ? & ?). split_and!; [done | by apply suffix_cons_r | cbn; lia].
    + destruct IH as [? E]. split; [done |]. cbn [length replicate]. congruence.
    + destruct IH as (k & r' & ->). by exists (S k), r'.
  - destruct (parseFrame b (b :: r)) as [[f r'] | e | s] eqn:E; cbn.
    + apply parseFrame_shrinks in E as [Hf Hs]; [| done].
      split_and!; [done | by apply suffix_cons_r |]. apply suffix_length in Hs. lia.
    + by apply parseFrame_error in E.
    + destruct (decide (b = 0xf1)) as [-> | Hne]; [by exists 0%nat, r |].
      destruct (parseFrame_safe b Hne) as [_ Hs]. specialize (Hs b r Hr). by rewrite E in Hs.
Qed.

(** Parsing arbitrary bytes does not panic, except in an ADDR_MOD frame;
    every error is reported as InvalidFrameData; a frame that is accepted has
    consumed at least its type byte, so that the loop over a payload ends, and
    what is left is the end of the input; an accepted ACK frame has valid
    ranges. *)
Theorem ParseNextFrame_safe r : bytes r ->
  match ParseNextFrame r with
  | Ok (None, r') => r' = [] /\ r = replicate (length r) 0x0
  | Ok (Some f, r') => frame_valid f /\ suffix r' r /\ (length r' < length r)%nat
  | Err e => exists e', e = QuicError InvalidFrameData (MsgOf e')
  | Panic _ => exists k r', r = replicate k 0x0 ++ 0xf1 :: r'
  end.
Proof. apply next_frame_safe. Qed.

(** An ADDR_MOD frame that announces an address longer than the largest
    allocation makes the parser panic, although the announced bytes are not
    there. *)
Theorem addr_mod_oversized_panics n rest : maxAlloc < n -> is_varint n ->
  exists msg, ParseNextFrame (0xf1 :: 0x1 :: 0x4 :: varint_bytes n ++ rest) = Panic msg.
Proof.
  intros Hn Hv. eexists. change (ParseNextFrame ?r) with
    ('(f, rest) ← parseFrame 0xf1 r; Ok (Some f, rest)).
  change (parseFrame 0xf1) with (invalid_frame_data (as_frame AddrMod parseAddrModFrame)).
  unfold invalid_frame_data, as_frame, parseAddrModFrame.
  unfold mbind at 2, reader_bind at 1. rewrite ReadByte_step.
  change (0x1 :: 0x4 :: ?r) with (varint_bytes 1 ++ varint_bytes 4 ++ r).
  rewrite !ReadVarInt_step by (done || (unfold is_varint, maxVarInt8; lia)).
  unfold make_bytes. destruct (Z.ltb_spec maxAlloc n); [reflexivity | lia].
Qed.
End Properties.

(** ** A concrete package net

    Two addresses and their text forms. *)
Definition loopback : UDPAddr := mkUDPAddr [127; 0; 0; 1] 443.
Definition loopback_text : list Z := [49; 50; 55; 46; 48; 46; 48; 46; 49; 58; 52; 52; 51].

#[export] Instance UDPAddr_eq_dec : EqDecision UDPAddr.
Proof. solve_decision. Defined.

Definition loopback_net : NetLib := {|
  UDPAddr_String a := if decide (a = loopback) then loopback_text else [];
  ResolveUDPAddr text :=
    if decide (text = loopback_text) then Ok loopback
    else Err (Errorf "missing address" []) |}.

#[export] Instance loopback_laws : @NetLibLaws loopback_net (fun a => a = loopback).
Proof.
  split; intros a ->; [done | | done].
  change (bytes loopback_text). unfold loopback_text. solve_bytes.
Qed.

Lemma owd_ack_read_as_owd_witness :
  @transmits loopback_net (OwdAck (mkOwdAckFrame 7 1234)) (Owd (mkOwdFrame 7 1234)) [0x1].
Proof.
  apply (@owd_ack_read_as_owd loopback_net (fun a => a = loopback) (mkOwdAckFrame 7 1234)).
  unfold sendable, is_u32, is_varint, maxVarInt8. cbn. lia.
Defined.

Lemma addr_mod_oversized_panics_witness :
  exists msg, @ParseNextFrame loopback_net (0xf1 :: 0x1 :: 0x4 :: varint_bytes (2 ^ 61) ++ [])
              = Panic msg.
Proof.
  apply (@addr_mod_oversized_panics loopback_net); unfold maxAlloc, is_varint, maxVarInt8; lia.
Defined.

Lemma addr_mod_length_short_witness :
  exists bs, @AddrModFrame_Write loopback_net (mkAddrModFrame AddFrame IPv4 loopback) = Ok bs
    /\ @AddrModFrame_Length loopback_net (mkAddrModFrame AddFrame IPv4 loopback) = Ok (len bs - 2).
Proof.
  apply (@addr_mod_length_short loopback_net (fun a => a = loopback) loopback_laws).
  unfold sendable, is_u8, AddFrame, IPv4. cbn. split_and!; (done || lia).
Defined.


Lemma ParseNextFrame_safe_witness :
  bytes [0x0; 0x10; 0x25; 0x1]
  /\ @ParseNextFrame loopback_net [0x0; 0x10; 0x25; 0x1]
     = Ok (Some (MaxData (mkMaxDataFrame 0x25)), [0x1])
  /\ suffix [0x1] [0x0; 0x10; 0x25; 0x1].
Proof.
  assert (Hb : bytes [0x0; 0x10; 0x25; 0x1]) by solve_bytes.
  pose proof (@ParseNextFrame_safe loopback_net _ Hb) as H.
  vm_compute (ParseNextFrame _) in H. split; [done |].
  split; [vm_compute; reflexivity | apply H].
Defined.
