(* ===== verification/FrameSorter.v ===== *)
(** * The frame sorter (frame_sorter.go)

    Puts the data of STREAM and CRYPTO frames, which arrive in any order and
    with overlaps, into the order of the stream.  The state has the queued
    chunks by offset and the list of the gaps, the intervals that have not been
    received; the handles [gap] and [endGap] into the list are positions in it.
    The theorems relate the sorter to the content of the stream. *)

From S2P Require Import Prelude Protocol.

Record ByteInterval : Type := mkByteInterval { Start : Z; End : Z }.

Record frameSorter : Type := mkFrameSorter {
  queue : gmap Z (list Z);
  readPos : Z;
  finalOffset : Z;
  gaps : list ByteInterval }.

Definition errDuplicateStreamData : go_error := Errorf "Duplicate Stream Data" [].
Definition errNoGap : go_error := Errorf "StreamFrameSorter BUG: no gap found" [].
Definition errNoEndGap : go_error := Errorf "StreamFrameSorter BUG: no end gap found" [].
Definition errTooManyGaps : go_error := Errorf "Too many gaps in received data" [].

Definition newFrameSorter : frameSorter :=
  mkFrameSorter ∅ 0 MaxByteCount [mkByteInterval 0 MaxByteCount].

Definition with_gaps (s : frameSorter) (q : gmap Z (list Z)) (gs : list ByteInterval) : frameSorter :=
  mkFrameSorter q (readPos s) (finalOffset s) gs.

(** The first loop: skip the gaps before the frame. *)
Inductive gap_search : Type :=
  | GapDuplicate
  | GapNone
  | GapAt (before : list ByteInterval) (gap : ByteInterval) (after : list ByteInterval).

Fixpoint find_gap (start end_ : Z) (before gs : list ByteInterval) : gap_search :=
  match gs with
  | [] => GapNone
  | gap :: gs =>
      if end_ <=? Start gap then GapDuplicate
      else if (Start gap <? end_) && (start <=? End gap) then GapAt before gap gs
      else find_gap start end_ (before ++ [gap]) gs
  end.

(** Where [endGap] is: the gap itself, a later gap, or a later gap that has been
    removed from the list. *)
Inductive end_pos : Type := AtGap | Later | Removed.

(** The second loop, from the gap [cur] with [rest] behind it. *)
Inductive end_search : Type :=
  | EndNone (kept : list ByteInterval)
  | EndAt (q : gmap Z (list Z)) (endGap : ByteInterval) (pos : end_pos) (rest : list ByteInterval).

Fixpoint find_end_gap (end_ : Z) (q : gmap Z (list Z)) (cur : ByteInterval) (isGap : bool)
    (rest : list ByteInterval) {struct rest} : gmap Z (list Z) * end_search :=
  if End cur <=? end_ then
    match rest with
    | [] => (q, EndNone (if isGap then [] else [cur]))
    | nextEndGap :: rest' =>
        if end_ <=? Start nextEndGap then
          (q, EndAt q cur (if isGap then AtGap else Removed) rest)
        else find_end_gap end_ (delete (End cur) q) nextEndGap false rest'
    end
  else (q, EndAt q cur (if isGap then AtGap else Later) rest).

(** The gaps that replace [gap] and [endGap] once the frame [start, end) has
    been put in. *)
Definition fill_gaps (gap endGap : ByteInterval) (pos : end_pos) (start end_ : Z)
    : list ByteInterval :=
  let later := match pos with Later => [endGap] | _ => [] end in
  let laterFrom := match pos with Later => [mkByteInterval end_ (End endGap)] | _ => [] end in
  if start =? Start gap then
    if End gap <=? end_ then
      if end_ <? End endGap then laterFrom else later
    else
      match pos with
      | AtGap => [mkByteInterval end_ (End gap)]
      | _ => gap :: (if end_ <? End endGap then laterFrom else later)
      end
  else if end_ =? End endGap then mkByteInterval (Start gap) start :: later
  else
    match pos with
    | AtGap => [mkByteInterval (Start gap) start; mkByteInterval end_ (End gap)]
    | _ => mkByteInterval (Start gap) start :: laterFrom
    end.

(** The part of [push] behind the look-up of a chunk at the same offset.
    [wasCut] only decides whether the data is copied. *)
Definition push_gaps (s : frameSorter) (data : list Z) (offset : Z)
    : frameSorter * option go_error :=
  let start := offset in
  let end_ := offset +64 len data in
  match find_gap start end_ [] (gaps s) with
  | GapDuplicate => (s, Some errDuplicateStreamData)
  | GapNone => (s, Some errNoGap)
  | GapAt before gap after =>
      let add := if start <? Start gap then Start gap -64 start else 0 in
      let start := start +64 add in
      let data := drop_z add data in
      match find_end_gap end_ (queue s) gap true after with
      | (q, EndNone kept) => (with_gaps s q (before ++ gap :: kept), Some errNoEndGap)
      | (_, EndAt q endGap pos rest) =>
          let cutLen := if End endGap <? end_ then end_ -64 End endGap else 0 in
          let data := take_z (len data -64 cutLen) data in
          let end_ := end_ -64 cutLen in
          let gs := before ++ fill_gaps gap endGap pos start end_ ++ rest in
          if MaxStreamFrameSorterGaps <? len gs then
            (with_gaps s q gs, Some errTooManyGaps)
          else (with_gaps s (<[start := data]> q) gs, None)
      end
  end.

Definition push (s : frameSorter) (data : list Z) (offset : Z) (fin : bool)
    : frameSorter * option go_error :=
  let s := if fin then mkFrameSorter (queue s) (readPos s) (offset +64 len data) (gaps s) else s in
  if len data =? 0 then (s, None) else
  match queue s !! offset with
  | Some oldData =>
      if len data <=? len oldData then (s, Some errDuplicateStreamData)
      else push_gaps s (drop_z (len oldData) data) (offset +64 len oldData)
  | None => push_gaps s data offset
  end.

Definition is_duplicate (e : option go_error) : bool :=
  match e with
  | Some (Errorf msg []) => bool_decide (msg = "Duplicate Stream Data"%string)
  | _ => false
  end.

Definition Push (s : frameSorter) (data : list Z) (offset : Z) (fin : bool)
    : frameSorter * option go_error :=
  let '(s', err) := push s data offset fin in
  if is_duplicate err then (s', None) else (s', err).

Definition Pop (s : frameSorter) : option (list Z) * bool * frameSorter :=
  match queue s !! readPos s with
  | None => (None, finalOffset s <=? readPos s, s)
  | Some data =>
      let readPos' := readPos s +64 len data in
      (Some data, finalOffset s <=? readPos',
       mkFrameSorter (delete (readPos s) (queue s)) readPos' (finalOffset s) (gaps s))
  end.

Definition HasMoreData (s : frameSorter) : bool := (0 <? size (queue s))%nat.

(** ** Slices of the stream *)

Section Content.
Context (c : Z -> Z).

(** The bytes [a, a + n) of the stream. *)
Definition slice (a n : Z) : list Z := (fun i => c (a + Z.of_nat i)) <$> seq 0 (Z.to_nat n).

Lemma len_slice a n : 0 <= n -> len (slice a n) = n.
Proof. intros Hn. unfold len, slice. rewrite length_fmap, length_seq. lia. Qed.

Lemma slice_lookup a n i : slice a n !! i = if decide (Z.of_nat i < n) then Some (c (a + Z.of_nat i)) else None.
Proof.
  unfold slice. rewrite list_lookup_fmap. case_decide.
  - rewrite lookup_seq_lt by lia. done.
  - rewrite lookup_seq_ge by lia. done.
Qed.

Lemma take_slice a n m : 0 <= n <= m -> take_z n (slice a m) = slice a n.
Proof.
  intros H. apply list_eq. intros i. unfold take_z. rewrite lookup_take, !slice_lookup.
  repeat case_decide; (done || lia).
Qed.

Lemma drop_slice a n m : 0 <= n <= m -> drop_z n (slice a m) = slice (a + n) (m - n).
Proof.
  intros H. apply list_eq. intros i. unfold drop_z. rewrite lookup_drop, !slice_lookup.
  repeat case_decide; try lia; [| done]. do 2 f_equal. lia.
Qed.

Lemma slice_app a m n : 0 <= m -> 0 <= n -> slice a m ++ slice (a + m) n = slice a (m + n).
Proof.
  intros Hm Hn. rewrite <- (take_drop_z m (slice a (m + n))).
  rewrite take_slice, drop_slice by lia. by replace (m + n - m) with n by lia.
Qed.

(** ** The invariant *)

(** The queued chunks lead from [a] to [b]. *)
Inductive reach (q : gmap Z (list Z)) : Z -> Z -> Prop :=
  | reach_refl a : reach q a a
  | reach_step a d b : q !! a = Some d -> d <> [] -> reach q (a + len d) b -> reach q a b.

Definition in_gap (x : Z) (g : ByteInterval) : Prop := Start g <= x < End g.
Definition missing (gs : list ByteInterval) (x : Z) : Prop := Exists (in_gap x) gs.

(** The chunks lead from [lo] to the first gap, and from each gap to the next;
    the last gap ends at MaxByteCount.  [strict] says that there is at least
    one byte between [lo] and the first gap. *)
Fixpoint tiled (q : gmap Z (list Z)) (strict : bool) (lo : Z) (gs : list ByteInterval) : Prop :=
  match gs with
  | [] => lo = MaxByteCount
  | g :: gs => (strict = true -> lo < Start g) /\ reach q lo (Start g) /\ Start g < End g
               /\ tiled q true (End g) gs
  end.

(** Every chunk is a part of the stream that has been received. *)
Definition entries_ok (q : gmap Z (list Z)) (gs : list ByteInterval) : Prop :=
  forall k d, q !! k = Some d ->
    d <> [] /\ 0 <= k /\ k + len d < MaxByteCount /\ d = slice k (len d)
    /\ forall x, k <= x < k + len d -> ~ missing gs x.

Definition sorter_inv (s : frameSorter) : Prop :=
  0 <= readPos s /\ gaps s <> [] /\ tiled (queue s) false (readPos s) (gaps s)
  /\ entries_ok (queue s) (gaps s).

Lemma nonempty_len (d : list Z) : d <> [] -> 0 < len d.
Proof. destruct d; [done |]. rewrite len_cons. pose proof (len_nonneg d). lia. Qed.

Lemma reach_le q a b : reach q a b -> a <= b.
Proof. induction 1 as [| a d b _ Hne _ IH]; [lia |]. apply nonempty_len in Hne. lia. Qed.

Lemma reach_trans q a b z : reach q a b -> reach q b z -> reach q a z.
Proof. induction 1; [done |]. intros. econstructor; eauto. Qed.

Lemma reach_agree q q' a b : reach q a b ->
  (forall k, a <= k < b -> q' !! k = q !! k) -> reach q' a b.
Proof.
  induction 1 as [| a d b Hk Hne Hr IH]; intros Ha; [constructor |].
  pose proof (nonempty_len d Hne). pose proof (reach_le _ _ _ Hr).
  apply (reach_step _ a d); [by rewrite Ha by lia | done |]. apply IH. intros k Hk'. apply Ha. lia.
Qed.

Lemma reach_strict q a b : reach q a b -> a < b -> is_Some (q !! a).
Proof. intros Hr Hlt. inversion Hr; subst; [lia | eauto]. Qed.

(** ** Splitting the list of gaps *)

Fixpoint tiled_before (q : gmap Z (list Z)) (strict : bool) (lo : Z) (gs : list ByteInterval) : Prop :=
  match gs with
  | [] => True
  | g :: gs => (strict = true -> lo < Start g) /\ reach q lo (Start g) /\ Start g < End g
               /\ tiled_before q true (End g) gs
  end.

Definition end_of (lo : Z) (gs : list ByteInterval) : Z :=
  match last gs with Some g => End g | None => lo end.

Definition strict_after (strict : bool) (gs : list ByteInterval) : bool :=
  match gs with [] => strict | _ => true end.

Lemma end_of_cons lo g gs : end_of lo (g :: gs) = end_of (End g) gs.
Proof. unfold end_of. rewrite last_cons. by destruct (last gs). Qed.

Lemma tiled_app q strict lo before gs :
  tiled q strict lo (before ++ gs)
  <-> tiled_before q strict lo before
      /\ tiled q (strict_after strict before) (end_of lo before) gs.
Proof.
  revert strict lo. induction before as [| g before IH]; intros strict lo; [by cbn; tauto |].
  cbn [app tiled tiled_before]. rewrite IH, end_of_cons.
  replace (strict_after true before) with true by (by destruct before). cbn [strict_after]. tauto.
Qed.

Lemma tiled_lower q strict lo gs x : tiled q strict lo gs -> missing gs x -> lo <= x < MaxByteCount.
Proof.
  revert strict lo. induction gs as [| g gs IH]; intros strict lo Ht Hm; [by inversion Hm |].
  destruct Ht as (_ & Hr & Hlt & Ht). apply reach_le in Hr.
  assert (Hle : End g <= MaxByteCount).
  { clear -Ht. destruct gs as [| g2 gs]; [cbn in Ht; lia |].
    revert g g2 Ht. induction gs as [| g3 gs IH]; intros g g2 (_ & Hr & Hlt & Ht);
      apply reach_le in Hr; [cbn in Ht; lia |]. specialize (IH _ _ Ht). lia. }
  apply Exists_cons in Hm as [Hx | Hx]; [unfold in_gap in Hx; lia |].
  specialize (IH true (End g) Ht Hx). lia.
Qed.

Lemma tiled_agree q q' strict lo gs : tiled q strict lo gs ->
  (forall k, lo <= k -> q' !! k = q !! k) -> tiled q' strict lo gs.
Proof.
  revert strict lo. induction gs as [| g gs IH]; intros strict lo Ht Ha; [done |].
  destruct Ht as (Hs & Hr & Hlt & Ht). pose proof (reach_le _ _ _ Hr). cbn.
  split_and!; [done | | done |].
  - eapply reach_agree; [done |]. intros k Hk. apply Ha. lia.
  - apply IH; [done |]. intros k Hk. apply Ha. lia.
Qed.

Lemma tiled_before_agree q q' strict lo gs hi : tiled_before q strict lo gs ->
  end_of lo gs <= hi -> (forall k, k < hi -> q' !! k = q !! k) -> tiled_before q' strict lo gs.
Proof.
  revert strict lo. induction gs as [| g gs IH]; intros strict lo Ht He Ha; [done |].
  destruct Ht as (Hs & Hr & Hlt & Ht). rewrite end_of_cons in He. cbn.
  assert (End g <= end_of (End g) gs).
  { clear -Ht. revert g Ht. induction gs as [| g2 gs IH]; intros g Ht; [cbn; lia |].
    rewrite end_of_cons. destruct Ht as (_ & Hr & Hlt & Ht). apply reach_le in Hr.
    specialize (IH g2 Ht). lia. }
  split_and!; [done | | done | by apply IH].
  eapply reach_agree; [done |]. intros k Hk. apply Ha. lia.
Qed.

(** ** The searches *)

Lemma find_gap_spec start end_ before gs : start < end_ ->
  match find_gap start end_ before gs with
  | GapDuplicate => exists mid g after, gs = mid ++ g :: after
      /\ Forall (fun g => End g < start) mid /\ end_ <= Start g
  | GapNone => Forall (fun g => End g < start) gs
  | GapAt before' gap after => exists mid, before' = before ++ mid /\ gs = mid ++ gap :: after
      /\ Forall (fun g => End g < start) mid /\ Start gap < end_ /\ start <= End gap
  end.
Proof.
  intros Hlt. revert before. induction gs as [| g gs IH]; intros before; [constructor |].
  cbn [find_gap]. destruct (Z.leb_spec end_ (Start g)).
  { exists [], g, gs. split_and!; [done | constructor | done]. }
  destruct (Z.ltb_spec (Start g) end_); [| lia].
  destruct (Z.leb_spec start (End g)); cbn [andb].
  { exists []. rewrite app_nil_r. split_and!; [done.. | constructor | done | done]. }
  specialize (IH (before ++ [g])). destruct (find_gap start end_ (before ++ [g]) gs).
  - destruct IH as (mid & g' & after & -> & Hm & He). exists (g :: mid), g', after.
    split_and!; [done | by constructor | done].
  - by constructor.
  - destruct IH as (mid & -> & -> & Hm & He). exists (g :: mid).
    rewrite <- app_assoc. split_and!; [done.. | by constructor | lia | lia].
Qed.

(** What the search for [endGap] gives, from the key [lo] on: only chunks
    between [lo] and [endGap] are deleted.  The frame ends inside [endGap] or
    between it and the next gap. *)
Definition end_found (end_ : Z) (q : gmap Z (list Z)) (lo : Z) (q' : gmap Z (list Z))
    (endGap : ByteInterval) (inside : bool) (rest : list ByteInterval) : Prop :=
  (forall k, k < lo \/ Start endGap <= k -> q' !! k = q !! k)
  /\ (forall k d, q' !! k = Some d -> q !! k = Some d)
  /\ Start endGap < End endGap /\ tiled q' true (End endGap) rest
  /\ Start endGap < end_
  /\ (if inside then end_ < End endGap
      else End endGap <= end_ /\ match rest with next :: _ => end_ <= Start next | [] => False end).

Lemma end_found_here end_ q lo cur rest :
  Start cur < End cur -> Start cur < end_ -> tiled q true (End cur) rest ->
  (if end_ <? End cur then True
   else match rest with next :: _ => end_ <= Start next | [] => False end) ->
  end_found end_ q lo q cur (end_ <? End cur) rest.
Proof.
  intros Hc Hs Ht Hn. unfold end_found. split_and!; try done.
  destruct (Z.ltb_spec end_ (End cur)); [done | split; [lia | done]].
Qed.

Lemma find_later_gap end_ q cur rest :
  Start cur < End cur -> Start cur < end_ -> tiled q true (End cur) rest -> end_ < MaxByteCount ->
  exists q' endGap inside rest' mids,
    find_end_gap end_ q cur false rest
    = (q', EndAt q' endGap (if inside : bool then Later else Removed) rest')
    /\ cur :: rest = mids ++ endGap :: rest'
    /\ (forall x, missing mids x -> Start cur <= x < end_) /\ Start cur <= Start endGap
    /\ end_found end_ q (End cur) q' endGap inside rest'.
Proof.
  revert q cur. induction rest as [| next rest IH]; intros q cur Hc Hs Ht Hmax.
  { cbn in Ht. exists q, cur, (end_ <? End cur), [], []. cbn [find_end_gap].
    destruct (Z.leb_spec (End cur) end_); [lia |].
    rewrite (proj2 (Z.ltb_lt end_ (End cur))) by lia.
    split_and!; [done | done | by inversion 1 | lia |].
    pose proof (end_found_here end_ q (End cur) cur []) as Hf.
    rewrite (proj2 (Z.ltb_lt end_ (End cur))) in Hf by lia. by apply Hf. }
  pose proof Ht as (Hlt & Hr & Hn & Ht'). specialize (Hlt eq_refl). cbn [find_end_gap].
  destruct (Z.leb_spec (End cur) end_) as [Hle | Hgt]; [destruct (Z.leb_spec end_ (Start next)) |].
  - exists q, cur, false, (next :: rest), [].
    split_and!; [done | done | by inversion 1 | lia |].
    pose proof (end_found_here end_ q (End cur) cur (next :: rest)) as Hf.
    rewrite (proj2 (Z.ltb_ge end_ (End cur))) in Hf by lia. by apply Hf.
  - destruct (IH (delete (End cur) q) next) as (q' & eg & inside & rest' & mids & E1 & E2 & Hm & Hle2 & Hf);
      [done | lia | | done |].
    { eapply tiled_agree; [done |]. intros k Hk. apply lookup_delete_ne. lia. }
    exists q', eg, inside, rest', (cur :: mids).
    destruct Hf as (Hag & Hsub & Hf). split_and!; [done | by rewrite E2 | | lia |].
    + intros x Hx. apply Exists_cons in Hx as [Hx | Hx]; [unfold in_gap in Hx; lia |].
      specialize (Hm _ Hx). lia.
    + split_and!; [| | apply Hf..].
      * intros k Hk. rewrite Hag by lia. apply lookup_delete_ne. lia.
      * intros k d Hk. apply Hsub in Hk. by apply lookup_delete_Some in Hk as [_ Hk].
  - exists q, cur, true, (next :: rest), [].
    split_and!; [done | done | by inversion 1 | lia |].
    pose proof (end_found_here end_ q (End cur) cur (next :: rest)) as Hf.
    rewrite (proj2 (Z.ltb_lt end_ (End cur))) in Hf by lia. by apply Hf.
Qed.

(** Where [endGap] is relative to [gap]. *)
Definition end_at (end_ : Z) (gap : ByteInterval) (after : list ByteInterval)
    (endGap : ByteInterval) (pos : end_pos) (inside : bool) (rest : list ByteInterval) : Prop :=
  (pos = AtGap /\ endGap = gap /\ rest = after)
  \/ (pos = (if inside then Later else Removed) /\ End gap <= end_ /\ End gap < Start endGap
      /\ exists mids, after = mids ++ endGap :: rest
         /\ forall x, missing mids x -> End gap < x < end_).

Lemma find_end_gap_spec end_ q gap after :
  Start gap < End gap -> Start gap < end_ -> tiled q true (End gap) after -> end_ < MaxByteCount ->
  exists q' endGap pos inside rest,
    find_end_gap end_ q gap true after = (q', EndAt q' endGap pos rest)
    /\ end_at end_ gap after endGap pos inside rest
    /\ end_found end_ q (End gap) q' endGap inside rest.
Proof.
  intros Hc Hs Ht Hmax.
  assert (Hhere : find_end_gap end_ q gap true after = (q, EndAt q gap AtGap after) ->
    (if end_ <? End gap then True
     else match after with next :: _ => end_ <= Start next | [] => False end) ->
    exists q' endGap pos inside rest,
    find_end_gap end_ q gap true after = (q', EndAt q' endGap pos rest)
    /\ end_at end_ gap after endGap pos inside rest
    /\ end_found end_ q (End gap) q' endGap inside rest).
  { intros E Hn. exists q, gap, AtGap, (end_ <? End gap), after.
    split_and!; [done | by left | by apply end_found_here]. }
  destruct after as [| next after]; cbn [find_end_gap] in *.
  - cbn in Ht. destruct (Z.leb_spec (End gap) end_); [lia |].
    apply Hhere; [done |]. destruct (Z.ltb_spec end_ (End gap)); [done | lia].
  - destruct (Z.leb_spec (End gap) end_); [destruct (Z.leb_spec end_ (Start next)) |].
    + apply Hhere; [done |]. by destruct (Z.ltb_spec end_ (End gap)).
    + pose proof Ht as (Hlt & Hr & Hn & Ht'). specialize (Hlt eq_refl).
      destruct (find_later_gap end_ (delete (End gap) q) next after)
        as (q' & eg & inside & rest' & mids & E1 & E2 & Hm & Hle & Hf); [done | lia | | done |].
      { eapply tiled_agree; [done |]. intros k Hk. apply lookup_delete_ne. lia. }
      exists q', eg, (if inside then Later else Removed), inside, rest'. split_and!; [done | |].
      * right. split_and!; [done | lia | lia |]. exists mids. split; [done |].
        intros x Hx. specialize (Hm x Hx). lia.
      * destruct Hf as (Hag & Hsub & Hf). split_and!; [| | apply Hf..].
        -- intros k Hk. rewrite Hag by lia. apply lookup_delete_ne. lia.
        -- intros k d Hk. apply Hsub in Hk. by apply lookup_delete_Some in Hk as [_ Hk].
    + apply Hhere; [done |]. destruct (Z.ltb_spec end_ (End gap)); [done | lia].
Qed.

(** ** Putting a chunk in

    [gap :: after] is the list from the gap on; the chunk covers [s, e). *)
Definition left_of (gap : ByteInterval) (s : Z) : list ByteInterval :=
  if s =? Start gap then [] else [mkByteInterval (Start gap) s].
Definition right_of (endGap : ByteInterval) (inside : bool) (e : Z) : list ByteInterval :=
  if inside then [mkByteInterval e (End endGap)] else [].

Lemma fill_gaps_eq end_ gap after endGap pos inside rest s e :
  end_at end_ gap after endGap pos inside rest ->
  e = (if inside then end_ else End endGap) -> Start endGap < End endGap ->
  Start gap <= s < e -> (if inside then end_ < End endGap else End endGap <= end_) ->
  fill_gaps gap endGap pos s e = left_of gap s ++ right_of endGap inside e.
Proof.
  intros Hat He Hlt Hs Hin. unfold fill_gaps, left_of, right_of.
  destruct Hat as [(-> & -> & ->) | (-> & Hle & Hsep & _)]; destruct inside; subst e;
    case_cmp; try lia; done.
Qed.

Section Place.
Context (end_ start : Z) (q q' : gmap Z (list Z)) (gap endGap : ByteInterval) (pos : end_pos)
  (inside : bool) (after rest : list ByteInterval).
Context (Hgap : Start gap < End gap) (Htiled : tiled q true (End gap) after).
Context (Hat : end_at end_ gap after endGap pos inside rest).
Context (Hfound : end_found end_ q (End gap) q' endGap inside rest).
Context (Hstart : start < End gap) (Hend : start < end_) (Hover : Start gap < end_).

Let s := Z.max start (Start gap).
Let e := if inside then end_ else End endGap.

Lemma place_range : Start gap <= s < End gap /\ s < e /\ s < End endGap
  /\ e <= End endGap /\ End gap <= End endGap.
Proof.
  unfold s, e. destruct Hfound as (_ & _ & Hlt & _ & Hs & Hin).
  destruct Hat as [(_ & -> & _) | (_ & Hle & Hsep & _)]; destruct inside; lia.
Qed.

(** From the end of the chunk on, the old chunks lead on. *)
Lemma place_tail chunk lo strict : let q2 := <[s := chunk]> q' in
  reach q2 lo e -> lo < e -> tiled q2 strict lo (right_of endGap inside e ++ rest).
Proof.
  intros q2 Hr Hlt. pose proof place_range as (Hs & Hse & Hsend & Hee & _).
  destruct Hfound as (_ & _ & Hg & Ht & _ & Hin).
  assert (Ht2 : tiled q2 true (End endGap) rest).
  { eapply tiled_agree; [done |]. intros k Hk. apply lookup_insert_ne. lia. }
  unfold right_of, e in *. destruct inside; cbn [app].
  - split_and!; [intros _; cbn; lia | done | cbn; lia | done].
  - destruct rest as [| next rest']; [tauto |]. destruct Ht2 as (Hl & Hr2 & Hlt2 & Ht2).
    specialize (Hl eq_refl). split_and!; [lia | by eapply reach_trans | done | done].
Qed.

Lemma place_tiled chunk lo strict : let q2 := <[s := chunk]> q' in
  chunk <> [] -> len chunk = e - s ->
  (strict = true -> lo < Start gap) -> reach q lo (Start gap) ->
  tiled q2 strict lo (left_of gap s ++ right_of endGap inside e ++ rest).
Proof.
  intros q2 Hne Hlen Hstrict Hr. pose proof place_range as (Hs & Hse & Hsend & Hee & _).
  pose proof (reach_le _ _ _ Hr).
  assert (Hr2 : reach q2 lo (Start gap)).
  { eapply reach_agree; [done |]. intros k Hk. unfold q2. rewrite lookup_insert_ne by lia.
    destruct Hfound as (Hag & _). apply Hag. lia. }
  assert (Hchunk : reach q2 s e).
  { apply (reach_step _ s chunk); [apply lookup_insert_eq | done |].
    rewrite Hlen. replace (s + (e - s)) with e by lia. constructor. }
  unfold left_of. destruct (Z.eqb_spec s (Start gap)) as [E | E]; cbn [app].
  - apply place_tail; [| lia]. eapply reach_trans; [done |]. by rewrite <- E.
  - split_and!; [done | done | cbn; lia |]. by apply place_tail.
Qed.

(** What is missing afterwards: what was missing and is not in the frame. *)
Lemma rest_lower x : missing rest x -> End endGap <= x /\ end_ <= x.
Proof.
  intros Hx. destruct Hfound as (_ & _ & Hg & Ht & _ & Hin).
  pose proof (tiled_lower _ _ _ _ _ Ht Hx). destruct inside; [lia |].
  destruct Hin as [Hle Hn]. destruct rest as [| next rest']; [done |].
  destruct Ht as (_ & _ & Hlt & Ht). apply Exists_cons in Hx as [Hx | Hx]; [unfold in_gap in Hx; lia |].
  pose proof (tiled_lower _ _ _ _ _ Ht Hx). lia.
Qed.

Lemma missing_left x : missing (left_of gap s) x <-> Start gap <= x < s.
Proof.
  pose proof place_range as (Hs & _). unfold missing, left_of, in_gap. case_cmp.
  - split; [by inversion 1 | lia].
  - rewrite Exists_cons, Exists_nil. cbn. lia.
Qed.

Lemma missing_right x :
  missing (right_of endGap inside e) x <-> inside = true /\ end_ <= x < End endGap.
Proof.
  unfold missing, right_of, in_gap, e. destruct inside.
  - rewrite Exists_cons, Exists_nil. cbn. lia.
  - split; [by inversion 1 | by intros [[=] _]].
Qed.

Lemma place_missing x :
  missing (left_of gap s ++ right_of endGap inside e ++ rest) x
  <-> missing (gap :: after) x /\ ~ (start <= x < end_).
Proof.
  pose proof (rest_lower x) as Hrest. pose proof Hfound as (_ & _ & Hg & _ & Hs & Hin).
  unfold missing. rewrite !Exists_app, Exists_cons. fold (missing rest x).
  fold (missing (left_of gap s) x) (missing (right_of endGap inside e) x) (missing after x).
  rewrite missing_left, missing_right. unfold s.
  destruct Hat as [(_ & -> & ->) | (_ & Hle & Hsep & mids & -> & Hm)].
  - unfold in_gap in *. destruct inside; intuition (try lia).
  - unfold missing at 2. rewrite Exists_app, Exists_cons. fold (missing mids x) (missing rest x).
    specialize (Hm x). unfold in_gap in *. destruct inside; intuition (try lia).
Qed.
End Place.

(** ** Push *)

Lemma missing_app gs1 gs2 x : missing (gs1 ++ gs2) x <-> missing gs1 x \/ missing gs2 x.
Proof. apply Exists_app. Qed.

Lemma missing_before gs start x : Forall (fun g => End g < start) gs -> missing gs x -> x < start.
Proof.
  intros Hf Hx. apply Exists_exists in Hx as (g & Hg & Hx). rewrite Forall_forall in Hf.
  specialize (Hf g Hg). unfold in_gap in Hx. lia.
Qed.

Lemma tiled_head q strict lo g gs x : tiled q strict lo (g :: gs) -> missing (g :: gs) x ->
  Start g <= x.
Proof.
  intros (_ & _ & Hlt & Ht) Hx. apply Exists_cons in Hx as [Hx | Hx].
  - unfold in_gap in Hx. lia.
  - pose proof (tiled_lower _ _ _ _ _ Ht Hx). lia.
Qed.

(** The frame adds exactly its bytes to what has been received. *)
Definition covers (s s' : frameSorter) (offset n : Z) : Prop :=
  forall x, missing (gaps s') x <-> missing (gaps s) x /\ ~ (offset <= x < offset + n).

(** What a push does, in terms of the invariant. *)
Definition pushed (s : frameSorter) (offset n : Z) (r : frameSorter * option go_error) : Prop :=
  let '(s', err) := r in
  readPos s' = readPos s
  /\ match err with
     | None => sorter_inv s' /\ covers s s' offset n
     | Some e => (e = errDuplicateStreamData /\ sorter_inv s' /\ covers s s' offset n)
         \/ (e = errTooManyGaps /\ MaxStreamFrameSorterGaps < len (gaps s'))
     end.

Lemma tiled_last q strict lo gs : tiled q strict lo gs -> gs <> [] ->
  exists g, g ∈ gs /\ End g = MaxByteCount.
Proof.
  revert strict lo. induction gs as [| g gs IH]; intros strict lo Ht Hne; [done |].
  destruct Ht as (_ & _ & _ & Ht). destruct gs as [| g2 gs].
  - exists g. split; [left | done].
  - destruct (IH _ _ Ht) as (g' & Hg & HE); [done |]. exists g'. split; [by right | done].
Qed.

Lemma insert_inv s before gap after q' chunk st gs' offset n :
  sorter_inv s -> gaps s = before ++ gap :: after ->
  (forall k d, q' !! k = Some d -> queue s !! k = Some d) ->
  (forall k, k < Start gap -> q' !! k = queue s !! k) ->
  chunk <> [] -> Start gap <= st -> 0 <= st -> st + len chunk < MaxByteCount ->
  chunk = slice st (len chunk) -> offset <= st -> st + len chunk <= offset + n -> gs' <> [] ->
  (forall lo strict, (strict = true -> lo < Start gap) -> reach (queue s) lo (Start gap) ->
     tiled (<[st := chunk]> q') strict lo gs') ->
  covers s (with_gaps s (<[st := chunk]> q') (before ++ gs')) offset n ->
  sorter_inv (with_gaps s (<[st := chunk]> q') (before ++ gs')).
Proof.
  intros (Hrp & _ & Ht & He) Eg Hsub Hag Hne Hst Hst0 Hmax Hc Ho1 Ho2 Hgs Htl Hcov.
  split_and!; [done | | |]; cbn [with_gaps queue gaps readPos] in *.
  - by intros [_ ?]%app_eq_nil.
  - rewrite Eg in Ht. apply tiled_app in Ht as [Hb Hg]. apply tiled_app.
    pose proof Hg as (Hs & Hr & _). split; [| by apply Htl].
    eapply (tiled_before_agree _ _ _ _ _ (Start gap)); [done | by apply reach_le in Hr |].
    intros k Hk. rewrite lookup_insert_ne by lia. by apply Hag.
  - intros k d Hk. destruct (decide (st = k)) as [<- | Hkn].
    + rewrite lookup_insert_eq in Hk. injection Hk as <-. split_and!; [done.. |].
      intros x Hx Hm. apply Hcov in Hm as [_ Hm]. lia.
    + rewrite lookup_insert_ne in Hk by done. apply Hsub, He in Hk as (H1 & H2 & H3 & H4 & H5).
      split_and!; [done.. |]. intros x Hx Hm. apply Hcov in Hm as [Hm _]. by apply (H5 x).
Qed.

(** The chunk of the frame [offset, offset + n) that is put in. *)
Lemma cut_chunk offset n add cut : 0 <= n -> 0 <= add -> 0 <= cut -> add + cut <= n -> n < 2 ^ 62 ->
  take_z (len (drop_z add (slice offset n)) -64 cut) (drop_z add (slice offset n))
  = slice (offset + add) (n - add - cut).
Proof.
  intros. rewrite drop_slice, len_slice by lia. norm64. by rewrite take_slice by lia.
Qed.

Lemma place_frame s n offset before gap after :
  sorter_inv s -> 0 < n -> 0 <= offset ->
  offset + n < MaxByteCount -> gaps s = before ++ gap :: after ->
  Forall (fun g => End g < offset) before -> Start gap < offset + n -> offset < End gap ->
  exists q endGap pos rest, let end_ := offset + n in
    let data := slice offset n in
    find_end_gap end_ (queue s) gap true after = (q, EndAt q endGap pos rest)
    /\ let st := offset +64 (if offset <? Start gap then Start gap -64 offset else 0) in
       let cutLen := if End endGap <? end_ then end_ -64 End endGap else 0 in
       let data := drop_z (if offset <? Start gap then Start gap -64 offset else 0) data in
       let s' := with_gaps s (<[st := take_z (len data -64 cutLen) data]> q)
                   (before ++ fill_gaps gap endGap pos st (end_ -64 cutLen) ++ rest) in
       sorter_inv s' /\ covers s s' offset n.
Proof.
  intros Hinv Hn Ho Hmax Eg Hmid Hover Hst. pose proof Hinv as (_ & _ & Ht & He).
  assert (HM : MaxByteCount < 2 ^ 62) by (unfold MaxByteCount; lia).
  rewrite Eg in Ht. apply tiled_app in Ht as [Hb (Hs & Hr & Hgap & Ht)].
  destruct (find_end_gap_spec (offset + n) (queue s) gap after)
    as (q & endGap & pos & inside & rest & Ef & Hat & Hfd); [done.. |].
  exists q, endGap, pos, rest. cbv zeta. split; [done |].
  pose proof (place_range (offset + n) offset _ _ _ _ _ _ _ _ Hgap Hat Hfd Hst
    ltac:(lia) Hover) as Hrange. cbv zeta in Hrange.
  set (st := Z.max offset (Start gap)) in *.
  set (e := if inside then offset + n else End endGap) in *.
  assert (He2 : e <= offset + n).
  { destruct Hfd as (_ & _ & _ & _ & _ & Hin). unfold e. destruct inside; lia. }
  replace (if offset <? Start gap then Start gap -64 offset else 0) with (st - offset).
  2:{ unfold st. destruct (Z.ltb_spec offset (Start gap)); norm64; lia. }
  replace (if End endGap <? offset + n then offset + n -64 End endGap else 0)
    with (offset + n - e).
  2:{ destruct Hfd as (_ & _ & _ & _ & _ & Hin). unfold e.
      destruct (Z.ltb_spec (End endGap) (offset + n)), inside; norm64; lia. }
  rewrite add64_small, (sub64_small (offset + n)) by lia.
  replace (offset + (st - offset)) with st by lia.
  replace (offset + n - (offset + n - e)) with e by lia.
  rewrite cut_chunk by lia.
  replace (n - (st - offset) - (offset + n - e)) with (e - st) by lia.
  replace (offset + (st - offset)) with st by lia.
  erewrite (fill_gaps_eq _ gap after endGap pos inside rest st e Hat) by
    (done || lia || (destruct Hfd as (_ & _ & _ & _ & _ & Hin); destruct inside; lia)
     || apply Hfd).
  rewrite <- app_assoc.
  assert (Hcov : forall q2, covers s (with_gaps s q2 (before ++ left_of gap st
      ++ right_of endGap inside e ++ rest)) offset n).
  { intros q2 x. cbn [gaps with_gaps]. rewrite Eg, !(missing_app before).
    pose proof (place_missing (offset + n) offset _ _ _ _ _ _ _ _ Hgap Ht Hat Hfd Hst
      ltac:(lia) Hover x) as Hp. cbv zeta in Hp. fold st e in Hp. rewrite Hp.
    pose proof (missing_before _ _ x Hmid). intuition lia. }
  split; [| apply Hcov].
  pose proof Hfd as (Hag & Hsub & _ & _ & _ & Hin).
  apply (insert_inv s before gap after q _ st _ offset n); try done.
  - intros k Hk. apply Hag. lia.
  - intros E. apply (f_equal len) in E. rewrite len_slice, len_nil in E by lia. lia.
  - lia.
  - lia.
  - rewrite len_slice by lia. lia.
  - by rewrite len_slice by lia.
  - lia.
  - rewrite len_slice by lia. lia.
  - intros E. apply app_eq_nil in E as [_ E]. unfold right_of in E.
    destruct inside; [done |]. destruct rest; [tauto | done].
  - intros lo strict Hl Hrr.
    apply (place_tiled (offset + n) offset (queue s) q gap endGap pos inside after rest
      Hgap Hat Hfd Hst ltac:(lia) Hover); try done.
    + intros E. apply (f_equal len) in E. rewrite len_slice, len_nil in E by lia. lia.
    + rewrite len_slice by lia. done.
Qed.

Lemma push_gaps_spec s n offset :
  sorter_inv s -> 0 < n -> 0 <= offset ->
  offset + n < MaxByteCount -> (forall g, g ∈ gaps s -> offset <> End g) ->
  pushed s offset n (push_gaps s (slice offset n) offset).
Proof.
  intros Hinv Hn Ho Hmax Hend. pose proof Hinv as (Hrp & Hne & Ht & He). unfold push_gaps.
  assert (HM : MaxByteCount < 2 ^ 62) by (unfold MaxByteCount; lia).
  rewrite len_slice, add64_small by lia.
  pose proof (find_gap_spec offset (offset + n) [] (gaps s) ltac:(lia)) as Hf.
  destruct (find_gap _ _ _ _) as [| | before gap after].
  - destruct Hf as (mid & g & after & Eg & Hmid & Hle). split; [done |].
    left. split_and!; [done | done |]. intros x. split; [| tauto]. intros Hx. split; [done |].
    rewrite Eg in Hx, Ht. apply tiled_app in Ht as [_ Ht]. apply missing_app in Hx as [Hx | Hx].
    + pose proof (missing_before _ _ _ Hmid Hx). lia.
    + pose proof (tiled_head _ _ _ _ _ _ Ht Hx). lia.
  - exfalso. destruct (tiled_last _ _ _ _ Ht Hne) as (g & Hg & HE).
    rewrite Forall_forall in Hf. specialize (Hf g Hg). cbn in Hf. lia.
  - destruct Hf as (mid & -> & Eg & Hmid & Hov & Hle). cbn [app].
    assert (Hlt : offset < End gap).
    { specialize (Hend gap). rewrite Eg in Hend.
      assert (offset <> End gap) by (apply Hend, elem_of_app; right; left). lia. }
    destruct (place_frame s n offset mid gap after Hinv Hn Ho Hmax Eg Hmid Hov Hlt)
      as (q & endGap & pos & rest & -> & Hres). cbv zeta in Hres |- *.
    destruct (_ <? len _) eqn:Eg2; [| by split].
    split; [done |]. right. bool_to_prop. by split.
Qed.

(** The chunk after a gap is queued at the end of the gap. *)
Lemma gap_end_queued s g : sorter_inv s -> g ∈ gaps s -> End g < MaxByteCount ->
  is_Some (queue s !! End g).
Proof.
  intros (_ & _ & Ht & _) Hg Hlt. apply list_elem_of_split in Hg as (l1 & l2 & Eg).
  rewrite Eg in Ht. apply tiled_app in Ht as [_ (_ & _ & _ & Ht)].
  destruct l2 as [| g2 l2]; [cbn in Ht; lia |]. destruct Ht as (Hs & Hr & _).
  apply (reach_strict _ _ _ Hr). auto.
Qed.

Lemma covers_weaken s s' offset n offset' n' :
  covers s s' offset' n' -> offset <= offset' -> offset' + n' = offset + n ->
  (forall x, offset <= x < offset' -> ~ missing (gaps s) x) -> covers s s' offset n.
Proof.
  intros Hc Hle Hend Hold x. rewrite (Hc x).
  split; intros [Hm Hx]; (split; [done |]); intros Hx2; [| lia].
  destruct (Z.ltb_spec x offset'); [by apply (Hold x); [lia |] | lia].
Qed.

Lemma push_spec s n offset fin :
  sorter_inv s -> 0 <= n -> 0 <= offset -> offset + n < MaxByteCount ->
  pushed s offset n (push s (slice offset n) offset fin).
Proof.
  intros Hinv Hn Ho Hmax. unfold push. rewrite len_slice by lia.
  assert (HM : MaxByteCount < 2 ^ 62) by (unfold MaxByteCount; lia).
  set (s0 := if fin then _ else s).
  assert (Hq : queue s0 = queue s /\ gaps s0 = gaps s /\ readPos s0 = readPos s /\ sorter_inv s0)
    by (unfold s0; by destruct fin).
  destruct Hq as (Eq & Egs & Erp & Hinv0). clearbody s0.
  assert (Hlift : forall o m r, pushed s0 o m r -> o + m = offset + n -> offset <= o ->
    (forall x, offset <= x < o -> ~ missing (gaps s) x) -> pushed s offset n r).
  { intros o m [s' err] [Hrp Hr] E Hle Hold. split; [congruence |].
    assert (Hc : covers s0 s' o m -> covers s s' offset n).
    { intros Hc. eapply covers_weaken; [| done | done | done].
      intros x. rewrite <- Egs. apply Hc. }
    destruct err as [e |]; [destruct Hr as [(-> & ? & ?) | ?]; [left; auto | by right] |].
    destruct Hr. auto. }
  destruct (Z.eqb_spec n 0) as [-> | Hn0].
  { split; [done |]. split; [done |]. intros x. rewrite Egs. intuition lia. }
  destruct (queue s0 !! offset) as [old |] eqn:Eold.
  - destruct Hinv0 as (Hr0 & Hne0 & Ht0 & He0). pose proof (He0 _ _ Eold) as (H1 & H2 & H3 & H4 & H5).
    pose proof (nonempty_len _ H1). rewrite Egs in H5.
    destruct (Z.leb_spec n (len old)).
    { split; [done |]. left. split_and!; [done | by split_and! |].
      intros x. rewrite Egs. split; [| tauto]. intros Hm. split; [done |]. intros Hx.
      apply (H5 x); [lia | done]. }
    rewrite drop_slice, add64_small by lia.
    apply (Hlift (offset + len old) (n - len old)); [| lia | lia |].
    + apply push_gaps_spec; [by split_and! | lia | lia | lia |].
      intros g Hg E. apply (H5 (End g - 1)); [lia |]. rewrite <- Egs.
      apply Exists_exists. exists g. split; [done |]. unfold in_gap.
      apply list_elem_of_split in Hg as (l1 & l2 & Eg). rewrite Eg in Ht0.
      apply tiled_app in Ht0 as [_ (_ & _ & Hlt & _)]. lia.
    + intros x Hx. apply H5. lia.
  - apply (Hlift offset n); [| lia | lia | lia].
    apply push_gaps_spec; [done | lia | lia | lia |].
    intros g Hg E. destruct (gap_end_queued s0 g Hinv0 Hg) as [d Hd]; [lia | congruence].
Qed.

Lemma duplicate_is_duplicate : is_duplicate (Some errDuplicateStreamData) = true.
Proof. reflexivity. Qed.

Lemma too_many_not_duplicate : is_duplicate (Some errTooManyGaps) = false.
Proof. reflexivity. Qed.

Lemma Push_spec s n offset fin :
  sorter_inv s -> 0 <= n -> 0 <= offset -> offset + n < MaxByteCount ->
  match Push s (slice offset n) offset fin with
  | (s', None) => sorter_inv s' /\ covers s s' offset n /\ readPos s' = readPos s
  | (s', Some e) => e = errTooManyGaps /\ MaxStreamFrameSorterGaps < len (gaps s')
  end.
Proof.
  intros Hinv Hn Ho Hmax. pose proof (push_spec s n offset fin Hinv Hn Ho Hmax) as Hp.
  unfold Push. destruct (push _ _ _ _) as [s' [e |]].
  - destruct Hp as [Hrp [(-> & Hs & Hc) | (-> & Hl)]].
    + rewrite duplicate_is_duplicate. auto.
    + rewrite too_many_not_duplicate. auto.
  - destruct Hp as [Hrp (Hs & Hc)]. cbn [is_duplicate]. auto.
Qed.

(** ** Pop *)

Lemma Pop_spec s : sorter_inv s ->
  match Pop s with
  | (Some d, fin, s') => d <> [] /\ d = slice (readPos s) (len d)
      /\ readPos s' = readPos s + len d /\ sorter_inv s' /\ gaps s' = gaps s
      /\ (size (queue s') < size (queue s))%nat
      /\ fin = (finalOffset s <=? readPos s')
  | (None, fin, s') => s' = s /\ missing (gaps s) (readPos s)
      /\ fin = (finalOffset s <=? readPos s)
  end.
Proof.
  intros (Hrp & Hne & Ht & He). unfold Pop.
  destruct (gaps s) as [| g gs] eqn:Eg; [done |].
  pose proof Ht as (_ & Hr & Hlt & Ht'). destruct (queue s !! readPos s) as [d |] eqn:Eq.
  - pose proof (He _ _ Eq) as (H1 & H2 & H3 & H4 & H5). pose proof (nonempty_len _ H1).
    assert (HM : MaxByteCount < 2 ^ 62) by (unfold MaxByteCount; lia).
    rewrite add64_small by lia. cbn [readPos gaps queue].
    assert (Hrp2 : readPos s <> Start g).
    { intros E. apply (H5 (readPos s)); [lia |]. apply Exists_cons_hd. unfold in_gap. lia. }
    inversion Hr as [| a d' b Hd' _ Hr']; subst; [congruence |].
    assert (d' = d) by congruence. subst d'. pose proof (reach_le _ _ _ Hr').
    split_and!; [done.. | | done | | done].
    + split_and!; [cbn; lia | done | |]; cbn [queue readPos gaps].
      * split_and!; [done | | done |].
        -- eapply reach_agree; [done |]. intros k Hk. apply lookup_delete_ne. lia.
        -- eapply tiled_agree; [done |]. intros k Hk. apply lookup_delete_ne. lia.
      * intros k d2 Hk. apply lookup_delete_Some in Hk as [_ Hk]. by apply He.
    + rewrite map_size_delete, Eq.
      assert (size (queue s) <> 0)%nat; [| lia].
      intros E0%map_size_empty_inv. by rewrite E0, lookup_empty in Eq.
  - split_and!; [done | | done]. apply Exists_cons_hd. unfold in_gap.
    inversion Hr as [| a d' b Hd' _ Hr']; subst; [lia | congruence].
Qed.

(** Popping until nothing is there; each pop removes a chunk from the queue. *)
Fixpoint drain (fuel : nat) (s : frameSorter) : list Z * frameSorter :=
  match fuel with
  | O => ([], s)
  | S fuel =>
      match Pop s with
      | (Some d, _, s') => let '(out, s'') := drain fuel s' in (d ++ out, s'')
      | (None, _, s') => ([], s')
      end
  end.

Lemma drain_spec fuel s : sorter_inv s -> (size (queue s) < fuel)%nat ->
  let '(out, s') := drain fuel s in
  out = slice (readPos s) (readPos s' - readPos s) /\ readPos s <= readPos s'
  /\ missing (gaps s) (readPos s') /\ sorter_inv s' /\ gaps s' = gaps s.
Proof.
  revert s. induction fuel as [| fuel IH]; intros s Hinv Hf; [lia |]. cbn [drain].
  pose proof (Pop_spec s Hinv) as Hp. destruct (Pop s) as [[[d |] fin] s'].
  - destruct Hp as (Hne & Hd & Hrp & Hinv' & Hg & Hsz & _). specialize (IH s' Hinv' ltac:(lia)).
    destruct (drain fuel s') as [out s2]. destruct IH as (-> & Hle & Hm & Hi & Hg2).
    apply nonempty_len in Hne. rewrite Hg in Hm, Hg2. split_and!; [| lia | done..].
    rewrite Hd, Hrp, slice_app by lia. f_equal. lia.
  - destruct Hp as (-> & Hm & _). split_and!; [| lia | done..]. by rewrite Z.sub_diag.
Qed.

(** ** Histories *)

(** A frame received, with its data taken from the stream, or a read. *)
Inductive sorter_op : Type :=
  | OpPush (offset n : Z) (fin : bool)
  | OpPop.

Definition op_ok (o : sorter_op) : Prop :=
  match o with
  | OpPush offset n _ => 0 <= offset /\ 0 <= n /\ offset + n < MaxByteCount
  | OpPop => True
  end.

Fixpoint run_ops (ops : list sorter_op) (s : frameSorter) (out : list Z)
    : outcome (frameSorter * list Z) :=
  match ops with
  | [] => Ok (s, out)
  | OpPush offset n fin :: ops =>
      match Push s (slice offset n) offset fin with
      | (s', None) => run_ops ops s' out
      | (_, Some e) => Err e
      end
  | OpPop :: ops =>
      match Pop s with
      | (Some d, _, s') => run_ops ops s' (out ++ d)
      | (None, _, s') => run_ops ops s' out
      end
  end.

Definition carries (x : Z) (o : sorter_op) : Prop :=
  match o with OpPush offset n _ => offset <= x < offset + n | OpPop => False end.

#[export] Instance carries_dec x o : Decision (carries x o).
Proof. destruct o; cbn; apply _. Defined.

Definition covered (ops : list sorter_op) (x : Z) : Prop := Exists (carries x) ops.

Lemma run_ops_inv ops s out : sorter_inv s -> out = slice 0 (readPos s) -> Forall op_ok ops ->
  match run_ops ops s out with
  | Ok (s', out') => sorter_inv s' /\ out' = slice 0 (readPos s')
      /\ forall x, missing (gaps s') x <-> missing (gaps s) x /\ ~ covered ops x
  | Err e => e = errTooManyGaps
  | Panic _ => False
  end.
Proof.
  revert s out. induction ops as [| [offset n fin |] ops IH]; intros s out Hinv Hout Hops.
  { split_and!; [done | done |]. intros x. unfold covered. rewrite Exists_nil. tauto. }
  all: apply Forall_cons in Hops as [Hop Hops]; cbn [run_ops].
  - destruct Hop as (Ho & Hn & Hmax). pose proof (Push_spec s n offset fin Hinv Hn Ho Hmax) as Hp.
    destruct (Push _ _ _ _) as [s' [e |]]; [by destruct Hp |].
    destruct Hp as (Hinv' & Hc & Hrp). specialize (IH s' out Hinv').
    rewrite Hrp in IH. specialize (IH Hout Hops).
    destruct (run_ops ops s' out) as [[s2 out2] | |]; [| done | done].
    destruct IH as (? & ? & Hm). split_and!; [done.. |]. intros x. rewrite Hm, (Hc x).
    unfold covered at 2. rewrite Exists_cons. fold (covered ops x). cbn [carries]. tauto.
  - pose proof (Pop_spec s Hinv) as Hp. destruct (Pop s) as [[[d |] fin] s'].
    + destruct Hp as (Hne & Hd & Hrp & Hinv' & Hg & _). specialize (IH s' (out ++ d) Hinv').
      destruct Hinv as (Hrp0 & _). apply nonempty_len in Hne.
      rewrite Hout, Hd in IH at 1. rewrite Hrp, <- slice_app in IH by lia.
      specialize (IH eq_refl Hops).
      destruct (run_ops ops s' (out ++ d)) as [[s2 out2] | |]; [| done | done].
      destruct IH as (? & ? & Hm). split_and!; [done.. |]. intros x. rewrite Hm, Hg.
      unfold covered at 2. rewrite Exists_cons. fold (covered ops x). cbn [carries]. tauto.
    + destruct Hp as (-> & _). specialize (IH s out Hinv Hout Hops).
      destruct (run_ops ops s out) as [[s2 out2] | |]; [| done | done].
      destruct IH as (? & ? & Hm). split_and!; [done.. |]. intros x. rewrite Hm.
      unfold covered at 2. rewrite Exists_cons. fold (covered ops x). cbn [carries]. tauto.
Qed.

Lemma newFrameSorter_inv : sorter_inv newFrameSorter.
Proof.
  split_and!; [done | done | |].
  - cbn. split_and!; [done | constructor | unfold MaxByteCount; lia | done].
  - intros k d Hk. cbn [queue newFrameSorter] in Hk. by rewrite lookup_empty in Hk.
Qed.
End Content.

(** ** Properties *)

(** C3. Reordering is correct for every history: whatever frames of a stream
    arrive, in any order, repeated, overlapping or empty, and wherever the reads
    are done in between, the data read so far is the beginning of the stream,
    and reading on gives exactly the bytes up to the first one that no frame has
    carried.  The only possible error is the limit on the number of gaps; the
    two errors marked as bugs in the code cannot occur. *)
Theorem frame_sorter_correct (c : Z -> Z) ops : Forall op_ok ops ->
  match run_ops c ops newFrameSorter [] with
  | Ok (s, out) =>
      let '(more, s') := drain (S (size (queue s))) s in
      let m := readPos s' in
      out ++ more = slice c 0 m /\ 0 <= m < MaxByteCount
      /\ ~ covered ops m /\ forall x, 0 <= x < m -> covered ops x
  | Err e => e = errTooManyGaps
  | Panic _ => False
  end.
Proof.
  intros Hops. pose proof (run_ops_inv c ops newFrameSorter [] (newFrameSorter_inv c) eq_refl Hops) as H.
  destruct (run_ops c ops newFrameSorter []) as [[s out] | |]; [| done | done].
  destruct H as (Hinv & -> & Hm).
  pose proof (drain_spec c (S (size (queue s))) s Hinv ltac:(lia)) as Hd.
  destruct (drain _ s) as [more s']. destruct Hd as (-> & Hle & Hmiss & (_ & _ & Ht' & _) & Hg).
  pose proof Hinv as (Hrp & _ & Ht & _). pose proof (tiled_lower _ _ _ _ _ Ht Hmiss) as Hlow.
  replace (slice c (readPos s)) with (slice c (0 + readPos s)) by done.
  rewrite slice_app by lia. split_and!; [f_equal; lia | lia | lia | by apply Hm |].
  intros x Hx. destruct (Exists_dec (carries x) ops) as [| Hn]; [done |]. exfalso.
  assert (Hxm : missing (gaps s') x).
  { rewrite Hg. apply Hm. split; [| done]. apply Exists_cons_hd. unfold in_gap. cbn. lia. }
  pose proof (tiled_lower _ _ _ _ _ Ht' Hxm). lia.
Qed.

Definition sorter_example : list sorter_op :=
  [OpPush 4 2 false; OpPush 6 2 false; OpPop; OpPush 2 8 false; OpPush 0 2 false; OpPop; OpPop].

Lemma frame_sorter_correct_witness :
  Forall op_ok sorter_example
  /\ match run_ops (fun x => x) sorter_example newFrameSorter [] with
     | Ok (s, out) =>
         let '(more, s') := drain (S (size (queue s))) s in
         let m := readPos s' in
         out ++ more = slice (fun x => x) 0 m /\ 0 <= m < MaxByteCount
         /\ ~ covered sorter_example m /\ forall x, 0 <= x < m -> covered sorter_example x
     | Err e => e = errTooManyGaps
     | Panic _ => False
     end.
Proof.
  assert (Hok : Forall op_ok sorter_example).
  { unfold sorter_example, op_ok, MaxByteCount. repeat (constructor; [lia || done |]). constructor. }
  split; [exact Hok | exact (frame_sorter_correct (fun x => x) sorter_example Hok)].
Defined.

(** A frame that covers several queued chunks leaves all but the first of
    them in the queue: after everything has been read, [HasMoreData] still says
    that there is data. *)
Theorem frame_sorter_orphan_chunks :
  match run_ops (fun x => x) sorter_example newFrameSorter [] with
  | Ok (s, out) => out = [0; 1; 2; 3; 4; 5; 6; 7; 8; 9] /\ readPos s = 10
      /\ gaps s = [mkByteInterval 10 MaxByteCount] /\ HasMoreData s = true
  | _ => False
  end.
Proof. vm_compute. done. Qed.
