(* ===== verification/LinkedSorter.v ===== *)
(** * The frame sorter on a linked list
      (frame_sorter.go, internal/utils/byteinterval_linkedlist.go)

    [Push] as the code performs it: [gap] and [endGap] are pointers to elements
    of the list of gaps, elements are removed while the list is walked through,
    and assignments go through the pointers, also to an element that has been
    removed.  It implements the function on lists of FrameSorter. *)

From S2P Require Import Prelude Protocol LinkedList FrameSorter.

(** internal/utils/byteinterval_linkedlist.go *)
Definition ByteIntervalList : list_operations ByteInterval :=
  ItemList_operations (mkByteInterval 0 0).

Abbreviation gprog := (@prog ByteInterval).

(** [gaps] is a pointer to a list. *)
Record linkedSorter : Type := mkLinkedSorter {
  ls_queue : gmap Z (list Z); ls_readPos : Z; ls_finalOffset : Z; ls_gaps : nat }.

Definition with_queue (s : linkedSorter) (q : gmap Z (list Z)) : linkedSorter :=
  mkLinkedSorter q (ls_readPos s) (ls_finalOffset s) (ls_gaps s).

Definition linked_newFrameSorter : gprog linkedSorter :=
  l ← lo_New ByteIntervalList;
  lo_PushFront ByteIntervalList l (mkByteInterval 0 MaxByteCount);;
  mret (mkLinkedSorter ∅ 0 MaxByteCount l).

(** [e.Value.Start = z] and [e.Value.End = z] *)
Definition set_Start (z : Z) (e : ItemElement ByteInterval) : ItemElement ByteInterval :=
  set_Value (mkByteInterval z (End (el_Value e))) e.
Definition set_End (z : Z) (e : ItemElement ByteInterval) : ItemElement ByteInterval :=
  set_Value (mkByteInterval (Start (el_Value e)) z) e.

Definition gaps_out_of_fuel {A} : gprog A := fun _ => Panic "out of fuel".

Inductive gap_found : Type := FoundDuplicate | FoundNone | FoundAt (gap : loc).

(** The first loop: skip the gaps before the frame. *)
Fixpoint linked_find_gap (fuel : nat) (start end_ : Z) (gap : option loc) : gprog gap_found :=
  match gap with
  | None => mret FoundNone
  | Some gap =>
      match fuel with
      | O => gaps_out_of_fuel
      | S fuel =>
          g ← get gap;
          if end_ <=? Start (el_Value g) then mret FoundDuplicate
          else if (Start (el_Value g) <? end_) && (start <=? End (el_Value g)) then mret (FoundAt gap)
          else next ← lo_Next ByteIntervalList gap; linked_find_gap fuel start end_ next
      end
  end.

(** The second loop, which also removes the gaps between [gap] and [endGap]; no
    result when there is no next gap. *)
Fixpoint linked_find_end (fuel : nat) (l : nat) (gap : loc) (end_ : Z) (q : gmap Z (list Z)) (endGap : loc)
    : gprog (gmap Z (list Z) * option loc) :=
  match fuel with
  | O => gaps_out_of_fuel
  | S fuel =>
      e ← get endGap;
      if End (el_Value e) <=? end_ then
        next ← lo_Next ByteIntervalList endGap;
        match next with
        | None => mret (q, None)
        | Some nextEndGap =>
            (if bool_decide (endGap ≠ gap) then lo_Remove ByteIntervalList l endGap;; mret tt else mret tt);;
            n ← get nextEndGap;
            if end_ <=? Start (el_Value n) then mret (q, Some endGap)
            else
              e ← get endGap;
              linked_find_end fuel l gap end_ (delete (End (el_Value e)) q) nextEndGap
        end
      else mret (q, Some endGap)
  end.

(** The frame [start, end) is put into the gaps. *)
Definition linked_fill (l : nat) (gap endGap : loc) (start end_ : Z) : gprog unit :=
  g ← get gap; e ← get endGap;
  if start =? Start (el_Value g) then
    (if End (el_Value g) <=? end_ then lo_Remove ByteIntervalList l gap;; mret tt else mret tt);;
    e ← get endGap;
    if end_ <? End (el_Value e) then modify endGap (set_Start end_) else mret tt
  else if end_ =? End (el_Value e) then modify gap (set_End start)
  else if bool_decide (gap = endGap) then
    lo_InsertAfter ByteIntervalList l (mkByteInterval end_ (End (el_Value g))) gap;;
    modify gap (set_End start)
  else
    modify gap (set_End start);;
    modify endGap (set_Start end_).

(** The number of gaps bounds the iterations of both loops. *)
Definition linked_push_gaps (s : linkedSorter) (data : list Z) (offset : Z)
    : gprog (linkedSorter * option go_error) :=
  let l := ls_gaps s in
  let start := offset in
  let end_ := offset +64 len data in
  front ← lo_Front ByteIntervalList l;
  n ← lo_Len ByteIntervalList l;
  found ← linked_find_gap (Z.to_nat n) start end_ front;
  match found with
  | FoundDuplicate => mret (s, Some errDuplicateStreamData)
  | FoundNone => mret (s, Some errNoGap)
  | FoundAt gap =>
      g ← get gap;
      let add := if start <? Start (el_Value g) then Start (el_Value g) -64 start else 0 in
      let start := start +64 add in
      let data := drop_z add data in
      '(q, endGap) ← linked_find_end (Z.to_nat n) l gap end_ (ls_queue s) gap;
      match endGap with
      | None => mret (with_queue s q, Some errNoEndGap)
      | Some endGap =>
          e ← get endGap;
          let cutLen := if End (el_Value e) <? end_ then end_ -64 End (el_Value e) else 0 in
          let data := take_z (len data -64 cutLen) data in
          let end_ := end_ -64 cutLen in
          linked_fill l gap endGap start end_;;
          n ← lo_Len ByteIntervalList l;
          if MaxStreamFrameSorterGaps <? n then mret (with_queue s q, Some errTooManyGaps)
          else mret (with_queue s (<[start := data]> q), None)
      end
  end.

Definition linked_push (s : linkedSorter) (data : list Z) (offset : Z) (fin : bool)
    : gprog (linkedSorter * option go_error) :=
  let s := if fin then mkLinkedSorter (ls_queue s) (ls_readPos s) (offset +64 len data) (ls_gaps s) else s in
  if len data =? 0 then mret (s, None) else
  match ls_queue s !! offset with
  | Some oldData =>
      if len data <=? len oldData then mret (s, Some errDuplicateStreamData)
      else linked_push_gaps s (drop_z (len oldData) data) (offset +64 len oldData)
  | None => linked_push_gaps s data offset
  end.

Definition linked_Push (s : linkedSorter) (data : list Z) (offset : Z) (fin : bool)
    : gprog (linkedSorter * option go_error) :=
  '(s, err) ← linked_push s data offset fin;
  if is_duplicate err then mret (s, None) else mret (s, err).

Definition linked_Pop (s : linkedSorter) : option (list Z) * bool * linkedSorter :=
  match ls_queue s !! ls_readPos s with
  | None => (None, ls_finalOffset s <=? ls_readPos s, s)
  | Some data =>
      let readPos := ls_readPos s +64 len data in
      (Some data, ls_finalOffset s <=? readPos,
       mkLinkedSorter (delete (ls_readPos s) (ls_queue s)) readPos (ls_finalOffset s) (ls_gaps s))
  end.

(** ** Refinement *)

Ltac gap_ops := cbn [lo_New lo_Len lo_Front lo_Next lo_Remove lo_PushFront lo_InsertAfter ByteIntervalList ItemList_operations].

Lemma find_gap_refines l start end_ cs : forall fuel h a bs vb vc, repr h a -> seqs a !! l = Some (bs ++ cs) ->
  holds a bs vb -> holds a cs vc -> (length cs <= fuel)%nat ->
  match find_gap start end_ vb vc with
  | GapDuplicate => linked_find_gap fuel start end_ (Node <$> head cs) h = Ok (FoundDuplicate, h)
  | GapNone => linked_find_gap fuel start end_ (Node <$> head cs) h = Ok (FoundNone, h)
  | GapAt before gap after => exists bs' g as',
      linked_find_gap fuel start end_ (Node <$> head cs) h = Ok (FoundAt (Node g), h) /\
      bs ++ cs = bs' ++ g :: as' /\ holds a bs' before /\ values a !! g = Some gap /\ holds a as' after
  end.
Proof.
  induction cs as [| c cs IH]; intros fuel h a bs vb vc Hr Hl Hb Hc Hfuel.
  - inv Hc. cbn. by destruct fuel.
  - destruct vc as [| v vc]; [inv Hc |]. apply holds_cons in Hc as [Hv Hc].
    destruct fuel as [| fuel]; [cbn in Hfuel; lia |].
    destruct (place_get _ _ _ _ _ _ _ Hr Hl Hv) as (el & Hel & Hval).
    cbn [head fmap option_fmap option_map linked_find_gap find_gap]. rewrite (get_step _ _ _ _ Hel), Hval.
    destruct (end_ <=? Start v); [done |].
    destruct ((Start v <? end_) && (start <=? End v)); [by exists bs, c, cs |].
    gap_ops. rewrite (prog_bind_step _ _ _ _ _ (Next_spec _ _ _ _ _ _ Hr Hl)).
    assert (Hl' : seqs a !! l = Some ((bs ++ [c]) ++ cs)) by by rewrite <- app_assoc.
    assert (Hb' : holds a (bs ++ [c]) (vb ++ [v])) by (apply Forall2_app; [done | by constructor]).
    specialize (IH fuel h a (bs ++ [c]) (vb ++ [v]) vc Hr Hl' Hb' Hc ltac:(cbn in Hfuel; lia)).
    rewrite <- app_assoc in IH. exact IH.
Qed.

(** Where [endGap] is, in a list that has [gap] between [bs] and [rest]. *)
Definition end_at (l : nat) (a : sequences ByteInterval) (bs : list nat) (g en : nat) (pos : end_pos)
    (rest : list nat) : Prop :=
  match pos with
  | AtGap => en = g /\ seqs a !! l = Some (bs ++ g :: rest)
  | Later => seqs a !! l = Some (bs ++ g :: en :: rest)
  | Removed => (en ∉ bs ++ g :: rest) /\ seqs a !! l = Some (bs ++ g :: rest)
  end.

(** What the second loop does from [gap] on, with [cur] the gap or the element
    behind it. *)
Definition end_found (l : nat) (h : heap ByteInterval) (a : sequences ByteInterval) (bs : list nat) (g : nat)
    (vb : list ByteInterval) (vg : ByteInterval) (run : outcome (gmap Z (list Z) * option loc * heap ByteInterval))
    (found : gmap Z (list Z) * end_search) : Prop :=
  match found with
  | (q, EndNone kept) => exists h', run = Ok (q, None, h') /\ represents h' l (vb ++ vg :: kept)
  | (_, EndAt q endGap pos vrest) => exists h' a' en rest, run = Ok (q, Some (Node en), h') /\
      repr h' a' /\ values a' = values a /\ end_at l a' bs g en pos rest /\ values a' !! en = Some endGap /\
      holds a' rest vrest
  end.

Lemma with_seq_at (a : sequences ByteInterval) l xs : is_Some (seqs a !! l) -> seqs (with_seq a l xs) !! l = Some xs.
Proof. intros. rewrite seqs_with_seq by done. by rewrite decide_True. Qed.

(** The loop at an element [cur] behind the gap. *)
Lemma find_end_later l end_ bs g vb vg rest : forall fuel h a q cur vcur vrest, repr h a ->
  seqs a !! l = Some (bs ++ g :: cur :: rest) -> holds a bs vb -> values a !! g = Some vg ->
  values a !! cur = Some vcur -> holds a rest vrest -> (length rest < fuel)%nat ->
  end_found l h a bs g vb vg (linked_find_end fuel l (Node g) end_ q (Node cur) h)
    (find_end_gap end_ q vcur false vrest).
Proof.
  induction rest as [| c rest IH]; intros fuel h a q cur vcur vrest Hr Hl Hb Hg Hcur Hrest Hfuel;
    (destruct fuel as [| fuel]; [lia |]); assert (Hl' := Hl);
    change (bs ++ g :: cur :: ?x) with (bs ++ [g] ++ cur :: x) in Hl'; rewrite app_assoc in Hl';
    destruct (place_get _ _ _ _ _ _ _ Hr Hl' Hcur) as (el & Hel & Hval);
    assert (Hnext := Next_spec _ _ _ _ _ _ Hr Hl'); cbn [linked_find_end]; rewrite (get_step _ _ _ _ Hel), Hval.
  - destruct vrest; [| inv Hrest]. cbn [find_end_gap]. gap_ops. destruct (End vcur <=? end_).
    + rewrite (prog_bind_step _ _ _ _ _ Hnext). exists h. split; [done |].
      exists a. eexists. split_and!; [done | exact Hl |]. apply Forall2_app; [done |]. by repeat constructor.
    + exists h, a, cur, []. by split_and!.
  - destruct vrest as [| v vrest]; [inv Hrest |]. apply holds_cons in Hrest as [Hv Hrest]. cbn [find_end_gap]. gap_ops.
    destruct (End vcur <=? end_); [| exists h, a, cur, (c :: rest); split_and!; try done; by constructor].
    rewrite (prog_bind_step _ _ _ _ _ Hnext). cbn [head fmap option_fmap option_map].
    assert (Hnd := repr_nodup _ _ Hr _ _ Hl'). apply NoDup_middle in Hnd as (Hn1 & Hn2 & _).
    rewrite bool_decide_eq_true_2 by (intros [= ->]; apply Hn1, elem_of_app; right; left).
    destruct (Remove_in _ _ _ _ _ _ Hr Hl') as (h1 & w & Hrem & _ & Hr1). rewrite <- app_assoc in Hr1.
    rewrite (prog_bind_step_unit _ _ h h1) by (by rewrite (prog_bind_step _ _ _ _ _ Hrem)).
    assert (Hl1 : seqs (with_seq a l (bs ++ [g] ++ c :: rest)) !! l = Some ((bs ++ [g]) ++ c :: rest))
      by (rewrite <- app_assoc; apply with_seq_at; eauto).
    destruct (place_get h1 _ l c _ rest v Hr1 Hl1 Hv) as (ec & Hec & Hvc).
    rewrite (get_step _ _ _ _ Hec), Hvc. destruct (end_ <=? Start v).
    + exists h1. eexists _, cur, (c :: rest). split_and!; try done; [| by constructor].
      rewrite <- app_assoc in Hl1. split; [| exact Hl1].
      intros Hin. change (bs ++ g :: c :: rest) with (bs ++ [g] ++ c :: rest) in Hin. rewrite app_assoc in Hin.
      apply elem_of_app in Hin. tauto.
    + destruct (repr_node h1 _ cur Hr1) as (e1 & He1 & Hv1); [by eapply lookup_lt_Some |].
      rewrite (get_step _ _ _ _ He1). cbn in Hv1. rewrite Hcur in Hv1. injection Hv1 as <-.
      rewrite <- app_assoc in Hl1. specialize (IH fuel h1 _ (delete (End vcur) q) c v vrest Hr1 Hl1 Hb Hg Hv Hrest).
      specialize (IH ltac:(cbn in Hfuel; lia)).
      destruct (find_end_gap end_ (delete (End vcur) q) v false vrest) as [q' [kept | q'' eg pos vr]]; exact IH.
Qed.

Lemma find_end_refines l end_ bs g vb vg rest fuel h a q vrest : repr h a ->
  seqs a !! l = Some (bs ++ g :: rest) -> holds a bs vb -> values a !! g = Some vg -> holds a rest vrest ->
  (length rest < fuel)%nat ->
  end_found l h a bs g vb vg (linked_find_end fuel l (Node g) end_ q (Node g) h)
    (find_end_gap end_ q vg true vrest).
Proof.
  intros Hr Hl Hb Hg Hrest Hfuel. destruct fuel as [| fuel]; [lia |].
  destruct (place_get _ _ _ _ _ _ _ Hr Hl Hg) as (el & Hel & Hval).
  assert (Hnext := Next_spec _ _ _ _ _ _ Hr Hl). cbn [linked_find_end]. rewrite (get_step _ _ _ _ Hel), Hval.
  destruct rest as [| c rest], vrest as [| v vrest]; try (by inv Hrest); cbn [find_end_gap]; gap_ops;
    destruct (End vg <=? end_).
  - rewrite (prog_bind_step _ _ _ _ _ Hnext). exists h. split; [done |]. by eapply place_represents.
  - exists h, a, g, []. by split_and!.
  - rewrite (prog_bind_step _ _ _ _ _ Hnext). cbn [head fmap option_fmap option_map]. rewrite bool_decide_eq_false_2 by naive_solver.
    rewrite (prog_bind_step_unit _ _ h h) by done. assert (Hc := Hrest). apply holds_cons in Hc as [Hv Hrest'].
    assert (Hl' := Hl). change (bs ++ g :: c :: rest) with (bs ++ [g] ++ c :: rest) in Hl'. rewrite app_assoc in Hl'.
    destruct (place_get _ _ _ _ _ _ _ Hr Hl' Hv) as (ec & Hec & Hvc).
    rewrite (get_step _ _ _ _ Hec), Hvc. destruct (end_ <=? Start v).
    + exists h, a, g, (c :: rest). by split_and!.
    + rewrite (get_step _ _ _ _ Hel), Hval. apply (find_end_later l end_ bs g vb vg rest); try done. cbn in Hfuel. lia.
  - exists h, a, g, (c :: rest). by split_and!.
Qed.

(** Assignments through pointers. *)
Lemma modify_value (h : heap ByteInterval) n f g el : load h (Node n) = Some el -> f el = g el ->
  modify (Node n) f h = modify (Node n) g h.
Proof.
  intros Hel Hfg. unfold modify. rewrite Hel. f_equal. f_equal. unfold upd. f_equal. cbn in Hel.
  apply list_eq. intros i. rewrite !list_lookup_alter. case_decide; [| done]. subst. rewrite Hel. cbn. by rewrite Hfg.
Qed.

Lemma set_Start_spec h a n v z : repr h a -> values a !! n = Some v ->
  exists h', modify (Node n) (set_Start z) h = Ok (tt, h') /\
    repr h' (mkSeqs (<[n := mkByteInterval z (End v)]> (values a)) (seqs a)).
Proof.
  intros Hr Hv. assert (Hlt : (n < length (values a))%nat) by by eapply lookup_lt_Some.
  destruct (repr_node h a n Hr Hlt) as (el & Hel & Hval). rewrite Hv in Hval. injection Hval as ->.
  destruct (set_Value_spec h a n (mkByteInterval z (End (el_Value el))) Hr Hlt) as (h' & Hset & Hr').
  exists h'. split; [| done]. rewrite <- Hset. by apply (modify_value h n _ _ el).
Qed.

Lemma set_End_spec h a n v z : repr h a -> values a !! n = Some v ->
  exists h', modify (Node n) (set_End z) h = Ok (tt, h') /\
    repr h' (mkSeqs (<[n := mkByteInterval (Start v) z]> (values a)) (seqs a)).
Proof.
  intros Hr Hv. assert (Hlt : (n < length (values a))%nat) by by eapply lookup_lt_Some.
  destruct (repr_node h a n Hr Hlt) as (el & Hel & Hval). rewrite Hv in Hval. injection Hval as ->.
  destruct (set_Value_spec h a n (mkByteInterval (Start (el_Value el)) z) Hr Hlt) as (h' & Hset & Hr').
  exists h'. split; [| done]. rewrite <- Hset. by apply (modify_value h n _ _ el).
Qed.

Lemma holds_set_in (a : sequences ByteInterval) p n q vp vq v w : NoDup (p ++ n :: q) -> values a !! n = Some w ->
  holds a p vp -> holds a q vq -> holds (mkSeqs (<[n := v]> (values a)) (seqs a)) (p ++ n :: q) (vp ++ v :: vq).
Proof.
  intros (Hp & Hq & _)%NoDup_middle Hn Hvp Hvq. apply Forall2_app; [by apply holds_set |].
  constructor; [| by apply holds_set]. cbn. apply list_lookup_insert_eq. by eapply lookup_lt_Some.
Qed.

Section fill.
Context (l : nat) (h : heap ByteInterval) (a : sequences ByteInterval) (bs : list nat) (g en : nat).
Context (rest : list nat) (vb : list ByteInterval) (vg ve : ByteInterval) (vrest : list ByteInterval).
Context (start end_ : Z).
Context (Hr : repr h a) (Hb : holds a bs vb) (Hg : values a !! g = Some vg).
Context (He : values a !! en = Some ve) (Hrest : holds a rest vrest).

Lemma fill_step (R : outcome (unit * heap ByteInterval) -> Prop) :
  R ((if start =? Start vg then
        (if End vg <=? end_ then ItemList_Remove l (Node g);; mret tt else mret tt);;
        e ← get (Node en);
        if end_ <? End (el_Value e) then modify (Node en) (set_Start end_) else mret tt
      else if end_ =? End ve then modify (Node g) (set_End start)
      else if bool_decide (Node g = Node en) then
        ItemList_InsertAfter l (mkByteInterval end_ (End vg)) (Node g);; modify (Node g) (set_End start)
      else modify (Node g) (set_End start);; modify (Node en) (set_Start end_) : gprog unit) h) ->
  R (linked_fill l (Node g) (Node en) start end_ h).
Proof.
  destruct (repr_node h a g Hr) as (eg & Heg & Hvg); [by eapply lookup_lt_Some |].
  destruct (repr_node h a en Hr) as (ee & Hee & Hve); [by eapply lookup_lt_Some |].
  unfold linked_fill. gap_ops. rewrite (get_step _ _ _ _ Heg), (get_step _ _ _ _ Hee).
  rewrite Hg in Hvg. rewrite He in Hve. injection Hvg as ->. injection Hve as ->. done.
Qed.
End fill.

(** The last step where the frame begins with the gap: [endGap] is shortened. *)
Lemma shorten_end h a l en ve end_ xs vs vs' : repr h a -> seqs a !! l = Some xs -> values a !! en = Some ve ->
  holds a xs vs -> ((end_ <? End ve) = false -> vs' = vs) ->
  ((end_ <? End ve) = true -> holds (mkSeqs (<[en := mkByteInterval end_ (End ve)]> (values a)) (seqs a)) xs vs') ->
  exists h', (e ← get (Node en); if end_ <? End (el_Value e) then modify (Node en) (set_Start end_) else mret tt) h
      = Ok (tt, h') /\ represents h' l vs'.
Proof.
  intros Hr Hl He Hv Hno Hyes. destruct (repr_node h a en Hr) as (ee & Hee & Hve); [by eapply lookup_lt_Some |].
  rewrite (get_step _ _ _ _ Hee). rewrite He in Hve. injection Hve as ->.
  destruct (end_ <? End (el_Value ee)).
  - destruct (set_Start_spec h a en _ end_ Hr He) as (h' & Hset & Hr'). exists h'. split; [done |].
    eexists _, xs. split_and!; [done | done | by apply Hyes].
  - exists h. split; [done |]. exists a, xs. split_and!; [done | done | by rewrite Hno].
Qed.

Lemma fill_at_gap l h a bs g rest vb vg vrest start end_ : repr h a -> seqs a !! l = Some (bs ++ g :: rest) ->
  holds a bs vb -> values a !! g = Some vg -> holds a rest vrest ->
  exists h', linked_fill l (Node g) (Node g) start end_ h = Ok (tt, h') /\
    represents h' l (vb ++ fill_gaps vg vg AtGap start end_ ++ vrest).
Proof.
  intros Hr Hl Hb Hg Hrest. assert (Hnd := repr_nodup _ _ Hr _ _ Hl).
  apply (fill_step l h a g g vg vg start end_ Hr Hg Hg (fun r => exists h', r = Ok (tt, h') /\ _)).
  unfold fill_gaps. destruct (start =? Start vg).
  - destruct (End vg <=? end_) eqn:Hle.
    + destruct (Remove_in _ _ _ _ _ _ Hr Hl) as (h1 & v & Hrem & _ & Hr1).
      rewrite (prog_bind_step_unit _ _ h h1) by (by rewrite (prog_bind_step _ _ _ _ _ Hrem)).
      eapply (shorten_end h1 _ l g vg end_ (bs ++ rest) (vb ++ vrest)); [done | by apply with_seq_at; eauto | done | | |].
      * apply (holds_seqs a); [done |]. by apply Forall2_app.
      * by intros ->.
      * intros ?. bool_to_prop. lia.
    + rewrite (prog_bind_step_unit _ _ h h) by done.
      eapply (shorten_end h a l g vg end_ (bs ++ g :: rest) (vb ++ vg :: vrest)); [done | done | done | | |].
      * apply Forall2_app; [done | by constructor].
      * intros ?. bool_to_prop. lia.
      * intros _. by eapply holds_set_in.
  - destruct (end_ =? End vg).
    + destruct (set_End_spec h a g vg start Hr Hg) as (h' & Hset & Hr'). exists h'. split; [done |].
      eexists _, _. split_and!; [done | exact Hl | by eapply holds_set_in].
    + rewrite bool_decide_eq_true_2 by done.
      destruct (InsertAfter_in _ _ _ _ _ _ (mkByteInterval end_ (End vg)) Hr Hl) as (h1 & Hins & Hr1).
      rewrite (prog_bind_step _ _ _ _ _ Hins).
      destruct (set_End_spec h1 _ g vg start Hr1) as (h' & Hset & Hr'); [by apply lookup_app_l_Some |].
      exists h'. split; [done |]. eexists _, _. split_and!; [done | by apply with_seq_at; eauto |].
      eapply (holds_set_in _ bs g (length (values a) :: rest)).
      * by eapply (repr_nodup _ _ Hr1), with_seq_at; eauto.
      * by apply lookup_app_l_Some.
      * apply (holds_seqs (add_value a (mkByteInterval end_ (End vg)))); [done |]. by apply holds_add.
      * apply (holds_seqs (add_value a (mkByteInterval end_ (End vg)))); [done |].
        constructor; [by apply list_lookup_middle | by apply holds_add].
Qed.

Lemma fill_removed l h a bs g en rest vb vg ve vrest start end_ : repr h a ->
  en ∉ bs ++ g :: rest -> seqs a !! l = Some (bs ++ g :: rest) ->
  holds a bs vb -> values a !! g = Some vg -> values a !! en = Some ve -> holds a rest vrest ->
  exists h', linked_fill l (Node g) (Node en) start end_ h = Ok (tt, h') /\
    represents h' l (vb ++ fill_gaps vg ve Removed start end_ ++ vrest).
Proof.
  intros Hr Hen Hl Hb Hg He Hrest. assert (Hnd := repr_nodup _ _ Hr _ _ Hl).
  assert (Hen' := Hen). rewrite in_middle in Hen'.
  apply (fill_step l h a g en vg ve start end_ Hr Hg He (fun r => exists h', r = Ok (tt, h') /\ _)).
  unfold fill_gaps. destruct (start =? Start vg).
  - destruct (End vg <=? end_) eqn:Hle.
    + destruct (Remove_in _ _ _ _ _ _ Hr Hl) as (h1 & v & Hrem & _ & Hr1).
      rewrite (prog_bind_step_unit _ _ h h1) by (by rewrite (prog_bind_step _ _ _ _ _ Hrem)).
      eapply (shorten_end h1 _ l en ve end_ (bs ++ rest) (vb ++ vrest)); [done | by apply with_seq_at; eauto | done | | |].
      * apply (holds_seqs a); [done |]. by apply Forall2_app.
      * by intros ->.
      * intros ->. apply holds_set; [tauto |]. apply (holds_seqs a); [done |]. by apply Forall2_app.
    + rewrite (prog_bind_step_unit _ _ h h) by done.
      eapply (shorten_end h a l en ve end_ (bs ++ g :: rest) (vb ++ vg :: vrest)); [done | done | done | | |].
      * apply Forall2_app; [done | by constructor].
      * by intros ->.
      * intros ->. apply holds_set; [done |]. apply Forall2_app; [done | by constructor].
  - destruct (end_ =? End ve).
    + destruct (set_End_spec h a g vg start Hr Hg) as (h' & Hset & Hr'). exists h'. split; [done |].
      eexists _, _. split_and!; [done | exact Hl | by eapply holds_set_in].
    + rewrite bool_decide_eq_false_2 by (intros [= ->]; tauto).
      destruct (set_End_spec h a g vg start Hr Hg) as (h1 & Hset & Hr1).
      rewrite (prog_bind_step_unit _ _ _ _ Hset).
      destruct (set_Start_spec h1 _ en ve end_ Hr1) as (h2 & Hset2 & Hr2).
      { cbn. rewrite list_lookup_insert_ne by (intros ->; tauto). done. }
      exists h2. split; [done |]. eexists _, _. split_and!; [done | exact Hl |].
      apply (holds_set (mkSeqs (<[g := mkByteInterval (Start vg) start]> (values a)) (seqs a))); [done |].
      by eapply holds_set_in.
Qed.

Lemma fill_later l h a bs g en rest vb vg ve vrest start end_ : repr h a ->
  seqs a !! l = Some (bs ++ g :: en :: rest) ->
  holds a bs vb -> values a !! g = Some vg -> values a !! en = Some ve -> holds a rest vrest ->
  exists h', linked_fill l (Node g) (Node en) start end_ h = Ok (tt, h') /\
    represents h' l (vb ++ fill_gaps vg ve Later start end_ ++ vrest).
Proof.
  intros Hr Hl Hb Hg He Hrest. assert (Hnd := repr_nodup _ _ Hr _ _ Hl).
  assert (Hnd' := Hnd). change (bs ++ g :: en :: rest) with (bs ++ [g] ++ en :: rest) in Hnd'.
  rewrite app_assoc in Hnd'. assert (Hne : g <> en).
  { intros ->. apply NoDup_middle in Hnd' as (Hin & _). apply Hin, elem_of_app. right. left. }
  assert (Hlast : forall v, holds (mkSeqs (<[en := v]> (values a)) (seqs a)) ((bs ++ [g]) ++ en :: rest)
    ((vb ++ [vg]) ++ v :: vrest)).
  { intros v. eapply holds_set_in; try done. apply Forall2_app; [done | by repeat constructor]. }
  apply (fill_step l h a g en vg ve start end_ Hr Hg He (fun r => exists h', r = Ok (tt, h') /\ _)).
  unfold fill_gaps. destruct (start =? Start vg).
  - destruct (End vg <=? end_) eqn:Hle.
    + destruct (Remove_in _ _ _ _ _ _ Hr Hl) as (h1 & v & Hrem & _ & Hr1).
      rewrite (prog_bind_step_unit _ _ h h1) by (by rewrite (prog_bind_step _ _ _ _ _ Hrem)).
      eapply (shorten_end h1 _ l en ve end_ (bs ++ en :: rest) (vb ++ ve :: vrest)); [done | by apply with_seq_at; eauto | done | | |].
      * apply (holds_seqs a); [done |]. apply Forall2_app; [done | by constructor].
      * by intros ->.
      * intros ->. apply (holds_set_in _ bs en rest vb vrest _ ve); try done.
        by apply NoDup_middle in Hnd as (_ & _ & Hnd).
    + rewrite (prog_bind_step_unit _ _ h h) by done.
      eapply (shorten_end h a l en ve end_ (bs ++ g :: en :: rest) (vb ++ vg :: ve :: vrest)); [done | done | done | | |].
      * apply Forall2_app; [done | by repeat constructor].
      * by intros ->.
      * intros ->. specialize (Hlast (mkByteInterval end_ (End ve))). rewrite <- !app_assoc in Hlast. done.
  - destruct (end_ =? End ve).
    + destruct (set_End_spec h a g vg start Hr Hg) as (h' & Hset & Hr'). exists h'. split; [done |].
      eexists _, _. split_and!; [done | exact Hl |]. eapply holds_set_in; try done. by constructor.
    + rewrite bool_decide_eq_false_2 by congruence.
      destruct (set_End_spec h a g vg start Hr Hg) as (h1 & Hset & Hr1).
      rewrite (prog_bind_step_unit _ _ _ _ Hset).
      destruct (set_Start_spec h1 _ en ve end_ Hr1) as (h2 & Hset2 & Hr2).
      { cbn. by rewrite list_lookup_insert_ne. }
      exists h2. split; [done |]. eexists _, _. split_and!; [done | exact Hl |].
      rewrite (app_assoc bs [g] (en :: rest) : bs ++ g :: en :: rest = _).
      rewrite (app_assoc vb [mkByteInterval (Start vg) start] ([mkByteInterval end_ (End ve)] ++ vrest)
        : vb ++ [mkByteInterval (Start vg) start; mkByteInterval end_ (End ve)] ++ vrest = _).
      apply (holds_set_in (mkSeqs (<[g := mkByteInterval (Start vg) start]> (values a)) (seqs a)) _ en rest _ _ _ ve); [done | | |].
      * cbn. by rewrite list_lookup_insert_ne.
      * eapply (holds_set_in a bs g [] vb []); [| done | done | constructor].
        by apply (NoDup_parts _ _ Hnd').
      * apply holds_set; [| done]. apply NoDup_middle in Hnd as (_ & Hin & _). intros ?. apply Hin. by right.
Qed.

Lemma fill_refines l h a bs g en pos rest vb vg ve vrest start end_ : repr h a -> end_at l a bs g en pos rest ->
  holds a bs vb -> values a !! g = Some vg -> values a !! en = Some ve -> holds a rest vrest ->
  exists h', linked_fill l (Node g) (Node en) start end_ h = Ok (tt, h') /\
    represents h' l (vb ++ fill_gaps vg ve pos start end_ ++ vrest).
Proof.
  intros Hr Hat Hb Hg He Hrest. destruct pos.
  - destruct Hat as [-> Hl]. rewrite Hg in He. injection He as <-. by eapply fill_at_gap.
  - by eapply fill_later.
  - destruct Hat as [Hen Hl]. by eapply fill_removed.
Qed.

(** ** The methods *)

(** The linked sorter, in its heap, and the sorter with a list of gaps. *)
Definition sorter_repr (hp : heap ByteInterval) (ls : linkedSorter) (s : frameSorter) : Prop :=
  represents hp (ls_gaps ls) (gaps s) /\ ls_queue ls = queue s /\ ls_readPos ls = readPos s /\
  ls_finalOffset ls = finalOffset s.

Definition push_implements (hp : heap ByteInterval) (m : gprog (linkedSorter * option go_error))
    (r : frameSorter * option go_error) : Prop :=
  exists hp' ls', m hp = Ok (ls', snd r, hp') /\ sorter_repr hp' ls' (fst r).

Lemma push_gaps_refines hp ls s data offset : sorter_repr hp ls s ->
  push_implements hp (linked_push_gaps ls data offset) (push_gaps s data offset).
Proof.
  intros (Hrep & Hq & Hread & Hfin). assert (Hlen := represents_Len _ _ _ Hrep).
  assert (Hrep' := Hrep). destruct Hrep' as (a & xs & Hr & Hl & Hv).
  unfold push_implements, linked_push_gaps, push_gaps. gap_ops.
  rewrite (prog_bind_step _ _ _ _ _ (Front_spec _ _ _ _ Hr Hl)), (prog_bind_step _ _ _ _ _ Hlen).
  assert (Hfuel : (length xs <= Z.to_nat (len (gaps s)))%nat) by (rewrite (holds_length _ _ _ Hv); unfold len; lia).
  assert (Hfind := find_gap_refines (ls_gaps ls) offset (offset +64 len data) xs (Z.to_nat (len (gaps s))) hp a [] []
    (gaps s) Hr Hl (Forall2_nil_2 _ _ _) Hv Hfuel).
  destruct (find_gap offset (offset +64 len data) [] (gaps s)) as [| | before gap after].
  1,2: rewrite (prog_bind_step _ _ _ _ _ Hfind); by exists hp, ls.
  destruct Hfind as (bs & g & as_ & Hrun & Hsplit & Hb & Hg & Ha). cbn in Hsplit. rewrite Hsplit in Hl, Hfuel.
  rewrite (prog_bind_step _ _ _ _ _ Hrun).
  destruct (place_get _ _ _ _ _ _ _ Hr Hl Hg) as (eg & Heg & Hvg). rewrite (get_step _ _ _ _ Heg), Hvg.
  set (add := if offset <? Start gap then Start gap -64 offset else 0).
  assert (Hend := find_end_refines (ls_gaps ls) (offset +64 len data) bs g before gap as_ (Z.to_nat (len (gaps s)))
    hp a (ls_queue ls) after Hr Hl Hb Hg Ha ltac:(rewrite length_app in Hfuel; cbn in Hfuel; lia)).
  rewrite Hq in Hend |- *.
  destruct (find_end_gap (offset +64 len data) (queue s) gap true after) as [q [kept | q' endGap pos vrest]].
  - destruct Hend as (hp' & Hfe & Hrep'). rewrite (prog_bind_step _ _ _ _ _ Hfe).
    exists hp'. eexists. split; [done |]. by split_and!.
  - destruct Hend as (h1 & a1 & en & rest & Hfe & Hr1 & Hv1 & Hat & Hen & Hrest).
    rewrite (prog_bind_step _ _ _ _ _ Hfe).
    destruct (repr_node h1 a1 en Hr1) as (ee & Hee & Hve); [by eapply lookup_lt_Some |].
    rewrite (get_step _ _ _ _ Hee). rewrite Hen in Hve. injection Hve as ->.
    set (cutLen := if End (el_Value ee) <? offset +64 len data then _ else _).
    destruct (fill_refines (ls_gaps ls) h1 a1 bs g en pos rest before gap (el_Value ee) vrest (offset +64 add)
      (offset +64 len data -64 cutLen)) as (h2 & Hfill & Hrep2); try done; [by apply (holds_seqs a) | by rewrite Hv1 |].
    rewrite (prog_bind_step_unit _ _ _ _ Hfill), (prog_bind_step _ _ _ _ _ (represents_Len _ _ _ Hrep2)).
    destruct (MaxStreamFrameSorterGaps <? _); exists h2; eexists; (split; [done |]); by split_and!.
Qed.

Lemma push_refines hp ls s data offset fin : sorter_repr hp ls s ->
  push_implements hp (linked_push ls data offset fin) (push s data offset fin).
Proof.
  intros Hrep. unfold linked_push, push.
  set (ls1 := if fin then _ else ls). set (s1 := if fin then _ else s).
  assert (Hrep1 : sorter_repr hp ls1 s1).
  { unfold ls1, s1. destruct fin; [| done]. destruct Hrep as (? & ? & ? & ?). by split_and!. }
  destruct (len data =? 0); [by exists hp, ls1 |]. assert (Hq : ls_queue ls1 = queue s1) by apply Hrep1.
  rewrite Hq. destruct (queue s1 !! offset) as [old |]; [| by apply push_gaps_refines].
  destruct (len data <=? len old); [by exists hp, ls1 | by apply push_gaps_refines].
Qed.

Lemma Push_refines hp ls s data offset fin : sorter_repr hp ls s ->
  push_implements hp (linked_Push ls data offset fin) (Push s data offset fin).
Proof.
  intros Hrep. destruct (push_refines hp ls s data offset fin Hrep) as (hp' & ls' & Hrun & Hrep').
  exists hp', ls'. unfold linked_Push, Push. rewrite (prog_bind_step _ _ _ _ _ Hrun).
  destruct (push s data offset fin) as [s' err]. by destruct (is_duplicate err) eqn:Hd; cbn [snd]; rewrite Hd.
Qed.

Lemma Pop_refines hp ls s : sorter_repr hp ls s ->
  fst (linked_Pop ls) = fst (Pop s) /\ sorter_repr hp (snd (linked_Pop ls)) (snd (Pop s)).
Proof.
  intros (Hrep & Hq & Hread & Hfin). unfold linked_Pop, Pop. rewrite Hq, Hread, Hfin.
  destruct (queue s !! readPos s); by split.
Qed.

(** ** Sequences of calls *)

Inductive sorter_op : Type := SPush (data : list Z) (offset : Z) (fin : bool) | SPop.
Inductive sorter_answer : Type := Pushed (err : option go_error) | Popped (data : option (list Z)) (fin : bool).

Fixpoint linked_sorter_ops (os : list sorter_op) (ls : linkedSorter) : gprog (list sorter_answer) :=
  match os with
  | [] => mret []
  | SPush data offset fin :: os =>
      '(ls, err) ← linked_Push ls data offset fin; rs ← linked_sorter_ops os ls; mret (Pushed err :: rs)
  | SPop :: os =>
      let '(data, fin, ls) := linked_Pop ls in
      rs ← linked_sorter_ops os ls; mret (Popped data fin :: rs)
  end.

Fixpoint sorter_ops (os : list sorter_op) (s : frameSorter) : list sorter_answer :=
  match os with
  | [] => []
  | SPush data offset fin :: os => let '(s, err) := Push s data offset fin in Pushed err :: sorter_ops os s
  | SPop :: os => let '(data, fin, s) := Pop s in Popped data fin :: sorter_ops os s
  end.

Lemma sorter_ops_refine os : forall hp ls s, sorter_repr hp ls s ->
  exists hp', linked_sorter_ops os ls hp = Ok (sorter_ops os s, hp').
Proof.
  induction os as [| [data offset fin |] os IH]; intros hp ls s Hrep; cbn [linked_sorter_ops sorter_ops].
  - by exists hp.
  - destruct (Push_refines hp ls s data offset fin Hrep) as (hp1 & ls1 & Hrun & Hrep1).
    rewrite (prog_bind_step _ _ _ _ _ Hrun). destruct (Push s data offset fin) as [s1 err].
    destruct (IH hp1 ls1 s1 Hrep1) as (hp2 & Hruns). exists hp2. by rewrite (prog_bind_step _ _ _ _ _ Hruns).
  - destruct (Pop_refines hp ls s Hrep) as [Hpop Hrep1].
    destruct (linked_Pop ls) as [[data fin] ls1], (Pop s) as [[data' fin'] s1]. cbn [fst snd] in *.
    injection Hpop as -> ->. destruct (IH hp ls1 s1 Hrep1) as (hp2 & Hruns). exists hp2.
    by rewrite (prog_bind_step _ _ _ _ _ Hruns).
Qed.

(** C20. The frame sorter on its linked list of gaps, through every sequence of
    frames pushed and data popped from a new sorter on, whatever the offsets and
    overlaps, gives the errors and the data of the sorter with a list of gaps: no
    step dereferences a nil pointer, both loops end, and assignments to gaps that
    have been removed are without effect. *)
Theorem linked_sorter_correct os :
  exists hp, (ls ← linked_newFrameSorter; linked_sorter_ops os ls) no_heap =
    Ok (sorter_ops os newFrameSorter, hp).
Proof.
  destruct (NewItemList_spec (mkByteInterval 0 0) no_heap no_sequences repr_empty) as (h1 & Hnew & Hr1).
  destruct (PushFront_spec h1 _ 0 [] (mkByteInterval 0 MaxByteCount) Hr1 eq_refl) as (h2 & Hpush & Hr2).
  destruct (sorter_ops_refine os h2 (mkLinkedSorter ∅ 0 MaxByteCount 0) newFrameSorter) as (h3 & Hrun).
  { split_and!; try done. eapply represents_with_seq; [exact Hr2 | by exists [] |]. apply holds_new. }
  exists h3. rewrite (prog_bind_step _ _ no_heap (mkLinkedSorter ∅ 0 MaxByteCount 0) h2); [done |].
  unfold linked_newFrameSorter. gap_ops. rewrite (prog_bind_step _ _ _ _ _ Hnew).
  by rewrite (prog_bind_step _ _ _ _ _ Hpush).
Qed.
