(* ===== verification/Float.v ===== *)
(** * Floating-point arithmetic of Go

    [float64] and [float32] values as dyadic numbers, with the results of the
    operations rounded to nearest, ties to even, to the 53 or 24 bits of the
    format.  The code stays far from the bounds of the exponents, which are not
    modelled. *)

From S2P Require Import Prelude.

(** The number [mant * 2 ^ expo]. *)
Record float : Type := mkFloat { mant : Z; expo : Z }.

Definition prec64 : Z := 53.
Definition prec32 : Z := 24.

(** [m * 2 ^ e], rounded to [prec] bits. *)
Definition round_to (prec m e : Z) : float :=
  let a := Z.abs m in
  let d := Z.log2 a + 1 - prec in
  if (a =? 0) || (d <=? 0) then mkFloat m e else
  let q := a / 2 ^ d in
  let r := a mod 2 ^ d in
  let half := 2 ^ (d - 1) in
  let q' := if (half <? r) || ((half =? r) && Z.odd q) then q + 1 else q in
  mkFloat (Z.sgn m * q') (e + d).

Definition of_int (prec n : Z) : float := round_to prec n 0.

Definition fmul (prec : Z) (x y : float) : float :=
  round_to prec (mant x * mant y) (expo x + expo y).

Definition fadd (prec : Z) (x y : float) : float :=
  let e := Z.min (expo x) (expo y) in
  round_to prec (mant x * 2 ^ (expo x - e) + mant y * 2 ^ (expo y - e)) e.

(** The quotient is computed with more bits than the format has, the last one
    standing for the remainder. *)
Definition fdiv (prec : Z) (x y : float) : float :=
  let k := prec + 3 + Z.log2 (Z.abs (mant y)) in
  let n := Z.abs (mant x) * 2 ^ k in
  let d := Z.abs (mant y) in
  let sticky := if n mod d =? 0 then 0 else 1 in
  round_to prec (Z.sgn (mant x) * Z.sgn (mant y) * (2 * (n / d) + sticky))
    (expo x - expo y - k - 1).

(** Conversion to an integer type: truncation. *)
Definition to_int (x : float) : Z :=
  if 0 <=? expo x then mant x * 2 ^ expo x else Z.quot (mant x) (2 ^ (- expo x)).

(** ** Exact cases *)

Lemma round_exact prec m e : Z.abs m < 2 ^ prec -> round_to prec m e = mkFloat m e.
Proof.
  intros Hm. unfold round_to. destruct (Z.eqb_spec (Z.abs m) 0); [done |]. cbn [orb].
  destruct (Z.leb_spec (Z.log2 (Z.abs m) + 1 - prec) 0); [done |].
  assert (Z.log2 (Z.abs m) < prec) by (apply Z.log2_lt_pow2; lia). lia.
Qed.

Lemma of_int_exact prec n : Z.abs n < 2 ^ prec -> of_int prec n = mkFloat n 0.
Proof. apply round_exact. Qed.

Lemma fmul_exact prec x y : Z.abs (mant x * mant y) < 2 ^ prec ->
  fmul prec x y = mkFloat (mant x * mant y) (expo x + expo y).
Proof. apply round_exact. Qed.

Lemma fadd_exact prec m n e : Z.abs (m + n) < 2 ^ prec ->
  fadd prec (mkFloat m e) (mkFloat n e) = mkFloat (m + n) e.
Proof.
  intros H. unfold fadd. cbn [mant expo]. rewrite Z.min_id, Z.sub_diag, !Z.mul_1_r.
  by apply round_exact.
Qed.

(** ** Order

    Rounding is monotone: a bound that the format represents stays a bound. *)

Definition fle (x y : float) : Prop :=
  let e := Z.min (expo x) (expo y) in
  mant x * 2 ^ (expo x - e) <= mant y * 2 ^ (expo y - e).

Lemma pow_split a b : 0 <= a -> 0 <= b -> 2 ^ (a + b) = 2 ^ a * 2 ^ b.
Proof. intros. by apply Z.pow_add_r. Qed.

Lemma fle_at k x y : k <= expo x -> k <= expo y ->
  fle x y <-> mant x * 2 ^ (expo x - k) <= mant y * 2 ^ (expo y - k).
Proof.
  intros Hx Hy. unfold fle. cbv zeta. set (e := Z.min (expo x) (expo y)).
  replace (expo x - k) with ((expo x - e) + (e - k)) by lia.
  replace (expo y - k) with ((expo y - e) + (e - k)) by lia.
  rewrite !pow_split, !Z.mul_assoc by lia. apply Z.mul_le_mono_pos_r. lia.
Qed.

Lemma fle_refl_eq x y : x = y -> fle x y.
Proof. intros ->. unfold fle. lia. Qed.

Lemma fle_same m n e : m <= n -> fle (mkFloat m e) (mkFloat n e).
Proof.
  intros. rewrite (fle_at e) by (cbn [expo]; lia). cbn [expo mant]. rewrite Z.sub_diag. lia.
Qed.

(** The quotient and the exponent of a value that is rounded. *)
Lemma round_cases prec m e : 0 < prec -> 0 <= m ->
  round_to prec m e = mkFloat m e
  \/ exists d q', 0 < d /\ 2 ^ (prec - 1 + d) <= m /\ round_to prec m e = mkFloat q' (e + d)
     /\ m / 2 ^ d <= q' /\ (q' = m / 2 ^ d \/ q' = m / 2 ^ d + 1 /\ m mod 2 ^ d <> 0).
Proof.
  intros Hp Hm. unfold round_to. rewrite (Z.abs_eq m) by done.
  destruct (Z.eqb_spec m 0); [by left |]. cbn [orb].
  set (d := Z.log2 m + 1 - prec). destruct (Z.leb_spec d 0); [by left |]. right.
  rewrite Z.sgn_pos, Z.mul_1_l by lia. eexists d, _. split; [done |]. split.
  { replace (prec - 1 + d) with (Z.log2 m) by lia. apply Z.log2_spec. lia. }
  split; [done |].
  destruct ((2 ^ (d - 1) <? m mod 2 ^ d) || ((2 ^ (d - 1) =? m mod 2 ^ d) && Z.odd (m / 2 ^ d))) eqn:E;
    [| lia].
  assert (0 < 2 ^ (d - 1)) by (apply Z.pow_pos_nonneg; lia).
  split; [lia |]. right. split; [done |]. intros E0. rewrite E0 in E.
  apply orb_true_iff in E as [E | [E _]%andb_true_iff]; lia.
Qed.

Lemma round_nonneg prec m e : 0 < prec -> 0 <= m -> 0 <= mant (round_to prec m e).
Proof.
  intros Hp Hm. destruct (round_cases prec m e) as [-> | (d & q & Hd & _ & -> & Hq & _)]; try done.
  cbn [mant]. assert (0 <= m / 2 ^ d) by (apply Z.div_pos; [done | lia]). lia.
Qed.

Lemma round_le prec m e y : 0 < prec -> 0 <= m -> 0 <= mant y < 2 ^ prec ->
  fle (mkFloat m e) y -> fle (round_to prec m e) y.
Proof.
  intros Hp Hm Hy Hle. destruct (round_cases prec m e) as [-> | (d & q & Hd & Hbig & -> & _ & Hq)]; try done.
  assert (Ht : e + d <= expo y).
  { destruct (Z.le_gt_cases (e + d) (expo y)) as [| Hlt]; [done |]. exfalso.
    assert (exists k, k <= e /\ k <= expo y) as (k & Hke & Hky) by (exists (Z.min e (expo y)); lia).
    apply (fle_at k (mkFloat m e)) in Hle; cbn [mant expo] in *; [| done..].
    assert (mant y * 2 ^ (expo y - k) < 2 ^ (prec + (expo y - k))).
    { rewrite pow_split by lia. apply Z.mul_lt_mono_pos_r; [apply Z.pow_pos_nonneg |]; lia. }
    assert (2 ^ (prec - 1 + d + (e - k)) <= m * 2 ^ (e - k)).
    { rewrite pow_split by lia. apply Z.mul_le_mono_nonneg_r; lia. }
    assert (2 ^ (prec + (expo y - k)) <= 2 ^ (prec - 1 + d + (e - k)))
      by (apply Z.pow_le_mono_r; lia). lia. }
  apply (fle_at e) in Hle; cbn [mant expo] in *; try lia.
  apply (fle_at (e + d)); cbn [mant expo]; try lia.
  rewrite Z.sub_diag, Z.mul_1_r in Hle |- *.
  replace (expo y - e) with (d + (expo y - (e + d))) in Hle by lia.
  rewrite pow_split in Hle by lia. set (N := mant y * 2 ^ (expo y - (e + d))).
  assert (HN : m <= 2 ^ d * N) by (unfold N; lia).
  assert (Hdiv := Z.div_mod m (2 ^ d)). assert (Hmod := Z.mod_pos_bound m (2 ^ d)).
  assert (0 < 2 ^ d) by (apply Z.pow_pos_nonneg; lia).
  destruct Hq as [-> | [-> Hne]]; nia.
Qed.

Lemma round_ge prec m e y : 0 < prec -> 0 <= m -> 0 <= mant y < 2 ^ prec ->
  fle y (mkFloat m e) -> fle y (round_to prec m e).
Proof.
  intros Hp Hm Hy Hle. destruct (round_cases prec m e) as [-> | (d & q & Hd & Hbig & -> & Hq & _)]; try done.
  assert (0 < 2 ^ d) by (apply Z.pow_pos_nonneg; lia).
  destruct (Z.le_gt_cases (e + d) (expo y)) as [Ht | Ht].
  - apply (fle_at e) in Hle; cbn [mant expo] in *; try lia.
    apply (fle_at (e + d)); cbn [mant expo]; try lia.
    rewrite Z.sub_diag, Z.mul_1_r in Hle |- *.
    replace (expo y - e) with (d + (expo y - (e + d))) in Hle by lia.
    rewrite pow_split in Hle by lia.
    etrans; [| exact Hq]. apply Z.div_le_lower_bound; lia.
  - apply (fle_at (expo y)); cbn [mant expo]; try lia. rewrite Z.sub_diag, Z.mul_1_r.
    assert (2 ^ (prec - 1) <= q).
    { etrans; [| exact Hq]. apply Z.div_le_lower_bound; [done |].
      rewrite <- pow_split by lia. by rewrite Z.add_comm. }
    assert (2 ^ prec <= 2 ^ (prec - 1) * 2 ^ (e + d - expo y)).
    { rewrite <- pow_split by lia. apply Z.pow_le_mono_r; lia. }
    nia.
Qed.

Lemma fmul_le prec x y X Y : 0 < prec -> 0 <= mant x -> 0 <= mant y -> 0 <= mant X ->
  0 <= mant X * mant Y < 2 ^ prec -> fle x X -> fle y Y ->
  fle (fmul prec x y) (mkFloat (mant X * mant Y) (expo X + expo Y)).
Proof.
  intros Hp Hx Hy HX HXY Hx' Hy'. apply round_le; try done; [nia |].
  unfold fle in Hx', Hy'. set (i := Z.min (expo x) (expo X)) in *. set (j := Z.min (expo y) (expo Y)) in *.
  apply (fle_at (i + j)); cbn [mant expo]; try lia.
  replace (expo x + expo y - (i + j)) with ((expo x - i) + (expo y - j)) by lia.
  replace (expo X + expo Y - (i + j)) with ((expo X - i) + (expo Y - j)) by lia.
  rewrite !pow_split by lia.
  transitivity ((mant x * 2 ^ (expo x - i)) * (mant y * 2 ^ (expo y - j))); [lia |].
  transitivity ((mant X * 2 ^ (expo X - i)) * (mant Y * 2 ^ (expo Y - j))); [| lia].
  apply Z.mul_le_mono_nonneg; [nia | done | nia | done].
Qed.

Lemma fmul_ge prec x y X Y : 0 < prec -> 0 <= mant x -> 0 <= mant y -> 0 <= mant X -> 0 <= mant Y ->
  mant X * mant Y < 2 ^ prec -> fle X x -> fle Y y ->
  fle (mkFloat (mant X * mant Y) (expo X + expo Y)) (fmul prec x y).
Proof.
  intros Hp Hx Hy HX HY HXY Hx' Hy'. apply round_ge; try done; [nia | cbn [mant]; nia |].
  unfold fle in Hx', Hy'. set (i := Z.min (expo X) (expo x)) in *. set (j := Z.min (expo Y) (expo y)) in *.
  apply (fle_at (i + j)); cbn [mant expo]; try lia.
  replace (expo x + expo y - (i + j)) with ((expo x - i) + (expo y - j)) by lia.
  replace (expo X + expo Y - (i + j)) with ((expo X - i) + (expo Y - j)) by lia.
  rewrite !pow_split by lia.
  transitivity ((mant X * 2 ^ (expo X - i)) * (mant Y * 2 ^ (expo Y - j))); [lia |].
  transitivity ((mant x * 2 ^ (expo x - i)) * (mant y * 2 ^ (expo y - j))); [| lia].
  apply Z.mul_le_mono_nonneg; [nia | done | nia | done].
Qed.

Lemma to_int_le x n k : 0 <= mant x -> 0 <= k -> fle x (mkFloat n (- k)) ->
  0 <= to_int x <= n / 2 ^ k.
Proof.
  intros Hx Hk Hle. assert (0 < 2 ^ k) by (apply Z.pow_pos_nonneg; lia).
  unfold to_int. destruct (Z.leb_spec 0 (expo x)).
  - rewrite (fle_at (- k)) in Hle by (cbn [expo]; lia). cbn [mant expo] in Hle.
    replace (expo x - - k) with (expo x + k) in Hle by lia.
    rewrite Z.sub_diag, Z.mul_1_r, pow_split in Hle by lia.
    split; [nia |]. apply Z.div_le_lower_bound; lia.
  - rewrite (fle_at (expo x - k)) in Hle by (cbn [expo]; lia). cbn [mant expo] in Hle.
    replace (expo x - (expo x - k)) with k in Hle by lia.
    replace (- k - (expo x - k)) with (- expo x) in Hle by lia.
    assert (0 < 2 ^ (- expo x)) by (apply Z.pow_pos_nonneg; lia).
    rewrite Z.quot_div_nonneg by lia. split; [by apply Z.div_pos |].
    apply Z.div_le_lower_bound; [done |].
    assert (Hm := Z.mul_div_le (mant x) (2 ^ (- expo x))). nia.
Qed.

Lemma to_int_ge x n k : 0 <= mant x -> 0 <= k -> fle (mkFloat n (- k)) x -> n / 2 ^ k <= to_int x.
Proof.
  intros Hx Hk Hle. assert (0 < 2 ^ k) by (apply Z.pow_pos_nonneg; lia).
  unfold to_int. destruct (Z.leb_spec 0 (expo x)).
  - rewrite (fle_at (- k)) in Hle by (cbn [expo]; lia). cbn [mant expo] in Hle.
    replace (expo x - - k) with (expo x + k) in Hle by lia.
    rewrite Z.sub_diag, Z.mul_1_r, pow_split in Hle by lia.
    apply Z.div_le_upper_bound; lia.
  - rewrite (fle_at (expo x - k)) in Hle by (cbn [expo]; lia). cbn [mant expo] in Hle.
    replace (expo x - (expo x - k)) with k in Hle by lia.
    replace (- k - (expo x - k)) with (- expo x) in Hle by lia.
    assert (0 < 2 ^ (- expo x)) by (apply Z.pow_pos_nonneg; lia).
    rewrite Z.quot_div_nonneg by lia. apply Z.div_le_lower_bound; [done |].
    assert (Hm := Z.mul_div_le n (2 ^ k)). nia.
Qed.

Lemma fdiv_le prec x y a i j : 0 < prec -> 0 <= mant x -> 0 < mant y -> 0 <= a < 2 ^ prec ->
  fle x (mkFloat a i) -> fle (mkFloat 1 j) y ->
  0 <= mant (fdiv prec x y) /\ fle (fdiv prec x y) (mkFloat a (i - j)).
Proof.
  intros Hp Hx Hy Ha Hle Hge. unfold fdiv. rewrite (Z.abs_eq (mant x)), (Z.abs_eq (mant y)) by lia.
  set (k := prec + 3 + Z.log2 (mant y)).
  assert (Hlog := Z.log2_nonneg (mant y)). assert (Hspec := Z.log2_spec (mant y) Hy).
  set (n := mant x * 2 ^ k). assert (0 <= n) by (unfold n; nia).
  assert (Hq0 : 0 <= n / mant y) by (apply Z.div_pos; lia).
  set (st := if n mod mant y =? 0 then 0 else 1).
  assert (Hst : 0 <= st <= 1) by (unfold st; case_match; lia).
  destruct (Z.eq_dec (mant x) 0) as [E | Hx0].
  { rewrite E. cbn [Z.sgn Z.mul]. rewrite round_exact by (cbn; lia). split; [done |].
    unfold fle. cbn [mant expo]. nia. }
  rewrite !Z.sgn_pos, !Z.mul_1_l by lia.
  split; [apply round_nonneg; lia |]. apply round_le; cbn [mant]; try lia.
  assert (Hj : j <= expo y + Z.log2 (mant y)).
  { destruct (Z.le_gt_cases j (expo y + Z.log2 (mant y))); [done |]. exfalso.
    apply (fle_at (expo y)) in Hge; cbn [mant expo] in *; try lia.
    rewrite Z.sub_diag, Z.mul_1_l, Z.mul_1_r in Hge.
    assert (2 ^ Z.succ (Z.log2 (mant y)) <= 2 ^ (j - expo y)) by (apply Z.pow_le_mono_r; lia). lia. }
  assert (Hi : expo x < i + prec).
  { destruct (Z.lt_ge_cases (expo x) (i + prec)); [done |]. exfalso.
    apply (fle_at i) in Hle; cbn [mant expo] in *; try lia.
    rewrite Z.sub_diag, Z.mul_1_r in Hle.
    assert (2 ^ prec <= 2 ^ (expo x - i)) by (apply Z.pow_le_mono_r; lia). nia. }
  set (s := i - j - (expo x - expo y - k)). assert (Hs : 0 <= s) by lia.
  apply (fle_at (expo x - expo y - k - 1)); cbn [mant expo]; try lia.
  rewrite Z.sub_diag, Z.mul_1_r.
  replace (i - j - (expo x - expo y - k - 1)) with (s + 1) by lia.
  rewrite pow_split by lia. change (2 ^ 1) with 2.
  assert (Hn : n <= mant y * (a * 2 ^ s)).
  { set (g := Z.min (Z.min (expo x) i) (expo x - k)). set (h := Z.min j (expo y)).
    apply (fle_at g) in Hle; cbn [mant expo] in *; try lia.
    rewrite (fle_at h) in Hge by (cbn [expo]; lia). cbn [mant expo] in Hge. rewrite Z.mul_1_l in Hge.
    set (t := expo x - g + (j - h) - k).
    apply (Z.mul_le_mono_pos_r _ _ (2 ^ t)); [apply Z.pow_pos_nonneg; lia |].
    transitivity (mant x * 2 ^ (expo x - g) * 2 ^ (j - h)).
    { unfold n. rewrite <- !Z.mul_assoc, <- !pow_split by lia. apply Z.eq_le_incl. do 2 f_equal. lia. }
    transitivity (a * 2 ^ (i - g) * (mant y * 2 ^ (expo y - h))).
    { apply Z.mul_le_mono_nonneg; lia. }
    transitivity (a * mant y * (2 ^ (i - g) * 2 ^ (expo y - h))); [lia |].
    transitivity (a * mant y * (2 ^ s * 2 ^ t)); [| lia].
    rewrite <- !pow_split by lia. apply Z.eq_le_incl. do 2 f_equal. lia. }
  assert (Hdm := Z.div_mod n (mant y)). assert (Hmb := Z.mod_pos_bound n (mant y)).
  unfold st. destruct (Z.eqb_spec (n mod mant y) 0); nia.
Qed.

(** The comparison [x < y]. *)
Definition flt (x y : float) : bool :=
  let e := Z.min (expo x) (expo y) in mant x * 2 ^ (expo x - e) <? mant y * 2 ^ (expo y - e).
