(* ===== verification/RTTStats.v ===== *)
(** * Round-trip statistics (internal/congestion/rtt_stats.go)

    Durations are nanoseconds; the smoothing is done in [float32]. *)

From S2P Require Import Prelude Protocol Float AckFrame.

Record RTTStats : Type := mkRTTStats {
  minRTT : Z; latestRTT : Z; smoothedRTT : Z; meanDeviation : Z }.

Definition Millisecond : Z := 1000000.

Definition rttAlpha : float := mkFloat 1 (-3).
Definition oneMinusAlpha : float := mkFloat 7 (-3).
Definition rttBeta : float := mkFloat 1 (-2).
Definition oneMinusBeta : float := mkFloat 3 (-2).
Definition defaultInitialRTT : Z := 100 * Millisecond.

Definition NewRTTStats : RTTStats := mkRTTStats 0 0 0 0.

Definition SmoothedOrInitialRTT (r : RTTStats) : Z :=
  if negb (smoothedRTT r =? 0) then smoothedRTT r else defaultInitialRTT.

(** [time.Duration(w1*float32(a/Microsecond) + w2*float32(b/Microsecond)) * Microsecond] *)
Definition weighted (w1 : float) (a : Z) (w2 : float) (b : Z) : Z :=
  let x := fmul prec32 w1 (of_int prec32 (Z.quot a Microsecond)) in
  let y := fmul prec32 w2 (of_int prec32 (Z.quot b Microsecond)) in
  i64 (to_int (fadd prec32 x y) * Microsecond).

Definition UpdateRTT (r : RTTStats) (sendDelta ackDelay : Z) : RTTStats :=
  if (sendDelta =? InfDuration) || (sendDelta <=? 0) then r else
  let minRTT' := if (minRTT r =? 0) || (sendDelta <? minRTT r) then sendDelta else minRTT r in
  let sample := sendDelta in
  let sample := if ackDelay <=? i64 (sample - minRTT') then i64 (sample - ackDelay) else sample in
  if smoothedRTT r =? 0 then mkRTTStats minRTT' sample sample (Z.quot sample 2)
  else
    mkRTTStats minRTT' sample
      (weighted oneMinusAlpha (smoothedRTT r) rttAlpha sample)
      (weighted oneMinusBeta (meanDeviation r) rttBeta
         (AbsDuration (i64 (smoothedRTT r - sample)))).

Definition RTTStats_OnConnectionMigration (r : RTTStats) : RTTStats := mkRTTStats 0 0 0 0.

Definition ExpireSmoothedMetrics (r : RTTStats) : RTTStats :=
  mkRTTStats (minRTT r) (latestRTT r) (MaxDuration (smoothedRTT r) (latestRTT r))
    (MaxDuration (meanDeviation r) (AbsDuration (i64 (smoothedRTT r - latestRTT r)))).

(** ** Exactness of the smoothing *)

(** Below 2 s, 2^21 microseconds, the sums have at most 24 bits. *)
Definition short (d : Z) : Prop := 0 <= d < 2 ^ 21 * Microsecond.

Lemma weighted_exact n m k a b : 0 <= n -> 0 <= m -> 0 <= k -> n + m = 2 ^ k -> k <= 3 ->
  short a -> short b ->
  weighted (mkFloat n (- k)) a (mkFloat m (- k)) b
  = (n * (a / Microsecond) + m * (b / Microsecond)) / 2 ^ k * Microsecond.
Proof.
  intros Hn Hm Hk Hsum Hk3 [Ha0 Ha] [Hb0 Hb]. unfold weighted, Microsecond in *.
  rewrite !Z.quot_div_nonneg by lia.
  assert (0 <= a / 1000 < 2 ^ 21) by (split; [apply Z.div_pos | apply Z.div_lt_upper_bound]; lia).
  assert (0 <= b / 1000 < 2 ^ 21) by (split; [apply Z.div_pos | apply Z.div_lt_upper_bound]; lia).
  set (x := a / 1000) in *. set (y := b / 1000) in *.
  assert (2 ^ k <= 2 ^ 3) by (apply Z.pow_le_mono_r; lia).
  assert (0 <= n * x <= n * 2 ^ 21) by nia. assert (0 <= m * y <= m * 2 ^ 21) by nia.
  assert (n * x + m * y < 2 ^ 24) by nia.
  unfold prec32. rewrite !of_int_exact by lia.
  rewrite !fmul_exact by (cbn [mant]; lia). cbn [mant expo]. rewrite Z.add_0_r.
  rewrite fadd_exact by lia. unfold to_int. cbn [mant expo].
  destruct (Z.leb_spec 0 (- k)) as [Hk0 | Hk0].
  - assert (k = 0) as -> by lia. change (2 ^ (- 0)) with 1. change (2 ^ 0) with 1.
    rewrite Z.mul_1_r, Z.div_1_r, i64_small by lia. done.
  - rewrite Z.opp_involutive, Z.quot_div_nonneg by lia.
    assert (0 <= (n * x + m * y) / 2 ^ k <= n * x + m * y).
    { split; [apply Z.div_pos; lia |]. apply Z.div_le_upper_bound; [lia |]. nia. }
    by rewrite i64_small by lia.
Qed.

(** ** Properties *)

(** An RTT sample: without a positive duration nothing changes; otherwise
    the minimum is the smallest send time seen, an acknowledgement delay is
    subtracted only if the result stays at least the minimum, and for times
    below 2 s the [float32] computation gives the exact averages: 7/8 of the old
    and 1/8 of the new sample, and 3/4 and 1/4 for the deviation, rounded down
    to microseconds. *)
Theorem UpdateRTT_exact r sendDelta ackDelay :
  short (minRTT r) -> short (smoothedRTT r) -> short (meanDeviation r) ->
  short sendDelta -> 0 <= ackDelay < 2 ^ 62 ->
  let r' := UpdateRTT r sendDelta ackDelay in
  if sendDelta =? 0 then r' = r else
  minRTT r' = (if minRTT r =? 0 then sendDelta else Z.min (minRTT r) sendDelta)
  /\ latestRTT r' = (if minRTT r' <=? sendDelta - ackDelay then sendDelta - ackDelay else sendDelta)
  /\ minRTT r' <= latestRTT r' <= sendDelta
  /\ if smoothedRTT r =? 0 then smoothedRTT r' = latestRTT r' /\ meanDeviation r' = latestRTT r' / 2
     else smoothedRTT r'
          = (7 * (smoothedRTT r / Microsecond) + latestRTT r' / Microsecond) / 8 * Microsecond
       /\ meanDeviation r'
          = (3 * (meanDeviation r / Microsecond)
             + Z.abs (smoothedRTT r - latestRTT r') / Microsecond) / 4 * Microsecond.
Proof.
  intros Hm Hs Hd Hx Ha. cbv zeta. unfold UpdateRTT.
  unfold short, Microsecond in *.
  destruct (Z.eqb_spec sendDelta InfDuration) as [E | _]; [unfold InfDuration in E; lia |].
  cbn [orb]. destruct (Z.eqb_spec sendDelta 0) as [-> | Hx0]; [done |].
  destruct (Z.leb_spec sendDelta 0); [lia |].
  set (mn := if (minRTT r =? 0) || (sendDelta <? minRTT r) then sendDelta else minRTT r).
  assert (Emn : mn = if minRTT r =? 0 then sendDelta else Z.min (minRTT r) sendDelta).
  { unfold mn. case_cmp; cbn [orb]; lia. }
  assert (Hmn : 0 < mn <= sendDelta) by (rewrite Emn; case_cmp; lia).
  clearbody mn. rewrite !i64_small by lia.
  set (smp := if ackDelay <=? sendDelta - mn then sendDelta - ackDelay else sendDelta).
  assert (Hsmp : smp = (if mn <=? sendDelta - ackDelay then sendDelta - ackDelay else sendDelta)
    /\ mn <= smp <= sendDelta) by (unfold smp; case_cmp; lia).
  destruct Hsmp as [Esmp Hsmp]. clearbody smp.
  destruct (Z.eqb_spec (smoothedRTT r) 0); cbn [minRTT latestRTT smoothedRTT meanDeviation].
  - split_and!; try done; try lia. rewrite Z.quot_div_nonneg by lia. done.
  - split_and!; try done; try lia.
    + rewrite (weighted_exact 7 1 3) by (unfold short, Microsecond; lia). rewrite Z.mul_1_l. done.
    + rewrite (i64_small (smoothedRTT r - smp)) by lia.
      replace (AbsDuration (smoothedRTT r - smp)) with (Z.abs (smoothedRTT r - smp)).
      2:{ unfold AbsDuration. case_cmp; [lia |]. rewrite i64_small by lia. lia. }
      rewrite (weighted_exact 3 1 2) by (unfold short, Microsecond; lia). rewrite Z.mul_1_l. done.
Qed.

Lemma UpdateRTT_exact_witness :
  let r := mkRTTStats 40000000 45000000 50000000 8000000 in
  let r' := UpdateRTT r 61000000 2000000 in
  r' = mkRTTStats 40000000 59000000 51125000 8250000
  /\ smoothedRTT r'
     = (7 * (smoothedRTT r / Microsecond) + latestRTT r' / Microsecond) / 8 * Microsecond.
Proof.
  intros r r'. split; [vm_compute; reflexivity |].
  apply (UpdateRTT_exact r 61000000 2000000); unfold short, Microsecond; cbn; lia.
Defined.
