(* ===== verification/FlowControl.v ===== *)
(** * Flow control (internal/flowcontrol)

    The base controller and the two controllers built on it.  The connection's
    controller is shared by the streams: an operation of a stream's controller
    takes it and gives it back.  The current time and the smoothed RTT, read
    from shared objects, are arguments; the queueing of a window update is a
    result. *)

From S2P Require Import Prelude Qerr Protocol Float.

(** ** base_flow_controller.go *)

Record baseFlowController : Type := mkBase {
  bytesSent : Z; sendWindow : Z; lastBlockedAt : Z;
  bytesRead : Z; highestReceived : Z; receiveWindow : Z;
  receiveWindowSize : Z; maxReceiveWindowSize : Z;
  epochStartTime : Z; epochStartOffset : Z }.

Definition sendWindowSize (c : baseFlowController) : Z :=
  if sendWindow c <? bytesSent c then 0 else sendWindow c -64 bytesSent c.

Definition IsNewlyBlocked (c : baseFlowController) : bool * Z * baseFlowController :=
  if negb (sendWindowSize c =? 0) || (sendWindow c =? lastBlockedAt c) then (false, 0, c)
  else (true, sendWindow c,
        mkBase (bytesSent c) (sendWindow c) (sendWindow c) (bytesRead c) (highestReceived c)
          (receiveWindow c) (receiveWindowSize c) (maxReceiveWindowSize c)
          (epochStartTime c) (epochStartOffset c)).

Definition AddBytesSent (c : baseFlowController) (n : Z) : baseFlowController :=
  mkBase (bytesSent c +64 n) (sendWindow c) (lastBlockedAt c) (bytesRead c) (highestReceived c)
    (receiveWindow c) (receiveWindowSize c) (maxReceiveWindowSize c)
    (epochStartTime c) (epochStartOffset c).

Definition UpdateSendWindow (c : baseFlowController) (offset : Z) : baseFlowController :=
  if sendWindow c <? offset then
    mkBase (bytesSent c) offset (lastBlockedAt c) (bytesRead c) (highestReceived c)
      (receiveWindow c) (receiveWindowSize c) (maxReceiveWindowSize c)
      (epochStartTime c) (epochStartOffset c)
  else c.

Definition startNewAutoTuningEpoch (now : Z) (c : baseFlowController) : baseFlowController :=
  mkBase (bytesSent c) (sendWindow c) (lastBlockedAt c) (bytesRead c) (highestReceived c)
    (receiveWindow c) (receiveWindowSize c) (maxReceiveWindowSize c) now (bytesRead c).

Definition AddBytesRead (now : Z) (c : baseFlowController) (n : Z) : baseFlowController :=
  let c := if bytesRead c =? 0 then startNewAutoTuningEpoch now c else c in
  mkBase (bytesSent c) (sendWindow c) (lastBlockedAt c) (bytesRead c +64 n) (highestReceived c)
    (receiveWindow c) (receiveWindowSize c) (maxReceiveWindowSize c)
    (epochStartTime c) (epochStartOffset c).

(** [ByteCount(float64(n) * float64(f))] for a constant [f]. *)
Definition scale64 (n : Z) (f : float) : Z := u64 (to_int (fmul prec64 (of_int prec64 n) f)).

Definition WindowUpdateThreshold : float := mkFloat 1 (-2).
Definition oneMinusThreshold : float := mkFloat 3 (-2).
Definition ConnectionFlowControlMultiplier : float := mkFloat 3 (-1).

Definition hasWindowUpdate (c : baseFlowController) : bool :=
  let bytesRemaining := receiveWindow c -64 bytesRead c in
  bytesRemaining <=? scale64 (receiveWindowSize c) oneMinusThreshold.

Definition set_window_size (c : baseFlowController) (size : Z) : baseFlowController :=
  mkBase (bytesSent c) (sendWindow c) (lastBlockedAt c) (bytesRead c) (highestReceived c)
    (receiveWindow c) size (maxReceiveWindowSize c) (epochStartTime c) (epochStartOffset c).

(** [time.Duration(4*fraction*float64(rtt))] *)
Definition epoch_duration (bytesReadInEpoch windowSize rtt : Z) : Z :=
  let fraction := fdiv prec64 (of_int prec64 bytesReadInEpoch) (of_int prec64 windowSize) in
  to_int (fmul prec64 (fmul prec64 (mkFloat 4 0) fraction) (of_int prec64 rtt)).

Definition maybeAdjustWindowSize (now rtt : Z) (c : baseFlowController) : baseFlowController :=
  let bytesReadInEpoch := bytesRead c -64 epochStartOffset c in
  if bytesReadInEpoch <=? receiveWindowSize c / 2 then c else
  if rtt =? 0 then c else
  let c :=
    if now - epochStartTime c <? epoch_duration bytesReadInEpoch (receiveWindowSize c) rtt then
      set_window_size c (MinByteCount (2 *64 receiveWindowSize c) (maxReceiveWindowSize c))
    else c in
  startNewAutoTuningEpoch now c.

Definition getWindowUpdate (now rtt : Z) (c : baseFlowController) : Z * baseFlowController :=
  if negb (hasWindowUpdate c) then (0, c) else
  let c := maybeAdjustWindowSize now rtt c in
  let w := bytesRead c +64 receiveWindowSize c in
  (w, mkBase (bytesSent c) (sendWindow c) (lastBlockedAt c) (bytesRead c) (highestReceived c)
        w (receiveWindowSize c) (maxReceiveWindowSize c) (epochStartTime c) (epochStartOffset c)).

Definition checkFlowControlViolation (c : baseFlowController) : bool :=
  receiveWindow c <? highestReceived c.

Definition set_highest (c : baseFlowController) (h : Z) : baseFlowController :=
  mkBase (bytesSent c) (sendWindow c) (lastBlockedAt c) (bytesRead c) h
    (receiveWindow c) (receiveWindowSize c) (maxReceiveWindowSize c)
    (epochStartTime c) (epochStartOffset c).

(** ** connection_flow_controller.go *)

Definition NewConnectionFlowController (window maxWindow : Z) : baseFlowController :=
  mkBase 0 0 0 0 0 window window maxWindow 0 0.

Definition IncrementHighestReceived (c : baseFlowController) (increment : Z)
    : baseFlowController * option go_error :=
  let c := set_highest c (highestReceived c +64 increment) in
  if checkFlowControlViolation c then
    (c, Some (QuicError FlowControlReceivedTooMuchData
           (Msg "Received %d bytes for the connection, allowed %d bytes"
              [highestReceived c; receiveWindow c])))
  else (c, None).

(** Whether [queueWindowUpdate] is called. *)
Definition conn_MaybeQueueWindowUpdate (c : baseFlowController) : bool := hasWindowUpdate c.

Definition conn_GetWindowUpdate (now rtt : Z) (c : baseFlowController) : Z * baseFlowController :=
  getWindowUpdate now rtt c.

Definition EnsureMinimumWindowSize (now : Z) (c : baseFlowController) (inc : Z) : baseFlowController :=
  if receiveWindowSize c <? inc then
    startNewAutoTuningEpoch now (set_window_size c (MinByteCount inc (maxReceiveWindowSize c)))
  else c.

(** ** stream_flow_controller.go *)

Record streamFlowController : Type := mkStreamFC {
  base : baseFlowController; fc_streamID : Z; receivedFinalOffset : bool }.

Definition NewStreamFlowController (id window maxWindow initialSendWindow : Z) : streamFlowController :=
  mkStreamFC (mkBase 0 initialSendWindow 0 0 0 window window maxWindow 0 0) id false.

Definition with_base (c : streamFlowController) (b : baseFlowController) : streamFlowController :=
  mkStreamFC b (fc_streamID c) (receivedFinalOffset c).

Definition UpdateHighestReceived (c : streamFlowController) (conn : baseFlowController)
    (byteOffset : Z) (final : bool)
    : streamFlowController * baseFlowController * option go_error :=
  let highest := highestReceived (base c) in
  if final && receivedFinalOffset c && negb (byteOffset =? highest) then
    (c, conn, Some (QuicError StreamDataAfterTermination
       (Msg "Received inconsistent final offset for stream %d (old: %d, new: %d bytes)"
          [fc_streamID c; highest; byteOffset])))
  else if receivedFinalOffset c && (highest <? byteOffset) then
    (c, conn, Some (ErrorCode StreamDataAfterTermination))
  else
  let c := if final then mkStreamFC (base c) (fc_streamID c) true else c in
  if byteOffset =? highest then (c, conn, None) else
  if byteOffset <=? highest then
    if final then (c, conn, Some (ErrorCode StreamDataAfterTermination))
    else (c, conn, None)
  else
  let increment := byteOffset -64 highest in
  let c := with_base c (set_highest (base c) byteOffset) in
  if checkFlowControlViolation (base c) then
    (c, conn, Some (QuicError FlowControlReceivedTooMuchData
       (Msg "Received %d bytes on stream %d, allowed %d bytes"
          [byteOffset; fc_streamID c; receiveWindow (base c)])))
  else
  let '(conn, err) := IncrementHighestReceived conn increment in (c, conn, err).

Definition stream_AddBytesRead (now : Z) (c : streamFlowController) (conn : baseFlowController) (n : Z)
    : streamFlowController * baseFlowController :=
  (with_base c (AddBytesRead now (base c) n), AddBytesRead now conn n).

Definition stream_AddBytesSent (c : streamFlowController) (conn : baseFlowController) (n : Z)
    : streamFlowController * baseFlowController :=
  (with_base c (AddBytesSent (base c) n), AddBytesSent conn n).

Definition SendWindowSize (c : streamFlowController) (conn : baseFlowController) : Z :=
  MinByteCount (sendWindowSize (base c)) (sendWindowSize conn).

(** Whether the window update of the stream and of the connection is queued. *)
Definition stream_MaybeQueueWindowUpdate (c : streamFlowController) (conn : baseFlowController)
    : bool * bool :=
  (negb (receivedFinalOffset c) && hasWindowUpdate (base c), conn_MaybeQueueWindowUpdate conn).

Definition stream_GetWindowUpdate (now rtt : Z) (c : streamFlowController) (conn : baseFlowController)
    : Z * streamFlowController * baseFlowController :=
  if receivedFinalOffset c then (0, c, conn) else
  let oldWindowSize := receiveWindowSize (base c) in
  let '(offset, b) := getWindowUpdate now rtt (base c) in
  let c := with_base c b in
  if oldWindowSize <? receiveWindowSize b then
    (offset, c, EnsureMinimumWindowSize now conn
                  (scale64 (receiveWindowSize b) ConnectionFlowControlMultiplier))
  else (offset, c, conn).

(** ** Lemmas on the base controller *)

Lemma scale_exact n m k : 0 <= n < 2 ^ 50 -> 0 <= m <= 3 -> 0 < k ->
  scale64 n (mkFloat m (- k)) = n * m / 2 ^ k.
Proof.
  intros Hn Hm Hk. unfold scale64, prec64. rewrite of_int_exact by lia.
  rewrite fmul_exact by (cbn [mant]; nia). unfold to_int. cbn [mant expo].
  destruct (Z.leb_spec 0 (0 + - k)); [lia |].
  replace (- (0 + - k)) with k by lia. rewrite Z.quot_div_nonneg by nia.
  assert (0 < 2 ^ k) by lia.
  assert (0 <= n * m / 2 ^ k <= n * m).
  { split; [apply Z.div_pos; nia |]. apply Z.div_le_upper_bound; nia. }
  apply u64_small. nia.
Qed.

(** The bounds a controller keeps: what has been read was received, what was
    received was allowed, and at most one window is allowed beyond what has been
    read; no more was sent than the peer allows. *)
Definition base_ok (c : baseFlowController) : Prop :=
  0 <= bytesRead c <= highestReceived c
  /\ highestReceived c <= receiveWindow c < 2 ^ 62
  /\ receiveWindow c <= bytesRead c + receiveWindowSize c
  /\ 0 <= receiveWindowSize c <= maxReceiveWindowSize c
  /\ maxReceiveWindowSize c < 2 ^ 50
  /\ 0 <= bytesSent c <= sendWindow c /\ sendWindow c < 2 ^ 62.

(** Nothing but the receive window, its size and the epoch differs, and the
    window only grows. *)
Definition window_grows (c c' : baseFlowController) : Prop :=
  bytesSent c' = bytesSent c /\ sendWindow c' = sendWindow c
  /\ bytesRead c' = bytesRead c /\ highestReceived c' = highestReceived c
  /\ maxReceiveWindowSize c' = maxReceiveWindowSize c
  /\ receiveWindow c <= receiveWindow c' /\ receiveWindowSize c <= receiveWindowSize c'.

Lemma maybeAdjust_grows now rtt c : base_ok c ->
  window_grows c (maybeAdjustWindowSize now rtt c)
  /\ receiveWindow (maybeAdjustWindowSize now rtt c) = receiveWindow c
  /\ receiveWindowSize (maybeAdjustWindowSize now rtt c) <= maxReceiveWindowSize c.
Proof.
  intros (H1 & H2 & H3 & H4 & H5 & H6). unfold maybeAdjustWindowSize, window_grows.
  case_match; [split_and!; (done || lia) |]. case_match; [split_and!; (done || lia) |].
  case_match; cbn [startNewAutoTuningEpoch set_window_size bytesSent sendWindow bytesRead
    highestReceived maxReceiveWindowSize receiveWindow receiveWindowSize];
    [| split_and!; (done || lia)].
  unfold MinByteCount. norm64. case_cmp; split_and!; (done || lia).
Qed.

Lemma getWindowUpdate_spec now rtt c : base_ok c ->
  bytesRead c + maxReceiveWindowSize c < 2 ^ 62 ->
  let '(offset, c') := getWindowUpdate now rtt c in
  base_ok c' /\ window_grows c c'
  /\ (if receiveWindow c - bytesRead c <=? 3 * receiveWindowSize c / 4
      then offset = receiveWindow c' /\ receiveWindow c' = bytesRead c + receiveWindowSize c'
      else offset = 0 /\ c' = c).
Proof.
  intros Hok Hmax. pose proof Hok as (H1 & H2 & H3 & H4 & H5 & H6).
  unfold getWindowUpdate, hasWindowUpdate, oneMinusThreshold. rewrite sub64_small by lia.
  rewrite (scale_exact _ 3 2) by lia. change (2 ^ 2) with 4.
  rewrite (Z.mul_comm (receiveWindowSize c)).
  destruct (Z.leb_spec (receiveWindow c - bytesRead c) (3 * receiveWindowSize c / 4)) as [Hle | Hgt];
    cbn [negb].
  2:{ split_and!; try done; unfold window_grows; split_and!; (done || lia). }
  destruct (maybeAdjust_grows now rtt c Hok) as ((G1 & G2 & G3 & G4 & G5 & G6 & G7) & Gw & Gm).
  set (c1 := maybeAdjustWindowSize now rtt c) in *. clearbody c1.
  assert (3 * receiveWindowSize c / 4 <= receiveWindowSize c)
    by (apply Z.div_le_upper_bound; lia).
  rewrite add64_small by lia. unfold base_ok, window_grows.
  cbn [bytesSent sendWindow bytesRead highestReceived maxReceiveWindowSize receiveWindow receiveWindowSize].
  rewrite G1, G2, G3, G4, G5. split_and!; (done || lia).
Qed.

Lemma sendWindowSize_spec c : base_ok c -> sendWindowSize c = sendWindow c - bytesSent c.
Proof.
  intros (_ & _ & _ & _ & _ & H6 & H7). unfold sendWindowSize.
  destruct (Z.ltb_spec (sendWindow c) (bytesSent c)); [lia |]. apply sub64_small. lia.
Qed.

(** ** A connection and its streams *)

Record flow : Type := mkFlow { conn : baseFlowController; streams : list streamFlowController }.

Inductive flow_event : Type :=
  | EvOpen (id window maxWindow sendWindow : Z)
  | EvReceive (i : nat) (byteOffset : Z) (final : bool)
  | EvRead (i : nat) (now n : Z)
  | EvStreamUpdate (i : nat) (now rtt : Z)
  | EvConnUpdate (now rtt : Z)
  | EvSend (i : nat) (n : Z)
  | EvMaxData (offset : Z)
  | EvMaxStreamData (i : nat) (offset : Z).

(** Run an operation of stream [i], which can change the connection. *)
Definition on_stream (s : flow) (i : nat)
    (f : streamFlowController -> streamFlowController * baseFlowController * option go_error)
    : flow * option go_error :=
  match streams s !! i with
  | Some c => let '(c', conn', err) := f c in (mkFlow conn' (<[i := c']> (streams s)), err)
  | None => (s, None)
  end.

Definition flow_step (s : flow) (e : flow_event) : flow * option go_error :=
  match e with
  | EvOpen id w m sw => (mkFlow (conn s) (streams s ++ [NewStreamFlowController id w m sw]), None)
  | EvReceive i off final => on_stream s i (fun c => UpdateHighestReceived c (conn s) off final)
  | EvRead i now n => on_stream s i (fun c => (stream_AddBytesRead now c (conn s) n, None))
  | EvStreamUpdate i now rtt => on_stream s i (fun c =>
      let '(_, c', conn') := stream_GetWindowUpdate now rtt c (conn s) in (c', conn', None))
  | EvConnUpdate now rtt => (mkFlow (conn_GetWindowUpdate now rtt (conn s)).2 (streams s), None)
  | EvSend i n => on_stream s i (fun c => (stream_AddBytesSent c (conn s) n, None))
  | EvMaxData off => (mkFlow (UpdateSendWindow (conn s) off) (streams s), None)
  | EvMaxStreamData i off => on_stream s i (fun c =>
      (with_base c (UpdateSendWindow (base c) off), conn s, None))
  end.

(** What the callers guarantee: offsets are varints, only received data is read,
    and no more is sent than [SendWindowSize] says; the windows stay encodable. *)
Definition event_ok (s : flow) (e : flow_event) : Prop :=
  let on i (P : streamFlowController -> Prop) := forall c, streams s !! i = Some c -> P c in
  match e with
  | EvOpen _ w m sw => 0 <= w <= m /\ m < 2 ^ 50 /\ 0 <= sw < 2 ^ 62
  | EvReceive _ off _ => 0 <= off < 2 ^ 62
  | EvRead i _ n => on i (fun c => 0 <= n /\ bytesRead (base c) + n <= highestReceived (base c))
  | EvStreamUpdate i _ _ =>
      on i (fun c => bytesRead (base c) + maxReceiveWindowSize (base c) < 2 ^ 62)
  | EvConnUpdate _ _ => bytesRead (conn s) + maxReceiveWindowSize (conn s) < 2 ^ 62
  | EvSend i n => on i (fun c => 0 <= n <= SendWindowSize c (conn s))
  | EvMaxData off => 0 <= off < 2 ^ 62
  | EvMaxStreamData _ off => 0 <= off < 2 ^ 62
  end.

Fixpoint zsum {A} (f : A -> Z) (l : list A) : Z :=
  match l with [] => 0 | x :: l => f x + zsum f l end.

Definition flow_inv (s : flow) : Prop :=
  base_ok (conn s) /\ Forall (fun c => base_ok (base c)) (streams s)
  /\ highestReceived (conn s) = zsum (fun c => highestReceived (base c)) (streams s)
  /\ bytesRead (conn s) = zsum (fun c => bytesRead (base c)) (streams s)
  /\ bytesSent (conn s) = zsum (fun c => bytesSent (base c)) (streams s).

Lemma zsum_insert {A} (f : A -> Z) l i x y : l !! i = Some x ->
  zsum f (<[i := y]> l) = zsum f l - f x + f y.
Proof.
  revert i. induction l as [| a l IH]; intros [| i] Hi; try done.
  - injection Hi as ->. change (<[0%nat := y]> (x :: l)) with (y :: l). cbn [zsum]. lia.
  - change (<[S i := y]> (a :: l)) with (a :: <[i := y]> l). cbn [zsum].
    rewrite (IH i Hi). lia.
Qed.

Lemma zsum_app {A} (f : A -> Z) l k : zsum f (l ++ k) = zsum f l + zsum f k.
Proof. induction l as [| a l IH]; cbn; lia. Qed.

Lemma zsum_le {A} (f g : A -> Z) l : Forall (fun x => f x <= g x) l -> zsum f l <= zsum g l.
Proof. induction 1; cbn; lia. Qed.

(** An operation of one stream that keeps the bounds and moves the counters of
    the connection by as much as its own. *)
Lemma stream_op_inv s i c c' conn' : flow_inv s -> streams s !! i = Some c ->
  base_ok conn' -> base_ok (base c') ->
  highestReceived conn' - highestReceived (conn s)
    = highestReceived (base c') - highestReceived (base c) ->
  bytesRead conn' - bytesRead (conn s) = bytesRead (base c') - bytesRead (base c) ->
  bytesSent conn' - bytesSent (conn s) = bytesSent (base c') - bytesSent (base c) ->
  flow_inv (mkFlow conn' (<[i := c']> (streams s))).
Proof.
  intros (Hc & Hs & Hh & Hr & Hb) Hi Hc' Hb' E1 E2 E3. unfold flow_inv. cbn [conn streams].
  split_and!; [done | by apply Forall_insert | ..]; rewrite (zsum_insert _ _ i c c' Hi); lia.
Qed.

Lemma stream_at s i c : flow_inv s -> streams s !! i = Some c -> base_ok (base c).
Proof. intros (_ & Hs & _) Hi. exact (Forall_lookup_1 _ _ _ _ Hs Hi). Qed.

(** Unfold the controllers that are written out as records. *)
Ltac fc_simpl :=
  unfold base_ok in *;
  cbn [with_base base conn streams bytesSent sendWindow lastBlockedAt bytesRead highestReceived
       receiveWindow receiveWindowSize maxReceiveWindowSize epochStartTime epochStartOffset
       set_highest set_window_size startNewAutoTuningEpoch] in *.

Lemma set_highest_same c : set_highest c (highestReceived c) = c.
Proof. by destruct c. Qed.

Lemma UpdateHighestReceived_spec c conn off final : base_ok (base c) -> base_ok conn ->
  0 <= off < 2 ^ 62 ->
  match UpdateHighestReceived c conn off final with
  | (c', conn', None) =>
      base_ok (base c') /\ base_ok conn'
      /\ highestReceived (base c') = Z.max (highestReceived (base c)) off
      /\ highestReceived conn' - highestReceived conn
         = highestReceived (base c') - highestReceived (base c)
      /\ base c' = set_highest (base c) (highestReceived (base c'))
      /\ conn' = set_highest conn (highestReceived conn')
      /\ receivedFinalOffset c' = receivedFinalOffset c || final
      /\ (receivedFinalOffset c = true -> highestReceived (base c') = highestReceived (base c))
      /\ (final = true -> highestReceived (base c') = off)
  | (_, _, Some e) =>
      (receivedFinalOffset c = true /\ highestReceived (base c) < off)
      \/ (receivedFinalOffset c = true /\ final = true /\ off <> highestReceived (base c))
      \/ (final = true /\ off < highestReceived (base c))
      \/ receiveWindow (base c) < off
      \/ receiveWindow conn < highestReceived conn + (off - highestReceived (base c))
  end.
Proof.
  intros Hb Hc Ho. unfold UpdateHighestReceived.
  destruct (Z.lt_trichotomy off (highestReceived (base c))) as [Hlt | [E | Hgt]].
  - rewrite (proj2 (Z.eqb_neq off _)), (proj2 (Z.ltb_ge _ off)), (proj2 (Z.leb_le off _)) by lia.
    cbn [negb]. rewrite andb_true_r, andb_false_r.
    destruct final; cbn [andb]; [destruct (receivedFinalOffset c) eqn:Ef; auto |].
    rewrite orb_false_r. split_and!; try done; try lia; by rewrite set_highest_same.
  - subst off. rewrite Z.eqb_refl, Z.ltb_irrefl. cbn [negb]. rewrite !andb_false_r.
    destruct final; cbn [base receivedFinalOffset];
      rewrite ?set_highest_same, ?orb_true_r, ?orb_false_r; split_and!; (done || lia).
  - rewrite (proj2 (Z.eqb_neq off _)), (proj2 (Z.ltb_lt _ off)), (proj2 (Z.leb_gt off _)) by lia.
    cbn [negb]. rewrite !andb_true_r. destruct (receivedFinalOffset c) eqn:Ef.
    { destruct final; cbn [andb]; auto. }
    rewrite andb_false_r. rewrite sub64_small by (unfold base_ok in Hb; lia).
    unfold checkFlowControlViolation, IncrementHighestReceived.
    unfold checkFlowControlViolation. rewrite add64_small by (unfold base_ok in *; lia).
    destruct final; fc_simpl; (destruct (Z.ltb_spec (receiveWindow (base c)) off); [tauto |]);
      (destruct (Z.ltb_spec (receiveWindow conn)
         (highestReceived conn + (off - highestReceived (base c)))); [tauto |]);
      fc_simpl; split_and!; (done || lia).
Qed.

(** ** Every step keeps the invariant *)

(** The receive windows, of the connection and of each stream, only grow. *)
Definition windows_grow (s s' : flow) : Prop :=
  receiveWindow (conn s) <= receiveWindow (conn s')
  /\ forall i c, streams s !! i = Some c -> exists c', streams s' !! i = Some c'
     /\ receiveWindow (base c) <= receiveWindow (base c').

Lemma windows_grow_refl s : windows_grow s s.
Proof. split; [lia |]. intros i c Hi. exists c. split; [done | lia]. Qed.

Lemma windows_grow_insert s i c c' conn' : streams s !! i = Some c ->
  receiveWindow (conn s) <= receiveWindow conn' ->
  receiveWindow (base c) <= receiveWindow (base c') ->
  windows_grow s (mkFlow conn' (<[i := c']> (streams s))).
Proof.
  intros Hi Hc Hb. split; [done |]. intros j d Hj. cbn [streams].
  destruct (decide (i = j)) as [<- | Hne].
  - exists c'. rewrite list_lookup_insert_eq by (by eapply lookup_lt_Some).
    split; [done |]. by replace d with c by congruence.
  - exists d. rewrite list_lookup_insert_ne by done. split; [done | lia].
Qed.

(** The connection as a controller whose window can be enlarged. *)
Lemma EnsureMinimum_ok now c inc : base_ok c -> 0 <= inc < 2 ^ 63 ->
  base_ok (EnsureMinimumWindowSize now c inc)
  /\ window_grows c (EnsureMinimumWindowSize now c inc).
Proof.
  intros Hok Hinc. unfold EnsureMinimumWindowSize, window_grows.
  rewrite MinByteCount_min. case_match; bool_to_prop; fc_simpl; split_and!; (done || lia).
Qed.

Lemma step_receive s i off final : flow_inv s -> 0 <= off < 2 ^ 62 ->
  let '(s', err) := flow_step s (EvReceive i off final) in
  err = None -> flow_inv s' /\ windows_grow s s'.
Proof.
  intros Hinv Ho. cbn [flow_step]. unfold on_stream.
  destruct (streams s !! i) as [c |] eqn:Hi; [| by auto using windows_grow_refl].
  pose proof (UpdateHighestReceived_spec c (conn s) off final (stream_at s i c Hinv Hi)
    (proj1 Hinv) Ho) as Hu.
  destruct (UpdateHighestReceived c (conn s) off final) as [[c' conn'] err]. intros ->.
  destruct Hu as (Hb & Hc & Hm & Hd & Ec & En & _). split.
  - apply (stream_op_inv s i c); try done; rewrite Ec, En; fc_simpl; lia.
  - apply (windows_grow_insert s i c); [done | rewrite En | rewrite Ec]; fc_simpl; lia.
Qed.

Lemma AddBytesRead_fields now c n : 0 <= bytesRead c + n < 2 ^ 64 ->
  let c' := AddBytesRead now c n in
  bytesRead c' = bytesRead c + n /\ highestReceived c' = highestReceived c
  /\ receiveWindow c' = receiveWindow c /\ receiveWindowSize c' = receiveWindowSize c
  /\ maxReceiveWindowSize c' = maxReceiveWindowSize c
  /\ bytesSent c' = bytesSent c /\ sendWindow c' = sendWindow c.
Proof.
  intros H. unfold AddBytesRead. case_match; fc_simpl; rewrite add64_small by lia; done.
Qed.

Lemma AddBytesRead_ok now c n : base_ok c -> 0 <= n -> bytesRead c + n <= highestReceived c ->
  base_ok (AddBytesRead now c n).
Proof.
  intros Hok Hn Hle. unfold base_ok in *.
  destruct (AddBytesRead_fields now c n) as (-> & -> & -> & -> & -> & -> & ->); lia.
Qed.

Lemma step_read s i now n : flow_inv s -> event_ok s (EvRead i now n) ->
  flow_inv (flow_step s (EvRead i now n)).1 /\ windows_grow s (flow_step s (EvRead i now n)).1.
Proof.
  intros Hinv Hok. cbn [flow_step]. unfold on_stream.
  destruct (streams s !! i) as [c |] eqn:Hi; [| by auto using windows_grow_refl].
  destruct (Hok c Hi) as [Hn Hle]. pose proof (stream_at s i c Hinv Hi) as Hb.
  pose proof Hinv as (Hc & Hs & Eh & Er & _). cbn [stream_AddBytesRead fst].
  assert (Hsum : bytesRead (conn s) + n <= highestReceived (conn s)).
  { pose proof (zsum_le (fun c => bytesRead (base c)) (fun c => highestReceived (base c))
      (<[i := with_base c (AddBytesRead now (base c) n)]> (streams s))) as Hl.
    rewrite !(zsum_insert _ _ i c _ Hi) in Hl. cbn [with_base base] in Hl.
    destruct (AddBytesRead_fields now (base c) n) as (E1 & E2 & _); [unfold base_ok in Hb; lia |].
    rewrite E1, E2, <- Eh, <- Er in Hl. enough (bytesRead (conn s) - bytesRead (base c)
      + (bytesRead (base c) + n) <= highestReceived (conn s)
      - highestReceived (base c) + highestReceived (base c)) by lia.
    apply Hl. apply Forall_insert; [| cbn [with_base base]; lia].
    eapply Forall_impl; [exact Hs |]. cbn. unfold base_ok. intros. lia. }
  destruct (AddBytesRead_fields now (base c) n) as (E1 & E2 & E3 & E4 & E5 & E6 & E7);
    [unfold base_ok in Hb; lia |].
  destruct (AddBytesRead_fields now (conn s) n) as (F1 & F2 & F3 & F4 & F5 & F6 & F7);
    [unfold base_ok in Hc; lia |].
  split.
  - apply (stream_op_inv s i c); [done | done | by apply AddBytesRead_ok
      | by apply AddBytesRead_ok | cbn [with_base base]; lia ..].
  - apply (windows_grow_insert s i c); [done | lia | cbn [with_base base]; lia].
Qed.

Lemma step_stream_update s i now rtt : flow_inv s -> event_ok s (EvStreamUpdate i now rtt) ->
  flow_inv (flow_step s (EvStreamUpdate i now rtt)).1
  /\ windows_grow s (flow_step s (EvStreamUpdate i now rtt)).1.
Proof.
  intros Hinv Hok. cbn [flow_step]. unfold on_stream.
  destruct (streams s !! i) as [c |] eqn:Hi; [| by auto using windows_grow_refl].
  specialize (Hok c Hi). pose proof (stream_at s i c Hinv Hi) as Hb. pose proof (proj1 Hinv) as Hc.
  pose proof (getWindowUpdate_spec now rtt (base c) Hb Hok) as Hg.
  unfold stream_GetWindowUpdate. destruct (receivedFinalOffset c).
  { split; [by apply (stream_op_inv s i c); try lia | by apply (windows_grow_insert s i c)]. }
  destruct (getWindowUpdate now rtt (base c)) as [off b].
  destruct Hg as (Hb' & (G1 & G2 & G3 & G4 & G5 & G6 & G7) & _).
  assert (Hconn : forall conn', base_ok conn' -> window_grows (conn s) conn' ->
    flow_inv (mkFlow conn' (<[i := with_base c b]> (streams s)))
    /\ windows_grow s (mkFlow conn' (<[i := with_base c b]> (streams s)))).
  { intros conn' Hc' (W1 & W2 & W3 & W4 & W5 & W6 & W7). split.
    - apply (stream_op_inv s i c); try done; cbn [with_base base]; lia.
    - by apply (windows_grow_insert s i c). }
  destruct (receiveWindowSize (base c) <? receiveWindowSize b); cbn [fst].
  - apply Hconn; apply EnsureMinimum_ok; try done;
      unfold ConnectionFlowControlMultiplier; rewrite (scale_exact _ 3 1)
        by (unfold base_ok in Hb'; lia);
      (split; [apply Z.div_pos; unfold base_ok in Hb'; lia
              | apply Z.div_lt_upper_bound; unfold base_ok in Hb'; lia]).
  - apply Hconn; [done |]. unfold window_grows. split_and!; (done || lia).
Qed.

Lemma step_send s i n : flow_inv s -> event_ok s (EvSend i n) ->
  flow_inv (flow_step s (EvSend i n)).1 /\ windows_grow s (flow_step s (EvSend i n)).1.
Proof.
  intros Hinv Hok. cbn [flow_step]. unfold on_stream.
  destruct (streams s !! i) as [c |] eqn:Hi; [| by auto using windows_grow_refl].
  specialize (Hok c Hi). cbn in Hok. pose proof (stream_at s i c Hinv Hi) as Hb.
  pose proof (proj1 Hinv) as Hc. unfold SendWindowSize in Hok.
  rewrite MinByteCount_min, !sendWindowSize_spec in Hok by done.
  unfold stream_AddBytesSent, AddBytesSent. cbn [fst]. split.
  - apply (stream_op_inv s i c); try done; fc_simpl; rewrite ?add64_small by lia; lia.
  - apply (windows_grow_insert s i c); [done | fc_simpl; lia | fc_simpl; lia].
Qed.

Lemma UpdateSendWindow_ok c off : base_ok c -> 0 <= off < 2 ^ 62 ->
  base_ok (UpdateSendWindow c off)
  /\ receiveWindow (UpdateSendWindow c off) = receiveWindow c
  /\ highestReceived (UpdateSendWindow c off) = highestReceived c
  /\ bytesRead (UpdateSendWindow c off) = bytesRead c
  /\ bytesSent (UpdateSendWindow c off) = bytesSent c
  /\ sendWindow (UpdateSendWindow c off) = Z.max (sendWindow c) off.
Proof.
  intros Hok Ho. unfold UpdateSendWindow. case_match; bool_to_prop; fc_simpl; split_and!; (done || lia).
Qed.

Lemma flow_step_inv s e : flow_inv s -> event_ok s e -> (flow_step s e).2 = None ->
  flow_inv (flow_step s e).1 /\ windows_grow s (flow_step s e).1.
Proof.
  intros Hinv Hok Herr. destruct e as [id w m sw | i off final | | | now rtt | | off | i off].
  - destruct Hok as (Hw & Hm & Hsw). destruct Hinv as (Hc & Hs & Eh & Er & Eb).
    cbn [flow_step fst]. split; [unfold flow_inv | split]; cbn [conn streams].
    + rewrite !zsum_app. cbn [zsum]. unfold NewStreamFlowController. fc_simpl.
      split_and!; try done; try lia. apply Forall_app. split; [done |].
      apply Forall_singleton. fc_simpl. lia.
    + lia.
    + intros i c Hi. exists c. split; [by apply lookup_app_l_Some | lia].
  - pose proof (step_receive s i off final Hinv Hok) as Hr.
    destruct (flow_step s (EvReceive i off final)) as [s' err]. by apply Hr.
  - by apply step_read.
  - by apply step_stream_update.
  - pose proof (getWindowUpdate_spec now rtt (conn s) (proj1 Hinv) Hok) as Hg.
    cbn [flow_step fst]. unfold conn_GetWindowUpdate.
    destruct (getWindowUpdate now rtt (conn s)) as [off b]. cbn [snd].
    destruct Hg as (Hb & (G1 & G2 & G3 & G4 & G5 & G6 & G7) & _).
    destruct Hinv as (Hc & Hs & Eh & Er & Eb). split; [| split; [done |]].
    + unfold flow_inv. cbn [conn streams]. by rewrite G1, G3, G4.
    + intros i c Hi. exists c. split; [done | lia].
  - by apply step_send.
  - destruct (UpdateSendWindow_ok (conn s) off (proj1 Hinv) Hok) as (Hb & W & E1 & E2 & E3 & _).
    destruct Hinv as (Hc & Hs & Eh & Er & Eb). cbn [flow_step fst]. split; [| split].
    + unfold flow_inv. cbn [conn streams]. by rewrite E1, E2, E3.
    + cbn [conn]. lia.
    + intros i c Hi. exists c. split; [done | lia].
  - cbn [flow_step]. unfold on_stream.
    destruct (streams s !! i) as [c |] eqn:Hi; [| by auto using windows_grow_refl].
    destruct (UpdateSendWindow_ok (base c) off (stream_at s i c Hinv Hi) Hok)
      as (Hb & W & E1 & E2 & E3 & _). cbn [fst]. split.
    + apply (stream_op_inv s i c); try done; [apply Hinv | cbn [with_base base]; lia ..].
    + apply (windows_grow_insert s i c); [done | lia | cbn [with_base base]; lia].
Qed.

(** ** Reachable states *)

Inductive flow_reach : flow -> flow -> Prop :=
  | flow_here s : flow_reach s s
  | flow_next s s1 e s2 : flow_reach s s1 -> event_ok s1 e -> flow_step s1 e = (s2, None) ->
      flow_reach s s2.

Lemma windows_grow_trans s1 s2 s3 : windows_grow s1 s2 -> windows_grow s2 s3 -> windows_grow s1 s3.
Proof.
  intros [H1 H2] [H3 H4]. split; [lia |]. intros i c Hi.
  destruct (H2 i c Hi) as (c2 & Hi2 & Hle). destruct (H4 i c2 Hi2) as (c3 & Hi3 & Hle3).
  exists c3. split; [done | lia].
Qed.

Lemma flow_reach_inv s s' : flow_inv s -> flow_reach s s' -> flow_inv s' /\ windows_grow s s'.
Proof.
  intros Hinv. induction 1 as [s | s s1 e s2 Hr IH Hok Hstep]; [by auto using windows_grow_refl |].
  destruct (IH Hinv) as [Hinv1 Hg1].
  pose proof (flow_step_inv s1 e Hinv1 Hok) as Hs. rewrite Hstep in Hs.
  destruct (Hs eq_refl) as [Hinv2 Hg2]. split; [done |]. by eapply windows_grow_trans.
Qed.

(** ** Properties *)


Definition flow_example : flow :=
  mkFlow (mkBase 30 40 0 60 100 150 150 1000 5 0)
    [mkStreamFC (mkBase 30 50 0 60 100 120 120 800 5 0) 4 false].


(** [UpdateHighestReceived] accepts an offset exactly when it is consistent
    with a final offset, known or announced now, and within the windows of the
    stream and of the connection; then the highest offset becomes the maximum of
    the two, the connection is charged with the increase, and once the final
    offset is known it does not change any more. *)
Theorem UpdateHighestReceived_exact c conn off final :
  base_ok (base c) -> base_ok conn -> 0 <= off < 2 ^ 62 ->
  let h := highestReceived (base c) in
  let '(c', conn', err) := UpdateHighestReceived c conn off final in
  (err = None <->
     (receivedFinalOffset c = true -> off <= h /\ (final = true -> off = h))
     /\ (final = true -> h <= off)
     /\ (h < off -> off <= receiveWindow (base c)
                    /\ highestReceived conn + (off - h) <= receiveWindow conn))
  /\ (err = None ->
      highestReceived (base c') = Z.max h off
      /\ highestReceived conn' = highestReceived conn + (Z.max h off - h)
      /\ receivedFinalOffset c' = receivedFinalOffset c || final
      /\ (receivedFinalOffset c = true -> highestReceived (base c') = h)
      /\ (final = true -> highestReceived (base c') = off)).
Proof.
  intros Hb Hc Ho h. pose proof (UpdateHighestReceived_spec c conn off final Hb Hc Ho) as Hu.
  unfold h. clear h. destruct (UpdateHighestReceived c conn off final) as [[c' conn'] [e |]].
  - split; [| done]. split; [done |]. intros (H1 & H2 & H3). exfalso. unfold base_ok in *.
    destruct Hu as [[Hf Hlt] | [(Hf & -> & Hne) | [[-> Hlt] | [Hlt | Hlt]]]].
    + specialize (H1 Hf). lia.
    + destruct (H1 Hf). tauto.
    + specialize (H2 eq_refl). lia.
    + lia.
    + destruct (Z.ltb_spec (highestReceived (base c)) off); [lia |]. lia.
  - destruct Hu as (Hb' & Hc' & Hm & Hd & Ec & En & Hf & Hf1 & Hf2). split; [| intros _; split_and!; (done || lia)].
    split; [| done]. intros _. rewrite Ec in Hb'. rewrite En in Hc'. fc_simpl.
    split_and!; intros; try (specialize (Hf1 H)); try (specialize (Hf2 H)); try lia.
    split; [lia |]. intros Hfin. specialize (Hf2 Hfin). lia.
Qed.

Lemma UpdateHighestReceived_exact_witness :
  let c := mkStreamFC (mkBase 30 50 0 60 100 120 120 800 5 0) 4 false in
  let conn := mkBase 30 40 0 60 100 150 150 1000 5 0 in
  UpdateHighestReceived c conn 110 true
  = (mkStreamFC (mkBase 30 50 0 60 110 120 120 800 5 0) 4 true,
     mkBase 30 40 0 60 110 150 150 1000 5 0, None)
  /\ (true = true -> 110 = 110).
Proof.
  intros c conn. pose proof (UpdateHighestReceived_exact c conn 110 true) as H.
  split; [vm_compute; reflexivity |].
  assert (Hc : base_ok (base c)) by (unfold base_ok; cbn; lia).
  assert (Hn : base_ok conn) by (unfold base_ok; cbn; lia).
  specialize (H Hc Hn ltac:(lia)). vm_compute (UpdateHighestReceived c conn 110 true) in H.
  cbv zeta in H. destruct H as [_ H]. destruct (H eq_refl) as (_ & _ & _ & _ & H5). exact H5.
Defined.
