(* ===== verification/ReceivedPackets.v ===== *)
(** * Received packets (internal/ackhandler/received_packet_history.go and
    received_packet_handler.go)

    The history keeps the received packet numbers as a list of intervals, the
    lowest first; the handler decides when an ACK is sent and builds it.  Times
    are nanoseconds, with 0 for the zero time. *)

From S2P Require Import Prelude Qerr Protocol Float AckFrame RTTStats.

(** ** The history *)

Record PacketInterval : Type := mkPacketInterval { PStart : Z; PEnd : Z }.

(** [ranges] from [Front] to [Back]. *)
Record receivedPacketHistory : Type := mkHistory {
  ranges : list PacketInterval; lowestInReceivedPacketNumbers : Z }.

Definition errTooManyOutstandingReceivedAckRanges : go_error :=
  QuicError TooManyOutstandingReceivedPackets (Msg "Too many outstanding received ACK ranges" []).

Definition newReceivedPacketHistory : receivedPacketHistory := mkHistory [] 0.

(** The range [el] has been extended; merge it with the one before, if they
    now touch. *)
Definition merge_range (el : PacketInterval) (rest : list PacketInterval) : list PacketInterval :=
  match rest with
  | prev :: rest' =>
      if PEnd prev +64 1 =? PStart el then mkPacketInterval (PStart prev) (PEnd el) :: rest'
      else el :: rest
  | [] => [el]
  end.

(** The loop from [Back] to [Front]: the list is given from [Back] on, with
    [InsertBefore] the front at its end. *)
Fixpoint receive_packet (p : Z) (l : list PacketInterval) : list PacketInterval :=
  match l with
  | [] => [mkPacketInterval p p]
  | el :: rest =>
      if (PStart el <=? p) && (p <=? PEnd el) then l
      else if PEnd el =? p -64 1 then merge_range (mkPacketInterval (PStart el) p) rest
      else if PStart el =? p +64 1 then merge_range (mkPacketInterval p (PEnd el)) rest
      else if PEnd el <? p then mkPacketInterval p p :: l
      else el :: receive_packet p rest
  end.

Definition history_ReceivedPacket (h : receivedPacketHistory) (p : Z)
    : receivedPacketHistory * option go_error :=
  if MaxTrackedReceivedAckRanges <=? len (ranges h) then
    (h, Some errTooManyOutstandingReceivedAckRanges)
  else if len (ranges h) =? 0 then
    (mkHistory [mkPacketInterval p p] (lowestInReceivedPacketNumbers h), None)
  else (mkHistory (reverse (receive_packet p (reverse (ranges h)))) (lowestInReceivedPacketNumbers h), None).

Fixpoint delete_below (p : Z) (l : list PacketInterval) : list PacketInterval :=
  match l with
  | [] => []
  | el :: rest =>
      if (PStart el <? p) && (p <=? PEnd el) then mkPacketInterval p (PEnd el) :: delete_below p rest
      else if PEnd el <? p then delete_below p rest
      else l
  end.

Definition DeleteBelow (h : receivedPacketHistory) (p : Z) : receivedPacketHistory :=
  if p <=? lowestInReceivedPacketNumbers h then h
  else mkHistory (delete_below p (ranges h)) p.

Definition to_AckRange (r : PacketInterval) : AckRange := mkAckRange (PStart r) (PEnd r).

Definition GetAckRanges (h : receivedPacketHistory) : list AckRange := to_AckRange <$> reverse (ranges h).

Definition GetHighestAckRange (h : receivedPacketHistory) : AckRange :=
  match last (ranges h) with
  | Some r => mkAckRange (PStart r) (PEnd r)
  | None => mkAckRange 0 0
  end.

(** ** The handler *)

Record receivedPacketHandler : Type := mkRPH {
  largestObserved : Z; ignoreBelow : Z; largestObservedReceivedTime : Z;
  packetHistory : receivedPacketHistory;
  packetsReceivedSinceLastAck : Z; retransmittablePacketsReceivedSinceLastAck : Z;
  ackQueued : bool; ackAlarm : Z; lastAck : option AckFrame }.

Definition ackSendDelay : Z := 25 * Millisecond.
Definition initialRetransmittablePacketsBeforeAck : Z := 2.
Definition retransmittablePacketsBeforeAck : Z := 10.
Definition ackDecimationDelay : float := mkFloat 1 (-2).
Definition shortAckDecimationDelay : float := mkFloat 1 (-3).
Definition minReceivedBeforeAckDecimation : Z := 100.
Definition maxPacketsAfterNewMissing : Z := 4.

Definition NewReceivedPacketHandler : receivedPacketHandler :=
  mkRPH 0 0 0 newReceivedPacketHistory 0 0 false 0 None.

Definition isMissing (h : receivedPacketHandler) (p : Z) : outcome bool :=
  match lastAck h with
  | None => Ok false
  | Some ack =>
      if p <? ignoreBelow h then Ok false else
      la ← LargestAcked ack;
      if p <? la then (b ← AcksPacket ack p; Ok (negb b)) else Ok false
  end.

Definition hasNewMissingPackets (h : receivedPacketHandler) : outcome bool :=
  match lastAck h with
  | None => Ok false
  | Some ack =>
      let highestRange := GetHighestAckRange (packetHistory h) in
      la ← LargestAcked ack;
      Ok ((la <=? Smallest highestRange) && (AckRange_Len highestRange <=? maxPacketsAfterNewMissing))
  end.

(** [time.Duration(float64(rtt) * float64(f))] *)
Definition scale_duration (rtt : Z) (f : float) : Z :=
  i64 (to_int (fmul prec64 (of_int prec64 rtt) f)).

Definition set_queue (h : receivedPacketHandler) (queued : bool) (alarm retransmittable : Z)
    : receivedPacketHandler :=
  mkRPH (largestObserved h) (ignoreBelow h) (largestObservedReceivedTime h) (packetHistory h)
    (packetsReceivedSinceLastAck h) retransmittable queued alarm (lastAck h).

(** The part for a retransmittable packet while no ACK is queued. *)
Definition queue_retransmittable (h : receivedPacketHandler) (minRTT packetNumber rcvTime : Z)
    : outcome receivedPacketHandler :=
  let n := retransmittablePacketsReceivedSinceLastAck h + 1 in
  let '(queued, alarm) :=
    if minReceivedBeforeAckDecimation <? packetNumber then
      if retransmittablePacketsBeforeAck <=? n then (true, ackAlarm h)
      else if ackAlarm h =? 0 then
        (false, rcvTime + MinDuration ackSendDelay (scale_duration minRTT ackDecimationDelay))
      else (false, ackAlarm h)
    else if initialRetransmittablePacketsBeforeAck <=? n then (true, ackAlarm h)
    else if ackAlarm h =? 0 then (false, rcvTime + ackSendDelay)
    else (false, ackAlarm h) in
  newMissing ← hasNewMissingPackets h;
  let ackTime := rcvTime + scale_duration minRTT shortAckDecimationDelay in
  let alarm :=
    if (newMissing : bool) && ((alarm =? 0) || (ackTime <? alarm)) then ackTime else alarm in
  Ok (set_queue h queued alarm n).

Definition maybeQueueAck (h : receivedPacketHandler) (minRTT packetNumber rcvTime : Z)
    (shouldInstigateAck wasMissing : bool) : outcome receivedPacketHandler :=
  let h := mkRPH (largestObserved h) (ignoreBelow h) (largestObservedReceivedTime h)
    (packetHistory h) (packetsReceivedSinceLastAck h + 1)
    (retransmittablePacketsReceivedSinceLastAck h) (ackQueued h) (ackAlarm h) (lastAck h) in
  match lastAck h with
  | None => Ok (set_queue h true (ackAlarm h) (retransmittablePacketsReceivedSinceLastAck h))
  | Some _ =>
      let h := if wasMissing
               then set_queue h true (ackAlarm h) (retransmittablePacketsReceivedSinceLastAck h)
               else h in
      h ← (if negb (ackQueued h) && shouldInstigateAck
           then queue_retransmittable h minRTT packetNumber rcvTime else Ok h);
      Ok (if ackQueued h
          then set_queue h true 0 (retransmittablePacketsReceivedSinceLastAck h) else h)
  end.

(** The error that is returned is a value of the result; [Panic] is an index
    out of range in the last ACK. *)
Definition ReceivedPacket (h : receivedPacketHandler) (minRTT packetNumber rcvTime : Z)
    (shouldInstigateAck : bool) : outcome (receivedPacketHandler * option go_error) :=
  if packetNumber <? ignoreBelow h then Ok (h, None) else
  isMissing ← isMissing h packetNumber;
  let h := if largestObserved h <? packetNumber then
             mkRPH packetNumber (ignoreBelow h) rcvTime (packetHistory h)
               (packetsReceivedSinceLastAck h) (retransmittablePacketsReceivedSinceLastAck h)
               (ackQueued h) (ackAlarm h) (lastAck h)
           else h in
  match history_ReceivedPacket (packetHistory h) packetNumber with
  | (_, Some err) => Ok (h, Some err)
  | (hist, None) =>
      let h := mkRPH (largestObserved h) (ignoreBelow h) (largestObservedReceivedTime h) hist
        (packetsReceivedSinceLastAck h) (retransmittablePacketsReceivedSinceLastAck h)
        (ackQueued h) (ackAlarm h) (lastAck h) in
      h ← maybeQueueAck h minRTT packetNumber rcvTime shouldInstigateAck isMissing;
      Ok (h, None)
  end.

Definition IgnoreBelow (h : receivedPacketHandler) (p : Z) : receivedPacketHandler :=
  if p <=? ignoreBelow h then h
  else mkRPH (largestObserved h) p (largestObservedReceivedTime h)
         (DeleteBelow (packetHistory h) p)
         (packetsReceivedSinceLastAck h) (retransmittablePacketsReceivedSinceLastAck h)
         (ackQueued h) (ackAlarm h) (lastAck h).

Definition GetAckFrame (h : receivedPacketHandler) (now : Z) : option AckFrame * receivedPacketHandler :=
  if negb (ackQueued h) && ((ackAlarm h =? 0) || (now <? ackAlarm h)) then (None, h) else
  let ack := mkAckFrame (GetAckRanges (packetHistory h)) (now - largestObservedReceivedTime h) in
  (Some ack,
   mkRPH (largestObserved h) (ignoreBelow h) (largestObservedReceivedTime h) (packetHistory h)
     0 0 false 0 (Some ack)).

(** ** The intervals as a set *)

(** [l] is given from the highest interval to the lowest. *)
Definition desc (l : list PacketInterval) : Prop := descending (to_AckRange <$> l).

Definition in_interval (x : Z) (r : PacketInterval) : Prop := PStart r <= x <= PEnd r.
Definition member (l : list PacketInterval) (x : Z) : Prop := Exists (in_interval x) l.

Lemma desc_cons r l : desc (r :: l) <->
  0 <= PStart r <= PEnd r
  /\ match l with [] => True | r2 :: _ => PEnd r2 + 1 < PStart r end /\ desc l.
Proof. unfold desc. by destruct l. Qed.

Lemma member_cons r l x : member (r :: l) x <-> in_interval x r \/ member l x.
Proof. apply Exists_cons. Qed.

(** The highest number of a list bounds all of them. *)
Lemma desc_below r l x : desc (r :: l) -> member l x -> x + 1 < PStart r.
Proof.
  revert r. induction l as [| r2 l IH]; intros r Hd Hx; [by inversion Hx |].
  apply desc_cons in Hd as (Hr & Hg & Hd). apply member_cons in Hx as [Hx | Hx].
  - unfold in_interval in Hx. lia.
  - specialize (IH r2 Hd Hx). apply desc_cons in Hd as (Hr2 & _). lia.
Qed.

Lemma merge_range_spec s e rest :
  0 <= s <= e -> e < 2 ^ 62 -> desc rest ->
  match rest with [] => True | r2 :: _ => PEnd r2 < s end ->
  desc (merge_range (mkPacketInterval s e) rest)
  /\ forall x, member (merge_range (mkPacketInterval s e) rest) x <-> s <= x <= e \/ member rest x.
Proof.
  intros Hs He Hd Hg. unfold merge_range. destruct rest as [| r2 rest].
  { split; [by apply desc_cons |]. intros x. apply member_cons. }
  pose proof Hd as (H1 & H2 & H3)%desc_cons. rewrite add64_small by lia. cbn [PStart PEnd].
  destruct (Z.eqb_spec (PEnd r2 + 1) s) as [E | E].
  - split.
    + apply desc_cons. cbn [PStart PEnd]. split_and!; [lia | lia | | done]. by destruct rest.
    + intros x. rewrite !member_cons. unfold in_interval. cbn [PStart PEnd].
      assert (s <= x <= e \/ PStart r2 <= x <= PEnd r2 <-> PStart r2 <= x <= e) by lia. tauto.
  - split; [apply desc_cons; cbn [PStart PEnd]; split_and!; (done || lia) |].
    intros x. rewrite !member_cons. unfold in_interval. cbn [PStart PEnd]. tauto.
Qed.

Lemma receive_packet_spec p l : 0 <= p < 2 ^ 62 -> desc l -> Forall (fun r => PEnd r < 2 ^ 62) l ->
  desc (receive_packet p l) /\ (forall x, member (receive_packet p l) x <-> x = p \/ member l x).
Proof.
  intros Hp. induction l as [| el rest IH]; intros Hd Hb.
  { split; [apply desc_cons; cbn; lia |]. intros x. cbn [receive_packet]. rewrite member_cons.
    unfold in_interval. cbn [PStart PEnd]. intuition lia. }
  pose proof Hd as (H1 & H2 & H3)%desc_cons. apply Forall_cons in Hb as [Hb1 Hb2].
  cbn [receive_packet]. destruct (Z.leb_spec (PStart el) p), (Z.leb_spec p (PEnd el)); cbn [andb].
  { split; [done |]. intros x. rewrite member_cons. unfold in_interval. intuition lia. }
  - (* p is above el *)
    rewrite sub64_small by lia. destruct (Z.eqb_spec (PEnd el) (p - 1)) as [E | E].
    + destruct (merge_range_spec (PStart el) p rest) as [Hm Hx]; [lia | lia | done | |].
      { destruct rest; [done | lia]. }
      split; [done |]. intros x. rewrite Hx, member_cons. unfold in_interval.
      assert (PStart el <= x <= p <-> x = p \/ PStart el <= x <= PEnd el) by lia. tauto.
    + rewrite add64_small by lia. destruct (Z.eqb_spec (PStart el) (p + 1)); [lia |].
      destruct (Z.ltb_spec (PEnd el) p); [| lia]. split.
      * apply desc_cons. cbn [PStart PEnd]. split_and!; (done || lia).
      * intros x. rewrite member_cons. unfold in_interval. cbn [PStart PEnd].
        assert (p <= x <= p <-> x = p) by lia. tauto.
  - (* p is below el *)
    destruct (Z.eqb_spec (PEnd el) (p -64 1)) as [E | E].
    { exfalso. destruct (Z.eqb_spec p 0) as [-> | ?].
      - change (0 -64 1) with (2 ^ 64 - 1) in E. lia.
      - rewrite sub64_small in E by lia. lia. }
    rewrite add64_small by lia. destruct (Z.eqb_spec (PStart el) (p + 1)) as [E2 | E2].
    + destruct (merge_range_spec p (PEnd el) rest) as [Hm Hx]; [lia | lia | done | |].
      { destruct rest; [done | lia]. }
      split; [done |]. intros x. rewrite Hx, member_cons. unfold in_interval.
      assert (p <= x <= PEnd el <-> x = p \/ PStart el <= x <= PEnd el) by lia. tauto.
    + destruct (Z.ltb_spec (PEnd el) p); [lia |]. destruct (IH H3 Hb2) as [Hd' Hx]. split.
      * apply desc_cons. split_and!; [lia | lia | | done].
        destruct (receive_packet p rest) as [| r2 l2] eqn:Er; [done |].
        apply desc_cons in Hd' as (Hr2 & _).
        assert (Hm : member (r2 :: l2) (PEnd r2)) by (apply member_cons; left; unfold in_interval; lia).
        apply Hx in Hm as [-> | Hm]; [lia |]. pose proof (desc_below _ _ _ Hd Hm). lia.
      * intros x. rewrite !member_cons, Hx. tauto.
  - lia.
Qed.

(** The same order, from the lowest interval to the highest. *)
Fixpoint asc (l : list PacketInterval) : Prop :=
  match l with
  | [] => True
  | r :: rest => 0 <= PStart r <= PEnd r
      /\ match rest with [] => True | r2 :: _ => PEnd r + 1 < PStart r2 end /\ asc rest
  end.

Lemma desc_snoc l r : desc (l ++ [r]) <->
  desc l /\ 0 <= PStart r <= PEnd r
  /\ match last l with None => True | Some q => PEnd r + 1 < PStart q end.
Proof.
  induction l as [| a l IH]; [unfold desc; cbn; tauto |].
  cbn [app]. rewrite !desc_cons, IH. destruct l as [| b l].
  - cbn. unfold desc. cbn. tauto.
  - rewrite last_cons_cons. cbn [app]. tauto.
Qed.

Lemma desc_reverse l : desc (reverse l) <-> asc l.
Proof.
  induction l as [| r l IH]; [done |]. rewrite reverse_cons, desc_snoc, IH, last_reverse.
  cbn [asc]. destruct l; cbn [head]; tauto.
Qed.

Lemma member_reverse l x : member (reverse l) x <-> member l x.
Proof.
  unfold member. rewrite !Exists_exists.
  split; intros (r & Hr & Hx); exists r; (split; [| done]); by apply elem_of_reverse.
Qed.

Lemma asc_above r l x : asc (r :: l) -> member l x -> PEnd r + 1 < x.
Proof.
  revert r. induction l as [| r2 l IH]; intros r Hd Hx; [by inversion Hx |].
  destruct Hd as (Hr & Hg & Hd). apply member_cons in Hx as [Hx | Hx].
  - unfold in_interval in Hx. lia.
  - specialize (IH r2 Hd Hx). destruct Hd as (Hr2 & _). lia.
Qed.

Lemma delete_below_spec p l : asc l ->
  asc (delete_below p l) /\ (forall x, member (delete_below p l) x <-> member l x /\ p <= x).
Proof.
  induction l as [| el rest IH]; intros Ha.
  { split; [done |]. intros x. split; [by inversion 1 | by intros [H _]; inversion H]. }
  pose proof Ha as (H1 & H2 & H3). destruct (IH H3) as [Hd Hx].
  pose proof (fun x => asc_above el rest x Ha) as Hab. cbn [delete_below].
  destruct (Z.ltb_spec (PStart el) p), (Z.leb_spec p (PEnd el)); cbn [andb].
  - split.
    + cbn. split_and!; [lia | lia | | done].
      destruct (delete_below p rest) as [| r2 l2] eqn:E; [done |].
      destruct Hd as (Hr2 & _). assert (Hm : member (r2 :: l2) (PStart r2)).
      { apply member_cons. left. unfold in_interval. lia. }
      apply Hx in Hm as [Hm _]. specialize (Hab _ Hm). lia.
    + intros x. rewrite !member_cons, Hx. specialize (Hab x). unfold in_interval. cbn [PStart PEnd].
      intuition lia.
  - destruct (Z.ltb_spec (PEnd el) p); [| lia]. split; [done |].
    intros x. rewrite member_cons, Hx. specialize (Hab x). unfold in_interval. intuition lia.
  - destruct (Z.ltb_spec (PEnd el) p); [lia |]. split; [done |].
    intros x. rewrite member_cons. specialize (Hab x). unfold in_interval. intuition lia.
  - lia.
Qed.

(** ** Histories of the handler *)

(** What the handler has promised: the intervals are exactly the received packet
    numbers that are not ignored.  [seen] are the numbers received so far. *)
Definition rph_inv (h : receivedPacketHandler) (seen : list Z) : Prop :=
  asc (ranges (packetHistory h))
  /\ Forall (fun r => PEnd r < 2 ^ 62) (ranges (packetHistory h))
  /\ lowestInReceivedPacketNumbers (packetHistory h) = ignoreBelow h
  /\ forall x, member (ranges (packetHistory h)) x <-> x ∈ seen /\ ignoreBelow h <= x.

Lemma members_bounded l : asc l -> (forall x, member l x -> x < 2 ^ 62) ->
  Forall (fun r => PEnd r < 2 ^ 62) l.
Proof.
  induction l as [| r l IH]; intros Ha Hm; [constructor |]. destruct Ha as (Hr & _ & Ha).
  constructor.
  - apply Hm. apply member_cons. left. unfold in_interval. lia.
  - apply IH; [done |]. intros x Hx. apply Hm. apply member_cons. by right.
Qed.

Lemma history_ReceivedPacket_spec h p : asc (ranges h) ->
  Forall (fun r => PEnd r < 2 ^ 62) (ranges h) -> 0 <= p < 2 ^ 62 ->
  match history_ReceivedPacket h p with
  | (h', None) => asc (ranges h') /\ Forall (fun r => PEnd r < 2 ^ 62) (ranges h')
      /\ lowestInReceivedPacketNumbers h' = lowestInReceivedPacketNumbers h
      /\ forall x, member (ranges h') x <-> x = p \/ member (ranges h) x
  | (h', Some e) => e = errTooManyOutstandingReceivedAckRanges /\ h' = h
      /\ MaxTrackedReceivedAckRanges <= len (ranges h)
  end.
Proof.
  intros Ha Hb Hp. unfold history_ReceivedPacket.
  destruct (Z.leb_spec MaxTrackedReceivedAckRanges (len (ranges h))); [done |].
  assert (Hbm : forall x, member (ranges h) x -> x < 2 ^ 62).
  { intros x Hx. apply Exists_exists in Hx as (r & Hr & Hx). rewrite Forall_forall in Hb.
    specialize (Hb r Hr). unfold in_interval in Hx. lia. }
  destruct (Z.eqb_spec (len (ranges h)) 0) as [E | E]; cbn [ranges lowestInReceivedPacketNumbers].
  - apply len_zero in E. rewrite E. split; [cbn; lia |]. split_and!; [| done |].
    + by constructor; [cbn; lia |].
    + intros x. rewrite member_cons. unfold in_interval. cbn [PStart PEnd]. intuition lia.
  - destruct (receive_packet_spec p (reverse (ranges h))) as [Hd Hx]; [done | | |].
    { by apply desc_reverse. } { by apply Forall_reverse. }
    assert (Hm : forall x, member (reverse (receive_packet p (reverse (ranges h)))) x
      <-> x = p \/ member (ranges h) x).
    { intros x. rewrite member_reverse, Hx, member_reverse. done. }
    assert (Has : asc (reverse (receive_packet p (reverse (ranges h))))).
    { apply desc_reverse. by rewrite reverse_involutive. }
    split_and!; [done | | done | done]. apply members_bounded; [done |].
    intros x Hxm. apply Hm in Hxm as [-> | Hxm]; [lia | by apply Hbm].
Qed.

(** The handler with the numbers received so far; a step that panics or returns
    an error ends the connection. *)
Inductive rph_reach : receivedPacketHandler -> list Z -> Prop :=
  | rph_start : rph_reach NewReceivedPacketHandler []
  | rph_receive h seen h' p rcvTime minRTT b : rph_reach h seen -> 0 <= p < 2 ^ 62 ->
      ReceivedPacket h minRTT p rcvTime b = Ok (h', None) -> rph_reach h' (p :: seen)
  | rph_ignore h seen p : rph_reach h seen -> rph_reach (IgnoreBelow h p) seen
  | rph_get h seen now : rph_reach h seen -> rph_reach (GetAckFrame h now).2 seen.

(** Queueing an ACK touches neither the history nor the limit. *)
Lemma maybeQueueAck_frame h minRTT p t b w h' : maybeQueueAck h minRTT p t b w = Ok h' ->
  packetHistory h' = packetHistory h /\ ignoreBelow h' = ignoreBelow h.
Proof.
  unfold maybeQueueAck, queue_retransmittable.
  destruct (lastAck h) eqn:El; cbn [lastAck]; [| by intros [= <-]].
  intros H. apply outcome_bind_Ok in H as (h1 & H1 & [= <-]).
  assert (E1 : packetHistory h1 = packetHistory h /\ ignoreBelow h1 = ignoreBelow h).
  { destruct (negb _ && b) eqn:Eb; [| injection H1 as <-; by destruct w].
    destruct (if minReceivedBeforeAckDecimation <? p then _ else _) as [q al].
    apply outcome_bind_Ok in H1 as (nm & _ & [= <-]). by destruct w. }
  by destruct (ackQueued h1).
Qed.

Lemma rph_reach_inv h seen : rph_reach h seen -> rph_inv h seen.
Proof.
  induction 1 as [| h seen h' p t m b Hr IH Hp Hstep | h seen p Hr IH | h seen now Hr IH].
  - split_and!; [done | constructor | done |]. intros x. cbn. split.
    + by inversion 1.
    + intros [Hx _]. by apply not_elem_of_nil in Hx.
  - destruct IH as (Ha & Hb & Hl & Hm). unfold ReceivedPacket in Hstep.
    destruct (Z.ltb_spec p (ignoreBelow h)).
    { injection Hstep as <-. split_and!; [done.. |]. intros x. rewrite Hm, elem_of_cons. intuition lia. }
    apply outcome_bind_Ok in Hstep as (miss & _ & Hstep).
    set (h1 := if largestObserved h <? p then _ else h) in Hstep.
    assert (E1 : packetHistory h1 = packetHistory h /\ ignoreBelow h1 = ignoreBelow h)
      by (unfold h1; destruct (largestObserved h <? p); split; reflexivity).
    clearbody h1. destruct E1 as [Eh Ei]. rewrite <- Eh in Ha, Hb, Hl, Hm.
    pose proof (history_ReceivedPacket_spec _ p Ha Hb Hp) as Hs.
    destruct (history_ReceivedPacket (packetHistory h1) p) as [hist [e |]]; [done |].
    apply outcome_bind_Ok in Hstep as (h2 & Hq & [= <-]).
    apply maybeQueueAck_frame in Hq as [E2 E3]. cbn [packetHistory ignoreBelow] in E2, E3.
    destruct Hs as (Ha' & Hb' & Hl' & Hm'). unfold rph_inv. rewrite E2, E3, Ei.
    split_and!; [done | done | congruence |]. intros x. rewrite Hm', Hm, elem_of_cons.
    intuition (subst; auto).
  - destruct IH as (Ha & Hb & Hl & Hm). unfold IgnoreBelow.
    destruct (Z.leb_spec p (ignoreBelow h)); [by split_and! |]. unfold rph_inv, DeleteBelow.
    cbn [packetHistory ignoreBelow]. destruct (Z.leb_spec p (lowestInReceivedPacketNumbers (packetHistory h))); [lia |].
    cbn [ranges lowestInReceivedPacketNumbers]. destruct (delete_below_spec p _ Ha) as [Hd Hx].
    split_and!; [done | | done |].
    + apply members_bounded; [done |]. intros x [Hxm _]%Hx.
      apply Exists_exists in Hxm as (r & Hr2 & Hxr). rewrite Forall_forall in Hb.
      specialize (Hb r Hr2). unfold in_interval in Hxr. lia.
    + intros x. rewrite Hx, Hm. intuition lia.
  - unfold GetAckFrame. by case_match.
Qed.

(** ** Properties *)

Lemma existsb_member l x : existsb (in_range x) (to_AckRange <$> l) = true <-> member l x.
Proof.
  induction l as [| r l IH]; [split; [done | by inversion 1] |].
  cbn [fmap list_fmap existsb]. rewrite orb_true_iff, IH, member_cons. unfold in_range, in_interval.
  cbn [to_AckRange Smallest Largest]. rewrite andb_true_iff, !Z.leb_le. done.
Qed.

(** C12. Every ACK frame the handler builds acknowledges exactly the packets that
    were received and are not ignored: no packet that did not arrive is ever
    acknowledged, and none that arrived is forgotten.  Its ranges are in the
    order the frame format needs. *)
Theorem GetAckFrame_exact h seen now ack h' : rph_reach h seen ->
  GetAckFrame h now = (Some ack, h') ->
  descending (AckRanges ack)
  /\ forall p, existsb (in_range p) (AckRanges ack) = true <-> p ∈ seen /\ ignoreBelow h <= p.
Proof.
  intros Hr Hg. apply rph_reach_inv in Hr as (Ha & Hb & Hl & Hm). unfold GetAckFrame in Hg.
  case_match; simplify_eq. cbn [AckRanges]. unfold GetAckRanges. split.
  - by apply desc_reverse.
  - intros p. by rewrite existsb_member, member_reverse, Hm.
Qed.

(** The state after packets 1 and 3 have been received and acknowledged. *)
Definition rph_example : receivedPacketHandler :=
  mkRPH 3 0 20 (mkHistory [mkPacketInterval 1 1; mkPacketInterval 3 3] 0) 0 0 false 0
    (Some (mkAckFrame [mkAckRange 3 3; mkAckRange 1 1] 10)).

Lemma rph_example_reach : rph_reach rph_example [3; 1].
Proof.
  change rph_example with (GetAckFrame (mkRPH 3 0 20
    (mkHistory [mkPacketInterval 1 1; mkPacketInterval 3 3] 0) 2 0 true 0 None) 30).2.
  apply rph_get.
  apply (rph_receive (mkRPH 1 0 10 (mkHistory [mkPacketInterval 1 1] 0) 1 0 true 0 None)
    [1] _ 3 20 0 true); [| lia | vm_compute; reflexivity].
  apply (rph_receive NewReceivedPacketHandler [] _ 1 10 0 true);
    [constructor | lia | vm_compute; reflexivity].
Qed.

Lemma GetAckFrame_exact_witness :
  exists h ack h', rph_reach h [2; 3; 1] /\ GetAckFrame h 50 = (Some ack, h')
  /\ descending (AckRanges ack)
  /\ forall p, existsb (in_range p) (AckRanges ack) = true <-> p ∈ [2; 3; 1] /\ 0 <= p.
Proof.
  set (h := mkRPH 3 0 20 (mkHistory [mkPacketInterval 1 3] 0) 1 0 true 0
    (Some (mkAckFrame [mkAckRange 3 3; mkAckRange 1 1] 10))).
  assert (Hr : rph_reach h [2; 3; 1]).
  { apply (rph_receive rph_example [3; 1] h 2 40 0 true);
      [apply rph_example_reach | lia | vm_compute; reflexivity]. }
  exists h. do 2 eexists. split; [exact Hr |]. split; [reflexivity |].
  eapply (GetAckFrame_exact h [2; 3; 1] 50); [exact Hr | reflexivity].
Defined.

Lemma scale_duration_exact d k : 0 <= d < 2 ^ 53 -> 0 < k ->
  scale_duration d (mkFloat 1 (- k)) = d / 2 ^ k.
Proof.
  intros Hd Hk. unfold scale_duration, prec64. rewrite of_int_exact by lia.
  rewrite fmul_exact by (cbn [mant]; lia). unfold to_int. cbn [mant expo].
  destruct (Z.leb_spec 0 (0 + - k)); [lia |]. rewrite Z.mul_1_r.
  replace (- (0 + - k)) with k by lia. rewrite Z.quot_div_nonneg by lia.
  assert (0 <= d / 2 ^ k <= d).
  { split; [apply Z.div_pos; lia |]. apply Z.div_le_upper_bound; [lia |]. nia. }
  apply i64_small. lia.
Qed.

(** The alarm set for a retransmittable packet. *)
Lemma queue_retransmittable_alarm h minRTT p rcvTime h' :
  0 < rcvTime -> 0 <= minRTT < 2 ^ 53 -> 0 <= ackAlarm h <= rcvTime + ackSendDelay ->
  queue_retransmittable h minRTT p rcvTime = Ok h' ->
  ackQueued h' = true \/ 0 < ackAlarm h' <= rcvTime + ackSendDelay.
Proof.
  intros Ht Hm Ha Hq. unfold queue_retransmittable in Hq.
  unfold ackDecimationDelay, shortAckDecimationDelay in Hq.
  rewrite (scale_duration_exact _ 2), (scale_duration_exact _ 3) in Hq by lia.
  assert (0 <= minRTT / 2 ^ 2) by (apply Z.div_pos; lia).
  assert (0 <= minRTT / 2 ^ 3) by (apply Z.div_pos; lia).
  match type of Hq with (let '(_, _) := ?x in _) = _ => destruct x as [q al] eqn:Ex end.
  apply outcome_bind_Ok in Hq as (nm & _ & [= <-]). cbn [set_queue ackQueued ackAlarm].
  destruct q; [by left | right].
  assert (Hal : 0 < al <= rcvTime + ackSendDelay).
  { unfold ackSendDelay, Millisecond in *. revert Ex. unfold MinDuration.
    case_cmp; intros [= <-]; lia. }
  destruct nm; cbn [andb]; [| lia]. case_cmp; cbn [orb]; lia.
Qed.

Lemma maybeQueueAck_alarm h minRTT p rcvTime w h' :
  0 < rcvTime -> 0 <= minRTT < 2 ^ 53 -> 0 <= ackAlarm h <= rcvTime + ackSendDelay ->
  maybeQueueAck h minRTT p rcvTime true w = Ok h' ->
  ackQueued h' = true \/ 0 < ackAlarm h' <= rcvTime + ackSendDelay.
Proof.
  intros Ht Hm Ha Hq. unfold maybeQueueAck in Hq. cbn [lastAck] in Hq.
  destruct (lastAck h); [| injection Hq as <-; by left].
  apply outcome_bind_Ok in Hq as (h1 & H1 & [= <-]).
  destruct w; cbn [set_queue ackQueued negb andb] in H1.
  { injection H1 as <-. by left. }
  rewrite andb_true_r in H1. destruct (ackQueued h) eqn:Eq; cbn [negb] in H1.
  { injection H1 as <-. by left. }
  apply queue_retransmittable_alarm in H1; [| done | done | done].
  destruct (ackQueued h1) eqn:E1; [by left |]. destruct H1 as [H1 | H1]; [congruence | by right].
Qed.

(** Timeliness: after a packet with retransmittable frames has been
    accepted, an ACK frame is handed out to whoever asks 25 ms after the packet
    arrived, or later. *)
Theorem ack_timely h minRTT p rcvTime h' now :
  0 < rcvTime -> 0 <= minRTT < 2 ^ 53 -> 0 <= ackAlarm h <= rcvTime + ackSendDelay ->
  ignoreBelow h <= p -> ReceivedPacket h minRTT p rcvTime true = Ok (h', None) ->
  rcvTime + ackSendDelay <= now ->
  exists ack h'', GetAckFrame h' now = (Some ack, h'').
Proof.
  intros Ht Hm Ha Hp Hr Hnow. unfold ReceivedPacket in Hr.
  destruct (Z.ltb_spec p (ignoreBelow h)); [lia |].
  apply outcome_bind_Ok in Hr as (miss & _ & Hr).
  assert (Hh : ackQueued h' = true \/ 0 < ackAlarm h' <= rcvTime + ackSendDelay).
  { destruct (largestObserved h <? p);
      (destruct (history_ReceivedPacket _ p) as [hist [e |]]; [done |]);
      apply outcome_bind_Ok in Hr as (h2 & Hq & [= <-]);
      eapply maybeQueueAck_alarm; [done | done | | exact Hq | done | done | | exact Hq]; done. }
  unfold GetAckFrame. destruct (ackQueued h'); cbn [negb andb]; [eauto |].
  destruct Hh as [[=] | Hh].
  destruct (Z.eqb_spec (ackAlarm h') 0); [lia |]. destruct (Z.ltb_spec now (ackAlarm h')); [lia |].
  cbn [orb]. eauto.
Qed.

Lemma ack_timely_witness :
  exists h' ack h'', ReceivedPacket rph_example 0 4 40 true = Ok (h', None)
  /\ GetAckFrame h' 25000040 = (Some ack, h'').
Proof.
  set (h' := mkRPH 4 0 40 (mkHistory [mkPacketInterval 1 1; mkPacketInterval 3 4] 0) 1 1 false 40
    (Some (mkAckFrame [mkAckRange 3 3; mkAckRange 1 1] 10))).
  assert (E : ReceivedPacket rph_example 0 4 40 true = Ok (h', None)) by (vm_compute; reflexivity).
  assert (H : exists ack h'', GetAckFrame h' 25000040 = (Some ack, h'')).
  { apply (ack_timely rph_example 0 4 40 h' 25000040); try exact E;
      unfold ackSendDelay, Millisecond; cbn; lia. }
  destruct H as (ack & h'' & H). exists h', ack, h''. split; assumption.
Defined.

(** An ACK can be queued for nothing: packet 2 arrives after packets 1 and 3
    have been acknowledged, which queues an ACK at once; if the packet itself
    confirms that acknowledgement, everything below 4 is ignored and the ranges
    are gone.  The frame that is then handed out has no ranges, and asking for
    its length or writing it panics. *)
Theorem empty_ack_panics :
  exists h ack h', rph_reach h [2; 3; 1] /\ GetAckFrame h 50 = (Some ack, h')
  /\ AckRanges ack = [] /\ is_ok (AckFrame_Length ack) = false /\ is_ok (AckFrame_Write ack) = false
  /\ exists msg, AckFrame_Length ack = Panic msg.
Proof.
  set (h := mkRPH 3 0 20 (mkHistory [mkPacketInterval 1 3] 0) 1 0 true 0
    (Some (mkAckFrame [mkAckRange 3 3; mkAckRange 1 1] 10))).
  exists (IgnoreBelow h 4). do 2 eexists. split_and!.
  - apply rph_ignore. apply (rph_receive rph_example [3; 1] h 2 40 0 true);
      [apply rph_example_reach | lia | vm_compute; reflexivity].
  - vm_compute. reflexivity.
  - reflexivity.
  - reflexivity.
  - reflexivity.
  - eexists. reflexivity.
Qed.
