(* ===== verification/LinkedHistory.v ===== *)
(** * The history of received packets on a linked list
      (internal/ackhandler/received_packet_history.go,
      internal/utils/packetinterval_linkedlist.go)

    The methods as the code performs them, element by element and pointer by
    pointer on a list of intervals.  They implement the functions on lists of
    ReceivedPackets, so that what is proved there holds of the code with its
    pointers. *)

From S2P Require Import Prelude Protocol LinkedList AckFrame ReceivedPackets.

(** internal/utils/packetinterval_linkedlist.go *)
Definition PacketIntervalList : list_operations PacketInterval :=
  ItemList_operations (mkPacketInterval 0 0).

Abbreviation hprog := (@prog PacketInterval).

(** [ranges] is a pointer to a list. *)
Record linkedHistory : Type := mkLinkedHistory { lh_ranges : nat; lh_lowest : Z }.

Definition out_of_fuel {A} : hprog A := fun _ => Panic "out of fuel".

Definition linked_newReceivedPacketHistory : hprog linkedHistory :=
  l ← lo_New PacketIntervalList; mret (mkLinkedHistory l 0).

(** The range of [el] was extended; merge it with the one before. *)
Definition linked_merge (l : nat) (el : loc) : hprog (option go_error) :=
  prev ← lo_Prev PacketIntervalList el;
  match prev with
  | Some q =>
      pe ← get q; e ← get el;
      if PEnd (el_Value pe) +64 1 =? PStart (el_Value e) then
        modify q (set_Value (mkPacketInterval (PStart (el_Value pe)) (PEnd (el_Value e))));;
        lo_Remove PacketIntervalList l el;; mret None
      else mret None
  | None => mret None
  end.

(** The loop over the ranges, from the last. *)
Fixpoint linked_receive (fuel : nat) (l : nat) (p : Z) (el : option loc) : hprog (option go_error) :=
  match el with
  | None =>
      front ← lo_Front PacketIntervalList l; f ← deref front;
      lo_InsertBefore PacketIntervalList l (mkPacketInterval p p) f;; mret None
  | Some el =>
      match fuel with
      | O => out_of_fuel
      | S fuel =>
          e ← get el;
          let r := el_Value e in
          if (PStart r <=? p) && (p <=? PEnd r) then mret None
          else if PEnd r =? p -64 1 then
            modify el (set_Value (mkPacketInterval (PStart r) p));; linked_merge l el
          else if PStart r =? p +64 1 then
            modify el (set_Value (mkPacketInterval p (PEnd r)));; linked_merge l el
          else if PEnd r <? p then
            lo_InsertAfter PacketIntervalList l (mkPacketInterval p p) el;; mret None
          else prev ← lo_Prev PacketIntervalList el; linked_receive fuel l p prev
      end
  end.

Definition linked_ReceivedPacket (h : linkedHistory) (p : Z) : hprog (option go_error) :=
  n ← lo_Len PacketIntervalList (lh_ranges h);
  if MaxTrackedReceivedAckRanges <=? n then mret (Some errTooManyOutstandingReceivedAckRanges) else
  n ← lo_Len PacketIntervalList (lh_ranges h);
  if n =? 0 then lo_PushBack PacketIntervalList (lh_ranges h) (mkPacketInterval p p);; mret None else
  back ← lo_Back PacketIntervalList (lh_ranges h);
  linked_receive (Z.to_nat n) (lh_ranges h) p back.

(** The loop of [DeleteBelow], at the element [el], with [nextEl] not yet nil. *)
Fixpoint linked_delete (fuel : nat) (l : nat) (p : Z) (el : loc) : hprog unit :=
  match fuel with
  | O => out_of_fuel
  | S fuel =>
      nextEl ← lo_Next PacketIntervalList el;
      e ← get el;
      let r := el_Value e in
      let continue := match nextEl with Some el => linked_delete fuel l p el | None => mret tt end in
      if (PStart r <? p) && (p <=? PEnd r) then
        modify el (set_Value (mkPacketInterval p (PEnd r)));; continue
      else if PEnd r <? p then lo_Remove PacketIntervalList l el;; continue
      else mret tt
  end.

Definition linked_DeleteBelow (h : linkedHistory) (p : Z) : hprog linkedHistory :=
  if p <=? lh_lowest h then mret h else
  nextEl ← lo_Front PacketIntervalList (lh_ranges h);
  n ← lo_Len PacketIntervalList (lh_ranges h);
  (match nextEl with Some el => linked_delete (Z.to_nat n) (lh_ranges h) p el | None => mret tt end);;
  mret (mkLinkedHistory (lh_ranges h) p).

(** The loop of [GetAckRanges] fills the slice from its first element on. *)
Fixpoint linked_ranges (fuel : nat) (el : option loc) : hprog (list AckRange) :=
  match el with
  | None => mret []
  | Some el =>
      match fuel with
      | O => out_of_fuel
      | S fuel =>
          e ← get el;
          prev ← lo_Prev PacketIntervalList el;
          rs ← linked_ranges fuel prev;
          mret (mkAckRange (PStart (el_Value e)) (PEnd (el_Value e)) :: rs)
      end
  end.

Definition linked_GetAckRanges (h : linkedHistory) : hprog (list AckRange) :=
  n ← lo_Len PacketIntervalList (lh_ranges h);
  if n =? 0 then mret [] else
  back ← lo_Back PacketIntervalList (lh_ranges h);
  linked_ranges (Z.to_nat n) back.

Definition linked_GetHighestAckRange (h : linkedHistory) : hprog AckRange :=
  n ← lo_Len PacketIntervalList (lh_ranges h);
  if 0 <? n then
    back ← lo_Back PacketIntervalList (lh_ranges h); b ← deref back; e ← get b;
    mret (mkAckRange (PStart (el_Value e)) (PEnd (el_Value e)))
  else mret (mkAckRange 0 0).

(** ** Refinement *)

Lemma reverse_cons_app {A} (x : A) xs ys : reverse (x :: xs) ++ ys = reverse xs ++ x :: ys.
Proof. by rewrite reverse_cons, <- app_assoc. Qed.

Lemma merge_refines h a l r rs q u us vq : repr h a -> seqs a !! l = Some (reverse rs ++ r :: q) ->
  holds a rs us -> values a !! r = Some u -> holds a q vq ->
  exists h', linked_merge l (Node r) h = Ok (None, h') /\ represents h' l (reverse (merge_range u us) ++ vq).
Proof.
  intros Hr Hl Hrs Hu Hq. unfold linked_merge. cbn [lo_Prev PacketIntervalList ItemList_operations].
  rewrite (prog_bind_step _ _ _ _ _ (Prev_spec _ _ _ _ _ _ Hr Hl)), last_reverse.
  destruct Hrs as [| s w rs us Hw Hrs].
  { exists h. split; [done |]. cbn. exists a, (r :: q). split_and!; [done | done | by constructor]. }
  destruct (place_get _ _ _ _ _ _ _ Hr Hl Hu) as (el & Hel & Hv).
  cbn [head fmap option_fmap option_map]. assert (Hl' := Hl). rewrite reverse_cons_app in Hl'.
  destruct (place_get _ _ _ _ _ _ _ Hr Hl' Hw) as (es & Hes & Hvs).
  rewrite (get_step _ _ _ _ Hes), (get_step _ _ _ _ Hel), Hv, Hvs. cbn [merge_range].
  destruct (PEnd w +64 1 =? PStart u).
  - destruct (place_set h a l s (reverse rs) (r :: q) w (reverse us) (u :: vq) Hr Hl' (holds_reverse _ _ _ Hrs) Hw
      ltac:(by constructor) (mkPacketInterval (PStart w) (PEnd u))) as (h1 & a1 & Hset & Hr1 & Hl1 & Hrs1 & Hw1 & Hq1).
    apply holds_cons in Hq1 as [Hu1 Hq1]. rewrite <- reverse_cons_app in Hl1.
    destruct (place_remove h1 a1 l r (reverse (s :: rs)) q (reverse (mkPacketInterval (PStart w) (PEnd u) :: us)) vq Hr1 Hl1)
      as (h2 & v & Hrem & _ & Hrep); [| done |].
    { rewrite !reverse_cons. apply Forall2_app; [done |]. by constructor. }
    exists h2. split; [| done]. rewrite (prog_bind_step_unit _ _ _ _ Hset).
    cbn [lo_Remove PacketIntervalList ItemList_operations]. by rewrite (prog_bind_step _ _ _ _ _ Hrem).
  - exists h. split; [done |]. rewrite !reverse_cons_app.
    apply (place_represents h a l s (reverse rs) (r :: q) w (reverse us) (u :: vq)); try done;
      [by apply holds_reverse | by constructor].
Qed.

Lemma receive_refines l p rs : forall fuel us h a q vq, repr h a -> seqs a !! l = Some (reverse rs ++ q) ->
  holds a rs us -> holds a q vq -> reverse rs ++ q <> [] -> (length rs <= fuel)%nat ->
  exists h', linked_receive fuel l p (Node <$> head rs) h = Ok (None, h') /\
    represents h' l (reverse (receive_packet p us) ++ vq).
Proof.
  induction rs as [| r rs IH]; intros fuel us h a q vq Hr Hl Hrs Hq Hne Hfuel.
  - inv Hrs. destruct q as [| f q]; [done |]. cbn in Hl.
    destruct (InsertBefore_in h a l [] f q (mkPacketInterval p p) Hr Hl) as (h' & Hrun & Hr').
    exists h'. split.
    + destruct fuel; cbn [head fmap option_fmap option_map linked_receive lo_Front lo_InsertBefore PacketIntervalList ItemList_operations];
        rewrite (prog_bind_step _ _ _ _ _ (Front_spec _ _ _ _ Hr Hl)); cbn [head fmap option_fmap option_map];
        by rewrite deref_step, (prog_bind_step _ _ _ _ _ Hrun).
    + eapply represents_with_seq; [done | eauto |]. constructor; [| by apply holds_add].
      by apply list_lookup_middle.
  - destruct us as [| u us]; [inv Hrs |]. apply holds_cons in Hrs as [Hu Hrs].
    rewrite reverse_cons_app in Hl, Hne. destruct fuel as [| fuel]; [cbn in Hfuel; lia |].
    destruct (place_get _ _ _ _ _ _ _ Hr Hl Hu) as (el & Hel & Hv).
    cbn [head fmap option_fmap option_map linked_receive receive_packet]. rewrite (get_step _ _ _ _ Hel), Hv.
    destruct ((PStart u <=? p) && (p <=? PEnd u)).
    { exists h. split; [done |]. rewrite reverse_cons_app. by apply (place_represents _ _ _ _ _ _ _ _ _ Hr Hl (holds_reverse _ _ _ Hrs) Hu Hq). }
    destruct (PEnd u =? p -64 1).
    { destruct (place_set _ _ _ _ _ _ _ _ _ Hr Hl (holds_reverse _ _ _ Hrs) Hu Hq (mkPacketInterval (PStart u) p)) as (h1 & a1 & Hset & H1 & H2 & H3 & H4 & H5).
      apply holds_reverse in H3. rewrite !reverse_involutive in H3.
      rewrite (prog_bind_step_unit _ _ _ _ Hset). by eapply merge_refines. }
    destruct (PStart u =? p +64 1).
    { destruct (place_set _ _ _ _ _ _ _ _ _ Hr Hl (holds_reverse _ _ _ Hrs) Hu Hq (mkPacketInterval p (PEnd u))) as (h1 & a1 & Hset & H1 & H2 & H3 & H4 & H5).
      apply holds_reverse in H3. rewrite !reverse_involutive in H3.
      rewrite (prog_bind_step_unit _ _ _ _ Hset). by eapply merge_refines. }
    destruct (PEnd u <? p).
    { destruct (InsertAfter_in _ _ _ _ _ _ (mkPacketInterval p p) Hr Hl) as (h' & Hrun & Hr').
      exists h'. cbn [lo_InsertAfter PacketIntervalList ItemList_operations].
      rewrite (prog_bind_step _ _ _ _ _ Hrun). split; [done |].
      rewrite !reverse_cons_app. eapply represents_with_seq; [done | eauto |].
      apply Forall2_app; [by apply holds_reverse, holds_add |].
      constructor; [by apply lookup_app_l_Some |]. constructor; [by apply list_lookup_middle |].
      by apply holds_add. }
    cbn [lo_Prev PacketIntervalList ItemList_operations].
    rewrite (prog_bind_step _ _ _ _ _ (Prev_spec _ _ _ _ _ _ Hr Hl)), last_reverse, reverse_cons_app.
    apply (IH fuel us h a (r :: q) (u :: vq)); try done; [by constructor | cbn in Hfuel; lia].
Qed.

Lemma delete_refines l p q : forall fuel h a ps vps e u vq, repr h a -> seqs a !! l = Some (ps ++ e :: q) ->
  holds a ps vps -> values a !! e = Some u -> holds a q vq -> (length q < fuel)%nat ->
  exists h', linked_delete fuel l p (Node e) h = Ok (tt, h') /\ represents h' l (vps ++ delete_below p (u :: vq)).
Proof.
  induction q as [| f q IH]; intros fuel h a ps vps e u vq Hr Hl Hps Hu Hq Hfuel;
    (destruct fuel as [| fuel]; [lia |]);
    destruct (place_get _ _ _ _ _ _ _ Hr Hl Hu) as (el & Hel & Hv);
    cbn [linked_delete lo_Next lo_Remove PacketIntervalList ItemList_operations];
    rewrite (prog_bind_step _ _ _ _ _ (Next_spec _ _ _ _ _ _ Hr Hl)), (get_step _ _ _ _ Hel), Hv;
    cbn [delete_below head fmap option_fmap option_map].
  - destruct vq; [| by inv Hq]. destruct ((PStart u <? p) && (p <=? PEnd u)).
    { destruct (place_set _ _ _ _ _ _ _ _ _ Hr Hl Hps Hu Hq (mkPacketInterval p (PEnd u))) as (h1 & a1 & Hset & H1 & H2 & H3 & H4 & H5).
      exists h1. rewrite (prog_bind_step_unit _ _ _ _ Hset). split; [done |]. by eapply place_represents. }
    destruct (PEnd u <? p).
    + destruct (place_remove _ _ _ _ _ _ _ _ Hr Hl Hps Hq) as (h1 & v & Hrem & _ & Hrep).
      exists h1. by rewrite (prog_bind_step _ _ _ _ _ Hrem).
    + exists h. split; [done |]. eapply place_represents; eauto.
  - destruct vq as [| w vq]; [inv Hq |]. assert (Hfq := Hq). apply holds_cons in Hfq as [Hw Hq'].
    destruct ((PStart u <? p) && (p <=? PEnd u)).
    { destruct (place_set _ _ _ _ _ _ _ _ _ Hr Hl Hps Hu Hq (mkPacketInterval p (PEnd u))) as (h1 & a1 & Hset & H1 & H2 & H3 & H4 & [H5 H6]%holds_cons).
      rewrite (prog_bind_step_unit _ _ _ _ Hset).
      destruct (IH fuel h1 a1 (ps ++ [e]) (vps ++ [mkPacketInterval p (PEnd u)]) f w vq) as (h2 & Hrun & Hrep);
        try done; [by rewrite <- app_assoc | apply Forall2_app; [done | by constructor] | cbn in Hfuel; lia |].
      exists h2. rewrite <- app_assoc in Hrep. done. }
    destruct (PEnd u <? p).
    + destruct (place_remove _ _ _ _ _ _ _ _ Hr Hl Hps Hq) as (h1 & v & Hrem & Hr1 & _).
      rewrite (prog_bind_step _ _ _ _ _ Hrem).
      apply (IH fuel h1 _ ps vps f w vq Hr1); try done; [| cbn in Hfuel; lia].
      rewrite seqs_with_seq by eauto. by rewrite decide_True.
    + exists h. split; [done |]. by eapply place_represents.
Qed.

Lemma ranges_refine l rs : forall fuel h a us q, repr h a -> seqs a !! l = Some (reverse rs ++ q) ->
  holds a rs us -> (length rs <= fuel)%nat ->
  linked_ranges fuel (Node <$> head rs) h = Ok (to_AckRange <$> us, h).
Proof.
  induction rs as [| r rs IH]; intros fuel h a us q Hr Hl Hrs Hfuel; [inv Hrs; by destruct fuel |].
  destruct us as [| u us]; [inv Hrs |]. apply holds_cons in Hrs as [Hu Hrs].
  destruct fuel as [| fuel]; [cbn in Hfuel; lia |]. rewrite reverse_cons_app in Hl.
  destruct (place_get _ _ _ _ _ _ _ Hr Hl Hu) as (el & Hel & Hv).
  cbn [head fmap option_fmap option_map linked_ranges lo_Prev PacketIntervalList ItemList_operations].
  rewrite (get_step _ _ _ _ Hel), Hv, (prog_bind_step _ _ _ _ _ (Prev_spec _ _ _ _ _ _ Hr Hl)), last_reverse.
  rewrite (prog_bind_step _ _ h (to_AckRange <$> us) h); [done |].
  eapply IH; [done | exact Hl | done |]. cbn in Hfuel. lia.
Qed.

(** ** The methods *)

(** The linked history, in its heap, and the history as a list. *)
Definition history_repr (hp : heap PacketInterval) (lh : linkedHistory) (h : receivedPacketHistory) : Prop :=
  represents hp (lh_ranges lh) (ranges h) /\ lh_lowest lh = lowestInReceivedPacketNumbers h.

Ltac list_ops := cbn [lo_New lo_Len lo_Front lo_Back lo_PushBack PacketIntervalList ItemList_operations].

Lemma ReceivedPacket_refines hp lh h p : history_repr hp lh h ->
  exists hp', linked_ReceivedPacket lh p hp = Ok (snd (history_ReceivedPacket h p), hp') /\
    history_repr hp' lh (fst (history_ReceivedPacket h p)).
Proof.
  intros [Hrep Hlow]. unfold linked_ReceivedPacket, history_ReceivedPacket. list_ops.
  rewrite (prog_bind_step _ _ _ _ _ (represents_Len _ _ _ Hrep)).
  destruct (MaxTrackedReceivedAckRanges <=? len (ranges h)); [by exists hp |].
  rewrite (prog_bind_step _ _ _ _ _ (represents_Len _ _ _ Hrep)).
  destruct (len (ranges h) =? 0) eqn:Hz.
  - destruct (represents_PushBack _ _ _ (mkPacketInterval p p) Hrep) as (hp' & e & Hrun & Hrep').
    exists hp'. rewrite (prog_bind_step _ _ _ _ _ Hrun). split; [done |]. split; [| done].
    rewrite list_len_zero in Hz. apply bool_decide_eq_true in Hz. by rewrite Hz in Hrep'.
  - destruct Hrep as (a & xs & Hr & Hl & Hv).
    rewrite (prog_bind_step _ _ _ _ _ (Back_spec _ _ _ _ Hr Hl)), <- head_reverse.
    rewrite list_len_zero in Hz. apply bool_decide_eq_false in Hz.
    destruct (receive_refines (lh_ranges lh) p (reverse xs) (Z.to_nat (len (ranges h))) (reverse (ranges h)) hp a [] [])
      as (hp' & Hrun & Hrep'); try done.
    + by rewrite reverse_involutive, app_nil_r.
    + by apply holds_reverse.
    + constructor.
    + rewrite reverse_involutive, app_nil_r. intros ->. inv Hv.
    + rewrite length_reverse, (holds_length _ _ _ Hv). unfold len. lia.
    + exists hp'. rewrite Hrun. split; [done |]. split; [| done]. by rewrite app_nil_r in Hrep'.
Qed.

Lemma DeleteBelow_refines hp lh h p : history_repr hp lh h ->
  exists hp' lh', linked_DeleteBelow lh p hp = Ok (lh', hp') /\ history_repr hp' lh' (DeleteBelow h p).
Proof.
  intros [Hrep Hlow]. unfold linked_DeleteBelow, DeleteBelow. list_ops. rewrite Hlow.
  destruct (p <=? lowestInReceivedPacketNumbers h); [by exists hp, lh |].
  assert (Hlen := represents_Len _ _ _ Hrep). destruct Hrep as (a & xs & Hr & Hl & Hv).
  rewrite (prog_bind_step _ _ _ _ _ (Front_spec _ _ _ _ Hr Hl)), (prog_bind_step _ _ _ _ _ Hlen).
  destruct xs as [| e q], (ranges h) as [| y l']; try (by inv Hv).
  - exists hp. eexists. split; [done |]. split; [| done]. by exists a, [].
  - apply holds_cons in Hv as [Hy Hv]. destruct (delete_refines (lh_ranges lh) p q (Z.to_nat (len (y :: l'))) hp a [] [] e y l')
      as (hp' & Hrun & Hrep'); try done; [constructor | |].
    { unfold len. rewrite Nat2Z.id. cbn. rewrite (holds_length _ _ _ Hv). lia. }
    exists hp'. eexists. rewrite (prog_bind_step_unit _ _ _ _ Hrun). split; [done |]. by split.
Qed.

Lemma GetAckRanges_refines hp lh h : history_repr hp lh h ->
  linked_GetAckRanges lh hp = Ok (GetAckRanges h, hp) /\
  linked_GetHighestAckRange lh hp = Ok (GetHighestAckRange h, hp).
Proof.
  intros [Hrep _]. unfold linked_GetAckRanges, GetAckRanges, linked_GetHighestAckRange, GetHighestAckRange.
  list_ops. rewrite !(prog_bind_step _ _ _ _ _ (represents_Len _ _ _ Hrep)).
  destruct Hrep as (a & xs & Hr & Hl & Hv). assert (Hback := Back_spec _ _ _ _ Hr Hl).
  destruct (decide (ranges h = [])) as [Hnil | Hnil]; [by rewrite Hnil |].
  rewrite list_len_zero, bool_decide_eq_false_2 by done. split.
  - rewrite (prog_bind_step _ _ _ _ _ Hback), <- head_reverse. apply (ranges_refine (lh_ranges lh) _ _ _ a _ []); try done.
    + by rewrite reverse_involutive, app_nil_r.
    + by apply holds_reverse.
    + rewrite length_reverse, (holds_length _ _ _ Hv). unfold len. lia.
  - rewrite (proj2 (Z.ltb_lt _ _)) by (unfold len; destruct (ranges h); [done | cbn; lia]).
    rewrite (prog_bind_step _ _ _ _ _ Hback). destruct (ranges h) as [| r rs _] using rev_ind; [done |].
    apply Forall2_app_inv_r in Hv as (p & q & Hp & Hq & ->).
    apply Forall2_cons_inv_r in Hq as (n & q' & Hn & Hq & ->). apply Forall2_nil_inv_r in Hq as ->.
    rewrite !last_snoc. cbn [fmap option_fmap option_map]. rewrite deref_step.
    destruct (place_get _ _ _ _ _ _ _ Hr Hl Hn) as (el & Hel & Hu). by rewrite (get_step _ _ _ _ Hel), Hu.
Qed.

(** ** Histories *)

Inductive history_op : Type := HReceived (p : Z) | HDelete (p : Z).

(** The errors of a sequence of calls, and the ranges that an ACK then has. *)
Fixpoint linked_history_ops (os : list history_op) (lh : linkedHistory)
    : hprog (list (option go_error) * linkedHistory) :=
  match os with
  | [] => mret ([], lh)
  | HReceived p :: os =>
      err ← linked_ReceivedPacket lh p; '(errs, lh) ← linked_history_ops os lh; mret (err :: errs, lh)
  | HDelete p :: os =>
      lh ← linked_DeleteBelow lh p; '(errs, lh) ← linked_history_ops os lh; mret (None :: errs, lh)
  end.

Fixpoint history_ops (os : list history_op) (h : receivedPacketHistory)
    : list (option go_error) * receivedPacketHistory :=
  match os with
  | [] => ([], h)
  | HReceived p :: os =>
      let '(h, err) := history_ReceivedPacket h p in
      let '(errs, h) := history_ops os h in (err :: errs, h)
  | HDelete p :: os => let '(errs, h) := history_ops os (DeleteBelow h p) in (None :: errs, h)
  end.

Lemma history_ops_refine os : forall hp lh h, history_repr hp lh h ->
  exists hp' lh', linked_history_ops os lh hp = Ok (fst (history_ops os h), lh', hp') /\
    history_repr hp' lh' (snd (history_ops os h)).
Proof.
  induction os as [| [p | p] os IH]; intros hp lh h Hrep; cbn [linked_history_ops history_ops].
  - by exists hp, lh.
  - destruct (ReceivedPacket_refines hp lh h p Hrep) as (hp1 & Hrun & Hrep1).
    rewrite (prog_bind_step _ _ _ _ _ Hrun). destruct (history_ReceivedPacket h p) as [h1 err].
    destruct (IH hp1 lh h1 Hrep1) as (hp2 & lh2 & Hruns & Hrep2). exists hp2, lh2.
    rewrite (prog_bind_step _ _ _ _ _ Hruns). by destruct (history_ops os h1).
  - destruct (DeleteBelow_refines hp lh h p Hrep) as (hp1 & lh1 & Hrun & Hrep1).
    rewrite (prog_bind_step _ _ _ _ _ Hrun).
    destruct (IH hp1 lh1 _ Hrep1) as (hp2 & lh2 & Hruns & Hrep2). exists hp2, lh2.
    rewrite (prog_bind_step _ _ _ _ _ Hruns). by destruct (history_ops os (DeleteBelow h p)).
Qed.

(** The history of received packets on its linked list, through every
    sequence of received packets and deletions from a new history on, gives the
    errors, the ACK ranges and the highest range of the history as a list of
    intervals, and no step dereferences a nil pointer. *)
Theorem linked_history_correct os :
  exists hp lh ranges, (lh ← linked_newReceivedPacketHistory; linked_history_ops os lh) no_heap =
      Ok (fst (history_ops os newReceivedPacketHistory), lh, hp) /\
    linked_GetAckRanges lh hp = Ok (ranges, hp) /\
    ranges = GetAckRanges (snd (history_ops os newReceivedPacketHistory)) /\
    linked_GetHighestAckRange lh hp =
      Ok (GetHighestAckRange (snd (history_ops os newReceivedPacketHistory)), hp).
Proof.
  destruct (NewItemList_spec (mkPacketInterval 0 0) no_heap no_sequences repr_empty) as (hp & Hnew & Hr).
  destruct (history_ops_refine os hp (mkLinkedHistory 0 0) newReceivedPacketHistory) as (hp' & lh & Hrun & Hrep).
  { split; [| done]. eexists _, []. split_and!; [exact Hr | done | constructor]. }
  destruct (GetAckRanges_refines _ _ _ Hrep) as [Hranges Hhighest].
  exists hp', lh. eexists. split_and!; [| done | done | done].
  unfold linked_newReceivedPacketHistory. list_ops.
  rewrite (prog_bind_step _ _ no_heap (mkLinkedHistory 0 0) hp); [done |].
  by rewrite (prog_bind_step _ _ _ _ _ Hnew).
Qed.
