(* ===== verification/Congestion.v ===== *)
(** * Congestion control (internal/congestion)

    The cubic function, hybrid slow start, proportional rate reduction, and the
    sender built from them.  The round-trip statistics, a shared object, are an
    argument; times are nanoseconds, with 0 for the zero time. *)

From S2P Require Import Prelude Protocol Float AckFrame RTTStats.

(** ** cubic.go *)

Definition cubeScale : Z := 40.
Definition cubeCongestionWindowScale : Z := 410.
Definition cubeFactor : Z := 2 ^ cubeScale / cubeCongestionWindowScale / DefaultTCPMSS.
Definition defaultNumConnections : Z := 2.

(** The [float32] values next to 0.7 and 0.85. *)
Definition beta_const : float := mkFloat 11744051 (-24).
Definition betaLastMax_const : float := mkFloat 14260634 (-24).

Record Cubic : Type := mkCubic {
  cubic_numConnections : Z;
  epoch : Z;
  lastMaxCongestionWindow : Z;
  ackedBytesCount : Z;
  estimatedTCPcongestionWindow : Z;
  originPointCongestionWindow : Z;
  timeToOriginPoint : Z;
  lastTargetCongestionWindow : Z }.

Definition Cubic_Reset (c : Cubic) : Cubic := mkCubic (cubic_numConnections c) 0 0 0 0 0 0 0.

Definition NewCubic : Cubic := Cubic_Reset (mkCubic defaultNumConnections 0 0 0 0 0 0 0).

Definition f32 : Z -> float := of_int prec32.
Definition fneg (x : float) : float := mkFloat (- mant x) (expo x).
Definition fsub (prec : Z) (x y : float) : float := fadd prec x (fneg y).

(** [(float32(n) - 1 + b) / float32(n)] *)
Definition backoff (n : Z) (b : float) : float :=
  fdiv prec32 (fadd prec32 (fsub prec32 (f32 n) (f32 1)) b) (f32 n).

Definition Cubic_beta (c : Cubic) : float := backoff (cubic_numConnections c) beta_const.
Definition Cubic_betaLastMax (c : Cubic) : float := backoff (cubic_numConnections c) betaLastMax_const.

Definition Cubic_alpha (c : Cubic) : float :=
  let b := Cubic_beta c in
  let n := f32 (cubic_numConnections c) in
  fdiv prec32
    (fmul prec32 (fmul prec32 (fmul prec32 (f32 3) n) n) (fsub prec32 (f32 1) b))
    (fadd prec32 (f32 1) b).

Definition OnApplicationLimited (c : Cubic) : Cubic :=
  mkCubic (cubic_numConnections c) 0 (lastMaxCongestionWindow c) (ackedBytesCount c)
    (estimatedTCPcongestionWindow c) (originPointCongestionWindow c) (timeToOriginPoint c)
    (lastTargetCongestionWindow c).

Definition CongestionWindowAfterPacketLoss (c : Cubic) (cwnd : Z) : Z * Cubic :=
  let lastMax :=
    if cwnd +64 DefaultTCPMSS <? lastMaxCongestionWindow c
    then u64 (to_int (fmul prec32 (Cubic_betaLastMax c) (f32 cwnd)))
    else cwnd in
  (u64 (to_int (fmul prec32 (f32 cwnd) (Cubic_beta c))),
   mkCubic (cubic_numConnections c) 0 lastMax (ackedBytesCount c)
     (estimatedTCPcongestionWindow c) (originPointCongestionWindow c) (timeToOriginPoint c)
     (lastTargetCongestionWindow c)).

(** [uint32(math.Cbrt(float64(x)))]: [Cbrt] is accurate to less than one unit in
    the last place, which makes the integer part that of the cube root. *)
Fixpoint cbrt_bits (bits : nat) (x r : Z) : Z :=
  match bits with
  | O => r
  | S bits =>
      let r' := r + 2 ^ Z.of_nat bits in
      cbrt_bits bits x (if r' * r' * r' <=? x then r' else r)
  end.

Definition Cbrt (x : Z) : Z := cbrt_bits 22 x 0.

(** [time.Time.Sub], which saturates. *)
Definition time_sub (a b : Z) : Z := Z.max (- 2 ^ 63) (Z.min (2 ^ 63 - 1) (a - b)).

Definition CongestionWindowAfterAck (c : Cubic) (ackedBytes cwnd delayMin eventTime : Z) : Z * Cubic :=
  let acked := ackedBytesCount c +64 ackedBytes in
  let '(epoch, acked, estimated, timeToOrigin, origin) :=
    if epoch c =? 0 then
      if lastMaxCongestionWindow c <=? cwnd then (eventTime, ackedBytes, cwnd, 0, cwnd)
      else (eventTime, ackedBytes, cwnd,
            u32 (Cbrt (cubeFactor *64 (lastMaxCongestionWindow c -64 cwnd))),
            lastMaxCongestionWindow c)
    else (epoch c, acked, estimatedTCPcongestionWindow c, timeToOriginPoint c,
          originPointCongestionWindow c) in
  let elapsedTime := Z.quot (i64 (Z.quot (time_sub (eventTime + delayMin) epoch) Microsecond ≪ 10)) 1000000 in
  let offset := Z.abs (i64 (timeToOrigin - elapsedTime)) in
  let delta := u64 (u64 (cubeCongestionWindowScale * offset * offset * offset) * DefaultTCPMSS) ≫ cubeScale in
  let target := if timeToOrigin <? elapsedTime then origin +64 delta else origin -64 delta in
  let target := MinByteCount target (cwnd +64 acked / 2) in
  let estimated := estimated +64
    u64 (to_int (fdiv prec32
      (fmul prec32 (fmul prec32 (f32 acked) (Cubic_alpha c)) (f32 DefaultTCPMSS)) (f32 estimated))) in
  (if target <? estimated then estimated else target,
   mkCubic (cubic_numConnections c) epoch (lastMaxCongestionWindow c) 0 estimated origin
     timeToOrigin target).

Definition SetNumConnections (c : Cubic) (n : Z) : Cubic :=
  mkCubic n (epoch c) (lastMaxCongestionWindow c) (ackedBytesCount c)
    (estimatedTCPcongestionWindow c) (originPointCongestionWindow c) (timeToOriginPoint c)
    (lastTargetCongestionWindow c).

(** ** hybrid_slow_start.go *)

Definition hybridStartLowWindow : Z := 16.
Definition hybridStartMinSamples : Z := 8.
Definition hybridStartDelayFactorExp : Z := 3.
Definition hybridStartDelayMinThresholdUs : Z := 4000.
Definition hybridStartDelayMaxThresholdUs : Z := 16000.

Record HybridSlowStart : Type := mkHSS {
  endPacketNumber : Z; hss_lastSentPacketNumber : Z; started : bool;
  currentMinRTT : Z; rttSampleCount : Z; hystartFound : bool }.

Definition StartReceiveRound (s : HybridSlowStart) (lastSent : Z) : HybridSlowStart :=
  mkHSS lastSent (hss_lastSentPacketNumber s) true 0 0 (hystartFound s).

Definition IsEndOfRound (s : HybridSlowStart) (ack : Z) : bool := endPacketNumber s <? ack.

Definition ShouldExitSlowStart (s : HybridSlowStart) (latest min_ cwnd : Z) : bool * HybridSlowStart :=
  let s := if negb (started s) then StartReceiveRound s (hss_lastSentPacketNumber s) else s in
  if hystartFound s then (true, s) else
  let count := u32 (rttSampleCount s + 1) in
  let cur :=
    if (count <=? hybridStartMinSamples) && ((currentMinRTT s =? 0) || (latest <? currentMinRTT s))
    then latest else currentMinRTT s in
  let thresholdUs := MinInt64 (Z.quot min_ Microsecond ≫ hybridStartDelayFactorExp)
                       hybridStartDelayMaxThresholdUs in
  let threshold := MaxInt64 thresholdUs hybridStartDelayMinThresholdUs * Microsecond in
  let found := (count =? hybridStartMinSamples) && (i64 (min_ + threshold) <? cur) in
  ((hybridStartLowWindow <=? cwnd) && found,
   mkHSS (endPacketNumber s) (hss_lastSentPacketNumber s) (started s) cur count found).

Definition hss_OnPacketSent (s : HybridSlowStart) (pn : Z) : HybridSlowStart :=
  mkHSS (endPacketNumber s) pn (started s) (currentMinRTT s) (rttSampleCount s) (hystartFound s).

Definition hss_OnPacketAcked (s : HybridSlowStart) (pn : Z) : HybridSlowStart :=
  if IsEndOfRound s pn then
    mkHSS (endPacketNumber s) (hss_lastSentPacketNumber s) false (currentMinRTT s)
      (rttSampleCount s) (hystartFound s)
  else s.

Definition Restart (s : HybridSlowStart) : HybridSlowStart :=
  mkHSS (endPacketNumber s) (hss_lastSentPacketNumber s) false (currentMinRTT s)
    (rttSampleCount s) false.

(** ** prr_sender.go *)

Record PrrSender : Type := mkPrr {
  bytesSentSinceLoss : Z; bytesDeliveredSinceLoss : Z;
  ackCountSinceLoss : Z; bytesInFlightBeforeLoss : Z }.

Definition prr_OnPacketSent (p : PrrSender) (sentBytes : Z) : PrrSender :=
  mkPrr (bytesSentSinceLoss p +64 sentBytes) (bytesDeliveredSinceLoss p) (ackCountSinceLoss p)
    (bytesInFlightBeforeLoss p).

Definition prr_OnPacketLost (p : PrrSender) (priorInFlight : Z) : PrrSender :=
  mkPrr 0 0 0 priorInFlight.

Definition prr_OnPacketAcked (p : PrrSender) (ackedBytes : Z) : PrrSender :=
  mkPrr (bytesSentSinceLoss p) (bytesDeliveredSinceLoss p +64 ackedBytes)
    (ackCountSinceLoss p +64 1) (bytesInFlightBeforeLoss p).

Definition CanSend (p : PrrSender) (cwnd bytesInFlight ssthresh : Z) : bool :=
  if (bytesSentSinceLoss p =? 0) || (bytesInFlight <? DefaultTCPMSS) then true
  else if bytesInFlight <? cwnd then
    bytesSentSinceLoss p <? bytesDeliveredSinceLoss p +64 ackCountSinceLoss p *64 DefaultTCPMSS
  else bytesSentSinceLoss p *64 bytesInFlightBeforeLoss p
       <? bytesDeliveredSinceLoss p *64 ssthresh.

(** ** bandwidth.go *)

Definition Second : Z := 1000000000.
Definition BytesPerSecond : Z := 8.

Definition BandwidthFromDelta (bytes delta : Z) : Z :=
  u64 (u64 (bytes * Second) / u64 delta * BytesPerSecond).

(** ** cubic_sender.go *)

Definition maxBurstBytes : Z := 3 * DefaultTCPMSS.
Definition renoBeta : float := beta_const.
Definition defaultMinimumCongestionWindow : Z := 2 * DefaultTCPMSS.

Record connectionStats : Type := mkStats { slowstartPacketsLost : Z; slowstartBytesLost : Z }.

Record cubicSender : Type := mkSender {
  hybridSlowStart : HybridSlowStart;
  prr : PrrSender;
  stats : connectionStats;
  cubic : Cubic;
  reno : bool;
  largestSentPacketNumber : Z;
  largestAckedPacketNumber : Z;
  largestSentAtLastCutback : Z;
  lastCutbackExitedSlowstart : bool;
  slowStartLargeReduction : bool;
  congestionWindow : Z;
  minCongestionWindow : Z;
  maxCongestionWindow : Z;
  slowstartThreshold : Z;
  numConnections : Z;
  numAckedPackets : Z;
  initialCongestionWindow : Z;
  initialMaxCongestionWindow : Z;
  minSlowStartExitWindow : Z }.

Definition NewCubicSender (reno : bool) (initial initialMax : Z) : cubicSender :=
  mkSender (mkHSS 0 0 false 0 0 false) (mkPrr 0 0 0 0) (mkStats 0 0) NewCubic reno
    0 0 0 false false initial defaultMinimumCongestionWindow initialMax initialMax
    defaultNumConnections 0 initial initialMax 0.

(** Updates of a few fields. *)
Definition with_hss (c : cubicSender) (h : HybridSlowStart) : cubicSender :=
  mkSender h (prr c) (stats c) (cubic c) (reno c) (largestSentPacketNumber c)
    (largestAckedPacketNumber c) (largestSentAtLastCutback c) (lastCutbackExitedSlowstart c)
    (slowStartLargeReduction c) (congestionWindow c) (minCongestionWindow c)
    (maxCongestionWindow c) (slowstartThreshold c) (numConnections c) (numAckedPackets c)
    (initialCongestionWindow c) (initialMaxCongestionWindow c) (minSlowStartExitWindow c).

Definition with_prr (c : cubicSender) (p : PrrSender) : cubicSender :=
  mkSender (hybridSlowStart c) p (stats c) (cubic c) (reno c) (largestSentPacketNumber c)
    (largestAckedPacketNumber c) (largestSentAtLastCutback c) (lastCutbackExitedSlowstart c)
    (slowStartLargeReduction c) (congestionWindow c) (minCongestionWindow c)
    (maxCongestionWindow c) (slowstartThreshold c) (numConnections c) (numAckedPackets c)
    (initialCongestionWindow c) (initialMaxCongestionWindow c) (minSlowStartExitWindow c).

Definition with_largest (c : cubicSender) (sent acked : Z) : cubicSender :=
  mkSender (hybridSlowStart c) (prr c) (stats c) (cubic c) (reno c) sent acked
    (largestSentAtLastCutback c) (lastCutbackExitedSlowstart c)
    (slowStartLargeReduction c) (congestionWindow c) (minCongestionWindow c)
    (maxCongestionWindow c) (slowstartThreshold c) (numConnections c) (numAckedPackets c)
    (initialCongestionWindow c) (initialMaxCongestionWindow c) (minSlowStartExitWindow c).

Definition with_window (c : cubicSender) (cu : Cubic) (cwnd ssthresh acked : Z) : cubicSender :=
  mkSender (hybridSlowStart c) (prr c) (stats c) cu (reno c) (largestSentPacketNumber c)
    (largestAckedPacketNumber c) (largestSentAtLastCutback c) (lastCutbackExitedSlowstart c)
    (slowStartLargeReduction c) cwnd (minCongestionWindow c)
    (maxCongestionWindow c) ssthresh (numConnections c) acked
    (initialCongestionWindow c) (initialMaxCongestionWindow c) (minSlowStartExitWindow c).

Definition with_loss (c : cubicSender) (st : connectionStats) (cutback : Z) (exited : bool)
    (minExit : Z) : cubicSender :=
  mkSender (hybridSlowStart c) (prr c) st (cubic c) (reno c) (largestSentPacketNumber c)
    (largestAckedPacketNumber c) cutback exited
    (slowStartLargeReduction c) (congestionWindow c) (minCongestionWindow c)
    (maxCongestionWindow c) (slowstartThreshold c) (numConnections c) (numAckedPackets c)
    (initialCongestionWindow c) (initialMaxCongestionWindow c) minExit.

Definition InRecovery (c : cubicSender) : bool :=
  (largestAckedPacketNumber c <=? largestSentAtLastCutback c)
  && negb (largestAckedPacketNumber c =? 0).

Definition InSlowStart (c : cubicSender) : bool := congestionWindow c <? slowstartThreshold c.

Definition ExitSlowstart (c : cubicSender) : cubicSender :=
  with_window c (cubic c) (congestionWindow c) (congestionWindow c) (numAckedPackets c).

(** The division panics on a zero window. *)
Definition TimeUntilSend (r : RTTStats) (c : cubicSender) (bytesInFlight : Z) : outcome Z :=
  if InRecovery c && CanSend (prr c) (congestionWindow c) bytesInFlight (slowstartThreshold c)
  then Ok 0 else
  let divisor := i64 (2 *64 congestionWindow c) in
  if divisor =? 0 then Panic "integer divide by zero" else
  let delay := i64 (Z.quot (smoothedRTT r) divisor) in
  Ok (if negb (InSlowStart c) then Z.quot (i64 (delay * 8)) 5 else delay).

Definition cs_OnPacketSent (c : cubicSender) (packetNumber bytes : Z) (isRetransmittable : bool) : cubicSender :=
  if negb isRetransmittable then c else
  let c := if InRecovery c then with_prr c (prr_OnPacketSent (prr c) bytes) else c in
  let c := with_largest c packetNumber (largestAckedPacketNumber c) in
  with_hss c (hss_OnPacketSent (hybridSlowStart c) packetNumber).

Definition MaybeExitSlowStart (r : RTTStats) (c : cubicSender) : cubicSender :=
  if InSlowStart c then
    let '(exit, h) := ShouldExitSlowStart (hybridSlowStart c) (latestRTT r) (minRTT r)
                        (congestionWindow c / DefaultTCPMSS) in
    let c := with_hss c h in
    if exit then ExitSlowstart c else c
  else c.

Definition isCwndLimited (c : cubicSender) (bytesInFlight : Z) : bool :=
  if congestionWindow c <=? bytesInFlight then true else
  let availableBytes := congestionWindow c -64 bytesInFlight in
  let slowStartLimited := InSlowStart c && (congestionWindow c / 2 <? bytesInFlight) in
  slowStartLimited || (availableBytes <=? maxBurstBytes).

Definition maybeIncreaseCwnd (r : RTTStats) (c : cubicSender)
    (ackedBytes priorInFlight eventTime : Z) : cubicSender :=
  if negb (isCwndLimited c priorInFlight) then
    with_window c (OnApplicationLimited (cubic c)) (congestionWindow c) (slowstartThreshold c)
      (numAckedPackets c)
  else if maxCongestionWindow c <=? congestionWindow c then c
  else if InSlowStart c then
    with_window c (cubic c) (congestionWindow c +64 DefaultTCPMSS) (slowstartThreshold c)
      (numAckedPackets c)
  else if reno c then
    let n := numAckedPackets c +64 1 in
    if congestionWindow c / DefaultTCPMSS <=? n *64 u64 (numConnections c) then
      with_window c (cubic c) (congestionWindow c +64 DefaultTCPMSS) (slowstartThreshold c) 0
    else with_window c (cubic c) (congestionWindow c) (slowstartThreshold c) n
  else
    let '(w, cu) := CongestionWindowAfterAck (cubic c) ackedBytes (congestionWindow c)
                      (minRTT r) eventTime in
    with_window c cu (MinByteCount (maxCongestionWindow c) w) (slowstartThreshold c)
      (numAckedPackets c).

Definition cs_OnPacketAcked (r : RTTStats) (c : cubicSender)
    (pn ackedBytes priorInFlight eventTime : Z) : cubicSender :=
  let c := with_largest c (largestSentPacketNumber c) (MaxPacketNumber pn (largestAckedPacketNumber c)) in
  if InRecovery c then with_prr c (prr_OnPacketAcked (prr c) ackedBytes) else
  let c := maybeIncreaseCwnd r c ackedBytes priorInFlight eventTime in
  if InSlowStart c then with_hss c (hss_OnPacketAcked (hybridSlowStart c) pn) else c.

Definition RenoBeta (c : cubicSender) : float := backoff (numConnections c) renoBeta.

Definition cs_OnPacketLost (c : cubicSender) (pn lostBytes priorInFlight : Z) : cubicSender :=
  if pn <=? largestSentAtLastCutback c then
    if lastCutbackExitedSlowstart c then
      let c := with_loss c (mkStats (slowstartPacketsLost (stats c) +64 1)
                              (slowstartBytesLost (stats c) +64 lostBytes))
                 (largestSentAtLastCutback c) (lastCutbackExitedSlowstart c)
                 (minSlowStartExitWindow c) in
      if slowStartLargeReduction c then
        let w := MaxByteCount_of (congestionWindow c -64 lostBytes) (minSlowStartExitWindow c) in
        with_window c (cubic c) w w (numAckedPackets c)
      else c
    else c
  else
  let inSS := InSlowStart c in
  let st := if inSS then mkStats (slowstartPacketsLost (stats c) +64 1) (slowstartBytesLost (stats c))
            else stats c in
  let large := slowStartLargeReduction c && inSS in
  let minExit := if large && (2 *64 initialCongestionWindow c <=? congestionWindow c)
                 then congestionWindow c / 2 else minSlowStartExitWindow c in
  let '(w, cu) :=
    if large then (congestionWindow c -64 DefaultTCPMSS, cubic c)
    else if reno c then (u64 (to_int (fmul prec32 (f32 (congestionWindow c)) (RenoBeta c))), cubic c)
    else CongestionWindowAfterPacketLoss (cubic c) (congestionWindow c) in
  let w := if w <? minCongestionWindow c then minCongestionWindow c else w in
  let c := with_prr c (prr_OnPacketLost (prr c) priorInFlight) in
  let c := with_loss c st (largestSentPacketNumber c) inSS minExit in
  with_window c cu w w 0.

Definition BandwidthEstimate (r : RTTStats) (c : cubicSender) : Z :=
  if smoothedRTT r =? 0 then 0 else BandwidthFromDelta (congestionWindow c) (smoothedRTT r).

Definition SetNumEmulatedConnections (c : cubicSender) (n : Z) : cubicSender :=
  let n := Z.max n 1 in
  mkSender (hybridSlowStart c) (prr c) (stats c) (SetNumConnections (cubic c) n) (reno c)
    (largestSentPacketNumber c) (largestAckedPacketNumber c) (largestSentAtLastCutback c)
    (lastCutbackExitedSlowstart c) (slowStartLargeReduction c) (congestionWindow c)
    (minCongestionWindow c) (maxCongestionWindow c) (slowstartThreshold c) n
    (numAckedPackets c) (initialCongestionWindow c) (initialMaxCongestionWindow c)
    (minSlowStartExitWindow c).

Definition cs_OnRetransmissionTimeout (c : cubicSender) (packetsRetransmitted : bool) : cubicSender :=
  let c := with_loss c (stats c) 0 (lastCutbackExitedSlowstart c) (minSlowStartExitWindow c) in
  if negb packetsRetransmitted then c else
  let c := with_hss c (Restart (hybridSlowStart c)) in
  with_window c (Cubic_Reset (cubic c)) (minCongestionWindow c) (congestionWindow c / 2)
    (numAckedPackets c).

Definition cs_OnConnectionMigration (c : cubicSender) : cubicSender :=
  mkSender (Restart (hybridSlowStart c)) (mkPrr 0 0 0 0) (stats c) (Cubic_Reset (cubic c)) (reno c)
    0 0 0 false (slowStartLargeReduction c) (initialCongestionWindow c) (minCongestionWindow c)
    (initialMaxCongestionWindow c) (initialMaxCongestionWindow c) (numConnections c) 0
    (initialCongestionWindow c) (initialMaxCongestionWindow c) (minSlowStartExitWindow c).

Definition SetSlowStartLargeReduction (c : cubicSender) (enabled : bool) : cubicSender :=
  mkSender (hybridSlowStart c) (prr c) (stats c) (cubic c) (reno c) (largestSentPacketNumber c)
    (largestAckedPacketNumber c) (largestSentAtLastCutback c) (lastCutbackExitedSlowstart c)
    enabled (congestionWindow c) (minCongestionWindow c)
    (maxCongestionWindow c) (slowstartThreshold c) (numConnections c) (numAckedPackets c)
    (initialCongestionWindow c) (initialMaxCongestionWindow c) (minSlowStartExitWindow c).

(** ** interface.go

    What the sent-packet handler uses of a congestion controller. *)
Class SendAlgorithm (S : Type) : Type := {
  sa_TimeUntilSend : RTTStats -> S -> Z -> outcome Z;
  sa_OnPacketSent : S -> Z -> Z -> Z -> Z -> bool -> S;
  sa_GetCongestionWindow : S -> Z;
  sa_MaybeExitSlowStart : RTTStats -> S -> S;
  sa_OnPacketAcked : RTTStats -> S -> Z -> Z -> Z -> Z -> S;
  sa_OnPacketLost : S -> Z -> Z -> Z -> S;
  sa_OnRetransmissionTimeout : S -> bool -> S }.

(** Its promise: from states that satisfy an invariant, kept by every call for
    packets of at most 2^16 bytes, the pacing delay is computed without panic. *)
Class SendAlgorithmLaws (S : Type) `{SendAlgorithm S} : Type := {
  sa_ok : S -> Prop;
  sa_TimeUntilSend_total : forall r s f, sa_ok s -> exists d, sa_TimeUntilSend r s f = Ok d;
  sa_OnPacketSent_ok : forall s t f pn b rt, sa_ok s -> sa_ok (sa_OnPacketSent s t f pn b rt);
  sa_MaybeExitSlowStart_ok : forall r s, sa_ok s -> sa_ok (sa_MaybeExitSlowStart r s);
  sa_OnPacketAcked_ok : forall r s pn b f t, sa_ok s -> 0 <= b <= 2 ^ 16 ->
    sa_ok (sa_OnPacketAcked r s pn b f t);
  sa_OnPacketLost_ok : forall s pn b f, sa_ok s -> sa_ok (sa_OnPacketLost s pn b f);
  sa_OnRetransmissionTimeout_ok : forall s b, sa_ok s -> sa_ok (sa_OnRetransmissionTimeout s b) }.

#[export] Instance cubicSender_algorithm : SendAlgorithm cubicSender := {|
  sa_TimeUntilSend := TimeUntilSend;
  sa_OnPacketSent := fun c _ _ pn bytes rt => cs_OnPacketSent c pn bytes rt;
  sa_GetCongestionWindow := congestionWindow;
  sa_MaybeExitSlowStart := MaybeExitSlowStart;
  sa_OnPacketAcked := cs_OnPacketAcked;
  sa_OnPacketLost := cs_OnPacketLost;
  sa_OnRetransmissionTimeout := cs_OnRetransmissionTimeout |}.

(** ** The floating-point steps *)

Lemma f32_exact n : 0 <= n < 2 ^ 24 -> f32 n = mkFloat n 0.
Proof. intros. apply of_int_exact. unfold prec32. lia. Qed.

(** The window after a loss lies between 3/4 and 7/8 of the window before. *)
Lemma backoff_bounds w b : 0 <= w < 2 ^ 21 -> b = mkFloat 14260634 (-24) ->
  3 * w / 4 <= to_int (fmul prec32 (f32 w) b) <= 7 * w / 8.
Proof.
  intros Hw ->. rewrite f32_exact by lia.
  assert (Hb1 : fle (mkFloat 3 (-2)) (mkFloat 14260634 (-24))) by (vm_compute; discriminate).
  assert (Hb2 : fle (mkFloat 14260634 (-24)) (mkFloat 7 (-3))) by (vm_compute; discriminate).
  assert (H0 : 0 <= mant (fmul prec32 (mkFloat w 0) (mkFloat 14260634 (-24)))).
  { apply round_nonneg; [done |]. cbn [mant]. lia. }
  assert (Hlo := fmul_ge prec32 (mkFloat w 0) (mkFloat 14260634 (-24)) (mkFloat w 0) (mkFloat 3 (-2))).
  assert (Hhi := fmul_le prec32 (mkFloat w 0) (mkFloat 14260634 (-24)) (mkFloat w 0) (mkFloat 7 (-3))).
  unfold prec32 in *. cbn [mant expo] in Hlo, Hhi.
  specialize (Hlo ltac:(lia) ltac:(lia) ltac:(lia) ltac:(lia) ltac:(lia) ltac:(lia)
                (fle_refl_eq _ _ eq_refl) Hb1).
  specialize (Hhi ltac:(lia) ltac:(lia) ltac:(lia) ltac:(lia) ltac:(lia)
                (fle_refl_eq _ _ eq_refl) Hb2).
  set (x := fmul 24 _ _) in *. clearbody x.
  rewrite (Z.mul_comm 3), (Z.mul_comm 7).
  split; [apply (to_int_ge x (w * 3) 2) | apply (to_int_le x (w * 7) 3)]; done.
Qed.

(** An acknowledged packet lets the estimated Reno window grow by at most its size. *)
Lemma tcp_growth acked est alpha : 0 <= acked <= 2 ^ 16 -> 2 ^ 11 <= est < 2 ^ 24 ->
  alpha = mkFloat 16323775 (-24) ->
  0 <= to_int (fdiv prec32 (fmul prec32 (fmul prec32 (f32 acked) alpha) (f32 DefaultTCPMSS)) (f32 est))
    <= 2 ^ 16.
Proof.
  intros Ha He ->. rewrite !f32_exact by (unfold DefaultTCPMSS; lia).
  set (y := fmul prec32 (mkFloat acked 0) _).
  assert (Hy0 : 0 <= mant y) by (apply round_nonneg; [done | cbn [mant]; lia]).
  assert (Hy : fle y (mkFloat 65536 0)).
  { apply (fmul_le prec32 _ _ (mkFloat 65536 0) (mkFloat 1 0)); cbn [mant expo]; try done; try lia.
    apply fle_same. lia. }
  clearbody y.
  set (z := fmul prec32 y _).
  assert (Hz0 : 0 <= mant z) by (apply round_nonneg; [done | cbn [mant]; unfold DefaultTCPMSS; lia]).
  assert (Hz : fle z (mkFloat 65536 11)).
  { apply (fmul_le prec32 _ _ (mkFloat 65536 0) (mkFloat 1 11)); cbn [mant expo]; try done;
      unfold DefaultTCPMSS; try lia. }
  clearbody z.
  destruct (fdiv_le prec32 z (mkFloat est 0) 65536 11 11) as [H1 H2]; cbn [mant expo]; try done; try lia.
  { unfold fle. cbn [mant expo]. rewrite Z.sub_diag. change (11 - Z.min 11 0) with 11. lia. }
  by apply (to_int_le _ 65536 0).
Qed.

(** ** Invariant of the sender *)

(** The cubic state: in an epoch, the estimated Reno window is at least the
    minimum, and at most the congestion window unless that is at its maximum. *)
Definition cubic_ok (c : Cubic) (cwnd min_ max_ : Z) : Prop :=
  cubic_numConnections c = defaultNumConnections
  /\ ackedBytesCount c = 0
  /\ (epoch c <> 0 -> min_ <= estimatedTCPcongestionWindow c <= max_ + 2 ^ 16
        /\ (estimatedTCPcongestionWindow c <= cwnd \/ max_ <= cwnd)).

Definition cs_ok (c : cubicSender) : Prop :=
  numConnections c = defaultNumConnections
  /\ slowStartLargeReduction c = false
  /\ minCongestionWindow c = defaultMinimumCongestionWindow
  /\ maxCongestionWindow c = initialMaxCongestionWindow c
  /\ defaultMinimumCongestionWindow <= initialCongestionWindow c <= maxCongestionWindow c
  /\ maxCongestionWindow c <= 2 ^ 21 - DefaultTCPMSS
  /\ minCongestionWindow c <= congestionWindow c < maxCongestionWindow c + DefaultTCPMSS
  /\ (reno c = true -> epoch (cubic c) = 0)
  /\ cubic_ok (cubic c) (congestionWindow c) (minCongestionWindow c) (maxCongestionWindow c).

Ltac cs_unfold := unfold cs_ok, cubic_ok, defaultMinimumCongestionWindow, DefaultTCPMSS, defaultNumConnections in *.

(** The window cubic computes after an acknowledgement. *)
Lemma CongestionWindowAfterAck_ok c acked cwnd min_ max_ delay t :
  cubic_ok c cwnd min_ max_ -> 2 ^ 11 <= min_ <= cwnd -> cwnd < max_ < 2 ^ 21 -> 0 <= acked <= 2 ^ 16 ->
  let '(w, c') := CongestionWindowAfterAck c acked cwnd delay t in
  min_ <= w /\ cubic_ok c' (MinByteCount max_ w) min_ max_.
Proof.
  intros (Hn & Hb & Hep) Hmin Hmax Ha. unfold CongestionWindowAfterAck.
  set (p := if epoch c =? 0 then _ else _).
  assert (Hp : exists ep ti og est, p = (ep, acked, est, ti, og) /\ min_ <= est <= cwnd).
  { unfold p. destruct (Z.eqb_spec (epoch c) 0) as [| E].
    - destruct (lastMaxCongestionWindow c <=? cwnd); do 4 eexists; (split; [reflexivity | lia]).
    - rewrite Hb. norm64. destruct (Hep E) as [? [? | ?]]; [| lia].
      do 4 eexists; split; [reflexivity | lia]. }
  destruct Hp as (ep & ti & og & est & -> & Hest).
  assert (Hg := tcp_growth acked est (Cubic_alpha c) Ha ltac:(lia)).
  cbv zeta. cbn iota. set (tgt := MinByteCount _ (cwnd +64 _)).
  assert (Ealpha : Cubic_alpha c = mkFloat 16323775 (-24)).
  { unfold Cubic_alpha, Cubic_beta. rewrite Hn. vm_compute. reflexivity. }
  specialize (Hg Ealpha). set (g := to_int _) in *. clearbody g tgt.
  rewrite (u64_small g) by lia. norm64.
  assert (Hlt := Z.ltb_spec tgt (est + g)).
  unfold cubic_ok, MinByteCount. cbn [cubic_numConnections ackedBytesCount epoch estimatedTCPcongestionWindow].
  destruct Hlt; (split; [lia | split_and!; [done | done |]]); case_cmp; lia.
Qed.

Lemma loss_window_ok c : cs_ok c ->
  let '(w, cu) := if reno c then (u64 (to_int (fmul prec32 (f32 (congestionWindow c)) (RenoBeta c))), cubic c)
                  else CongestionWindowAfterPacketLoss (cubic c) (congestionWindow c) in
  3 * congestionWindow c / 4 <= w <= 7 * congestionWindow c / 8
  /\ epoch cu = 0
  /\ (forall cwnd, cubic_ok cu cwnd (minCongestionWindow c) (maxCongestionWindow c)).
Proof.
  intros (Hnc & _ & Hmin & _ & _ & Hmax & Hw & Hre & Hcu).
  assert (Hb : forall b, b = mkFloat 14260634 (-24) -> 3 * congestionWindow c / 4
    <= u64 (to_int (fmul prec32 (f32 (congestionWindow c)) b)) <= 7 * congestionWindow c / 8).
  { intros b Eb. cs_unfold. assert (H := backoff_bounds (congestionWindow c) b ltac:(lia) Eb).
    assert (0 <= 3 * congestionWindow c / 4) by (apply Z.div_pos; lia).
    assert (7 * congestionWindow c / 8 <= 7 * congestionWindow c) by (apply Z.div_le_upper_bound; lia).
    by rewrite u64_small by lia. }
  destruct (reno c).
  - split_and!; try done. + apply Hb. unfold RenoBeta. rewrite Hnc. vm_compute. reflexivity.
    + apply Hb. unfold RenoBeta. rewrite Hnc. vm_compute. reflexivity.
    + by apply Hre.
    + destruct Hcu as (? & ? & _). intros cwnd. split_and!; try done. intros E. by destruct E; apply Hre.
  - unfold CongestionWindowAfterPacketLoss. destruct Hcu as (Hn & Ha & _).
    assert (Cubic_beta (cubic c) = mkFloat 14260634 (-24))
      by (unfold Cubic_beta; rewrite Hn; vm_compute; reflexivity).
    destruct (Hb _ H). split_and!; try done.
Qed.

Lemma maybeIncreaseCwnd_ok r c acked prior t : cs_ok c -> 0 <= acked <= 2 ^ 16 ->
  cs_ok (maybeIncreaseCwnd r c acked prior t).
Proof.
  intros Hok Ha. assert (Hok' := Hok).
  destruct Hok' as (Hnc & Hslr & Hmin & Hmx & Hini & Hmax & Hw & Hre & Hcu).
  unfold maybeIncreaseCwnd. destruct (negb (isCwndLimited c prior)).
  { destruct Hcu as (? & ? & ?). cs_unfold. cbn. split_and!; try done; try lia. }
  destruct (Z.leb_spec (maxCongestionWindow c) (congestionWindow c)); [done |].
  assert (Hgrow : forall a, cs_ok (with_window c (cubic c) (congestionWindow c +64 DefaultTCPMSS)
                            (slowstartThreshold c) a)).
  { intros a. destruct Hcu as (? & ? & He). cs_unfold. norm64. cbn.
    split_and!; try done; try lia; intros E; specialize (He E); lia. }
  destruct (InSlowStart c); [apply Hgrow |]. destruct (reno c) eqn:Er.
  { case_match; [apply Hgrow | exact Hok]. }
  assert (HA := CongestionWindowAfterAck_ok (cubic c) acked (congestionWindow c) (minCongestionWindow c)
    (maxCongestionWindow c) (minRTT r) t Hcu).
  destruct (CongestionWindowAfterAck _ _ _ _ _) as [w cu].
  destruct HA as [Hw' Hcu']; try (cs_unfold; lia).
  assert (minCongestionWindow c <= MinByteCount (maxCongestionWindow c) w <= maxCongestionWindow c)
    by (unfold MinByteCount; case_cmp; lia).
  unfold cs_ok. cbn. split_and!; try done; try (cs_unfold; lia). by rewrite Er.
Qed.

(** What the sent-packet handler calls, with the round-trip statistics of the
    moment where they are used. *)
Inductive cs_event : Type :=
  | EvSent (pn bytes : Z) (retransmittable : bool)
  | EvAcked (r : RTTStats) (pn bytes prior t : Z)
  | EvLost (pn bytes prior : Z)
  | EvMaybeExit (r : RTTStats)
  | EvTimeout (retransmitted : bool)
  | EvMigration.

Definition cs_step (c : cubicSender) (e : cs_event) : cubicSender :=
  match e with
  | EvSent pn bytes retr => cs_OnPacketSent c pn bytes retr
  | EvAcked r pn bytes prior t => cs_OnPacketAcked r c pn bytes prior t
  | EvLost pn bytes prior => cs_OnPacketLost c pn bytes prior
  | EvMaybeExit r => MaybeExitSlowStart r c
  | EvTimeout retransmitted => cs_OnRetransmissionTimeout c retransmitted
  | EvMigration => cs_OnConnectionMigration c
  end.

Definition cs_event_ok (e : cs_event) : Prop :=
  match e with EvAcked _ _ bytes _ _ => 0 <= bytes <= 2 ^ 16 | _ => True end.

Lemma OnPacketLost_ok c pn bytes prior : cs_ok c -> cs_ok (cs_OnPacketLost c pn bytes prior).
Proof.
  intros Hok. assert (Hok' := Hok). destruct Hok' as (Hnc & Hslr & Hmin & Hmx & Hini & Hmax & Hw & Hre & Hcu).
  unfold cs_OnPacketLost. rewrite Hslr. cbn [andb slowStartLargeReduction with_loss].
  destruct (pn <=? _); [destruct (lastCutbackExitedSlowstart c); [| done]; rewrite Hslr; exact Hok |].
  assert (HL := loss_window_ok c Hok). destruct (if reno c then _ else _) as [w cu].
  destruct HL as (Hwin & Hep & Hcub). set (w' := if w <? _ then _ else _).
  assert (Hw' : minCongestionWindow c <= w' < maxCongestionWindow c + DefaultTCPMSS).
  { assert (7 * congestionWindow c / 8 <= congestionWindow c)
      by (cs_unfold; apply Z.div_le_upper_bound; lia).
    unfold w'. case_cmp; lia. }
  unfold cs_ok. cbn. split_and!; try done; try lia.
Qed.

Lemma cs_step_ok c e : cs_ok c -> cs_event_ok e -> cs_ok (cs_step c e).
Proof.
  intros Hok He. destruct e as [pn b rt | r pn b prior t | pn b prior | r | rt |]; cbn [cs_step].
  - unfold cs_OnPacketSent. by destruct rt, (InRecovery c).
  - unfold cs_OnPacketAcked. case_match; [exact Hok |].
    assert (H' : cs_ok (with_largest c (largestSentPacketNumber c)
      (MaxPacketNumber pn (largestAckedPacketNumber c)))) by exact Hok.
    apply (maybeIncreaseCwnd_ok r _ b prior t) in H'; [| exact He]. case_match; exact H'.
  - by apply OnPacketLost_ok.
  - unfold MaybeExitSlowStart. destruct (InSlowStart c); [| done].
    destruct (ShouldExitSlowStart _ _ _ _) as [[] h]; exact Hok.
  - unfold cs_OnRetransmissionTimeout. destruct rt; [| exact Hok]. cbn [negb].
    destruct Hok as (?&?&?&?&?&?&?&?&Hn&?&_). cs_unfold. cbn. split_and!; try done; lia.
  - destruct Hok as (?&?&?&?&?&?&?&?&Hn&?&_). cs_unfold. cbn. split_and!; try done; lia.
Qed.

Lemma cs_run_ok c es : cs_ok c -> Forall cs_event_ok es -> cs_ok (foldl cs_step c es).
Proof.
  intros Hok Hes. revert c Hok. induction Hes as [| e es He _ IH]; intros c Hok; [done |].
  apply IH. by apply cs_step_ok.
Qed.

Lemma cs_step_max c e : initialMaxCongestionWindow (cs_step c e) = initialMaxCongestionWindow c.
Proof.
  destruct e; cbn [cs_step];
    unfold cs_OnPacketSent, cs_OnPacketAcked, maybeIncreaseCwnd, cs_OnPacketLost, MaybeExitSlowStart,
      cs_OnRetransmissionTimeout, ExitSlowstart;
    repeat case_match; done.
Qed.

Lemma cs_run_max c es : initialMaxCongestionWindow (foldl cs_step c es) = initialMaxCongestionWindow c.
Proof. revert c. induction es as [| e es IH]; intros c; [done |]. cbn. by rewrite IH, cs_step_max. Qed.

Lemma TimeUntilSend_ok r c inFlight : cs_ok c -> exists d, TimeUntilSend r c inFlight = Ok d.
Proof.
  intros (_ & _ & Hmin & _ & _ & Hmax & Hw & _). unfold TimeUntilSend. case_match; [by eexists |].
  cs_unfold. norm64. rewrite i64_small by lia.
  destruct (Z.eqb_spec (2 * congestionWindow c) 0); [lia | by eexists].
Qed.

#[export] Instance cubicSender_laws : SendAlgorithmLaws cubicSender.
Proof.
  refine {| sa_ok := cs_ok |}.
  - intros. by apply TimeUntilSend_ok.
  - intros s t f pn b rt Hok. by apply (cs_step_ok s (EvSent pn b rt)).
  - intros r s Hok. by apply (cs_step_ok s (EvMaybeExit r)).
  - intros r s pn b f t Hok Hb. by apply (cs_step_ok s (EvAcked r pn b f t)).
  - intros s pn b f Hok. by apply (cs_step_ok s (EvLost pn b f)).
  - intros s b Hok. by apply (cs_step_ok s (EvTimeout b)).
Defined.

Lemma NewCubicSender_ok reno initial initialMax :
  defaultMinimumCongestionWindow <= initial <= initialMax -> initialMax <= 2 ^ 21 - DefaultTCPMSS ->
  cs_ok (NewCubicSender reno initial initialMax).
Proof. intros. unfold cs_ok, cubic_ok. cbn. cs_unfold. split_and!; try done; lia. Qed.

(** ** Properties *)

(** C13. Whatever sequence of packets sent, acknowledged and lost, of slow-start
    exits, timeouts and migrations the sender sees, with Reno or Cubic, its
    congestion window stays between two segments and one segment above the
    maximum, although it is computed with [float32] arithmetic and unsigned
    subtractions; so the pacing computation, which divides by it, never panics. *)
Theorem congestion_window_bounded reno initial initialMax es :
  defaultMinimumCongestionWindow <= initial <= initialMax -> initialMax <= 2 ^ 21 - DefaultTCPMSS ->
  Forall cs_event_ok es ->
  let c := foldl cs_step (NewCubicSender reno initial initialMax) es in
  2 * DefaultTCPMSS <= congestionWindow c < initialMax + DefaultTCPMSS
  /\ forall r inFlight, exists d, TimeUntilSend r c inFlight = Ok d.
Proof.
  intros Hi Hm Hes c. assert (Hok : cs_ok c) by (by apply cs_run_ok; [apply NewCubicSender_ok |]).
  assert (Hmx : initialMaxCongestionWindow c = initialMax) by apply cs_run_max.
  split; [| intros r f; by apply TimeUntilSend_ok].
  destruct Hok as (_ & _ & Hmin & Emax & _ & _ & Hw & _).
  rewrite Hmin, Emax, Hmx in Hw. exact Hw.
Qed.

(** The events of a connection that grows, loses, and times out. *)
Definition cs_example : list cs_event :=
  let r := mkRTTStats 50000000 60000000 55000000 1000000 in
  [EvSent 1 1400 true; EvSent 2 1400 true; EvAcked r 1 1400 46720 1000; EvLost 2 1400 45000;
   EvSent 3 1400 true; EvAcked r 3 1400 46720 2000; EvAcked r 3 1400 46720 900000; EvMaybeExit r;
   EvTimeout true; EvMigration].

Lemma congestion_window_bounded_witness :
  let run n := congestionWindow (foldl cs_step (NewCubicSender false 46720 1460000) (take n cs_example)) in
  (run 3%nat = 48180 /\ run 4%nat = 40953 /\ run 7%nat = 41426 /\ run 9%nat = 2920)
  /\ 2 * DefaultTCPMSS <= run 10%nat < 1460000 + DefaultTCPMSS.
Proof.
  intros run. split; [vm_compute; auto |].
  refine (proj1 (congestion_window_bounded false 46720 1460000 (take 10 cs_example) _ _ _)).
  - by vm_compute.
  - by vm_compute.
  - repeat constructor; by vm_compute.
Defined.

(** A loss event cuts the window once: the first lost packet that was sent
    after the last cutback takes it to between 3/4 and 7/8 of its value, but not
    below the minimum, makes it the new slow-start threshold, and starts
    proportional rate reduction; the losses of other packets sent before that
    moment, and of packets before an earlier cutback, leave the window alone. *)
Theorem loss_single_cutback c pn bytes prior :
  cs_ok c ->
  let c1 := cs_OnPacketLost c pn bytes prior in
  (pn <= largestSentAtLastCutback c ->
     congestionWindow c1 = congestionWindow c /\ slowstartThreshold c1 = slowstartThreshold c
     /\ prr c1 = prr c)
  /\ (largestSentAtLastCutback c < pn ->
        Z.max (minCongestionWindow c) (3 * congestionWindow c / 4)
          <= congestionWindow c1 <= Z.max (minCongestionWindow c) (7 * congestionWindow c / 8)
        /\ slowstartThreshold c1 = congestionWindow c1
        /\ prr c1 = mkPrr 0 0 0 prior
        /\ forall pn2 bytes2 prior2, pn2 <= largestSentPacketNumber c ->
             congestionWindow (cs_OnPacketLost c1 pn2 bytes2 prior2) = congestionWindow c1).
Proof.
  intros Hok c1. assert (Hslr : slowStartLargeReduction c = false) by apply Hok.
  assert (Hold : forall c0 pn0 b0 p0, slowStartLargeReduction c0 = false ->
    pn0 <= largestSentAtLastCutback c0 ->
    let c1 := cs_OnPacketLost c0 pn0 b0 p0 in
    congestionWindow c1 = congestionWindow c0 /\ slowstartThreshold c1 = slowstartThreshold c0
    /\ prr c1 = prr c0).
  { intros c0 pn0 b0 p0 Hs Hle. unfold cs_OnPacketLost.
    destruct (Z.leb_spec pn0 (largestSentAtLastCutback c0)); [| lia].
    cbn [slowStartLargeReduction with_loss]. rewrite Hs. by destruct (lastCutbackExitedSlowstart c0). }
  split; [by apply Hold |]. intros Hlt.
  assert (HL := loss_window_ok c Hok).
  assert (Hc1 : largestSentAtLastCutback c1 = largestSentPacketNumber c /\ slowStartLargeReduction c1 = false
    /\ slowstartThreshold c1 = congestionWindow c1 /\ prr c1 = mkPrr 0 0 0 prior
    /\ Z.max (minCongestionWindow c) (3 * congestionWindow c / 4)
       <= congestionWindow c1 <= Z.max (minCongestionWindow c) (7 * congestionWindow c / 8)).
  { unfold c1, cs_OnPacketLost.
    destruct (Z.leb_spec pn (largestSentAtLastCutback c)); [lia |].
    rewrite Hslr. cbn [andb]. destruct (if reno c then _ else _) as [w cu]. destruct HL as [Hw _].
    cbn. split_and!; try done; case_cmp; lia. }
  destruct Hc1 as (Ecut & Hs1 & ? & ? & ?). split_and!; try done; try lia.
  intros pn2 b2 p2 Hpn2. apply Hold; [done | lia].
Qed.

Lemma loss_single_cutback_witness :
  let c := foldl cs_step (NewCubicSender true 46720 1460000) [EvSent 1 1400 true; EvSent 2 1400 true] in
  let c1 := cs_OnPacketLost c 1 1400 46720 in
  congestionWindow c1 = 39712 /\ congestionWindow (cs_OnPacketLost c1 2 1400 45000) = congestionWindow c1.
Proof.
  intros c c1. split; [vm_compute; reflexivity |].
  apply (loss_single_cutback c 1 1400 46720); [| vm_compute; reflexivity | vm_compute; discriminate].
  unfold cs_ok, cubic_ok. cbn. unfold defaultMinimumCongestionWindow, defaultNumConnections, DefaultTCPMSS.
  split_and!; try done; lia.
Defined.
