(* ===== verification/SentHistory.v ===== *)
(** * Sent packets (internal/ackhandler: packet.go, retransmittable.go,
      sent_packet_history.go)

    The history is a linked list of packets, a map from packet numbers to the
    elements of the list, two counters, and a pointer into the list.  Elements
    are identified by the order of their creation.  The theorems relate it to
    the list of the packets alone. *)

From Stdlib Require Import Sorting.Sorted.
From S2P Require Import Prelude Protocol AckFrame Frames FrameCodec FrameParser.

(** ** packet.go *)

Record Packet : Type := mkPacket {
  PacketNumber : Z;
  PacketType : Z;
  Packet_Frames : list Frame;
  Packet_Length : Z;
  Packet_EncryptionLevel : EncryptionLevel;
  SendTime : Z;
  packet_largestAcked : Z;
  canBeRetransmitted : bool;
  includedInBytesInFlight : bool;
  retransmittedAs : list Z;
  isRetransmission : bool;
  retransmissionOf : Z }.

(** ** retransmittable.go *)

Definition IsFrameRetransmittable (f : Frame) : bool :=
  match f with
  | Ack _ => false
  | OwdAck _ => false
  | Owd _ => false
  | _ => true
  end.

Definition stripNonRetransmittableFrames (fs : list Frame) : list Frame :=
  filter (fun f => IsFrameRetransmittable f = true) fs.

Definition HasRetransmittableFrames (fs : list Frame) : bool := existsb IsFrameRetransmittable fs.

(** ** sent_packet_history.go *)

Definition PacketElement : Type := nat * Packet.

Record sentPacketHistory : Type := mkHistory {
  packetList : list PacketElement;
  packetMap : gmap Z nat;
  numOutstandingPackets : Z;
  numOutstandingHandshakePackets : Z;
  firstOutstanding : option nat;
  nextElement : nat }.

Definition newSentPacketHistory : sentPacketHistory := mkHistory [] ∅ 0 0 None 0.

(** The linked list: the value of an element, its update, its removal, and the
    elements that follow it. *)
Fixpoint el_Value (l : list PacketElement) (id : nat) : option Packet :=
  match l with
  | [] => None
  | (i, p) :: l => if (i =? id)%nat then Some p else el_Value l id
  end.

Fixpoint el_set (l : list PacketElement) (id : nat) (q : Packet) : list PacketElement :=
  match l with
  | [] => []
  | (i, p) :: l => if (i =? id)%nat then (i, q) :: l else (i, p) :: el_set l id q
  end.

Fixpoint el_Remove (l : list PacketElement) (id : nat) : list PacketElement :=
  match l with
  | [] => []
  | (i, p) :: l => if (i =? id)%nat then l else (i, p) :: el_Remove l id
  end.

Fixpoint el_after (l : list PacketElement) (id : nat) : list PacketElement :=
  match l with
  | [] => []
  | (i, p) :: l => if (i =? id)%nat then l else el_after l id
  end.

Definition isHandshake (p : Packet) : bool :=
  negb (bool_decide (Packet_EncryptionLevel p = Encryption1RTT)).

Definition history_sentPacketImpl (h : sentPacketHistory) (p : Packet) : sentPacketHistory :=
  let el := nextElement h in
  mkHistory (packetList h ++ [(el, p)]) (<[PacketNumber p := el]> (packetMap h))
    (if canBeRetransmitted p then numOutstandingPackets h + 1 else numOutstandingPackets h)
    (if canBeRetransmitted p && isHandshake p then numOutstandingHandshakePackets h + 1
     else numOutstandingHandshakePackets h)
    (match firstOutstanding h with None => Some el | Some e => Some e end)
    (S el).

Definition history_SentPacket (h : sentPacketHistory) (p : Packet) : sentPacketHistory :=
  history_sentPacketImpl h p.

(** Updates of the fields of a packet that change after it was sent. *)
Definition set_retransmittedAs (p : Packet) (l : list Z) : Packet :=
  mkPacket (PacketNumber p) (PacketType p) (Packet_Frames p) (Packet_Length p)
    (Packet_EncryptionLevel p) (SendTime p) (packet_largestAcked p) (canBeRetransmitted p)
    (includedInBytesInFlight p) l (isRetransmission p) (retransmissionOf p).

Definition set_retransmissionOf (p : Packet) (pn : Z) : Packet :=
  mkPacket (PacketNumber p) (PacketType p) (Packet_Frames p) (Packet_Length p)
    (Packet_EncryptionLevel p) (SendTime p) (packet_largestAcked p) (canBeRetransmitted p)
    (includedInBytesInFlight p) (retransmittedAs p) true pn.

Definition clear_canBeRetransmitted (p : Packet) : Packet :=
  mkPacket (PacketNumber p) (PacketType p) (Packet_Frames p) (Packet_Length p)
    (Packet_EncryptionLevel p) (SendTime p) (packet_largestAcked p) false
    (includedInBytesInFlight p) (retransmittedAs p) (isRetransmission p) (retransmissionOf p).

(** A write through the pointer to an element. *)
Definition history_store (h : sentPacketHistory) (id : nat) (p : Packet) : sentPacketHistory :=
  mkHistory (el_set (packetList h) id p) (packetMap h) (numOutstandingPackets h)
    (numOutstandingHandshakePackets h) (firstOutstanding h) (nextElement h).

Definition history_GetPacket (h : sentPacketHistory) (pn : Z) : option Packet :=
  el ← packetMap h !! pn; el_Value (packetList h) el.

Definition history_SentPacketsAsRetransmission (h : sentPacketHistory) (packets : list Packet)
    (rof : Z) : sentPacketHistory :=
  match packetMap h !! rof with
  | None => foldl history_sentPacketImpl h packets
  | Some el =>
      let h := match el_Value (packetList h) el with
               | Some v => history_store h el (set_retransmittedAs v (PacketNumber <$> packets))
               | None => h
               end in
      foldl (fun h p => history_sentPacketImpl h (set_retransmissionOf p rof)) h packets
  end.

(** The loop over the packets in the order in which they were sent. *)
Fixpoint iterate {S} (cb : S -> Packet -> outcome (bool * S)) (l : list PacketElement) (s : S) : outcome S :=
  match l with
  | [] => Ok s
  | (_, p) :: l => '(cont, s) ← cb s p; if (cont : bool) then iterate cb l s else Ok s
  end.

Definition history_Iterate {S} (h : sentPacketHistory) (cb : S -> Packet -> outcome (bool * S)) (s : S) : outcome S :=
  iterate cb (packetList h) s.

Definition history_FirstOutstanding (h : sentPacketHistory) : option Packet :=
  el ← firstOutstanding h; el_Value (packetList h) el.

Fixpoint next_retransmittable (l : list PacketElement) : option nat :=
  match l with
  | [] => None
  | (i, p) :: l => if canBeRetransmitted p then Some i else next_retransmittable l
  end.

Definition readjustFirstOutstanding (h : sentPacketHistory) : sentPacketHistory :=
  mkHistory (packetList h) (packetMap h) (numOutstandingPackets h) (numOutstandingHandshakePackets h)
    (first ← firstOutstanding h; next_retransmittable (el_after (packetList h) first))
    (nextElement h).

(** The counters without one retransmittable packet. *)
Definition decrease_outstanding (h : sentPacketHistory) (p : Packet) : outcome (Z * Z) :=
  if canBeRetransmitted p then
    let n := numOutstandingPackets h - 1 in
    if n <? 0 then Panic "numOutstandingHandshakePackets negative" else
    if isHandshake p then
      let m := numOutstandingHandshakePackets h - 1 in
      if m <? 0 then Panic "numOutstandingHandshakePackets negative" else Ok (n, m)
    else Ok (n, numOutstandingHandshakePackets h)
  else Ok (numOutstandingPackets h, numOutstandingHandshakePackets h).

Definition MarkCannotBeRetransmitted (h : sentPacketHistory) (pn : Z) : outcome sentPacketHistory :=
  match packetMap h !! pn with
  | None => Err (Errorf "sent packet history: packet %d not found" [pn])
  | Some el =>
      match el_Value (packetList h) el with
      | None => Panic "nil element"
      | Some p =>
          '(n, m) ← decrease_outstanding h p;
          let h := mkHistory (el_set (packetList h) el (clear_canBeRetransmitted p)) (packetMap h) n m
                     (firstOutstanding h) (nextElement h) in
          Ok (if bool_decide (firstOutstanding h = Some el) then readjustFirstOutstanding h else h)
      end
  end.

Definition history_Len (h : sentPacketHistory) : Z := Z.of_nat (size (packetMap h)).

Definition history_Remove (h : sentPacketHistory) (pn : Z) : outcome sentPacketHistory :=
  match packetMap h !! pn with
  | None => Err (Errorf "packet %d not found in sent packet history" [pn])
  | Some el =>
      match el_Value (packetList h) el with
      | None => Panic "nil element"
      | Some p =>
          let h := if bool_decide (firstOutstanding h = Some el) then readjustFirstOutstanding h else h in
          '(n, m) ← decrease_outstanding h p;
          Ok (mkHistory (el_Remove (packetList h) el) (delete pn (packetMap h)) n m
                (firstOutstanding h) (nextElement h))
      end
  end.

Definition HasOutstandingPackets (h : sentPacketHistory) : bool := 0 <? numOutstandingPackets h.
Definition HasOutstandingHandshakePackets (h : sentPacketHistory) : bool :=
  0 <? numOutstandingHandshakePackets h.

(** ** The packets of a history *)

Definition packets (h : sentPacketHistory) : list Packet := snd <$> packetList h.

Fixpoint count (f : Packet -> bool) (ps : list Packet) : Z :=
  match ps with
  | [] => 0
  | p :: ps => (if f p then 1 else 0) + count f ps
  end.

Definition outstanding_handshake (p : Packet) : bool := canBeRetransmitted p && isHandshake p.

(** Operations on the list of packets. *)
Fixpoint find_pn (ps : list Packet) (pn : Z) : option Packet :=
  match ps with
  | [] => None
  | p :: ps => if PacketNumber p =? pn then Some p else find_pn ps pn
  end.

Definition update_pn (ps : list Packet) (pn : Z) (f : Packet -> Packet) : list Packet :=
  map (fun p => if PacketNumber p =? pn then f p else p) ps.

Definition remove_pn (ps : list Packet) (pn : Z) : list Packet :=
  filter (fun p => PacketNumber p <> pn) ps.

Definition pn_lt (p q : Packet) : Prop := PacketNumber p < PacketNumber q.

Record hist_inv (h : sentPacketHistory) : Prop := {
  inv_ids : NoDup (packetList h).*1;
  inv_fresh : Forall (fun e => e.1 < nextElement h)%nat (packetList h);
  inv_sorted : StronglySorted pn_lt (packets h);
  inv_map : forall pn id, packetMap h !! pn = Some id
              <-> exists p, (id, p) ∈ packetList h /\ PacketNumber p = pn;
  inv_outstanding : numOutstandingPackets h = count canBeRetransmitted (packets h);
  inv_handshake : numOutstandingHandshakePackets h = count outstanding_handshake (packets h);
  inv_first : firstOutstanding h = next_retransmittable (packetList h) }.

(** ** Lists of elements *)

Lemma count_app f ps qs : count f (ps ++ qs) = count f ps + count f qs.
Proof. induction ps as [| p ps IH]; cbn [count app]; [lia |]. rewrite IH. lia. Qed.

Lemma count_nonneg f ps : 0 <= count f ps.
Proof. induction ps as [| p ps IH]; cbn [count]; [lia |]. destruct (f p); lia. Qed.

Section Elements.
Context (l1 l2 : list PacketElement) (id : nat) (p : Packet).
Hypothesis Hid : id ∉ l1.*1.

Lemma el_Value_split : el_Value (l1 ++ (id, p) :: l2) id = Some p.
Proof using Hid.
  induction l1 as [| [i q] l IH]; cbn; [by rewrite Nat.eqb_refl |].
  cbn in Hid. destruct (Nat.eqb_spec i id) as [-> |]; [set_solver |]. apply IH. set_solver.
Qed.

Lemma el_set_split q : el_set (l1 ++ (id, p) :: l2) id q = l1 ++ (id, q) :: l2.
Proof using Hid.
  induction l1 as [| [i r] l IH]; cbn; [by rewrite Nat.eqb_refl |].
  cbn in Hid. destruct (Nat.eqb_spec i id) as [-> |]; [set_solver |]. rewrite IH; set_solver.
Qed.

Lemma el_Remove_split : el_Remove (l1 ++ (id, p) :: l2) id = l1 ++ l2.
Proof using Hid.
  induction l1 as [| [i r] l IH]; cbn; [by rewrite Nat.eqb_refl |].
  cbn in Hid. destruct (Nat.eqb_spec i id) as [-> |]; [set_solver |]. rewrite IH; set_solver.
Qed.

Lemma el_after_split : el_after (l1 ++ (id, p) :: l2) id = l2.
Proof using Hid.
  induction l1 as [| [i r] l IH]; cbn; [by rewrite Nat.eqb_refl |].
  cbn in Hid. destruct (Nat.eqb_spec i id) as [-> |]; [set_solver |]. rewrite IH; set_solver.
Qed.
End Elements.

Lemma next_retransmittable_app l1 l2 : next_retransmittable (l1 ++ l2)
  = match next_retransmittable l1 with Some i => Some i | None => next_retransmittable l2 end.
Proof.
  induction l1 as [| [i p] l IH]; cbn; [done |]. destruct (canBeRetransmitted p); [done | apply IH].
Qed.

Lemma next_retransmittable_in l i : next_retransmittable l = Some i -> i ∈ l.*1.
Proof.
  induction l as [| [j p] l IH]; cbn; [done |]. destruct (canBeRetransmitted p); set_solver.
Qed.

(** Lists of packets in increasing order. *)
Lemma sorted_split ps1 p ps2 : StronglySorted pn_lt (ps1 ++ p :: ps2) ->
  Forall (fun q => PacketNumber q < PacketNumber p) ps1
  /\ Forall (fun q => PacketNumber p < PacketNumber q) ps2
  /\ StronglySorted pn_lt (ps1 ++ ps2).
Proof.
  induction ps1 as [| q ps1 IH]; cbn [app]; intros Hs; apply StronglySorted_inv in Hs as [Hs Hf].
  { split; [constructor |]. by split. }
  destruct (IH Hs) as (H1 & H2 & H3). apply Forall_app in Hf as [Hf1 Hf2].
  apply Forall_cons in Hf2 as [Hq Hf2]. split; [constructor; done |]. split; [done |].
  constructor; [done |]. by apply Forall_app.
Qed.

Lemma sorted_snoc ps p : StronglySorted pn_lt ps -> Forall (fun q => PacketNumber q < PacketNumber p) ps ->
  StronglySorted pn_lt (ps ++ [p]).
Proof.
  induction ps as [| q ps IH]; cbn [app]; intros Hs Hp; [repeat constructor |].
  apply StronglySorted_inv in Hs as [Hs Hf]. apply Forall_cons in Hp as [Hq Hp].
  constructor; [by apply IH |]. apply Forall_app. by repeat constructor.
Qed.

Lemma find_pn_split ps1 p ps2 : Forall (fun q => PacketNumber q < PacketNumber p) ps1 ->
  find_pn (ps1 ++ p :: ps2) (PacketNumber p) = Some p.
Proof.
  induction 1 as [| q ps1 Hq _ IH]; cbn; [by rewrite Z.eqb_refl |].
  destruct (Z.eqb_spec (PacketNumber q) (PacketNumber p)); [lia | done].
Qed.

Lemma update_pn_other ps pn f : Forall (fun q => PacketNumber q <> pn) ps -> update_pn ps pn f = ps.
Proof.
  induction 1 as [| q ps Hq _ IH]; [done |]. cbn. unfold update_pn in IH. rewrite IH.
  by destruct (Z.eqb_spec (PacketNumber q) pn).
Qed.

Lemma update_pn_split ps1 p ps2 f : StronglySorted pn_lt (ps1 ++ p :: ps2) ->
  update_pn (ps1 ++ p :: ps2) (PacketNumber p) f = ps1 ++ f p :: ps2.
Proof.
  intros (H1 & H2 & _)%sorted_split. unfold update_pn. rewrite map_app. cbn [map].
  rewrite Z.eqb_refl. f_equal; [| f_equal];
    apply update_pn_other; (eapply Forall_impl; [done |]); cbn; lia.
Qed.

Lemma remove_pn_other ps pn : Forall (fun q => PacketNumber q <> pn) ps -> remove_pn ps pn = ps.
Proof.
  induction 1 as [| q ps Hq _ IH]; [done |]. unfold remove_pn in *.
  by rewrite filter_cons_True, IH.
Qed.

Lemma remove_pn_split ps1 p ps2 : StronglySorted pn_lt (ps1 ++ p :: ps2) ->
  remove_pn (ps1 ++ p :: ps2) (PacketNumber p) = ps1 ++ ps2.
Proof.
  intros (H1 & H2 & _)%sorted_split. unfold remove_pn. rewrite filter_app, filter_cons_False by lia.
  f_equal; apply remove_pn_other; (eapply Forall_impl; [done |]); cbn; lia.
Qed.

(** ** The operations on the list of packets *)

(** An element that the map names, and its place in the list. *)
Lemma hist_split h pn id : hist_inv h -> packetMap h !! pn = Some id ->
  exists l1 p l2, packetList h = l1 ++ (id, p) :: l2 /\ PacketNumber p = pn
    /\ (id ∉ l1.*1) /\ (id ∉ l2.*1).
Proof.
  intros Hinv H. apply (inv_map _ Hinv) in H as (p & Hp & Epn).
  apply list_elem_of_split in Hp as (l1 & l2 & E). exists l1, p, l2. split; [done |].
  assert (Hnd := inv_ids _ Hinv). rewrite E, fmap_app, fmap_cons in Hnd.
  apply NoDup_app in Hnd as (_ & Hdis & Hnd). apply NoDup_cons in Hnd as [Hid _]. cbn in *.
  split_and!; try done. intros Hin. apply (Hdis id Hin). set_solver.
Qed.

Lemma hist_find h pn : hist_inv h ->
  match find_pn (packets h) pn with
  | Some p => exists id l1 l2, packetMap h !! pn = Some id /\ packetList h = l1 ++ (id, p) :: l2
      /\ PacketNumber p = pn /\ (id ∉ l1.*1) /\ (id ∉ l2.*1)
  | None => packetMap h !! pn = None
  end.
Proof.
  intros Hinv. destruct (packetMap h !! pn) as [id |] eqn:E.
  - destruct (hist_split h pn id Hinv E) as (l1 & p & l2 & El & Ep & ? & ?).
    assert (find_pn (packets h) pn = Some p) as ->.
    { unfold packets. assert (Hs := inv_sorted _ Hinv). unfold packets in Hs.
      rewrite El, fmap_app, fmap_cons in Hs |- *. apply sorted_split in Hs as (Hs & _ & _).
      rewrite <- Ep. by apply find_pn_split. }
    by exists id, l1, l2.
  - destruct (find_pn (packets h) pn) as [p |] eqn:Ef; [| done]. exfalso.
    assert (Hin : exists id, (id, p) ∈ packetList h /\ PacketNumber p = pn).
    { clear -Ef. unfold packets in Ef. induction (packetList h) as [| [i q] l IH]; [done |].
      cbn in Ef. destruct (Z.eqb_spec (PacketNumber q) pn); [| set_solver].
      inversion Ef. subst. exists i. set_solver. }
    destruct Hin as (id & Hin & Epn).
    assert (packetMap h !! pn = Some id) by (apply (inv_map _ Hinv); by exists p). congruence.
Qed.

Lemma GetPacket_find h pn : hist_inv h -> history_GetPacket h pn = find_pn (packets h) pn.
Proof.
  intros Hinv. assert (H := hist_find h pn Hinv). unfold history_GetPacket.
  destruct (find_pn (packets h) pn) as [p |].
  - destruct H as (id & l1 & l2 & -> & El & _ & Hid & _). cbn. by rewrite El, el_Value_split.
  - by rewrite H.
Qed.

(** Replacing the value of an element by one with the same number. *)
Lemma replace_inv h l1 id p l2 q n m fo : hist_inv h -> packetList h = l1 ++ (id, p) :: l2 ->
  PacketNumber q = PacketNumber p ->
  let l := l1 ++ (id, q) :: l2 in
  n = count canBeRetransmitted l.*2 -> m = count outstanding_handshake l.*2 ->
  fo = next_retransmittable l ->
  hist_inv (mkHistory l (packetMap h) n m fo (nextElement h)).
Proof.
  intros Hinv El Eq l -> -> ->. assert (Hp := update_pn_split l1.*2 p l2.*2 (fun _ => q)).
  assert (Hsplit : packets h = l1.*2 ++ p :: l2.*2) by (unfold packets; by rewrite El, fmap_app).
  destruct Hinv as [H1 H2 H3 H4 H5 H6 H7].
  constructor; unfold packets; cbn [packetList packetMap numOutstandingPackets
    numOutstandingHandshakePackets firstOutstanding nextElement]; try done.
  - rewrite El in H1. unfold l. rewrite fmap_app, fmap_cons in H1 |- *. done.
  - rewrite El in H2. unfold l. rewrite Forall_app, Forall_cons in H2 |- *. done.
  - rewrite Hsplit in H3. unfold l. rewrite fmap_app, fmap_cons. cbn [snd].
    clear -H3 Eq. induction (l1.*2) as [| r ps IH]; cbn [app] in *;
      apply StronglySorted_inv in H3 as [Hs Hf].
    + constructor; [done |]. eapply Forall_impl; [done |]. unfold pn_lt. intros. lia.
    + constructor; [by apply IH |]. rewrite Forall_app, Forall_cons in Hf |- *.
      unfold pn_lt in *. by rewrite Eq.
  - intros pn i. rewrite (H4 pn i), El. unfold l. setoid_rewrite elem_of_app. setoid_rewrite elem_of_cons.
    split; intros (r & [Hr | [Hr | Hr]] & Er); [eauto 8 | inversion Hr; subst; exists q | eauto 8
      | eauto 8 | inversion Hr; subst; exists p | eauto 8]; (split; [by eauto | congruence]).
Qed.

Lemma packets_split h l1 id p l2 : packetList h = l1 ++ (id, p) :: l2 ->
  packets h = l1.*2 ++ p :: l2.*2.
Proof. intros E. unfold packets. by rewrite E, fmap_app. Qed.

Lemma decrease_ok h l1 id p l2 : hist_inv h -> packetList h = l1 ++ (id, p) :: l2 ->
  forall h', numOutstandingPackets h' = numOutstandingPackets h ->
  numOutstandingHandshakePackets h' = numOutstandingHandshakePackets h ->
  decrease_outstanding h' p
  = Ok (count canBeRetransmitted (l1.*2 ++ l2.*2), count outstanding_handshake (l1.*2 ++ l2.*2)).
Proof.
  intros Hinv El h' E1 E2. unfold decrease_outstanding.
  rewrite E1, E2, (inv_outstanding _ Hinv), (inv_handshake _ Hinv), (packets_split _ _ _ _ _ El).
  rewrite !count_app. cbn [count].
  change (outstanding_handshake p) with (canBeRetransmitted p && isHandshake p).
  assert (Hc := fun f ps => count_nonneg f ps).
  assert (H1 := Hc canBeRetransmitted l1.*2). assert (H2 := Hc canBeRetransmitted l2.*2).
  assert (H3 := Hc outstanding_handshake l1.*2). assert (H4 := Hc outstanding_handshake l2.*2).
  destruct (canBeRetransmitted p), (isHandshake p); cbn [andb]; case_cmp; try lia;
    do 2 f_equal; lia.
Qed.

(** After an element that may no longer be retransmitted, or is removed, the
    first outstanding element is found as the code does. *)
Lemma first_after h l1 id p l2 : hist_inv h -> packetList h = l1 ++ (id, p) :: l2 ->
  id ∉ l1.*1 -> id ∉ l2.*1 ->
  (if bool_decide (firstOutstanding h = Some id) then next_retransmittable l2 else firstOutstanding h)
  = next_retransmittable (l1 ++ l2).
Proof.
  intros Hinv El Hid1 Hid2. rewrite (inv_first _ Hinv), El, !next_retransmittable_app.
  cbn [next_retransmittable].
  destruct (next_retransmittable l1) as [i |] eqn:E1.
  - rewrite bool_decide_eq_false_2; [done |]. intros [= ->].
    by apply Hid1, next_retransmittable_in.
  - destruct (canBeRetransmitted p); [by rewrite bool_decide_eq_true_2 |].
    case_bool_decide as E; [| done]. by apply next_retransmittable_in in E.
Qed.

Lemma Mark_refines h pn p : hist_inv h -> find_pn (packets h) pn = Some p ->
  exists h', MarkCannotBeRetransmitted h pn = Ok h' /\ hist_inv h'
    /\ packets h' = update_pn (packets h) pn clear_canBeRetransmitted.
Proof.
  intros Hinv Hf. assert (H := hist_find h pn Hinv). rewrite Hf in H.
  destruct H as (id & l1 & l2 & Em & El & <- & Hid1 & Hid2).
  unfold MarkCannotBeRetransmitted. rewrite Em, El, el_Value_split by done.
  rewrite (decrease_ok h l1 id p l2) by done. cbn -[bool_decide count].
  rewrite el_set_split by done. set (q := clear_canBeRetransmitted p).
  eexists. split; [reflexivity |].
  assert (Hgoal : forall fo, fo = next_retransmittable (l1 ++ (id, q) :: l2) ->
    hist_inv (mkHistory (l1 ++ (id, q) :: l2) (packetMap h) (count canBeRetransmitted (l1.*2 ++ l2.*2))
      (count outstanding_handshake (l1.*2 ++ l2.*2)) fo (nextElement h))).
  { intros fo Hfo. apply (replace_inv h l1 id p l2 q); try done;
      rewrite fmap_app, fmap_cons, !count_app; cbn [snd count]; unfold outstanding_handshake; cbn; lia. }
  assert (Hn : next_retransmittable (l1 ++ (id, q) :: l2) = next_retransmittable (l1 ++ l2))
    by (by rewrite !next_retransmittable_app).
  assert (Hfirst := first_after h l1 id p l2 Hinv El Hid1 Hid2).
  rewrite (packets_split _ _ _ _ _ El), update_pn_split;
    [| rewrite <- (packets_split _ _ _ _ _ El); apply Hinv].
  case_bool_decide as Efo.
  - unfold readjustFirstOutstanding, packets. cbn [packetList packetMap numOutstandingPackets
      numOutstandingHandshakePackets firstOutstanding nextElement].
    rewrite Efo. cbn [mbind option_bind]. rewrite el_after_split by done.
    split; [apply Hgoal; congruence | by rewrite fmap_app].
  - unfold packets. cbn [packetList]. split; [apply Hgoal; congruence | by rewrite fmap_app].
Qed.

Lemma Remove_refines h pn p : hist_inv h -> find_pn (packets h) pn = Some p ->
  exists h', history_Remove h pn = Ok h' /\ hist_inv h' /\ packets h' = remove_pn (packets h) pn.
Proof.
  intros Hinv Hf. assert (H := hist_find h pn Hinv). rewrite Hf in H.
  destruct H as (id & l1 & l2 & Em & El & <- & Hid1 & Hid2).
  unfold history_Remove. rewrite Em, El, el_Value_split by done.
  set (h1 := if bool_decide (firstOutstanding h = Some id) then _ else _).
  assert (E1 : numOutstandingPackets h1 = numOutstandingPackets h
    /\ numOutstandingHandshakePackets h1 = numOutstandingHandshakePackets h
    /\ packetList h1 = packetList h /\ packetMap h1 = packetMap h /\ nextElement h1 = nextElement h
    /\ firstOutstanding h1 = next_retransmittable (l1 ++ l2)).
  { rewrite <- (first_after h l1 id p l2) by done. unfold h1. case_bool_decide as Efo; [| done].
    split_and!; try done. unfold readjustFirstOutstanding. cbn [firstOutstanding].
    rewrite Efo, El. cbn [mbind option_bind]. by rewrite el_after_split. }
  destruct E1 as (E1 & E2 & E3 & E4 & E5 & E6). clearbody h1.
  rewrite (decrease_ok h l1 id p l2) by done. cbn -[count]. rewrite E3, E4, E5, E6, El, el_Remove_split by done.
  eexists. split; [reflexivity |].
  assert (Hps := packets_split _ _ _ _ _ El).
  destruct Hinv as [H1 H2 H3 H4 H5 H6 H7]. rewrite Hps in *.
  split; [| by rewrite remove_pn_split; [unfold packets; cbn [packetList]; rewrite fmap_app |]].
  constructor; unfold packets; cbn [packetList packetMap numOutstandingPackets
    numOutstandingHandshakePackets firstOutstanding nextElement]; try (by rewrite fmap_app); try done.
  - rewrite El, !fmap_app, fmap_cons, <- Permutation_middle in H1. rewrite fmap_app.
    apply NoDup_cons in H1. by destruct H1.
  - rewrite El, Forall_app, Forall_cons in H2. apply Forall_app. tauto.
  - rewrite fmap_app. by apply sorted_split in H3 as (_ & _ & H3).
  - intros pn i. apply sorted_split in H3 as (Ha & Hb & _). rewrite Forall_fmap, Forall_forall in Ha, Hb.
    rewrite lookup_delete_Some, (H4 pn i), El. setoid_rewrite elem_of_app. setoid_rewrite elem_of_cons.
    split.
    + intros (Hne & q & [Hq | [Hq | Hq]] & Eq); [by eauto | by inversion Hq; subst | by eauto].
    + intros (q & [Hq | Hq] & Eq); (split; [| by eauto]).
      * specialize (Ha _ Hq). cbn in Ha. lia.
      * specialize (Hb _ Hq). cbn in Hb. lia.
Qed.

Lemma SentPacket_refines h p : hist_inv h -> canBeRetransmitted p = true ->
  Forall (fun q => PacketNumber q < PacketNumber p) (packets h) ->
  hist_inv (history_sentPacketImpl h p) /\ packets (history_sentPacketImpl h p) = packets h ++ [p].
Proof.
  intros [H1 H2 H3 H4 H5 H6 H7] Hc Hp.
  assert (Hpk : packets (history_sentPacketImpl h p) = packets h ++ [p])
    by (unfold packets, history_sentPacketImpl; cbn [packetList]; by rewrite fmap_app).
  split; [| done]. constructor; rewrite ?Hpk; unfold history_sentPacketImpl;
    cbn [packetList packetMap numOutstandingPackets
      numOutstandingHandshakePackets firstOutstanding nextElement].
  - rewrite fmap_app. apply NoDup_app. split; [done |]. split; [| apply NoDup_singleton].
    intros i Hi Hi'%list_elem_of_singleton. cbn in Hi'.
    apply list_elem_of_fmap in Hi as ([j q] & Ej & Hi). cbn in Ej.
    rewrite Forall_forall in H2. specialize (H2 _ Hi). cbn in H2. lia.
  - apply Forall_app. split; [| repeat constructor]. eapply Forall_impl; [done |]. cbn. lia.
  - by apply sorted_snoc.
  - intros pn i. rewrite lookup_insert_Some, (H4 pn i). setoid_rewrite elem_of_app.
    setoid_rewrite list_elem_of_singleton. split.
    + intros [[<- <-] | [Hne (q & Hq & Eq)]]; by eauto.
    + intros (q & [Hq | Hq] & Eq); [| inversion Hq; subst; by left]. right. split; [| by eauto].
      rewrite Forall_forall in Hp. assert (q ∈ packets h) as Hin%Hp; [| lia].
      unfold packets. apply list_elem_of_fmap. by exists (i, q).
  - rewrite count_app, H5, Hc. cbn [count]. rewrite Hc. lia.
  - rewrite count_app, H6. cbn [count].
    change (outstanding_handshake p) with (canBeRetransmitted p && isHandshake p).
    destruct (canBeRetransmitted p && isHandshake p); lia.
  - rewrite next_retransmittable_app, H7. cbn. rewrite Hc. done.
Qed.

Lemma SentPackets_refines g ps h : hist_inv h ->
  (forall p, PacketNumber (g p) = PacketNumber p /\ canBeRetransmitted (g p) = canBeRetransmitted p) ->
  Forall (fun p => canBeRetransmitted p = true) ps -> StronglySorted pn_lt (packets h ++ ps) ->
  let h' := foldl (fun h p => history_sentPacketImpl h (g p)) h ps in
  hist_inv h' /\ packets h' = packets h ++ (g <$> ps).
Proof.
  intros Hinv Hg Hps. revert h Hinv. induction ps as [| p ps IH]; intros h Hinv Hs; cbn.
  { by rewrite app_nil_r. }
  apply Forall_cons in Hps as [Hp Hps]. destruct (Hg p) as [Eg1 Eg2].
  assert (Hs' := sorted_split _ _ _ Hs). destruct Hs' as (Hlt & _ & _).
  destruct (SentPacket_refines h (g p)) as [Hinv' Epk]; [done | congruence | by rewrite Eg1 |].
  specialize (IH Hps _ Hinv'). rewrite Epk in IH.
  destruct IH as [IH1 IH2]; [| split; [done |]; by rewrite IH2, <- app_assoc].
  rewrite <- app_assoc. cbn [app]. clear -Hs Eg1.
  induction (packets h) as [| r rs IH]; cbn [app] in *; apply StronglySorted_inv in Hs as [Hs Hf].
  - constructor; [done |]. eapply Forall_impl; [done |]. unfold pn_lt. intros. lia.
  - constructor; [by apply IH |]. rewrite Forall_app, Forall_cons in Hf |- *. unfold pn_lt in *.
    by rewrite Eg1.
Qed.

(** A write that keeps the number and the retransmittability of a packet. *)
Lemma store_refines h pn p q id : hist_inv h -> find_pn (packets h) pn = Some p ->
  packetMap h !! pn = Some id ->
  PacketNumber q = pn -> canBeRetransmitted q = canBeRetransmitted p -> isHandshake q = isHandshake p ->
  hist_inv (history_store h id q) /\ packets (history_store h id q) = update_pn (packets h) pn (fun _ => q).
Proof.
  intros Hinv Hf Hid Eq1 Eq2 Eq3. assert (H := hist_find h pn Hinv). rewrite Hf in H.
  destruct H as (id' & l1 & l2 & Em & El & <- & Hid1 & Hid2).
  assert (id' = id) as -> by congruence.
  unfold history_store. rewrite El, el_set_split by done. split.
  - apply (replace_inv h l1 id p l2 q); try done;
      [rewrite (inv_outstanding _ Hinv) | rewrite (inv_handshake _ Hinv) | rewrite (inv_first _ Hinv), El];
      rewrite ?(packets_split _ _ _ _ _ El), ?fmap_app, ?fmap_cons, ?count_app, ?next_retransmittable_app;
      cbn; unfold outstanding_handshake; by rewrite ?Eq2, ?Eq3.
  - rewrite (packets_split _ _ _ _ _ El), update_pn_split;
      [| rewrite <- (packets_split _ _ _ _ _ El); apply Hinv].
    unfold packets. cbn [packetList]. by rewrite fmap_app.
Qed.

Definition retransmit (ps new : list Packet) (rof : Z) : list Packet :=
  match find_pn ps rof with
  | Some _ => update_pn ps rof (fun p => set_retransmittedAs p (PacketNumber <$> new))
              ++ ((fun p => set_retransmissionOf p rof) <$> new)
  | None => ps ++ new
  end.

Lemma update_pn_sorted ps pn f qs : (forall p, PacketNumber (f p) = PacketNumber p) ->
  StronglySorted pn_lt (ps ++ qs) -> StronglySorted pn_lt (update_pn ps pn f ++ qs).
Proof.
  intros Hf. induction ps as [| p ps IH]; cbn [update_pn map app]; [done |].
  intros [Hs Hp]%StronglySorted_inv. constructor; [by apply IH |].
  assert (E : forall q, PacketNumber (if PacketNumber q =? pn then f q else q) = PacketNumber q)
    by (intros q; by destruct (PacketNumber q =? pn)).
  rewrite Forall_app in Hp |- *. destruct Hp as [Hp1 Hp2]. unfold pn_lt in *. split.
  - apply Forall_forall. intros q Hq. apply list_elem_of_In, in_map_iff in Hq as (r & <- & Hr).
    rewrite !E. rewrite Forall_forall in Hp1. by apply Hp1, list_elem_of_In.
  - by rewrite E.
Qed.

Lemma update_pn_ext ps pn f g p : StronglySorted pn_lt ps -> find_pn ps pn = Some p -> f p = g p ->
  update_pn ps pn f = update_pn ps pn g.
Proof.
  intros Hs Hf E. unfold update_pn. apply map_ext_in. intros q Hq.
  destruct (Z.eqb_spec (PacketNumber q) pn) as [Eq |]; [| done]. f_equal.
  apply list_elem_of_In, list_elem_of_split in Hq as (l1 & l2 & ->).
  apply sorted_split in Hs as (Hs & _ & _). rewrite <- Eq, find_pn_split in Hf by done. by inversion Hf.
Qed.

Lemma find_pn_num ps pn p : find_pn ps pn = Some p -> PacketNumber p = pn.
Proof.
  induction ps as [| q ps IH]; cbn; [done |]. destruct (Z.eqb_spec (PacketNumber q) pn); [congruence | done].
Qed.

Lemma find_pn_elem ps pn p : find_pn ps pn = Some p -> p ∈ ps.
Proof.
  induction ps as [| q ps IH]; cbn; [done |]. destruct (PacketNumber q =? pn); [| set_solver].
  intros [= ->]. set_solver.
Qed.

Lemma find_pn_Some ps p : StronglySorted pn_lt ps -> p ∈ ps -> find_pn ps (PacketNumber p) = Some p.
Proof.
  intros Hs (l1 & l2 & ->)%list_elem_of_split. apply sorted_split in Hs as (Hs & _). by apply find_pn_split.
Qed.

Lemma SentPacketsAsRetransmission_refines h new rof : hist_inv h ->
  Forall (fun p => canBeRetransmitted p = true) new -> StronglySorted pn_lt (packets h ++ new) ->
  let h' := history_SentPacketsAsRetransmission h new rof in
  hist_inv h' /\ packets h' = retransmit (packets h) new rof.
Proof.
  intros Hinv Hnew Hs. unfold history_SentPacketsAsRetransmission, retransmit.
  assert (H := hist_find h rof Hinv). destruct (find_pn (packets h) rof) as [v |] eqn:Ef.
  2:{ rewrite H. rewrite <- (list_fmap_id new) at 3. by apply (SentPackets_refines id). }
  destruct H as (id & l1 & l2 & Em & El & Ev & Hid1 & Hid2).
  rewrite Em, El, el_Value_split by done.
  destruct (store_refines h rof v (set_retransmittedAs v (PacketNumber <$> new)) id)
    as [Hinv' Epk]; try done.
  rewrite (update_pn_ext _ _ _ (fun p => set_retransmittedAs p (PacketNumber <$> new)) v) in Epk;
    [| apply Hinv | done | done].
  rewrite <- Epk. apply (SentPackets_refines (fun p => set_retransmissionOf p rof)); try done.
  rewrite Epk. by apply update_pn_sorted.
Qed.

(** The first outstanding packet, the counters and the length. *)
Fixpoint first_outstanding (ps : list Packet) : option Packet :=
  match ps with
  | [] => None
  | p :: ps => if canBeRetransmitted p then Some p else first_outstanding ps
  end.

Lemma FirstOutstanding_refines h : hist_inv h ->
  history_FirstOutstanding h = first_outstanding (packets h).
Proof.
  intros Hinv. unfold history_FirstOutstanding, packets. rewrite (inv_first _ Hinv).
  assert (Hnd := inv_ids _ Hinv). clear Hinv. induction (packetList h) as [| [i p] l IH]; [done |]. cbn.
  destruct (canBeRetransmitted p); cbn; [by rewrite Nat.eqb_refl |].
  apply NoDup_cons in Hnd as [Hi Hnd]. rewrite <- IH by done. cbn in Hi.
  destruct (next_retransmittable l) as [j |] eqn:E; [| done]. cbn.
  apply next_retransmittable_in in E. by destruct (Nat.eqb_spec i j) as [-> |].
Qed.

Lemma count_existsb f ps : (0 <? count f ps) = existsb f ps.
Proof.
  induction ps as [| p ps IH]; [done |]. cbn [count existsb]. rewrite <- IH.
  assert (H := count_nonneg f ps). destruct (f p); cbn [orb]; case_cmp; try done; lia.
Qed.

Lemma Len_refines h : hist_inv h -> history_Len h = len (packets h).
Proof.
  intros Hinv. unfold history_Len, len. f_equal.
  assert (Hnd : NoDup ((fun e => (PacketNumber e.2, e.1)) <$> packetList h).*1).
  { rewrite <- list_fmap_compose. change (NoDup (PacketNumber ∘ snd <$> packetList h)).
    rewrite list_fmap_compose. fold (packets h). assert (Hs := inv_sorted _ Hinv).
    induction Hs as [| p ps Hs IH Hp]; cbn; constructor; [| done].
    intros (q & Eq & Hq)%list_elem_of_fmap. rewrite Forall_forall in Hp. specialize (Hp q Hq).
    unfold pn_lt in Hp. lia. }
  assert (packetMap h = list_to_map ((fun e => (PacketNumber e.2, e.1)) <$> packetList h)) as ->.
  { apply map_eq. intros pn. apply option_eq. intros id. rewrite (inv_map _ Hinv).
    rewrite <- elem_of_list_to_map by done. rewrite list_elem_of_fmap. split.
    - intros (p & Hp & <-). by exists (id, p).
    - intros ([i p] & E & Hp). inversion E. subst. by exists p. }
  rewrite map_size_list_to_map by done. unfold packets. by rewrite !length_fmap.
Qed.

Lemma new_hist_inv : hist_inv newSentPacketHistory.
Proof.
  constructor; try done; [constructor | constructor |]. intros pn id. cbn. rewrite lookup_empty.
  split; [done |]. intros (p & H & _). by apply elem_of_nil in H.
Qed.

(** ** Refinement of the list of packets *)

Inductive hist_op : Type :=
  | HSent (p : Packet)
  | HRetransmission (new : list Packet) (rof : Z)
  | HMark (pn : Z)
  | HRemove (pn : Z).

Definition hist_step (h : sentPacketHistory) (o : hist_op) : outcome sentPacketHistory :=
  match o with
  | HSent p => Ok (history_SentPacket h p)
  | HRetransmission new rof => Ok (history_SentPacketsAsRetransmission h new rof)
  | HMark pn => MarkCannotBeRetransmitted h pn
  | HRemove pn => history_Remove h pn
  end.

(** The same operations on the list of packets. *)
Definition list_step (ps : list Packet) (o : hist_op) : outcome (list Packet) :=
  match o with
  | HSent p => Ok (ps ++ [p])
  | HRetransmission new rof => Ok (retransmit ps new rof)
  | HMark pn =>
      match find_pn ps pn with
      | Some _ => Ok (update_pn ps pn clear_canBeRetransmitted)
      | None => Err (Errorf "sent packet history: packet %d not found" [pn])
      end
  | HRemove pn =>
      match find_pn ps pn with
      | Some _ => Ok (remove_pn ps pn)
      | None => Err (Errorf "packet %d not found in sent packet history" [pn])
      end
  end.

(** Packets are added with new, larger numbers, as retransmittable ones. *)
Definition hist_op_ok (ps : list Packet) (o : hist_op) : Prop :=
  let new := match o with HSent p => [p] | HRetransmission new _ => new | _ => [] end in
  Forall (fun p => canBeRetransmitted p = true) new /\ StronglySorted pn_lt (ps ++ new).

Fixpoint hist_run (h : sentPacketHistory) (os : list hist_op) : outcome sentPacketHistory :=
  match os with
  | [] => Ok h
  | o :: os => h ← hist_step h o; hist_run h os
  end.

Fixpoint list_run (ps : list Packet) (os : list hist_op) : outcome (list Packet) :=
  match os with
  | [] => Ok ps
  | o :: os => ps ← list_step ps o; list_run ps os
  end.

Fixpoint hist_ops_ok (ps : list Packet) (os : list hist_op) : Prop :=
  match os with
  | [] => True
  | o :: os => hist_op_ok ps o /\ match list_step ps o with Ok ps => hist_ops_ok ps os | _ => True end
  end.

Lemma hist_step_refines h o : hist_inv h -> hist_op_ok (packets h) o ->
  match list_step (packets h) o with
  | Ok ps => exists h', hist_step h o = Ok h' /\ hist_inv h' /\ packets h' = ps
  | Err e => hist_step h o = Err e
  | Panic _ => False
  end.
Proof.
  intros Hinv [Hok Hs]. destruct o as [p | new rof | pn | pn]; cbn [list_step hist_step].
  - eexists. split; [reflexivity |]. apply SentPacket_refines; [done | by apply Forall_cons in Hok as [? _] |].
    by apply sorted_split in Hs as [? _].
  - eexists. split; [reflexivity |]. by apply SentPacketsAsRetransmission_refines.
  - destruct (find_pn (packets h) pn) as [p |] eqn:E; [by eapply Mark_refines |].
    assert (H := hist_find h pn Hinv). rewrite E in H. unfold MarkCannotBeRetransmitted. by rewrite H.
  - destruct (find_pn (packets h) pn) as [p |] eqn:E; [by eapply Remove_refines |].
    assert (H := hist_find h pn Hinv). rewrite E in H. unfold history_Remove. by rewrite H.
Qed.

Lemma hist_run_refines os h : hist_inv h -> hist_ops_ok (packets h) os ->
  match list_run (packets h) os with
  | Ok ps => exists h', hist_run h os = Ok h' /\ hist_inv h' /\ packets h' = ps
  | Err e => hist_run h os = Err e
  | Panic _ => False
  end.
Proof.
  revert h. induction os as [| o os IH]; intros h Hinv; cbn [hist_ops_ok list_run hist_run].
  { intros _. by exists h. }
  intros [Ho Hos]. assert (H := hist_step_refines h o Hinv Ho).
  destruct (list_step (packets h) o) as [ps | e | s]; [| by rewrite H | done].
  destruct H as (h' & -> & Hinv' & <-). cbn [mbind outcome_bind]. by apply IH.
Qed.

(** ** Properties *)

(** The history of sent packets is the list of the packets, in the order
    of their numbers: for packets sent under increasing numbers, sending,
    retransmitting, marking and removing succeed and fail as they do on the
    list, no counter gets negative, and afterwards the map, the pointer to the
    first outstanding packet, the counters and the length agree with the list. *)
Theorem sent_history_refines os :
  hist_ops_ok [] os ->
  match list_run [] os with
  | Ok ps => exists h, hist_run newSentPacketHistory os = Ok h
      /\ (forall pn, history_GetPacket h pn = find_pn ps pn)
      /\ history_FirstOutstanding h = first_outstanding ps
      /\ HasOutstandingPackets h = existsb canBeRetransmitted ps
      /\ HasOutstandingHandshakePackets h
         = existsb (fun p => canBeRetransmitted p && isHandshake p) ps
      /\ history_Len h = len ps
  | Err e => hist_run newSentPacketHistory os = Err e
  | Panic _ => False
  end.
Proof.
  intros Hok. assert (H := hist_run_refines os newSentPacketHistory new_hist_inv Hok).
  change (packets newSentPacketHistory) with (@nil Packet) in H.
  destruct (list_run [] os) as [ps | |]; [| done | done]. destruct H as (h & Hrun & Hinv & <-).
  exists h. split; [done |]. unfold HasOutstandingPackets, HasOutstandingHandshakePackets.
  rewrite (inv_outstanding _ Hinv), (inv_handshake _ Hinv), !count_existsb.
  split_and!; try done; [by intros; apply GetPacket_find | by apply FirstOutstanding_refines | by apply Len_refines].
Qed.

(** Three packets, of which the first is retransmitted as a fourth and removed. *)
Definition sample_packet (pn : Z) (level : EncryptionLevel) : Packet :=
  mkPacket pn 0 [Ping] 1200 level (pn * 1000000) 0 true true [] false 0.

Definition hist_example : list hist_op :=
  [HSent (sample_packet 1 EncryptionHandshake); HSent (sample_packet 2 Encryption1RTT);
   HSent (sample_packet 4 Encryption1RTT); HMark 1;
   HRetransmission [sample_packet 5 EncryptionHandshake] 1; HRemove 2].

Lemma sent_history_refines_witness :
  exists h, hist_run newSentPacketHistory hist_example = Ok h /\ history_Len h = 3
    /\ history_FirstOutstanding h = Some (sample_packet 4 Encryption1RTT).
Proof.
  assert (Hok : hist_ops_ok [] hist_example).
  { cbn. unfold hist_op_ok, pn_lt. cbn. repeat (split || constructor); cbn; lia. }
  assert (H := sent_history_refines hist_example Hok).
  change (list_run [] hist_example) with (Ok [
    set_retransmittedAs (clear_canBeRetransmitted (sample_packet 1 EncryptionHandshake)) [5];
    sample_packet 4 Encryption1RTT;
    set_retransmissionOf (sample_packet 5 EncryptionHandshake) 1]) in H.
  destruct H as (h & Hrun & _ & Hfirst & _ & _ & Hlen). by exists h.
Defined.
