(* ===== verification/LinkedSent.v ===== *)
(** * The history of sent packets on a linked list
      (internal/ackhandler/sent_packet_history.go and packet_linkedlist.go)

    The methods with their pointers: the map and the first outstanding packet are
    pointers to elements of a list, and packets are updated through them.  They
    implement the history of SentHistory, and with it the list of the packets. *)

From Stdlib Require Import Sorting.Sorted.
From S2P Require Import Prelude Protocol SentHistory LinkedList.

(** internal/ackhandler/packet_linkedlist.go *)
Definition zero_packet : Packet :=
  mkPacket 0 0 [] 0 EncryptionUnspecified 0 0 false false [] false 0.
Definition PacketList : list_operations Packet := ItemList_operations zero_packet.

Abbreviation sprog := (@prog Packet).

Record linkedSentHistory : Type := mkLinkedSent {
  lp_packetList : nat; lp_packetMap : gmap Z loc;
  lp_numOutstanding : Z; lp_numOutstandingHandshake : Z; lp_firstOutstanding : option loc }.

Definition lift_outcome {A} (o : outcome A) : sprog A := fun h => a ← o; Ok (a, h).
Definition sent_out_of_fuel {A} : sprog A := fun _ => Panic "out of fuel".

Definition linked_newSentPacketHistory : sprog linkedSentHistory :=
  l ← lo_New PacketList; mret (mkLinkedSent l ∅ 0 0 None).

Definition linked_sentPacketImpl (s : linkedSentHistory) (p : Packet) : sprog (loc * linkedSentHistory) :=
  el ← lo_PushBack PacketList (lp_packetList s) p;
  mret (el, mkLinkedSent (lp_packetList s) (<[PacketNumber p := el]> (lp_packetMap s))
    (if canBeRetransmitted p then lp_numOutstanding s + 1 else lp_numOutstanding s)
    (if canBeRetransmitted p && isHandshake p then lp_numOutstandingHandshake s + 1
     else lp_numOutstandingHandshake s)
    (match lp_firstOutstanding s with None => Some el | Some e => Some e end)).

Fixpoint linked_sentPackets (s : linkedSentHistory) (packets : list Packet) : sprog linkedSentHistory :=
  match packets with
  | [] => mret s
  | p :: packets => '(_, s) ← linked_sentPacketImpl s p; linked_sentPackets s packets
  end.

(** [e.Value.f = x], as an update of the value. *)
Definition modify_value (e : loc) (f : Packet -> Packet) : sprog unit :=
  modify e (fun el => set_Value (f (LinkedList.el_Value el)) el).

(** The loop over the packets of a retransmission; [i] is the index of the next. *)
Fixpoint linked_retransmissions (s : linkedSentHistory) (retransmission : loc) (rof : Z) (i : nat)
    (packets : list Packet) : sprog linkedSentHistory :=
  match packets with
  | [] => mret s
  | p :: packets =>
      modify_value retransmission (fun v => set_retransmittedAs v (<[i := PacketNumber p]> (retransmittedAs v)));;
      '(el, s) ← linked_sentPacketImpl s p;
      modify_value el (fun v => set_retransmissionOf v rof);;
      linked_retransmissions s retransmission rof (S i) packets
  end.

Definition linked_SentPacketsAsRetransmission (s : linkedSentHistory) (packets : list Packet) (rof : Z)
    : sprog linkedSentHistory :=
  match lp_packetMap s !! rof with
  | None => linked_sentPackets s packets
  | Some retransmission =>
      modify_value retransmission (fun v => set_retransmittedAs v (replicate (length packets) 0));;
      linked_retransmissions s retransmission rof 0 packets
  end.

Definition linked_GetPacket (s : linkedSentHistory) (pn : Z) : sprog (option Packet) :=
  match lp_packetMap s !! pn with
  | Some el => e ← get el; mret (Some (LinkedList.el_Value e))
  | None => mret None
  end.

Fixpoint linked_iterate {S} (fuel : nat) (cb : S -> Packet -> outcome (bool * S)) (el : option loc) (x : S) : sprog S :=
  match el with
  | None => mret x
  | Some el =>
      match fuel with
      | O => sent_out_of_fuel
      | Datatypes.S fuel =>
          e ← get el;
          '(cont, x) ← lift_outcome (cb x (LinkedList.el_Value e));
          if (cont : bool) then next ← lo_Next PacketList el; linked_iterate fuel cb next x else mret x
      end
  end.

(** The length of the list bounds the iterations. *)
Definition linked_Iterate {S} (s : linkedSentHistory) (cb : S -> Packet -> outcome (bool * S)) (x : S) : sprog S :=
  n ← lo_Len PacketList (lp_packetList s);
  front ← lo_Front PacketList (lp_packetList s);
  linked_iterate (Z.to_nat n) cb front x.

Definition linked_FirstOutstanding (s : linkedSentHistory) : sprog (option Packet) :=
  match lp_firstOutstanding s with
  | None => mret None
  | Some el => e ← get el; mret (Some (LinkedList.el_Value e))
  end.

Fixpoint linked_next_retransmittable (fuel : nat) (el : option loc) : sprog (option loc) :=
  match el with
  | None => mret None
  | Some el =>
      match fuel with
      | O => sent_out_of_fuel
      | S fuel =>
          e ← get el;
          if canBeRetransmitted (LinkedList.el_Value e) then mret (Some el)
          else next ← lo_Next PacketList el; linked_next_retransmittable fuel next
      end
  end.

Definition set_first (s : linkedSentHistory) (el : option loc) : linkedSentHistory :=
  mkLinkedSent (lp_packetList s) (lp_packetMap s) (lp_numOutstanding s) (lp_numOutstandingHandshake s) el.

Definition linked_readjustFirstOutstanding (s : linkedSentHistory) : sprog linkedSentHistory :=
  n ← lo_Len PacketList (lp_packetList s);
  first ← deref (lp_firstOutstanding s);
  next ← lo_Next PacketList first;
  el ← linked_next_retransmittable (Z.to_nat n) next;
  mret (set_first s el).

(** The counters without one retransmittable packet. *)
Definition linked_decrease (s : linkedSentHistory) (p : Packet) : outcome (Z * Z) :=
  if canBeRetransmitted p then
    let n := lp_numOutstanding s - 1 in
    if n <? 0 then Panic "numOutstandingHandshakePackets negative" else
    if isHandshake p then
      let m := lp_numOutstandingHandshake s - 1 in
      if m <? 0 then Panic "numOutstandingHandshakePackets negative" else Ok (n, m)
    else Ok (n, lp_numOutstandingHandshake s)
  else Ok (lp_numOutstanding s, lp_numOutstandingHandshake s).

Definition linked_MarkCannotBeRetransmitted (s : linkedSentHistory) (pn : Z) : sprog linkedSentHistory :=
  match lp_packetMap s !! pn with
  | None => fun _ => Err (Errorf "sent packet history: packet %d not found" [pn])
  | Some el =>
      e ← get el;
      '(n, m) ← lift_outcome (linked_decrease s (LinkedList.el_Value e));
      modify_value el clear_canBeRetransmitted;;
      let s := mkLinkedSent (lp_packetList s) (lp_packetMap s) n m (lp_firstOutstanding s) in
      if bool_decide (lp_firstOutstanding s = Some el) then linked_readjustFirstOutstanding s else mret s
  end.

Definition linked_Remove (s : linkedSentHistory) (pn : Z) : sprog linkedSentHistory :=
  match lp_packetMap s !! pn with
  | None => fun _ => Err (Errorf "packet %d not found in sent packet history" [pn])
  | Some el =>
      s ← (if bool_decide (lp_firstOutstanding s = Some el) then linked_readjustFirstOutstanding s else mret s);
      e ← get el;
      '(n, m) ← lift_outcome (linked_decrease s (LinkedList.el_Value e));
      lo_Remove PacketList (lp_packetList s) el;;
      mret (mkLinkedSent (lp_packetList s) (delete pn (lp_packetMap s)) n m (lp_firstOutstanding s))
  end.

(** ** Refinement *)

Ltac sent_ops := cbn [lo_New lo_Len lo_Front lo_Next lo_Remove lo_PushBack PacketList ItemList_operations].

(** The history with its pointers, in a heap, and the history of SentHistory. *)
Definition sent_repr (hp : heap Packet) (s : linkedSentHistory) (h : sentPacketHistory) : Prop :=
  exists a, repr hp a /\ seqs a !! lp_packetList s = Some (packetList h).*1 /\
    holds a (packetList h).*1 (packetList h).*2 /\ length (values a) = nextElement h /\
    lp_packetMap s = Node <$> packetMap h /\ lp_numOutstanding s = numOutstandingPackets h /\
    lp_numOutstandingHandshake s = numOutstandingHandshakePackets h /\
    lp_firstOutstanding s = Node <$> firstOutstanding h.

Lemma impl_refines hp s h p : sent_repr hp s h ->
  exists hp' s', linked_sentPacketImpl s p hp = Ok ((Node (nextElement h), s'), hp') /\
    sent_repr hp' s' (history_sentPacketImpl h p).
Proof.
  intros (a & Hr & Hl & Hv & Hn & Hm & Ho & Hh & Hf).
  destruct (PushBack_spec hp a _ _ p Hr Hl) as (hp' & Hpush & Hr'). rewrite Hn in Hpush, Hr'.
  unfold linked_sentPacketImpl. sent_ops. rewrite (prog_bind_step _ _ _ _ _ Hpush).
  exists hp'. eexists. split; [done |]. eexists. split; [done |]. unfold history_sentPacketImpl.
  cbn [packetList packetMap numOutstandingPackets numOutstandingHandshakePackets firstOutstanding nextElement
    lp_packetList lp_packetMap lp_numOutstanding lp_numOutstandingHandshake lp_firstOutstanding].
  rewrite !fmap_app. split_and!.
  - rewrite seqs_with_seq by eauto. by rewrite decide_True.
  - apply (holds_seqs (add_value a p)); [done |]. apply Forall2_app; [by apply holds_add |].
    rewrite <- Hn. apply holds_new.
  - cbn. rewrite length_app, Hn. cbn. lia.
  - rewrite Hm. by rewrite fmap_insert.
  - by rewrite Ho.
  - by rewrite Hh.
  - rewrite Hf. by destruct (firstOutstanding h).
Qed.

Lemma sentPackets_refine ps : forall hp s h, sent_repr hp s h ->
  exists hp' s', linked_sentPackets s ps hp = Ok (s', hp') /\ sent_repr hp' s' (foldl history_sentPacketImpl h ps).
Proof.
  induction ps as [| p ps IH]; intros hp s h Hrep; [by exists hp, s |]. cbn [linked_sentPackets foldl].
  destruct (impl_refines hp s h p Hrep) as (hp1 & s1 & Hrun & Hrep1). rewrite (prog_bind_step _ _ _ _ _ Hrun).
  by apply IH.
Qed.

(** An element of the list, by its place. *)
Lemma fst_split (l1 l2 : list PacketElement) id p : (l1 ++ (id, p) :: l2).*1 = l1.*1 ++ id :: l2.*1.
Proof. by rewrite fmap_app. Qed.

Lemma holds_split a (l1 l2 : list PacketElement) id p :
  holds a (l1 ++ (id, p) :: l2).*1 (l1 ++ (id, p) :: l2).*2 <->
  holds a l1.*1 l1.*2 /\ values a !! id = Some p /\ holds a l2.*1 l2.*2.
Proof.
  rewrite !fmap_app. split.
  - intros [Hv1 [Hp Hv2]%holds_cons]%Forall2_app_inv; [done | by rewrite !length_fmap].
  - intros (Hv1 & Hp & Hv2). apply Forall2_app; [done | by constructor].
Qed.

Lemma sent_place hp s h l1 id p l2 : sent_repr hp s h -> packetList h = l1 ++ (id, p) :: l2 ->
  exists a, repr hp a /\ seqs a !! lp_packetList s = Some (l1.*1 ++ id :: l2.*1) /\
    holds a l1.*1 l1.*2 /\ values a !! id = Some p /\ holds a l2.*1 l2.*2 /\ (id ∉ l1.*1) /\ (id ∉ l2.*1).
Proof.
  intros (a & Hr & Hl & Hv & _) El. rewrite El in Hl, Hv. rewrite fst_split in Hl. apply holds_split in Hv as (Hv1 & Hp & Hv2).
  exists a. destruct (place_distinct _ _ _ _ _ _ Hr Hl). by split_and!.
Qed.

Lemma store_at_refines hp s h f l1 id p l2 : sent_repr hp s h -> packetList h = l1 ++ (id, p) :: l2 ->
  exists hp', modify_value (Node id) f hp = Ok (tt, hp') /\ sent_repr hp' s (history_store h id (f p)).
Proof.
  intros Hrep El. destruct (sent_place _ _ _ _ _ _ _ Hrep El) as (a0 & Hr0 & Hl0 & _ & _ & _ & Hd1 & Hd2).
  destruct Hrep as (a & Hr & Hl & Hv & Hn & Hrest).
  rewrite El in Hl, Hv. apply holds_split in Hv as (Hv1 & Hp & Hv2).
  assert (Hlt : (id < length (values a))%nat) by by eapply lookup_lt_Some.
  destruct (repr_node hp a id Hr Hlt) as (el & Hel & Hval). rewrite Hp in Hval. injection Hval as ->.
  destruct (set_Value_spec hp a id (f (LinkedList.el_Value el)) Hr Hlt) as (hp' & Hset & Hr').
  exists hp'. split.
  - rewrite <- Hset. unfold modify_value, modify. rewrite Hel. f_equal. f_equal. unfold upd. f_equal.
    apply list_eq. intros i. rewrite !list_lookup_alter. case_decide; [| done]. subst. cbn in Hel. by rewrite Hel.
  - eexists. split; [done |]. unfold history_store; cbn [packetList packetMap nextElement seqs values
      numOutstandingPackets numOutstandingHandshakePackets firstOutstanding].
    rewrite El, el_set_split, holds_split by done. rewrite fst_split in Hl |- *.
    split_and!; try apply Hrest; [done | by apply holds_set | | by apply holds_set | by rewrite length_insert].
    cbn. by apply list_lookup_insert_eq.
Qed.

(** Storing and sending commute. *)
Lemma store_impl h p id x l1 y l2 : packetList h = l1 ++ (id, y) :: l2 -> id ∉ l1.*1 ->
  history_sentPacketImpl (history_store h id x) p = history_store (history_sentPacketImpl h p) id x.
Proof.
  intros El Hid. unfold history_sentPacketImpl, history_store; cbn. f_equal. rewrite El, <- app_assoc. cbn.
  rewrite !el_set_split by done. by rewrite <- app_assoc.
Qed.

Lemma store_new h p f : (forall id, id ∈ (packetList h).*1 -> id <> nextElement h) ->
  PacketNumber (f p) = PacketNumber p -> canBeRetransmitted (f p) = canBeRetransmitted p ->
  isHandshake (f p) = isHandshake p ->
  history_store (history_sentPacketImpl h p) (nextElement h) (f p) = history_sentPacketImpl h (f p).
Proof.
  intros Hfresh Hpn Hc Hh. unfold history_sentPacketImpl, history_store; cbn. rewrite Hpn, Hc, Hh. f_equal.
  apply el_set_split. intros Hin. by eapply Hfresh.
Qed.

Lemma sent_fresh hp s h id : sent_repr hp s h -> id ∈ (packetList h).*1 -> id <> nextElement h.
Proof.
  intros (a & Hr & Hl & _ & Hn & _) Hin ->. assert (Hlt := repr_valid _ _ _ _ _ Hr Hl Hin). lia.
Qed.

Lemma retransmissions_refine rof id v packets : forall pre hp s h l1 y l2, packetList h = l1 ++ (id, y) :: l2 ->
  id ∉ l1.*1 ->
  sent_repr hp s (history_store h id (set_retransmittedAs v (pre ++ replicate (length packets) 0))) ->
  exists hp' s', linked_retransmissions s (Node id) rof (length pre) packets hp = Ok (s', hp') /\
    sent_repr hp' s' (foldl (fun h p => history_sentPacketImpl h (set_retransmissionOf p rof))
      (history_store h id (set_retransmittedAs v (pre ++ (PacketNumber <$> packets)))) packets).
Proof.
  induction packets as [| p packets IH]; intros pre hp s h l1 y l2 El Hid Hrep; [by exists hp, s |].
  cbn [linked_retransmissions foldl].
  set (x := set_retransmittedAs v (pre ++ replicate (length (p :: packets)) 0)) in *.
  assert (Ex : packetList (history_store h id x) = l1 ++ (id, x) :: l2)
    by (cbn; rewrite El; by apply el_set_split).
  set (f := fun v : Packet => set_retransmittedAs v (<[length pre := PacketNumber p]> (retransmittedAs v))).
  destruct (store_at_refines hp s _ f _ _ _ _ Hrep Ex) as (hp1 & Hset & Hrep1).
  rewrite (prog_bind_step_unit _ _ _ _ Hset).
  assert (Hfx : f x = set_retransmittedAs v (pre ++ PacketNumber p :: replicate (length packets) 0)).
  { unfold f, x, set_retransmittedAs. cbn. f_equal. rewrite insert_app_r_alt by lia. by rewrite Nat.sub_diag. }
  assert (Hst : history_store (history_store h id x) id (f x) = history_store h id (f x)).
  { unfold history_store at 1. rewrite Ex, el_set_split by done. unfold history_store. f_equal.
    rewrite El. by rewrite el_set_split. }
  rewrite Hst in Hrep1.
  destruct (impl_refines hp1 s _ p Hrep1) as (hp2 & s2 & Himpl & Hrep2). rewrite (prog_bind_step _ _ _ _ _ Himpl).
  assert (Enew : packetList (history_sentPacketImpl (history_store h id (f x)) p) =
    packetList (history_store h id (f x)) ++ (nextElement (history_store h id (f x)), p) :: []) by done.
  destruct (store_at_refines hp2 s2 _ (fun v => set_retransmissionOf v rof) _ _ _ _ Hrep2 Enew) as (hp3 & Hset3 & Hrep3).
  rewrite (prog_bind_step_unit _ _ _ _ Hset3).
  rewrite (store_new (history_store h id (f x)) p (fun v => set_retransmissionOf v rof)) in Hrep3
    by (try done; intros; by eapply sent_fresh).
  rewrite (store_impl h _ id (f x) l1 y l2 El Hid), Hfx in Hrep3.
  destruct (IH (pre ++ [PacketNumber p]) hp3 s2 (history_sentPacketImpl h (set_retransmissionOf p rof)) l1 y
    (l2 ++ [(nextElement h, set_retransmissionOf p rof)])) as (hp4 & s4 & Hloop & Hrep4); [| done | |].
  { cbn. by rewrite El, <- app_assoc. }
  { by rewrite <- app_assoc. }
  exists hp4, s4. rewrite length_app, Nat.add_1_r in Hloop. split; [done |].
  rewrite <- app_assoc, <- (store_impl h _ id _ l1 y l2 El Hid) in Hrep4. done.
Qed.

Lemma AsRetransmission_refines hp s h packets rof : sent_repr hp s h -> hist_inv h ->
  exists hp' s', linked_SentPacketsAsRetransmission s packets rof hp = Ok (s', hp') /\
    sent_repr hp' s' (history_SentPacketsAsRetransmission h packets rof).
Proof.
  intros Hrep Hinv. assert (Hm : lp_packetMap s = Node <$> packetMap h) by (destruct Hrep as (a & H); apply H).
  unfold linked_SentPacketsAsRetransmission, history_SentPacketsAsRetransmission. rewrite Hm, lookup_fmap.
  destruct (packetMap h !! rof) as [id |] eqn:Hid; [| by apply sentPackets_refine].
  destruct (hist_split h rof id Hinv Hid) as (l1 & p & l2 & El & _ & Hd & _). cbn [fmap option_fmap option_map].
  rewrite El, el_Value_split by done.
  destruct (store_at_refines hp s h (fun v => set_retransmittedAs v (replicate (length packets) 0)) l1 id p l2 Hrep El)
    as (hp1 & Hset & Hrep1). rewrite (prog_bind_step_unit _ _ _ _ Hset).
  by apply (retransmissions_refine rof id p packets [] hp1 s h l1 p l2).
Qed.

Lemma next_refines hp a l l2 : forall fuel xs, repr hp a -> seqs a !! l = Some (xs ++ l2.*1) ->
  holds a l2.*1 l2.*2 -> (length l2 <= fuel)%nat ->
  linked_next_retransmittable fuel (Node <$> head l2.*1) hp = Ok (Node <$> next_retransmittable l2, hp).
Proof.
  induction l2 as [| [i p] l2 IH]; intros fuel xs Hr Hl Hv Hfuel; [by destruct fuel |].
  destruct fuel as [| fuel]; [cbn in Hfuel; lia |]. apply holds_cons in Hv as [Hp Hv]. cbn in Hp.
  destruct (place_get _ _ _ _ _ _ _ Hr Hl Hp) as (el & Hel & Hval).
  cbn [fmap list_fmap head fst option_fmap option_map linked_next_retransmittable next_retransmittable].
  rewrite (get_step _ _ _ _ Hel), Hval. destruct (canBeRetransmitted p); [done |]. sent_ops.
  rewrite (prog_bind_step _ _ _ _ _ (Next_spec _ _ _ _ _ _ Hr Hl)).
  apply (IH fuel (xs ++ [i])); [done | by rewrite <- app_assoc | exact Hv | cbn in Hfuel; lia].
Qed.

Lemma sent_Len hp s h : sent_repr hp s h -> ItemList_Len (lp_packetList s) hp = Ok (len (packetList h), hp).
Proof.
  intros (a & Hr & Hl & _). rewrite (Len_spec _ _ _ _ Hr Hl). unfold len. by rewrite length_fmap.
Qed.

Lemma readjust_refines hp s h l1 id p l2 : sent_repr hp s h -> packetList h = l1 ++ (id, p) :: l2 ->
  firstOutstanding h = Some id ->
  exists s', linked_readjustFirstOutstanding s hp = Ok (s', hp) /\ sent_repr hp s' (readjustFirstOutstanding h).
Proof.
  intros Hrep El Hfirst. destruct (sent_place _ _ _ _ _ _ _ Hrep El) as (a & Hr & Hl & _ & _ & Hv2 & Hd & _).
  unfold linked_readjustFirstOutstanding. sent_ops. rewrite (prog_bind_step _ _ _ _ _ (sent_Len _ _ _ Hrep)).
  assert (Hf : lp_firstOutstanding s = Some (Node id)).
  { destruct Hrep as (? & _ & _ & _ & _ & _ & _ & _ & ->). by rewrite Hfirst. }
  rewrite Hf, deref_step, (prog_bind_step _ _ _ _ _ (Next_spec _ _ _ _ _ _ Hr Hl)).
  rewrite (prog_bind_step _ _ hp (Node <$> next_retransmittable l2) hp).
  - eexists. split; [done |]. destruct Hrep as (b & ? & ? & ? & ? & ? & ? & ? & _). exists b.
    unfold readjustFirstOutstanding, set_first. cbn. rewrite Hfirst. cbn. rewrite El, el_after_split in * by done.
    by split_and!.
  - eapply (next_refines _ _ _ _ _ (l1.*1 ++ [id])); [done | by rewrite <- app_assoc | done |].
    rewrite El. unfold len. rewrite length_app, Nat2Z.id. cbn. lia.
Qed.

Lemma decrease_refines hp s h p : sent_repr hp s h -> linked_decrease s p = decrease_outstanding h p.
Proof.
  intros (a & _ & _ & _ & _ & _ & Ho & Hh & _). unfold linked_decrease, decrease_outstanding. by rewrite Ho, Hh.
Qed.

Lemma lift_step {A B} (o : outcome A) (k : A -> sprog B) hp :
  (lift_outcome o ≫= k) hp = (x ← o; k x hp).
Proof. unfold mbind, prog_bind, lift_outcome. by destruct o. Qed.

(** A result of the history with pointers, for one of the history. *)
Definition sent_implements (hp : heap Packet) (m : sprog linkedSentHistory) (r : outcome sentPacketHistory) : Prop :=
  match r with
  | Ok h => exists hp' s', m hp = Ok (s', hp') /\ sent_repr hp' s' h
  | Err e => m hp = Err e
  | Panic w => m hp = Panic w
  end.

Lemma first_is hp s h id : sent_repr hp s h ->
  bool_decide (lp_firstOutstanding s = Some (Node id)) = bool_decide (firstOutstanding h = Some id).
Proof.
  intros (a & _ & _ & _ & _ & _ & _ & _ & ->). apply bool_decide_ext.
  destruct (firstOutstanding h); cbn; naive_solver.
Qed.

Lemma MarkCannotBeRetransmitted_refines hp s h pn : sent_repr hp s h -> hist_inv h ->
  sent_implements hp (linked_MarkCannotBeRetransmitted s pn) (MarkCannotBeRetransmitted h pn).
Proof.
  intros Hrep Hinv. assert (Hm : lp_packetMap s = Node <$> packetMap h) by (destruct Hrep as (a & H); apply H).
  unfold linked_MarkCannotBeRetransmitted, MarkCannotBeRetransmitted. rewrite Hm, lookup_fmap.
  destruct (packetMap h !! pn) as [id |] eqn:Hid; [| done]. cbn [fmap option_fmap option_map].
  destruct (hist_split h pn id Hinv Hid) as (l1 & p & l2 & El & _ & Hd & _).
  destruct (sent_place _ _ _ _ _ _ _ Hrep El) as (a & Hr & Hl & _ & Hp & _).
  destruct (place_get _ _ _ _ _ _ _ Hr Hl Hp) as (el & Hel & Hval).
  rewrite El, el_Value_split by done. unfold sent_implements. rewrite (get_step _ _ _ _ Hel), Hval, lift_step.
  rewrite (decrease_refines _ _ _ p Hrep). destruct (decrease_outstanding h p) as [[n m] | |]; [| done | done].
  cbn [mbind outcome_bind].
  set (s1 := mkLinkedSent (lp_packetList s) (Node <$> packetMap h) n m (lp_firstOutstanding s)).
  set (h1 := mkHistory (packetList h) (packetMap h) n m (firstOutstanding h) (nextElement h)).
  assert (Hrep1 : sent_repr hp s1 h1).
  { destruct Hrep as (b & ? & ? & ? & ? & ? & ? & ? & ?). exists b. by split_and!. }
  destruct (store_at_refines hp s1 h1 clear_canBeRetransmitted l1 id p l2 Hrep1 El) as (hp2 & Hset & Hrep2).
  rewrite (prog_bind_step_unit _ _ _ _ Hset). rewrite (first_is _ _ _ id Hrep2).
  unfold history_store in Hrep2. cbn in Hrep2. rewrite El in Hrep2. rewrite el_set_split in Hrep2 |- * by done.
  cbn [firstOutstanding history_store h1]. case_bool_decide as Hfirst; [| by exists hp2, s1].
  destruct (readjust_refines hp2 s1 _ l1 id (clear_canBeRetransmitted p) l2 Hrep2 eq_refl Hfirst) as (s2 & Hadj & Hrep3).
  by exists hp2, s2.
Qed.

Lemma linked_Remove_refines hp s h pn : sent_repr hp s h -> hist_inv h ->
  sent_implements hp (linked_Remove s pn) (history_Remove h pn).
Proof.
  intros Hrep Hinv. assert (Hm : lp_packetMap s = Node <$> packetMap h) by (destruct Hrep as (a & H); apply H).
  unfold linked_Remove, history_Remove. rewrite Hm, lookup_fmap.
  destruct (packetMap h !! pn) as [id |] eqn:Hid; [| done]. cbn [fmap option_fmap option_map].
  destruct (hist_split h pn id Hinv Hid) as (l1 & p & l2 & El & _ & Hd & _). rewrite El, el_Value_split by done.
  rewrite (first_is _ _ _ id Hrep). set (h1 := if bool_decide (firstOutstanding h = Some id) then _ else h).
  assert (exists s1, (if bool_decide (firstOutstanding h = Some id) then linked_readjustFirstOutstanding s else mret s) hp
    = Ok (s1, hp) /\ sent_repr hp s1 h1) as (s1 & Hadj & Hrep1).
  { unfold h1. case_bool_decide as Hfirst; [by eapply readjust_refines | by exists s]. }
  assert (El1 : packetList h1 = l1 ++ (id, p) :: l2) by (unfold h1; by destruct (bool_decide _)).
  assert (Hdec := decrease_refines _ _ _ p Hrep1).
  destruct Hrep1 as (a & Hr & Hl & Hv & Hn & Hm1 & Ho & Hh & Hf).
  rewrite El1 in Hl, Hv. rewrite fst_split in Hl. apply holds_split in Hv as (Hv1 & Hp & Hv2).
  destruct (place_get _ _ _ _ _ _ _ Hr Hl Hp) as (el & Hel & Hval).
  unfold sent_implements. rewrite (prog_bind_step _ _ _ _ _ Hadj), (get_step _ _ _ _ Hel), Hval, lift_step, Hdec.
  destruct (decrease_outstanding h1 p) as [[n m] | |]; [| done | done].
  cbn [mbind outcome_bind]. rewrite El1, el_Remove_split by done. sent_ops.
  destruct (Remove_in _ _ _ _ _ _ Hr Hl) as (hp2 & v & Hrem & _ & Hr2). rewrite (prog_bind_step _ _ _ _ _ Hrem).
  exists hp2. eexists. split; [done |]. eexists. split; [done |].
  cbn [packetList packetMap numOutstandingPackets numOutstandingHandshakePackets firstOutstanding nextElement
    lp_packetList lp_packetMap lp_numOutstanding lp_numOutstandingHandshake lp_firstOutstanding].
  rewrite !fmap_app. split_and!; try done.
  - rewrite seqs_with_seq by eauto. by rewrite decide_True.
  - apply (holds_seqs a); [done |]. by apply Forall2_app.
  - by rewrite Hm1, fmap_delete.
Qed.

(** ** Reading *)

Lemma linked_GetPacket_refines hp s h pn : sent_repr hp s h -> hist_inv h ->
  linked_GetPacket s pn hp = Ok (history_GetPacket h pn, hp).
Proof.
  intros Hrep Hinv. assert (Hm : lp_packetMap s = Node <$> packetMap h) by (destruct Hrep as (a & H); apply H).
  unfold linked_GetPacket, history_GetPacket. rewrite Hm, lookup_fmap.
  destruct (packetMap h !! pn) as [id |] eqn:Hid; [| done]. cbn.
  destruct (hist_split h pn id Hinv Hid) as (l1 & p & l2 & El & _ & Hd & _). rewrite El, el_Value_split by done.
  destruct (sent_place _ _ _ _ _ _ _ Hrep El) as (a & Hr & Hl & _ & Hp & _).
  destruct (place_get _ _ _ _ _ _ _ Hr Hl Hp) as (el & Hel & Hval). by rewrite (get_step _ _ _ _ Hel), Hval.
Qed.

Lemma linked_FirstOutstanding_refines hp s h : sent_repr hp s h -> hist_inv h ->
  linked_FirstOutstanding s hp = Ok (history_FirstOutstanding h, hp).
Proof.
  intros Hrep Hinv. unfold linked_FirstOutstanding, history_FirstOutstanding.
  assert (Hf : lp_firstOutstanding s = Node <$> firstOutstanding h) by (destruct Hrep as (a & H); apply H).
  rewrite Hf. destruct (firstOutstanding h) as [id |] eqn:Hid; [| done]. cbn.
  rewrite (inv_first _ Hinv) in Hid. apply next_retransmittable_in in Hid.
  apply list_elem_of_fmap in Hid as ([id' p] & -> & (l1 & l2 & El)%list_elem_of_split). cbn.
  destruct (sent_place _ _ _ _ _ _ _ Hrep El) as (a & Hr & Hl & _ & Hp & _ & Hd & _).
  destruct (place_get _ _ _ _ _ _ _ Hr Hl Hp) as (el & Hel & Hval).
  by rewrite El, el_Value_split, (get_step _ _ _ _ Hel), Hval.
Qed.

Lemma iterate_refines {S} (cb : S -> Packet -> outcome (bool * S)) hp a l l2 : forall fuel xs x, repr hp a ->
  seqs a !! l = Some (xs ++ l2.*1) -> holds a l2.*1 l2.*2 -> (length l2 <= fuel)%nat ->
  linked_iterate fuel cb (Node <$> head l2.*1) x hp = (y ← iterate cb l2 x; Ok (y, hp)).
Proof.
  induction l2 as [| [i p] l2 IH]; intros fuel xs x Hr Hl Hv Hfuel; [by destruct fuel |].
  destruct fuel as [| fuel]; [cbn in Hfuel; lia |]. apply holds_cons in Hv as [Hp Hv]. cbn in Hp.
  destruct (place_get _ _ _ _ _ _ _ Hr Hl Hp) as (el & Hel & Hval).
  cbn [fmap list_fmap head fst option_fmap option_map linked_iterate iterate].
  rewrite (get_step _ _ _ _ Hel), Hval, lift_step. destruct (cb x p) as [[[] y] | |]; try done.
  cbn [mbind outcome_bind]. sent_ops. rewrite (prog_bind_step _ _ _ _ _ (Next_spec _ _ _ _ _ _ Hr Hl)).
  apply (IH fuel (xs ++ [i])); [done | by rewrite <- app_assoc | exact Hv | cbn in Hfuel; lia].
Qed.

Lemma linked_Iterate_refines {S} hp s h (cb : S -> Packet -> outcome (bool * S)) x : sent_repr hp s h ->
  linked_Iterate s cb x hp = (y ← history_Iterate h cb x; Ok (y, hp)).
Proof.
  intros Hrep. unfold linked_Iterate. sent_ops. rewrite (prog_bind_step _ _ _ _ _ (sent_Len _ _ _ Hrep)).
  destruct Hrep as (a & Hr & Hl & Hv & _). rewrite (prog_bind_step _ _ _ _ _ (Front_spec _ _ _ _ Hr Hl)).
  apply (iterate_refines cb hp a (lp_packetList s) (packetList h) _ []); try done. unfold len. by rewrite Nat2Z.id.
Qed.

(** ** Sequences of calls *)

Definition linked_hist_step (s : linkedSentHistory) (o : hist_op) : sprog linkedSentHistory :=
  match o with
  | HSent p => '(_, s) ← linked_sentPacketImpl s p; mret s
  | HRetransmission new rof => linked_SentPacketsAsRetransmission s new rof
  | HMark pn => linked_MarkCannotBeRetransmitted s pn
  | HRemove pn => linked_Remove s pn
  end.

Fixpoint linked_hist_run (s : linkedSentHistory) (os : list hist_op) : sprog linkedSentHistory :=
  match os with
  | [] => mret s
  | o :: os => s ← linked_hist_step s o; linked_hist_run s os
  end.

Lemma linked_step_refines hp s h o : sent_repr hp s h -> hist_inv h ->
  sent_implements hp (linked_hist_step s o) (hist_step h o).
Proof.
  intros Hrep Hinv. destruct o as [p | new rof | pn | pn]; cbn [linked_hist_step hist_step].
  - destruct (impl_refines hp s h p Hrep) as (hp1 & s1 & Hrun & Hrep1). exists hp1, s1.
    by rewrite (prog_bind_step _ _ _ _ _ Hrun).
  - by apply AsRetransmission_refines.
  - by apply MarkCannotBeRetransmitted_refines.
  - by apply linked_Remove_refines.
Qed.

(** Against the list of the packets. *)
Lemma linked_run_refines os : forall hp s h, sent_repr hp s h -> hist_inv h -> hist_ops_ok (packets h) os ->
  match list_run (packets h) os with
  | Ok ps => exists hp' s' h', linked_hist_run s os hp = Ok (s', hp') /\ sent_repr hp' s' h' /\ hist_inv h' /\
      packets h' = ps
  | Err e => linked_hist_run s os hp = Err e
  | Panic _ => False
  end.
Proof.
  induction os as [| o os IH]; intros hp s h Hrep Hinv; cbn [hist_ops_ok list_run linked_hist_run].
  { intros _. by exists hp, s, h. }
  intros [Ho Hos]. assert (H := hist_step_refines h o Hinv Ho). assert (Hl := linked_step_refines hp s h o Hrep Hinv).
  destruct (list_step (packets h) o) as [ps | e | w]; [| | done].
  - destruct H as (h' & Hstep & Hinv' & <-). rewrite Hstep in Hl. destruct Hl as (hp1 & s1 & Hrun & Hrep1).
    rewrite !(prog_bind_step _ _ _ _ _ Hrun). by apply IH.
  - rewrite H in Hl. cbn in Hl. unfold mbind, prog_bind. cbn. by rewrite Hl.
Qed.

(** All packets, in the order of the loop. *)
Definition collect (ps : list Packet) (p : Packet) : outcome (bool * list Packet) := Ok (true, ps ++ [p]).

Lemma iterate_collect l : forall ps, iterate collect l ps = Ok (ps ++ l.*2).
Proof.
  induction l as [| [i p] l IH]; intros ps; [by rewrite app_nil_r |]. cbn. rewrite IH. by rewrite <- app_assoc.
Qed.

(** C19. The history of sent packets with its pointers is the list of the packets,
    in the order of their numbers: for packets sent under increasing numbers,
    sending, retransmitting, marking and removing succeed and fail as they do on
    the list, no pointer is nil and no counter gets negative; afterwards the
    packets found through the map, the loop over the linked list, the first
    outstanding packet and the counters agree with the list. *)
Theorem linked_sent_history_correct os : hist_ops_ok [] os ->
  match list_run [] os with
  | Ok ps => exists hp s,
      (s ← linked_newSentPacketHistory; linked_hist_run s os) no_heap = Ok (s, hp)
      /\ (forall pn, linked_GetPacket s pn hp = Ok (find_pn ps pn, hp))
      /\ linked_Iterate s collect [] hp = Ok (ps, hp)
      /\ linked_FirstOutstanding s hp = Ok (first_outstanding ps, hp)
      /\ (0 <? lp_numOutstanding s) = existsb canBeRetransmitted ps
      /\ (0 <? lp_numOutstandingHandshake s) = existsb (fun p => canBeRetransmitted p && isHandshake p) ps
      /\ Z.of_nat (size (lp_packetMap s)) = len ps
  | Err e => (s ← linked_newSentPacketHistory; linked_hist_run s os) no_heap = Err e
  | Panic _ => False
  end.
Proof.
  intros Hok. destruct (NewItemList_spec zero_packet no_heap no_sequences repr_empty) as (h1 & Hnew & Hr1).
  assert (Hinit : linked_newSentPacketHistory no_heap = Ok (mkLinkedSent 0 ∅ 0 0 None, h1)).
  { unfold linked_newSentPacketHistory. sent_ops. by rewrite (prog_bind_step _ _ _ _ _ Hnew). }
  assert (Hrep : sent_repr h1 (mkLinkedSent 0 ∅ 0 0 None) newSentPacketHistory).
  { eexists. split; [done |]. split_and!; try done. constructor. }
  assert (H := linked_run_refines os h1 _ _ Hrep new_hist_inv Hok).
  change (packets newSentPacketHistory) with (@nil Packet) in H. rewrite (prog_bind_step _ _ _ _ _ Hinit).
  destruct (list_run [] os) as [ps | |]; [| done | done]. destruct H as (hp & s & h & Hrun & Hrep' & Hinv & <-).
  exists hp, s. split; [done |]. assert (Hrep2 := Hrep').
  destruct Hrep2 as (a & _ & _ & _ & _ & -> & -> & -> & _).
  rewrite (inv_outstanding _ Hinv), (inv_handshake _ Hinv), !count_existsb. split_and!; try done.
  - intros pn. rewrite (linked_GetPacket_refines _ _ h) by done. by rewrite GetPacket_find.
  - rewrite (linked_Iterate_refines _ _ h) by done. unfold history_Iterate. by rewrite iterate_collect.
  - rewrite (linked_FirstOutstanding_refines _ _ h) by done. by rewrite FirstOutstanding_refines.
  - rewrite map_size_fmap. by apply Len_refines.
Qed.

Lemma linked_sent_history_correct_witness :
  exists hp s, (s ← linked_newSentPacketHistory; linked_hist_run s hist_example) no_heap = Ok (s, hp) /\
    linked_FirstOutstanding s hp = Ok (Some (sample_packet 4 Encryption1RTT), hp).
Proof.
  assert (Hok : hist_ops_ok [] hist_example).
  { cbn. unfold hist_op_ok, pn_lt. cbn. repeat (split || constructor); cbn; lia. }
  assert (H := linked_sent_history_correct hist_example Hok).
  change (list_run [] hist_example) with (Ok [
    set_retransmittedAs (clear_canBeRetransmitted (sample_packet 1 EncryptionHandshake)) [5];
    sample_packet 4 Encryption1RTT;
    set_retransmissionOf (sample_packet 5 EncryptionHandshake) 1]) in H.
  destruct H as (hp & s & Hrun & _ & _ & Hfirst & _). by exists hp, s.
Defined.
