(* ===== verification/PacketNumbers.v ===== *)
(** * Packet numbers for sending (internal/ackhandler/packet_number_generator.go)

    The random 16-bit numbers, drawn when a new number to skip is chosen, are
    an argument. *)

From S2P Require Import Prelude Protocol AckFrame.

Record packetNumberGenerator : Type := mkGenerator {
  averagePeriod : Z; generator_next : Z; nextToSkip : Z; generator_history : list Z }.

Definition generateNewSkip (g : packetNumberGenerator) (num : Z) : packetNumberGenerator :=
  let skip := num *64 (averagePeriod g -64 1) / (65535 / 2) in
  mkGenerator (averagePeriod g) (generator_next g) (generator_next g +64 2 +64 skip)
    (generator_history g).

Definition newPacketNumberGenerator (initial average num : Z) : packetNumberGenerator :=
  generateNewSkip (mkGenerator average initial 0 []) num.

Definition Peek (g : packetNumberGenerator) : Z := generator_next g.

Definition generator_Pop (g : packetNumberGenerator) (num : Z) : Z * packetNumberGenerator :=
  let next := generator_next g in
  let g := mkGenerator (averagePeriod g) (next +64 1) (nextToSkip g) (generator_history g) in
  if generator_next g =? nextToSkip g then
    let history := if MaxTrackedSkippedPackets <? len (generator_history g) + 1
                   then drop 1 (generator_history g) else generator_history g in
    (next, generateNewSkip (mkGenerator (averagePeriod g) (generator_next g +64 1) (nextToSkip g)
                              (history ++ [generator_next g])) num)
  else (next, g).

Fixpoint validate_history (history : list Z) (f : AckFrame) : outcome bool :=
  match history with
  | [] => Ok true
  | pn :: history =>
      acked ← AcksPacket f pn;
      if (acked : bool) then Ok false else validate_history history f
  end.

Definition Validate (g : packetNumberGenerator) (f : AckFrame) : outcome bool :=
  validate_history (generator_history g) f.

(** ** Runs of the generator *)

(** The numbers given out and the numbers skipped, oldest first. *)
Fixpoint pops (g : packetNumberGenerator) (nums : list Z) : list Z * list Z * packetNumberGenerator :=
  match nums with
  | [] => ([], [], g)
  | num :: nums =>
      let '(pn, g1) := generator_Pop g num in
      let '(popped, skipped, g2) := pops g1 nums in
      (pn :: popped,
       (if generator_next g1 =? pn + 2 then [pn + 1] else []) ++ skipped, g2)
  end.

(** The last [n] elements. *)
Definition lastn {A} (n : nat) (l : list A) : list A := drop (length l - n) l.

Definition gen_ok (g : packetNumberGenerator) (budget : Z) : Prop :=
  averagePeriod g = SkipPacketAveragePeriodLength
  /\ 0 <= generator_next g < nextToSkip g
  /\ generator_next g + 2 * budget < 2 ^ 63 /\ nextToSkip g <= generator_next g + 1000
  /\ len (generator_history g) <= MaxTrackedSkippedPackets.

Lemma generateNewSkip_ok g num budget : 0 <= num < 2 ^ 16 -> 0 <= budget ->
  averagePeriod g = SkipPacketAveragePeriodLength -> 0 <= generator_next g ->
  generator_next g + 2 * budget < 2 ^ 63 -> len (generator_history g) <= MaxTrackedSkippedPackets ->
  gen_ok (generateNewSkip g num) budget /\ generator_next g + 2 <= nextToSkip (generateNewSkip g num).
Proof.
  intros Hn Hb Ha Hnext Hbud Hlen. unfold gen_ok, generateNewSkip. cbn [averagePeriod generator_next nextToSkip
    generator_history]. rewrite Ha in *. unfold SkipPacketAveragePeriodLength in *.
  assert (E : num *64 (500 -64 1) / (65535 / 2) = num * 499 / 32767).
  { rewrite (sub64_small 500 1), mul64_small by lia. done. }
  rewrite E. assert (0 <= num * 499 / 32767 < 999).
  { split; [apply Z.div_pos; lia | apply Z.div_lt_upper_bound; lia]. }
  rewrite (add64_small (generator_next g) 2), add64_small by lia. split_and!; try done; lia.
Qed.

(** One number: the next one is one or two higher, and the skipped one is
    remembered. *)
Lemma Pop_ok g num budget : gen_ok g budget -> 1 <= budget -> 0 <= num < 2 ^ 16 ->
  let '(pn, g') := generator_Pop g num in
  pn = generator_next g /\ gen_ok g' (budget - 1)
  /\ (generator_next g' = pn + 1 /\ generator_history g' = generator_history g
      \/ generator_next g' = pn + 2
         /\ generator_history g' = lastn 10 (generator_history g ++ [pn + 1])).
Proof.
  intros (Ha & Hn & Hb & Hs & Hl) Hbud Hnum. unfold generator_Pop.
  cbn [averagePeriod generator_next nextToSkip generator_history]. rewrite (add64_small _ 1) by lia.
  destruct (Z.eqb_spec (generator_next g + 1) (nextToSkip g)) as [E | E].
  - rewrite (add64_small _ 1) by lia. set (hist := _ ++ [generator_next g + 1]).
    assert (Hh : hist = lastn 10 (generator_history g ++ [generator_next g + 1])
      /\ len hist <= MaxTrackedSkippedPackets).
    { unfold hist, lastn, len, MaxTrackedSkippedPackets in *. rewrite length_app. cbn [length].
      destruct (Z.ltb_spec 10 (Z.of_nat (length (generator_history g)) + 1)).
      - replace (length (generator_history g) + 1 - 10)%nat with 1%nat by lia.
        destruct (generator_history g) as [| x l]; cbn in *; [lia |].
        rewrite drop_0, length_app. cbn. split; [done | lia].
      - replace (length (generator_history g) + 1 - 10)%nat with 0%nat by lia.
        rewrite length_app. cbn. split; [done | lia]. }
    destruct Hh as [Eh Hlen]. clearbody hist.
    destruct (generateNewSkip_ok (mkGenerator (averagePeriod g) (generator_next g + 1 + 1) (nextToSkip g) hist)
      num (budget - 1)) as [Hok _]; cbn [averagePeriod generator_next nextToSkip generator_history]; try done; try lia.
    split_and!; try done. right. cbn [generator_next generateNewSkip generator_history]. split; [lia | done].
  - split; [done |]. split; [| by left]. unfold gen_ok. cbn [averagePeriod generator_next nextToSkip
      generator_history]. split_and!; try done; lia.
Qed.

Lemma lastn_app {A} n (l k : list A) : lastn n (lastn n l ++ k) = lastn n (l ++ k).
Proof.
  unfold lastn. rewrite !length_app, length_drop.
  destruct (Nat.le_gt_cases (length l) n).
  - replace (length l - n)%nat with 0%nat by lia. rewrite drop_0. f_equal. lia.
  - assert (E : l ++ k = take (length l - n) l ++ (drop (length l - n) l ++ k))
      by (by rewrite app_assoc, take_drop).
    rewrite E, (drop_app_ge (take _ _)) by (rewrite length_take; lia). f_equal. rewrite length_take. lia.
Qed.

Lemma pops_ok nums g : gen_ok g (len nums) -> Forall (fun num => 0 <= num < 2 ^ 16) nums ->
  let '(popped, skipped, g') := pops g nums in
  length popped = length nums
  /\ default (generator_next g') (popped !! 0%nat) = generator_next g
  /\ generator_next g <= generator_next g'
  /\ (forall i pn, popped !! i = Some pn -> generator_next g <= pn < generator_next g'
        /\ pn + 1 <= default (generator_next g') (popped !! S i) <= pn + 2)
  /\ (forall x, generator_next g <= x < generator_next g' -> x ∈ popped \/ x ∈ skipped)
  /\ (forall x, x ∈ skipped -> (x ∉ popped) /\ generator_next g < x < generator_next g' /\ (x - 1) ∈ popped)
  /\ generator_history g' = lastn 10 (generator_history g ++ skipped).
Proof.
  revert g. induction nums as [| num nums IH]; intros g Hok Hnums; cbn [pops].
  { split_and!; try done; try lia; try set_solver.
    rewrite app_nil_r. unfold lastn. destruct Hok as (_ & _ & _ & _ & Hl). unfold len, MaxTrackedSkippedPackets in Hl.
    by replace (length (generator_history g) - 10)%nat with 0%nat by lia. }
  apply Forall_cons in Hnums as [Hnum Hnums]. rewrite len_cons in Hok.
  assert (Hl0 := len_nonneg nums).
  assert (HP := Pop_ok g num _ Hok ltac:(lia) Hnum). destruct (generator_Pop g num) as [pn g1].
  destruct HP as (-> & Hok1 & Hnext). replace (1 + len nums - 1) with (len nums) in Hok1 by lia.
  specialize (IH g1 Hok1 Hnums). destruct (pops g1 nums) as [[popped skipped] g2].
  destruct IH as (IH1 & IH2 & IH3 & IH4 & IH5 & IH6 & IH7).
  set (pn := generator_next g) in *.
  assert (Hstep : pn + 1 <= generator_next g1 <= pn + 2) by lia.
  set (sk := if _ =? _ then _ else _).
  assert (Hsk : forall x, x ∈ sk <-> x = pn + 1 /\ generator_next g1 = pn + 2).
  { intros x. unfold sk. destruct (Z.eqb_spec (generator_next g1) (pn + 2)).
    - rewrite list_elem_of_singleton. tauto.
    - rewrite elem_of_nil. tauto. }
  assert (Hhist : generator_history g1 = lastn 10 (generator_history g ++ sk)).
  { unfold sk. destruct Hnext as [[E ->] | [E ->]]; rewrite E; case_cmp; try lia; [| done].
    rewrite app_nil_r. unfold lastn. destruct Hok as (_ & _ & _ & _ & Hl). unfold len, MaxTrackedSkippedPackets in Hl.
    by replace (length (generator_history g) - 10)%nat with 0%nat by lia. }
  assert (Hin : forall x, x ∈ popped -> generator_next g1 <= x < generator_next g2).
  { intros x [i Hi]%list_elem_of_lookup. by apply (IH4 i). }
  clearbody sk. split_and!.
  - cbn. lia.
  - done.
  - lia.
  - intros [| i] q Hi.
    + injection Hi as <-. change ((pn :: popped) !! 1%nat) with (popped !! 0%nat). rewrite IH2. lia.
    + change (popped !! i = Some q) in Hi. change ((pn :: popped) !! S (S i)) with (popped !! S i).
      specialize (IH4 i q Hi). lia.
  - intros x Hx. setoid_rewrite elem_of_cons. setoid_rewrite elem_of_app. rewrite Hsk.
    destruct (Z.eq_dec x pn); [by auto |]. destruct (Z.lt_ge_cases x (generator_next g1)); [right; left; lia |].
    destruct (IH5 x); [lia | by auto | by auto].
  - intros x. rewrite elem_of_app, Hsk. setoid_rewrite elem_of_cons.
    intros [[-> E] | Hx].
    + split; [| split; [lia | left; lia]]. intros [E' | Hx]; [lia |]. apply Hin in Hx. lia.
    + destruct (IH6 x Hx) as (H1 & H2 & H3). split; [| split; [lia | by right]].
      intros [E' | Hx']; [lia | done].
  - by rewrite IH7, Hhist, lastn_app, app_assoc.
Qed.

Lemma validate_history_spec history f : ack_wf f ->
  validate_history history f
  = Ok (negb (existsb (fun pn => existsb (in_range pn) (AckRanges f)) history)).
Proof.
  intros Hwf. induction history as [| pn history IH]; cbn; [done |].
  rewrite AcksPacket_spec by done. cbn. by destruct (existsb (in_range pn) (AckRanges f)).
Qed.

(** ** Properties *)

(** The packet numbers a connection uses, for any random numbers: they
    increase by one or two, so that no two consecutive numbers are skipped; every number
    below the next one was either used or skipped, and not both; the last ten
    skipped numbers are remembered, and an ACK frame is rejected exactly if it
    acknowledges one of them. *)
Theorem packet_numbers_correct num nums f :
  Forall (fun num => 0 <= num < 2 ^ 16) (num :: nums) -> len nums < 2 ^ 61 -> ack_wf f ->
  let '(popped, skipped, g) :=
    pops (newPacketNumberGenerator 1 SkipPacketAveragePeriodLength num) nums in
  length popped = length nums
  /\ (forall i pn, popped !! i = Some pn ->
        pn + 1 <= default (Peek g) (popped !! S i) <= pn + 2)
  /\ (forall x, 1 <= x < Peek g -> x ∈ popped \/ x ∈ skipped)
  /\ (forall x, x ∈ skipped -> (x ∉ popped) /\ 1 < x < Peek g /\ (x - 1) ∈ popped)
  /\ Validate g f = Ok (negb (existsb (fun pn => existsb (in_range pn) (AckRanges f)) (lastn 10 skipped))).
Proof.
  intros Hnums Hlen Hf. apply Forall_cons in Hnums as [Hnum Hnums].
  assert (Hl := len_nonneg nums).
  set (g0 := newPacketNumberGenerator 1 SkipPacketAveragePeriodLength num).
  assert (Hok : gen_ok g0 (len nums)) by (apply generateNewSkip_ok; cbn; (done || lia)).
  assert (H := pops_ok nums g0 Hok Hnums). destruct (pops g0 nums) as [[popped skipped] g].
  change (generator_next g0) with 1 in H. change (generator_history g0) with (@nil Z) in H.
  destruct H as (H1 & _ & _ & H3 & H4 & H5 & H6). unfold Peek, Validate. rewrite H6.
  split_and!; try done; [intros i pn Hi; by apply (H3 i) | by apply validate_history_spec].
Qed.

Lemma packet_numbers_correct_witness :
  let f := mkAckFrame [mkAckRange 3 4; mkAckRange 1 1] 0 in
  let '(popped, skipped, g) :=
    pops (newPacketNumberGenerator 1 SkipPacketAveragePeriodLength 0) [0; 0; 0; 80] in
  (popped, skipped, Peek g) = ([1; 2; 4; 5], [3; 6], 7)
  /\ Validate g f = Ok (negb (existsb (fun pn => existsb (in_range pn) (AckRanges f)) (lastn 10 skipped)))
  /\ Validate g f = Ok false.
Proof.
  intros f. set (r := pops _ _).
  assert (Hf : ack_wf f) by (unfold ack_wf, f; cbn; lia).
  assert (Hn : Forall (fun num => 0 <= num < 2 ^ 16) [0; 0; 0; 0; 80]) by (repeat constructor; lia).
  assert (H := packet_numbers_correct 0 [0; 0; 0; 80] f Hn ltac:(done) Hf).
  fold r in H. revert H. vm_compute in r. subst r. cbn zeta iota. intros (_ & _ & _ & _ & H).
  split; [done |]. split; [exact H | vm_compute; reflexivity].
Defined.
