(* ===== verification/SentPackets.v ===== *)
(** * Loss recovery (internal/ackhandler/sent_packet_handler.go)

    The handler of sent packets, for any congestion controller of the class
    [SendAlgorithm].  A pointer to a packet of the history is the packet as the
    history holds it; the packets of the retransmission queue, of which only
    fields that no longer change are used, are copies.  An error ends the
    connection, so the state it leaves is not part of a result. *)

From Stdlib Require Import Sorting.Sorted.
From S2P Require Import Prelude Qerr Protocol Float AckFrame RTTStats Congestion.
From S2P Require Import Frames FrameCodec FrameParser SentHistory PacketNumbers.

(** ** send_mode.go *)

Inductive SendMode : Type :=
  | SendNone | SendAck | SendRetransmission | SendRTO | SendTLP | SendAny.

(** ** Constants *)

Definition timeReorderingFraction : float := mkFloat 1 (-3).
Definition defaultRTOTimeout : Z := 500 * Millisecond.
Definition minTPLTimeout : Z := 10 * Millisecond.
Definition maxTLPs : Z := 2.
Definition minRTOTimeout : Z := 200 * Millisecond.
Definition maxRTOTimeout : Z := 60 * Second.

Section Handler.
Context {C : Type} `{SendAlgorithm C}.

Record sentPacketHandler : Type := mkHandler {
  lastSentPacketNumber : Z;
  packetNumbers : packetNumberGenerator;
  lastSentRetransmittablePacketTime : Z;
  lastSentHandshakePacketTime : Z;
  nextPacketSendTime : Z;
  handler_largestAcked : Z;
  largestReceivedPacketWithAck : Z;
  lowestPacketNotConfirmedAcked : Z;
  largestSentBeforeRTO : Z;
  packetHistory : sentPacketHistory;
  retransmissionQueue : list Packet;
  bytesInFlight : Z;
  congestion : C;
  rttStats : RTTStats;
  handshakeComplete : bool;
  handshakeCount : Z;
  tlpCount : Z;
  allowTLP : bool;
  rtoCount : Z;
  numRTOs : Z;
  lossTime : Z;
  alarm : Z }.

(** Assignments to the fields. *)
Definition set_lastSentPacketNumber (h : sentPacketHandler) (v : Z) : sentPacketHandler :=
  mkHandler v (packetNumbers h) (lastSentRetransmittablePacketTime h)
    (lastSentHandshakePacketTime h) (nextPacketSendTime h) (handler_largestAcked h)
    (largestReceivedPacketWithAck h) (lowestPacketNotConfirmedAcked h) (largestSentBeforeRTO h)
    (packetHistory h) (retransmissionQueue h) (bytesInFlight h) (congestion h) (rttStats h)
    (handshakeComplete h) (handshakeCount h) (tlpCount h) (allowTLP h) (rtoCount h) (numRTOs h)
    (lossTime h) (alarm h).

Definition set_packetNumbers (h : sentPacketHandler) (v : packetNumberGenerator) : sentPacketHandler :=
  mkHandler (lastSentPacketNumber h) v (lastSentRetransmittablePacketTime h)
    (lastSentHandshakePacketTime h) (nextPacketSendTime h) (handler_largestAcked h)
    (largestReceivedPacketWithAck h) (lowestPacketNotConfirmedAcked h) (largestSentBeforeRTO h)
    (packetHistory h) (retransmissionQueue h) (bytesInFlight h) (congestion h) (rttStats h)
    (handshakeComplete h) (handshakeCount h) (tlpCount h) (allowTLP h) (rtoCount h) (numRTOs h)
    (lossTime h) (alarm h).

Definition set_lastSentRetransmittablePacketTime (h : sentPacketHandler) (v : Z) : sentPacketHandler :=
  mkHandler (lastSentPacketNumber h) (packetNumbers h) v (lastSentHandshakePacketTime h)
    (nextPacketSendTime h) (handler_largestAcked h) (largestReceivedPacketWithAck h)
    (lowestPacketNotConfirmedAcked h) (largestSentBeforeRTO h) (packetHistory h)
    (retransmissionQueue h) (bytesInFlight h) (congestion h) (rttStats h) (handshakeComplete h)
    (handshakeCount h) (tlpCount h) (allowTLP h) (rtoCount h) (numRTOs h) (lossTime h) (alarm h).

Definition set_lastSentHandshakePacketTime (h : sentPacketHandler) (v : Z) : sentPacketHandler :=
  mkHandler (lastSentPacketNumber h) (packetNumbers h) (lastSentRetransmittablePacketTime h) v
    (nextPacketSendTime h) (handler_largestAcked h) (largestReceivedPacketWithAck h)
    (lowestPacketNotConfirmedAcked h) (largestSentBeforeRTO h) (packetHistory h)
    (retransmissionQueue h) (bytesInFlight h) (congestion h) (rttStats h) (handshakeComplete h)
    (handshakeCount h) (tlpCount h) (allowTLP h) (rtoCount h) (numRTOs h) (lossTime h) (alarm h).

Definition set_nextPacketSendTime (h : sentPacketHandler) (v : Z) : sentPacketHandler :=
  mkHandler (lastSentPacketNumber h) (packetNumbers h) (lastSentRetransmittablePacketTime h)
    (lastSentHandshakePacketTime h) v (handler_largestAcked h) (largestReceivedPacketWithAck h)
    (lowestPacketNotConfirmedAcked h) (largestSentBeforeRTO h) (packetHistory h)
    (retransmissionQueue h) (bytesInFlight h) (congestion h) (rttStats h) (handshakeComplete h)
    (handshakeCount h) (tlpCount h) (allowTLP h) (rtoCount h) (numRTOs h) (lossTime h) (alarm h).

Definition set_handler_largestAcked (h : sentPacketHandler) (v : Z) : sentPacketHandler :=
  mkHandler (lastSentPacketNumber h) (packetNumbers h) (lastSentRetransmittablePacketTime h)
    (lastSentHandshakePacketTime h) (nextPacketSendTime h) v (largestReceivedPacketWithAck h)
    (lowestPacketNotConfirmedAcked h) (largestSentBeforeRTO h) (packetHistory h)
    (retransmissionQueue h) (bytesInFlight h) (congestion h) (rttStats h) (handshakeComplete h)
    (handshakeCount h) (tlpCount h) (allowTLP h) (rtoCount h) (numRTOs h) (lossTime h) (alarm h).

Definition set_largestReceivedPacketWithAck (h : sentPacketHandler) (v : Z) : sentPacketHandler :=
  mkHandler (lastSentPacketNumber h) (packetNumbers h) (lastSentRetransmittablePacketTime h)
    (lastSentHandshakePacketTime h) (nextPacketSendTime h) (handler_largestAcked h) v
    (lowestPacketNotConfirmedAcked h) (largestSentBeforeRTO h) (packetHistory h)
    (retransmissionQueue h) (bytesInFlight h) (congestion h) (rttStats h) (handshakeComplete h)
    (handshakeCount h) (tlpCount h) (allowTLP h) (rtoCount h) (numRTOs h) (lossTime h) (alarm h).

Definition set_lowestPacketNotConfirmedAcked (h : sentPacketHandler) (v : Z) : sentPacketHandler :=
  mkHandler (lastSentPacketNumber h) (packetNumbers h) (lastSentRetransmittablePacketTime h)
    (lastSentHandshakePacketTime h) (nextPacketSendTime h) (handler_largestAcked h)
    (largestReceivedPacketWithAck h) v (largestSentBeforeRTO h) (packetHistory h)
    (retransmissionQueue h) (bytesInFlight h) (congestion h) (rttStats h) (handshakeComplete h)
    (handshakeCount h) (tlpCount h) (allowTLP h) (rtoCount h) (numRTOs h) (lossTime h) (alarm h).

Definition set_largestSentBeforeRTO (h : sentPacketHandler) (v : Z) : sentPacketHandler :=
  mkHandler (lastSentPacketNumber h) (packetNumbers h) (lastSentRetransmittablePacketTime h)
    (lastSentHandshakePacketTime h) (nextPacketSendTime h) (handler_largestAcked h)
    (largestReceivedPacketWithAck h) (lowestPacketNotConfirmedAcked h) v (packetHistory h)
    (retransmissionQueue h) (bytesInFlight h) (congestion h) (rttStats h) (handshakeComplete h)
    (handshakeCount h) (tlpCount h) (allowTLP h) (rtoCount h) (numRTOs h) (lossTime h) (alarm h).

Definition set_packetHistory (h : sentPacketHandler) (v : sentPacketHistory) : sentPacketHandler :=
  mkHandler (lastSentPacketNumber h) (packetNumbers h) (lastSentRetransmittablePacketTime h)
    (lastSentHandshakePacketTime h) (nextPacketSendTime h) (handler_largestAcked h)
    (largestReceivedPacketWithAck h) (lowestPacketNotConfirmedAcked h) (largestSentBeforeRTO h)
    v (retransmissionQueue h) (bytesInFlight h) (congestion h) (rttStats h) (handshakeComplete
    h) (handshakeCount h) (tlpCount h) (allowTLP h) (rtoCount h) (numRTOs h) (lossTime h) (alarm
    h).

Definition set_retransmissionQueue (h : sentPacketHandler) (v : list Packet) : sentPacketHandler :=
  mkHandler (lastSentPacketNumber h) (packetNumbers h) (lastSentRetransmittablePacketTime h)
    (lastSentHandshakePacketTime h) (nextPacketSendTime h) (handler_largestAcked h)
    (largestReceivedPacketWithAck h) (lowestPacketNotConfirmedAcked h) (largestSentBeforeRTO h)
    (packetHistory h) v (bytesInFlight h) (congestion h) (rttStats h) (handshakeComplete h)
    (handshakeCount h) (tlpCount h) (allowTLP h) (rtoCount h) (numRTOs h) (lossTime h) (alarm h).

Definition set_bytesInFlight (h : sentPacketHandler) (v : Z) : sentPacketHandler :=
  mkHandler (lastSentPacketNumber h) (packetNumbers h) (lastSentRetransmittablePacketTime h)
    (lastSentHandshakePacketTime h) (nextPacketSendTime h) (handler_largestAcked h)
    (largestReceivedPacketWithAck h) (lowestPacketNotConfirmedAcked h) (largestSentBeforeRTO h)
    (packetHistory h) (retransmissionQueue h) v (congestion h) (rttStats h) (handshakeComplete
    h) (handshakeCount h) (tlpCount h) (allowTLP h) (rtoCount h) (numRTOs h) (lossTime h) (alarm
    h).

Definition set_congestion (h : sentPacketHandler) (v : C) : sentPacketHandler :=
  mkHandler (lastSentPacketNumber h) (packetNumbers h) (lastSentRetransmittablePacketTime h)
    (lastSentHandshakePacketTime h) (nextPacketSendTime h) (handler_largestAcked h)
    (largestReceivedPacketWithAck h) (lowestPacketNotConfirmedAcked h) (largestSentBeforeRTO h)
    (packetHistory h) (retransmissionQueue h) (bytesInFlight h) v (rttStats h)
    (handshakeComplete h) (handshakeCount h) (tlpCount h) (allowTLP h) (rtoCount h) (numRTOs h)
    (lossTime h) (alarm h).

Definition set_rttStats (h : sentPacketHandler) (v : RTTStats) : sentPacketHandler :=
  mkHandler (lastSentPacketNumber h) (packetNumbers h) (lastSentRetransmittablePacketTime h)
    (lastSentHandshakePacketTime h) (nextPacketSendTime h) (handler_largestAcked h)
    (largestReceivedPacketWithAck h) (lowestPacketNotConfirmedAcked h) (largestSentBeforeRTO h)
    (packetHistory h) (retransmissionQueue h) (bytesInFlight h) (congestion h) v
    (handshakeComplete h) (handshakeCount h) (tlpCount h) (allowTLP h) (rtoCount h) (numRTOs h)
    (lossTime h) (alarm h).

Definition set_handshakeComplete (h : sentPacketHandler) (v : bool) : sentPacketHandler :=
  mkHandler (lastSentPacketNumber h) (packetNumbers h) (lastSentRetransmittablePacketTime h)
    (lastSentHandshakePacketTime h) (nextPacketSendTime h) (handler_largestAcked h)
    (largestReceivedPacketWithAck h) (lowestPacketNotConfirmedAcked h) (largestSentBeforeRTO h)
    (packetHistory h) (retransmissionQueue h) (bytesInFlight h) (congestion h) (rttStats h) v
    (handshakeCount h) (tlpCount h) (allowTLP h) (rtoCount h) (numRTOs h) (lossTime h) (alarm h).

Definition set_handshakeCount (h : sentPacketHandler) (v : Z) : sentPacketHandler :=
  mkHandler (lastSentPacketNumber h) (packetNumbers h) (lastSentRetransmittablePacketTime h)
    (lastSentHandshakePacketTime h) (nextPacketSendTime h) (handler_largestAcked h)
    (largestReceivedPacketWithAck h) (lowestPacketNotConfirmedAcked h) (largestSentBeforeRTO h)
    (packetHistory h) (retransmissionQueue h) (bytesInFlight h) (congestion h) (rttStats h)
    (handshakeComplete h) v (tlpCount h) (allowTLP h) (rtoCount h) (numRTOs h) (lossTime h)
    (alarm h).

Definition set_tlpCount (h : sentPacketHandler) (v : Z) : sentPacketHandler :=
  mkHandler (lastSentPacketNumber h) (packetNumbers h) (lastSentRetransmittablePacketTime h)
    (lastSentHandshakePacketTime h) (nextPacketSendTime h) (handler_largestAcked h)
    (largestReceivedPacketWithAck h) (lowestPacketNotConfirmedAcked h) (largestSentBeforeRTO h)
    (packetHistory h) (retransmissionQueue h) (bytesInFlight h) (congestion h) (rttStats h)
    (handshakeComplete h) (handshakeCount h) v (allowTLP h) (rtoCount h) (numRTOs h) (lossTime
    h) (alarm h).

Definition set_allowTLP (h : sentPacketHandler) (v : bool) : sentPacketHandler :=
  mkHandler (lastSentPacketNumber h) (packetNumbers h) (lastSentRetransmittablePacketTime h)
    (lastSentHandshakePacketTime h) (nextPacketSendTime h) (handler_largestAcked h)
    (largestReceivedPacketWithAck h) (lowestPacketNotConfirmedAcked h) (largestSentBeforeRTO h)
    (packetHistory h) (retransmissionQueue h) (bytesInFlight h) (congestion h) (rttStats h)
    (handshakeComplete h) (handshakeCount h) (tlpCount h) v (rtoCount h) (numRTOs h) (lossTime
    h) (alarm h).

Definition set_rtoCount (h : sentPacketHandler) (v : Z) : sentPacketHandler :=
  mkHandler (lastSentPacketNumber h) (packetNumbers h) (lastSentRetransmittablePacketTime h)
    (lastSentHandshakePacketTime h) (nextPacketSendTime h) (handler_largestAcked h)
    (largestReceivedPacketWithAck h) (lowestPacketNotConfirmedAcked h) (largestSentBeforeRTO h)
    (packetHistory h) (retransmissionQueue h) (bytesInFlight h) (congestion h) (rttStats h)
    (handshakeComplete h) (handshakeCount h) (tlpCount h) (allowTLP h) v (numRTOs h) (lossTime
    h) (alarm h).

Definition set_numRTOs (h : sentPacketHandler) (v : Z) : sentPacketHandler :=
  mkHandler (lastSentPacketNumber h) (packetNumbers h) (lastSentRetransmittablePacketTime h)
    (lastSentHandshakePacketTime h) (nextPacketSendTime h) (handler_largestAcked h)
    (largestReceivedPacketWithAck h) (lowestPacketNotConfirmedAcked h) (largestSentBeforeRTO h)
    (packetHistory h) (retransmissionQueue h) (bytesInFlight h) (congestion h) (rttStats h)
    (handshakeComplete h) (handshakeCount h) (tlpCount h) (allowTLP h) (rtoCount h) v (lossTime
    h) (alarm h).

Definition set_lossTime (h : sentPacketHandler) (v : Z) : sentPacketHandler :=
  mkHandler (lastSentPacketNumber h) (packetNumbers h) (lastSentRetransmittablePacketTime h)
    (lastSentHandshakePacketTime h) (nextPacketSendTime h) (handler_largestAcked h)
    (largestReceivedPacketWithAck h) (lowestPacketNotConfirmedAcked h) (largestSentBeforeRTO h)
    (packetHistory h) (retransmissionQueue h) (bytesInFlight h) (congestion h) (rttStats h)
    (handshakeComplete h) (handshakeCount h) (tlpCount h) (allowTLP h) (rtoCount h) (numRTOs h)
    v (alarm h).

Definition set_alarm (h : sentPacketHandler) (v : Z) : sentPacketHandler :=
  mkHandler (lastSentPacketNumber h) (packetNumbers h) (lastSentRetransmittablePacketTime h)
    (lastSentHandshakePacketTime h) (nextPacketSendTime h) (handler_largestAcked h)
    (largestReceivedPacketWithAck h) (lowestPacketNotConfirmedAcked h) (largestSentBeforeRTO h)
    (packetHistory h) (retransmissionQueue h) (bytesInFlight h) (congestion h) (rttStats h)
    (handshakeComplete h) (handshakeCount h) (tlpCount h) (allowTLP h) (rtoCount h) (numRTOs h)
    (lossTime h) v.
Definition NewSentPacketHandler (r : RTTStats) (c : C) (num : Z) : sentPacketHandler :=
  mkHandler 0 (newPacketNumberGenerator 1 SkipPacketAveragePeriodLength num) 0 0 0 0 0 0 0
    newSentPacketHistory [] 0 c r false 0 0 false 0 0 0 0.

Definition lowestUnacked (h : sentPacketHandler) : Z :=
  match history_FirstOutstanding (packetHistory h) with
  | Some p => PacketNumber p
  | None => handler_largestAcked h +64 1
  end.

(** ** Timeouts *)

Definition shl64 (d n : Z) : Z := i64 (d ≪ n).

Definition computeHandshakeTimeout (h : sentPacketHandler) : Z :=
  shl64 (MaxDuration (i64 (2 * SmoothedOrInitialRTT (rttStats h))) minTPLTimeout) (handshakeCount h).

Definition computeTLPTimeout (h : sentPacketHandler) : Z :=
  MaxDuration (Z.quot (i64 (SmoothedOrInitialRTT (rttStats h) * 3)) 2) minTPLTimeout.

Definition computeRTOTimeout (h : sentPacketHandler) : Z :=
  let rtt := smoothedRTT (rttStats h) in
  let rto := if rtt =? 0 then defaultRTOTimeout
             else i64 (rtt + i64 (4 * meanDeviation (rttStats h))) in
  let rto := MaxDuration rto minRTOTimeout in
  MinDuration (shl64 rto (rtoCount h)) maxRTOTimeout.

Definition updateLossDetectionAlarm (h : sentPacketHandler) : sentPacketHandler :=
  if negb (HasOutstandingPackets (packetHistory h)) then set_alarm h 0
  else if HasOutstandingHandshakePackets (packetHistory h) then
    set_alarm h (lastSentHandshakePacketTime h + computeHandshakeTimeout h)
  else if negb (lossTime h =? 0) then set_alarm h (lossTime h)
  else
    let duration := computeRTOTimeout h in
    let duration := if tlpCount h <? maxTLPs then MinDuration duration (computeTLPTimeout h)
                    else duration in
    set_alarm h (lastSentRetransmittablePacketTime h + duration).

(** ** Sending *)

(** Reports whether the packet is retransmittable; the packet is modified. *)
Definition sentPacketImpl (h : sentPacketHandler) (packet : Packet)
    : outcome (bool * Packet * sentPacketHandler) :=
  let h := set_lastSentPacketNumber h (PacketNumber packet) in
  largest ← (match Packet_Frames packet with
             | Ack f :: _ => LargestAcked f
             | _ => Ok (packet_largestAcked packet)
             end);
  let frames := stripNonRetransmittableFrames (Packet_Frames packet) in
  let isRetransmittable := negb (len frames =? 0) in
  let packet :=
    mkPacket (PacketNumber packet) (PacketType packet) frames (Packet_Length packet)
      (Packet_EncryptionLevel packet) (SendTime packet) largest
      (isRetransmittable || canBeRetransmitted packet)
      (isRetransmittable || includedInBytesInFlight packet)
      (retransmittedAs packet) (isRetransmission packet) (retransmissionOf packet) in
  let h :=
    if isRetransmittable then
      let h := if isHandshake packet then set_lastSentHandshakePacketTime h (SendTime packet) else h in
      let h := set_lastSentRetransmittablePacketTime h (SendTime packet) in
      let h := set_bytesInFlight h (bytesInFlight h +64 Packet_Length packet) in
      let h := if 0 <? numRTOs h then set_numRTOs h (numRTOs h - 1) else h in
      set_allowTLP h false
    else h in
  let h := set_congestion h (sa_OnPacketSent (congestion h) (SendTime packet) (bytesInFlight h)
                               (PacketNumber packet) (Packet_Length packet) isRetransmittable) in
  delay ← sa_TimeUntilSend (rttStats h) (congestion h) (bytesInFlight h);
  let h := set_nextPacketSendTime h (MaxTime (nextPacketSendTime h) (SendTime packet) + delay) in
  Ok (isRetransmittable, packet, h).

Definition SentPacket (h : sentPacketHandler) (packet : Packet) : outcome sentPacketHandler :=
  '(isRetransmittable, packet, h) ← sentPacketImpl h packet;
  Ok (if (isRetransmittable : bool) then
        updateLossDetectionAlarm
          (set_packetHistory h (history_SentPacket (packetHistory h) packet))
      else h).

(** The retransmittable packets among those sent. *)
Fixpoint sent_all (h : sentPacketHandler) (packets : list Packet)
    : outcome (list Packet * sentPacketHandler) :=
  match packets with
  | [] => Ok ([], h)
  | packet :: packets =>
      '(isRetransmittable, packet, h) ← sentPacketImpl h packet;
      '(p, h) ← sent_all h packets;
      Ok (if (isRetransmittable : bool) then packet :: p else p, h)
  end.

Definition SentPacketsAsRetransmission (h : sentPacketHandler) (packets : list Packet)
    (retransmissionOf : Z) : outcome sentPacketHandler :=
  '(p, h) ← sent_all h packets;
  Ok (updateLossDetectionAlarm (set_packetHistory h
        (history_SentPacketsAsRetransmission (packetHistory h) p retransmissionOf))).

(** ** The retransmission queue *)

Definition queuePacketForRetransmission (h : sentPacketHandler) (p : Packet) : outcome sentPacketHandler :=
  if negb (canBeRetransmitted p) then
    Err (Errorf "sent packet handler BUG: packet %d already queued for retransmission" [PacketNumber p])
  else
    history ← MarkCannotBeRetransmitted (packetHistory h) (PacketNumber p);
    let h := set_packetHistory h history in
    Ok (set_retransmissionQueue h (retransmissionQueue h ++ [clear_canBeRetransmitted p])).

Definition DequeuePacketForRetransmission (h : sentPacketHandler) : option Packet * sentPacketHandler :=
  match retransmissionQueue h with
  | [] => (None, h)
  | packet :: queue => (Some packet, set_retransmissionQueue h queue)
  end.

Definition DequeueProbePacket (h : sentPacketHandler) : outcome (option Packet * sentPacketHandler) :=
  h ← (if len (retransmissionQueue h) =? 0 then
         match history_FirstOutstanding (packetHistory h) with
         | None => Err (Errorf "cannot dequeue a probe packet. No outstanding packets" [])
         | Some p => queuePacketForRetransmission h p
         end
       else Ok h);
  Ok (DequeuePacketForRetransmission h).

Fixpoint queue_all (h : sentPacketHandler) (packets : list Packet) : outcome sentPacketHandler :=
  match packets with
  | [] => Ok h
  | p :: packets => h ← queuePacketForRetransmission h p; queue_all h packets
  end.

Definition queueHandshakePacketsForRetransmission (h : sentPacketHandler) : outcome sentPacketHandler :=
  handshakePackets ← history_Iterate (packetHistory h) (fun acc p =>
    Ok (true, if canBeRetransmitted p && isHandshake p then acc ++ [p] else acc)) [];
  queue_all h handshakePackets.

(** [h.packetHistory.Remove(pn)] with its error ignored. *)
Definition remove_ignore (history : sentPacketHistory) (pn : Z) : outcome sentPacketHistory :=
  match history_Remove history pn with
  | Ok history => Ok history
  | Err _ => Ok history
  | Panic s => Panic s
  end.

Fixpoint remove_all (history : sentPacketHistory) (packets : list Packet) : outcome sentPacketHistory :=
  match packets with
  | [] => Ok history
  | p :: packets => history ← remove_ignore history (PacketNumber p); remove_all history packets
  end.

Definition SetHandshakeComplete (h : sentPacketHandler) : outcome sentPacketHandler :=
  let queue := filter (fun p => Packet_EncryptionLevel p = Encryption1RTT) (retransmissionQueue h) in
  handshakePackets ← history_Iterate (packetHistory h) (fun acc p =>
    Ok (true, if isHandshake p then acc ++ [p] else acc)) [];
  history ← remove_all (packetHistory h) handshakePackets;
  let h := set_packetHistory h history in
  let h := set_retransmissionQueue h queue in
  Ok (set_handshakeComplete h true).

(** ** Loss detection *)

Definition time_since (now t : Z) : Z := time_sub now t.

(** The loop of [detectLostPackets] over the history. *)
Definition lost_callback (largestAcked now delayUntilLost : Z) (s : list Packet * Z) (packet : Packet)
    : outcome (bool * (list Packet * Z)) :=
  let '(lost, lossTime) := s in
  if largestAcked <? PacketNumber packet then Ok (false, s) else
  let timeSinceSent := time_since now (SendTime packet) in
  if delayUntilLost <? timeSinceSent then Ok (true, (lost ++ [packet], lossTime))
  else if lossTime =? 0 then Ok (true, (lost, now + i64 (delayUntilLost - timeSinceSent)))
  else Ok (true, s).

Fixpoint declare_lost (h : sentPacketHandler) (priorInFlight : Z) (lost : list Packet)
    : outcome sentPacketHandler :=
  match lost with
  | [] => Ok h
  | p :: lost =>
      let h :=
        if includedInBytesInFlight p then
          let h := set_bytesInFlight h (bytesInFlight h -64 Packet_Length p) in
          set_congestion h (sa_OnPacketLost (congestion h) (PacketNumber p) (Packet_Length p) priorInFlight)
        else h in
      h ← (if canBeRetransmitted p then queuePacketForRetransmission h p else Ok h);
      history ← remove_ignore (packetHistory h) (PacketNumber p);
      declare_lost (set_packetHistory h history) priorInFlight lost
  end.

Definition delay_until_lost (r : RTTStats) : Z :=
  let maxRTT := of_int prec64 (MaxDuration (latestRTT r) (smoothedRTT r)) in
  i64 (to_int (fmul prec64 (fadd prec64 (mkFloat 1 0) timeReorderingFraction) maxRTT)).

Definition detectLostPackets (h : sentPacketHandler) (now priorInFlight : Z) : outcome sentPacketHandler :=
  '(lost, loss) ← history_Iterate (packetHistory h)
     (lost_callback (handler_largestAcked h) now (delay_until_lost (rttStats h))) ([], 0);
  declare_lost (set_lossTime h loss) priorInFlight lost.

(** ** Acknowledgements *)

Definition maybeUpdateRTT (h : sentPacketHandler) (largestAcked ackDelay rcvTime : Z) : bool * sentPacketHandler :=
  match history_GetPacket (packetHistory h) largestAcked with
  | Some p => (true, set_rttStats h (UpdateRTT (rttStats h) (time_sub rcvTime (SendTime p)) ackDelay))
  | None => (false, h)
  end.

(** The ranges of an ACK frame from the lowest one. *)
Definition range_at (f : AckFrame) (i : nat) : outcome AckRange :=
  index (AckRanges f) (length (AckRanges f) - 1 - i).

(** Moves on to the range that may hold the packet number. *)
Fixpoint advance_range (fuel : nat) (f : AckFrame) (pn : Z) (i : nat) : outcome nat :=
  match fuel with
  | O => Ok i
  | S fuel =>
      r ← range_at f i;
      if (Largest r <? pn) && (i <? length (AckRanges f) - 1)%nat then advance_range fuel f pn (S i)
      else Ok i
  end.

Definition acked_callback (f : AckFrame) (lowest largest : Z) (s : list Packet * nat) (p : Packet)
    : outcome (bool * (list Packet * nat)) :=
  let '(acked, i) := s in
  let pn := PacketNumber p in
  if pn <? lowest then Ok (true, s)
  else if largest <? pn then Ok (false, s)
  else if HasMissingRanges f then
    i ← advance_range (length (AckRanges f)) f pn i;
    r ← range_at f i;
    if Smallest r <=? pn then
      if Largest r <? pn then
        Err (Errorf "BUG: ackhandler would have acked wrong packet 0x%x, while evaluating range 0x%x -> 0x%x"
               [pn; Smallest r; Largest r])
      else Ok (true, (acked ++ [p], i))
    else Ok (true, (acked, i))
  else Ok (true, (acked ++ [p], i)).

Definition determineNewlyAckedPackets (h : sentPacketHandler) (f : AckFrame) : outcome (list Packet) :=
  lowest ← LowestAcked f;
  largest ← LargestAcked f;
  '(acked, _) ← history_Iterate (packetHistory h) (acked_callback f lowest largest) ([], 0%nat);
  Ok acked.

(** Marks a packet and its retransmissions; the error of a nested call is
    ignored.  Retransmissions have larger packet numbers, so the depth is at
    most the number of packets. *)
Fixpoint stop_children (stop : sentPacketHistory -> Packet -> outcome (option go_error * sentPacketHistory))
    (parent : Z) (rs : list Z) (history : sentPacketHistory) : outcome (option go_error * sentPacketHistory) :=
  match rs with
  | [] => Ok (None, history)
  | r :: rs =>
      match history_GetPacket history r with
      | None =>
          Ok (Some (Errorf "sent packet handler BUG: marking packet as not retransmittable %d (retransmission of %d) not found in history"
                      [r; parent]), history)
      | Some packet =>
          '(_, history) ← stop history packet;
          stop_children stop parent rs history
      end
  end.

Fixpoint stop_retransmissions (fuel : nat) (history : sentPacketHistory) (p : Packet)
    : outcome (option go_error * sentPacketHistory) :=
  match fuel with
  | O => Panic "stack overflow"
  | S fuel =>
      match MarkCannotBeRetransmitted history (PacketNumber p) with
      | Err e => Ok (Some e, history)
      | Panic s => Panic s
      | Ok history =>
          stop_children (stop_retransmissions fuel) (PacketNumber p) (retransmittedAs p) history
      end
  end.

Definition stopRetransmissionsFor (h : sentPacketHandler) (p : Packet) : outcome sentPacketHandler :=
  '(err, history) ← stop_retransmissions (S (length (packetList (packetHistory h)))) (packetHistory h) p;
  match err with
  | Some e => Err e
  | None => Ok (set_packetHistory h history)
  end.

Definition verifyRTO (h : sentPacketHandler) (pn : Z) : sentPacketHandler :=
  if pn <=? largestSentBeforeRTO h then set_rttStats h (ExpireSmoothedMetrics (rttStats h))
  else set_congestion h (sa_OnRetransmissionTimeout (congestion h) true).

(** The retransmissions of the parent without the acknowledged one. *)
Definition unlink_parent (history : sentPacketHistory) (p : Packet) : outcome sentPacketHistory :=
  if isRetransmission p then
    match packetMap history !! retransmissionOf p with
    | None => Ok history
    | Some el =>
        match el_Value (packetList history) el with
        | None => Panic "nil element"
        | Some parent =>
            if len (retransmittedAs parent) =? 1 then
              Ok (history_store history el (set_retransmittedAs parent []))
            else if len (retransmittedAs parent) - 1 <? 0 then Panic "makeslice: cap out of range"
            else Ok (history_store history el (set_retransmittedAs parent
                       (filter (fun pn => pn <> PacketNumber p) (retransmittedAs parent))))
        end
    end
  else Ok history.

Definition handler_onPacketAcked (h : sentPacketHandler) (pn : Z) : outcome sentPacketHandler :=
  match history_GetPacket (packetHistory h) pn with
  | None => Ok h
  | Some p =>
      history ← unlink_parent (packetHistory h) p;
      let h := set_packetHistory h history in
      let h := if includedInBytesInFlight p
               then set_bytesInFlight h (bytesInFlight h -64 Packet_Length p) else h in
      let h := if 0 <? rtoCount h then verifyRTO h pn else h in
      h ← stopRetransmissionsFor h p;
      let h := set_handshakeCount (set_tlpCount (set_rtoCount h 0) 0) 0 in
      history ← history_Remove (packetHistory h) pn;
      Ok (set_packetHistory h history)
  end.

Fixpoint ack_packets (h : sentPacketHandler) (priorInFlight rcvTime : Z) (acked : list Packet)
    : outcome sentPacketHandler :=
  match acked with
  | [] => Ok h
  | p :: acked =>
      let h := if negb (packet_largestAcked p =? 0)
               then set_lowestPacketNotConfirmedAcked h
                      (MaxPacketNumber (lowestPacketNotConfirmedAcked h) (packet_largestAcked p +64 1))
               else h in
      h ← handler_onPacketAcked h (PacketNumber p);
      let h := if includedInBytesInFlight p
               then set_congestion h (sa_OnPacketAcked (rttStats h) (congestion h) (PacketNumber p)
                                        (Packet_Length p) priorInFlight rcvTime)
               else h in
      ack_packets h priorInFlight rcvTime acked
  end.

Definition ReceivedAck (h : sentPacketHandler) (f : AckFrame) (withPacketNumber rcvTime : Z)
    : outcome sentPacketHandler :=
  largestAcked ← LargestAcked f;
  if lastSentPacketNumber h <? largestAcked then
    Err (QuicError InvalidAckData (Msg "Received ACK for an unsent package" []))
  else if negb (withPacketNumber =? 0) && (withPacketNumber <=? largestReceivedPacketWithAck h) then Ok h
  else
    let h := set_largestReceivedPacketWithAck h withPacketNumber in
    let h := set_handler_largestAcked h (MaxPacketNumber (handler_largestAcked h) largestAcked) in
    valid ← Validate (packetNumbers h) f;
    if negb valid then
      Err (QuicError InvalidAckData (Msg "Received an ACK for a skipped packet number" []))
    else
      let '(rttUpdated, h) := maybeUpdateRTT h largestAcked (DelayTime f) rcvTime in
      let h := if (rttUpdated : bool) then set_congestion h (sa_MaybeExitSlowStart (rttStats h) (congestion h)) else h in
      acked ← determineNewlyAckedPackets h f;
      let priorInFlight := bytesInFlight h in
      h ← ack_packets h priorInFlight rcvTime acked;
      h ← detectLostPackets h rcvTime priorInFlight;
      Ok (updateLossDetectionAlarm h).

(** ** Alarms *)

Definition onVerifiedAlarm (h : sentPacketHandler) (now : Z) : outcome sentPacketHandler :=
  if HasOutstandingHandshakePackets (packetHistory h) then
    queueHandshakePacketsForRetransmission (set_handshakeCount h (u32 (handshakeCount h + 1)))
  else if negb (lossTime h =? 0) then detectLostPackets h now (bytesInFlight h)
  else if tlpCount h <? maxTLPs then
    Ok (set_tlpCount (set_allowTLP h true) (u32 (tlpCount h + 1)))
  else
    let h := if rtoCount h =? 0 then set_largestSentBeforeRTO h (lastSentPacketNumber h) else h in
    Ok (set_numRTOs (set_rtoCount h (u32 (rtoCount h + 1))) (i64 (numRTOs h + 2))).

Definition OnAlarm (h : sentPacketHandler) (now : Z) : outcome sentPacketHandler :=
  h ← (if HasOutstandingPackets (packetHistory h) then onVerifiedAlarm h now else Ok h);
  Ok (updateLossDetectionAlarm h).

(** ** What may be sent *)

Definition PeekPacketNumber (h : sentPacketHandler) : Z * Z :=
  let pn := Peek (packetNumbers h) in
  (pn, GetPacketNumberLengthForHeader pn (lowestUnacked h)).

Definition PopPacketNumber (h : sentPacketHandler) (num : Z) : Z * sentPacketHandler :=
  let '(pn, g) := generator_Pop (packetNumbers h) num in (pn, set_packetNumbers h g).

Definition handler_SendMode (h : sentPacketHandler) : SendMode :=
  let numTrackedPackets := len (retransmissionQueue h) + history_Len (packetHistory h) in
  if MaxTrackedSentPackets <=? numTrackedPackets then SendNone
  else if allowTLP h then SendTLP
  else if 0 <? numRTOs h then SendRTO
  else if sa_GetCongestionWindow (congestion h) <? bytesInFlight h then SendAck
  else if 0 <? len (retransmissionQueue h) then SendRetransmission
  else if MaxOutstandingSentPackets <=? numTrackedPackets then SendAck
  else SendAny.

(** [math.Ceil] and the conversion to an integer. *)
Definition ceil_int (x : float) : Z :=
  if 0 <=? expo x then mant x * 2 ^ expo x else - ((- mant x) / 2 ^ (- expo x)).

Definition ShouldSendNumPackets (h : sentPacketHandler) : outcome Z :=
  if 0 <? numRTOs h then Ok (numRTOs h) else
  delay ← sa_TimeUntilSend (rttStats h) (congestion h) (bytesInFlight h);
  Ok (if (delay =? 0) || (MinPacingDelay <? delay) then 1
      else ceil_int (fdiv prec64 (of_int prec64 MinPacingDelay) (of_int prec64 delay))).
End Handler.
