(* ===== verification/SentLinks.v ===== *)
(** * Packets and their retransmissions

    The invariant of the list of tracked packets: a packet and its
    retransmissions refer to each other, packets waiting in the retransmission
    queue have no retransmissions, and times follow packet numbers; what marking,
    acknowledging and removing packets does to it; and the packets that an ACK
    frame acknowledges. *)

From Stdlib Require Import Sorting.Sorted.
From S2P Require Import Prelude Qerr Protocol Float AckFrame RTTStats Congestion.
From S2P Require Import Frames FrameCodec FrameParser SentHistory PacketNumbers SentPackets.

(** ** A packet and its retransmissions *)

Record links_ok (ps : list Packet) : Prop := {
  links_down : forall q r, q ∈ ps -> r ∈ retransmittedAs q ->
    exists p, p ∈ ps /\ PacketNumber p = r /\ isRetransmission p = true
      /\ retransmissionOf p = PacketNumber q /\ isHandshake p = isHandshake q;
  links_up : forall p q, p ∈ ps -> isRetransmission p = true -> q ∈ ps ->
    PacketNumber q = retransmissionOf p -> PacketNumber p ∈ retransmittedAs q;
  links_lt : forall p, p ∈ ps -> isRetransmission p = true -> retransmissionOf p < PacketNumber p }.

(** What marking relies on. *)
Definition links_half (ps : list Packet) : Prop :=
  (forall q r, q ∈ ps -> r ∈ retransmittedAs q ->
     exists p, p ∈ ps /\ PacketNumber p = r /\ isRetransmission p = true
       /\ retransmissionOf p = PacketNumber q)
  /\ forall p, p ∈ ps -> isRetransmission p = true -> retransmissionOf p < PacketNumber p.

(** [ps'] is [ps] with some packets of [S] marked as not retransmittable. *)
Definition stopped (S : Z -> Prop) (ps ps' : list Packet) : Prop :=
  Forall2 (fun p p' => p' = p \/ p' = clear_canBeRetransmitted p /\ S (PacketNumber p)) ps ps'.

Lemma clear_idem p : clear_canBeRetransmitted (clear_canBeRetransmitted p) = clear_canBeRetransmitted p.
Proof. done. Qed.

Lemma stopped_refl S ps : stopped S ps ps.
Proof. apply Forall2_same_length_lookup. split; [done |]. intros i p q E1 E2. left. congruence. Qed.

Lemma stopped_trans S ps1 ps2 ps3 : stopped S ps1 ps2 -> stopped S ps2 ps3 -> stopped S ps1 ps3.
Proof.
  intros H. revert ps3. induction H as [| p p' ps1 ps2 Hp _ IH]; intros ps3 H'; inversion H'; subst.
  { constructor. }
  constructor; [| by apply IH]. destruct Hp as [-> | [-> ?]]; [done |].
  match goal with H : _ \/ _ |- _ => destruct H as [-> | [-> ?]] end; by right.
Qed.

Lemma stopped_mono (S S' : Z -> Prop) ps ps' : (forall x, S x -> S' x) -> stopped S ps ps' -> stopped S' ps ps'.
Proof. intros HS H. eapply Forall2_impl; [exact H |]. intros p q [? | [? ?]]; auto. Qed.

Lemma stopped_update ps pn : stopped (fun x => x = pn) ps (update_pn ps pn clear_canBeRetransmitted).
Proof.
  unfold update_pn. induction ps as [| p ps IH]; cbn; constructor; [| done].
  destruct (Z.eqb_spec (PacketNumber p) pn); auto.
Qed.

(** What is in both lists, up to the mark. *)
Lemma stopped_fwd S ps ps' p : stopped S ps ps' -> p ∈ ps ->
  exists p', p' ∈ ps' /\ clear_canBeRetransmitted p' = clear_canBeRetransmitted p
    /\ (p' = p \/ S (PacketNumber p)).
Proof.
  induction 1 as [| q q' ps ps' Hq _ IH]; [by intros ?%elem_of_nil |].
  intros [-> | Hp]%elem_of_cons.
  - exists q'. split; [by left |]. destruct Hq as [-> | [-> ?]]; auto.
  - destruct (IH Hp) as (p' & ? & ?). exists p'. split; [by right | done].
Qed.

Lemma stopped_bwd S ps ps' p' : stopped S ps ps' -> p' ∈ ps' ->
  exists p, p ∈ ps /\ clear_canBeRetransmitted p' = clear_canBeRetransmitted p
    /\ (p' = p \/ p' = clear_canBeRetransmitted p).
Proof.
  induction 1 as [| q q' ps ps' Hq _ IH]; [by intros ?%elem_of_nil |].
  intros [-> | Hp]%elem_of_cons.
  - exists q. split; [by left |]. destruct Hq as [-> | [-> ?]]; auto.
  - destruct (IH Hp) as (p & ? & ?). exists p. split; [by right | done].
Qed.

(** The fields that the mark does not change. *)
Lemma clear_fields p q : clear_canBeRetransmitted p = clear_canBeRetransmitted q ->
  PacketNumber p = PacketNumber q /\ retransmittedAs p = retransmittedAs q
  /\ isRetransmission p = isRetransmission q /\ retransmissionOf p = retransmissionOf q
  /\ isHandshake p = isHandshake q /\ Packet_Length p = Packet_Length q /\ SendTime p = SendTime q
  /\ includedInBytesInFlight p = includedInBytesInFlight q.
Proof. destruct p, q. unfold isHandshake. cbn. intros [=]. subst. by split_and!. Qed.

Lemma stopped_links S ps ps' : stopped S ps ps' -> links_ok ps -> links_ok ps'.
Proof.
  intros Hst [H1 H2 H3]. constructor.
  - intros q' r Hq' Hr. destruct (stopped_bwd _ _ _ _ Hst Hq') as (q & Hq & Eq & _).
    apply clear_fields in Eq as (E1 & E2 & E3 & E4 & E5 & _). rewrite E2 in Hr.
    destruct (H1 q r Hq Hr) as (p & Hp & ? & ? & ? & ?).
    destruct (stopped_fwd _ _ _ _ Hst Hp) as (p' & Hp' & Ep & _).
    apply clear_fields in Ep as (F1 & F2 & F3 & F4 & F5 & _). exists p'.
    rewrite F1, F3, F4, F5, E1, E5. done.
  - intros p' q' Hp' Hre Hq' E. destruct (stopped_bwd _ _ _ _ Hst Hp') as (p & Hp & Ep & _).
    destruct (stopped_bwd _ _ _ _ Hst Hq') as (q & Hq & Eq & _).
    apply clear_fields in Ep as (F1 & F2 & F3 & F4 & _). apply clear_fields in Eq as (E1 & E2 & _).
    rewrite E2, F1. apply H2; congruence.
  - intros p' Hp' Hre. destruct (stopped_bwd _ _ _ _ Hst Hp') as (p & Hp & Ep & _).
    apply clear_fields in Ep as (F1 & _ & F3 & F4 & _). rewrite F4, F1. apply H3; congruence.
Qed.

Lemma stopped_half S ps ps' : stopped S ps ps' -> links_half ps -> links_half ps'.
Proof.
  intros Hst [H1 H3]. split.
  - intros q' r Hq' Hr. destruct (stopped_bwd _ _ _ _ Hst Hq') as (q & Hq & Eq & _).
    apply clear_fields in Eq as (E1 & E2 & _). rewrite E2 in Hr.
    destruct (H1 q r Hq Hr) as (p & Hp & ? & ? & ?).
    destruct (stopped_fwd _ _ _ _ Hst Hp) as (p' & Hp' & Ep & _).
    apply clear_fields in Ep as (F1 & F2 & F3 & F4 & _). exists p'.
    rewrite F1, F3, F4, E1. done.
  - intros p' Hp' Hre. destruct (stopped_bwd _ _ _ _ Hst Hp') as (p & Hp & Ep & _).
    apply clear_fields in Ep as (F1 & _ & F3 & F4 & _). rewrite F4, F1. apply H3; congruence.
Qed.

(** The packets that carry the contents of packet [a] again. *)
Inductive derived (ps : list Packet) (a : Z) : Z -> Prop :=
  | derived_self : derived ps a a
  | derived_step q : q ∈ ps -> isRetransmission q = true -> derived ps a (retransmissionOf q) ->
      derived ps a (PacketNumber q).

Lemma derived_trans ps a b c : derived ps a b -> derived ps b c -> derived ps a c.
Proof. intros Hab Hbc. induction Hbc as [| q Hq Hre _ IH]; [done | by constructor]. Qed.

Lemma stopped_derived S ps ps' a x : stopped S ps ps' -> derived ps' a x -> derived ps a x.
Proof.
  intros Hst. induction 1 as [| q' Hq' Hre _ IH]; [constructor |].
  destruct (stopped_bwd _ _ _ _ Hst Hq') as (q & Hq & Eq & _).
  apply clear_fields in Eq as (E1 & _ & E3 & E4 & _). rewrite E1. constructor; [done | congruence |].
  by rewrite <- E4.
Qed.

(** ** Marking a packet and its retransmissions *)

(** The packets with a number of at least [pn]. *)
Definition above (ps : list Packet) (pn : Z) : nat :=
  length (filter (fun p => pn <= PacketNumber p) ps).

Lemma above_cons r ps pn :
  above (r :: ps) pn = ((if decide (pn <= PacketNumber r)%Z then 1 else 0) + above ps pn)%nat.
Proof. unfold above. rewrite filter_cons. by destruct (decide _). Qed.

Lemma above_mono ps a b : a <= b -> (above ps b <= above ps a)%nat.
Proof.
  intros Hle. induction ps as [| r ps IH]; [done |]. rewrite !above_cons.
  destruct (decide (b <= PacketNumber r)), (decide (a <= PacketNumber r)); lia.
Qed.

Lemma above_lt ps p q : p ∈ ps -> PacketNumber p < PacketNumber q ->
  (above ps (PacketNumber q) < above ps (PacketNumber p))%nat.
Proof.
  intros Hp Hlt. induction ps as [| r ps IH]; [by apply elem_of_nil in Hp |]. rewrite !above_cons.
  apply elem_of_cons in Hp as [-> | Hp].
  - rewrite decide_False, decide_True by lia.
    assert (H := above_mono ps (PacketNumber r) (PacketNumber q)). lia.
  - specialize (IH Hp). destruct (decide (PacketNumber q <= PacketNumber r)),
      (decide (PacketNumber p <= PacketNumber r)); lia.
Qed.

Lemma above_stopped S ps ps' pn : stopped S ps ps' -> above ps' pn = above ps pn.
Proof.
  induction 1 as [| p p' ps ps' Hp _ IH]; [done |]. rewrite !above_cons.
  assert (PacketNumber p' = PacketNumber p) as -> by (by destruct Hp as [-> | [-> _]]).
  by rewrite IH.
Qed.

(** Marking does not fail, and marks only packets derived from the given one. *)
Lemma stop_retransmissions_ok fuel : forall h p,
  hist_inv h -> links_half (packets h) -> find_pn (packets h) (PacketNumber p) = Some p ->
  (above (packets h) (PacketNumber p) <= fuel)%nat ->
  exists h', stop_retransmissions fuel h p = Ok (None, h') /\ hist_inv h'
    /\ stopped (derived (packets h) (PacketNumber p)) (packets h) (packets h').
Proof.
  induction fuel as [| fuel IH]; intros h p Hinv Hlinks Hp Hfuel.
  { exfalso. apply find_pn_elem in Hp. unfold above in Hfuel.
    assert (Hin : p ∈ filter (fun q => PacketNumber p <= PacketNumber q) (packets h))
      by (apply list_elem_of_filter; split; [lia | done]).
    destruct (filter _ _); [by apply elem_of_nil in Hin | cbn in Hfuel; lia]. }
  cbn [stop_retransmissions].
  destruct (Mark_refines h (PacketNumber p) p Hinv Hp) as (h1 & -> & Hinv1 & E1).
  assert (Hst1 : stopped (derived (packets h) (PacketNumber p)) (packets h) (packets h1)).
  { rewrite E1. eapply stopped_mono; [| apply stopped_update]. intros x ->. constructor. }
  assert (Hrs : forall r, r ∈ retransmittedAs p -> exists q, q ∈ packets h /\ PacketNumber q = r
    /\ isRetransmission q = true /\ retransmissionOf q = PacketNumber p).
  { intros r Hr. destruct (proj1 Hlinks p r) as (q & ? & ? & ? & ?);
      [by eapply find_pn_elem | done |]. by exists q. }
  revert Hrs. generalize (retransmittedAs p) as rs.
  assert (Hgoal : forall rs h1, hist_inv h1 ->
    stopped (derived (packets h) (PacketNumber p)) (packets h) (packets h1) ->
    (forall r, r ∈ rs -> exists q, q ∈ packets h /\ PacketNumber q = r
       /\ isRetransmission q = true /\ retransmissionOf q = PacketNumber p) ->
    exists h', stop_children (stop_retransmissions fuel) (PacketNumber p) rs h1 = Ok (None, h')
      /\ hist_inv h' /\ stopped (derived (packets h) (PacketNumber p)) (packets h) (packets h')).
  { clear h1 Hinv1 E1 Hst1. induction rs as [| r rs IHrs]; intros h1 Hinv1 Hst Hrs; cbn [stop_children].
    { by exists h1. }
    destruct (Hrs r) as (q & Hq & Eq & Hre & Hof); [set_solver |].
    destruct (stopped_fwd _ _ _ _ Hst Hq) as (q1 & Hq1 & Eq1 & _).
    apply clear_fields in Eq1 as (F1 & F2 & F3 & F4 & _).
    assert (Hfind : find_pn (packets h1) r = Some q1).
    { rewrite <- Eq, <- F1. apply find_pn_Some; [apply Hinv1 | done]. }
    rewrite GetPacket_find, Hfind by done.
    assert (Hlt : PacketNumber p < PacketNumber q1).
    { rewrite F1, <- Hof. by apply Hlinks. }
    destruct (IH h1 q1) as (h2 & -> & Hinv2 & Hst2); [done | by eapply stopped_half | by rewrite F1, Eq | |].
    { rewrite (above_stopped _ _ _ _ Hst). apply find_pn_elem in Hp.
      assert (H := above_lt (packets h) p q1 Hp Hlt). lia. }
    cbn [mbind outcome_bind]. apply IHrs; [done | | set_solver].
    eapply stopped_trans; [exact Hst |]. eapply stopped_mono; [| exact Hst2].
    intros x Hx. eapply (stopped_derived _ _ _ _ _ Hst) in Hx. eapply derived_trans; [| exact Hx].
    rewrite F1. constructor; [done | done |]. rewrite Hof. constructor. }
  intros rs Hrs. by apply Hgoal.
Qed.

(** ** Acknowledging one packet *)

Definition unlink (ps : list Packet) (p : Packet) : list Packet :=
  if isRetransmission p then
    update_pn ps (retransmissionOf p) (fun q =>
      set_retransmittedAs q (filter (fun pn => pn <> PacketNumber p) (retransmittedAs q)))
  else ps.

Lemma elem_of_update_pn ps pn f p' : p' ∈ update_pn ps pn f
  <-> exists p, p ∈ ps /\ p' = if PacketNumber p =? pn then f p else p.
Proof.
  unfold update_pn. rewrite list_elem_of_In, in_map_iff. setoid_rewrite list_elem_of_In.
  split; intros (p & ? & ?); exists p; split; congruence.
Qed.

Lemma elem_of_remove_pn ps pn p : p ∈ remove_pn ps pn <-> PacketNumber p <> pn /\ p ∈ ps.
Proof. unfold remove_pn. by rewrite list_elem_of_filter. Qed.

Lemma find_pn_None ps pn : find_pn ps pn = None <-> Forall (fun q => PacketNumber q <> pn) ps.
Proof.
  induction ps as [| q ps IH]; cbn; [split; [constructor | done] |]. rewrite Forall_cons, <- IH.
  destruct (Z.eqb_spec (PacketNumber q) pn); [split; [done | tauto] | tauto].
Qed.

Lemma pn_inj ps p q : StronglySorted pn_lt ps -> p ∈ ps -> q ∈ ps -> PacketNumber p = PacketNumber q -> p = q.
Proof.
  intros Hs Hp Hq E. apply (find_pn_Some _ _ Hs) in Hp, Hq. congruence.
Qed.

Lemma filter_single (l : list Z) x : (length l <= 1)%nat -> x ∈ l -> filter (fun y => y <> x) l = [].
Proof.
  intros Hl Hx. destruct l as [| a [| b l]]; cbn in Hl; try lia; [by apply elem_of_nil in Hx |].
  apply list_elem_of_singleton in Hx as ->. by rewrite filter_cons_False by (by intros []).
Qed.

Lemma unlink_parent_refines h p : hist_inv h -> links_ok (packets h) -> p ∈ packets h ->
  exists h', unlink_parent h p = Ok h' /\ hist_inv h' /\ packets h' = unlink (packets h) p.
Proof.
  intros Hinv Hl Hp. unfold unlink_parent, unlink.
  destruct (isRetransmission p) eqn:Hre; [| by exists h].
  assert (H := hist_find h (retransmissionOf p) Hinv).
  destruct (find_pn (packets h) (retransmissionOf p)) as [q |] eqn:Ef.
  2:{ rewrite H. exists h. split; [done |]. split; [done |].
      symmetry. apply update_pn_other. by apply find_pn_None. }
  destruct H as (id & l1 & l2 & Em & El & Eq & Hid & _). rewrite Em, El, el_Value_split by done.
  assert (Hup : PacketNumber p ∈ retransmittedAs q).
  { apply (links_up _ Hl); try done. by eapply find_pn_elem. }
  set (f := fun q => set_retransmittedAs q (filter (fun pn => pn <> PacketNumber p) (retransmittedAs q))).
  destruct (store_refines h (retransmissionOf p) q (f q) id) as [Hinv' Epk]; try done.
  rewrite (update_pn_ext _ _ _ f q) in Epk; [| apply Hinv | done | done].
  exists (history_store h id (f q)). split; [| done].
  destruct (Z.eqb_spec (len (retransmittedAs q)) 1) as [E1 | E1].
  - unfold f. rewrite filter_single; [done | unfold len in E1; lia | done].
  - destruct (Z.ltb_spec (len (retransmittedAs q) - 1) 0); [| done].
    assert (Hz : len (retransmittedAs q) = 0) by (pose proof (len_nonneg (retransmittedAs q)); lia).
    apply len_zero in Hz. rewrite Hz in Hup. by apply elem_of_nil in Hup.
Qed.

Lemma unlink_fields ps p q' : q' ∈ unlink ps p ->
  exists q, q ∈ ps /\ PacketNumber q' = PacketNumber q /\ isRetransmission q' = isRetransmission q
    /\ retransmissionOf q' = retransmissionOf q /\ isHandshake q' = isHandshake q
    /\ (forall r, r ∈ retransmittedAs q' <-> r ∈ retransmittedAs q
          /\ ~ (isRetransmission p = true /\ PacketNumber q = retransmissionOf p /\ r = PacketNumber p)).
Proof.
  unfold unlink. destruct (isRetransmission p).
  - intros (q & Hq & ->)%elem_of_update_pn. exists q. split; [done |].
    destruct (Z.eqb_spec (PacketNumber q) (retransmissionOf p)).
    + split_and!; try done. intros r. cbn [retransmittedAs set_retransmittedAs].
      rewrite list_elem_of_filter. naive_solver.
    + split_and!; try done. intros r. naive_solver.
  - intros Hq. exists q'. split_and!; try done. intros r. naive_solver.
Qed.

Lemma unlink_fwd ps p q : q ∈ ps -> exists q', q' ∈ unlink ps p /\ PacketNumber q' = PacketNumber q
  /\ isRetransmission q' = isRetransmission q /\ retransmissionOf q' = retransmissionOf q
  /\ isHandshake q' = isHandshake q.
Proof.
  intros Hq. unfold unlink. destruct (isRetransmission p); [| by exists q].
  eexists. split; [apply elem_of_update_pn; by exists q |]. by destruct (PacketNumber q =? _).
Qed.

Lemma unlink_half ps p : links_ok ps -> links_half (unlink ps p).
Proof.
  intros [H1 H2 H3]. split.
  - intros q' r Hq' Hr. destruct (unlink_fields _ _ _ Hq') as (q & Hq & E1 & _ & _ & _ & Hrs).
    destruct (proj1 (Hrs r) Hr) as [Hr0 _]. destruct (H1 q r Hq Hr0) as (x & Hx & ? & ? & ? & _).
    destruct (unlink_fwd ps p x Hx) as (x' & Hx' & F1 & F2 & F3 & _). exists x'.
    rewrite F1, F2, F3, E1. done.
  - intros q' Hq' Hre. destruct (unlink_fields _ _ _ Hq') as (q & Hq & E1 & E2 & E3 & _).
    rewrite E1, E3. apply H3; congruence.
Qed.

Lemma links_ack ps p : StronglySorted pn_lt ps -> links_ok ps -> p ∈ ps ->
  links_ok (remove_pn (unlink ps p) (PacketNumber p)).
Proof.
  intros Hs [H1 H2 H3] Hp. constructor.
  - intros q' r [Hne Hq']%elem_of_remove_pn Hr.
    destruct (unlink_fields _ _ _ Hq') as (q & Hq & E1 & _ & _ & E4 & Hrs). destruct (proj1 (Hrs r) Hr) as [Hr0 Hno].
    destruct (H1 q r Hq Hr0) as (x & Hx & Er & Hre & Hof & Hhs).
    destruct (unlink_fwd ps p x Hx) as (x' & Hx' & F1 & F2 & F3 & F4). exists x'.
    split; [apply elem_of_remove_pn; split; [| done] | by rewrite F1, F2, F3, F4, E1, E4].
    intros E. apply Hno. assert (x = p) as -> by (apply (pn_inj ps); congruence). done.
  - intros x' q' [Hne Hx']%elem_of_remove_pn Hre [_ Hq']%elem_of_remove_pn E.
    destruct (unlink_fields _ _ _ Hx') as (x & Hx & F1 & F2 & F3 & _).
    destruct (unlink_fields _ _ _ Hq') as (q & Hq & E1 & _ & _ & _ & Hrs). apply Hrs.
    rewrite F1. split; [apply H2; congruence |]. intros (_ & _ & E'). congruence.
  - intros q' [_ Hq']%elem_of_remove_pn Hre. destruct (unlink_fields _ _ _ Hq') as (q & Hq & E1 & E2 & E3 & _).
    rewrite E1, E3. apply H3; congruence.
Qed.

Lemma stopped_remove S ps ps' pn : stopped S ps ps' -> stopped S (remove_pn ps pn) (remove_pn ps' pn).
Proof.
  unfold remove_pn. induction 1 as [| p p' ps ps' Hp _ IH]; [constructor |]. rewrite !filter_cons.
  assert (PacketNumber p' = PacketNumber p) as -> by (by destruct Hp as [-> | [-> _]]).
  destruct (decide (PacketNumber p <> pn)); [by constructor | done].
Qed.

(** ** The packets an ACK frame acknowledges *)

(** A frame as the parser accepts it. *)
Definition ranges_wf (f : AckFrame) : Prop := ack_wf (mkAckFrame (AckRanges f) 0).

Definition acks (f : AckFrame) (pn : Z) : bool := existsb (in_range pn) (AckRanges f).

Lemma AcksPacket_acks f pn : ranges_wf f -> AcksPacket f pn = Ok (acks f pn).
Proof. intros Hwf. exact (AcksPacket_spec (mkAckFrame (AckRanges f) 0) pn Hwf). Qed.

(** The ranges in increasing order. *)
Lemma descending_range_at l : descending l -> forall i j a b, (i < j)%nat ->
  l !! i = Some a -> l !! j = Some b -> Largest b < Smallest a.
Proof.
  induction l as [| r l IH]; intros Hd i j a b Hij Ha Hb; [done |].
  destruct j as [| j]; [lia |]. cbn in Hb. destruct i as [| i].
  - injection Ha as <-. assert (H := descending_bounds r l b Hd). 
    assert (In b l) as Hin by (eapply list_elem_of_In, list_elem_of_lookup_2; done).
    specialize (H Hin). lia.
  - apply (IH (descending_tail r l Hd) i j); (done || lia).
Qed.

Lemma range_at_lookup f i r : range_at f i = Ok r -> (i < length (AckRanges f))%nat ->
  AckRanges f !! (length (AckRanges f) - 1 - i)%nat = Some r.
Proof. unfold range_at, index. case_match; [by intros [= ->] | done]. Qed.

Lemma range_at_ok f i : (i < length (AckRanges f))%nat -> exists r, range_at f i = Ok r.
Proof.
  intros Hi. unfold range_at, index.
  destruct (AckRanges f !! _) as [r |] eqn:E; [by exists r |]. apply lookup_ge_None in E. lia.
Qed.

Lemma range_at_lt f i j a b : ranges_wf f -> (i < j < length (AckRanges f))%nat ->
  range_at f i = Ok a -> range_at f j = Ok b -> Largest a < Smallest b.
Proof.
  intros (Hd & _) Hij Ha Hb. apply range_at_lookup in Ha, Hb; [| lia..].
  eapply (descending_range_at _ Hd); [| exact Hb | exact Ha]. lia.
Qed.

Lemma acks_range f pn : acks f pn = true <->
  exists i r, (i < length (AckRanges f))%nat /\ range_at f i = Ok r /\ Smallest r <= pn <= Largest r.
Proof.
  unfold acks. rewrite existsb_exists. split.
  - intros (r & Hr & Hin). unfold in_range in Hin. bool_to_prop.
    apply list_elem_of_In, list_elem_of_lookup in Hr as [k Hk].
    assert (Hk' := lookup_lt_Some _ _ _ Hk).
    exists (length (AckRanges f) - 1 - k)%nat, r. split; [lia |]. split; [| done].
    unfold range_at, index. replace (length (AckRanges f) - 1 - (length (AckRanges f) - 1 - k))%nat with k by lia.
    by rewrite Hk.
  - intros (i & r & Hi & Hr & Hin). exists r. apply range_at_lookup in Hr; [| done].
    split; [by eapply list_elem_of_In, list_elem_of_lookup_2 |]. unfold in_range.
    apply andb_true_iff. split; [apply Z.leb_le | apply Z.leb_le]; lia.
Qed.

(** The range found for a packet number. *)
Lemma advance_range_ok f pn largest : ranges_wf f ->
  range_at f (length (AckRanges f) - 1) = Ok largest -> pn <= Largest largest ->
  forall fuel i, (i < length (AckRanges f))%nat -> (length (AckRanges f) - i <= fuel)%nat ->
  (forall j a, (j < i)%nat -> range_at f j = Ok a -> Largest a < pn) ->
  exists i' r, advance_range fuel f pn i = Ok i' /\ (i' < length (AckRanges f))%nat
    /\ range_at f i' = Ok r /\ pn <= Largest r
    /\ (forall j a, (j < i')%nat -> range_at f j = Ok a -> Largest a < pn).
Proof.
  intros Hwf Hlast Hpn. induction fuel as [| fuel IH]; intros i Hi Hfuel Hlow; [lia |].
  cbn [advance_range]. destruct (range_at_ok f i Hi) as [r Hr]. rewrite Hr. cbn [mbind outcome_bind].
  destruct (Z.ltb_spec (Largest r) pn) as [Hlt | Hge]; cbn [andb].
  - destruct (Nat.ltb_spec i (length (AckRanges f) - 1)).
    + apply IH; [lia | lia |]. intros j a Hj Ha.
      destruct (Nat.eq_dec j i) as [-> |]; [congruence |]. apply (Hlow j a); [lia | done].
    + assert (i = length (AckRanges f) - 1)%nat as -> by lia. rewrite Hlast in Hr. injection Hr as ->. lia.
  - exists i, r. by split_and!.
Qed.

Lemma found_range f pn i r : ranges_wf f -> (i < length (AckRanges f))%nat -> range_at f i = Ok r ->
  pn <= Largest r -> (forall j a, (j < i)%nat -> range_at f j = Ok a -> Largest a < pn) ->
  acks f pn = (Smallest r <=? pn).
Proof.
  intros Hwf Hi Hr Hle Hlow. apply eq_bool_prop_intro. rewrite !Is_true_true, acks_range, Z.leb_le. split.
  - intros (j & a & Hj & Ha & Hin). destruct (Nat.lt_trichotomy j i) as [Hji | [-> | Hij]].
    + specialize (Hlow j a Hji Ha). lia.
    + rewrite Hr in Ha. injection Ha as ->. lia.
    + assert (H := range_at_lt f i j r a Hwf ltac:(lia) Hr Ha). lia.
  - intros Hs. exists i, r. split_and!; try done; lia.
Qed.

Lemma ranges_ends f : ranges_wf f -> exists lo hi,
  range_at f 0 = Ok lo /\ range_at f (length (AckRanges f) - 1) = Ok hi
  /\ LowestAcked f = Ok (Smallest lo) /\ LargestAcked f = Ok (Largest hi)
  /\ (0 < length (AckRanges f))%nat
  /\ forall pn, acks f pn = true -> Smallest lo <= pn <= Largest hi.
Proof.
  intros Hwf. assert (Hn : (0 < length (AckRanges f))%nat).
  { destruct Hwf as (_ & Hne & _). cbn in Hne. destruct (AckRanges f); [done | cbn; lia]. }
  destruct (range_at_ok f 0 Hn) as [lo Hlo].
  destruct (range_at_ok f (length (AckRanges f) - 1)) as [hi Hhi]; [lia |].
  exists lo, hi. split_and!; try done.
  - unfold LowestAcked. apply range_at_lookup in Hlo; [| done]. rewrite Nat.sub_0_r in Hlo.
    rewrite last_lookup. replace (pred (length (AckRanges f))) with (length (AckRanges f) - 1)%nat by lia.
    by rewrite Hlo.
  - unfold LargestAcked, index. apply range_at_lookup in Hhi; [| lia].
    rewrite Nat.sub_diag in Hhi. by rewrite Hhi.
  - intros pn (i & r & Hi & Hr & Hin)%acks_range.
    assert (Hval : forall k a, (k < length (AckRanges f))%nat -> range_at f k = Ok a -> Smallest a <= Largest a).
    { intros k a Hk Ha. apply range_at_lookup in Ha; [| done]. destruct Hwf as (Hd & _).
      cbn [AckRanges] in Hd. destruct (AckRanges f) as [| r0 l] eqn:El; [done |].
      assert (H := descending_all r0 l a Hd). rewrite <- list_elem_of_In in H.
      specialize (H ltac:(by eapply list_elem_of_lookup_2)). lia. }
    assert (Hl := Hval _ _ Hn Hlo). assert (Hh := Hval (length (AckRanges f) - 1)%nat hi ltac:(lia) Hhi). split.
    + destruct (Nat.eq_dec i 0%nat) as [-> |]; [rewrite Hlo in Hr; injection Hr as ->; lia |].
      assert (H := range_at_lt f 0%nat i lo r Hwf ltac:(lia) Hlo Hr). lia.
    + destruct (Nat.eq_dec i (length (AckRanges f) - 1)%nat) as [-> |];
        [rewrite Hhi in Hr; injection Hr as ->; lia |].
      assert (H := range_at_lt f i (length (AckRanges f) - 1)%nat r hi Hwf ltac:(lia) Hr Hhi). lia.
Qed.

Definition acked_of (f : AckFrame) (ps : list Packet) : list Packet :=
  filter (fun p => acks f (PacketNumber p) = true) ps.

Lemma acked_iterate f lo hi : ranges_wf f -> range_at f 0 = Ok lo ->
  range_at f (length (AckRanges f) - 1) = Ok hi -> (0 < length (AckRanges f))%nat ->
  (forall pn, acks f pn = true -> Smallest lo <= pn <= Largest hi) ->
  forall l acc i, StronglySorted pn_lt l.*2 -> (i < length (AckRanges f))%nat ->
  (forall p j a, p ∈ l.*2 -> (j < i)%nat -> range_at f j = Ok a -> Largest a < PacketNumber p) ->
  exists i', iterate (acked_callback f (Smallest lo) (Largest hi)) l (acc, i)
    = Ok (acc ++ acked_of f l.*2, i').
Proof.
  intros Hwf Hlo Hhi Hn Hends. unfold acked_of.
  induction l as [| [id p] l IH]; intros acc i Hs Hi Hlow; cbn [iterate fmap list_fmap snd].
  { exists i. by rewrite app_nil_r. }
  cbn [fmap list_fmap snd] in Hs, Hlow. apply StronglySorted_inv in Hs as [Hs Hp].
  assert (Hlow' : forall q j a, q ∈ l.*2 -> (j < i)%nat -> range_at f j = Ok a -> Largest a < PacketNumber q)
    by (intros q j a Hq; apply Hlow; by right).
  set (rest := iterate (acked_callback f (Smallest lo) (Largest hi)) l) in *. unfold acked_callback.
  destruct (Z.ltb_spec (PacketNumber p) (Smallest lo)) as [H1 | H1].
  { cbn [mbind outcome_bind]. rewrite filter_cons_False by (intros ?%Hends; lia). by apply IH. }
  destruct (Z.ltb_spec (Largest hi) (PacketNumber p)) as [H2 | H2].
  { cbn [mbind outcome_bind]. exists i. rewrite filter_cons_False by (intros ?%Hends; lia).
    assert (filter (fun p => acks f (PacketNumber p) = true) l.*2 = []) as ->; [| by rewrite app_nil_r].
    destruct (filter _ l.*2) as [| q qs] eqn:E; [done |]. exfalso.
    assert (Hq : q ∈ filter (fun p => acks f (PacketNumber p) = true) l.*2) by (rewrite E; by left).
    apply list_elem_of_filter in Hq as [Hq Hin]. apply Hends in Hq.
    rewrite Forall_forall in Hp. specialize (Hp q Hin). unfold pn_lt in Hp. lia. }
  unfold HasMissingRanges. destruct (Nat.ltb_spec 1 (length (AckRanges f))) as [H3 | H3].
  - destruct (advance_range_ok f (PacketNumber p) hi Hwf Hhi H2 (length (AckRanges f)) i Hi ltac:(lia))
      as (i' & r & -> & Hi' & Hr & Hle & Hlow2).
    { intros j a Hj Ha. apply (Hlow p j a); [by left | done | done]. }
    cbn [mbind outcome_bind]. rewrite Hr. cbn [mbind outcome_bind].
    assert (Hacks := found_range f (PacketNumber p) i' r Hwf Hi' Hr Hle Hlow2).
    assert (Hlow3 : forall q j a, q ∈ l.*2 -> (j < i')%nat -> range_at f j = Ok a -> Largest a < PacketNumber q).
    { intros q j a Hq Hj Ha. specialize (Hlow2 j a Hj Ha). rewrite Forall_forall in Hp.
      specialize (Hp q Hq). unfold pn_lt in Hp. lia. }
    destruct (Z.leb_spec (Smallest r) (PacketNumber p)).
    + destruct (Z.ltb_spec (Largest r) (PacketNumber p)); [lia |]. cbn [mbind outcome_bind].
      rewrite filter_cons_True by done.
      destruct (IH (acc ++ [p]) i') as [k ->]; [done.. |]. exists k. by rewrite <- app_assoc.
    + cbn [mbind outcome_bind]. rewrite filter_cons_False by (rewrite Hacks; done). by apply IH.
  - cbn [mbind outcome_bind]. rewrite filter_cons_True.
    { destruct (IH (acc ++ [p]) i) as [k ->]; [done.. |]. exists k. by rewrite <- app_assoc. }
    assert (E : length (AckRanges f) = 1%nat) by lia. rewrite E in Hhi. cbn in Hhi. rewrite Hlo in Hhi.
    injection Hhi as ->. apply acks_range. exists 0%nat, hi. split_and!; try done; lia.
Qed.

Lemma determineNewlyAcked_ok {C} (h : @sentPacketHandler C) f :
  hist_inv (packetHistory h) -> ranges_wf f ->
  determineNewlyAckedPackets h f = Ok (acked_of f (packets (packetHistory h))).
Proof.
  intros Hinv Hwf. destruct (ranges_ends f Hwf) as (lo & hi & Hlo & Hhi & E1 & E2 & Hn & Hends).
  unfold determineNewlyAckedPackets, history_Iterate. rewrite E1, E2. cbn [mbind outcome_bind].
  destruct (acked_iterate f lo hi Hwf Hlo Hhi Hn Hends (packetList (packetHistory h)) [] 0) as [i' ->];
    [apply Hinv | done | intros; lia |]. done.
Qed.

(** ** The tracked packets *)

(** The fields of a packet that never change, and how the others change. *)
Definition view (p : Packet) : Z * Z * Z * bool * bool * bool * Z :=
  (PacketNumber p, Packet_Length p, SendTime p, includedInBytesInFlight p, isHandshake p,
   isRetransmission p, retransmissionOf p).

Definition le_pkt (q' q : Packet) : Prop :=
  view q' = view q /\ (canBeRetransmitted q' = true -> canBeRetransmitted q = true)
  /\ forall r, r ∈ retransmittedAs q' -> r ∈ retransmittedAs q.

Definition covers (ps ps' : list Packet) : Prop :=
  forall q', q' ∈ ps' -> exists q, q ∈ ps /\ le_pkt q' q.

Lemma le_pkt_refl q : le_pkt q q.
Proof. by split_and!. Qed.

Lemma covers_refl ps : covers ps ps.
Proof. intros q Hq. exists q. split; [done | apply le_pkt_refl]. Qed.

Lemma covers_trans ps1 ps2 ps3 : covers ps1 ps2 -> covers ps2 ps3 -> covers ps1 ps3.
Proof.
  intros H1 H2 q3 (q2 & (q1 & Hq1 & E1 & F1 & G1)%H1 & E2 & F2 & G2)%H2. exists q1. split; [done |].
  split; [congruence |]. split; auto.
Qed.

Lemma covers_stopped S ps ps' : stopped S ps ps' -> covers ps ps'.
Proof.
  intros Hst q' Hq'. destruct (stopped_bwd _ _ _ _ Hst Hq') as (q & Hq & _ & [-> | ->]); exists q;
    (split; [done |]); by split_and!.
Qed.

Lemma covers_remove ps pn : covers ps (remove_pn ps pn).
Proof. intros q [_ Hq]%elem_of_remove_pn. exists q. split; [done | apply le_pkt_refl]. Qed.

Lemma covers_unlink ps p : covers ps (unlink ps p).
Proof.
  intros q'. unfold unlink. destruct (isRetransmission p); [| apply covers_refl].
  intros (q & Hq & ->)%elem_of_update_pn. exists q. split; [done |].
  destruct (PacketNumber q =? _); [| apply le_pkt_refl]. split; [done |]. split; [done |].
  intros r. cbn. rewrite list_elem_of_filter. tauto.
Qed.

Lemma derived_covers ps ps' a x : covers ps ps' -> derived ps' a x -> derived ps a x.
Proof.
  intros Hc. induction 1 as [| q' Hq' Hre _ IH]; [constructor |].
  destruct (Hc q' Hq') as (q & Hq & Ev & _). injection Ev as E1 _ _ _ _ E2 E3.
  rewrite E1. constructor; [done | congruence | by rewrite <- E3].
Qed.

Record tracked_ok (ps queue : list Packet) (last clock : Z) : Prop := {
  tr_pkt : forall p, p ∈ ps -> includedInBytesInFlight p = true /\ 0 <= Packet_Length p <= 2 ^ 16
    /\ (canBeRetransmitted p = true -> retransmittedAs p = []);
  tr_time : forall p q, p ∈ ps -> q ∈ ps -> PacketNumber p < PacketNumber q -> SendTime p <= SendTime q;
  tr_clock : forall p, p ∈ ps -> SendTime p <= clock;
  tr_last : forall p, p ∈ ps \/ p ∈ queue -> 0 <= PacketNumber p <= last;
  tr_nodup : NoDup (PacketNumber <$> queue);
  tr_queue : forall p x, p ∈ ps -> x ∈ queue -> PacketNumber x = PacketNumber p ->
    canBeRetransmitted p = false /\ retransmittedAs p = [] /\ isHandshake x = isHandshake p }.

Lemma nil_sub (l k : list Z) : (forall r, r ∈ l -> r ∈ k) -> k = [] -> l = [].
Proof. intros H ->. destruct l as [| x l]; [done |]. specialize (H x). set_solver. Qed.

Lemma covers_tracked ps ps' queue last clock : covers ps ps' -> tracked_ok ps queue last clock ->
  tracked_ok ps' queue last clock.
Proof.
  intros Hc [H1 H2 H3 H4 H5 H6]. constructor; [| | | | done |].
  - intros p' (p & Hp & Ev & Hcan & Hsub)%Hc. injection Ev as E1 E2 E3 E4 E5 E6 E7.
    destruct (H1 p Hp) as (? & ? & Hnil). rewrite E2, E4. split_and!; try done; try lia.
    intros Hcan'. eapply nil_sub; [exact Hsub | by auto].
  - intros p' q' (p & Hp & Ev & _)%Hc (q & Hq & Ev' & _)%Hc.
    injection Ev as E1 E2 E3 E4 E5 E6 E7. injection Ev' as F1 F2 F3 F4 F5 F6 F7.
    rewrite E1, E3, F1, F3. by apply H2.
  - intros p' (p & Hp & Ev & _)%Hc. injection Ev as E1 E2 E3 E4 E5 E6 E7. rewrite E3. by apply H3.
  - intros p' [(p & Hp & Ev & _)%Hc | Hp]; [| by auto].
    injection Ev as E1 E2 E3 E4 E5 E6 E7. rewrite E1. auto.
  - intros p' x (p & Hp & Ev & Hcan & Hsub)%Hc Hx. injection Ev as E1 E2 E3 E4 E5 E6 E7.
    rewrite E1, E5. intros E. destruct (H6 p x Hp Hx E) as (H7 & H8 & H9). split_and!; [| | done].
    + destruct (canBeRetransmitted p'); [| done]. by rewrite <- H7, Hcan.
    + by eapply nil_sub.
Qed.

(** The bytes of the packets. *)
Fixpoint total (ps : list Packet) : Z :=
  match ps with
  | [] => 0
  | p :: ps => Packet_Length p + total ps
  end.

Lemma total_app ps qs : total (ps ++ qs) = total ps + total qs.
Proof. induction ps as [| p ps IH]; cbn [total app]; [lia |]. rewrite IH. lia. Qed.

Lemma total_nonneg ps : (forall p, p ∈ ps -> 0 <= Packet_Length p) -> 0 <= total ps.
Proof.
  induction ps as [| p ps IH]; cbn [total]; intros H; [lia |].
  assert (0 <= Packet_Length p) by (apply H; by left). assert (0 <= total ps) by (apply IH; intros; apply H; by right).
  lia.
Qed.

Lemma total_update ps pn f : (forall p, Packet_Length (f p) = Packet_Length p) -> total (update_pn ps pn f) = total ps.
Proof.
  intros Hf. unfold update_pn. induction ps as [| p ps IH]; cbn [map total]; [done |].
  rewrite IH. destruct (PacketNumber p =? pn); [by rewrite Hf | done].
Qed.

Lemma total_unlink ps p : total (unlink ps p) = total ps.
Proof. unfold unlink. destruct (isRetransmission p); [by apply total_update | done]. Qed.

Lemma total_stopped S ps ps' : stopped S ps ps' -> total ps' = total ps.
Proof. induction 1 as [| p p' ps ps' Hp _ IH]; [done |]. cbn [total]. rewrite IH. by destruct Hp as [-> | [-> _]]. Qed.

Lemma total_remove ps p : StronglySorted pn_lt ps -> p ∈ ps ->
  total (remove_pn ps (PacketNumber p)) = total ps - Packet_Length p.
Proof.
  intros Hs (l1 & l2 & ->)%list_elem_of_split. rewrite remove_pn_split by done.
  rewrite !total_app. cbn [total]. lia.
Qed.

Lemma total_ge ps p : (forall p, p ∈ ps -> 0 <= Packet_Length p) -> p ∈ ps -> Packet_Length p <= total ps.
Proof.
  intros Hn (l1 & l2 & ->)%list_elem_of_split. rewrite total_app. cbn [total].
  assert (0 <= total l1) by (apply total_nonneg; intros; apply Hn; set_solver).
  assert (0 <= total l2) by (apply total_nonneg; intros; apply Hn; set_solver). lia.
Qed.
