(* ===== verification/LossRecovery.v ===== *)
(** * Correctness of loss recovery

    The invariant of the sent-packet handler: the bytes in flight are those of
    the tracked packets, a packet and its retransmissions refer to each other,
    and the packets of the retransmission queue wait for a retransmission. *)

From Stdlib Require Import Sorting.Sorted.
From S2P Require Import Prelude Qerr Protocol Float AckFrame RTTStats Congestion.
From S2P Require Import Frames FrameCodec FrameParser SentHistory PacketNumbers SentPackets SentLinks.

(** ** The handler *)

Definition nums (ps : list Packet) : list Z := PacketNumber <$> ps.

Lemma elem_of_nums ps x : x ∈ nums ps <-> exists p, p ∈ ps /\ PacketNumber p = x.
Proof. unfold nums. rewrite list_elem_of_fmap. split; intros (p & ? & ?); exists p; split; congruence. Qed.

Lemma nums_unlink ps p : nums (unlink ps p) = nums ps.
Proof.
  unfold unlink, update_pn, nums. destruct (isRetransmission p); [| done].
  induction ps as [| q ps IH]; [done |]. cbn. rewrite IH. by destruct (PacketNumber q =? _).
Qed.

Lemma nums_stopped S ps ps' : stopped S ps ps' -> nums ps' = nums ps.
Proof.
  unfold nums. induction 1 as [| p p' ps ps' Hp _ IH]; [done |]. cbn. rewrite IH. f_equal.
  by destruct Hp as [-> | [-> _]].
Qed.

Lemma elem_of_nums_remove ps pn x : x ∈ nums (remove_pn ps pn) <-> x <> pn /\ x ∈ nums ps.
Proof.
  rewrite !elem_of_nums. setoid_rewrite elem_of_remove_pn. split.
  - intros (p & [Hne Hp] & <-). split; [done | by exists p].
  - intros (Hne & p & Hp & <-). by exists p.
Qed.

Section Recovery.
Context {C : Type} {SA : SendAlgorithm C} {L : SendAlgorithmLaws C}.
Implicit Types (h : @sentPacketHandler C).

Definition tracked h : list Packet := packets (packetHistory h).

Record handler_inv h (clock leaked : Z) : Prop := {
  hi_hist : hist_inv (packetHistory h);
  hi_links : links_ok (tracked h);
  hi_tracked : tracked_ok (tracked h) (retransmissionQueue h) (lastSentPacketNumber h) clock;
  hi_bytes : bytesInFlight h = total (tracked h) + leaked;
  hi_leaked : 0 <= leaked;
  hi_bound : bytesInFlight h < 2 ^ 63;
  hi_sa : sa_ok (congestion h);
  hi_last : 0 <= lastSentPacketNumber h }.

Lemma inv_same h h' clock leaked : handler_inv h clock leaked ->
  packetHistory h' = packetHistory h -> retransmissionQueue h' = retransmissionQueue h ->
  lastSentPacketNumber h' = lastSentPacketNumber h -> bytesInFlight h' = bytesInFlight h ->
  sa_ok (congestion h') -> handler_inv h' clock leaked.
Proof.
  intros [H1 H2 H3 H4 H5 H6 H7 H8] E1 E2 E3 E4 Hsa. constructor; try done; unfold tracked in *;
    rewrite ?E1, ?E2, ?E3, ?E4; done.
Qed.

Lemma tracked_len h clock leaked p : handler_inv h clock leaked -> p ∈ tracked h -> 0 <= Packet_Length p.
Proof. intros Hi Hp. destruct (tr_pkt _ _ _ _ (hi_tracked _ _ _ Hi) p Hp) as (_ & ? & _). lia. Qed.

Lemma updateLossDetectionAlarm_same h :
  let h' := updateLossDetectionAlarm h in
  packetHistory h' = packetHistory h /\ retransmissionQueue h' = retransmissionQueue h
  /\ lastSentPacketNumber h' = lastSentPacketNumber h /\ bytesInFlight h' = bytesInFlight h
  /\ congestion h' = congestion h /\ handler_largestAcked h' = handler_largestAcked h.
Proof. unfold updateLossDetectionAlarm. repeat case_match; done. Qed.

Lemma inv_alarm h clock leaked : handler_inv h clock leaked -> handler_inv (updateLossDetectionAlarm h) clock leaked.
Proof.
  intros Hi. destruct (updateLossDetectionAlarm_same h) as (? & ? & ? & ? & E & _).
  eapply inv_same; [done..|]. rewrite E. apply Hi.
Qed.

(** What the acknowledgement of the packets numbered [l] changes. *)
Record acked_step h h' (l : list Z) : Prop := {
  as_covers : covers (tracked h) (tracked h');
  as_nums : forall x, x ∈ nums (tracked h') <-> (x ∉ l) /\ x ∈ nums (tracked h);
  as_keeps : forall q, q ∈ tracked h -> canBeRetransmitted q = true ->
    q ∈ tracked h' \/ exists a, a ∈ l /\ derived (tracked h) a (PacketNumber q);
  as_queue : retransmissionQueue h' = retransmissionQueue h;
  as_last : lastSentPacketNumber h' = lastSentPacketNumber h;
  as_largest : handler_largestAcked h' = handler_largestAcked h }.

Lemma above_le_length ps pn : (above ps pn <= length ps)%nat.
Proof. apply length_filter. Qed.

(** The packets after an acknowledgement of [p]. *)
Lemma acked_packets ps ps2 p : StronglySorted pn_lt ps -> links_ok ps -> p ∈ ps ->
  (forall q, q ∈ ps -> canBeRetransmitted q = true -> retransmittedAs q = []) ->
  stopped (derived (unlink ps p) (PacketNumber p)) (unlink ps p) ps2 ->
  let ps' := remove_pn ps2 (PacketNumber p) in
  covers ps ps' /\ links_ok ps'
  /\ (forall x, x ∈ nums ps' <-> x <> PacketNumber p /\ x ∈ nums ps)
  /\ (forall q, q ∈ ps -> canBeRetransmitted q = true -> q ∈ ps' \/ derived ps (PacketNumber p) (PacketNumber q)).
Proof.
  intros Hs Hl Hp Hnil Hst ps'. split_and!.
  - eapply covers_trans; [apply covers_unlink |]. eapply covers_trans; [by eapply covers_stopped |].
    apply covers_remove.
  - eapply stopped_links; [by apply stopped_remove |]. by apply links_ack.
  - intros x. unfold ps'. by rewrite elem_of_nums_remove, (nums_stopped _ _ _ Hst), nums_unlink.
  - intros q Hq Hcan. assert (Hq1 : q ∈ unlink ps p).
    { unfold unlink. destruct (isRetransmission p) eqn:Hre; [| done]. apply elem_of_update_pn.
      exists q. split; [done |]. destruct (Z.eqb_spec (PacketNumber q) (retransmissionOf p)); [| done].
      assert (Hup := links_up _ Hl p q Hp Hre Hq ltac:(done)). rewrite Hnil in Hup by done.
      by apply elem_of_nil in Hup. }
    destruct (stopped_fwd _ _ _ _ Hst Hq1) as (q2 & Hq2 & _ & [-> | Hd]).
    + destruct (Z.eq_dec (PacketNumber q) (PacketNumber p)) as [E |].
      * right. rewrite E. constructor.
      * left. by apply elem_of_remove_pn.
    + right. eapply derived_covers; [apply covers_unlink | exact Hd].
Qed.

Lemma onPacketAcked_ok h clock leaked p : handler_inv h clock leaked -> p ∈ tracked h ->
  exists h', handler_onPacketAcked h (PacketNumber p) = Ok h' /\ handler_inv h' clock leaked
    /\ acked_step h h' [PacketNumber p].
Proof.
  intros Hi Hp. assert (Hs := inv_sorted _ (hi_hist _ _ _ Hi)). fold (tracked h) in Hs.
  unfold handler_onPacketAcked. rewrite GetPacket_find by apply Hi. fold (tracked h).
  rewrite find_pn_Some by done.
  destruct (unlink_parent_refines (packetHistory h) p (hi_hist _ _ _ Hi) (hi_links _ _ _ Hi) Hp)
    as (h1 & -> & Hinv1 & E1). fold (tracked h) in E1. cbn [mbind outcome_bind].
  destruct (tr_pkt _ _ _ _ (hi_tracked _ _ _ Hi) p Hp) as (Hinc & Hlen & _). rewrite Hinc.
  assert (Hge := total_ge (tracked h) p (fun q Hq => tracked_len h clock leaked q Hi Hq) Hp).
  assert (Hb := hi_bytes _ _ _ Hi). assert (Hb2 := hi_bound _ _ _ Hi). assert (Hlk := hi_leaked _ _ _ Hi).
  rewrite (sub64_small _ (Packet_Length p)) by (cbn [bytesInFlight set_packetHistory]; lia).
  set (ha := set_bytesInFlight (set_packetHistory h h1) _).
  assert (Hv : let h' := if 0 <? rtoCount ha then verifyRTO ha (PacketNumber p) else ha in
    packetHistory h' = h1 /\ retransmissionQueue h' = retransmissionQueue h
    /\ lastSentPacketNumber h' = lastSentPacketNumber h /\ bytesInFlight h' = bytesInFlight h - Packet_Length p
    /\ handler_largestAcked h' = handler_largestAcked h /\ sa_ok (congestion h')).
  { assert (Hsa := hi_sa _ _ _ Hi). unfold verifyRTO.
    destruct (0 <? rtoCount ha), (PacketNumber p <=? largestSentBeforeRTO ha); cbn; split_and!; try done.
    by apply sa_OnRetransmissionTimeout_ok. }
  set (hb := if 0 <? rtoCount ha then _ else _) in *. clearbody hb. clear ha.
  destruct Hv as (F1 & F2 & F3 & F4 & F5 & F6).
  assert (Hp1 : exists p1, p1 ∈ packets h1 /\ PacketNumber p1 = PacketNumber p
    /\ retransmittedAs p1 = retransmittedAs p /\ p1 = p).
  { exists p. split; [| done]. rewrite E1. unfold unlink. destruct (isRetransmission p) eqn:Hre; [| done].
    apply elem_of_update_pn. exists p. split; [done |].
    assert (Hlt := links_lt _ (hi_links _ _ _ Hi) p Hp Hre).
    destruct (Z.eqb_spec (PacketNumber p) (retransmissionOf p)); [lia | done]. }
  destruct Hp1 as (p1 & Hp1 & _ & _ & ->).
  unfold stopRetransmissionsFor. rewrite F1.
  destruct (stop_retransmissions_ok (S (length (packetList h1))) h1 p) as (h2 & -> & Hinv2 & Hst);
    [done | rewrite E1; by apply unlink_half, Hi | apply find_pn_Some; [apply Hinv1 | done] | |].
  { etrans; [apply above_le_length |]. unfold packets. rewrite length_fmap. apply Nat.le_succ_diag_r. }
  cbn [mbind outcome_bind]. cbn.
  destruct (stopped_fwd _ _ _ _ Hst Hp1) as (p2 & Hp2 & Ep2 & _). apply clear_fields in Ep2 as (G1 & _).
  destruct (Remove_refines h2 (PacketNumber p) p2 Hinv2) as (h3 & -> & Hinv3 & E3).
  { rewrite <- G1. apply find_pn_Some; [apply Hinv2 | done]. }
  cbn [mbind outcome_bind]. eexists. split; [reflexivity |].
  rewrite E1 in Hst.
  destruct (acked_packets (tracked h) (packets h2) p Hs (hi_links _ _ _ Hi) Hp) as (K1 & K2 & K3 & K4); try done.
  { intros q Hq. apply (tr_pkt _ _ _ _ (hi_tracked _ _ _ Hi) q Hq). }
  rewrite <- E3 in *. split.
  - constructor; unfold tracked; cbn; try done.
    + rewrite F2, F3. eapply covers_tracked; [exact K1 | apply Hi].
    + rewrite E3, <- G1, total_remove by (done || apply Hinv2).
      assert (Packet_Length p2 = Packet_Length p) as ->.
      { destruct (stopped_bwd _ _ _ _ Hst Hp2) as (p0 & Hp0 & Ep0 & _).
        apply clear_fields in Ep0 as (I1 & _ & _ & _ & _ & I2 & _). rewrite I2. f_equal.
        rewrite <- E1 in Hp0. apply (pn_inj (packets h1)); [apply Hinv1 | done | done | congruence]. }
      rewrite (total_stopped _ _ _ Hst), total_unlink. lia.
    + lia.
    + rewrite F3. apply (hi_last _ _ _ Hi).
  - constructor; unfold tracked; cbn; try done.
    + intros x. rewrite list_elem_of_singleton. apply K3.
    + intros q Hq Hc. destruct (K4 q Hq Hc); [by left |]. right. exists (PacketNumber p).
      split; [by apply list_elem_of_singleton | done].
Qed.

Lemma acked_step_same h h' h2 l : acked_step h h' l ->
  packetHistory h2 = packetHistory h' -> retransmissionQueue h2 = retransmissionQueue h' ->
  lastSentPacketNumber h2 = lastSentPacketNumber h' -> handler_largestAcked h2 = handler_largestAcked h' ->
  acked_step h h2 l.
Proof.
  intros [A1 A2 A3 A4 A5 A6] E1 E2 E3 E4. constructor; unfold tracked in *; rewrite ?E1, ?E2, ?E3, ?E4; done.
Qed.

Lemma acked_step_trans h1 h2 h3 l k : acked_step h1 h2 l -> acked_step h2 h3 k -> acked_step h1 h3 (l ++ k).
Proof.
  intros [A1 A2 A3 A4 A5 A6] [B1 B2 B3 B4 B5 B6]. constructor; try congruence.
  - by eapply covers_trans.
  - intros x. rewrite B2, A2, elem_of_app. tauto.
  - intros q Hq Hc. setoid_rewrite elem_of_app. destruct (A3 q Hq Hc) as [Hq2 | (a & Ha & Hd)]; [| by eauto].
    destruct (B3 q Hq2 Hc) as [Hq3 | (a & Ha & Hd)]; [by left |]. right. exists a. split; [by right |].
    by eapply derived_covers.
Qed.

Lemma ack_packets_ok prior t acked : forall h clock leaked,
  handler_inv h clock leaked -> NoDup (nums acked) ->
  (forall p, p ∈ acked -> PacketNumber p ∈ nums (tracked h) /\ 0 <= Packet_Length p <= 2 ^ 16) ->
  exists h', ack_packets h prior t acked = Ok h' /\ handler_inv h' clock leaked
    /\ acked_step h h' (nums acked).
Proof.
  induction acked as [| p acked IH]; intros h clock leaked Hi Hnd Hin; cbn [ack_packets].
  { exists h. split; [done |]. split; [done |]. constructor; try done; [apply covers_refl | | by auto].
    intros x. cbn. rewrite elem_of_nil. tauto. }
  cbn in Hnd. apply NoDup_cons in Hnd as [Hp Hnd].
  set (ha := if negb (packet_largestAcked p =? 0) then _ else _).
  assert (Ha : handler_inv ha clock leaked /\ packetHistory ha = packetHistory h
    /\ retransmissionQueue ha = retransmissionQueue h /\ lastSentPacketNumber ha = lastSentPacketNumber h
    /\ handler_largestAcked ha = handler_largestAcked h).
  { unfold ha. destruct (negb (packet_largestAcked p =? 0)); cbn; split_and!; try done.
    eapply inv_same; [done..|]. apply Hi. }
  destruct Ha as (Hia & E1 & E2 & E3 & E4). clearbody ha.
  destruct (Hin p) as [Hnum Hlen]; [by left |]. apply elem_of_nums in Hnum as (q & Hq & Eq).
  destruct (onPacketAcked_ok ha clock leaked q Hia) as (h1 & Hrun & Hi1 & Hst);
    [unfold tracked; by rewrite E1 |].
  rewrite Eq in Hrun, Hst. rewrite Hrun. cbn [mbind outcome_bind].
  set (hb := if includedInBytesInFlight p then _ else _).
  assert (Hb : handler_inv hb clock leaked /\ acked_step ha hb [PacketNumber p]).
  { unfold hb. destruct (includedInBytesInFlight p); [| done]. split.
    - eapply inv_same; [exact Hi1 | done..|]. cbn. apply sa_OnPacketAcked_ok; [apply Hi1 | done].
    - by eapply acked_step_same. }
  destruct Hb as [Hib Hstb]. clearbody hb.
  destruct (IH hb clock leaked) as (h' & -> & Hi' & Hst'); [done | done | |].
  { intros r Hr. destruct (Hin r) as [Hrn Hrl]; [by right |]. split; [| done].
    apply (as_nums _ _ _ Hstb). unfold tracked. rewrite E1. split; [| done].
    rewrite list_elem_of_singleton. intros E. apply Hp. apply list_elem_of_fmap. by exists r. }
  exists h'. split; [done |]. split; [done |].
  assert (Hfin := acked_step_trans _ _ _ _ _ Hstb Hst').
  destruct Hfin as [A1 A2 A3 A4 A5 A6]. unfold tracked in *. rewrite E1, ?E2, ?E3, ?E4 in *.
  by constructor.
Qed.

(** *** Lost packets *)

Definition is_lost (largestAcked now delay : Z) (p : Packet) : Prop :=
  PacketNumber p <= largestAcked /\ delay < time_since now (SendTime p).

#[local] Instance is_lost_dec largestAcked now delay p : Decision (is_lost largestAcked now delay p).
Proof. unfold is_lost. apply _. Defined.

Lemma lost_iterate largestAcked now delay l : forall acc lt, StronglySorted pn_lt l.*2 ->
  exists lt', iterate (lost_callback largestAcked now delay) l (acc, lt)
    = Ok (acc ++ filter (is_lost largestAcked now delay) l.*2, lt').
Proof.
  induction l as [| [id p] l IH]; intros acc lt Hs; cbn [iterate fmap list_fmap snd].
  { exists lt. by rewrite app_nil_r. }
  cbn [fmap list_fmap snd] in Hs. apply StronglySorted_inv in Hs as [Hs Hp].
  set (rest := iterate (lost_callback largestAcked now delay) l) in *. unfold lost_callback.
  destruct (Z.ltb_spec largestAcked (PacketNumber p)) as [H1 | H1].
  { cbn [mbind outcome_bind]. exists lt. rewrite filter_cons_False by (unfold is_lost; lia).
    destruct (filter _ l.*2) as [| q qs] eqn:E; [by rewrite app_nil_r |]. exfalso.
    assert (Hq : q ∈ filter (is_lost largestAcked now delay) l.*2) by (rewrite E; by left).
    apply list_elem_of_filter in Hq as [[Hq _] Hin].
    rewrite Forall_forall in Hp. specialize (Hp q Hin). unfold pn_lt in Hp. lia. }
  destruct (Z.ltb_spec delay (time_since now (SendTime p))) as [H2 | H2]; cbn [mbind outcome_bind].
  - rewrite filter_cons_True by done. destruct (IH (acc ++ [p]) lt Hs) as [k ->]. exists k.
    by rewrite <- app_assoc.
  - rewrite filter_cons_False by (unfold is_lost; lia).
    destruct (lt =? 0); cbn [mbind outcome_bind]; by apply IH.
Qed.

Lemma filter_prefix (P : Packet -> Prop) `{forall p, Decision (P p)} ps : StronglySorted pn_lt ps ->
  (forall p q, p ∈ ps -> q ∈ ps -> PacketNumber p < PacketNumber q -> P q -> P p) ->
  exists rest, ps = filter P ps ++ rest.
Proof.
  induction 1 as [| p ps Hs IH Hp]; intros Hclosed; [by exists [] |].
  rewrite Forall_forall in Hp. destruct (decide (P p)) as [Hy | Hn].
  - rewrite filter_cons_True by done. destruct IH as [rest E]; [| exists rest; cbn; by f_equal].
    intros x y Hx Hy'. apply Hclosed; by right.
  - exists (p :: ps). assert (filter P (p :: ps) = []) as ->; [| done].
    rewrite filter_cons_False by done. destruct (filter P ps) as [| q qs] eqn:E; [done |]. exfalso.
    assert (Hq : q ∈ filter P ps) by (rewrite E; by left). apply list_elem_of_filter in Hq as [Hq Hin].
    apply Hn. apply (Hclosed p q); [by left | by right | by apply Hp | done].
Qed.

Lemma links_tail p ps : StronglySorted pn_lt (p :: ps) -> links_ok (p :: ps) -> links_ok ps.
Proof.
  intros [Hs Hp]%StronglySorted_inv [H1 H2 H3]. rewrite Forall_forall in Hp. constructor.
  - intros q r Hq Hr. destruct (H1 q r) as (x & Hx & Er & Hre & Hof & Hhs); [by right | done |].
    exists x. split_and!; try done. apply elem_of_cons in Hx as [-> | Hx]; [| done].
    specialize (Hp q Hq). unfold pn_lt in Hp. specialize (H3 p ltac:(by left) Hre). lia.
  - intros x q Hx Hre Hq. apply H2; (by right) || done.
  - intros x Hx. apply H3. by right.
Qed.

Lemma queue_ok ps queue last clock p : tracked_ok ps queue last clock -> p ∈ ps ->
  canBeRetransmitted p = true -> StronglySorted pn_lt ps ->
  tracked_ok (update_pn ps (PacketNumber p) clear_canBeRetransmitted)
    (queue ++ [clear_canBeRetransmitted p]) last clock.
Proof.
  intros Htr Hp Hcan Hs.
  assert (Htr' := covers_tracked _ _ _ _ _ (covers_stopped _ _ _ (stopped_update ps (PacketNumber p))) Htr).
  destruct Htr' as [H1 H2 H3 H4 H5 H6]. constructor; try done.
  - intros x [Hx | [Hx | ->%list_elem_of_singleton]%elem_of_app]; [auto | auto |].
    by apply (tr_last _ _ _ _ Htr p); left.
  - rewrite fmap_app. apply NoDup_app. split; [done |]. split; [| apply NoDup_singleton].
    intros n (x & -> & Hx)%list_elem_of_fmap E%list_elem_of_singleton. cbn in E.
    destruct (tr_queue _ _ _ _ Htr p x Hp Hx E) as [Hf _]. congruence.
  - intros q' x Hq' [Hx | ->%list_elem_of_singleton]%elem_of_app; [by apply H6 |].
    apply elem_of_update_pn in Hq' as (q & Hq & ->). intros E. cbn in E.
    destruct (Z.eqb_spec (PacketNumber q) (PacketNumber p)) as [Eq | Ne]; [| congruence].
    assert (q = p) as -> by (by apply (pn_inj ps)). cbn.
    destruct (tr_pkt _ _ _ _ Htr p Hp) as (_ & _ & Hnil). split_and!; [done | by apply Hnil | done].
Qed.

Lemma queuePacket_ok h clock leaked p : handler_inv h clock leaked -> p ∈ tracked h ->
  canBeRetransmitted p = true ->
  exists h', queuePacketForRetransmission h p = Ok h' /\ handler_inv h' clock leaked
    /\ tracked h' = update_pn (tracked h) (PacketNumber p) clear_canBeRetransmitted
    /\ retransmissionQueue h' = retransmissionQueue h ++ [clear_canBeRetransmitted p]
    /\ lastSentPacketNumber h' = lastSentPacketNumber h /\ bytesInFlight h' = bytesInFlight h
    /\ handler_largestAcked h' = handler_largestAcked h /\ rttStats h' = rttStats h.
Proof.
  intros Hi Hp Hcan. unfold queuePacketForRetransmission. rewrite Hcan. cbn [negb].
  assert (Hs := inv_sorted _ (hi_hist _ _ _ Hi)). fold (tracked h) in Hs.
  destruct (Mark_refines (packetHistory h) (PacketNumber p) p) as (h1 & -> & Hinv1 & E1);
    [apply Hi | by apply find_pn_Some |]. fold (tracked h) in E1.
  cbn [mbind outcome_bind]. eexists. split; [reflexivity |]. split; [| by split_and!].
  assert (Hst := stopped_update (tracked h) (PacketNumber p)). rewrite <- E1 in Hst.
  constructor; unfold tracked; cbn; try exact (hi_last _ _ _ Hi); try apply Hi; try done.
  - eapply stopped_links; [exact Hst | apply Hi].
  - rewrite E1. apply queue_ok; try done. apply Hi.
  - rewrite (total_stopped _ _ _ Hst). apply Hi.
Qed.

Lemma remove_first_ok h clock leaked p ps : handler_inv h clock leaked -> tracked h = p :: ps ->
  exists history, remove_ignore (packetHistory h) (PacketNumber p) = Ok history
    /\ let h' := set_packetHistory (set_bytesInFlight h (bytesInFlight h - Packet_Length p)) history in
       handler_inv h' clock leaked /\ tracked h' = ps.
Proof.
  intros Hi Eps. assert (Hs := inv_sorted _ (hi_hist _ _ _ Hi)). fold (tracked h) in Hs.
  assert (Hp : p ∈ tracked h) by (rewrite Eps; by left).
  destruct (Remove_refines (packetHistory h) (PacketNumber p) p) as (h1 & Hrun & Hinv1 & E1);
    [apply Hi | by apply find_pn_Some |]. fold (tracked h) in E1.
  assert (E2 : packets h1 = ps).
  { rewrite E1, Eps. rewrite Eps in Hs. by apply (remove_pn_split [] p ps). }
  unfold remove_ignore. rewrite Hrun. eexists. split; [reflexivity |]. split; [| done].
  assert (Hlen := tracked_len _ _ _ _ Hi Hp). assert (Hb := hi_bytes _ _ _ Hi).
  assert (Hbd := hi_bound _ _ _ Hi). rewrite Eps in Hb. cbn [total] in Hb.
  constructor; unfold tracked; cbn; try exact (hi_last _ _ _ Hi); try apply Hi; try done.
  - rewrite E2. rewrite Eps in Hs. eapply links_tail; [exact Hs |]. rewrite <- Eps. apply Hi.
  - eapply covers_tracked; [| apply Hi]. rewrite E1. apply covers_remove.
  - rewrite E2. lia.
  - lia.
Qed.

Lemma queuePacket_frame h p b c :
  queuePacketForRetransmission (set_congestion (set_bytesInFlight h b) c) p
  = (h' ← queuePacketForRetransmission h p; Ok (set_congestion (set_bytesInFlight h' b) c)).
Proof.
  unfold queuePacketForRetransmission. destruct (negb _); [done |]. cbn.
  by destruct (MarkCannotBeRetransmitted _ _).
Qed.

(** The lost packets leave the history; those that may be retransmitted are queued. *)
Lemma declare_lost_ok prior lost : forall h clock leaked rest,
  handler_inv h clock leaked -> tracked h = lost ++ rest ->
  exists h', declare_lost h prior lost = Ok h' /\ handler_inv h' clock leaked
    /\ tracked h' = rest
    /\ retransmissionQueue h' = retransmissionQueue h
         ++ (clear_canBeRetransmitted <$> filter (fun p => canBeRetransmitted p = true) lost)
    /\ lastSentPacketNumber h' = lastSentPacketNumber h
    /\ handler_largestAcked h' = handler_largestAcked h.
Proof.
  induction lost as [| p lost IH]; intros h clock leaked rest Hi Eps; cbn [declare_lost].
  { exists h. cbn. by rewrite app_nil_r. }
  assert (Hp : p ∈ tracked h) by (rewrite Eps; by left).
  destruct (tr_pkt _ _ _ _ (hi_tracked _ _ _ Hi) p Hp) as (Hinc & Hlen & _). rewrite Hinc.
  assert (Hge := total_ge (tracked h) p (fun q Hq => tracked_len h clock leaked q Hi Hq) Hp).
  assert (Hb := hi_bytes _ _ _ Hi). assert (Hbd := hi_bound _ _ _ Hi). assert (Hlk := hi_leaked _ _ _ Hi).
  rewrite (sub64_small (bytesInFlight h)) by lia. cbn [congestion set_bytesInFlight].
  set (c := sa_OnPacketLost _ _ _ _).
  assert (Hsa : sa_ok c) by (apply sa_OnPacketLost_ok, Hi). clearbody c.
  (* the handler after queueing, with the packets but not yet the bytes changed *)
  assert (Hq : exists h1 ps1, (if canBeRetransmitted p
      then queuePacketForRetransmission (set_congestion (set_bytesInFlight h (bytesInFlight h - Packet_Length p)) c) p
      else Ok (set_congestion (set_bytesInFlight h (bytesInFlight h - Packet_Length p)) c))
      = Ok (set_congestion (set_bytesInFlight h1 (bytesInFlight h - Packet_Length p)) c)
    /\ handler_inv h1 clock leaked /\ tracked h1 = ps1 :: lost ++ rest
    /\ PacketNumber ps1 = PacketNumber p /\ Packet_Length ps1 = Packet_Length p
    /\ retransmissionQueue h1 = retransmissionQueue h ++ (if canBeRetransmitted p then [clear_canBeRetransmitted p] else [])
    /\ lastSentPacketNumber h1 = lastSentPacketNumber h /\ bytesInFlight h1 = bytesInFlight h
    /\ handler_largestAcked h1 = handler_largestAcked h).
  { destruct (canBeRetransmitted p) eqn:Hcan.
    - destruct (queuePacket_ok h clock leaked p Hi Hp Hcan) as (h1 & Hrun & Hi1 & E1 & E2 & E3 & E4 & E5 & _).
      exists h1, (clear_canBeRetransmitted p). rewrite queuePacket_frame, Hrun. split_and!; try done.
      rewrite E1, Eps. apply (update_pn_split [] p).
      assert (Hs := inv_sorted _ (hi_hist _ _ _ Hi)). fold (tracked h) in Hs. by rewrite Eps in Hs.
    - exists h, p. rewrite app_nil_r. by split_and!. }
  destruct Hq as (h1 & p1 & -> & Hi1 & E1 & F1 & F2 & E2 & E3 & E4 & E5). cbn [mbind outcome_bind].
  destruct (remove_first_ok h1 clock leaked p1 (lost ++ rest) Hi1 E1) as (hist & Hrun & Hi2 & E6).
  rewrite F1 in Hrun. cbn [packetHistory set_congestion set_bytesInFlight]. rewrite Hrun.
  cbn [mbind outcome_bind]. rewrite E4, F2 in Hi2, E6.
  set (h2 := set_packetHistory (set_congestion _ c) hist).
  destruct (IH h2 clock leaked rest) as (h' & -> & Hi' & G1 & G2 & G3 & G4); [| exact E6 |].
  { eapply inv_same; [exact Hi2 | done..]. }
  exists h'. split; [done |]. split; [done |]. split; [done |].
  rewrite G2, G3, G4. cbn [retransmissionQueue lastSentPacketNumber handler_largestAcked h2 set_packetHistory
    set_congestion set_bytesInFlight]. rewrite E2, E3, E5, <- app_assoc. split_and!; try done. f_equal.
  rewrite filter_cons. by destruct (canBeRetransmitted p).
Qed.

Lemma time_since_mono now a b : a <= b -> time_since now b <= time_since now a.
Proof. unfold time_since, time_sub. lia. Qed.

Lemma detectLostPackets_ok h clock leaked now prior : handler_inv h clock leaked ->
  let P := is_lost (handler_largestAcked h) now (delay_until_lost (rttStats h)) in
  exists h', detectLostPackets h now prior = Ok h' /\ handler_inv h' clock leaked
    /\ tracked h = filter P (tracked h) ++ tracked h'
    /\ retransmissionQueue h' = retransmissionQueue h
         ++ (clear_canBeRetransmitted <$> filter (fun p => canBeRetransmitted p = true) (filter P (tracked h)))
    /\ lastSentPacketNumber h' = lastSentPacketNumber h
    /\ handler_largestAcked h' = handler_largestAcked h.
Proof.
  intros Hi P. assert (Hs := inv_sorted _ (hi_hist _ _ _ Hi)).
  unfold detectLostPackets, history_Iterate.
  destruct (lost_iterate (handler_largestAcked h) now (delay_until_lost (rttStats h))
    (packetList (packetHistory h)) [] 0 Hs) as [lt ->].
  cbn [app]. change ((packetList (packetHistory h)).*2) with (tracked h). fold P. cbn [mbind outcome_bind].
  destruct (filter_prefix P (tracked h) Hs) as [rest E].
  { intros p q Hp Hq Hlt [Hla Ht]. split; [lia |].
    assert (Hle := tr_time _ _ _ _ (hi_tracked _ _ _ Hi) p q Hp Hq Hlt).
    assert (H := time_since_mono now _ _ Hle). lia. }
  assert (Hi' : handler_inv (set_lossTime h lt) clock leaked) by (eapply inv_same; [done.. | apply Hi]).
  destruct (declare_lost_ok prior (filter P (tracked h)) (set_lossTime h lt) clock leaked rest Hi' E)
    as (h' & Hrun & Hi2 & E1 & E2 & E3 & E4).
  exists h'. rewrite E1. split_and!; done.
Qed.

(** *** Sending *)

(** A packet as the packer hands it over. *)
Record fresh_packet (p : Packet) : Prop := {
  fp_len : 0 <= Packet_Length p <= 2 ^ 16;
  fp_ack : match Packet_Frames p with Ack f :: _ => AckRanges f <> [] | _ => True end;
  fp_can : canBeRetransmitted p = false;
  fp_included : includedInBytesInFlight p = false;
  fp_as : retransmittedAs p = [];
  fp_is : isRetransmission p = false }.

(** Packets [new] were sent, and are in flight, but not yet in the history. *)
Record pending h (clock leaked : Z) (new : list Packet) : Prop := {
  pe_hist : hist_inv (packetHistory h);
  pe_links : links_ok (tracked h);
  pe_sorted : StronglySorted pn_lt (tracked h ++ new);
  pe_tracked : tracked_ok (tracked h ++ new) (retransmissionQueue h) (lastSentPacketNumber h) clock;
  pe_new : Forall (fun p => canBeRetransmitted p = true /\ isRetransmission p = false) new;
  pe_bytes : bytesInFlight h = total (tracked h ++ new) + leaked;
  pe_leaked : 0 <= leaked;
  pe_bound : bytesInFlight h < 2 ^ 63;
  pe_sa : sa_ok (congestion h);
  pe_last : 0 <= lastSentPacketNumber h }.

Lemma inv_pending h clock leaked : handler_inv h clock leaked -> pending h clock leaked [].
Proof. intros Hi. assert (Hl := hi_last _ _ _ Hi). assert (Hs := inv_sorted _ (hi_hist _ _ _ Hi)). constructor; rewrite ?app_nil_r; try apply Hi; done. Qed.

Lemma tracked_mono ps queue last clock last' clock' : tracked_ok ps queue last clock ->
  last <= last' -> clock <= clock' -> tracked_ok ps queue last' clock'.
Proof.
  intros [H1 H2 H3 H4 H5 H6] Hl Hc. constructor; try done.
  - intros p Hp. specialize (H3 p Hp). lia.
  - intros p Hp. specialize (H4 p Hp). lia.
Qed.

Lemma tracked_snoc ps queue last clock p : tracked_ok ps queue last clock ->
  last < PacketNumber p -> 0 <= PacketNumber p -> clock <= SendTime p -> includedInBytesInFlight p = true ->
  0 <= Packet_Length p <= 2 ^ 16 -> retransmittedAs p = [] ->
  tracked_ok (ps ++ [p]) queue (PacketNumber p) (SendTime p).
Proof.
  intros Htr Hpn Hpn0 Ht Hinc Hlen Has. assert (Htr' := Htr). destruct Htr' as [H1 H2 H3 H4 H5 H6].
  constructor; try done.
  - intros q [Hq | ->%list_elem_of_singleton]%elem_of_app; [by apply H1 | done].
  - intros q r [Hq | ->%list_elem_of_singleton]%elem_of_app [Hr | ->%list_elem_of_singleton]%elem_of_app.
    + by apply H2.
    + intros _. specialize (H3 q Hq). lia.
    + intros E. destruct (H4 r); [by left |]. lia.
    + lia.
  - intros q [Hq | ->%list_elem_of_singleton]%elem_of_app; [specialize (H3 q Hq); lia | lia].
  - intros q [[Hq | ->%list_elem_of_singleton]%elem_of_app | Hq]; [| lia |].
    + destruct (H4 q); [by left | lia].
    + destruct (H4 q); [by right | lia].
  - intros q x [Hq | ->%list_elem_of_singleton]%elem_of_app Hx E; [by apply H6 |].
    destruct (H4 x); [by right | lia].
Qed.

Definition send_ok h (clock : Z) (p : Packet) : Prop :=
  lastSentPacketNumber h < PacketNumber p /\ clock <= SendTime p /\ fresh_packet p
  /\ bytesInFlight h + Packet_Length p < 2 ^ 63.

Lemma sentPacketImpl_ok h clock leaked new p : pending h clock leaked new -> send_ok h clock p ->
  exists b p' h', sentPacketImpl h p = Ok (b, p', h') /\ pending h' (SendTime p) leaked (if b then new ++ [p'] else new)
    /\ PacketNumber p' = PacketNumber p /\ isHandshake p' = isHandshake p
    /\ b = negb (len (stripNonRetransmittableFrames (Packet_Frames p)) =? 0)
    /\ Packet_Frames p' = stripNonRetransmittableFrames (Packet_Frames p)
    /\ packetHistory h' = packetHistory h /\ retransmissionQueue h' = retransmissionQueue h
    /\ lastSentPacketNumber h' = PacketNumber p
    /\ bytesInFlight h' = bytesInFlight h + (if b then Packet_Length p else 0).
Proof.
  intros Hpe (Hpn & Ht & [F1 F2 F3 F4 F5 F6] & Hbd). unfold sentPacketImpl.
  assert (Hla : exists la, (match Packet_Frames p with Ack f :: _ => LargestAcked f | _ => Ok (packet_largestAcked p) end) = Ok la).
  { destruct (Packet_Frames p) as [| [] fs]; try by eexists.
    unfold LargestAcked, index. destruct (AckRanges f) as [| r l]; [done |]. by eexists. }
  destruct Hla as [la ->]. cbn [mbind outcome_bind].
  set (frames := stripNonRetransmittableFrames (Packet_Frames p)).
  set (b := negb (len frames =? 0)). rewrite F3, F4, F5, F6, !orb_false_r.
  set (p' := mkPacket _ _ _ _ _ _ _ _ _ _ _ _). set (h1 := if b then _ else _).
  assert (H1 : packetHistory h1 = packetHistory h /\ retransmissionQueue h1 = retransmissionQueue h
    /\ lastSentPacketNumber h1 = PacketNumber p
    /\ bytesInFlight h1 = bytesInFlight h + (if b then Packet_Length p else 0)
    /\ sa_ok (congestion h1) /\ rttStats h1 = rttStats h).
  { assert (Hb := pe_bytes _ _ _ _ Hpe). assert (Hlk := pe_leaked _ _ _ _ Hpe).
    assert (0 <= total (tracked h ++ new)).
    { apply total_nonneg. intros q Hq. apply (tr_pkt _ _ _ _ (pe_tracked _ _ _ _ Hpe) q Hq). }
    unfold h1. destruct b; [| cbn; rewrite Z.add_0_r; split_and!; try done; apply Hpe].
    destruct (isHandshake p'); cbn [numRTOs set_bytesInFlight set_lastSentRetransmittablePacketTime
      set_lastSentHandshakePacketTime set_lastSentPacketNumber];
      destruct (0 <? numRTOs h); cbn; rewrite add64_small by lia; split_and!; try done; apply Hpe. }
  destruct H1 as (E1 & E2 & E3 & E4 & E5 & E6). clearbody h1.
  set (h2 := set_congestion h1 _).
  assert (Hsa : sa_ok (congestion h2)) by (by apply sa_OnPacketSent_ok).
  destruct (sa_TimeUntilSend_total (rttStats h2) (congestion h2) (bytesInFlight h2) Hsa) as [d ->].
  cbn [mbind outcome_bind]. eexists b, p', _. split; [reflexivity |].
  assert (Htr := pe_tracked _ _ _ _ Hpe). assert (Hl0 := pe_last _ _ _ _ Hpe).
  assert (Hb := pe_bytes _ _ _ _ Hpe).
  split; [| by split_and!].
  assert (Hgt : Forall (fun q => PacketNumber q < PacketNumber p') (tracked h ++ new)).
  { apply Forall_forall. intros q Hq. destruct (tr_last _ _ _ _ Htr q (or_introl Hq)). cbn. lia. }
  constructor; unfold tracked; cbn; rewrite ?E1, ?E2, ?E3; try lia; try apply Hpe; try done; fold (tracked h).
  - destruct b; [| apply Hpe]. rewrite app_assoc. apply sorted_snoc; [apply Hpe | done].
  - destruct b; [rewrite app_assoc; by apply (tracked_snoc _ _ _ _ p' Htr); cbn; try lia |].
    eapply tracked_mono; [exact Htr | lia | done].
  - assert (Hnew := pe_new _ _ _ _ Hpe). destruct b eqn:Eb; [| done]. apply Forall_app. split; [done |].
    by repeat constructor.
  - rewrite E4, Hb. destruct b; [| lia].
    rewrite app_assoc, (total_app _ [p']). change (total [p']) with (Packet_Length p + 0). lia.
  - rewrite E4. destruct b; [lia | rewrite Z.add_0_r; apply Hpe].
Qed.

(** The links after retransmissions [new] of packet [rof]. *)
Lemma links_app ps new : links_ok ps -> StronglySorted pn_lt (ps ++ new) ->
  (forall p, p ∈ new -> isRetransmission p = false /\ retransmittedAs p = []) -> links_ok (ps ++ new).
Proof.
  intros [H1 H2 H3] Hs Hnew.
  assert (Hlt : forall p q, p ∈ ps -> q ∈ new -> PacketNumber p < PacketNumber q).
  { intros p q Hp (l1 & l2 & ->)%list_elem_of_split. rewrite app_assoc in Hs.
    apply sorted_split in Hs as (Hs & _). rewrite Forall_forall in Hs. apply Hs, elem_of_app. by left. }
  constructor.
  - intros q r [Hq | Hq]%elem_of_app Hr.
    + destruct (H1 q r Hq Hr) as (x & Hx & Hrest). exists x. split; [apply elem_of_app; by left | done].
    + destruct (Hnew q Hq) as [_ Has]. rewrite Has in Hr. by apply elem_of_nil in Hr.
  - intros x q [Hx | Hx]%elem_of_app Hxr; [| destruct (Hnew x Hx); congruence].
    intros [Hq | Hq]%elem_of_app E; [by apply H2 |].
    specialize (H3 x Hx Hxr). specialize (Hlt x q Hx Hq). lia.
  - intros x [Hx | Hx]%elem_of_app Hxr; [by apply H3 | destruct (Hnew x Hx); congruence].
Qed.

Lemma links_retransmit ps new q : links_ok ps -> StronglySorted pn_lt (ps ++ new) -> q ∈ ps ->
  retransmittedAs q = [] -> (forall p, p ∈ new -> retransmittedAs p = [] /\ isHandshake p = isHandshake q) ->
  links_ok (update_pn ps (PacketNumber q) (fun p => set_retransmittedAs p (PacketNumber <$> new))
            ++ ((fun p => set_retransmissionOf p (PacketNumber q)) <$> new)).
Proof.
  intros [H1 H2 H3] Hs Hq Has Hnew.
  assert (Hlt : forall p r, p ∈ ps -> r ∈ new -> PacketNumber p < PacketNumber r).
  { intros p r Hp (l1 & l2 & ->)%list_elem_of_split. rewrite app_assoc in Hs.
    apply sorted_split in Hs as (Hs & _). rewrite Forall_forall in Hs. apply Hs, elem_of_app. by left. }
  assert (Hsp : StronglySorted pn_lt ps).
  { clear -Hs. induction ps as [| p ps IH]; [constructor |]. cbn in Hs. apply StronglySorted_inv in Hs as [Hs Hp].
    constructor; [by apply IH |]. by apply Forall_app in Hp as [? _]. }
  constructor.
  - intros x' r [(x & Hx & ->)%elem_of_update_pn | (x & -> & Hx)%list_elem_of_fmap]%elem_of_app Hr.
    2:{ cbn in Hr. destruct (Hnew x Hx) as [E _]. rewrite E in Hr. by apply elem_of_nil in Hr. }
    destruct (Z.eqb_spec (PacketNumber x) (PacketNumber q)) as [E | E].
    + assert (x = q) as -> by (by apply (pn_inj ps)). cbn in Hr.
      apply list_elem_of_fmap in Hr as (y & -> & Hy). exists (set_retransmissionOf y (PacketNumber q)).
      split; [apply elem_of_app; right; apply list_elem_of_fmap; by exists y |].
      destruct (Hnew y Hy) as [_ Hhs]. by split_and!.
    + destruct (H1 x r Hx Hr) as (y & Hy & Hy1 & Hy2 & Hy3 & Hy4). eexists. split.
      { apply elem_of_app. left. apply elem_of_update_pn. exists y. split; [done | reflexivity]. }
      by destruct (PacketNumber y =? PacketNumber q).
  - intros x' y' [(x & Hx & ->)%elem_of_update_pn | (x & -> & Hx)%list_elem_of_fmap]%elem_of_app Hre
      [(y & Hy & ->)%elem_of_update_pn | (y & -> & Hy)%list_elem_of_fmap]%elem_of_app E.
    + assert (Hre' : isRetransmission x = true) by (by destruct (PacketNumber x =? PacketNumber q)).
      assert (E' : PacketNumber y = retransmissionOf x)
        by (by destruct (PacketNumber x =? PacketNumber q), (PacketNumber y =? PacketNumber q)).
      assert (Hup := H2 x y Hx Hre' Hy E').
      assert (PacketNumber (if PacketNumber x =? PacketNumber q then set_retransmittedAs x (PacketNumber <$> new)
        else x) = PacketNumber x) as -> by (by destruct (PacketNumber x =? PacketNumber q)).
      destruct (Z.eqb_spec (PacketNumber y) (PacketNumber q)) as [Ey |]; [| done].
      assert (y = q) as -> by (by apply (pn_inj ps)). rewrite Has in Hup. by apply elem_of_nil in Hup.
    + assert (Hre' : isRetransmission x = true) by (by destruct (PacketNumber x =? PacketNumber q)).
      assert (E' : PacketNumber y = retransmissionOf x) by (by destruct (PacketNumber x =? PacketNumber q)).
      specialize (H3 x Hx Hre'). specialize (Hlt x y Hx Hy). lia.
    + cbn in E |- *. destruct (Z.eqb_spec (PacketNumber y) (PacketNumber q)) as [Ey | Ey]; [| done].
      cbn. apply list_elem_of_fmap. by exists x.
    + cbn in E. specialize (Hlt q y Hq Hy). lia.
  - intros x' [(x & Hx & ->)%elem_of_update_pn | (x & -> & Hx)%list_elem_of_fmap]%elem_of_app Hre.
    + destruct (PacketNumber x =? PacketNumber q); by apply (H3 x).
    + cbn. by apply Hlt.
Qed.

Lemma total_map f ps : (forall p, Packet_Length (f p) = Packet_Length p) -> total (f <$> ps) = total ps.
Proof. intros Hf. induction ps as [| p ps IH]; [done |]. cbn [fmap list_fmap total]. by rewrite Hf, IH. Qed.

(** The tracked packets when the packets [new] are added as retransmissions. *)
Lemma tracked_retransmit ps new queue last clock q : tracked_ok (ps ++ new) queue last clock ->
  StronglySorted pn_lt (ps ++ new) -> q ∈ ps -> canBeRetransmitted q = false ->
  (forall x, x ∈ queue -> PacketNumber x <> PacketNumber q) ->
  tracked_ok (update_pn ps (PacketNumber q) (fun p => set_retransmittedAs p (PacketNumber <$> new))
            ++ ((fun p => set_retransmissionOf p (PacketNumber q)) <$> new)) queue last clock.
Proof.
  intros [H1 H2 H3 H4 H5 H6] Hs Hq Hcan Hnq.
  set (ps' := update_pn _ _ _ ++ _).
  assert (Hb : forall x', x' ∈ ps' -> exists x, x ∈ ps ++ new /\ PacketNumber x' = PacketNumber x
    /\ Packet_Length x' = Packet_Length x /\ SendTime x' = SendTime x
    /\ includedInBytesInFlight x' = includedInBytesInFlight x /\ isHandshake x' = isHandshake x
    /\ canBeRetransmitted x' = canBeRetransmitted x
    /\ (retransmittedAs x' = retransmittedAs x \/ x = q)).
  { intros x' [(x & Hx & ->)%elem_of_update_pn | (x & -> & Hx)%list_elem_of_fmap]%elem_of_app; exists x.
    - split; [apply elem_of_app; by left |].
      destruct (Z.eqb_spec (PacketNumber x) (PacketNumber q)); split_and!; try done; [right | by left].
      apply (pn_inj (ps ++ new)); [done | apply elem_of_app; by left | apply elem_of_app; by left | done].
    - split; [apply elem_of_app; by right |]. split_and!; try done. by left. }
  constructor; try done.
  - intros x' (x & Hx & E1 & E2 & E3 & E4 & E5 & E6 & E7)%Hb. rewrite E2, E4, E6.
    destruct (H1 x Hx) as (? & ? & Hn). split_and!; try done; try lia.
    intros Hc. destruct E7 as [-> | ->]; [by apply Hn | congruence].
  - intros x' y' (x & Hx & E1 & E2 & E3 & _)%Hb (y & Hy & F1 & F2 & F3 & _)%Hb. rewrite E1, E3, F1, F3. by apply H2.
  - intros x' (x & Hx & E1 & E2 & E3 & _)%Hb. rewrite E3. by apply H3.
  - intros x' [(x & Hx & E1 & _)%Hb | Hx]; [rewrite E1; apply H4; by left | apply H4; by right].
  - intros x' y (x & Hx & E1 & E2 & E3 & E4 & E5 & E6 & E7)%Hb Hy. rewrite E1, E5, E6. intros E.
    destruct (H6 x y Hx Hy E) as (? & ? & ?). split_and!; try done.
    destruct E7 as [-> | ->]; [done |]. by apply Hnq in E.
Qed.

(** Finished sending: the packets enter the history. *)
Lemma pending_done h clock leaked new history : pending h clock leaked new -> hist_inv history ->
  links_ok (packets history) -> total (packets history) = total (tracked h ++ new) ->
  tracked_ok (packets history) (retransmissionQueue h) (lastSentPacketNumber h) clock ->
  handler_inv (set_packetHistory h history) clock leaked.
Proof.
  intros [P1 P2 P3 P4 P5 P6 P7 P8 P9 P10] Hinv Hl Htot Htr. constructor; unfold tracked; cbn; try done.
  by rewrite Htot.
Qed.

Lemma SentPacket_ok h clock leaked p : handler_inv h clock leaked -> send_ok h clock p ->
  exists h', SentPacket h p = Ok h' /\ handler_inv h' (SendTime p) leaked
    /\ lastSentPacketNumber h' = PacketNumber p
    /\ retransmissionQueue h' = retransmissionQueue h
    /\ if len (stripNonRetransmittableFrames (Packet_Frames p)) =? 0 then tracked h' = tracked h
       else exists p', tracked h' = tracked h ++ [p'] /\ PacketNumber p' = PacketNumber p
              /\ canBeRetransmitted p' = true
              /\ Packet_Frames p' = stripNonRetransmittableFrames (Packet_Frames p).
Proof.
  intros Hi Hp. unfold SentPacket.
  destruct (sentPacketImpl_ok h clock leaked [] p (inv_pending _ _ _ Hi) Hp)
    as (b & p' & h1 & -> & Hpe & E1 & _ & Eb & Ef & E2 & E3 & E4 & _).
  cbn [mbind outcome_bind]. assert (Et : tracked h1 = tracked h) by (unfold tracked; by rewrite E2).
  eexists. split; [reflexivity |].
  destruct (len _ =? 0); cbn in Eb; subst b; cbn [app].
  - split; [| by split_and!]. assert (Hn := Hpe). destruct Hpe as [P1 P2 P3 P4 P5 P6 P7 P8 P9 P10].
    rewrite app_nil_r in *. by constructor.
  - destruct (SentPacket_refines (packetHistory h1) p') as [Hinv' Epk].
    { apply Hpe. } { assert (Hnew := pe_new _ _ _ _ Hpe). by apply Forall_cons in Hnew as [[? _] _]. }
    { by apply (sorted_split _ p' []), Hpe. }
    fold (tracked h1) in Epk. unfold history_SentPacket.
    destruct (updateLossDetectionAlarm_same (set_packetHistory h1 (history_sentPacketImpl (packetHistory h1) p')))
      as (A1 & A2 & A3 & _). cbv zeta in A1, A2, A3.
    assert (Hnew := pe_new _ _ _ _ Hpe). cbn [app] in Hnew. apply Forall_cons in Hnew as [[Hc Hre] _].
    assert (Htp : retransmittedAs p' = []).
    { apply (tr_pkt _ _ _ _ (pe_tracked _ _ _ _ Hpe) p'); [apply elem_of_app; right; by left | done]. }
    split.
    { apply inv_alarm. eapply pending_done; try exact Hpe; try done; rewrite ?Epk; try done; [| apply Hpe].
      apply links_app; try apply Hpe. by intros q ->%list_elem_of_singleton. }
    unfold tracked. rewrite A1, A2, A3.
    cbn [packetHistory set_packetHistory retransmissionQueue lastSentPacketNumber]. rewrite E3, E4. split; [done |]. split; [done |].
    exists p'. split; [| done]. rewrite Epk. by rewrite Et.
Qed.

Fixpoint sends_ok (last clock bytes : Z) (ps : list Packet) : Prop :=
  match ps with
  | [] => True
  | p :: ps => last < PacketNumber p /\ clock <= SendTime p /\ fresh_packet p
      /\ bytes + Packet_Length p < 2 ^ 63
      /\ sends_ok (PacketNumber p) (SendTime p) (bytes + Packet_Length p) ps
  end.

Fixpoint end_clock (clock : Z) (ps : list Packet) : Z :=
  match ps with [] => clock | p :: ps => end_clock (SendTime p) ps end.

Lemma sends_ok_mono last clock bytes bytes' ps : bytes' <= bytes -> sends_ok last clock bytes ps ->
  sends_ok last clock bytes' ps.
Proof.
  revert last clock bytes bytes'. induction ps as [| p ps IH]; cbn; [done |].
  intros last clock bytes bytes' Hle (H1 & H2 & H3 & H4 & H5). split_and!; try done; [lia |].
  eapply IH; [| exact H5]. lia.
Qed.

Lemma sent_all_ok ps : forall h clock leaked new, pending h clock leaked new ->
  sends_ok (lastSentPacketNumber h) clock (bytesInFlight h) ps ->
  exists sent h', sent_all h ps = Ok (sent, h') /\ pending h' (end_clock clock ps) leaked (new ++ sent)
    /\ packetHistory h' = packetHistory h /\ retransmissionQueue h' = retransmissionQueue h
    /\ (forall p', p' ∈ sent -> exists p, p ∈ ps /\ isHandshake p' = isHandshake p).
Proof.
  induction ps as [| p ps IH]; intros h clock leaked new Hpe Hok; cbn [sent_all end_clock].
  { exists [], h. rewrite app_nil_r. split_and!; try done. by intros p ?%elem_of_nil. }
  destruct Hok as (H1 & H2 & H3 & H4 & H5).
  destruct (sentPacketImpl_ok h clock leaked new p Hpe) as (b & p' & h1 & -> & Hpe1 & E1 & Eh & Eb & Ef & E2 & E3 & E4 & E5);
    [done |]. cbn [mbind outcome_bind].
  destruct (IH h1 (SendTime p) leaked _ Hpe1) as (sent & h2 & -> & Hpe2 & F1 & F2 & F3).
  { rewrite E4. eapply sends_ok_mono; [| exact H5]. rewrite E5. destruct H3 as [[? ?] _ _ _ _ _].
    destruct b; lia. }
  cbn [mbind outcome_bind]. eexists _, h2. split; [reflexivity |]. rewrite F1, F2, E2, E3.
  split_and!; try done.
  - destruct b; [by rewrite <- app_assoc in Hpe2 | done].
  - intros x Hx. destruct b.
    + apply elem_of_cons in Hx as [-> | Hx]; [exists p; split; [by left | done] |].
      destruct (F3 x Hx) as (y & Hy & ?). exists y. split; [by right | done].
    + destruct (F3 x Hx) as (y & Hy & ?). exists y. split; [by right | done].
Qed.

Lemma SentPacketsAsRetransmission_ok h clock leaked ps rof : handler_inv h clock leaked ->
  sends_ok (lastSentPacketNumber h) clock (bytesInFlight h) ps ->
  (forall q, q ∈ tracked h -> PacketNumber q = rof -> canBeRetransmitted q = false /\ retransmittedAs q = []
     /\ (forall x, x ∈ retransmissionQueue h -> PacketNumber x <> rof)
     /\ (forall p, p ∈ ps -> isHandshake p = isHandshake q)) ->
  exists h', SentPacketsAsRetransmission h ps rof = Ok h' /\ handler_inv h' (end_clock clock ps) leaked
    /\ retransmissionQueue h' = retransmissionQueue h
    /\ (forall q, q ∈ tracked h -> canBeRetransmitted q = true -> q ∈ tracked h').
Proof.
  intros Hi Hok Hrof. unfold SentPacketsAsRetransmission.
  destruct (sent_all_ok ps h clock leaked [] (inv_pending _ _ _ Hi) Hok)
    as (sent & h1 & -> & Hpe & E1 & E2 & E3). cbn [app mbind outcome_bind] in *.
  assert (Et : tracked h1 = tracked h) by (unfold tracked; by rewrite E1).
  assert (Hnew := pe_new _ _ _ _ Hpe). assert (Htr := pe_tracked _ _ _ _ Hpe).
  assert (Hsnil : forall p, p ∈ sent -> isRetransmission p = false /\ retransmittedAs p = []).
  { intros p Hp. rewrite Forall_forall in Hnew. destruct (Hnew p Hp) as [Hc Hre]. split; [done |].
    apply (tr_pkt _ _ _ _ Htr p); [apply elem_of_app; by right | done]. }
  destruct (SentPacketsAsRetransmission_refines (packetHistory h1) sent rof) as [Hinv' Epk].
  { apply Hpe. } { eapply Forall_impl; [exact Hnew |]. by intros p [? _]. } { apply Hpe. }
  fold (tracked h1) in Epk. set (hist' := history_SentPacketsAsRetransmission _ _ _) in *. clearbody hist'.
  eexists. split; [reflexivity |].
  destruct (updateLossDetectionAlarm_same (set_packetHistory h1 hist')) as (A1 & A2 & _). cbv zeta in A1, A2.
  assert (Hq2 : retransmissionQueue (updateLossDetectionAlarm (set_packetHistory h1 hist')) = retransmissionQueue h)
    by (rewrite A2; exact E2).
  unfold tracked at 2. rewrite A1. cbn [packetHistory set_packetHistory].
  rewrite Epk, Et. unfold retransmit.
  assert (Hs := pe_sorted _ _ _ _ Hpe). rewrite Et in *.
  destruct (find_pn (tracked h) rof) as [q |] eqn:Ef.
  - assert (Hq := find_pn_elem _ _ _ Ef). assert (Eq := find_pn_num _ _ _ Ef).
    destruct (Hrof q Hq Eq) as (Hc & Has & Hnq & Hhs). subst rof.
    assert (Epk' : packets hist' = update_pn (tracked h) (PacketNumber q) (fun p => set_retransmittedAs p (PacketNumber <$> sent))
            ++ ((fun p => set_retransmissionOf p (PacketNumber q)) <$> sent))
      by (rewrite Epk; unfold retransmit; by rewrite Ef).
    split.
    { apply inv_alarm. eapply pending_done; [exact Hpe | done |..]; rewrite Epk'.
      - apply links_retransmit; try done; [apply Hi |]. intros p Hp. split; [by apply Hsnil |].
        destruct (E3 p Hp) as (p0 & Hp0 & ->). by apply Hhs.
      - rewrite Et, !total_app, total_update, total_map; done.
      - apply tracked_retransmit; try done. by rewrite E2. }
    split; [done |]. intros x Hx Hxc. apply elem_of_app. left. apply elem_of_update_pn. exists x. split; [done |].
    destruct (Z.eqb_spec (PacketNumber x) (PacketNumber q)) as [E |]; [| done].
    assert (x = q) as -> by (apply (pn_inj (tracked h)); [apply (inv_sorted _ (hi_hist _ _ _ Hi)) | done..]). congruence.
  - assert (Epk' : packets hist' = tracked h ++ sent) by (rewrite Epk; unfold retransmit; by rewrite Ef).
    split.
    { apply inv_alarm. eapply pending_done; [exact Hpe | done |..]; rewrite Epk', ?Et; try done.
      apply links_app; try done. apply Hi. }
    split; [done |]. intros x Hx _. apply elem_of_app. by left.
Qed.

(** *** Queueing and discarding *)

(** A packet that may be retransmitted stays tracked, or waits in the queue. *)
Definition keeps h h' : Prop := forall q, q ∈ tracked h -> canBeRetransmitted q = true ->
  q ∈ tracked h' \/ clear_canBeRetransmitted q ∈ retransmissionQueue h'.

Lemma queue_all_ok l : forall h clock leaked, handler_inv h clock leaked -> NoDup (nums l) ->
  (forall p, p ∈ l -> p ∈ tracked h /\ canBeRetransmitted p = true) ->
  exists h', queue_all h l = Ok h' /\ handler_inv h' clock leaked /\ keeps h h'
    /\ lastSentPacketNumber h' = lastSentPacketNumber h
    /\ (forall x, x ∈ retransmissionQueue h -> x ∈ retransmissionQueue h').
Proof.
  induction l as [| p l IH]; intros h clock leaked Hi Hnd Hin; cbn [queue_all].
  { exists h. split_and!; try done. intros q Hq _. by left. }
  cbn in Hnd. apply NoDup_cons in Hnd as [Hp Hnd]. destruct (Hin p) as [Hpt Hpc]; [by left |].
  destruct (queuePacket_ok h clock leaked p Hi Hpt Hpc) as (h1 & -> & Hi1 & E1 & E2 & E3 & E4 & E5 & _).
  cbn [mbind outcome_bind].
  assert (Hother : forall q, q ∈ tracked h -> PacketNumber q <> PacketNumber p -> q ∈ tracked h1).
  { intros q Hq Hne. rewrite E1. apply elem_of_update_pn. exists q. split; [done |].
    by destruct (Z.eqb_spec (PacketNumber q) (PacketNumber p)). }
  destruct (IH h1 clock leaked Hi1 Hnd) as (h' & -> & Hi' & Hk & E6 & Hq').
  { intros q Hq. destruct (Hin q) as [Hqt Hqc]; [by right |]. split; [| done]. apply Hother; [done |].
    intros E. apply Hp. rewrite <- E. apply list_elem_of_fmap. by exists q. }
  exists h'. split; [done |]. split; [done |]. split; [| split; [congruence |]].
  - intros q Hq Hqc. destruct (Z.eq_dec (PacketNumber q) (PacketNumber p)) as [E |].
    + assert (q = p) as -> by (apply (pn_inj (tracked h)); [apply (inv_sorted _ (hi_hist _ _ _ Hi)) | done..]).
      right. apply Hq'. rewrite E2. apply elem_of_app. right. by apply list_elem_of_singleton.
    + apply Hk; [by apply Hother | done].
  - intros x Hx. apply Hq'. rewrite E2. apply elem_of_app. by left.
Qed.

Lemma iterate_filter (P : Packet -> bool) l acc :
  iterate (fun acc p => Ok (true, if P p then acc ++ [p] else acc)) l acc
  = Ok (acc ++ filter (fun p => P p = true) l.*2).
Proof.
  revert acc. induction l as [| [id p] l IH]; intros acc; cbn [iterate fmap list_fmap snd].
  { by rewrite app_nil_r. }
  cbn [mbind outcome_bind]. rewrite IH, filter_cons. destruct (P p); [| done]. cbn. by rewrite <- app_assoc.
Qed.

Lemma nums_nodup ps : StronglySorted pn_lt ps -> NoDup (nums ps).
Proof.
  induction 1 as [| p ps Hs IH Hp]; cbn; constructor; [| done].
  intros (q & Eq & Hq)%list_elem_of_fmap. rewrite Forall_forall in Hp. specialize (Hp q Hq). unfold pn_lt in Hp. lia.
Qed.

Lemma nums_filter_nodup (P : Packet -> Prop) `{forall p, Decision (P p)} ps : NoDup (nums ps) -> NoDup (nums (filter P ps)).
Proof.
  unfold nums. induction ps as [| p ps IH]; [done |]. rewrite fmap_cons. intros [Hp Hnd]%NoDup_cons.
  rewrite filter_cons.
  destruct (decide (P p)); [| by apply IH]. cbn. constructor; [| by apply IH].
  intros (q & E & [_ Hq]%list_elem_of_filter)%list_elem_of_fmap. apply Hp. rewrite E. apply list_elem_of_fmap. by exists q.
Qed.

Lemma remove_all_refines l : forall history, hist_inv history -> NoDup (nums l) ->
  (forall p, p ∈ l -> PacketNumber p ∈ nums (packets history)) ->
  exists history', remove_all history l = Ok history' /\ hist_inv history'
    /\ packets history' = filter (fun q => PacketNumber q ∉ nums l) (packets history).
Proof.
  induction l as [| p l IH]; intros history Hinv Hnd Hin; cbn [remove_all].
  { exists history. split_and!; try done. clear. induction (packets history) as [| q ps IHps]; [done |].
    rewrite filter_cons_True by (apply not_elem_of_nil). by rewrite <- IHps. }
  cbn in Hnd. apply NoDup_cons in Hnd as [Hp Hnd].
  assert (Hpn := Hin p ltac:(by left)). apply elem_of_nums in Hpn as (q & Hq & Eq).
  destruct (Remove_refines history (PacketNumber p) q Hinv) as (h1 & Hrun & Hinv1 & E1).
  { rewrite <- Eq. apply find_pn_Some; [apply Hinv | done]. }
  unfold remove_ignore at 1. rewrite Hrun. cbn [mbind outcome_bind].
  destruct (IH h1 Hinv1 Hnd) as (h' & -> & Hinv' & E2).
  { intros r Hr. rewrite E1. apply elem_of_nums_remove. split; [| by apply Hin; right].
    intros E. apply Hp. rewrite <- E. apply list_elem_of_fmap. by exists r. }
  exists h'. split; [done |]. split; [done |]. rewrite E2, E1. unfold remove_pn. rewrite list_filter_filter.
  apply list_filter_iff. intros r. cbn. rewrite elem_of_cons. tauto.
Qed.

Lemma filter_hs ps : NoDup (nums ps) ->
  filter (fun q => PacketNumber q ∉ nums (filter (fun p => isHandshake p = true) ps)) ps
  = filter (fun q => isHandshake q = false) ps.
Proof.
  intros Hnd. assert (Hgen : forall qs : list Packet, (forall q, q ∈ qs -> q ∈ ps) ->
    filter (fun q => PacketNumber q ∉ nums (filter (fun p => isHandshake p = true) ps)) qs
    = filter (fun q => isHandshake q = false) qs).
  { induction qs as [| q qs IH]; intros Hsub; [done |]. rewrite !filter_cons.
    rewrite IH by (intros; apply Hsub; by right).
    assert (Hiff : PacketNumber q ∉ nums (filter (fun p => isHandshake p = true) ps) <-> isHandshake q = false).
    { rewrite elem_of_nums. setoid_rewrite list_elem_of_filter. split.
      - intros Hn. destruct (isHandshake q) eqn:E; [| done]. exfalso. apply Hn. exists q.
        split; [| done]. split; [done |]. apply Hsub. by left.
      - intros Hf (r & [Hr Hin] & E). assert (r = q) as ->; [| congruence].
        assert (Hq : q ∈ ps) by (apply Hsub; by left). clear -Hnd Hin Hq E. unfold nums in Hnd.
        induction ps as [| x ps IH]; [by apply elem_of_nil in Hq |]. cbn in Hnd. apply NoDup_cons in Hnd as [Hx Hnd].
        apply elem_of_cons in Hin as [-> | Hin], Hq as [-> | Hq]; [done | | | by apply IH].
        + exfalso. apply Hx. rewrite E. apply list_elem_of_fmap. by exists q.
        + exfalso. apply Hx. rewrite <- E. apply list_elem_of_fmap. by exists r. }
    destruct (decide (PacketNumber q ∉ _)) as [H1 | H1], (decide (isHandshake q = false)) as [H2 | H2];
      [done | tauto | tauto | done]. }
  by apply Hgen.
Qed.

Lemma total_filter_hs ps : total ps
  = total (filter (fun q => isHandshake q = false) ps) + total (filter (fun q => isHandshake q = true) ps).
Proof.
  induction ps as [| p ps IH]; [done |]. rewrite !filter_cons. cbn [total].
  destruct (decide (isHandshake p = false)) as [E | E], (decide (isHandshake p = true)) as [E' | E'];
    cbn [total]; [congruence | lia | lia |]. by destruct (isHandshake p).
Qed.

Lemma links_filter_hs ps : links_ok ps -> links_ok (filter (fun q => isHandshake q = false) ps).
Proof.
  intros [H1 H2 H3]. constructor.
  - intros q r [Hh Hq]%list_elem_of_filter Hr. destruct (H1 q r Hq Hr) as (x & Hx & ? & ? & ? & Hhs).
    exists x. split; [apply list_elem_of_filter; split; [congruence | done] | by split_and!].
  - intros x q [_ Hx]%list_elem_of_filter Hre [_ Hq]%list_elem_of_filter. by apply H2.
  - intros x [_ Hx]%list_elem_of_filter. by apply H3.
Qed.

Lemma SetHandshakeComplete_ok h clock leaked : handler_inv h clock leaked ->
  exists h', SetHandshakeComplete h = Ok h'
    /\ handler_inv h' clock (leaked + total (filter (fun p => isHandshake p = true) (tracked h)))
    /\ tracked h' = filter (fun p => isHandshake p = false) (tracked h)
    /\ retransmissionQueue h' = filter (fun p => Packet_EncryptionLevel p = Encryption1RTT) (retransmissionQueue h)
    /\ bytesInFlight h' = bytesInFlight h.
Proof.
  intros Hi. unfold SetHandshakeComplete, history_Iterate. rewrite (iterate_filter isHandshake).
  cbn [mbind outcome_bind app]. change ((packetList (packetHistory h)).*2) with (tracked h).
  assert (Hs := inv_sorted _ (hi_hist _ _ _ Hi)). assert (Hnd := nums_nodup _ Hs). fold (tracked h) in Hnd.
  destruct (remove_all_refines (filter (fun p => isHandshake p = true) (tracked h)) (packetHistory h))
    as (hist' & -> & Hinv' & Epk); [apply Hi | by apply nums_filter_nodup |..].
  { intros p [_ Hp]%list_elem_of_filter. apply elem_of_nums. by exists p. }
  fold (tracked h) in Epk. rewrite filter_hs in Epk by done.
  cbn [mbind outcome_bind]. eexists. split; [reflexivity |]. split; [| by split_and!].
  assert (Htot := total_filter_hs (tracked h)). assert (Hb := hi_bytes _ _ _ Hi).
  assert (Htr := hi_tracked _ _ _ Hi).
  assert (0 <= total (filter (fun p => isHandshake p = true) (tracked h))).
  { apply total_nonneg. intros p [_ Hp]%list_elem_of_filter. by eapply tracked_len. }
  assert (Hlk := hi_leaked _ _ _ Hi).
  constructor; unfold tracked; cbn; try exact (hi_last _ _ _ Hi); try exact (hi_sa _ _ _ Hi);
    try exact (hi_bound _ _ _ Hi); try done; rewrite ?Epk; fold (tracked h); try lia.
  - by apply links_filter_hs, Hi.
  - assert (Hc : covers (tracked h) (filter (fun p => isHandshake p = false) (tracked h))).
    { intros q [_ Hq]%list_elem_of_filter. exists q. split; [done | apply le_pkt_refl]. }
    apply (covers_tracked _ _ _ _ _ Hc) in Htr. destruct Htr as [T1 T2 T3 T4 T5 T6]. constructor; try done.
    + intros p [Hp | [_ Hp]%list_elem_of_filter]; apply T4; [by left | by right].
    + by apply nums_filter_nodup.
    + intros p x Hp [_ Hx]%list_elem_of_filter. by apply T6.
Qed.

(** *** Received acknowledgements *)

Lemma Validate_acks g f : ranges_wf f ->
  Validate g f = Ok (negb (existsb (acks f) (generator_history g))).
Proof.
  intros Hwf. unfold Validate. induction (generator_history g) as [| pn l IH]; [done |]. cbn.
  rewrite AcksPacket_acks by done. cbn. by destruct (acks f pn).
Qed.

Lemma maybeUpdateRTT_same h largest delay t clock leaked : handler_inv h clock leaked ->
  let '(b, h1) := maybeUpdateRTT h largest delay t in
  let h2 := if (b : bool) then set_congestion h1 (sa_MaybeExitSlowStart (rttStats h1) (congestion h1)) else h1 in
  handler_inv h2 clock leaked /\ tracked h2 = tracked h /\ retransmissionQueue h2 = retransmissionQueue h
  /\ lastSentPacketNumber h2 = lastSentPacketNumber h /\ handler_largestAcked h2 = handler_largestAcked h.
Proof.
  intros Hi. unfold maybeUpdateRTT. destruct (history_GetPacket _ _); [| by split_and!].
  split; [| by split_and!]. eapply inv_same; [exact Hi | done..|]. cbn. apply sa_MaybeExitSlowStart_ok, Hi.
Qed.

(** What a processed ACK frame changes. *)
Record ack_result h h' (f : AckFrame) : Prop := {
  ar_gone : forall p, p ∈ tracked h' -> acks f (PacketNumber p) = false;
  ar_from : forall x, x ∈ nums (tracked h') -> x ∈ nums (tracked h);
  ar_kept : forall q, q ∈ tracked h -> canBeRetransmitted q = true ->
    (exists a, a ∈ tracked h /\ acks f (PacketNumber a) = true
       /\ derived (tracked h) (PacketNumber a) (PacketNumber q))
    \/ q ∈ tracked h' \/ clear_canBeRetransmitted q ∈ retransmissionQueue h';
  ar_queue : forall x, x ∈ retransmissionQueue h -> x ∈ retransmissionQueue h';
  ar_last : lastSentPacketNumber h' = lastSentPacketNumber h }.

Lemma ack_and_detect h clock leaked f t : handler_inv h clock leaked -> ranges_wf f ->
  exists h1 h', ack_packets h (bytesInFlight h) t (acked_of f (tracked h)) = Ok h1
    /\ detectLostPackets h1 t (bytesInFlight h) = Ok h' /\ handler_inv h' clock leaked /\ ack_result h h' f.
Proof.
  intros Hi Hwf. assert (Hs := inv_sorted _ (hi_hist _ _ _ Hi)). assert (Hnd := nums_nodup _ Hs).
  fold (tracked h) in Hnd.
  destruct (ack_packets_ok (bytesInFlight h) t (acked_of f (tracked h)) h clock leaked Hi)
    as (h1 & Hrun1 & Hi1 & [A1 A2 A3 A4 A5 A6]).
  { by apply nums_filter_nodup. }
  { intros p [_ Hp]%list_elem_of_filter. split; [apply elem_of_nums; by exists p |].
    apply (tr_pkt _ _ _ _ (hi_tracked _ _ _ Hi) p Hp). }
  destruct (detectLostPackets_ok h1 clock leaked t (bytesInFlight h) Hi1)
    as (h' & Hrun2 & Hi2 & E1 & E2 & E3 & E4).
  exists h1, h'. split; [done |]. split; [done |]. split; [done |].
  assert (Hsub : forall p, p ∈ tracked h' -> p ∈ tracked h1) by (intros p Hp; rewrite E1; apply elem_of_app; by right).
  constructor.
  - intros p Hp%Hsub. assert (Hn : PacketNumber p ∈ nums (tracked h1)) by (apply elem_of_nums; by exists p).
    apply A2 in Hn as [Hn Hin]. apply elem_of_nums in Hin as (q & Hq & Eq).
    destruct (acks f (PacketNumber p)) eqn:Ea; [| done]. exfalso. apply Hn. apply elem_of_nums. exists q.
    split; [| done]. apply list_elem_of_filter. by rewrite Eq.
  - intros x (p & Hp%Hsub & <-)%elem_of_nums. apply A2. apply elem_of_nums. by exists p.
  - intros q Hq Hc. destruct (A3 q Hq Hc) as [Hq1 | (a & Ha & Hd)].
    + right. rewrite E1, elem_of_app in Hq1. destruct Hq1 as [Hlost | Hq1]; [| by left].
      right. rewrite E2. apply elem_of_app. right. apply list_elem_of_fmap. exists q. split; [done |].
      apply list_elem_of_filter. done.
    + left. apply elem_of_nums in Ha as (p & [Hack Hp]%list_elem_of_filter & <-). by exists p.
  - intros x Hx. rewrite E2, A4. apply elem_of_app. by left.
  - congruence.
Qed.

Lemma ReceivedAck_ok h clock leaked f largest pn t : handler_inv h clock leaked -> ranges_wf f ->
  LargestAcked f = Ok largest ->
  if lastSentPacketNumber h <? largest then
    ReceivedAck h f pn t = Err (QuicError InvalidAckData (Msg "Received ACK for an unsent package" []))
  else if negb (pn =? 0) && (pn <=? largestReceivedPacketWithAck h) then ReceivedAck h f pn t = Ok h
  else if existsb (acks f) (generator_history (packetNumbers h)) then
    ReceivedAck h f pn t
    = Err (QuicError InvalidAckData (Msg "Received an ACK for a skipped packet number" []))
  else exists h', ReceivedAck h f pn t = Ok h' /\ handler_inv h' clock leaked /\ ack_result h h' f.
Proof.
  intros Hi Hwf Hl. unfold ReceivedAck. rewrite Hl. cbn [mbind outcome_bind].
  destruct (_ <? largest); [done |]. destruct (negb (pn =? 0) && _); [done |].
  set (h0 := set_handler_largestAcked _ _).
  assert (Hi0 : handler_inv h0 clock leaked) by (eapply inv_same; [exact Hi | done.. | apply Hi]).
  assert (Ht0 : tracked h0 = tracked h /\ retransmissionQueue h0 = retransmissionQueue h
    /\ lastSentPacketNumber h0 = lastSentPacketNumber h /\ packetNumbers h0 = packetNumbers h) by done.
  destruct Ht0 as (T1 & T2 & T3 & T4). clearbody h0.
  rewrite (Validate_acks _ f Hwf), T4. cbn [mbind outcome_bind]. destruct (existsb _ _); cbn [negb]; [done |].
  assert (HR := maybeUpdateRTT_same h0 largest (DelayTime f) t clock leaked Hi0).
  destruct (maybeUpdateRTT h0 largest (DelayTime f) t) as [b h1].
  set (h2 := if b then _ else _) in *. destruct HR as (Hi2 & U1 & U2 & U3 & U4). clearbody h2.
  rewrite determineNewlyAcked_ok by (done || apply Hi2). cbn [mbind outcome_bind]. fold (tracked h2).
  destruct (ack_and_detect h2 clock leaked f t Hi2 Hwf) as (h3 & h4 & -> & Hd & Hi4 & [B1 B2 B3 B4 B5]).
  cbn [mbind outcome_bind]. rewrite Hd. cbn [mbind outcome_bind]. eexists. split; [reflexivity |].
  split; [by apply inv_alarm |].
  destruct (updateLossDetectionAlarm_same h4) as (V1 & V2 & V3 & _). cbv zeta in V1, V2, V3.
  rewrite U1, U2, U3, T1, T2, T3 in *.
  constructor; unfold tracked; rewrite ?V1, ?V2, ?V3; done.
Qed.

Lemma alarm_keeps h h' : keeps h h' -> keeps h (updateLossDetectionAlarm h').
Proof.
  intros Hk q Hq Hc. destruct (updateLossDetectionAlarm_same h') as (V1 & V2 & _). cbv zeta in V1, V2.
  unfold tracked. rewrite V1, V2. by apply Hk.
Qed.

Lemma OnAlarm_ok h clock leaked now : handler_inv h clock leaked ->
  exists h', OnAlarm h now = Ok h' /\ handler_inv h' clock leaked /\ keeps h h'
    /\ forall x, x ∈ retransmissionQueue h -> x ∈ retransmissionQueue h'.
Proof.
  intros Hi. assert (Hs := inv_sorted _ (hi_hist _ _ _ Hi)). assert (Hnd := nums_nodup _ Hs).
  assert (Hgoal : exists h1, (if HasOutstandingPackets (packetHistory h) then onVerifiedAlarm h now else Ok h) = Ok h1
    /\ handler_inv h1 clock leaked /\ keeps h h1
    /\ forall x, x ∈ retransmissionQueue h -> x ∈ retransmissionQueue h1).
  { assert (Hsame : forall h1, packetHistory h1 = packetHistory h -> retransmissionQueue h1 = retransmissionQueue h ->
      lastSentPacketNumber h1 = lastSentPacketNumber h -> bytesInFlight h1 = bytesInFlight h ->
      congestion h1 = congestion h -> handler_inv h1 clock leaked /\ keeps h h1
      /\ forall x, x ∈ retransmissionQueue h -> x ∈ retransmissionQueue h1).
    { intros h1 E1 E2 E3 E4 E5. split; [eapply inv_same; try done; rewrite E5; apply Hi |].
      rewrite E2. split; [| done]. intros q Hq _. left. unfold tracked. by rewrite E1. }
    destruct (HasOutstandingPackets _); [| exists h; split; [done |]; by apply Hsame].
    unfold onVerifiedAlarm. destruct (HasOutstandingHandshakePackets _).
    - unfold queueHandshakePacketsForRetransmission, history_Iterate.
      rewrite (iterate_filter (fun p => canBeRetransmitted p && isHandshake p)). cbn [mbind outcome_bind app].
      destruct (Hsame (set_handshakeCount h (u32 (handshakeCount h + 1)))) as (Hi1 & _); try done.
      set (l := filter _ _).
      assert (Hl : NoDup (nums l)) by (by apply nums_filter_nodup).
      destruct (queue_all_ok l _ _ _ Hi1 Hl) as (h1 & -> & Hi2 & Hk & _ & Hq).
      + intros p [Hp Hin]%list_elem_of_filter. apply andb_true_iff in Hp as [Hp _]. by split.
      + exists h1. by split_and!.
    - destruct (negb (lossTime h =? 0)).
      + destruct (detectLostPackets_ok h clock leaked now (bytesInFlight h) Hi)
          as (h1 & -> & Hi1 & E1 & E2 & _). exists h1. split; [done |]. split; [done |]. split.
        * intros q Hq Hc. rewrite E1, elem_of_app in Hq. destruct Hq as [Hq | Hq]; [right | by left].
          rewrite E2. apply elem_of_app. right. apply list_elem_of_fmap. exists q. split; [done |].
          by apply list_elem_of_filter.
        * intros x Hx. rewrite E2. apply elem_of_app. by left.
      + destruct (tlpCount h <? maxTLPs); [eexists; split; [reflexivity |]; by apply Hsame |].
        eexists; split; [reflexivity |]. apply Hsame; by destruct (rtoCount h =? 0). }
  unfold OnAlarm. destruct Hgoal as (h1 & -> & Hi1 & Hk & Hq). cbn [mbind outcome_bind].
  eexists. split; [reflexivity |]. split; [by apply inv_alarm |]. split; [by apply alarm_keeps |].
  destruct (updateLossDetectionAlarm_same h1) as (_ & V2 & _). cbv zeta in V2. by rewrite V2.
Qed.

(** *** Dequeueing *)

(** What is known of a packet taken from the queue. *)
Definition dequeued h (x : Packet) : Prop :=
  forall q, q ∈ tracked h -> PacketNumber q = PacketNumber x -> canBeRetransmitted q = false
    /\ retransmittedAs q = [] /\ (forall y, y ∈ retransmissionQueue h -> PacketNumber y <> PacketNumber x)
    /\ isHandshake x = isHandshake q.

Lemma Dequeue_ok h clock leaked x h1 : handler_inv h clock leaked ->
  DequeuePacketForRetransmission h = (Some x, h1) ->
  handler_inv h1 clock leaked /\ dequeued h1 x /\ retransmissionQueue h = x :: retransmissionQueue h1
  /\ tracked h1 = tracked h /\ lastSentPacketNumber h1 = lastSentPacketNumber h
  /\ bytesInFlight h1 = bytesInFlight h.
Proof.
  intros Hi. unfold DequeuePacketForRetransmission. destruct (retransmissionQueue h) as [| y queue] eqn:Eq; [done |].
  intros [= <- <-]. assert (Htr := hi_tracked _ _ _ Hi). rewrite Eq in Htr.
  destruct Htr as [T1 T2 T3 T4 T5 T6]. cbn in T5. apply NoDup_cons in T5 as [Hy Hnd]. split.
  - constructor; unfold tracked; cbn; try exact (hi_last _ _ _ Hi); try apply Hi. constructor; try done.
    + intros p [Hp | Hp]; apply T4; [by left | right; by right].
    + intros p z Hp Hz. apply T6; [done | by right].
  - split; [| done]. intros q Hq E. destruct (T6 q y Hq ltac:(by left) ltac:(done)) as (H1 & H2 & H3).
    split_and!; try done. cbn. intros z Hz Ez. apply Hy. rewrite <- Ez. apply list_elem_of_fmap. by exists z.
Qed.

Lemma first_outstanding_elem ps p : first_outstanding ps = Some p -> p ∈ ps /\ canBeRetransmitted p = true.
Proof.
  induction ps as [| q ps IH]; cbn; [done |]. destruct (canBeRetransmitted q) eqn:E.
  - intros [= ->]. split; [by left | done].
  - intros H. destruct (IH H). split; [by right | done].
Qed.

Lemma first_outstanding_None ps : first_outstanding ps = None <-> forall p, p ∈ ps -> canBeRetransmitted p = false.
Proof.
  induction ps as [| q ps IH]; cbn.
  { split; [intros _ p Hp; by apply elem_of_nil in Hp | done]. }
  destruct (canBeRetransmitted q) eqn:E.
  - split; [done |]. intros H. specialize (H q ltac:(by left)). congruence.
  - rewrite IH. split; intros H p; [intros [-> | Hp]%elem_of_cons; auto | intros Hp; apply H; by right].
Qed.

Lemma DequeueProbe_ok h clock leaked : handler_inv h clock leaked ->
  match DequeueProbePacket h with
  | Ok (Some x, h1) => handler_inv h1 clock leaked /\ dequeued h1 x
      /\ (forall q, q ∈ tracked h -> canBeRetransmitted q = true -> q ∈ tracked h1 \/ x = clear_canBeRetransmitted q)
      /\ (forall y, y ∈ retransmissionQueue h -> y = x \/ y ∈ retransmissionQueue h1)
  | Ok (None, _) => False
  | Err e => e = Errorf "cannot dequeue a probe packet. No outstanding packets" []
      /\ retransmissionQueue h = [] /\ forall p, p ∈ tracked h -> canBeRetransmitted p = false
  | Panic _ => False
  end.
Proof.
  intros Hi. unfold DequeueProbePacket.
  destruct (Z.eqb_spec (len (retransmissionQueue h)) 0) as [E0 | E0].
  - apply len_zero in E0. rewrite FirstOutstanding_refines by apply Hi. fold (tracked h).
    destruct (first_outstanding (tracked h)) as [p |] eqn:Ef.
    2:{ cbn. split; [done |]. split; [done |]. by apply first_outstanding_None. }
    apply first_outstanding_elem in Ef as [Hp Hc].
    destruct (queuePacket_ok h clock leaked p Hi Hp Hc) as (h1 & -> & Hi1 & E1 & E2 & _).
    cbn [mbind outcome_bind]. rewrite E0 in E2. cbn in E2.
    destruct (DequeuePacketForRetransmission h1) as [ox h2] eqn:Ed.
    assert (ox = Some (clear_canBeRetransmitted p)) as ->
      by (unfold DequeuePacketForRetransmission in Ed; rewrite E2 in Ed; congruence).
    destruct (Dequeue_ok h1 clock leaked _ h2 Hi1 Ed) as (Hi2 & Hd & _ & Et & _).
    split_and!; try done; [| rewrite E0; by intros y ?%elem_of_nil].
    intros q Hq Hqc. rewrite Et, E1. destruct (Z.eq_dec (PacketNumber q) (PacketNumber p)) as [E |].
    + right. f_equal. apply (pn_inj (tracked h)); [apply (inv_sorted _ (hi_hist _ _ _ Hi)) | done..].
    + left. apply elem_of_update_pn. exists q. split; [done |].
      by destruct (Z.eqb_spec (PacketNumber q) (PacketNumber p)).
  - cbn [mbind outcome_bind]. destruct (DequeuePacketForRetransmission h) as [ox h2] eqn:Ed.
    destruct ox as [x |].
    + destruct (Dequeue_ok h clock leaked x h2 Hi Ed) as (Hi2 & Hd & Eq & Et & _).
      split_and!; try done; [rewrite Et; by left |]. intros y. rewrite Eq, elem_of_cons. tauto.
    + unfold DequeuePacketForRetransmission in Ed. destruct (retransmissionQueue h); [| congruence]. by apply E0.
Qed.

(** ** Runs of the handler *)

Inductive sph_event : Type :=
  | ESent (p : Packet)
  | ERetransmit (x : Packet) (ps : list Packet)
  | EDrop (x : Packet)
  | EProbe (x : Packet) (ps : list Packet)
  | EAck (f : AckFrame)
  | EAlarm
  | EComplete
  | EPop.

(** The state with the time of the last packet, and the bytes in flight of the
    packets that were discarded when the handshake completed. *)
Definition sph_state : Type := @sentPacketHandler C * Z * Z.

(** The calls of a session: packets are sent under increasing numbers and times;
    a packet taken from the queue is retransmitted in packets of its encryption
    level, or dropped. *)
Inductive sph_step : sph_state -> sph_event -> sph_state -> Prop :=
  | step_sent h ck lk p h' : send_ok h ck p -> SentPacket h p = Ok h' ->
      sph_step (h, ck, lk) (ESent p) (h', SendTime p, lk)
  | step_retransmit h ck lk x h1 ps h' : DequeuePacketForRetransmission h = (Some x, h1) ->
      sends_ok (lastSentPacketNumber h1) ck (bytesInFlight h1) ps ->
      (forall p, p ∈ ps -> isHandshake p = isHandshake x) ->
      SentPacketsAsRetransmission h1 ps (PacketNumber x) = Ok h' ->
      sph_step (h, ck, lk) (ERetransmit x ps) (h', end_clock ck ps, lk)
  | step_drop h ck lk x h1 : DequeuePacketForRetransmission h = (Some x, h1) ->
      sph_step (h, ck, lk) (EDrop x) (h1, ck, lk)
  | step_probe h ck lk x h1 ps h' : DequeueProbePacket h = Ok (Some x, h1) ->
      sends_ok (lastSentPacketNumber h1) ck (bytesInFlight h1) ps ->
      (forall p, p ∈ ps -> isHandshake p = isHandshake x) ->
      SentPacketsAsRetransmission h1 ps (PacketNumber x) = Ok h' ->
      sph_step (h, ck, lk) (EProbe x ps) (h', end_clock ck ps, lk)
  | step_ack h ck lk f pn t h' : ranges_wf f -> ReceivedAck h f pn t = Ok h' ->
      sph_step (h, ck, lk) (EAck f) (h', ck, lk)
  | step_alarm h ck lk now h' : OnAlarm h now = Ok h' -> sph_step (h, ck, lk) EAlarm (h', ck, lk)
  | step_complete h ck lk h' : SetHandshakeComplete h = Ok h' ->
      sph_step (h, ck, lk) EComplete
        (h', ck, lk + total (filter (fun p => isHandshake p = true) (tracked h)))
  | step_pop h ck lk num : sph_step (h, ck, lk) EPop ((PopPacketNumber h num).2, ck, lk).

Inductive sph_reach : sph_state -> Prop :=
  | reach_new r c num : sa_ok c -> sph_reach (NewSentPacketHandler r c num, 0, 0)
  | reach_step s e s' : sph_reach s -> sph_step s e s' -> sph_reach s'.

Lemma dequeued_rof h x (ps : list Packet) : dequeued h x -> (forall p, p ∈ ps -> isHandshake p = isHandshake x) ->
  forall q, q ∈ tracked h -> PacketNumber q = PacketNumber x -> canBeRetransmitted q = false /\ retransmittedAs q = []
     /\ (forall y, y ∈ retransmissionQueue h -> PacketNumber y <> PacketNumber x)
     /\ (forall p, p ∈ ps -> isHandshake p = isHandshake q).
Proof.
  intros Hd Hps q Hq E. destruct (Hd q Hq E) as (? & ? & ? & Hhs). split_and!; try done.
  intros p Hp. rewrite <- Hhs. by apply Hps.
Qed.

Lemma new_handler_inv r c num : sa_ok c -> handler_inv (NewSentPacketHandler r c num) 0 0.
Proof.
  intros Hc. constructor; try done; [apply new_hist_inv | |].
  - constructor; by intros ? ? ?%elem_of_nil || intros ? ?%elem_of_nil.
  - constructor; try by (intros ? ? ?%elem_of_nil || intros ? ?%elem_of_nil).
    + by intros p [?%elem_of_nil | ?%elem_of_nil].
    + constructor.
Qed.

(** What a step does with the packets that may be retransmitted, and with the queue. *)
Definition step_keeps (s : sph_state) (e : sph_event) (s' : sph_state) : Prop :=
  let h := s.1.1 in
  let h' := s'.1.1 in
  (forall q, q ∈ tracked h -> canBeRetransmitted q = true ->
     q ∈ tracked h' \/ clear_canBeRetransmitted q ∈ retransmissionQueue h'
     \/ match e with
        | EAck f => exists a, a ∈ tracked h /\ acks f (PacketNumber a) = true
                      /\ derived (tracked h) (PacketNumber a) (PacketNumber q)
        | EProbe x _ => x = clear_canBeRetransmitted q
        | EComplete => isHandshake q = true
        | _ => False
        end)
  /\ forall y, y ∈ retransmissionQueue h ->
     y ∈ retransmissionQueue h'
     \/ match e with
        | ERetransmit x _ | EDrop x | EProbe x _ => y = x
        | EComplete => isHandshake y = true
        | _ => False
        end.

Definition state_inv (s : sph_state) : Prop := handler_inv s.1.1 s.1.2 s.2.

Lemma sph_step_ok s e s' : state_inv s -> sph_step s e s' -> state_inv s' /\ step_keeps s e s'.
Proof.
  intros Hi Hst. destruct Hst as [h ck lk p h' Hp Hrun | h ck lk x h1 ps h' Hdq Hps Hhs Hrun
    | h ck lk x h1 Hdq | h ck lk x h1 ps h' Hdq Hps Hhs Hrun | h ck lk f pn t h' Hwf Hrun
    | h ck lk now h' Hrun | h ck lk h' Hrun | h ck lk num]; unfold state_inv, step_keeps in *; cbn [fst snd] in *.
  - destruct (SentPacket_ok h ck lk p Hi Hp) as (h2 & Hrun2 & Hi2 & _ & Eq & Et).
    assert (h2 = h') as -> by congruence. split; [done |]. rewrite Eq. split; [| by auto].
    intros q Hq Hc. left. destruct (_ =? 0); [by rewrite Et |]. destruct Et as (p' & -> & _).
    apply elem_of_app. by left.
  - destruct (Dequeue_ok h ck lk x h1 Hi Hdq) as (Hi1 & Hd & Eq & Et & E3 & E4).
    destruct (SentPacketsAsRetransmission_ok h1 ck lk ps (PacketNumber x) Hi1 Hps) as (h2 & Hrun2 & Hi2 & Eq2 & Hk);
      [by apply dequeued_rof |]. assert (h2 = h') as -> by congruence. split; [done |]. rewrite <- Et. split.
    + intros q Hq Hc. left. by apply Hk.
    + rewrite Eq, Eq2. intros y [-> | Hy]%elem_of_cons; [by right | by left].
  - destruct (Dequeue_ok h ck lk x h1 Hi Hdq) as (Hi1 & Hd & Eq & Et & _). split; [done |]. rewrite Et.
    split; [by auto |]. rewrite Eq. intros y [-> | Hy]%elem_of_cons; [by right | by left].
  - assert (HP := DequeueProbe_ok h ck lk Hi). rewrite Hdq in HP. destruct HP as (Hi1 & Hd & Hk1 & Hq1).
    destruct (SentPacketsAsRetransmission_ok h1 ck lk ps (PacketNumber x) Hi1 Hps) as (h2 & Hrun2 & Hi2 & Eq2 & Hk);
      [by apply dequeued_rof |]. assert (h2 = h') as -> by congruence. split; [done |]. split.
    + intros q Hq Hc. destruct (Hk1 q Hq Hc) as [Hq2 | Ex]; [left; by apply Hk | by auto].
    + rewrite Eq2. intros y Hy. destruct (Hq1 y Hy); auto.
  - destruct (ranges_ends f Hwf) as (lo & hi & _ & _ & _ & Hl & _).
    assert (HR := ReceivedAck_ok h ck lk f (Largest hi) pn t Hi Hwf Hl). rewrite Hrun in HR.
    destruct (_ <? _); [done |]. destruct (negb (pn =? 0) && _).
    { injection HR as ->. split; [done |]. by auto. }
    destruct (existsb _ _); [done |]. destruct HR as (h2 & [= <-] & Hi2 & [R1 R2 R3 R4 R5]).
    split; [done |]. split; [| by auto]. intros q Hq Hc. destruct (R3 q Hq Hc) as [? | [? | ?]]; auto.
  - destruct (OnAlarm_ok h ck lk now Hi) as (h2 & Hrun2 & Hi2 & Hk & Hq). assert (h2 = h') as -> by congruence.
    split; [done |]. split; [| by auto]. intros q Hq' Hc. destruct (Hk q Hq' Hc); auto.
  - destruct (SetHandshakeComplete_ok h ck lk Hi) as (h2 & Hrun2 & Hi2 & Et & Eq & _).
    assert (h2 = h') as -> by congruence. split; [done |]. rewrite Et, Eq. split.
    + intros q Hq Hc. destruct (isHandshake q) eqn:Eh; [by auto |]. left. by apply list_elem_of_filter.
    + intros y Hy. destruct (isHandshake y) eqn:Eh; [by auto |]. left. apply list_elem_of_filter. split; [| done].
      unfold isHandshake in Eh. apply negb_false_iff, bool_decide_eq_true in Eh. done.
  - unfold PopPacketNumber. destruct (generator_Pop _ _) as [pn g]. cbn. split; [| by auto].
    eapply inv_same; [exact Hi | done..|]. apply Hi.
Qed.

Lemma reach_inv s : sph_reach s -> state_inv s.
Proof.
  induction 1 as [r c num Hc | s e s' _ IH Hst]; [by apply new_handler_inv |].
  by destruct (sph_step_ok s e s' IH Hst).
Qed.
End Recovery.

(** ** Properties *)

(** C11. The bytes in flight are those of the packets the handler tracks, in
    every state it reaches: sending, acknowledging, declaring lost and
    retransmitting count every packet once, and the unsigned subtractions never
    wrap.  The one exception is the second term, the handshake packets that
    [SetHandshakeComplete] discards. *)
Theorem bytes_in_flight_exact `{SA : SendAlgorithm C} {L : SendAlgorithmLaws C} (h : @sentPacketHandler C) clock discarded :
  sph_reach (h, clock, discarded) ->
  bytesInFlight h = total (packets (packetHistory h)) + discarded /\ 0 <= discarded
  /\ 0 <= bytesInFlight h < 2 ^ 63.
Proof.
  intros Hr. apply reach_inv in Hr as Hi. unfold state_inv in Hi. cbn in Hi.
  assert (Hb := hi_bytes _ _ _ Hi). assert (Hlk := hi_leaked _ _ _ Hi). assert (Hbd := hi_bound _ _ _ Hi).
  assert (0 <= total (tracked h)) by (apply total_nonneg; intros p Hp; by eapply tracked_len).
  unfold tracked in *. split_and!; lia.
Qed.

(** C1. No packet is forgotten: a tracked packet that may be retransmitted stays
    so through every step of the handler, or it enters the retransmission
    queue, unless the step acknowledges it or a packet it retransmits, sends it
    again as a probe, or ends the handshake it belongs to; and a packet leaves
    the queue only to be retransmitted or dropped by the session, or with the
    end of the handshake. *)
Theorem no_packet_forgotten `{SA : SendAlgorithm C} {L : SendAlgorithmLaws C} (s : @sph_state C) e s' :
  sph_reach s -> sph_step s e s' -> step_keeps s e s'.
Proof. intros Hr Hst. by eapply sph_step_ok; [apply reach_inv |]. Qed.



(** ** An example *)

Definition ok_or {A} (d : A) (o : outcome A) : A := match o with Ok a => a | _ => d end.

Definition packed (pn : Z) (frames : list Frame) (level : EncryptionLevel) (t : Z) : Packet :=
  mkPacket pn 0 frames 1200 level t 0 false false [] false 0.

Definition ex_new : sentPacketHandler :=
  NewSentPacketHandler NewRTTStats
    (NewCubicSender false InitialCongestionWindow DefaultMaxCongestionWindow) 60000.

(** A handshake packet and two others are sent; the third is acknowledged, and
    the second, sent 50 ms earlier, is lost. *)
Definition ex_p1 : Packet := packed 1 [Ping] EncryptionHandshake 1000000.
Definition ex_p2 : Packet := packed 2 [Ping] Encryption1RTT 2000000.
Definition ex_p3 : Packet := packed 3 [Ack (mkAckFrame [mkAckRange 0 9] 0); Ping] Encryption1RTT 52000000.
Definition ex_ack : AckFrame := mkAckFrame [mkAckRange 3 3; mkAckRange 1 1] 0.

Definition ex_sent1 : sentPacketHandler := ok_or ex_new (SentPacket ex_new ex_p1).
Definition ex_sent2 : sentPacketHandler := ok_or ex_new (SentPacket ex_sent1 ex_p2).
Definition ex_sent3 : sentPacketHandler := ok_or ex_new (SentPacket ex_sent2 ex_p3).
Definition ex_acked : sentPacketHandler := ok_or ex_new (ReceivedAck ex_sent3 ex_ack 7 82000000).

Lemma ex_fresh pn fs level t : match fs with Ack f :: _ => AckRanges f <> [] | _ => True end ->
  fresh_packet (packed pn fs level t).
Proof. intros H. constructor; cbn; (done || lia). Qed.

Lemma ex_reach_new : sph_reach (ex_new, 0, 0).
Proof. constructor. apply NewCubicSender_ok; by vm_compute. Qed.

Lemma ex_reach_sent1 : sph_reach (ex_sent1, 1000000, 0).
Proof.
  eapply reach_step; [apply ex_reach_new |]. apply (step_sent ex_new 0 0 ex_p1).
  - split_and!; first [by vm_compute | by apply ex_fresh].
  - vm_compute. reflexivity.
Qed.

Lemma ex_reach_sent2 : sph_reach (ex_sent2, 2000000, 0).
Proof.
  eapply reach_step; [apply ex_reach_sent1 |]. apply (step_sent ex_sent1 1000000 0 ex_p2).
  - split_and!; first [by vm_compute | by apply ex_fresh].
  - vm_compute. reflexivity.
Qed.

Lemma ex_reach_sent3 : sph_reach (ex_sent3, 52000000, 0).
Proof.
  eapply reach_step; [apply ex_reach_sent2 |]. apply (step_sent ex_sent2 2000000 0 ex_p3).
  - split_and!; first [by vm_compute | by apply ex_fresh].
  - vm_compute. reflexivity.
Qed.

Lemma ex_ranges_wf : ranges_wf ex_ack.
Proof. unfold ranges_wf, ack_wf, ex_ack. cbn. lia. Qed.

Lemma ex_step_acked : sph_step (ex_sent3, 52000000, 0) (EAck ex_ack) (ex_acked, 52000000, 0).
Proof. apply (step_ack ex_sent3 52000000 0 ex_ack 7 82000000); [apply ex_ranges_wf | vm_compute; reflexivity]. Qed.

Lemma bytes_in_flight_exact_witness :
  bytesInFlight ex_sent3 = 3600 /\ bytesInFlight ex_sent3 = total (packets (packetHistory ex_sent3)) + 0.
Proof.
  split; [vm_compute; reflexivity |]. apply (bytes_in_flight_exact ex_sent3 52000000 0 ex_reach_sent3).
Defined.

Lemma no_packet_forgotten_witness :
  step_keeps (ex_sent3, 52000000, 0) (EAck ex_ack) (ex_acked, 52000000, 0)
  /\ (PacketNumber <$> packets (packetHistory ex_sent3), PacketNumber <$> packets (packetHistory ex_acked),
      PacketNumber <$> retransmissionQueue ex_acked) = ([1; 2; 3], [], [2]).
Proof.
  split; [| vm_compute; reflexivity].
  apply (no_packet_forgotten (ex_sent3, 52000000, 0) (EAck ex_ack) (ex_acked, 52000000, 0) ex_reach_sent3 ex_step_acked).
Defined.



(** The bytes of a handshake packet that is still unacknowledged when the
    handshake completes stay in flight for good: the packet is no longer
    tracked, and not even its acknowledgement takes its bytes off, so that the
    congestion window is smaller by them from then on. *)
Theorem handshake_bytes_leak :
  let complete := ok_or ex_new (SetHandshakeComplete ex_sent1) in
  let acked := ok_or ex_new (ReceivedAck complete (mkAckFrame [mkAckRange 1 1] 0) 7 31000000) in
  SetHandshakeComplete ex_sent1 = Ok complete
  /\ ReceivedAck complete (mkAckFrame [mkAckRange 1 1] 0) 7 31000000 = Ok acked
  /\ packets (packetHistory acked) = [] /\ retransmissionQueue acked = []
  /\ bytesInFlight acked = 1200.
Proof. vm_compute. split_and!; reflexivity. Qed.

(** A probe that is due stays due when the acknowledgement for which it was
    to ask arrives first: with every packet acknowledged the handler still asks
    for a tail loss probe, and then fails to find a packet for it, an error that
    closes the connection. *)
Theorem probe_after_ack :
  let sent := ok_or ex_new (SentPacket ex_new (packed 1 [Ping] Encryption1RTT 1000000)) in
  let fired := ok_or ex_new (OnAlarm sent 400000000) in
  let acked := ok_or ex_new (ReceivedAck fired (mkAckFrame [mkAckRange 1 1] 0) 7 401000000) in
  ReceivedAck fired (mkAckFrame [mkAckRange 1 1] 0) 7 401000000 = Ok acked
  /\ packets (packetHistory acked) = []
  /\ handler_SendMode acked = SendTLP
  /\ DequeueProbePacket acked = Err (Errorf "cannot dequeue a probe packet. No outstanding packets" []).
Proof. vm_compute. split_and!; reflexivity. Qed.

(** The retransmission timeout: the smoothed round-trip time plus four mean
    deviations, or 500 ms before the first sample, at least 200 ms, doubled for
    every timeout in a row, and at most a minute; for up to twenty timeouts in a
    row and times of up to 2^40 ns the computation does not overflow. *)
Theorem rto_backoff {C} (h : @sentPacketHandler C) :
  0 <= smoothedRTT (rttStats h) <= 2 ^ 40 -> 0 <= meanDeviation (rttStats h) <= 2 ^ 38 ->
  0 <= rtoCount h <= 20 ->
  let base := if smoothedRTT (rttStats h) =? 0 then 500 * Millisecond
              else smoothedRTT (rttStats h) + 4 * meanDeviation (rttStats h) in
  computeRTOTimeout h = Z.min (60 * Second) (Z.max (200 * Millisecond) base * 2 ^ rtoCount h)
  /\ 200 * Millisecond <= computeRTOTimeout h <= 60 * Second.
Proof.
  intros Hs Hd Hc base. unfold computeRTOTimeout, minRTOTimeout, maxRTOTimeout, defaultRTOTimeout.
  rewrite (i64_small (4 * _)), (i64_small (smoothedRTT _ + _)) by lia. fold base.
  assert (0 <= base <= 2 ^ 41) by (unfold base, Millisecond; case_cmp; lia). clearbody base.
  unfold MaxDuration, MinDuration, shl64, Millisecond, Second in *. rewrite Z.shiftl_mul_pow2 by lia.
  assert (1 <= 2 ^ rtoCount h <= 2 ^ 20).
  { split; [change 1 with (2 ^ 0) |]; apply Z.pow_le_mono_r; lia. }
  set (k := 2 ^ rtoCount h) in *. clearbody k.
  set (m := if 200 * 1000000 <? base then base else 200 * 1000000).
  assert (Hm : m = Z.max (200 * 1000000) base) by (unfold m; case_cmp; lia). rewrite Hm.
  rewrite i64_small by nia. case_cmp; nia.
Qed.

Lemma rto_backoff_witness :
  let h := set_rtoCount (set_rttStats ex_new (mkRTTStats 40000000 45000000 50000000 10000000)) 3 in
  computeRTOTimeout h = 1600000000 /\ 200 * Millisecond <= computeRTOTimeout h <= 60 * Second.
Proof.
  intros h. split; [vm_compute; reflexivity |].
  apply (rto_backoff h); by vm_compute.
Defined.
