(* ===== verification/StreamsMap.v ===== *)
(** * The streams of a session (streams_map.go, streams_map_incoming_generic.go,
      streams_map_outgoing_generic.go)

    The maps of incoming and outgoing streams, written once for the generic
    files from which the ones for bidirectional and unidirectional streams are
    generated, and their dispatch on the kind of a stream.  A method gives the
    control frames it queues.  A call that has to wait on a condition variable
    returns [None] and leaves the state to the call that wakes it up. *)

From Stdlib Require Import Sorting.Sorted.
From S2P Require Import Prelude Qerr Protocol AckFrame Frames FrameCodec FrameParser.

Section ItemsMap.
(** The streams: their creation, and what [closeForShutdown] does to one. *)
Context {item : Type} (newStream : Z -> item) (closeForShutdown : go_error -> item -> item).
Context (streamTypeGeneric : StreamType).

(** ** Incoming streams *)

Record incomingItemsMap : Type := mkIncoming {
  in_streams : gmap Z item;
  nextStreamToAccept : Z;
  nextStreamToOpen : Z;
  in_maxStream : Z;
  maxNumStreams : Z;
  in_closeErr : option go_error }.

Definition newIncomingItemsMap (next initialMax maxNum : Z) : incomingItemsMap :=
  mkIncoming ∅ next next initialMax maxNum None.

Definition AcceptStream (m : incomingItemsMap) : option (outcome (item * incomingItemsMap)) :=
  match in_closeErr m with
  | Some e => Some (Err e)
  | None =>
      match in_streams m !! nextStreamToAccept m with
      | Some str =>
          Some (Ok (str, mkIncoming (in_streams m) (nextStreamToAccept m +64 4) (nextStreamToOpen m)
                           (in_maxStream m) (maxNumStreams m) (in_closeErr m)))
      | None => None
      end
  end.

(** [for newID := next; newID <= id; newID += 4] *)
Fixpoint open_streams (fuel : nat) (newID id : Z) (streams : gmap Z item) : gmap Z item :=
  match fuel with
  | O => streams
  | S fuel =>
      if newID <=? id then open_streams fuel (newID +64 4) id (<[newID := newStream newID]> streams)
      else streams
  end.

(** The stream is nil if it was already closed. *)
Definition GetOrOpenStream (m : incomingItemsMap) (id : Z) : outcome (option item * incomingItemsMap) :=
  if in_maxStream m <? id then
    Err (Errorf "peer tried to open stream %d (current limit: %d)" [id; in_maxStream m])
  else if id <? nextStreamToOpen m then Ok (in_streams m !! id, m)
  else
    let streams := open_streams (S (Z.to_nat ((id - nextStreamToOpen m) / 4))) (nextStreamToOpen m) id
                     (in_streams m) in
    Ok (streams !! id, mkIncoming streams (nextStreamToAccept m) (id +64 4) (in_maxStream m)
                         (maxNumStreams m) (in_closeErr m)).

Definition in_DeleteStream (m : incomingItemsMap) (id : Z) : outcome (list Frame * incomingItemsMap) :=
  match in_streams m !! id with
  | None => Err (Errorf "Tried to delete unknown stream %d" [id])
  | Some _ =>
      let streams := delete id (in_streams m) in
      let n := Z.of_nat (size streams) in
      if n <? maxNumStreams m then
        let numNewStreams := maxNumStreams m -64 n in
        let maxStream := nextStreamToOpen m +64 (numNewStreams -64 1) *64 4 in
        Ok ([MaxStreams (mkMaxStreamsFrame streamTypeGeneric (StreamNum maxStream))],
            mkIncoming streams (nextStreamToAccept m) (nextStreamToOpen m) maxStream
              (maxNumStreams m) (in_closeErr m))
      else
        Ok ([], mkIncoming streams (nextStreamToAccept m) (nextStreamToOpen m) (in_maxStream m)
                  (maxNumStreams m) (in_closeErr m))
  end.

Definition in_CloseWithError (m : incomingItemsMap) (err : go_error) : incomingItemsMap :=
  mkIncoming (closeForShutdown err <$> in_streams m) (nextStreamToAccept m) (nextStreamToOpen m)
    (in_maxStream m) (maxNumStreams m) (Some err).

(** ** Outgoing streams *)

Record outgoingItemsMap : Type := mkOutgoing {
  out_streams : gmap Z item;
  nextStream : Z;
  out_maxStream : Z;
  maxStreamSet : bool;
  blockedSent : bool;
  out_closeErr : option go_error }.

Definition newOutgoingItemsMap (next : Z) : outgoingItemsMap := mkOutgoing ∅ next 0 false false None.

(** The result, the frames queued, and the map. *)
Definition openStreamImpl (m : outgoingItemsMap) : outcome item * list Frame * outgoingItemsMap :=
  match out_closeErr m with
  | Some e => (Err e, [], m)
  | None =>
      if negb (maxStreamSet m) || (out_maxStream m <? nextStream m) then
        let frames :=
          if negb (blockedSent m) then
            [StreamsBlocked (mkStreamsBlockedFrame streamTypeGeneric
               (if maxStreamSet m then StreamNum (out_maxStream m) else 0))]
          else [] in
        (Err (ErrorCode TooManyOpenStreams), frames,
         mkOutgoing (out_streams m) (nextStream m) (out_maxStream m) (maxStreamSet m) true None)
      else
        let s := newStream (nextStream m) in
        (Ok s, [], mkOutgoing (<[nextStream m := s]> (out_streams m)) (nextStream m +64 4)
                     (out_maxStream m) (maxStreamSet m) (blockedSent m) None)
  end.

Definition OpenStream (m : outgoingItemsMap) : outcome item * list Frame * outgoingItemsMap :=
  openStreamImpl m.

Definition is_TooManyOpenStreams (e : go_error) : bool :=
  match e with ErrorCode c => c =? TooManyOpenStreams | _ => false end.

(** One turn of the loop: it waits if there are too many open streams. *)
Definition OpenStreamSync (m : outgoingItemsMap)
    : option (outcome item) * list Frame * outgoingItemsMap :=
  let '(r, frames, m') := openStreamImpl m in
  match r with
  | Err e => if is_TooManyOpenStreams e then (None, frames, m') else (Some (Err e), frames, m')
  | _ => (Some r, frames, m')
  end.

Definition GetStream (m : outgoingItemsMap) (id : Z) : outcome (option item) :=
  if nextStream m <=? id then
    Err (QuicError InvalidStreamID (Msg "peer attempted to open stream %d" [id]))
  else Ok (out_streams m !! id).

Definition out_DeleteStream (m : outgoingItemsMap) (id : Z) : outcome outgoingItemsMap :=
  match out_streams m !! id with
  | None => Err (Errorf "Tried to delete unknown stream %d" [id])
  | Some _ => Ok (mkOutgoing (delete id (out_streams m)) (nextStream m) (out_maxStream m)
                    (maxStreamSet m) (blockedSent m) (out_closeErr m))
  end.

Definition SetMaxStream (m : outgoingItemsMap) (id : Z) : outgoingItemsMap :=
  if negb (maxStreamSet m) || (out_maxStream m <? id) then
    mkOutgoing (out_streams m) (nextStream m) id true false (out_closeErr m)
  else m.

Definition out_CloseWithError (m : outgoingItemsMap) (err : go_error) : outgoingItemsMap :=
  mkOutgoing (closeForShutdown err <$> out_streams m) (nextStream m) (out_maxStream m)
    (maxStreamSet m) (blockedSent m) (Some err).
End ItemsMap.
Arguments incomingItemsMap : clear implicits.
Arguments outgoingItemsMap : clear implicits.

(** ** The generated copies

    The operations of the maps at one type of streams; [newStream] and the
    closing of a stream are arguments. *)

Record incoming_operations (item : Type) : Type := mkIncomingOperations {
  im_new : Z -> Z -> Z -> incomingItemsMap item;
  im_AcceptStream : incomingItemsMap item -> option (outcome (item * incomingItemsMap item));
  im_GetOrOpenStream : (Z -> item) -> incomingItemsMap item -> Z -> outcome (option item * incomingItemsMap item);
  im_DeleteStream : incomingItemsMap item -> Z -> outcome (list Frame * incomingItemsMap item);
  im_CloseWithError : (go_error -> item -> item) -> incomingItemsMap item -> go_error -> incomingItemsMap item }.

Record outgoing_operations (item : Type) : Type := mkOutgoingOperations {
  om_new : Z -> outgoingItemsMap item;
  om_OpenStream : (Z -> item) -> outgoingItemsMap item -> outcome item * list Frame * outgoingItemsMap item;
  om_OpenStreamSync : (Z -> item) -> outgoingItemsMap item ->
    option (outcome item) * list Frame * outgoingItemsMap item;
  om_GetStream : outgoingItemsMap item -> Z -> outcome (option item);
  om_DeleteStream : outgoingItemsMap item -> Z -> outcome (outgoingItemsMap item);
  om_SetMaxStream : outgoingItemsMap item -> Z -> outgoingItemsMap item;
  om_CloseWithError : (go_error -> item -> item) -> outgoingItemsMap item -> go_error -> outgoingItemsMap item }.

Definition incoming_map item (t : StreamType) : incoming_operations item :=
  {| im_new := newIncomingItemsMap; im_AcceptStream := AcceptStream; im_GetOrOpenStream := GetOrOpenStream;
     im_DeleteStream := in_DeleteStream t; im_CloseWithError := in_CloseWithError |}.

Definition outgoing_map item (t : StreamType) : outgoing_operations item :=
  {| om_new := newOutgoingItemsMap; om_OpenStream := fun new => OpenStream new t;
     om_OpenStreamSync := fun new => OpenStreamSync new t; om_GetStream := GetStream;
     om_DeleteStream := out_DeleteStream; om_SetMaxStream := SetMaxStream; om_CloseWithError := out_CloseWithError |}.

Arguments im_new {item}.
Arguments im_AcceptStream {item}.
Arguments im_GetOrOpenStream {item}.
Arguments im_DeleteStream {item}.
Arguments im_CloseWithError {item}.
Arguments om_new {item}.
Arguments om_OpenStream {item}.
Arguments om_OpenStreamSync {item}.
Arguments om_GetStream {item}.
Arguments om_DeleteStream {item}.
Arguments om_SetMaxStream {item}.
Arguments om_CloseWithError {item}.

(** ** The four maps of a session *)

Section StreamsMap.
Context {streamI sendStreamI receiveStreamI : Type}.
Context (newStream : Z -> streamI) (newSendStream : Z -> sendStreamI)
        (newReceiveStream : Z -> receiveStreamI).
Context (closeStream : go_error -> streamI -> streamI)
        (closeSendStream : go_error -> sendStreamI -> sendStreamI)
        (closeReceiveStream : go_error -> receiveStreamI -> receiveStreamI).

Record streamsMap : Type := mkStreamsMap {
  perspective : Perspective;
  outgoingBidiStreams : outgoingItemsMap streamI;
  outgoingUniStreams : outgoingItemsMap sendStreamI;
  incomingBidiStreams : incomingItemsMap streamI;
  incomingUniStreams : incomingItemsMap receiveStreamI }.

(** streams_map_outgoing_bidi.go, streams_map_outgoing_uni.go,
    streams_map_incoming_bidi.go, streams_map_incoming_uni.go *)
Definition outgoingBidiStreamsMap : outgoing_operations streamI := outgoing_map streamI StreamTypeBidi.
Definition outgoingUniStreamsMap : outgoing_operations sendStreamI := outgoing_map sendStreamI StreamTypeUni.
Definition incomingBidiStreamsMap : incoming_operations streamI := incoming_map streamI StreamTypeBidi.
Definition incomingUniStreamsMap : incoming_operations receiveStreamI := incoming_map receiveStreamI StreamTypeUni.

Definition set_outgoingBidi (m : streamsMap) o :=
  mkStreamsMap (perspective m) o (outgoingUniStreams m) (incomingBidiStreams m) (incomingUniStreams m).
Definition set_outgoingUni (m : streamsMap) o :=
  mkStreamsMap (perspective m) (outgoingBidiStreams m) o (incomingBidiStreams m) (incomingUniStreams m).
Definition set_incomingBidi (m : streamsMap) i :=
  mkStreamsMap (perspective m) (outgoingBidiStreams m) (outgoingUniStreams m) i (incomingUniStreams m).
Definition set_incomingUni (m : streamsMap) i :=
  mkStreamsMap (perspective m) (outgoingBidiStreams m) (outgoingUniStreams m) (incomingBidiStreams m) i.

Definition newStreamsMap (maxIncomingStreams maxIncomingUniStreams : Z) (pers : Perspective) : streamsMap :=
  mkStreamsMap pers
    (om_new outgoingBidiStreamsMap (FirstStream StreamTypeBidi pers))
    (om_new outgoingUniStreamsMap (FirstStream StreamTypeUni pers))
    (im_new incomingBidiStreamsMap (FirstStream StreamTypeBidi (Opposite pers))
       (MaxStreamID StreamTypeBidi maxIncomingStreams (Opposite pers)) maxIncomingStreams)
    (im_new incomingUniStreamsMap (FirstStream StreamTypeUni (Opposite pers))
       (MaxStreamID StreamTypeUni maxIncomingUniStreams (Opposite pers)) maxIncomingUniStreams).

Definition sm_OpenStream (m : streamsMap) : outcome streamI * list Frame * streamsMap :=
  let '(r, f, o) := om_OpenStream outgoingBidiStreamsMap newStream (outgoingBidiStreams m) in
  (r, f, set_outgoingBidi m o).
Definition sm_OpenStreamSync (m : streamsMap) : option (outcome streamI) * list Frame * streamsMap :=
  let '(r, f, o) := om_OpenStreamSync outgoingBidiStreamsMap newStream (outgoingBidiStreams m) in
  (r, f, set_outgoingBidi m o).
Definition sm_OpenUniStream (m : streamsMap) : outcome sendStreamI * list Frame * streamsMap :=
  let '(r, f, o) := om_OpenStream outgoingUniStreamsMap newSendStream (outgoingUniStreams m) in
  (r, f, set_outgoingUni m o).
Definition sm_OpenUniStreamSync (m : streamsMap)
    : option (outcome sendStreamI) * list Frame * streamsMap :=
  let '(r, f, o) := om_OpenStreamSync outgoingUniStreamsMap newSendStream (outgoingUniStreams m) in
  (r, f, set_outgoingUni m o).

Definition sm_AcceptStream (m : streamsMap) : option (outcome (streamI * streamsMap)) :=
  r ← im_AcceptStream incomingBidiStreamsMap (incomingBidiStreams m);
  Some (s ← r; Ok (s.1, set_incomingBidi m s.2)).
Definition sm_AcceptUniStream (m : streamsMap) : option (outcome (receiveStreamI * streamsMap)) :=
  r ← im_AcceptStream incomingUniStreamsMap (incomingUniStreams m);
  Some (s ← r; Ok (s.1, set_incomingUni m s.2)).

Definition sm_DeleteStream (m : streamsMap) (id : Z) : outcome (list Frame * streamsMap) :=
  match StreamID_Type id with
  | StreamTypeUni =>
      if decide (InitiatedBy id = perspective m) then
        o ← om_DeleteStream outgoingUniStreamsMap (outgoingUniStreams m) id; Ok ([], set_outgoingUni m o)
      else
        r ← im_DeleteStream incomingUniStreamsMap (incomingUniStreams m) id; Ok (r.1, set_incomingUni m r.2)
  | StreamTypeBidi =>
      if decide (InitiatedBy id = perspective m) then
        o ← om_DeleteStream outgoingBidiStreamsMap (outgoingBidiStreams m) id; Ok ([], set_outgoingBidi m o)
      else
        r ← im_DeleteStream incomingBidiStreamsMap (incomingBidiStreams m) id; Ok (r.1, set_incomingBidi m r.2)
  end.

(** A receive stream is a unidirectional or a bidirectional one. *)
Definition GetOrOpenReceiveStream (m : streamsMap) (id : Z)
    : outcome (option (receiveStreamI + streamI) * streamsMap) :=
  match StreamID_Type id with
  | StreamTypeUni =>
      if decide (InitiatedBy id = perspective m) then
        Err (Errorf "peer attempted to open receive stream %d" [id])
      else
        r ← im_GetOrOpenStream incomingUniStreamsMap newReceiveStream (incomingUniStreams m) id;
        Ok (option_map inl r.1, set_incomingUni m r.2)
  | StreamTypeBidi =>
      if decide (InitiatedBy id = perspective m) then
        s ← om_GetStream outgoingBidiStreamsMap (outgoingBidiStreams m) id; Ok (option_map inr s, m)
      else
        r ← im_GetOrOpenStream incomingBidiStreamsMap newStream (incomingBidiStreams m) id;
        Ok (option_map inr r.1, set_incomingBidi m r.2)
  end.

Definition GetOrOpenSendStream (m : streamsMap) (id : Z)
    : outcome (option (sendStreamI + streamI) * streamsMap) :=
  match StreamID_Type id with
  | StreamTypeUni =>
      if decide (InitiatedBy id = perspective m) then
        s ← om_GetStream outgoingUniStreamsMap (outgoingUniStreams m) id; Ok (option_map inl s, m)
      else Err (Errorf "peer attempted to open send stream %d" [id])
  | StreamTypeBidi =>
      if decide (InitiatedBy id = perspective m) then
        s ← om_GetStream outgoingBidiStreamsMap (outgoingBidiStreams m) id; Ok (option_map inr s, m)
      else
        r ← im_GetOrOpenStream incomingBidiStreamsMap newStream (incomingBidiStreams m) id;
        Ok (option_map inr r.1, set_incomingBidi m r.2)
  end.

Definition HandleMaxStreamsFrame (m : streamsMap) (f : MaxStreamsFrame) : streamsMap :=
  let id := MaxStreamID (MaxStreams_Type f) (MaxStreams_MaxStreams f) (perspective m) in
  match StreamID_Type id with
  | StreamTypeUni => set_outgoingUni m (om_SetMaxStream outgoingUniStreamsMap (outgoingUniStreams m) id)
  | StreamTypeBidi => set_outgoingBidi m (om_SetMaxStream outgoingBidiStreamsMap (outgoingBidiStreams m) id)
  end.

(** [p.MaxBidiStreams] and [p.MaxUniStreams] of the transport parameters. *)
Definition UpdateLimits (m : streamsMap) (maxBidi maxUni : Z) : streamsMap :=
  let m := set_outgoingBidi m (om_SetMaxStream outgoingBidiStreamsMap (outgoingBidiStreams m)
                                 (MaxStreamID StreamTypeBidi maxBidi (perspective m))) in
  set_outgoingUni m (om_SetMaxStream outgoingUniStreamsMap (outgoingUniStreams m)
                       (MaxStreamID StreamTypeUni maxUni (perspective m))).

Definition sm_CloseWithError (m : streamsMap) (err : go_error) : streamsMap :=
  mkStreamsMap (perspective m)
    (om_CloseWithError outgoingBidiStreamsMap closeStream (outgoingBidiStreams m) err)
    (om_CloseWithError outgoingUniStreamsMap closeSendStream (outgoingUniStreams m) err)
    (im_CloseWithError incomingBidiStreamsMap closeStream (incomingBidiStreams m) err)
    (im_CloseWithError incomingUniStreamsMap closeReceiveStream (incomingUniStreams m) err).
End StreamsMap.
Arguments streamsMap : clear implicits.

(** ** Lemmas: the numbering of streams *)

Section StreamNumbers.
Context (stype : StreamType) (peer : Perspective).

(** The [k]-th stream of a kind. *)
Definition nth_stream (k : Z) : Z := first_stream_of stype peer + 4 * k.

Lemma nth_stream_inj k k' : nth_stream k = nth_stream k' -> k = k'.
Proof. unfold nth_stream. lia. Qed.

Lemma nth_stream_num k : 0 <= k < 2 ^ 62 -> StreamNum (nth_stream k) = k + 1.
Proof.
  intros Hk. pose proof (first_stream_range stype peer). unfold StreamNum, nth_stream.
  rewrite add64_small; Z.to_euclidean_division_equations; lia.
Qed.

Lemma FirstStream_nth : FirstStream stype peer = nth_stream 0.
Proof. rewrite FirstStream_first. unfold nth_stream. lia. Qed.

Lemma MaxStreamID_nth n : 0 < n < 2 ^ 62 -> MaxStreamID stype n peer = nth_stream (n - 1).
Proof. intros Hn. rewrite MaxStreamID_value; [done | lia]. Qed.

Lemma nth_stream_of id : 0 <= id < 2 ^ 62 -> StreamID_Type id = stype -> InitiatedBy id = peer ->
  exists k, 0 <= k < 2 ^ 60 /\ id = nth_stream k.
Proof.
  intros Hid Ht Hp. pose proof (proj2 (stream_id_class stype peer id) (conj Ht Hp)).
  pose proof (first_stream_range stype peer).
  exists (id / 4). unfold nth_stream. Z.to_euclidean_division_equations; lia.
Qed.

End StreamNumbers.

(** ** Lemmas: incoming streams *)

Section IncomingTheory.
Context {item : Type} (newStream : Z -> item) (closeForShutdown : go_error -> item -> item).
Context (stype : StreamType) (peer : Perspective) (maxNum : Z).

(** The number of streams of a map. *)
Definition num (m : gmap Z item) : Z := Z.of_nat (size m).

(** The loop opens the streams from the [k]-th to the [j]-th. *)
Lemma open_streams_spec fuel : forall k j m, 0 <= k <= j + 1 -> j < 2 ^ 61 -> j - k < Z.of_nat fuel ->
  (forall i, k <= i -> m !! nth_stream stype peer i = None) ->
  let m' := open_streams newStream fuel (nth_stream stype peer k) (nth_stream stype peer j) m in
  (forall i, k <= i <= j -> m' !! nth_stream stype peer i = Some (newStream (nth_stream stype peer i)))
  /\ (forall id, (forall i, k <= i <= j -> id <> nth_stream stype peer i) -> m' !! id = m !! id)
  /\ num m' = num m + (j + 1 - k).
Proof.
  pose proof (first_stream_range stype peer) as Hf.
  induction fuel as [| fuel IH]; intros k j m Hk Hj Hfuel Hm m'; subst m'; cbn [open_streams].
  { split_and!; [lia | done | lia]. }
  destruct (Z.leb_spec (nth_stream stype peer k) (nth_stream stype peer j)) as [Hle | Hlt];
    [| split_and!; unfold nth_stream in *; [lia | done | lia]].
  assert (k <= j) by (unfold nth_stream in *; lia).
  replace (nth_stream stype peer k +64 4) with (nth_stream stype peer (k + 1))
    by (unfold nth_stream; rewrite add64_small; lia).
  edestruct (IH (k + 1) j (<[nth_stream stype peer k := newStream (nth_stream stype peer k)]> m)) as (H1 & H2 & H3); try lia.
  { intros i Hi. rewrite lookup_insert_ne; [apply Hm; lia |]. intros ?%nth_stream_inj. lia. }
  split_and!.
  - intros i Hi. destruct (decide (i = k)) as [-> |]; [| apply H1; lia].
    rewrite H2; [by rewrite lookup_insert_eq |]. intros i' ? ?%nth_stream_inj. lia.
  - intros id Hid. rewrite H2 by (intros i ?; apply Hid; lia).
    apply lookup_insert_ne. intros <-. by apply (Hid k); lia.
  - rewrite H3. unfold num. rewrite map_size_insert_None; [lia |]. apply Hm. lia.
Qed.

(** What a session does with the map of incoming streams: [del] are the
    streams it deleted, [limits] the limits it sent to the peer and [acc] the
    streams it accepted, the last one first. *)
Inductive in_reach : incomingItemsMap item -> gset Z -> list Z -> list Z -> Prop :=
  | in_new : in_reach (newIncomingItemsMap (FirstStream stype peer) (MaxStreamID stype maxNum peer) maxNum)
               ∅ [] []
  | in_open m del limits acc id s m' : in_reach m del limits acc ->
      0 <= id < 2 ^ 62 -> StreamID_Type id = stype -> InitiatedBy id = peer ->
      GetOrOpenStream newStream m id = Ok (s, m') -> in_reach m' del limits acc
  | in_accepted m del limits acc s m' : in_reach m del limits acc ->
      AcceptStream m = Some (Ok (s, m')) -> in_reach m' del limits (nextStreamToAccept m :: acc)
  | in_deleted m del limits acc id frames m' : in_reach m del limits acc ->
      in_DeleteStream stype m id = Ok (frames, m') ->
      in_reach m' ({[id]} ∪ del)
        (foldr (fun f l => if f is MaxStreams f then MaxStreams_MaxStreams f :: l else l) limits frames) acc
  | in_used m del limits acc streams : in_reach m del limits acc ->
      (forall id, is_Some (streams !! id) <-> is_Some (in_streams m !! id)) ->
      in_reach (mkIncoming streams (nextStreamToAccept m) (nextStreamToOpen m) (in_maxStream m)
                  (maxNumStreams m) (in_closeErr m)) del limits acc
  | in_closed m del limits acc err : in_reach m del limits acc ->
      in_reach (in_CloseWithError closeForShutdown m err) del limits acc.

(** The [opened] first streams of the peer are in the map, unless deleted; the
    limit is the number of streams that may be open at a time beyond the
    streams that are closed. *)
Record in_inv (opened : Z) (m : incomingItemsMap item) (del : gset Z) (limits acc : list Z) : Prop := {
  ii_opened : 0 <= opened <= 2 ^ 60;
  ii_next : nextStreamToOpen m = nth_stream stype peer opened;
  ii_num : maxNumStreams m = maxNum;
  ii_dom : forall id, is_Some (in_streams m !! id) <->
             exists k, 0 <= k < opened /\ id = nth_stream stype peer k /\ id ∉ del;
  ii_del : forall id, id ∈ del -> exists k, 0 <= k < opened /\ id = nth_stream stype peer k;
  ii_size : 0 <= num (in_streams m) <= maxNum /\ num (in_streams m) <= opened;
  ii_max : in_maxStream m = nth_stream stype peer (opened + maxNum - num (in_streams m) - 1);
  ii_accept : nextStreamToAccept m = nth_stream stype peer (len acc);
  ii_acc : 0 <= len acc <= opened /\ acc = reverse (nth_stream stype peer <$> seqZ 0 (len acc));
  ii_limits : StronglySorted Z.gt limits
              /\ Forall (fun l => maxNum < l <= StreamNum (in_maxStream m)) limits }.

Context (Hmax : 0 < maxNum < 2 ^ 60).

Lemma in_new_inv :
  in_inv 0 (newIncomingItemsMap (FirstStream stype peer) (MaxStreamID stype maxNum peer) maxNum) ∅ [] [].
Proof.
  constructor; cbn [newIncomingItemsMap in_streams nextStreamToAccept nextStreamToOpen in_maxStream maxNumStreams].
  - lia.
  - apply FirstStream_nth.
  - done.
  - intros id. rewrite lookup_empty. split; [by intros [? ?] | intros (k & ? & _); lia].
  - set_solver.
  - unfold num. rewrite map_size_empty. lia.
  - rewrite MaxStreamID_nth by lia. unfold num. rewrite map_size_empty. f_equal. lia.
  - apply FirstStream_nth.
  - done.
  - split; constructor.
Qed.

Lemma GetOrOpenStream_inv opened m del limits acc j : in_inv opened m del limits acc -> 0 <= j < 2 ^ 60 ->
  let id := nth_stream stype peer j in
  if in_maxStream m <? id
  then GetOrOpenStream newStream m id
       = Err (Errorf "peer tried to open stream %d (current limit: %d)" [id; in_maxStream m])
  else exists m', GetOrOpenStream newStream m id = Ok (in_streams m' !! id, m')
    /\ in_inv (Z.max opened (j + 1)) m' del limits acc
    /\ (forall k, opened <= k <= j -> in_streams m' !! nth_stream stype peer k = Some (newStream (nth_stream stype peer k)))
    /\ (forall i, (forall k, opened <= k <= j -> i <> nth_stream stype peer k) ->
         in_streams m' !! i = in_streams m !! i).
Proof.
  intros Hi Hj id. unfold GetOrOpenStream. destruct (Z.ltb_spec (in_maxStream m) id) as [| Hle]; [done |].
  pose proof (first_stream_range stype peer). rewrite (ii_next _ _ _ _ _ Hi).
  destruct (Z.ltb_spec id (nth_stream stype peer opened)) as [Hlt | Hge].
  { exists m. assert (j < opened) by (unfold id, nth_stream in *; lia).
    split_and!; [done | by replace (Z.max opened (j + 1)) with opened by lia | lia | done]. }
  assert (opened <= j) by (unfold id, nth_stream in *; lia).
  destruct Hi as [Hop Hnext Hnum Hdom Hdel Hsz Hm Hac Hacc Hlim].
  replace ((id - nth_stream stype peer opened) / 4) with (j - opened)
    by (unfold id, nth_stream; Z.to_euclidean_division_equations; lia).
  destruct (open_streams_spec (S (Z.to_nat (j - opened))) opened j (in_streams m)) as (H1 & H2 & H3); try lia.
  { intros i Hi. apply eq_None_not_Some. intros (k & ? & ?%nth_stream_inj & _)%Hdom. lia. }
  fold id in H1, H2, H3.
  set (ss := open_streams _ _ _ _ _) in *.
  assert (num ss <= maxNum).
  { rewrite H3. rewrite Hm in Hle. unfold id, nth_stream in Hle. lia. }
  eexists (mkIncoming ss _ _ _ _ _). split; [reflexivity |].
  replace (Z.max opened (j + 1)) with (j + 1) by lia.
  split_and!; [constructor; cbn [in_streams nextStreamToAccept nextStreamToOpen in_maxStream maxNumStreams]
              | by cbn [in_streams] | by cbn [in_streams]]; try done.
  - lia.
  - unfold id, nth_stream. rewrite add64_small; lia.
  - intros i. split.
    + intros Hs. destruct (decide (Exists (fun k => i = nth_stream stype peer k) (seqZ opened (j + 1 - opened))))
        as [(k & Hk%elem_of_seqZ & ->)%Exists_exists | Hn].
      * exists k. split_and!; [lia | lia | done |]. intros Hd. by apply Hdel in Hd as (? & ? & ?%nth_stream_inj); lia.
      * rewrite H2 in Hs; [apply Hdom in Hs as (k & ? & ? & ?); exists k; split_and!; [lia | lia | done..] |].
        intros k Hk ->. apply Hn, Exists_exists. exists k. split; [apply elem_of_seqZ; lia | done].
    + intros (k & Hk & -> & Hd). destruct (decide (k < opened)).
      * rewrite H2; [apply Hdom; exists k; split_and!; try done; lia |]. intros k' ? ?%nth_stream_inj. lia.
      * rewrite H1 by lia. done.
  - intros i (k & ? & ->)%Hdel. exists k. split; [lia | done].
  - lia.
  - rewrite Hm, H3. f_equal. lia.
  - split; [lia | apply Hacc].
Qed.

Lemma AcceptStream_inv opened m del limits acc s m' : in_inv opened m del limits acc ->
  AcceptStream m = Some (Ok (s, m')) -> in_inv opened m' del limits (nextStreamToAccept m :: acc).
Proof.
  intros Hi. unfold AcceptStream. destruct (in_closeErr m); [done |].
  destruct (in_streams m !! nextStreamToAccept m) eqn:E; [intros [= <- <-] | done].
  destruct Hi as [Hop Hnext Hnum Hdom Hdel Hsz Hm Hac [Hlen Hacc] Hlim].
  destruct (proj1 (Hdom (nextStreamToAccept m))) as (k & Hk & Ek & _); [by eexists |].
  pose proof (first_stream_range stype peer).
  rewrite Hac in Ek. apply nth_stream_inj in Ek as <-.
  assert (Hc : len (nextStreamToAccept m :: acc) = len acc + 1) by (unfold len; cbn [length]; lia).
  constructor; cbn [in_streams nextStreamToAccept nextStreamToOpen in_maxStream maxNumStreams]; try done.
  - rewrite Hc, Hac. unfold nth_stream. rewrite add64_small; lia.
  - rewrite Hc. split; [lia |]. rewrite <- (seqZ_S 0 (len acc)) || rewrite seqZ_app by lia.
    cbn. rewrite fmap_app, reverse_app. cbn. by rewrite <- Hacc, Hac.
Qed.

Lemma in_DeleteStream_inv opened m del limits acc id : in_inv opened m del limits acc ->
  is_Some (in_streams m !! id) ->
  exists m', in_DeleteStream stype m id
    = Ok ([MaxStreams (mkMaxStreamsFrame stype (StreamNum (in_maxStream m) + 1))], m')
  /\ in_streams m' = delete id (in_streams m)
  /\ in_maxStream m' = in_maxStream m + 4
  /\ in_inv opened m' ({[id]} ∪ del) (StreamNum (in_maxStream m) + 1 :: limits) acc.
Proof.
  intros Hi [s Hs]. unfold in_DeleteStream. rewrite Hs.
  destruct Hi as [Hop Hnext Hnum Hdom Hdel Hsz Hm Hac Hacc [Hsort Hlim]].
  destruct (proj1 (Hdom id)) as (k & Hk & Eid & Hnd); [by eexists |].
  assert (Hn : num (delete id (in_streams m)) = num (in_streams m) - 1 /\ 1 <= num (in_streams m)).
  { unfold num. rewrite map_size_delete_Some by (by eexists).
    assert (size (in_streams m) <> 0%nat); [| lia].
    intros E%map_size_empty_inv. by rewrite E in Hs. }
  destruct Hn as [Hn Hn1]. fold (num (delete id (in_streams m))). rewrite Hnum, Hn.
  destruct (Z.ltb_spec (num (in_streams m) - 1) maxNum); [| lia].
  pose proof (first_stream_range stype peer).
  set (idx := opened + maxNum - num (in_streams m) - 1) in *.
  assert (E1 : nextStreamToOpen m +64 (maxNum -64 (num (in_streams m) - 1) -64 1) *64 4 = nth_stream stype peer (idx + 1)).
  { rewrite Hnext. rewrite (sub64_small maxNum) by lia. rewrite sub64_small by lia.
    rewrite mul64_small by lia. unfold nth_stream. rewrite add64_small; unfold idx; lia. }
  assert (E2 : StreamNum (nth_stream stype peer (idx + 1)) = StreamNum (in_maxStream m) + 1)
    by (rewrite Hm, !nth_stream_num by (unfold idx; lia); lia).
  rewrite E1, E2. eexists (mkIncoming _ _ _ _ _ _). split_and!; try reflexivity.
  { cbn [in_maxStream]. rewrite Hm. unfold nth_stream. lia. }
  constructor; cbn [in_streams nextStreamToAccept nextStreamToOpen in_maxStream maxNumStreams]; try done.
  - intros i. destruct (decide (i = id)) as [-> | Hne].
    + rewrite lookup_delete_eq. split; [by intros [? ?] | intros (? & _ & _ & Hn')]. set_solver.
    + rewrite lookup_delete_ne, Hdom by done.
      split; intros (k' & ? & ? & ?); exists k'; split_and!; try lia; try done; set_solver.
  - intros i [->%elem_of_singleton | Hi]%elem_of_union; [by exists k | by apply Hdel].
  - rewrite Hn. lia.
  - rewrite Hn. f_equal. unfold idx. lia.
  - rewrite E2. split.
    + constructor; [done |]. eapply Forall_impl; [apply Hlim |]. cbn. lia.
    + constructor; [| eapply Forall_impl; [apply Hlim |]; cbn; lia].
      rewrite Hm, nth_stream_num by (unfold idx; lia). unfold idx. lia.
Qed.

Lemma in_same_streams opened m streams e del limits acc : in_inv opened m del limits acc ->
  (forall id, is_Some (streams !! id) <-> is_Some (in_streams m !! id)) ->
  in_inv opened (mkIncoming streams (nextStreamToAccept m) (nextStreamToOpen m) (in_maxStream m)
            (maxNumStreams m) e) del limits acc.
Proof.
  intros Hi Hs.
  assert (En : num streams = num (in_streams m)).
  { unfold num. rewrite <- !size_dom. do 2 f_equal. apply set_eq. intros i.
    by rewrite !elem_of_dom, Hs. }
  destruct Hi. constructor; cbn [in_streams nextStreamToAccept nextStreamToOpen in_maxStream maxNumStreams];
    rewrite ?En; try done.
  intros i. by rewrite Hs.
Qed.

Lemma in_reach_inv m del limits acc : in_reach m del limits acc ->
  exists opened, in_inv opened m del limits acc.
Proof.
  induction 1 as [| m del limits acc id s m' _ [o IH] Hid Ht Hp E | m del limits acc s m' _ [o IH] E
    | m del limits acc id frames m' _ [o IH] E | m del limits acc ss _ [o IH] Hs | m del limits acc e _ [o IH]].
  - exists 0. apply in_new_inv.
  - destruct (nth_stream_of stype peer id) as (j & Hj & ->); try done.
    pose proof (GetOrOpenStream_inv o m del limits acc j IH Hj) as Hg. cbn in Hg.
    destruct (in_maxStream m <? nth_stream stype peer j); [by rewrite Hg in E |].
    destruct Hg as (m2 & E2 & ? & _). rewrite E2 in E. injection E as <- <-. by eexists.
  - exists o. by eapply AcceptStream_inv.
  - destruct (in_streams m !! id) as [s |] eqn:Es; [| unfold in_DeleteStream in E; by rewrite Es in E].
    destruct (in_DeleteStream_inv o m del limits acc id IH) as (m2 & E2 & _ & _ & Hi); [by eexists |].
    rewrite E2 in E. injection E as <- <-. by exists o.
  - exists o. by apply in_same_streams.
  - exists o. apply in_same_streams; [done |]. intros i. by rewrite lookup_fmap, fmap_is_Some.
Qed.

(** C14. The streams the peer opens: in every state a session reaches, the map
    holds exactly the streams opened and not yet deleted, and at most
    [maxNumStreams] of them; the limit leaves the peer exactly the free places;
    the limits sent to the peer grow strictly; streams are accepted in order,
    none twice.  A stream beyond the limit is refused; any other identifier
    opens all streams up to it and gives the stream, or nil if it was deleted. *)
Theorem incoming_streams_correct m del limits acc : in_reach m del limits acc ->
  exists opened, 0 <= opened
  /\ (forall id, is_Some (in_streams m !! id) <->
       exists k, 0 <= k < opened /\ id = nth_stream stype peer k /\ id ∉ del)
  /\ num (in_streams m) <= maxNum
  /\ in_maxStream m = nth_stream stype peer (opened + (maxNum - num (in_streams m)) - 1)
  /\ StronglySorted Z.gt limits /\ Forall (fun l => maxNum < l <= StreamNum (in_maxStream m)) limits
  /\ acc = reverse (nth_stream stype peer <$> seqZ 0 (len acc))
  /\ forall j, 0 <= j < 2 ^ 60 ->
     if in_maxStream m <? nth_stream stype peer j
     then GetOrOpenStream newStream m (nth_stream stype peer j)
          = Err (Errorf "peer tried to open stream %d (current limit: %d)" [nth_stream stype peer j; in_maxStream m])
     else exists m', GetOrOpenStream newStream m (nth_stream stype peer j) = Ok (in_streams m' !! nth_stream stype peer j, m')
       /\ nextStreamToOpen m' = nth_stream stype peer (Z.max opened (j + 1)) /\ in_maxStream m' = in_maxStream m
       /\ forall k, 0 <= k -> in_streams m' !! nth_stream stype peer k
            = if decide (opened <= k <= j) then Some (newStream (nth_stream stype peer k))
              else in_streams m !! nth_stream stype peer k.
Proof.
  intros [o Hi]%in_reach_inv. exists o. pose proof Hi as [Hop Hnext Hnum Hdom Hdel Hsz Hm Hac Hacc Hlim].
  split_and!; try done; try apply Hsz; try apply Hlim; try apply Hacc; try lia.
  { rewrite Hm. f_equal. lia. }
  intros j Hj. pose proof (GetOrOpenStream_inv o m del limits acc j Hi Hj) as Hg. cbn in Hg.
  destruct (in_maxStream m <? nth_stream stype peer j); [done |].
  destruct Hg as (m' & E & Hi' & H1 & H2). exists m'. split_and!; [done | apply Hi' | |].
  - unfold GetOrOpenStream in E. repeat case_match; simplify_eq; done.
  - intros k Hk. destruct (decide (o <= k <= j)); [by apply H1 |].
    apply H2. intros k' ? ?%nth_stream_inj. lia.
Qed.

(** A stream that is deleted before it was accepted is never skipped: from
    then on [AcceptStream] waits for it, whatever other streams are opened. *)
Theorem accept_stuck_after_delete m del limits acc :
  in_reach m del limits acc -> nextStreamToAccept m ∈ del -> in_closeErr m = None ->
  AcceptStream m = None
  /\ forall id s m', 0 <= id < 2 ^ 62 -> StreamID_Type id = stype -> InitiatedBy id = peer ->
       GetOrOpenStream newStream m id = Ok (s, m') -> AcceptStream m' = None.
Proof.
  intros [o Hi]%in_reach_inv Hin Hc.
  assert (Hno : forall o' m', in_inv o' m' del limits acc -> nextStreamToAccept m' = nextStreamToAccept m ->
    in_closeErr m' = None -> AcceptStream m' = None).
  { intros o' m' Hi' E E'. unfold AcceptStream. rewrite E'.
    destruct (in_streams m' !! nextStreamToAccept m') eqn:Es; [| done].
    destruct (proj1 (ii_dom _ _ _ _ _ Hi' (nextStreamToAccept m'))) as (? & _ & _ & Hn); [by eexists |].
    by rewrite E in Hn. }
  split; [by eapply Hno |]. intros id s m' Hid Ht Hp E.
  destruct (nth_stream_of stype peer id) as (j & Hj & ->); try done.
  pose proof (GetOrOpenStream_inv o m del limits acc j Hi Hj) as Hg. cbn in Hg.
  destruct (in_maxStream m <? nth_stream stype peer j); [by rewrite Hg in E |].
  destruct Hg as (m2 & E2 & Hi' & _). rewrite E2 in E. injection E as <- <-.
  eapply Hno; [done | |]; unfold GetOrOpenStream in E2; repeat case_match; by simplify_eq.
Qed.
End IncomingTheory.

(** ** Lemmas: outgoing streams *)

Section OutgoingTheory.
Context {item : Type} (newStream : Z -> item) (closeForShutdown : go_error -> item -> item).
Context (stype : StreamType) (pers : Perspective).

Definition blocked_limits (frames : list Frame) : list Z :=
  omap (fun f => if f is StreamsBlocked f then Some (StreamsBlocked_StreamLimit f) else None) frames.

(** What a session does with the map of outgoing streams: [ids] are the
    streams it opened and [blocked] the limits it reported in STREAMS_BLOCKED
    frames, in order, and [limit] is the highest limit the peer has sent. *)
Inductive out_reach : outgoingItemsMap item -> list Z -> list Z -> option Z -> Prop :=
  | out_new : out_reach (newOutgoingItemsMap (FirstStream stype pers)) [] [] None
  | out_opened m ids blocked limit s frames m' : out_reach m ids blocked limit ->
      openStreamImpl newStream stype m = (Ok s, frames, m') ->
      out_reach m' (ids ++ [nextStream m]) (blocked ++ blocked_limits frames) limit
  | out_refused m ids blocked limit e frames m' : out_reach m ids blocked limit ->
      openStreamImpl newStream stype m = (Err e, frames, m') ->
      out_reach m' ids (blocked ++ blocked_limits frames) limit
  | out_limit m ids blocked limit n : out_reach m ids blocked limit -> 0 < n < 2 ^ 62 ->
      out_reach (SetMaxStream m (MaxStreamID stype n pers)) ids blocked
        (Some (Z.max n (default 0 limit)))
  | out_deleted m ids blocked limit id m' : out_reach m ids blocked limit ->
      out_DeleteStream m id = Ok m' -> out_reach m' ids blocked limit
  | out_used m ids blocked limit streams : out_reach m ids blocked limit ->
      (forall id, is_Some (streams !! id) <-> is_Some (out_streams m !! id)) ->
      out_reach (mkOutgoing streams (nextStream m) (out_maxStream m) (maxStreamSet m)
                   (blockedSent m) (out_closeErr m)) ids blocked limit
  | out_closed m ids blocked limit err : out_reach m ids blocked limit ->
      out_reach (out_CloseWithError closeForShutdown m err) ids blocked limit.

Record out_inv (m : outgoingItemsMap item) (ids blocked : list Z) (limit : option Z) : Prop := {
  oi_ids : ids = nth_stream stype pers <$> seqZ 0 (len ids);
  oi_next : nextStream m = nth_stream stype pers (len ids);
  oi_limit : len ids <= default 0 limit < 2 ^ 62;
  oi_max : match limit with
           | None => maxStreamSet m = false
           | Some n => maxStreamSet m = true /\ 0 < n /\ out_maxStream m = nth_stream stype pers (n - 1)
           end;
  oi_blocked : StronglySorted Z.lt blocked /\ Forall (fun l => 0 <= l <= default 0 limit) blocked;
  oi_sent : blockedSent m = true <-> default 0 limit ∈ blocked;
  oi_dom : forall id, is_Some (out_streams m !! id) -> id ∈ ids }.

Lemma openStreamImpl_inv m ids blocked limit : out_inv m ids blocked limit -> out_closeErr m = None ->
  let l := default 0 limit in
  openStreamImpl newStream stype m =
    if len ids <? l then
      (Ok (newStream (nth_stream stype pers (len ids))), [],
       mkOutgoing (<[nextStream m := newStream (nextStream m)]> (out_streams m))
         (nth_stream stype pers (len ids + 1)) (out_maxStream m) (maxStreamSet m) (blockedSent m) None)
    else (Err (ErrorCode TooManyOpenStreams),
          if decide (l ∈ blocked) then [] else [StreamsBlocked (mkStreamsBlockedFrame stype l)],
          mkOutgoing (out_streams m) (nextStream m) (out_maxStream m) (maxStreamSet m) true None).
Proof.
  intros Hi Hc l. destruct Hi as [Hids Hnext Hl Hm Hb Hs Hd].
  pose proof (first_stream_range stype pers).
  assert (0 <= len ids) by (unfold len; lia).
  unfold openStreamImpl. rewrite Hc, Hnext.
  replace (if negb (blockedSent m) then [StreamsBlocked _] else [])
    with (if decide (l ∈ blocked) then [] else [StreamsBlocked (mkStreamsBlockedFrame stype l)]).
  2: { destruct (decide (l ∈ blocked)) as [Hin | Hin]; [by rewrite (proj2 Hs) |].
       destruct (blockedSent m); [by destruct Hin; apply Hs |]. cbn [negb].
       subst l. destruct limit as [n |]; [| by rewrite Hm]. destruct Hm as (-> & Hn & ->).
       cbn [default from_option id] in *. rewrite nth_stream_num by lia. by replace (n - 1 + 1) with n by lia. }
  subst l. destruct limit as [n |]; cbn [default from_option id] in *.
  - destruct Hm as (-> & Hn & Hmax). rewrite Hmax. cbn [negb orb].
    destruct (Z.ltb_spec (nth_stream stype pers (n - 1)) (nth_stream stype pers (len ids)));
      destruct (Z.ltb_spec (len ids) n); unfold nth_stream in *; try lia; [done |].
    do 2 f_equal. rewrite add64_small; lia.
  - rewrite Hm. destruct (Z.ltb_spec (len ids) 0); [lia | done].
Qed.

Lemma SetMaxStream_inv m ids blocked limit n : out_inv m ids blocked limit -> 0 < n < 2 ^ 62 ->
  out_inv (SetMaxStream m (MaxStreamID stype n pers)) ids blocked (Some (Z.max n (default 0 limit))).
Proof.
  intros Hi Hn. rewrite MaxStreamID_nth by lia. destruct Hi as [Hids Hnext Hl Hm [Hb Hb2] Hs Hd].
  unfold SetMaxStream. destruct limit as [k |]; cbn [default from_option id] in *.
  - destruct Hm as (Hset & Hk & Hmax). rewrite Hset, Hmax. cbn [negb orb].
    destruct (Z.ltb_spec (nth_stream stype pers (k - 1)) (nth_stream stype pers (n - 1))) as [Hlt | Hge].
    + assert (k < n) by (unfold nth_stream in Hlt; lia). replace (Z.max n k) with n by lia.
      constructor; cbn [nextStream out_maxStream maxStreamSet blockedSent out_streams default from_option id];
        try done; [lia | split_and!; [done | lia | done] | |].
      * split; [done |]. eapply Forall_impl; [apply Hb2 |]. cbn. lia.
      * split; [done |]. intros Hin. rewrite Forall_forall in Hb2. apply Hb2 in Hin. lia.
    + assert (n <= k) by (unfold nth_stream in Hge; lia). replace (Z.max n k) with k by lia. by constructor.
  - rewrite Hm. cbn [negb orb]. replace (Z.max n 0) with n by lia.
    constructor; cbn [nextStream out_maxStream maxStreamSet blockedSent out_streams default from_option id];
      try done; [lia | split_and!; [done | lia | done] | |].
    + split; [done |]. eapply Forall_impl; [apply Hb2 |]. cbn. lia.
    + split; [done |]. intros Hin. rewrite Forall_forall in Hb2. apply Hb2 in Hin. lia.
Qed.

Lemma StronglySorted_snoc (l : list Z) x :
  StronglySorted Z.lt l -> Forall (fun y => y < x) l -> StronglySorted Z.lt (l ++ [x]).
Proof.
  induction 1 as [| y l _ IH Hy]; intros Hx; cbn; [repeat constructor |].
  inversion_clear Hx as [| ? ? Hyx Hx']. constructor; [by apply IH |].
  apply Forall_app. by repeat constructor.
Qed.

Lemma out_opened_inv m ids blocked limit s frames m' : out_inv m ids blocked limit ->
  openStreamImpl newStream stype m = (Ok s, frames, m') ->
  out_inv m' (ids ++ [nextStream m]) (blocked ++ blocked_limits frames) limit.
Proof.
  intros Hi E. destruct (out_closeErr m) eqn:Hc; [unfold openStreamImpl in E; by rewrite Hc in E |].
  rewrite (openStreamImpl_inv m ids blocked limit) in E by done. cbv zeta in E.
  destruct (Z.ltb_spec (len ids) (default 0 limit)) as [Hlt |]; [| done]. injection E as <- <- <-.
  destruct Hi as [Hids Hnext Hl Hm Hb Hs Hd].
  assert (Hlen : len (ids ++ [nextStream m]) = len ids + 1) by (unfold len; rewrite length_app; cbn; lia).
  cbn [blocked_limits omap list_omap]. rewrite app_nil_r.
  constructor; cbn [nextStream out_maxStream maxStreamSet blockedSent out_streams]; rewrite ?Hlen; try done.
  - unfold len in *. rewrite seqZ_app by lia. rewrite fmap_app, <- Hids. by rewrite Hnext.
  - lia.
  - intros i Hi. destruct (decide (i = nextStream m)) as [-> | Hne]; [set_solver |].
    rewrite lookup_insert_ne in Hi by done. apply Hd in Hi. set_solver.
Qed.

Lemma out_refused_inv m ids blocked limit e frames m' : out_inv m ids blocked limit ->
  openStreamImpl newStream stype m = (Err e, frames, m') ->
  out_inv m' ids (blocked ++ blocked_limits frames) limit.
Proof.
  intros Hi E. destruct (out_closeErr m) as [err |] eqn:Hc.
  { unfold openStreamImpl in E. rewrite Hc in E. injection E as <- <- <-.
    cbn [blocked_limits omap list_omap]. by rewrite app_nil_r. }
  rewrite (openStreamImpl_inv m ids blocked limit) in E by done. cbv zeta in E.
  destruct (Z.ltb_spec (len ids) (default 0 limit)) as [| Hge]; [done |]. injection E as <- <- <-.
  destruct Hi as [Hids Hnext Hl Hm [Hb Hb2] Hs Hd].
  destruct (decide (default 0 limit ∈ blocked)) as [Hin | Hin]; cbn [blocked_limits omap list_omap];
    rewrite ?app_nil_r; (constructor; cbn [nextStream out_maxStream maxStreamSet blockedSent out_streams]; try done).
  - assert (0 <= default 0 limit) by (unfold len in *; lia).
    split; [apply StronglySorted_snoc; [done |] | apply Forall_app; split; [done | by repeat constructor]].
    rewrite Forall_forall in Hb2 |- *. intros y Hy. specialize (Hb2 y Hy).
    assert (y <> default 0 limit) by (by intros ->). cbn [StreamsBlocked_StreamLimit]. lia.
  - split; [set_solver | done].
Qed.

Lemma out_reach_inv m ids blocked limit : out_reach m ids blocked limit -> out_inv m ids blocked limit.
Proof.
  induction 1 as [| | | m ids blocked limit n _ IH Hn | m ids blocked limit id m' _ IH E
    | m ids blocked limit ss _ IH Hss | m ids blocked limit e _ IH].
  - constructor; cbn; try done; [apply FirstStream_nth | by repeat constructor | set_solver |].
    intros id. rewrite lookup_empty. by intros [? ?].
  - by eapply out_opened_inv.
  - by eapply out_refused_inv.
  - by apply SetMaxStream_inv.
  - unfold out_DeleteStream in E. case_match; [| done]. injection E as <-.
    destruct IH as [Hids Hnext Hl Hm Hb Hs Hd]. constructor; try done. cbn [out_streams].
    intros j [_ Hj]%lookup_delete_is_Some. by apply Hd.
  - destruct IH as [Hids Hnext Hl Hm Hb Hs Hd]. constructor; try done. cbn [out_streams].
    intros i Hi. by apply Hd, Hss.
  - destruct IH as [Hids Hnext Hl Hm Hb Hs Hd]. constructor; try done. cbn.
    intros i. rewrite lookup_fmap, fmap_is_Some. apply Hd.
Qed.

(** C18. The streams we open: they are numbered consecutively from the first
    one of our side and never exceed the limit of the peer; each limit is
    reported at most once in a STREAMS_BLOCKED frame; and opening a stream
    succeeds exactly when the limit leaves room for one. *)
Theorem outgoing_streams_correct m ids blocked limit : out_reach m ids blocked limit ->
  ids = nth_stream stype pers <$> seqZ 0 (len ids)
  /\ len ids <= default 0 limit
  /\ StronglySorted Z.lt blocked
  /\ (forall id, is_Some (out_streams m !! id) -> id ∈ ids)
  /\ (out_closeErr m = None ->
      exists m', openStreamImpl newStream stype m =
        if len ids <? default 0 limit then (Ok (newStream (nth_stream stype pers (len ids))), [], m')
        else (Err (ErrorCode TooManyOpenStreams),
              if decide (default 0 limit ∈ blocked) then []
              else [StreamsBlocked (mkStreamsBlockedFrame stype (default 0 limit))], m')).
Proof.
  intros Hi%out_reach_inv. split_and!; try apply Hi. intros Hc.
  rewrite (openStreamImpl_inv m ids blocked limit) by done. cbv zeta.
  destruct (len ids <? default 0 limit); by eexists.
Qed.
End OutgoingTheory.

(** ** Lemmas: the four maps together *)

(** What the copies are. *)
Ltac maps := cbn [im_new im_AcceptStream im_GetOrOpenStream im_DeleteStream im_CloseWithError om_new om_OpenStream
  om_OpenStreamSync om_GetStream om_DeleteStream om_SetMaxStream om_CloseWithError incoming_map outgoing_map
  outgoingBidiStreamsMap outgoingUniStreamsMap incomingBidiStreamsMap incomingUniStreamsMap] in *.

Section SessionStreams.
Context {streamI sendStreamI receiveStreamI : Type}.
Context (newStream : Z -> streamI) (newSendStream : Z -> sendStreamI)
        (newReceiveStream : Z -> receiveStreamI).
Context (closeStream : go_error -> streamI -> streamI)
        (closeSendStream : go_error -> sendStreamI -> sendStreamI)
        (closeReceiveStream : go_error -> receiveStreamI -> receiveStreamI).
Context (pers : Perspective) (maxBidi maxUni : Z).

(** What happens to the streams of a session.  Stream identifiers and limits
    come from frames, as variable-length integers. *)
Inductive sm_reach : streamsMap streamI sendStreamI receiveStreamI -> Prop :=
  | sm_new : sm_reach (newStreamsMap maxBidi maxUni pers)
  | sm_open m r f m' : sm_reach m -> sm_OpenStream newStream m = (r, f, m') -> sm_reach m'
  | sm_open_sync m r f m' : sm_reach m -> sm_OpenStreamSync newStream m = (r, f, m') -> sm_reach m'
  | sm_open_uni m r f m' : sm_reach m -> sm_OpenUniStream newSendStream m = (r, f, m') -> sm_reach m'
  | sm_open_uni_sync m r f m' : sm_reach m ->
      sm_OpenUniStreamSync newSendStream m = (r, f, m') -> sm_reach m'
  | sm_accept m s m' : sm_reach m -> sm_AcceptStream m = Some (Ok (s, m')) -> sm_reach m'
  | sm_accept_uni m s m' : sm_reach m -> sm_AcceptUniStream m = Some (Ok (s, m')) -> sm_reach m'
  | sm_delete m id f m' : sm_reach m -> sm_DeleteStream m id = Ok (f, m') -> sm_reach m'
  | sm_receive m id s m' : sm_reach m -> 0 <= id < 2 ^ 62 ->
      GetOrOpenReceiveStream newStream newReceiveStream m id = Ok (s, m') -> sm_reach m'
  | sm_send m id s m' : sm_reach m -> 0 <= id < 2 ^ 62 ->
      GetOrOpenSendStream newStream m id = Ok (s, m') -> sm_reach m'
  | sm_max_streams m f : sm_reach m -> 0 < MaxStreams_MaxStreams f < 2 ^ 62 ->
      sm_reach (HandleMaxStreamsFrame m f)
  | sm_limits m b u : sm_reach m -> 0 < b < 2 ^ 62 -> 0 < u < 2 ^ 62 -> sm_reach (UpdateLimits m b u)
  | sm_close m err : sm_reach m ->
      sm_reach (sm_CloseWithError closeStream closeSendStream closeReceiveStream m err).

Definition routed (m : streamsMap streamI sendStreamI receiveStreamI) : Prop :=
  perspective m = pers
  /\ (exists ids b l, out_reach newStream closeStream StreamTypeBidi pers (outgoingBidiStreams m) ids b l)
  /\ (exists ids b l, out_reach newSendStream closeSendStream StreamTypeUni pers (outgoingUniStreams m) ids b l)
  /\ (exists d l a, in_reach newStream closeStream StreamTypeBidi (Opposite pers) maxBidi
        (incomingBidiStreams m) d l a)
  /\ (exists d l a, in_reach newReceiveStream closeReceiveStream StreamTypeUni (Opposite pers) maxUni
        (incomingUniStreams m) d l a).

Lemma out_reach_open {item} new (close : go_error -> item -> item) t p m r f m' :
  (exists ids b l, out_reach new close t p m ids b l) -> openStreamImpl new t m = (r, f, m') ->
  exists ids b l, out_reach new close t p m' ids b l.
Proof.
  intros (ids & b & l & H) E. destruct r as [s | e | s].
  - do 3 eexists. by eapply out_opened.
  - do 3 eexists. by eapply out_refused.
  - exfalso. unfold openStreamImpl in E. repeat case_match; done.
Qed.

Lemma not_ours id : InitiatedBy id <> pers -> InitiatedBy id = Opposite pers.
Proof. destruct (InitiatedBy id), pers; done. Qed.

Lemma in_reach_open {item} new (close : go_error -> item -> item) t p n m id s m' :
  (exists d l a, in_reach new close t p n m d l a) -> 0 <= id < 2 ^ 62 ->
  StreamID_Type id = t -> InitiatedBy id = p ->
  GetOrOpenStream new m id = Ok (s, m') -> exists d l a, in_reach new close t p n m' d l a.
Proof. intros (d & l & a & H) ????. do 3 eexists. by eapply in_open. Qed.

Lemma in_reach_delete {item} new (close : go_error -> item -> item) t p n m id f m' :
  (exists d l a, in_reach new close t p n m d l a) -> in_DeleteStream t m id = Ok (f, m') ->
  exists d l a, in_reach new close t p n m' d l a.
Proof. intros (d & l & a & H) E. do 3 eexists. by eapply in_deleted. Qed.

Lemma in_reach_accept {item} new (close : go_error -> item -> item) t p n m s m' :
  (exists d l a, in_reach new close t p n m d l a) -> AcceptStream m = Some (Ok (s, m')) ->
  exists d l a, in_reach new close t p n m' d l a.
Proof. intros (d & l & a & H) E. do 3 eexists. by eapply in_accepted. Qed.

Lemma out_reach_delete {item} new (close : go_error -> item -> item) t p m id m' :
  (exists ids b l, out_reach new close t p m ids b l) -> out_DeleteStream m id = Ok m' ->
  exists ids b l, out_reach new close t p m' ids b l.
Proof. intros (ids & b & l & H) E. do 3 eexists. by eapply out_deleted. Qed.

Lemma out_reach_limit {item} new (close : go_error -> item -> item) t p m n :
  (exists ids b l, out_reach new close t p m ids b l) -> 0 < n < 2 ^ 62 ->
  exists ids b l, out_reach new close t p (SetMaxStream m (MaxStreamID t n p)) ids b l.
Proof. intros (ids & b & l & H) E. do 3 eexists. by eapply out_limit. Qed.

Lemma OpenStreamSync_impl {item} (new : Z -> item) t m r f m' : OpenStreamSync new t m = (r, f, m') ->
  exists r', openStreamImpl new t m = (r', f, m').
Proof.
  unfold OpenStreamSync. destruct (openStreamImpl new t m) as [[r' f'] m''].
  intros E. repeat case_match; simplify_eq; by eexists.
Qed.

Lemma routed_open m r f m' : routed m -> sm_OpenStream newStream m = (r, f, m') -> routed m'.
Proof.
  intros (? & ? & ? & ? & ?). unfold sm_OpenStream. maps. unfold OpenStream.
  destruct (openStreamImpl _ _ _) as [[r' f'] o] eqn:E. intros [= <- <- <-].
  split_and!; try done. by eapply out_reach_open.
Qed.

Lemma routed_open_uni m r f m' : routed m -> sm_OpenUniStream newSendStream m = (r, f, m') -> routed m'.
Proof.
  intros (? & ? & ? & ? & ?). unfold sm_OpenUniStream. maps. unfold OpenStream.
  destruct (openStreamImpl _ _ _) as [[r' f'] o] eqn:E. intros [= <- <- <-].
  split_and!; try done. by eapply out_reach_open.
Qed.

Lemma routed_open_sync m r f m' : routed m -> sm_OpenStreamSync newStream m = (r, f, m') -> routed m'.
Proof.
  intros (? & ? & ? & ? & ?). unfold sm_OpenStreamSync. maps.
  destruct (OpenStreamSync _ _ _) as [[r' f'] o] eqn:E. intros [= <- <- <-].
  apply OpenStreamSync_impl in E as [r'' E]. split_and!; try done. by eapply out_reach_open.
Qed.

Lemma routed_open_uni_sync m r f m' : routed m ->
  sm_OpenUniStreamSync newSendStream m = (r, f, m') -> routed m'.
Proof.
  intros (? & ? & ? & ? & ?). unfold sm_OpenUniStreamSync. maps.
  destruct (OpenStreamSync _ _ _) as [[r' f'] o] eqn:E. intros [= <- <- <-].
  apply OpenStreamSync_impl in E as [r'' E]. split_and!; try done. by eapply out_reach_open.
Qed.

Lemma routed_accept m s m' : routed m -> sm_AcceptStream m = Some (Ok (s, m')) -> routed m'.
Proof.
  intros (? & ? & ? & ? & ?). unfold sm_AcceptStream. maps.
  destruct (AcceptStream _) as [[[s' i] | |] |] eqn:E; cbn; intros; simplify_eq.
  split_and!; try done. by eapply in_reach_accept.
Qed.

Lemma routed_accept_uni m s m' : routed m -> sm_AcceptUniStream m = Some (Ok (s, m')) -> routed m'.
Proof.
  intros (? & ? & ? & ? & ?). unfold sm_AcceptUniStream. maps.
  destruct (AcceptStream _) as [[[s' i] | |] |] eqn:E; cbn; intros; simplify_eq.
  split_and!; try done. by eapply in_reach_accept.
Qed.

Lemma routed_delete m id f m' : routed m -> sm_DeleteStream m id = Ok (f, m') -> routed m'.
Proof.
  intros (Hp & ? & ? & ? & ?) E. unfold sm_DeleteStream in E. maps.
  repeat case_match; apply outcome_bind_Ok in E as ([] & E1 & E2); simplify_eq; cbn;
    split_and!; try done; try (by eapply out_reach_delete); by eapply in_reach_delete.
Qed.

Lemma routed_receive m id s m' : routed m -> 0 <= id < 2 ^ 62 ->
  GetOrOpenReceiveStream newStream newReceiveStream m id = Ok (s, m') -> routed m'.
Proof.
  intros (Hp & ? & ? & ? & ?) Hid E. unfold GetOrOpenReceiveStream in E. maps.
  repeat case_match; try done; apply outcome_bind_Ok in E as (a & E1 & E2); simplify_eq; try done; destruct a; cbn;
    split_and!; try done; (eapply in_reach_open; [done | exact Hid | done | | exact E1]);
    apply not_ours; congruence.
Qed.

Lemma routed_send m id s m' : routed m -> 0 <= id < 2 ^ 62 ->
  GetOrOpenSendStream newStream m id = Ok (s, m') -> routed m'.
Proof.
  intros (Hp & ? & ? & ? & ?) Hid E. unfold GetOrOpenSendStream in E. maps.
  repeat case_match; try done; apply outcome_bind_Ok in E as (a & E1 & E2); simplify_eq; try done; destruct a; cbn;
    split_and!; try done; (eapply in_reach_open; [done | exact Hid | done | | exact E1]);
    apply not_ours; congruence.
Qed.

Lemma routed_max_streams m f : routed m -> 0 < MaxStreams_MaxStreams f < 2 ^ 62 ->
  routed (HandleMaxStreamsFrame m f).
Proof.
  intros (Hp & ? & ? & ? & ?) Hn. unfold HandleMaxStreamsFrame. maps. rewrite Hp.
  destruct f as [t n]. cbn [MaxStreams_Type MaxStreams_MaxStreams] in *.
  destruct (proj1 (stream_id_class t pers (MaxStreamID t n pers))) as [-> _].
  { rewrite MaxStreamID_value by lia. pose proof (first_stream_range t pers).
    Z.to_euclidean_division_equations; lia. }
  destruct t; split_and!; try done; by apply out_reach_limit.
Qed.

Lemma routed_close m err : routed m ->
  routed (sm_CloseWithError closeStream closeSendStream closeReceiveStream m err).
Proof.
  intros (Hp & (? & ? & ? & ?) & (? & ? & ? & ?) & (? & ? & ? & ?) & (? & ? & ? & ?)).
  split_and!; [done | ..]; do 3 eexists; cbn; (by apply out_closed) || by apply in_closed.
Qed.

(** Every operation of the session's streams acts on the map of the
    stream's kind: the four maps only ever change by their own operations, so
    each of them is in a state that [out_reach] or [in_reach] describes, with
    the streams of its own direction and side and the limits meant for it. *)
Theorem streams_map_routed m : sm_reach m -> routed m.
Proof.
  induction 1; eauto using routed_open, routed_open_uni, routed_open_sync, routed_open_uni_sync,
    routed_accept, routed_accept_uni, routed_delete, routed_receive, routed_send, routed_max_streams,
    routed_close.
  - split_and!; [done | ..]; do 3 eexists; apply out_new || apply in_new.
  - destruct IHsm_reach as (Hp & ? & ? & ? & ?). unfold UpdateLimits. maps. cbn. rewrite Hp.
    split_and!; try done; by apply out_reach_limit.
Qed.
End SessionStreams.

(** ** Examples and witnesses *)

(** Streams given by their identifier, which a shutdown does not change. *)
Definition sample_close (_ : go_error) (s : Z) : Z := s.

(** The peer opens streams 0 and 4. *)
Definition sample_opened : incomingItemsMap Z := mkIncoming {[0 := 0; 4 := 4]} 0 8 4 2 None.

Lemma incoming_sample :
  in_reach (fun id => id) sample_close StreamTypeBidi PerspectiveClient 2 sample_opened ∅ [] [].
Proof.
  eapply (in_open _ _ _ _ _ _ _ _ _ 4); [apply in_new | lia | done | done | vm_compute; reflexivity].
Qed.

Lemma incoming_streams_correct_witness : exists opened, 0 <= opened
  /\ (forall id, is_Some (in_streams sample_opened !! id) <->
       exists k, 0 <= k < opened /\ id = nth_stream StreamTypeBidi PerspectiveClient k /\ id ∉ (∅ : gset Z)).
Proof.
  destruct (incoming_streams_correct (fun id => id) sample_close StreamTypeBidi PerspectiveClient 2
    ltac:(lia) sample_opened ∅ [] [] incoming_sample) as (o & H1 & H2 & _).
  exists o. exact (conj H1 H2).
Defined.

(** Stream 0 is deleted before it was accepted. *)
Definition sample_deleted : incomingItemsMap Z := mkIncoming {[4 := 4]} 0 8 8 2 None.

Lemma deleted_sample : exists limits,
  in_reach (fun id => id) sample_close StreamTypeBidi PerspectiveClient 2 sample_deleted
    ({[0]} ∪ ∅) limits [].
Proof.
  eexists. eapply (in_deleted _ _ _ _ _ _ _ _ _ 0); [apply incoming_sample | vm_compute; reflexivity].
Qed.

Lemma accept_stuck_after_delete_witness : AcceptStream sample_deleted = None.
Proof.
  destruct deleted_sample as [limits H].
  refine (proj1 (accept_stuck_after_delete (fun id => id) sample_close StreamTypeBidi PerspectiveClient 2
    ltac:(lia) sample_deleted ({[0]} ∪ ∅) limits [] H _ eq_refl)).
  by apply elem_of_union_l, elem_of_singleton.
Defined.

(** The peer allows one stream; we open it and are refused a second one. *)
Definition sample_blocked : outgoingItemsMap Z := mkOutgoing {[3 := 3]} 7 3 true true None.

Lemma outgoing_sample :
  out_reach (fun id => id) sample_close StreamTypeUni PerspectiveServer sample_blocked [3] [1] (Some 1).
Proof.
  eapply (out_refused _ _ _ _ (mkOutgoing {[3 := 3]} 7 3 true false None) [3] [] (Some 1) _
           [StreamsBlocked (mkStreamsBlockedFrame StreamTypeUni 1)]); [| vm_compute; reflexivity].
  eapply (out_opened _ _ _ _ (mkOutgoing ∅ 3 3 true false None) [] [] (Some 1) _ []); [| vm_compute; reflexivity].
  exact (out_limit (fun id => id) sample_close StreamTypeUni PerspectiveServer _ [] [] None 1
           (out_new _ _ _ _) ltac:(lia)).
Qed.

Lemma outgoing_streams_correct_witness : StronglySorted Z.lt [1] /\ len [3] <= 1.
Proof.
  destruct (outgoing_streams_correct (fun id => id) sample_close StreamTypeUni PerspectiveServer
    sample_blocked [3] [1] (Some 1) outgoing_sample) as (_ & H1 & H2 & _).
  exact (conj H2 H1).
Defined.

Lemma streams_map_routed_witness :
  routed (fun id => id) (fun id => id) (fun id => id) sample_close sample_close sample_close
    PerspectiveServer 100 100 (HandleMaxStreamsFrame (newStreamsMap 100 100 PerspectiveServer)
                                 (mkMaxStreamsFrame StreamTypeUni 5)).
Proof. apply streams_map_routed, sm_max_streams; [apply sm_new | cbn; lia]. Defined.

(** A limit of zero streams is encoded as stream 0, which is the first
    bidirectional stream of the client: a server that allows no streams accepts
    that stream, and a client opens it after a limit of zero for unidirectional
    streams. *)
Theorem zero_stream_limit :
  let s := newStreamsMap (streamI := Z) (sendStreamI := Z) (receiveStreamI := Z) 0 0 PerspectiveServer in
  let c := newStreamsMap (streamI := Z) (sendStreamI := Z) (receiveStreamI := Z) 0 0 PerspectiveClient in
  (exists s', GetOrOpenReceiveStream (fun id => id) (fun id => id) s 0 = Ok (Some (inr 0), s'))
  /\ (exists e c', sm_OpenStream (fun id => id) c = (Err e, [StreamsBlocked (mkStreamsBlockedFrame StreamTypeBidi 0)], c'))
  /\ (exists c', sm_OpenStream (fun id => id) (HandleMaxStreamsFrame c (mkMaxStreamsFrame StreamTypeUni 0))
       = (Ok 0, [], c')).
Proof. cbv zeta. split_and!; repeat eexists; vm_compute; reflexivity. Qed.
