(* ===== verification/Header.v ===== *)
(** * Packet headers (internal/wire/header.go, header_parser.go,
      version_negotiation.go)

    Writing and parsing of long and short headers and of version negotiation
    packets: round trips, exact lengths, and safety of the parser on arbitrary
    input. *)

From S2P Require Import Prelude Qerr Varint Protocol.

(** ** header.go *)

Record Header : Type := mkHeader {
  Header_Raw : list Z;
  Header_Version : Z;
  DestConnectionID : list Z;
  SrcConnectionID : list Z;
  OrigDestConnectionID : list Z;
  Header_PacketNumberLen : Z;
  Header_PacketNumber : Z;
  IsVersionNegotiation : bool;
  Header_SupportedVersions : list Z;
  Header_Type : Z;
  IsLongHeader : bool;
  KeyPhase : Z;
  PayloadLen : Z;
  Header_Token : list Z }.

Definition encodeSingleConnIDLen (id : list Z) : outcome Z :=
  let n := len id in
  if n =? 0 then Ok 0
  else if (n <? 4) || (18 <? n) then Err (Errorf "invalid connection ID length: %d bytes" [n])
  else Ok (u8 (n - 3)).

Definition encodeConnIDLen (dest src : list Z) : outcome Z :=
  dcil ← encodeSingleConnIDLen dest;
  scil ← encodeSingleConnIDLen src;
  Ok (Z.lor scil (u8 (dcil ≪ 4))).

Definition decodeSingleConnIDLen (enc : Z) : Z := if enc =? 0 then 0 else enc + 3.

Definition decodeConnIDLen (enc : Z) : Z * Z :=
  (decodeSingleConnIDLen (enc ≫ 4), decodeSingleConnIDLen (Z.land enc 0xf)).

(** [rnd] is the random byte of which a Retry packet uses the upper half. *)
Definition writeLongHeader (rnd : Z) (h : Header) : writes :=
  Ok [Z.lor 0x80 (Header_Type h)]
  +w+ WriteUint32 (Header_Version h)
  +w+ (l ← encodeConnIDLen (DestConnectionID h) (SrcConnectionID h); Ok [l])
  +w+ Ok (DestConnectionID h)
  +w+ Ok (SrcConnectionID h)
  +w+ (if Header_Type h =? PacketTypeInitial
       then WriteVarInt (len (Header_Token h)) +w+ Ok (Header_Token h) else Ok [])
  +w+ (if Header_Type h =? PacketTypeRetry then
         (odcil ← encodeSingleConnIDLen (OrigDestConnectionID h); Ok [Z.lor (Z.land rnd 0xf0) odcil])
         +w+ Ok (OrigDestConnectionID h)
         +w+ Ok (Header_Token h)
       else
         WriteVarInt (PayloadLen h)
         +w+ WriteVarIntPacketNumber (Header_PacketNumber h) (Header_PacketNumberLen h)).

Definition writeShortHeader (h : Header) : writes :=
  Ok [Z.lor 0x30 (u8 (KeyPhase h ≪ 6))]
  +w+ Ok (DestConnectionID h)
  +w+ WriteVarIntPacketNumber (Header_PacketNumber h) (Header_PacketNumberLen h).

Definition Header_Write (rnd : Z) (h : Header) : writes :=
  if IsLongHeader h then writeLongHeader rnd h else writeShortHeader h.

Definition GetLength (h : Header) : outcome Z :=
  if IsLongHeader h then
    pl ← VarIntLen (PayloadLen h);
    let length := 1 + 4 + 1 + (len (DestConnectionID h) + len (SrcConnectionID h))
                  + Header_PacketNumberLen h +64 pl in
    if Header_Type h =? PacketTypeInitial then
      tl ← VarIntLen (len (Header_Token h));
      Ok (length +64 (tl +64 len (Header_Token h)))
    else Ok length
  else Ok (1 + len (DestConnectionID h) +64 Header_PacketNumberLen h).

(** ** header_parser.go *)

Record InvariantHeader : Type := mkInvariantHeader {
  iv_IsLongHeader : bool;
  iv_Version : Z;
  iv_SrcConnectionID : list Z;
  iv_DestConnectionID : list Z;
  iv_typeByte : Z }.

Definition ParseInvariantHeader (shortHeaderConnIDLen : Z) : reader InvariantHeader :=
  typeByte ← ReadByte;
  let isLong := 0 <? Z.land typeByte 0x80 in
  if negb isLong then
    dest ← ReadConnectionID shortHeaderConnIDLen;
    mret (mkInvariantHeader isLong 0 [] dest typeByte)
  else
    v ← ReadUint32;
    connIDLenByte ← ReadByte;
    let '(dcil, scil) := decodeConnIDLen connIDLenByte in
    dest ← ReadConnectionID dcil;
    src ← ReadConnectionID scil;
    mret (mkInvariantHeader isLong v src dest typeByte).

Definition toHeader (iv : InvariantHeader) : Header :=
  mkHeader [] (iv_Version iv) (iv_DestConnectionID iv) (iv_SrcConnectionID iv) [] 0 0 false [] 0
    (iv_IsLongHeader iv) 0 0 [].

(** The header [h] with the fields set that its parser sets. *)
Definition with_parsed (h : Header) (origDest : list Z) (pnLen pn : Z) (negotiation : bool)
    (versions : list Z) (typ keyPhase payloadLen : Z) (token : list Z) : Header :=
  mkHeader (Header_Raw h) (Header_Version h) (DestConnectionID h) (SrcConnectionID h) origDest pnLen pn
    negotiation versions typ (IsLongHeader h) keyPhase payloadLen token.

(** The loop over the version list: [versions] is the slice made for it, and
    [i] the next index. *)
Fixpoint read_versions (fuel i : nat) (versions : list Z) : reader (list Z) := fun r =>
  match fuel with
  | O => Ok (versions, r)
  | S fuel =>
      if len r =? 0 then Ok (versions, r)
      else match ReadUint32 r with
           | Ok (v, r) =>
               if (i <? length versions)%nat then read_versions fuel (S i) (<[i := v]> versions) r
               else Panic "index out of range"
           | Err _ => Err (ErrorCode InvalidVersionNegotiationPacket)
           | Panic s => Panic s
           end
  end.

Definition parseVersionNegotiationPacket (iv : InvariantHeader) : reader Header :=
  n ← Len;
  if n =? 0 then fail (QuicError InvalidVersionNegotiationPacket (Msg "empty version list" []))
  else
    versions ← read_versions (S (Z.to_nat n)) 0 (replicate (Z.to_nat (n / 4)) 0);
    mret (with_parsed (toHeader iv) [] 0 0 true versions 0 0 0 []).

Definition parseLongHeader (iv : InvariantHeader) : reader Header :=
  let typ := Z.land (iv_typeByte iv) 0x7f in
  let h origDest pnLen pn payloadLen token :=
    with_parsed (toHeader iv) origDest pnLen pn false [] typ 0 payloadLen token in
  if negb (typ =? PacketTypeInitial) && negb (typ =? PacketTypeRetry) && negb (typ =? PacketType0RTT)
     && negb (typ =? PacketTypeHandshake) then
    fail (QuicError InvalidPacketHeader (Msg "Received packet with invalid packet type: %d" [typ]))
  else if typ =? PacketTypeRetry then
    odcilByte ← ReadByte;
    origDest ← ReadConnectionID (decodeSingleConnIDLen (Z.land odcilByte 0xf));
    n ← Len;
    token ← ReadFull n;
    mret (h origDest 0 0 0 token)
  else
    token ← (if typ =? PacketTypeInitial then
               tokenLen ← ReadVarInt;
               n ← Len;
               if n <? tokenLen then fail EOF else ReadFull tokenLen
             else mret []);
    pl ← ReadVarInt;
    '(pn, pnLen) ← ReadVarIntPacketNumber;
    mret (h [] pnLen pn pl token).

Definition parseShortHeader (iv : InvariantHeader) : reader Header :=
  '(pn, pnLen) ← ReadVarIntPacketNumber;
  mret (with_parsed (toHeader iv) [] pnLen pn false [] 0 (Z.land (iv_typeByte iv) 0x40 ≫ 6) 0 []).

Definition iv_Parse (iv : InvariantHeader) : reader Header :=
  if iv_IsLongHeader iv then
    if iv_Version iv =? 0 then parseVersionNegotiationPacket iv else parseLongHeader iv
  else parseShortHeader iv.

(** ** version_negotiation.go *)

(** [r] is the random first byte; [posByte] and [rnd] are the random numbers
    of the greased version. *)
Definition ComposeVersionNegotiation (r posByte rnd : Z) (destConnID srcConnID versions : list Z) : writes :=
  let greasedVersions := GetGreasedVersions posByte rnd versions in
  Ok [Z.lor r 0x80]
  +w+ WriteUint32 0
  +w+ (l ← encodeConnIDLen destConnID srcConnID; Ok [l])
  +w+ Ok destConnID
  +w+ Ok srcConnID
  +w+ foldr (fun v w => WriteUint32 (u32 v) +w+ w) (Ok []) greasedVersions.

(** ** Lemmas: connection IDs *)

Definition connid_ok (id : list Z) : Prop := bytes id /\ (len id = 0 \/ 4 <= len id <= 18).

Lemma nibbles a b : 0 <= a < 16 -> 0 <= b < 16 ->
  is_byte (Z.lor b (u8 (a ≪ 4))) /\ Z.lor b (u8 (a ≪ 4)) ≫ 4 = a /\ Z.land (Z.lor b (u8 (a ≪ 4))) 0xf = b.
Proof.
  intros Ha Hb.
  assert (H : forallb (fun a => forallb (fun b => let x := Z.lor b (u8 (a ≪ 4)) in
    (0 <=? x) && (x <? 256) && (x ≫ 4 =? a) && (Z.land x 0xf =? b)) (seqZ 0 16)) (seqZ 0 16) = true)
    by (vm_compute; reflexivity).
  rewrite forallb_forall in H. specialize (H a). rewrite forallb_forall in H.
  rewrite <- !list_elem_of_In, !elem_of_seqZ in H.
  specialize (H ltac:(lia) b). rewrite <- list_elem_of_In, elem_of_seqZ in H. specialize (H ltac:(lia)).
  cbv zeta in H. bool_to_prop. unfold is_byte. lia.
Qed.

Lemma encodeSingle_ok id : connid_ok id -> exists l, encodeSingleConnIDLen id = Ok l
  /\ 0 <= l < 16 /\ decodeSingleConnIDLen l = len id.
Proof.
  intros [_ Hl]. unfold encodeSingleConnIDLen, decodeSingleConnIDLen. cbv zeta.
  destruct (Z.eqb_spec (len id) 0) as [-> | Hn]; [by exists 0 |].
  rewrite (proj2 (Z.ltb_ge _ _)), (proj2 (Z.ltb_ge _ _)) by lia. cbn [orb]. rewrite u8_small by lia.
  eexists. split_and!; [done | lia | lia |]. rewrite (proj2 (Z.eqb_neq _ _)) by lia. lia.
Qed.

Lemma encodeConnIDLen_ok dest src : connid_ok dest -> connid_ok src ->
  exists l, encodeConnIDLen dest src = Ok l /\ is_byte l /\ decodeConnIDLen l = (len dest, len src).
Proof.
  intros (a & Ea & Ha & Da)%encodeSingle_ok (b & Eb & Hb & Db)%encodeSingle_ok.
  unfold encodeConnIDLen, decodeConnIDLen. rewrite Ea. cbn. rewrite Eb. cbn.
  destruct (nibbles a b Ha Hb) as (H1 & H2 & H3). eexists. split_and!; [done | done |].
  by rewrite H2, H3, Da, Db.
Qed.

Lemma ReadConnectionID_step {B} (k : list Z -> reader B) id rest :
  (ReadConnectionID (len id) ≫= k) (id ++ rest) = k id rest.
Proof.
  apply reader_bind_step. unfold ReadConnectionID. destruct (Z.eqb_spec (len id) 0) as [E | _].
  - by apply len_zero in E as ->.
  - by rewrite ReadFull_app.
Qed.

Lemma safe_ReadConnectionID n : 0 <= n -> safe (ReadConnectionID n) (fun id => bytes id /\ len id = n).
Proof.
  intros Hn r Hr. unfold ReadConnectionID. destruct (Z.eqb_spec n 0) as [-> | _].
  { split; [split; [constructor | done] | done]. }
  pose proof (safe_ReadFull n Hn r Hr) as H. unfold safe_on in *.
  destruct (ReadFull n r) as [[l r'] | [] | s]; done.
Qed.
#[export] Hint Resolve safe_ReadConnectionID : safe.

Lemma ReadPacketNumber_step {B} (k : Z * Z -> reader B) i length rest bs :
  0 <= i < 2 ^ 64 -> length = PacketNumberLen1 \/ length = PacketNumberLen2 \/ length = PacketNumberLen4 ->
  WriteVarIntPacketNumber i length = Ok bs ->
  (ReadVarIntPacketNumber ≫= k) (bs ++ rest) = k (i mod 2 ^ pn_bits length, length) rest.
Proof.
  intros Hi Hl E. apply reader_bind_step. destruct (packet_number_wire i length rest Hi Hl) as (bs' & E' & _ & _ & H).
  rewrite E in E'. by injection E' as <-.
Qed.

Lemma ReadUint32_step {B} (k : Z -> reader B) i rest bs : is_u32 i -> WriteUint32 i = Ok bs ->
  (ReadUint32 ≫= k) (bs ++ rest) = k i rest.
Proof. intros Hi E. apply reader_bind_step. by apply WriteUint32_read. Qed.

(** ** Lemmas: round trips *)

Definition long_type (t : Z) : Prop :=
  t = PacketTypeInitial \/ t = PacketTypeRetry \/ t = PacketTypeHandshake \/ t = PacketType0RTT.

Definition pn_ok (pn pnLen : Z) : Prop :=
  is_u64 pn /\ (pnLen = PacketNumberLen1 \/ pnLen = PacketNumberLen2 \/ pnLen = PacketNumberLen4).

(** The headers that are sent: the fields a header of its kind does not have
    are empty. *)
Inductive header_ok : Header -> Prop :=
  | short_ok dest pnLen pn keyPhase : bytes dest -> len dest < 2 ^ 60 -> pn_ok pn pnLen ->
      keyPhase = 0 \/ keyPhase = 1 ->
      header_ok (mkHeader [] 0 dest [] [] pnLen pn false [] 0 false keyPhase 0 [])
  | retry_ok v dest src orig token : 0 < v < 2 ^ 32 -> connid_ok dest -> connid_ok src -> connid_ok orig ->
      bytes token ->
      header_ok (mkHeader [] v dest src orig 0 0 false [] PacketTypeRetry true 0 0 token)
  | long_ok v dest src pnLen pn t pl token : 0 < v < 2 ^ 32 -> connid_ok dest -> connid_ok src ->
      long_type t -> t <> PacketTypeRetry -> pn_ok pn pnLen -> is_varint pl ->
      bytes token -> len token < 2 ^ 60 -> t = PacketTypeInitial \/ token = [] ->
      header_ok (mkHeader [] v dest src [] pnLen pn false [] t true 0 pl token).

Definition is_retry (h : Header) : bool := IsLongHeader h && (Header_Type h =? PacketTypeRetry).

(** What the receiver sees: the packet number is cut to the bits sent. *)
Definition on_wire (h : Header) : Header :=
  if is_retry h then h else
  mkHeader (Header_Raw h) (Header_Version h) (DestConnectionID h) (SrcConnectionID h) (OrigDestConnectionID h)
    (Header_PacketNumberLen h) (Header_PacketNumber h mod 2 ^ pn_bits (Header_PacketNumberLen h))
    (IsVersionNegotiation h) (Header_SupportedVersions h) (Header_Type h) (IsLongHeader h) (KeyPhase h)
    (PayloadLen h) (Header_Token h).

(** The parser of a whole header, for a receiver whose connection IDs have
    length [n]. *)
Definition parse_header (n : Z) : reader Header := iv ← ParseInvariantHeader n; iv_Parse iv.

Lemma invariant_long t v dest src n rest : (0 <? Z.land t 0x80) = true -> is_u32 v ->
  connid_ok dest -> connid_ok src ->
  exists pre, (Ok [t] +w+ WriteUint32 v) +w+ (l ← encodeConnIDLen dest src; Ok [l]) = Ok pre
    /\ len pre = 6 /\ (is_byte t -> bytes pre)
    /\ ParseInvariantHeader n (pre ++ dest ++ src ++ rest) = Ok (mkInvariantHeader true v src dest t, rest).
Proof.
  intros Ht Hv Hd Hs. destruct (encodeConnIDLen_ok dest src Hd Hs) as (l & El & Hl & Dl).
  destruct (WriteUint32 v) as [vs | |] eqn:Ev; try done.
  destruct (WriteUint32_read v [] vs Hv Ev) as (_ & Lv & Bv).
  rewrite El. cbn. eexists. split_and!; [done | | |].
  - rewrite len_cons, len_app, Lv. done.
  - intros Hb. apply bytes_cons. split; [done |]. apply bytes_app. split; [done |]. by apply bytes_cons.
  - unfold ParseInvariantHeader. cbn [app]. rewrite ReadByte_step. rewrite Ht. cbn [negb].
    rewrite <- app_assoc, (ReadUint32_step _ v _ vs) by done. cbn [app]. rewrite ReadByte_step, Dl.
    by rewrite !ReadConnectionID_step.
Qed.

Lemma long_type_bits t : long_type t ->
  is_byte (Z.lor 0x80 t) /\ (0 <? Z.land (Z.lor 0x80 t) 0x80) = true /\ Z.land (Z.lor 0x80 t) 0x7f = t.
Proof. unfold long_type. intros Ht. destruct_or! Ht; subst t; by vm_compute. Qed.

Lemma wseq_assoc (a b c : writes) : (a +w+ b) +w+ c = a +w+ (b +w+ c).
Proof. destruct a, b, c; cbn; try done. by rewrite app_assoc. Qed.

Lemma short_roundtrip rnd dest pnLen pn keyPhase rest : bytes dest -> len dest < 2 ^ 60 -> pn_ok pn pnLen ->
  keyPhase = 0 \/ keyPhase = 1 ->
  let h := mkHeader [] 0 dest [] [] pnLen pn false [] 0 false keyPhase 0 [] in
  exists bs, Header_Write rnd h = Ok bs /\ bytes bs /\ GetLength h = Ok (len bs)
    /\ parse_header (len dest) (bs ++ rest) = Ok (on_wire h, rest).
Proof.
  intros Hd Hl [Hpn Hpl] Hk h. destruct (packet_number_wire pn pnLen rest Hpn Hpl) as (ps & Eps & Lps & Bps & _).
  set (t := Z.lor 0x30 (u8 (keyPhase ≪ 6))).
  assert (Ht : is_byte t /\ (0 <? Z.land t 0x80) = false /\ Z.land t 0x40 ≫ 6 = keyPhase)
    by (subst t; destruct Hk; subst keyPhase; by vm_compute).
  destruct Ht as (Hb & Ht & Htk). pose proof (len_nonneg dest).
  unfold Header_Write, writeShortHeader, GetLength. cbn -[WriteVarIntPacketNumber Z.lor u8 Z.shiftl add64].
  fold t. rewrite Eps. eexists. split_and!; [done | | |].
  - apply bytes_cons. split; [done |]. by apply bytes_app.
  - cbn. rewrite len_cons, len_app, Lps.
    rewrite add64_small; [f_equal; lia |]. unfold PacketNumberLen1, PacketNumberLen2, PacketNumberLen4 in *. lia.
  - unfold parse_header, ParseInvariantHeader. cbn [app].
    erewrite reader_bind_step. 2: { rewrite ReadByte_step, Ht. cbn [negb]. rewrite <- app_assoc.
      by rewrite ReadConnectionID_step. }
    unfold iv_Parse, parseShortHeader. cbn [iv_IsLongHeader iv_typeByte].
    rewrite (ReadPacketNumber_step _ pn pnLen) by done. by rewrite Htk.
Qed.

Lemma retry_roundtrip rnd n v dest src orig token : 0 <= rnd < 256 -> 0 < v < 2 ^ 32 ->
  connid_ok dest -> connid_ok src -> connid_ok orig -> bytes token ->
  let h := mkHeader [] v dest src orig 0 0 false [] PacketTypeRetry true 0 0 token in
  exists bs, Header_Write rnd h = Ok bs /\ bytes bs /\ parse_header n bs = Ok (h, []).
Proof.
  intros Hr Hv Hd Hs Ho Hk h.
  destruct (encodeSingle_ok orig Ho) as (ol & Eo & Hol & Do).
  set (ob := Z.lor (Z.land rnd 0xf0) ol).
  assert (Hob : is_byte ob /\ Z.land ob 0xf = ol).
  { assert (H : forallb (fun o => forallb (fun r => let x := Z.lor (Z.land r 0xf0) o in
      (0 <=? x) && (x <? 256) && (Z.land x 0xf =? o)) (seqZ 0 256)) (seqZ 0 16) = true)
      by (vm_compute; reflexivity).
    rewrite forallb_forall in H. specialize (H ol). rewrite forallb_forall in H.
    rewrite <- list_elem_of_In, elem_of_seqZ in H. specialize (H ltac:(lia) rnd).
    rewrite <- list_elem_of_In, elem_of_seqZ in H. specialize (H ltac:(lia)).
    cbv zeta in H. fold ob in H. bool_to_prop. unfold is_byte. lia. }
  destruct Hob as [Hob Hol'].
  destruct (invariant_long (Z.lor 0x80 PacketTypeRetry) v dest src n (ob :: orig ++ token))
    as (pre & Epre & _ & Bpre & Ppre); try done; [unfold is_u32; lia |].
  exists (pre ++ dest ++ src ++ ob :: orig ++ token). split_and!.
  - unfold Header_Write, writeLongHeader, h.
    cbn [IsLongHeader Header_Type Header_Version DestConnectionID SrcConnectionID OrigDestConnectionID Header_Token].
    rewrite <- !wseq_assoc, Epre. cbn -[encodeSingleConnIDLen]. rewrite Eo. cbn. fold ob.
    by rewrite !app_nil_r, <- !app_assoc.
  - rewrite !bytes_app, bytes_cons, bytes_app. split_and!; [by apply Bpre | apply Hd | apply Hs | done | apply Ho | done].
  - unfold parse_header. erewrite reader_bind_step by exact Ppre.
    unfold iv_Parse, parseLongHeader. cbn [iv_IsLongHeader iv_Version iv_typeByte].
    destruct (Z.eqb_spec v 0); [lia |]. change (Z.land (Z.lor 0x80 PacketTypeRetry) 0x7f) with PacketTypeRetry.
    cbn -[ReadByte ReadConnectionID decodeSingleConnIDLen ReadFull with_parsed Z.land].
    rewrite ReadByte_step, Hol', Do, ReadConnectionID_step, Len_step.
    rewrite <- (app_nil_r token) at 2. by rewrite ReadFull_step.
Qed.

Lemma long_roundtrip rnd n v dest src pnLen pn t pl token rest : 0 < v < 2 ^ 32 ->
  connid_ok dest -> connid_ok src -> long_type t -> t <> PacketTypeRetry -> pn_ok pn pnLen -> is_varint pl ->
  bytes token -> len token < 2 ^ 60 -> t = PacketTypeInitial \/ token = [] ->
  let h := mkHeader [] v dest src [] pnLen pn false [] t true 0 pl token in
  exists bs, Header_Write rnd h = Ok bs /\ bytes bs /\ GetLength h = Ok (len bs)
    /\ parse_header n (bs ++ rest) = Ok (on_wire h, rest).
Proof.
  intros Hv Hd Hs Ht Hnr [Hpn Hpl] Hplv Bt Lt Htok h.
  destruct (packet_number_wire pn pnLen rest Hpn Hpl) as (ps & Eps & Lps & Bps & _).
  destruct (long_type_bits t Ht) as (Hb & H80 & H7f).
  assert (Hvt : is_varint (len token)) by (pose proof (len_nonneg token); unfold is_varint, maxVarInt8; lia).
  set (tok := if t =? PacketTypeInitial then varint_bytes (len token) ++ token else []).
  destruct (invariant_long (Z.lor 0x80 t) v dest src n (tok ++ varint_bytes pl ++ ps ++ rest))
    as (pre & Epre & Lpre & Bpre & Ppre); try done; [unfold is_u32; lia |].
  assert (Hnr' : (t =? PacketTypeRetry) = false) by (by apply Z.eqb_neq).
  exists (pre ++ dest ++ src ++ tok ++ varint_bytes pl ++ ps). split_and!.
  - unfold Header_Write, writeLongHeader, h.
    cbn [IsLongHeader Header_Type Header_Version DestConnectionID SrcConnectionID Header_Token PayloadLen
         Header_PacketNumber Header_PacketNumberLen].
    rewrite <- !wseq_assoc, Epre, Hnr', !WriteVarInt_bytes, Eps by done.
    unfold tok. destruct (t =? PacketTypeInitial); cbn; by rewrite <- ?app_assoc, ?app_nil_r.
  - rewrite !bytes_app. split_and!; [by apply Bpre | apply Hd | apply Hs | | by apply bytes_varint_bytes | done].
    unfold tok. case_match; [| constructor]. apply bytes_app. split; [by apply bytes_varint_bytes | done].
  - unfold GetLength, h. cbn [IsLongHeader PayloadLen DestConnectionID SrcConnectionID Header_PacketNumberLen
      Header_Type Header_Token].
    rewrite !VarIntLen_vlen by done. cbn [mbind outcome_bind].
    rewrite !len_app, Lpre, Lps, len_varint_bytes by done.
    destruct Hd as [_ Hd], Hs as [_ Hs]. pose proof (vlen_range pl). pose proof (vlen_range (len token)).
    pose proof (len_nonneg token). unfold PacketNumberLen1, PacketNumberLen2, PacketNumberLen4 in Hpl.
    unfold tok. destruct (t =? PacketTypeInitial).
    + rewrite len_app, len_varint_bytes by done. norm64. f_equal. lia.
    + rewrite len_nil. norm64. f_equal. lia.
  - unfold parse_header. rewrite <- !app_assoc. erewrite reader_bind_step by exact Ppre.
    unfold iv_Parse, parseLongHeader. cbn [iv_IsLongHeader iv_Version iv_typeByte].
    destruct (Z.eqb_spec v 0); [lia |]. rewrite H7f, Hnr'.
    assert (Hval : negb (t =? PacketTypeInitial) && negb false && negb (t =? PacketType0RTT)
      && negb (t =? PacketTypeHandshake) = false).
    { destruct_or! Ht; subst t; done. }
    rewrite Hval. unfold tok.
    erewrite (reader_bind_step _ _ _ token (varint_bytes pl ++ ps ++ rest)).
    2: { destruct (t =? PacketTypeInitial) eqn:Ei.
         - rewrite <- app_assoc, ReadVarInt_step, Len_step by done.
           rewrite (proj2 (Z.ltb_ge _ _)); [apply ReadFull_app |].
           rewrite len_app. pose proof (len_nonneg (varint_bytes pl ++ ps ++ rest)). lia.
         - destruct Htok as [-> | ->]; done. }
    rewrite ReadVarInt_step by done. rewrite (ReadPacketNumber_step _ pn pnLen) by done.
    unfold on_wire, is_retry, h. cbn [IsLongHeader Header_Type andb]. by rewrite Hnr'.
Qed.

(** ** Lemmas: version negotiation *)

Definition write_versions (vs : list Z) : writes := foldr (fun v w => WriteUint32 (u32 v) +w+ w) (Ok []) vs.

Lemma write_versions_ok vs : Forall is_u32 vs ->
  exists bs, write_versions vs = Ok bs /\ len bs = 4 * len vs /\ bytes bs.
Proof.
  induction 1 as [| v vs Hv _ (bs & E & L & B)]; [by exists [] |].
  cbn [write_versions foldr]. fold (write_versions vs). rewrite E.
  destruct (WriteUint32 (u32 v)) as [x | |] eqn:Ex; try done.
  destruct (WriteUint32_read (u32 v) [] x) as (_ & Lx & Bx); [apply u32_range | done |].
  exists (x ++ bs). split_and!; [done | rewrite len_app, len_cons; lia | by apply bytes_app].
Qed.

Lemma read_versions_spec vs : forall fuel read bs, Forall is_u32 vs -> (length vs < fuel)%nat ->
  write_versions vs = Ok bs ->
  read_versions fuel (length read) (read ++ replicate (length vs) 0) bs = Ok (read ++ vs, []).
Proof.
  induction vs as [| v vs IH]; intros fuel read bs Hvs Hf E.
  { destruct fuel; [cbn in Hf; lia |]. by injection E as <-. }
  inversion_clear Hvs as [| ? ? Hv Hvs']. destruct fuel as [| fuel]; [cbn in Hf; lia |].
  cbn [write_versions foldr] in E. fold (write_versions vs) in E. apply wseq_Ok in E as (x & y & Ex & Ey & ->).
  rewrite u32_small in Ex by exact Hv. destruct (WriteUint32_read v y x Hv Ex) as (Hx & Lx & _).
  cbn [read_versions]. rewrite len_app, Lx. pose proof (len_nonneg y).
  destruct (Z.eqb_spec (4 + len y) 0); [lia |]. rewrite Hx.
  rewrite length_app. cbn [replicate length]. rewrite length_replicate.
  destruct (Nat.ltb_spec (length read) (length read + S (length vs))); [| lia].
  rewrite insert_app_r_alt by lia. rewrite Nat.sub_diag. cbn.
  replace (read ++ v :: replicate (length vs) 0) with ((read ++ [v]) ++ replicate (length vs) 0)
    by (by rewrite <- app_assoc).
  replace (S (length read)) with (length (read ++ [v])) by (rewrite length_app; cbn; lia).
  rewrite (IH fuel (read ++ [v]) y) by (done || cbn in Hf; lia). by rewrite <- app_assoc.
Qed.

Lemma ReadUint32_suffix r v r' : ReadUint32 r = Ok (v, r') -> is_u32 v /\ exists a b c d, r = a :: b :: c :: d :: r'.
Proof.
  unfold ReadUint32. destruct r as [| a [| b [| c [| d r]]]]; try done. cbn -[u32].
  intros [= <- <-]. split; [apply u32_range | by eexists _, _, _, _].
Qed.

Lemma read_versions_safe : forall fuel i versions r, bytes r -> (length r < fuel)%nat ->
  (i + length r / 4 <= length versions)%nat ->
  match read_versions fuel i versions r with
  | Ok (vs, r') => length vs = length versions /\ r' = []
  | Err e => e = ErrorCode InvalidVersionNegotiationPacket
  | Panic _ => False
  end.
Proof.
  induction fuel as [| fuel IH]; intros i versions r Hr Hf Hi; [lia |].
  cbn [read_versions]. destruct (Z.eqb_spec (len r) 0) as [E | Hne]; [by apply len_zero in E as -> |].
  destruct (ReadUint32 r) as [[v r'] | e | s] eqn:Er; [| done |].
  - apply ReadUint32_suffix in Er as (_ & a & b & c & d & ->).
    assert (Hd : (length (a :: b :: c :: d :: r') / 4 = S (length r' / 4))%nat)
      by (cbn [length]; change (S (S (S (S (length r'))))) with (4 + length r')%nat;
          rewrite <- (Nat.mul_1_l 4) at 1; rewrite Nat.div_add_l; lia).
    destruct (Nat.ltb_spec i (length versions)); [| lia].
    specialize (IH (S i) (<[i := v]> versions) r'). rewrite length_insert in IH. apply IH; [| cbn in Hf; lia | lia].
    by do 4 apply bytes_cons in Hr as [_ Hr].
  - unfold ReadUint32 in Er. destruct r as [| ? [| ? [| ? [| ? ?]]]]; done.
Qed.

Lemma greased_u32 posByte rnd versions : Forall is_u32 versions ->
  Forall is_u32 (GetGreasedVersions posByte rnd versions)
  /\ 1 <= len (GetGreasedVersions posByte rnd versions).
Proof.
  intros Hv. unfold GetGreasedVersions. cbv zeta. set (n := posByte mod _).
  rewrite <- (take_drop_z n versions), Forall_app in Hv. destruct Hv as [H1 H2]. split.
  - apply Forall_app. split; [done |]. constructor; [| done]. unfold generateReservedVersion.
    change 0xfafafafa with (Z.land 0xfafafafa (Z.ones 32)). rewrite Z.land_assoc, Z.land_ones by lia.
    apply Z.mod_pos_bound. lia.
  - rewrite len_app, len_cons. pose proof (len_nonneg (take_z n versions)).
    pose proof (len_nonneg (drop_z n versions)). lia.
Qed.

Lemma first_byte_long r : is_byte r -> is_byte (Z.lor r 0x80) /\ (0 <? Z.land (Z.lor r 0x80) 0x80) = true.
Proof.
  intros Hr. pose proof (byte_forall (fun r => (0 <=? Z.lor r 0x80) && (Z.lor r 0x80 <? 256)
    && (0 <? Z.land (Z.lor r 0x80) 0x80)) eq_refl r Hr) as H. cbv beta in H.
  apply andb_true_iff in H as [H ->]. bool_to_prop. split; [unfold is_byte; lia | done].
Qed.

(** ** Theorems *)

(** Every header that is sent is written without an error, [GetLength] is
    its length (a Retry packet has none), and the receiver parses it, in front
    of any payload, as the same header, with the packet number cut to the bits
    that were sent; the whole of what follows a Retry header is its token. *)
Theorem header_roundtrip rnd h rest : 0 <= rnd < 256 -> header_ok h -> (is_retry h = true -> rest = []) ->
  exists bs, Header_Write rnd h = Ok bs /\ bytes bs
    /\ (is_retry h = false -> GetLength h = Ok (len bs))
    /\ parse_header (len (DestConnectionID h)) (bs ++ rest) = Ok (on_wire h, rest).
Proof.
  intros Hr Hh Hrest. destruct Hh.
  - destruct (short_roundtrip rnd dest pnLen pn keyPhase rest) as (bs & ? & ? & ? & ?); try done.
    by exists bs.
  - destruct (retry_roundtrip rnd (len dest) v dest src orig token Hr) as (bs & ? & ? & ?); try done.
    exists bs. rewrite Hrest, app_nil_r by done. split_and!; done.
  - destruct (long_roundtrip rnd (len dest) v dest src pnLen pn t pl token rest) as (bs & ? & ? & ? & ?); try done.
    by exists bs.
Qed.

Lemma header_roundtrip_witness :
  let h := mkHeader [] VersionTLS [1; 2; 3; 4] [] [] 2 70000 false [] PacketTypeInitial true 0 500 [9; 9] in
  exists bs, Header_Write 0 h = Ok bs /\ bytes bs /\ (is_retry h = false -> GetLength h = Ok (len bs))
    /\ parse_header 4 (bs ++ [1; 2; 3]) = Ok (on_wire h, [1; 2; 3]).
Proof.
  apply (header_roundtrip 0 (mkHeader [] VersionTLS [1; 2; 3; 4] [] [] 2 70000 false [] PacketTypeInitial
    true 0 500 [9; 9]) [1; 2; 3]); [lia | | done].
  constructor; try (by vm_compute); try (by left); try (by right; left).
  - split; [solve_bytes | right; by vm_compute].
  - split; [constructor | by left].
  - split; [by vm_compute | by right; left].
  - solve_bytes.
Defined.

(** Version negotiation end to end: the packet a server composes is parsed
    as a version negotiation packet with its connection IDs, and stripping the
    greased version from its list gives the versions of the server. *)
Theorem version_negotiation_roundtrip r posByte rnd n dest src versions :
  is_byte r -> 0 <= rnd < 2 ^ 32 -> connid_ok dest -> connid_ok src ->
  Forall (fun v => is_u32 v /\ is_greased v = false) versions ->
  exists bs h, ComposeVersionNegotiation r posByte rnd dest src versions = Ok bs /\ bytes bs
    /\ parse_header n bs = Ok (h, [])
    /\ IsVersionNegotiation h = true /\ DestConnectionID h = dest /\ SrcConnectionID h = src
    /\ StripGreasedVersions (Header_SupportedVersions h) = versions
    /\ IsLongHeader h = true /\ Header_Version h = 0.
Proof.
  intros Hr Hrnd Hd Hs Hv.
  assert (Hv32 : Forall is_u32 versions) by (eapply Forall_impl; [exact Hv | by intros ? [? _]]).
  destruct (greased_u32 posByte rnd versions Hv32) as [Hvs Hlen].
  set (vs := GetGreasedVersions posByte rnd versions) in *.
  destruct (write_versions_ok vs Hvs) as (wb & Ew & Lw & Bw).
  destruct (first_byte_long r Hr) as [Hb Hlong].
  destruct (invariant_long (Z.lor r 0x80) 0 dest src n wb) as (pre & Epre & _ & Bpre & Ppre); try done.
  eexists (pre ++ dest ++ src ++ wb), _. split_and!.
  - unfold ComposeVersionNegotiation. fold vs. fold (write_versions vs).
    rewrite <- !wseq_assoc, Epre, Ew. cbn. by rewrite <- !app_assoc.
  - rewrite !bytes_app. split_and!; [by apply Bpre | apply Hd | apply Hs | done].
  - unfold parse_header. erewrite reader_bind_step by exact Ppre.
    unfold iv_Parse, parseVersionNegotiationPacket. cbn [iv_IsLongHeader iv_Version Z.eqb].
    rewrite Len_step. destruct (Z.eqb_spec (len wb) 0); [lia |].
    erewrite reader_bind_step; [reflexivity |].
    replace (Z.to_nat (len wb / 4)) with (length vs)
      by (rewrite Lw, Z.mul_comm, Z.div_mul by lia; unfold len; lia).
    apply (read_versions_spec vs (S (Z.to_nat (len wb))) [] wb Hvs); [| done]. unfold len in *. lia.
  - done.
  - done.
  - done.
  - cbn. apply strip_greased_versions. eapply Forall_impl; [exact Hv | by intros ? [_ ?]].
  - done.
  - done.
Qed.

Lemma version_negotiation_roundtrip_witness :
  exists bs h, ComposeVersionNegotiation 5 1 7 [1; 2; 3; 4] [] [VersionTLS; 8] = Ok bs /\ bytes bs
    /\ parse_header 0 bs = Ok (h, [])
    /\ IsVersionNegotiation h = true /\ DestConnectionID h = [1; 2; 3; 4] /\ SrcConnectionID h = []
    /\ StripGreasedVersions (Header_SupportedVersions h) = [VersionTLS; 8]
    /\ IsLongHeader h = true /\ Header_Version h = 0.
Proof.
  apply version_negotiation_roundtrip; [unfold is_byte; lia | lia | | |].
  - split; [solve_bytes | right; by vm_compute].
  - split; [constructor | by left].
  - repeat constructor; by vm_compute.
Defined.

(** The headers the parser accepts. *)
Definition parsed_ok (n : Z) (h : Header) : Prop :=
  (if IsLongHeader h then connid_ok (DestConnectionID h) /\ connid_ok (SrcConnectionID h)
   else len (DestConnectionID h) = n)
  /\ 0 <= PayloadLen h < 2 ^ 62
  /\ (if IsVersionNegotiation h then Header_SupportedVersions h <> []
      else if is_retry h then connid_ok (OrigDestConnectionID h)
      else 0 <= Header_PacketNumber h < 2 ^ pn_bits (Header_PacketNumberLen h)
           /\ 1 <= Header_PacketNumberLen h <= 4
           /\ (IsLongHeader h = true -> long_type (Header_Type h))).

Lemma pn_first_byte b : is_byte b ->
  (Z.land b 0x80 = 0 -> b < 128) /\ 0 <= Z.land b 0x3f < 64.
Proof.
  intros Hb. pose proof (byte_forall (fun b => ((negb (Z.land b 0x80 =? 0)) || (b <? 128))
    && (0 <=? Z.land b 0x3f) && (Z.land b 0x3f <? 64)) eq_refl b Hb) as H. cbv beta in H.
  apply andb_true_iff in H as [[H H1]%andb_true_iff H2]. bool_to_prop. split; [| lia].
  intros E. rewrite E in H. cbn in H. by apply Z.ltb_lt.
Qed.

Lemma safe_ReadVarIntPacketNumber :
  safe ReadVarIntPacketNumber (fun '(pn, l) => 0 <= pn < 2 ^ pn_bits l /\ 1 <= l <= 4).
Proof.
  unfold ReadVarIntPacketNumber. eapply safe_bind; [apply safe_ReadByte |]. intros b1 Hb1.
  destruct (pn_first_byte b1 Hb1) as [Hl Hx].
  repeat safe_step; unfold is_byte, PacketNumberLen1, PacketNumberLen2, PacketNumberLen4 in *; bool_to_prop;
    rewrite ?Z.shiftl_mul_pow2 by lia.
  - cbn. specialize (Hl ltac:(done)). lia.
  - rewrite u64_small by lia. cbn. lia.
  - rewrite u64_small by lia. cbn. lia.
Qed.
#[export] Hint Resolve safe_ReadVarIntPacketNumber : safe.

Lemma decodeSingle_range e : 0 <= e < 16 -> decodeSingleConnIDLen e = 0 \/ 4 <= decodeSingleConnIDLen e <= 18.
Proof. intros He. unfold decodeSingleConnIDLen. destruct (Z.eqb_spec e 0); lia. Qed.

Lemma decode_range b : is_byte b -> 0 <= b ≫ 4 < 16 /\ 0 <= Z.land b 0xf < 16.
Proof.
  intros Hb. pose proof (byte_forall (fun b => (0 <=? b ≫ 4) && (b ≫ 4 <? 16)
    && (0 <=? Z.land b 0xf) && (Z.land b 0xf <? 16)) eq_refl b Hb) as H. cbv beta in H. bool_to_prop. lia.
Qed.

Lemma safe_connid e : 0 <= e < 16 -> safe (ReadConnectionID (decodeSingleConnIDLen e)) connid_ok.
Proof.
  intros He. destruct (decodeSingle_range e He) as [E | E];
    (eapply safe_weaken; [apply safe_ReadConnectionID; lia |]; cbv beta; intros id [Hb Hl]; split; [done | lia]).
Qed.

Definition iv_ok (n : Z) (iv : InvariantHeader) : Prop :=
  is_byte (iv_typeByte iv)
  /\ if iv_IsLongHeader iv then connid_ok (iv_DestConnectionID iv) /\ connid_ok (iv_SrcConnectionID iv)
     else len (iv_DestConnectionID iv) = n.

Lemma safe_ReadUint32 : safe ReadUint32 is_u32.
Proof. unfold ReadUint32. repeat safe_step. apply u32_range. Qed.
#[export] Hint Resolve safe_ReadUint32 : safe.

Lemma safe_invariant n : 0 <= n -> safe1 (ParseInvariantHeader n) (iv_ok n).
Proof.
  intros Hn. unfold ParseInvariantHeader. apply safe1_ReadByte. intros t Ht. cbv zeta.
  destruct (0 <? Z.land t 0x80); cbn [negb].
  - eapply safe_bind; [apply safe_ReadUint32 |]. intros v Hv.
    eapply safe_bind; [apply safe_ReadByte |]. intros l Hl. destruct (decode_range l Hl) as [H1 H2].
    unfold decodeConnIDLen.
    eapply safe_bind; [by apply safe_connid |]. intros dest Hd.
    eapply safe_bind; [by apply safe_connid |]. intros src Hs. by apply safe_ret.
  - eapply safe_bind; [by apply safe_ReadConnectionID |]. intros dest [_ Hd]. by apply safe_ret.
Qed.

Lemma safe_negotiation n iv : iv_IsLongHeader iv = true -> iv_ok n iv ->
  safe (parseVersionNegotiationPacket iv) (parsed_ok n).
Proof.
  intros Hlong [_ Hiv] r Hr. rewrite Hlong in Hiv. unfold parseVersionNegotiationPacket. rewrite Len_step.
  destruct (Z.eqb_spec (len r) 0) as [| Hne]; [done |]. unfold mbind, reader_bind.
  pose proof (read_versions_safe (S (Z.to_nat (len r))) 0 (replicate (Z.to_nat (len r / 4)) 0) r Hr) as H.
  rewrite length_replicate in H.
  assert (Hq : Z.to_nat (len r / 4) = (length r / 4)%nat)
    by (unfold len; change 4 with (Z.of_nat 4); by rewrite <- Nat2Z.inj_div, Nat2Z.id).
  specialize (H ltac:(unfold len; lia) ltac:(lia)).
  destruct (read_versions _ _ _ r) as [[vs r'] | |] eqn:E; [| done | done].
  destruct H as [Hl ->]. split; [| by exists r; rewrite app_nil_r].
  split; [cbn; by rewrite Hlong |]. split; [done |]. cbn [with_parsed IsVersionNegotiation Header_SupportedVersions].
  intros ->. rewrite Hq in Hl. destruct r as [| a [| b [| c [| d r]]]]; try done.
  cbn [length] in Hl. change (S (S (S (S (length r))))) with (1 * 4 + length r)%nat in Hl.
  rewrite Nat.div_add_l in Hl by lia. cbn in Hl. lia.
Qed.

Lemma safe_long n iv : iv_IsLongHeader iv = true -> iv_ok n iv -> safe (parseLongHeader iv) (parsed_ok n).
Proof.
  intros Hlong [_ Hiv]. rewrite Hlong in Hiv. unfold parseLongHeader. cbv zeta.
  set (t := Z.land (iv_typeByte iv) 0x7f).
  apply safe_if; [intros _; apply safe_fail |]. intros Ht.
  assert (Hlt : long_type t).
  { unfold long_type. destruct (Z.eqb_spec t PacketTypeInitial), (Z.eqb_spec t PacketTypeRetry),
      (Z.eqb_spec t PacketType0RTT), (Z.eqb_spec t PacketTypeHandshake); try done; tauto. }
  apply safe_if; intros Hr.
  - eapply safe_bind; [apply safe_ReadByte |]. intros b Hb.
    eapply safe_bind; [apply safe_connid; by apply decode_range |]. intros orig Ho.
    eapply safe_bind; [apply safe_Len |]. intros m Hm.
    eapply safe_bind; [by apply safe_ReadFull |]. intros token _. apply safe_ret.
    split; [cbn; by rewrite Hlong |]. split; [done |]. unfold is_retry. cbn. by rewrite Hlong, Hr.
  - eapply (safe_bind _ _ (fun _ => True)).
    { apply safe_if; [intros _ | intros _; by apply safe_ret].
      eapply safe_bind; [apply safe_ReadVarInt |]. intros tl Htl.
      eapply safe_bind; [apply safe_Len |]. intros m Hm. apply safe_if; [intros _; apply safe_fail |]. intros _.
      eapply safe_weaken; [apply safe_ReadFull; apply Htl | done]. }
    intros token _. eapply safe_bind; [apply safe_ReadVarInt |]. intros pl Hpl.
    eapply safe_bind; [apply safe_ReadVarIntPacketNumber |]. intros [pn pnLen] [Hpn Hpnl]. apply safe_ret.
    unfold is_varint, maxVarInt8 in Hpl.
    split; [cbn; by rewrite Hlong |]. unfold is_retry. cbn -[Z.pow]. rewrite Hr, andb_false_r.
    split_and!; try lia; done.
Qed.

Lemma safe_short n iv : iv_IsLongHeader iv = false -> iv_ok n iv -> safe (parseShortHeader iv) (parsed_ok n).
Proof.
  intros Hshort [_ Hiv]. rewrite Hshort in Hiv. unfold parseShortHeader.
  eapply safe_bind; [apply safe_ReadVarIntPacketNumber |]. intros [pn pnLen] [Hpn Hpnl]. apply safe_ret.
  split; [cbn; by rewrite Hshort |]. unfold is_retry. cbn -[Z.pow]. rewrite Hshort.
  split_and!; try lia; done.
Qed.

Lemma safe_iv_Parse n iv : iv_ok n iv -> safe (iv_Parse iv) (parsed_ok n).
Proof.
  intros Hiv. unfold iv_Parse. destruct (iv_IsLongHeader iv) eqn:E; [| by apply safe_short].
  apply safe_if; intros _; [by apply safe_negotiation | by apply safe_long].
Qed.

(** Parsing a header from arbitrary bytes never panics: it fails, or gives a
    header with connection IDs, a packet number and a type in their ranges,
    after consuming at least one byte, and leaves the end of the input. *)
Theorem parse_header_safe n r : 0 <= n -> bytes r ->
  match parse_header n r with
  | Ok (h, r') => parsed_ok n h /\ suffix r' r /\ len r' < len r
  | Err _ => True
  | Panic _ => False
  end.
Proof.
  intros Hn Hr.
  assert (H : safe1 (parse_header n) (parsed_ok n)).
  { unfold parse_header. eapply safe1_bind; [by apply safe_invariant |]. intros iv. apply safe_iv_Parse. }
  destruct H as [_ H]. destruct r as [| b r]; [done |].
  specialize (H b r Hr). unfold safe_on in H. destruct (parse_header n (b :: r)) as [[h r'] | |]; [| done | done].
  destruct H as [H1 H2]. split_and!; [done | by apply suffix_cons_r |].
  rewrite len_cons. apply len_suffix in H2. lia.
Qed.

Lemma parse_header_safe_witness :
  match parse_header 4 [255; 0; 0; 0; 0; 0; 1; 2; 3] with
  | Ok (h, r') => parsed_ok 4 h /\ suffix r' [255; 0; 0; 0; 0; 0; 1; 2; 3]
                  /\ len r' < len [255; 0; 0; 0; 0; 0; 1; 2; 3]
  | Err _ => True
  | Panic _ => False
  end.
Proof. apply (parse_header_safe 4 [255; 0; 0; 0; 0; 0; 1; 2; 3]); [lia | solve_bytes]. Defined.
