(* ===== verification/SendStream.v ===== *)
(** * The sending half of a stream (send_stream.go, streamSender of stream.go)

    The calls of the application ([Write], [Close], [CancelWrite],
    [SetWriteDeadline]) and of the session ([popStreamFrame] and the handlers of
    frames) as functions on the state of the stream.  A [Write] that has to wait
    is resumed by [write_turn].  The theorems relate the frames that are sent to
    what was written, for every interleaving of these calls. *)

From Stdlib Require Import Sorting.Sorted.
From S2P Require Import Prelude Qerr Varint Protocol AckFrame Frames FrameCodec FrameParser Float FlowControl.

(** ** streamSender: what a stream tells the session *)

Inductive sender_call : Type :=
  | QueueControlFrame (f : Frame)
  | OnHasStreamData (id : Z)
  | OnStreamCompleted (id : Z).

Definition errDeadline : go_error := Errorf "deadline exceeded" [].
Definition errorCodeStopping : Z := 0.

(** ** Timers (time.Timer)

    A timer is running until a time, has fired with its channel full, or has
    fired with its channel empty again. *)
Inductive timer : Type := TimerArmed (at_ : Z) | TimerFired | TimerDrained.

(** [NewTimer], or [if !Stop() { <-C }; Reset]: on a timer whose channel is
    empty after it has fired the receive never returns. *)
Definition rearm (t : option timer) (deadline : Z) : option timer :=
  match t with
  | None | Some (TimerArmed _) | Some TimerFired => Some (TimerArmed deadline)
  | Some TimerDrained => None
  end.

(** ** The state of a send stream

    [dataForWriting] is [None] for nil.  [writeSignal] says whether the channel
    [writeChan], of capacity one, is full, and [ctxDone] whether the context is
    cancelled.  A deadline of 0 is the zero time.  The flow controller of the
    connection is shared by all streams and passed along. *)

Record sendStream : Type := mkSendStream {
  ss_streamID : Z;
  writeOffset : Z;
  cancelWriteErr : option go_error;
  ss_closeForShutdownErr : option go_error;
  ss_closedForShutdown : bool;
  finishedWriting : bool;
  canceledWrite : bool;
  finSent : bool;
  dataForWriting : option (list Z);
  writeSignal : bool;
  ss_deadline : Z;
  ss_deadlineTimer : option timer;
  ctxDone : bool;
  ss_flowController : streamFlowController }.

Definition set_ss_streamID (s : sendStream) (x : Z) : sendStream :=
  mkSendStream x (writeOffset s) (cancelWriteErr s) (ss_closeForShutdownErr s)
    (ss_closedForShutdown s) (finishedWriting s) (canceledWrite s) (finSent s) (dataForWriting s)
    (writeSignal s) (ss_deadline s) (ss_deadlineTimer s) (ctxDone s) (ss_flowController s).
Definition set_writeOffset (s : sendStream) (x : Z) : sendStream :=
  mkSendStream (ss_streamID s) x (cancelWriteErr s) (ss_closeForShutdownErr s)
    (ss_closedForShutdown s) (finishedWriting s) (canceledWrite s) (finSent s) (dataForWriting s)
    (writeSignal s) (ss_deadline s) (ss_deadlineTimer s) (ctxDone s) (ss_flowController s).
Definition set_cancelWriteErr (s : sendStream) (x : option go_error) : sendStream :=
  mkSendStream (ss_streamID s) (writeOffset s) x (ss_closeForShutdownErr s)
    (ss_closedForShutdown s) (finishedWriting s) (canceledWrite s) (finSent s) (dataForWriting s)
    (writeSignal s) (ss_deadline s) (ss_deadlineTimer s) (ctxDone s) (ss_flowController s).
Definition set_ss_closeForShutdownErr (s : sendStream) (x : option go_error) : sendStream :=
  mkSendStream (ss_streamID s) (writeOffset s) (cancelWriteErr s) x (ss_closedForShutdown s)
    (finishedWriting s) (canceledWrite s) (finSent s) (dataForWriting s) (writeSignal s)
    (ss_deadline s) (ss_deadlineTimer s) (ctxDone s) (ss_flowController s).
Definition set_ss_closedForShutdown (s : sendStream) (x : bool) : sendStream :=
  mkSendStream (ss_streamID s) (writeOffset s) (cancelWriteErr s) (ss_closeForShutdownErr s) x
    (finishedWriting s) (canceledWrite s) (finSent s) (dataForWriting s) (writeSignal s)
    (ss_deadline s) (ss_deadlineTimer s) (ctxDone s) (ss_flowController s).
Definition set_finishedWriting (s : sendStream) (x : bool) : sendStream :=
  mkSendStream (ss_streamID s) (writeOffset s) (cancelWriteErr s) (ss_closeForShutdownErr s)
    (ss_closedForShutdown s) x (canceledWrite s) (finSent s) (dataForWriting s) (writeSignal s)
    (ss_deadline s) (ss_deadlineTimer s) (ctxDone s) (ss_flowController s).
Definition set_canceledWrite (s : sendStream) (x : bool) : sendStream :=
  mkSendStream (ss_streamID s) (writeOffset s) (cancelWriteErr s) (ss_closeForShutdownErr s)
    (ss_closedForShutdown s) (finishedWriting s) x (finSent s) (dataForWriting s) (writeSignal s)
    (ss_deadline s) (ss_deadlineTimer s) (ctxDone s) (ss_flowController s).
Definition set_finSent (s : sendStream) (x : bool) : sendStream :=
  mkSendStream (ss_streamID s) (writeOffset s) (cancelWriteErr s) (ss_closeForShutdownErr s)
    (ss_closedForShutdown s) (finishedWriting s) (canceledWrite s) x (dataForWriting s)
    (writeSignal s) (ss_deadline s) (ss_deadlineTimer s) (ctxDone s) (ss_flowController s).
Definition set_dataForWriting (s : sendStream) (x : option (list Z)) : sendStream :=
  mkSendStream (ss_streamID s) (writeOffset s) (cancelWriteErr s) (ss_closeForShutdownErr s)
    (ss_closedForShutdown s) (finishedWriting s) (canceledWrite s) (finSent s) x (writeSignal s)
    (ss_deadline s) (ss_deadlineTimer s) (ctxDone s) (ss_flowController s).
Definition set_writeSignal (s : sendStream) (x : bool) : sendStream :=
  mkSendStream (ss_streamID s) (writeOffset s) (cancelWriteErr s) (ss_closeForShutdownErr s)
    (ss_closedForShutdown s) (finishedWriting s) (canceledWrite s) (finSent s) (dataForWriting s)
    x (ss_deadline s) (ss_deadlineTimer s) (ctxDone s) (ss_flowController s).
Definition set_ss_deadline (s : sendStream) (x : Z) : sendStream :=
  mkSendStream (ss_streamID s) (writeOffset s) (cancelWriteErr s) (ss_closeForShutdownErr s)
    (ss_closedForShutdown s) (finishedWriting s) (canceledWrite s) (finSent s) (dataForWriting s)
    (writeSignal s) x (ss_deadlineTimer s) (ctxDone s) (ss_flowController s).
Definition set_ss_deadlineTimer (s : sendStream) (x : option timer) : sendStream :=
  mkSendStream (ss_streamID s) (writeOffset s) (cancelWriteErr s) (ss_closeForShutdownErr s)
    (ss_closedForShutdown s) (finishedWriting s) (canceledWrite s) (finSent s) (dataForWriting s)
    (writeSignal s) (ss_deadline s) x (ctxDone s) (ss_flowController s).
Definition set_ctxDone (s : sendStream) (x : bool) : sendStream :=
  mkSendStream (ss_streamID s) (writeOffset s) (cancelWriteErr s) (ss_closeForShutdownErr s)
    (ss_closedForShutdown s) (finishedWriting s) (canceledWrite s) (finSent s) (dataForWriting s)
    (writeSignal s) (ss_deadline s) (ss_deadlineTimer s) x (ss_flowController s).
Definition set_ss_flowController (s : sendStream) (x : streamFlowController) : sendStream :=
  mkSendStream (ss_streamID s) (writeOffset s) (cancelWriteErr s) (ss_closeForShutdownErr s)
    (ss_closedForShutdown s) (finishedWriting s) (canceledWrite s) (finSent s) (dataForWriting s)
    (writeSignal s) (ss_deadline s) (ss_deadlineTimer s) (ctxDone s) x.

Definition newSendStream (id : Z) (fc : streamFlowController) : sendStream :=
  mkSendStream id 0 None None false false false false None false 0 None false fc.

Definition signalWrite (s : sendStream) : sendStream := set_writeSignal s true.

Definition deadline_passed (deadline now : Z) : bool := negb (deadline =? 0) && negb (now <? deadline).

(** ** Write *)

Definition write_error (s : sendStream) (err : option go_error) : option go_error :=
  match ss_closeForShutdownErr s with
  | Some e => Some e
  | None => match cancelWriteErr s with Some e => Some e | None => err end
  end.

(** One turn of the loop, for a slice of [n] bytes: the result of the call, or
    [None] if it waits on the channel or the timer. *)
Definition write_turn (s : sendStream) (n now : Z) : sendStream * option (Z * option go_error) :=
  let bytesWritten := n - len (default [] (dataForWriting s)) in
  if deadline_passed (ss_deadline s) now then
    let s := set_dataForWriting s None in
    (s, Some (bytesWritten, write_error s (Some errDeadline)))
  else if bool_decide (dataForWriting s = None) || canceledWrite s || ss_closedForShutdown s then
    (s, Some (bytesWritten, write_error s None))
  else (s, None).

(** The beginning of the call, with the first turn of the loop. *)
Definition stream_Write (s : sendStream) (p : list Z) (now : Z)
    : sendStream * list sender_call * option (Z * option go_error) :=
  if finishedWriting s then
    (s, [], Some (0, Some (Errorf "write on closed stream %d" [ss_streamID s])))
  else if canceledWrite s then (s, [], Some (0, cancelWriteErr s))
  else match ss_closeForShutdownErr s with
  | Some e => (s, [], Some (0, Some e))
  | None =>
      if deadline_passed (ss_deadline s) now then (s, [], Some (0, Some errDeadline))
      else if len p =? 0 then (s, [], Some (0, None))
      else
        let '(s, r) := write_turn (set_dataForWriting s (Some p)) (len p) now in
        (s, [OnHasStreamData (ss_streamID s)], r)
  end.

(** The wait is over, with the next turn: by a receive from [writeChan], or,
    if there was a deadline when the wait began, from the timer. *)
Definition write_wake (s : sendStream) (byTimer : bool) (n now : Z)
    : sendStream * option (Z * option go_error) :=
  write_turn (if byTimer then set_ss_deadlineTimer s (Some TimerDrained) else set_writeSignal s false) n now.

(** ** Sending *)

(** The data and whether to send a FIN, the stream, and the flow controller of
    the connection. *)
Definition getDataForWriting (s : sendStream) (conn : baseFlowController) (maxBytes : Z)
    : list Z * bool * sendStream * baseFlowController :=
  match dataForWriting s with
  | None => ([], finishedWriting s && negb (finSent s), s, conn)
  | Some data =>
      let maxBytes := MinByteCount maxBytes (SendWindowSize (ss_flowController s) conn) in
      if maxBytes =? 0 then ([], false, s, conn)
      else
        let '(ret, s) :=
          if maxBytes <? len data then (take_z maxBytes data, set_dataForWriting s (Some (drop_z maxBytes data)))
          else (data, signalWrite (set_dataForWriting s None)) in
        let s := set_writeOffset s (writeOffset s +64 len ret) in
        let '(fc, conn) := stream_AddBytesSent (ss_flowController s) conn (len ret) in
        let s := set_ss_flowController s fc in
        (ret, finishedWriting s && bool_decide (dataForWriting s = None) && negb (finSent s), s, conn)
  end.

Record pop_result : Type := mkPopped {
  popped_completed : bool; popped_frame : option StreamFrame; popped_more : bool; popped_calls : list sender_call }.

Definition popStreamFrameImpl (s : sendStream) (conn : baseFlowController) (maxBytes : Z)
    : outcome (pop_result * sendStream * baseFlowController) :=
  match ss_closeForShutdownErr s with
  | Some _ => Ok (mkPopped false None false [], s, conn)
  | None =>
      let frame := mkStreamFrame (ss_streamID s) false true (writeOffset s) [] in
      maxDataLen ← StreamFrame_MaxDataLen frame maxBytes;
      if maxDataLen =? 0 then
        Ok (mkPopped false None (negb (bool_decide (dataForWriting s = None))) [], s, conn)
      else
        let '(data, fin, s, conn) := getDataForWriting s conn maxDataLen in
        if (len data =? 0) && negb fin then
          if bool_decide (dataForWriting s = None) then Ok (mkPopped false None false [], s, conn)
          else
            let '(isBlocked, offset, b) := IsNewlyBlocked (base (ss_flowController s)) in
            let s := set_ss_flowController s (with_base (ss_flowController s) b) in
            if isBlocked then
              Ok (mkPopped false None false
                    [QueueControlFrame (StreamDataBlocked (mkStreamDataBlockedFrame (ss_streamID s) offset))],
                  s, conn)
            else Ok (mkPopped false None true [], s, conn)
        else
          let s := if fin then set_finSent s true else s in
          Ok (mkPopped fin (Some (mkStreamFrame (ss_streamID s) fin true (Stream_Offset frame) data))
                (negb (bool_decide (dataForWriting s = None))) [], s, conn)
  end.

Definition popStreamFrame (s : sendStream) (conn : baseFlowController) (maxBytes : Z)
    : outcome (option StreamFrame * bool * list sender_call * sendStream * baseFlowController) :=
  '(r, s, conn) ← popStreamFrameImpl s conn maxBytes;
  Ok (popped_frame r, popped_more r,
      popped_calls r ++ (if popped_completed r then [OnStreamCompleted (ss_streamID s)] else []), s, conn).

Definition hasData (s : sendStream) : bool := 0 <? len (default [] (dataForWriting s)).

(** ** Closing and cancelling *)

Definition send_Close (s : sendStream) : sendStream * list sender_call * option go_error :=
  if canceledWrite s then
    (s, [], Some (Errorf "Close called for canceled stream %d" [ss_streamID s]))
  else (set_ctxDone (set_finishedWriting s true) true, [OnHasStreamData (ss_streamID s)], None).

(** Whether the stream is completed, the calls and the error. *)
Definition cancelWriteImpl (s : sendStream) (errorCode : Z) (writeErr : go_error)
    : bool * list sender_call * sendStream * option go_error :=
  if canceledWrite s then (false, [], s, None)
  else if finishedWriting s then
    (false, [], s, Some (Errorf "CancelWrite for closed stream %d" [ss_streamID s]))
  else
    let s := signalWrite (set_cancelWriteErr (set_canceledWrite s true) (Some writeErr)) in
    (true, [QueueControlFrame (ResetStream (mkResetStreamFrame (ss_streamID s) errorCode (writeOffset s)))],
     set_ctxDone s true, None).

Definition CancelWrite (s : sendStream) (errorCode : Z) : sendStream * list sender_call * option go_error :=
  let '(completed, calls, s, err) :=
    cancelWriteImpl s errorCode
      (Errorf "Write on stream %d canceled with error code %d" [ss_streamID s; errorCode]) in
  (s, calls ++ (if completed then [OnStreamCompleted (ss_streamID s)] else []), err).

Definition handleStopSendingFrameImpl (s : sendStream) (f : StopSendingFrame)
    : bool * list sender_call * sendStream :=
  let writeErr := Errorf "Stream %d was reset with error code %d" [ss_streamID s; StopSending_ErrorCode f] in
  let '(completed, calls, s, _) := cancelWriteImpl s errorCodeStopping writeErr in
  (completed, calls, s).

Definition handleStopSendingFrame (s : sendStream) (f : StopSendingFrame) : sendStream * list sender_call :=
  let '(completed, calls, s) := handleStopSendingFrameImpl s f in
  (s, calls ++ (if completed then [OnStreamCompleted (ss_streamID s)] else [])).

Definition handleMaxStreamDataFrame (s : sendStream) (f : MaxStreamDataFrame) : sendStream * list sender_call :=
  let fc := ss_flowController s in
  let s := set_ss_flowController s (with_base fc (UpdateSendWindow (base fc) (MaxStreamData_ByteOffset f))) in
  (s, if bool_decide (dataForWriting s = None) then [] else [OnHasStreamData (ss_streamID s)]).

(** [None] if the call never returns. *)
Definition SetWriteDeadline (s : sendStream) (t : Z) : option sendStream :=
  let s := set_ss_deadline s t in
  if t =? 0 then Some (signalWrite s)
  else match rearm (ss_deadlineTimer s) t with
       | Some timer => Some (set_ss_deadlineTimer s (Some timer))
       | None => None
       end.

Definition send_closeForShutdown (s : sendStream) (err : go_error) : sendStream :=
  set_ctxDone (signalWrite (set_ss_closeForShutdownErr (set_ss_closedForShutdown s true) (Some err))) true.

(** ** Lemmas: taking a frame from the stream *)

Definition window_ok (c : baseFlowController) : Prop := 0 <= bytesSent c <= sendWindow c /\ sendWindow c < 2 ^ 62.

Record ss_ok (s : sendStream) (conn : baseFlowController) : Prop := {
  so_id : is_varint (ss_streamID s);
  so_fc : window_ok (base (ss_flowController s));
  so_conn : window_ok conn;
  so_offset : writeOffset s = bytesSent (base (ss_flowController s));
  so_data : forall d, dataForWriting s = Some d -> small_data d /\ d <> [] }.

(** The fields that sending does not change. *)
Definition ss_core (s : sendStream) :=
  (ss_streamID s, cancelWriteErr s, ss_closeForShutdownErr s, ss_closedForShutdown s,
   finishedWriting s, canceledWrite s, ss_deadline s, ctxDone s, sendWindow (base (ss_flowController s))).

Definition frame_data (f : option StreamFrame) : list Z :=
  match f with Some f => Stream_Data f | None => [] end.

Record popped (s : sendStream) (maxBytes : Z) (completed : bool) (frame : option StreamFrame)
    (s' : sendStream) (conn' : baseFlowController) : Prop := {
  po_ok : ss_ok s' conn';
  po_core : ss_core s' = ss_core s;
  po_data : default [] (dataForWriting s) = frame_data frame ++ default [] (dataForWriting s');
  po_offset : writeOffset s' = writeOffset s + len (frame_data frame);
  po_none : dataForWriting s = None -> dataForWriting s' = None;
  po_signal : writeSignal s = true \/ (dataForWriting s <> None /\ dataForWriting s' = None) ->
    writeSignal s' = true;
  po_fin : finSent s' = finSent s || completed;
  po_frame : match frame with
    | None => completed = false
    | Some f => f = mkStreamFrame (ss_streamID s) completed true (writeOffset s) (Stream_Data f)
        /\ (Stream_Data f <> [] \/ completed = true)
        /\ (completed = true <-> finishedWriting s = true /\ dataForWriting s' = None /\ finSent s = false)
        /\ exists l, StreamFrame_Length f = Ok l /\ l <= maxBytes
    end }.

Lemma SendWindowSize_range fc conn : window_ok (base fc) -> window_ok conn ->
  0 <= SendWindowSize fc conn
  /\ bytesSent (base fc) + SendWindowSize fc conn <= sendWindow (base fc)
  /\ bytesSent conn + SendWindowSize fc conn <= sendWindow conn.
Proof.
  intros [H1 H2] [H3 H4]. unfold SendWindowSize, sendWindowSize. rewrite MinByteCount_min.
  rewrite !(proj2 (Z.ltb_ge _ _)), !sub64_small by lia. lia.
Qed.

(** The frames within [maxBytes]: with data that fits, or only a FIN. *)
Lemma frame_fits id fin off d maxBytes n : is_varint id -> is_varint off -> 0 <= maxBytes < 2 ^ 14 ->
  StreamFrame_MaxDataLen (mkStreamFrame id false true off []) maxBytes = Ok n -> n <> 0 ->
  small_data d -> len d <= n ->
  exists l, StreamFrame_Length (mkStreamFrame id fin true off d) = Ok l /\ l <= maxBytes.
Proof.
  intros Hid Hoff Hm E Hn Hd Hle. set (f := mkStreamFrame id fin true off []).
  rewrite StreamFrame_MaxDataLen_fit in E by done. injection E as <-.
  pose proof (stream_header_range f). pose proof (StreamFrame_Length_with f d Hid Hoff Hd) as E.
  cbn [Stream_DataLenPresent f] in E. change (stream_with f d) with (mkStreamFrame id fin true off d) in E.
  eexists. split; [exact E |].
  change (stream_header_len (mkStreamFrame id false true off [])) with (stream_header_len f) in *.
  cbn [Stream_DataLenPresent] in *.
  destruct (decide (d = [])) as [-> | Hne].
  - rewrite len_nil. change (vlen 0) with 1. revert Hn. unfold fit. case_cmp; lia.
  - apply (fit_spec true (stream_header_len f) maxBytes (len d)) in Hle; [done | lia | lia |].
    by apply small_data_nonempty.
Qed.

Lemma small_data_cut n d : small_data d -> small_data (take_z n d) /\ small_data (drop_z n d).
Proof. intros H. rewrite <- (take_drop_z n d) in H. by apply small_data_app. Qed.

Lemma AddBytesSent_ok c n : window_ok c -> 0 <= n -> bytesSent c + n <= sendWindow c ->
  window_ok (AddBytesSent c n) /\ bytesSent (AddBytesSent c n) = bytesSent c + n
  /\ sendWindow (AddBytesSent c n) = sendWindow c.
Proof.
  intros [H1 H2] Hn Hle. unfold window_ok, AddBytesSent. cbn [bytesSent sendWindow].
  rewrite add64_small by lia. lia.
Qed.

Record got_data (s : sendStream) (m : Z) (d : list Z) (fin : bool) (s' : sendStream)
    (conn' : baseFlowController) : Prop := {
  gd_ok : ss_ok s' conn';
  gd_core : ss_core s' = ss_core s;
  gd_data : default [] (dataForWriting s) = d ++ default [] (dataForWriting s');
  gd_offset : writeOffset s' = writeOffset s + len d;
  gd_none : dataForWriting s = None -> dataForWriting s' = None;
  gd_signal : writeSignal s = true \/ (dataForWriting s <> None /\ dataForWriting s' = None) ->
    writeSignal s' = true;
  gd_finSent : finSent s' = finSent s;
  gd_fin : fin = finishedWriting s && bool_decide (dataForWriting s' = None) && negb (finSent s);
  gd_len : len d <= m /\ small_data d }.

(** The stream after [n] bytes were taken, leaving [rest]. *)
Lemma sent_ok s conn rest sig n : ss_ok s conn -> 0 <= n <= SendWindowSize (ss_flowController s) conn ->
  (forall d, rest = Some d -> small_data d /\ d <> []) ->
  let s1 := set_writeSignal (set_dataForWriting s rest) sig in
  ss_ok (set_ss_flowController (set_writeOffset s1 (writeOffset s +64 n))
           (with_base (ss_flowController s) (AddBytesSent (base (ss_flowController s)) n)))
    (AddBytesSent conn n)
  /\ writeOffset s +64 n = writeOffset s + n
  /\ sendWindow (AddBytesSent (base (ss_flowController s)) n) = sendWindow (base (ss_flowController s)).
Proof.
  intros [Hid Hfc Hc Ho Hd] Hn Hrest s1.
  destruct (SendWindowSize_range _ _ Hfc Hc) as (H0 & H1 & H2).
  destruct (AddBytesSent_ok (base (ss_flowController s)) n) as (F1 & F2 & F3); [done | lia | lia |].
  destruct (AddBytesSent_ok conn n) as (C1 & C2 & C3); [done | lia | lia |].
  destruct Hfc as [Hb1 Hb2].
  assert (E : writeOffset s +64 n = writeOffset s + n) by (rewrite Ho, add64_small; lia).
  split_and!; [| done | done].
  constructor; cbn -[AddBytesSent add64]; rewrite ?E; try done. by rewrite Ho, F2.
Qed.

Lemma got_nothing s conn m fin : ss_ok s conn -> 0 <= m ->
  fin = finishedWriting s && bool_decide (dataForWriting s = None) && negb (finSent s) ->
  got_data s m [] fin s conn.
Proof.
  intros Hok Hm Hfin. constructor; try done; rewrite ?len_nil.
  - lia.
  - by intros [? | [? ?]].
Qed.

Lemma getData_ok s conn m : ss_ok s conn -> 0 < m ->
  let '(d, fin, s', conn') := getDataForWriting s conn m in got_data s m d fin s' conn'.
Proof.
  intros Hok Hm. unfold getDataForWriting. destruct (dataForWriting s) as [data |] eqn:Ed.
  2: { apply got_nothing; [done | lia |]. by rewrite Ed, bool_decide_true, andb_true_r. }
  pose proof Hok as [Hid Hfc Hc Ho Hd]. destruct (Hd data Ed) as [Hsm Hne].
  destruct (SendWindowSize_range _ _ Hfc Hc) as (H0 & H1 & H2). rewrite MinByteCount_min.
  set (k := Z.min m _). destruct (Z.eqb_spec k 0) as [Hk | Hk].
  { apply got_nothing; [done | lia |]. by rewrite Ed, bool_decide_false, andb_false_r. }
  pose proof (small_data_nonempty data Hsm Hne) as Hlen.
  destruct (Z.ltb_spec k (len data)) as [Hlt | Hge].
  - assert (Hlk : len (take_z k data) = k) by (apply len_take_z; lia).
    destruct (small_data_cut k data Hsm) as [Hs1 Hs2].
    destruct (sent_ok s conn (Some (drop_z k data)) (writeSignal s) k Hok) as (S1 & S2 & S3); [lia | |].
    { intros d [= <-]. split; [done |]. intros E.
      rewrite <- (take_drop_z k data), E, app_nil_r in Hlt. lia. }
    cbn -[add64 AddBytesSent take_z drop_z len]. rewrite Hlk. constructor; rewrite ?Ed; cbn -[add64 AddBytesSent take_z drop_z len]; try done.
    + by rewrite take_drop_z.
    + by rewrite S2, Hlk.
    + by intros [? | [_ ?]].
    + split; [lia | done].
  - destruct (sent_ok s conn None true (len data) Hok) as (S1 & S2 & S3); [lia | done |].
    cbn -[add64 AddBytesSent take_z drop_z len]. constructor; rewrite ?Ed; cbn -[add64 AddBytesSent take_z drop_z len]; try done.
    + by rewrite app_nil_r.
    + split; [lia | done].
Qed.

Lemma IsNewlyBlocked_same c blocked off c' : IsNewlyBlocked c = (blocked, off, c') ->
  bytesSent c' = bytesSent c /\ sendWindow c' = sendWindow c.
Proof. unfold IsNewlyBlocked. case_match; intros [= <- <- <-]; done. Qed.

Lemma popImpl_ok s conn maxBytes : ss_ok s conn -> 0 <= maxBytes < 2 ^ 14 ->
  exists r s' conn', popStreamFrameImpl s conn maxBytes = Ok (r, s', conn')
    /\ popped s maxBytes (popped_completed r) (popped_frame r) s' conn'.
Proof.
  intros Hok Hm. unfold popStreamFrameImpl. pose proof Hok as [Hid [Hf1 Hf2] Hc Ho Hd].
  assert (Hstay : forall fc, bytesSent (base fc) = bytesSent (base (ss_flowController s)) ->
    sendWindow (base fc) = sendWindow (base (ss_flowController s)) ->
    popped s maxBytes false None (set_ss_flowController s fc) conn).
  { intros fc E1 E2. constructor; cbn -[Z.add len frame_data]; try done; cbn [frame_data]; rewrite ?len_nil.
    - constructor; cbn; try done; [unfold window_ok; lia | lia].
    - unfold ss_core. cbn. by rewrite E2.
    - lia.
    - by intros [? | [? ?]].
    - by rewrite orb_false_r. }
  assert (Hsame : popped s maxBytes false None s conn).
  { specialize (Hstay (ss_flowController s) eq_refl eq_refl). by destruct s. }
  destruct (ss_closeForShutdownErr s); [by eexists _, _, _ |].
  assert (Hov : is_varint (writeOffset s)) by (unfold is_varint, maxVarInt8; lia).
  set (frame := mkStreamFrame _ _ _ _ _).
  pose proof (StreamFrame_MaxDataLen_fit frame maxBytes Hid Hov Hm) as En. rewrite En.
  pose proof (stream_header_range frame).
  pose proof (fit_range (Stream_DataLenPresent frame) (stream_header_len frame) maxBytes ltac:(lia) ltac:(lia)) as Hr.
  set (n := fit _ _ _) in *.
  cbn [mbind outcome_bind]. destruct (Z.eqb_spec n 0) as [| Hn]; [by eexists _, _, _ |].
  pose proof (getData_ok s conn n Hok ltac:(lia)) as Hg.
  destruct (getDataForWriting s conn n) as [[[data fin] s1] conn1].
  destruct Hg as [G1 G2 G3 G4 G5 G6 G7 G8 [G9 G10]].
  destruct ((len data =? 0) && negb fin) eqn:Hnone.
  - bool_to_prop. assert (data = []) as -> by (by apply len_zero). subst fin.
    assert (Hp : popped s maxBytes false None s1 conn1).
    { constructor; try done. by rewrite G7, orb_false_r. }
    destruct (bool_decide (dataForWriting s1 = None)); [by eexists _, _, _ |].
    destruct (IsNewlyBlocked _) as [[blocked off] b] eqn:Eb. apply IsNewlyBlocked_same in Eb as [Eb1 Eb2].
    assert (Hp' : popped s maxBytes false None (set_ss_flowController s1 (with_base (ss_flowController s1) b)) conn1).
    { destruct Hp as [[Q1 Q2 Q3 Q4 Q5] P2 P3 P4 P5 P6 P7 P8]. constructor; cbn; try done.
      - constructor; cbn; try done; [unfold window_ok; by rewrite Eb1, Eb2 | by rewrite Eb1].
      - rewrite <- P2. unfold ss_core. cbn. by rewrite Eb2. }
    destruct blocked; by eexists _, _, _.
  - eexists _, _, _. split; [reflexivity |]. cbn [popped_completed popped_frame].
    assert (Hid' : ss_streamID s1 = ss_streamID s) by (unfold ss_core in G2; congruence).
    constructor; cbn [frame_data Stream_Data]; try (by destruct fin).
    + destruct G1, fin; constructor; done.
    + destruct fin; cbn; [by rewrite orb_true_r | by rewrite G7, orb_false_r].
    + assert (Hsid : ss_streamID (if fin then set_finSent s1 true else s1) = ss_streamID s) by (by destruct fin).
      rewrite Hsid. split_and!.
      * done.
      * destruct fin; [by right | left]. intros ->. done.
      * assert (Hd1 : dataForWriting (if fin then set_finSent s1 true else s1) = dataForWriting s1)
          by (by destruct fin).
        rewrite Hd1, G8, !andb_true_iff, bool_decide_eq_true, negb_true_iff. tauto.
      * by apply (frame_fits _ fin _ data maxBytes n).
Qed.

(** ** The stream in use

    The application calls [Write], one call at a time, the session everything
    else, in any order.  [sy_writer] is the slice of a [Write] that waits, and
    whether it waits for the timer as well, [sy_sent] the frames sent so far, and [sy_done] the slices of the calls of
    [Write] that have returned, with the number of bytes they reported. *)
Record ss_sys : Type := mkSys {
  sy_s : sendStream;
  sy_conn : baseFlowController;
  sy_writer : option (list Z * bool);
  sy_sent : list StreamFrame;
  sy_done : list (list Z * Z) }.

Definition returned (p : list Z) (r : option (Z * option go_error)) : list (list Z * Z) :=
  match r with Some (n, _) => [(p, n)] | None => [] end.
Definition waiting (s : sendStream) (p : list Z) (r : option (Z * option go_error)) : option (list Z * bool) :=
  match r with Some _ => None | None => Some (p, negb (ss_deadline s =? 0)) end.

Inductive ss_step : ss_sys -> ss_sys -> Prop :=
  | step_write s conn sent done p now s' calls r : small_data p -> stream_Write s p now = (s', calls, r) ->
      ss_step (mkSys s conn None sent done) (mkSys s' conn (waiting s' p r) sent (done ++ returned p r))
  | step_wake s conn sent done p (select byTimer : bool) now s' r :
      (if byTimer then select = true /\ ss_deadlineTimer s = Some TimerFired else writeSignal s = true) ->
      write_wake s byTimer (len p) now = (s', r) ->
      ss_step (mkSys s conn (Some (p, select)) sent done) (mkSys s' conn (waiting s' p r) sent (done ++ returned p r))
  | step_pop s conn w sent done maxBytes frame more calls s' conn' : 0 <= maxBytes < 2 ^ 14 ->
      popStreamFrame s conn maxBytes = Ok (frame, more, calls, s', conn') ->
      ss_step (mkSys s conn w sent done) (mkSys s' conn' w (sent ++ option_list frame) done)
  | step_close s conn w sent done s' calls err : send_Close s = (s', calls, err) ->
      ss_step (mkSys s conn w sent done) (mkSys s' conn w sent done)
  | step_cancel s conn w sent done code s' calls err : CancelWrite s code = (s', calls, err) ->
      ss_step (mkSys s conn w sent done) (mkSys s' conn w sent done)
  | step_stop s conn w sent done f s' calls : handleStopSendingFrame s f = (s', calls) ->
      ss_step (mkSys s conn w sent done) (mkSys s' conn w sent done)
  | step_max_data s conn w sent done f s' calls : 0 <= MaxStreamData_ByteOffset f < 2 ^ 62 ->
      handleMaxStreamDataFrame s f = (s', calls) ->
      ss_step (mkSys s conn w sent done) (mkSys s' conn w sent done)
  | step_deadline s conn w sent done t s' : SetWriteDeadline s t = Some s' ->
      ss_step (mkSys s conn w sent done) (mkSys s' conn w sent done)
  | step_fire s conn w sent done t : ss_deadlineTimer s = Some (TimerArmed t) ->
      ss_step (mkSys s conn w sent done) (mkSys (set_ss_deadlineTimer s (Some TimerFired)) conn w sent done)
  | step_shutdown s conn w sent done err :
      ss_step (mkSys s conn w sent done) (mkSys (send_closeForShutdown s err) conn w sent done)
  | step_conn s conn w sent done conn' : window_ok conn' ->
      ss_step (mkSys s conn w sent done) (mkSys s conn' w sent done).

Inductive ss_reach (id : Z) (fc : streamFlowController) : ss_sys -> Prop :=
  | reach_new conn : window_ok conn -> ss_reach id fc (mkSys (newSendStream id fc) conn None [] [])
  | reach_step x y : ss_reach id fc x -> ss_step x y -> ss_reach id fc y.

Definition sent_data (sent : list StreamFrame) : list Z := concat (Stream_Data <$> sent).

(** What the calls of [Write] have accepted: the bytes they reported, and of
    the waiting call those that have been taken from it. *)
Definition written (x : ss_sys) : list Z :=
  concat ((fun '(p, n) => take_z n p) <$> sy_done x)
  ++ match sy_writer x with
     | Some (p, _) => take_z (len p - len (default [] (dataForWriting (sy_s x)))) p
     | None => []
     end.

(** Frames at consecutive offsets; only the last one may have the FIN bit. *)
Inductive sequence (id : Z) : list StreamFrame -> bool -> Prop :=
  | seq_nil : sequence id [] false
  | seq_snoc sent f fin : sequence id sent false -> f = mkStreamFrame id fin true (len (sent_data sent)) (Stream_Data f) ->
      Stream_Data f <> [] \/ fin = true -> sequence id (sent ++ [f]) fin.

Record sys_inv (id : Z) (x : ss_sys) : Prop := {
  sv_ok : ss_ok (sy_s x) (sy_conn x);
  sv_id : ss_streamID (sy_s x) = id;
  sv_offset : writeOffset (sy_s x) = len (sent_data (sy_sent x));
  sv_seq : sequence id (sy_sent x) (finSent (sy_s x));
  sv_fin : finSent (sy_s x) = true -> finishedWriting (sy_s x) = true /\ dataForWriting (sy_s x) = None;
  sv_closed : ss_closedForShutdown (sy_s x) = true -> ss_closeForShutdownErr (sy_s x) <> None;
  sv_writer : match sy_writer x with
    | Some (p, _) => exists q, p = q ++ default [] (dataForWriting (sy_s x))
    | None => dataForWriting (sy_s x) = None \/ canceledWrite (sy_s x) = true \/ ss_closedForShutdown (sy_s x) = true
    end;
  sv_data : canceledWrite (sy_s x) = false -> sent_data (sy_sent x) = written x;
  sv_wake : sy_writer x <> None ->
    dataForWriting (sy_s x) = None \/ canceledWrite (sy_s x) = true \/ ss_closedForShutdown (sy_s x) = true ->
    writeSignal (sy_s x) = true }.

Lemma take_sent (q d : list Z) : take_z (len (q ++ d) - len d) (q ++ d) = q.
Proof. rewrite len_app. replace (len q + len d - len d) with (len q) by lia. apply take_z_app. Qed.

Lemma sent_data_snoc sent frame : sent_data (sent ++ option_list frame) = sent_data sent ++ frame_data frame.
Proof.
  unfold sent_data. rewrite fmap_app, concat_app. destruct frame; cbn; by rewrite ?app_nil_r.
Qed.

Lemma pop_closed s conn maxBytes r s' conn' : ss_closeForShutdownErr s <> None ->
  popStreamFrameImpl s conn maxBytes = Ok (r, s', conn') -> popped_frame r = None.
Proof. intros Hc. unfold popStreamFrameImpl. destruct (ss_closeForShutdownErr s); [by intros [= <- _ _] | done]. Qed.

Lemma step_pop_inv id s conn w sent done maxBytes frame more calls s' conn' :
  sys_inv id (mkSys s conn w sent done) -> 0 <= maxBytes < 2 ^ 14 ->
  popStreamFrame s conn maxBytes = Ok (frame, more, calls, s', conn') ->
  sys_inv id (mkSys s' conn' w (sent ++ option_list frame) done).
Proof.
  intros [I1 I2 I3 I4 I5 I6 I7 I8 I9] Hm E. cbn [sy_s sy_conn sy_writer sy_sent sy_done] in *. unfold popStreamFrame in E.
  destruct (popImpl_ok s conn maxBytes I1 Hm) as (r & s1 & conn1 & E1 & P). rewrite E1 in E. cbn in E.
  injection E as <- <- <- <- <-.
  assert (Hcl : ss_closedForShutdown s = true -> popped_frame r = None)
    by (intros Hc; apply (pop_closed s conn maxBytes r s1 conn1); auto).
  destruct r as [completed frame more' calls'].
  cbn [popped_completed popped_frame popped_more popped_calls] in *. destruct P as [P1 P2 P3 P4 P5 P6 P7 P8].
  unfold ss_core in P2. injection P2 as C1 C2 C3 C4 C5 C6 C7 C8 C9.
  assert (Hd : forall q, q ++ default [] (dataForWriting s) = (q ++ frame_data frame) ++ default [] (dataForWriting s1))
    by (intros q; by rewrite P3, app_assoc).
  assert (Hnofin : frame <> None -> finSent s = false).
  { intros Hf. destruct (finSent s); [| done]. destruct (I5 eq_refl) as [_ Hn]. rewrite Hn in P3.
    symmetry in P3. apply app_nil in P3 as [P3 _]. destruct frame as [f |]; [| done]. cbn in P3.
    destruct P8 as (_ & Hne & Hfin & _). destruct Hne as [Hne | ->]; [done |].
    by apply Hfin. }
  constructor; cbn [sy_s sy_conn sy_writer sy_sent sy_done]; rewrite ?C1, ?C4, ?C5, ?C6; try done.
  - rewrite sent_data_snoc, len_app. lia.
  - rewrite P7. destruct frame as [f |]; cbn; [| by rewrite app_nil_r, P8, orb_false_r].
    destruct P8 as (Hf & Hne & _). rewrite (Hnofin ltac:(done)) in I4 |- *. cbn [orb].
    constructor; [done | by rewrite <- I2, <- I3 | done].
  - rewrite P7. intros Hf. apply orb_true_iff in Hf as [Hf | ->].
    + destruct (I5 Hf) as [? ?]. auto.
    + destruct frame; [| done]. destruct P8 as (_ & _ & Hfin & _). destruct Hfin as [Hfin _].
      destruct (Hfin eq_refl) as (? & ? & _). done.
  - rewrite C3. done.
  - destruct w as [[p ?] |]; [| destruct I7 as [? | [? | ?]]; auto].
    destruct I7 as [q ->]. eexists. apply Hd.
  - intros Hc. specialize (I8 Hc). rewrite sent_data_snoc, I8. unfold written. cbn. rewrite <- app_assoc. f_equal.
    destruct w as [[p ?] |].
    + destruct I7 as [q ->]. rewrite take_sent. rewrite Hd. by rewrite take_sent.
    + destruct I7 as [Hn | [Hn | Hn]]; [| congruence | by rewrite Hcl].
      rewrite Hn in P3. symmetry in P3. by apply app_nil in P3 as [-> _].
  - intros Hw Hor. apply P6. destruct Hor as [Hn | Hn]; [| left; apply I9; auto].
    destruct (dataForWriting s) eqn:Ed; [right; done | left; apply I9; auto].
Qed.

Lemma written_returned conn p sent done n s' :
  written (mkSys s' conn None sent (done ++ [(p, n)]))
  = concat ((fun '(p, n) => take_z n p) <$> done) ++ take_z n p.
Proof.
  unfold written. cbn [sy_done sy_writer]. rewrite fmap_app, concat_app. cbn.
  by rewrite !app_nil_r.
Qed.

Lemma write_turn_inv id s conn sent done p select now s' r :
  sys_inv id (mkSys (set_writeSignal s true) conn (Some (p, select)) sent done) ->
  write_turn s (len p) now = (s', r) ->
  sys_inv id (mkSys s' conn (waiting s' p r) sent (done ++ returned p r)).
Proof.
  intros Hi. pose proof Hi as [[J1 J2 J3 J4 J5] I2 I3 I4 I5 I6 I7 I8 I9].
  cbn [sy_s sy_conn sy_writer sy_sent sy_done] in *. destruct I7 as [q Hq].
  unfold write_turn. set (n := len p - _).
  assert (Hw : canceledWrite s = false -> forall s', sent_data sent = written (mkSys s' conn None sent (done ++ [(p, n)]))).
  { intros Hc s2. rewrite written_returned by done. rewrite (I8 Hc). done. }
  destruct (deadline_passed (ss_deadline s) now); [intros [= <- <-] |].
  { constructor; cbn [sy_s sy_conn sy_writer sy_sent sy_done waiting returned];
      [by constructor | done | done | done | | done | by left | intros Hc; by apply Hw | done].
    intros Hf. split; [by apply I5 | done]. }
  destruct (bool_decide (dataForWriting s = None) || canceledWrite s || ss_closedForShutdown s) eqn:Eb;
    intros [= <- <-].
  - constructor; cbn [sy_s sy_conn sy_writer sy_sent sy_done waiting returned];
      [by constructor | done | done | done | done | done | | intros Hc; by apply Hw | done].
    apply orb_true_iff in Eb as [[Eb%bool_decide_eq_true | Eb]%orb_true_iff | Eb]; auto.
  - rewrite app_nil_r. constructor; cbn [sy_s sy_conn sy_writer sy_sent sy_done waiting returned];
      [by constructor | done | done | done | done | done | by exists q | done |].
    intros _ Hor. apply orb_false_iff in Eb as [[Eb%bool_decide_eq_false Ec]%orb_false_iff Ecl].
    destruct Hor as [? | [? | ?]]; congruence.
Qed.

Lemma written_zero s conn p sent done : written (mkSys s conn None sent (done ++ [(p, 0)]))
  = written (mkSys s conn None sent done).
Proof.
  rewrite written_returned. unfold written. cbn [sy_done sy_writer]. by change (take_z 0 p) with (@nil Z).
Qed.

Lemma write_refused id s conn sent done p :
  sys_inv id (mkSys s conn None sent done) -> sys_inv id (mkSys s conn None sent (done ++ [(p, 0)])).
Proof.
  intros [I1 I2 I3 I4 I5 I6 I7 I8 I9]. cbn [sy_s sy_conn sy_writer sy_sent sy_done] in *.
  constructor; cbn [sy_s sy_conn sy_writer sy_sent sy_done]; try done. by rewrite written_zero.
Qed.

Lemma step_write_inv id s conn sent done p now s' calls r :
  sys_inv id (mkSys s conn None sent done) -> small_data p -> stream_Write s p now = (s', calls, r) ->
  sys_inv id (mkSys s' conn (waiting s' p r) sent (done ++ returned p r)).
Proof.
  intros Hi Hp. unfold stream_Write.
  destruct (finishedWriting s) eqn:Ef; [intros [= <- <- <-]; by apply write_refused |].
  destruct (canceledWrite s) eqn:Ec; [intros [= <- <- <-]; by apply write_refused |].
  destruct (ss_closeForShutdownErr s) eqn:Ee; [intros [= <- <- <-]; by apply write_refused |].
  destruct (deadline_passed _ _); [intros [= <- <- <-]; by apply write_refused |].
  destruct (Z.eqb_spec (len p) 0) as [| Hne]; [intros [= <- <- <-]; by apply write_refused |].
  destruct (write_turn _ _ _) as [s1 r1] eqn:Et. intros [= <- <- <-].
  eapply (write_turn_inv _ _ _ _ _ _ false); [| exact Et].
  destruct Hi as [[J1 J2 J3 J4 J5] I2 I3 I4 I5 I6 I7 I8 I9].
  cbn [sy_s sy_conn sy_writer sy_sent sy_done] in *.
  assert (Hn : dataForWriting s = None).
  { destruct I7 as [? | [? | Hc]]; [done | congruence |]. by apply I6 in Hc. }
  constructor; cbn [sy_s sy_conn sy_writer sy_sent sy_done]; try done.
  - constructor; try done. cbn. intros d [= <-]. split; [done |]. by intros ->.
  - intros Hf. cbn in Hf. apply I5 in Hf. by destruct Hf; congruence.
  - by exists [].
  - intros _. rewrite (I8 Ec). unfold written. cbn [sy_done sy_writer sy_s]. cbn -[take_z len].
    rewrite Z.sub_diag. by rewrite !app_nil_r.
Qed.

Lemma step_wake_inv id s conn sent done p select byTimer now s' r :
  sys_inv id (mkSys s conn (Some (p, select)) sent done) -> write_wake s byTimer (len p) now = (s', r) ->
  sys_inv id (mkSys s' conn (waiting s' p r) sent (done ++ returned p r)).
Proof.
  intros [[J1 J2 J3 J4 J5] I2 I3 I4 I5 I6 I7 I8 I9] E. eapply (write_turn_inv _ _ _ _ _ _ select); [| exact E].
  cbn [sy_s sy_conn sy_writer sy_sent sy_done] in *.
  destruct byTimer; constructor; cbn [sy_s sy_conn sy_writer sy_sent sy_done]; first [done | by constructor].
Qed.

(** The other calls leave the data alone, and signal a waiting writer when
    they end its wait. *)
Lemma quiet_inv id s s' conn conn' w sent done : sys_inv id (mkSys s conn w sent done) ->
  ss_ok s' conn' -> ss_streamID s' = ss_streamID s -> writeOffset s' = writeOffset s ->
  finSent s' = finSent s -> dataForWriting s' = dataForWriting s ->
  (finishedWriting s = true -> finishedWriting s' = true) ->
  (ss_closedForShutdown s' = true -> ss_closeForShutdownErr s' <> None) ->
  (canceledWrite s = true -> canceledWrite s' = true) ->
  (ss_closedForShutdown s = true -> ss_closedForShutdown s' = true) ->
  writeSignal s' = true \/ (canceledWrite s' = canceledWrite s
    /\ ss_closedForShutdown s' = ss_closedForShutdown s /\ writeSignal s' = writeSignal s) ->
  sys_inv id (mkSys s' conn' w sent done).
Proof.
  intros [I1 I2 I3 I4 I5 I6 I7 I8 I9] Hok Eid Eo Efs Ed Hfw Hce Hcw Hcl Hsig.
  cbn [sy_s sy_conn sy_writer sy_sent sy_done] in *.
  constructor; cbn [sy_s sy_conn sy_writer sy_sent sy_done]; rewrite ?Eid, ?Eo, ?Efs, ?Ed; try done.
  - intros Hf. destruct (I5 Hf). auto.
  - destruct w; [done |]. destruct I7 as [? | [? | ?]]; auto.
  - intros Hc. unfold written. cbn [sy_done sy_writer sy_s]. rewrite Ed. apply I8.
    destruct (canceledWrite s); [| done]. by rewrite Hcw in Hc.
  - intros Hw Hor. destruct Hsig as [| (E1 & E2 & ->)]; [done |]. rewrite E1, E2 in Hor. auto.
Qed.

Lemma cancel_inv id s conn w sent done code err completed calls s' e : sys_inv id (mkSys s conn w sent done) ->
  cancelWriteImpl s code err = (completed, calls, s', e) -> sys_inv id (mkSys s' conn w sent done).
Proof.
  intros Hi. unfold cancelWriteImpl. destruct (canceledWrite s); [by intros [= <- <- <- <-] |].
  destruct (finishedWriting s); [by intros [= <- <- <- <-] |]. intros [= <- <- <- <-].
  pose proof Hi as [[] ? ? ? ? ? ? ? ?]. cbn in *. eapply quiet_inv; cbn; eauto. by constructor.
Qed.

Lemma UpdateSendWindow_window c off : window_ok c -> off < 2 ^ 62 ->
  window_ok (UpdateSendWindow c off) /\ bytesSent (UpdateSendWindow c off) = bytesSent c.
Proof.
  unfold window_ok, UpdateSendWindow. intros Hc Ho. destruct (Z.ltb_spec (sendWindow c) off); [| done].
  cbn [bytesSent sendWindow]. lia.
Qed.

Lemma ss_step_inv id x y : sys_inv id x -> ss_step x y -> sys_inv id y.
Proof.
  intros Hi Hst. destruct Hst.
  - by eapply step_write_inv.
  - by eapply step_wake_inv.
  - by eapply step_pop_inv.
  - unfold send_Close in H. destruct (canceledWrite s); injection H as <- <- <-; [done |].
    pose proof Hi as [[] ? ? ? ? ? ? ? ?]. cbn in *. eapply quiet_inv; cbn; eauto. by constructor.
  - unfold CancelWrite in H. destruct (cancelWriteImpl _ _ _) as [[[c l] s1] e] eqn:E. injection H as <- <- <-.
    by eapply cancel_inv.
  - unfold handleStopSendingFrame, handleStopSendingFrameImpl in H.
    destruct (cancelWriteImpl _ _ _) as [[[c l] s1] e] eqn:E. injection H as <- <-. by eapply cancel_inv.
  - unfold handleMaxStreamDataFrame in H0. injection H0 as <- <-.
    pose proof Hi as [[J1 J2 J3 J4 J5] ? ? ? ? ? ? ? ?]. cbn [sy_s sy_conn sy_writer sy_sent sy_done] in *.
    destruct (UpdateSendWindow_window _ (MaxStreamData_ByteOffset f) J2) as [W1 W2]; [lia |].
    eapply quiet_inv; cbn -[UpdateSendWindow]; eauto. constructor; cbn -[UpdateSendWindow]; try done. by rewrite W2.
  - unfold SetWriteDeadline in H. pose proof Hi as [[] ? ? ? ? ? ? ? ?]. cbn in *.
    destruct (t =? 0); [| destruct (rearm (ss_deadlineTimer s) t); [| done]]; injection H as <-; eapply quiet_inv; cbn; eauto; by constructor.
  - pose proof Hi as [[] ? ? ? ? ? ? ? ?]. cbn in *. eapply quiet_inv; cbn; eauto. by constructor.
  - pose proof Hi as [[] ? ? ? ? ? ? ? ?]. cbn in *. eapply quiet_inv; cbn; eauto. by constructor.
  - pose proof Hi as [[] ? ? ? ? ? ? ? ?]. cbn in *. eapply quiet_inv; cbn; eauto. by constructor.
Qed.

Lemma ss_reach_inv id fc x : is_varint id -> 0 <= sendWindow (base fc) < 2 ^ 62 -> bytesSent (base fc) = 0 ->
  ss_reach id fc x -> sys_inv id x.
Proof.
  intros Hid Hw Hb. induction 1 as [conn Hc | x y _ IH Hst]; [| by eapply ss_step_inv].
  constructor; cbn; try done; [| constructor | by left].
  constructor; cbn; try done. unfold window_ok. lia.
Qed.

(** ** Theorems *)

(** With room for a frame and in the windows, pending data is sent. *)
Lemma pop_progress s conn maxBytes : ss_ok s conn -> 128 <= maxBytes < 2 ^ 14 ->
  ss_closeForShutdownErr s = None -> dataForWriting s <> None ->
  0 < SendWindowSize (ss_flowController s) conn ->
  exists r s' conn' f, popStreamFrameImpl s conn maxBytes = Ok (r, s', conn')
    /\ popped_frame r = Some f /\ Stream_Data f <> [].
Proof.
  intros Hok Hm Hc Hd Hw. pose proof Hok as [Hid [Hf1 Hf2] _ Ho Hdata]. unfold popStreamFrameImpl. rewrite Hc.
  set (frame := mkStreamFrame _ _ _ _ _).
  assert (Hov : is_varint (writeOffset s)) by (unfold is_varint, maxVarInt8; lia).
  rewrite (StreamFrame_MaxDataLen_fit frame maxBytes Hid Hov) by lia.
  pose proof (stream_header_range frame) as Hh.
  assert (Hn : 0 < fit (Stream_DataLenPresent frame) (stream_header_len frame) maxBytes).
  { cbn [Stream_DataLenPresent frame]. unfold fit. cbv zeta. case_cmp; cbn [negb]; lia. }
  set (n := fit _ _ _) in *. cbn [mbind outcome_bind]. rewrite (proj2 (Z.eqb_neq n 0)) by lia.
  destruct (dataForWriting s) as [d |] eqn:Ed; [| done]. destruct (Hdata d eq_refl) as [Hsm Hne].
  pose proof (small_data_nonempty d Hsm Hne).
  unfold getDataForWriting. rewrite Ed, MinByteCount_min. set (k := Z.min n _).
  rewrite (proj2 (Z.eqb_neq k 0)) by lia.
  assert (Hres : forall x : list Z, 0 < len x -> (len x =? 0) = false /\ x <> [])
    by (intros x Hx; split; [apply Z.eqb_neq; lia | by intros ->]).
  destruct (Z.ltb_spec k (len d)).
  - destruct (Hres (take_z k d)) as [E1 E2]; [rewrite len_take_z; lia |].
    cbn -[add64 AddBytesSent take_z drop_z len]. rewrite E1. by eexists _, _, _, _.
  - destruct (Hres d) as [E1 E2]; [lia |]. cbn -[add64 AddBytesSent take_z drop_z len]. rewrite E1.
    by eexists _, _, _, _.
Qed.


(** A stream that may send 100 bytes, on a connection that may, too. *)
Definition sample_fc : streamFlowController := NewStreamFlowController 4 1000 1000 100.
Definition sample_conn : baseFlowController :=
  UpdateSendWindow (NewConnectionFlowController 1000 1000) 100.

(** Writing three bytes, while nothing has been sent. *)
Definition sample_writing : sendStream := (stream_Write (newSendStream 4 sample_fc) [1; 2; 3] 5).1.1.

Lemma send_sample : ss_reach 4 sample_fc (mkSys sample_writing sample_conn (Some ([1; 2; 3], false)) [] []).
Proof.
  eapply reach_step; [apply (reach_new 4 sample_fc sample_conn); split; cbn; lia |].
  apply (step_write (newSendStream 4 sample_fc) sample_conn [] [] [1; 2; 3] 5 sample_writing
    [OnHasStreamData 4] None); [split; [solve_bytes | by vm_compute] | reflexivity].
Qed.


(** A cancelled stream still sends: after [CancelWrite] has announced in a
    RESET_STREAM frame that the stream ends at offset 0, the data of the
    [Write] that was waiting is sent at that offset. *)
Theorem data_after_reset :
  let '(s, calls, err) := CancelWrite sample_writing 7 in
  calls = [QueueControlFrame (ResetStream (mkResetStreamFrame 4 7 0)); OnStreamCompleted 4] /\ err = None
  /\ exists s' conn', popStreamFrame s sample_conn 1000
     = Ok (Some (mkStreamFrame 4 false true 0 [1; 2; 3]), false, [], s', conn').
Proof. vm_compute. split_and!; [done | done |]. by eexists _, _. Qed.
