(* ===== verification/ReceiveStream.v ===== *)
(** * The receiving half of a stream (receive_stream.go)

    [Read] of the application and the handlers of the session.  A call of
    [Read] gives up the mutex while it waits and while it copies data; it is
    modelled in pieces between these points, so that everything else may happen
    there.  The theorems relate the data read to the stream the peer sends, for
    every interleaving. *)

From S2P Require Import Prelude Qerr Varint Protocol AckFrame Frames FrameCodec FrameParser FrameSorter.
From S2P Require Import Float FlowControl SendStream.

(** ** The state of a receive stream

    [currentFrame] is [None] for nil, and [readSignal] says whether the channel
    [readChan], of capacity one, is full. *)

Record receiveStream : Type := mkReceiveStream {
  rs_streamID : Z;
  frameQueue : frameSorter;
  readOffset : Z;
  currentFrame : option (list Z);
  currentFrameIsLast : bool;
  readPosInFrame : Z;
  rs_closeForShutdownErr : option go_error;
  cancelReadErr : option go_error;
  resetRemotelyErr : option go_error;
  rs_closedForShutdown : bool;
  finRead : bool;
  canceledRead : bool;
  resetRemotely : bool;
  readSignal : bool;
  rs_deadline : Z;
  rs_deadlineTimer : option timer;
  rs_flowController : streamFlowController }.

Definition set_rs_streamID (s : receiveStream) (x : Z) : receiveStream :=
  mkReceiveStream x (frameQueue s) (readOffset s) (currentFrame s) (currentFrameIsLast s)
    (readPosInFrame s) (rs_closeForShutdownErr s) (cancelReadErr s) (resetRemotelyErr s)
    (rs_closedForShutdown s) (finRead s) (canceledRead s) (resetRemotely s) (readSignal s)
    (rs_deadline s) (rs_deadlineTimer s) (rs_flowController s).
Definition set_frameQueue (s : receiveStream) (x : frameSorter) : receiveStream :=
  mkReceiveStream (rs_streamID s) x (readOffset s) (currentFrame s) (currentFrameIsLast s)
    (readPosInFrame s) (rs_closeForShutdownErr s) (cancelReadErr s) (resetRemotelyErr s)
    (rs_closedForShutdown s) (finRead s) (canceledRead s) (resetRemotely s) (readSignal s)
    (rs_deadline s) (rs_deadlineTimer s) (rs_flowController s).
Definition set_readOffset (s : receiveStream) (x : Z) : receiveStream :=
  mkReceiveStream (rs_streamID s) (frameQueue s) x (currentFrame s) (currentFrameIsLast s)
    (readPosInFrame s) (rs_closeForShutdownErr s) (cancelReadErr s) (resetRemotelyErr s)
    (rs_closedForShutdown s) (finRead s) (canceledRead s) (resetRemotely s) (readSignal s)
    (rs_deadline s) (rs_deadlineTimer s) (rs_flowController s).
Definition set_currentFrame (s : receiveStream) (x : option (list Z)) : receiveStream :=
  mkReceiveStream (rs_streamID s) (frameQueue s) (readOffset s) x (currentFrameIsLast s)
    (readPosInFrame s) (rs_closeForShutdownErr s) (cancelReadErr s) (resetRemotelyErr s)
    (rs_closedForShutdown s) (finRead s) (canceledRead s) (resetRemotely s) (readSignal s)
    (rs_deadline s) (rs_deadlineTimer s) (rs_flowController s).
Definition set_currentFrameIsLast (s : receiveStream) (x : bool) : receiveStream :=
  mkReceiveStream (rs_streamID s) (frameQueue s) (readOffset s) (currentFrame s) x
    (readPosInFrame s) (rs_closeForShutdownErr s) (cancelReadErr s) (resetRemotelyErr s)
    (rs_closedForShutdown s) (finRead s) (canceledRead s) (resetRemotely s) (readSignal s)
    (rs_deadline s) (rs_deadlineTimer s) (rs_flowController s).
Definition set_readPosInFrame (s : receiveStream) (x : Z) : receiveStream :=
  mkReceiveStream (rs_streamID s) (frameQueue s) (readOffset s) (currentFrame s)
    (currentFrameIsLast s) x (rs_closeForShutdownErr s) (cancelReadErr s) (resetRemotelyErr s)
    (rs_closedForShutdown s) (finRead s) (canceledRead s) (resetRemotely s) (readSignal s)
    (rs_deadline s) (rs_deadlineTimer s) (rs_flowController s).
Definition set_rs_closeForShutdownErr (s : receiveStream) (x : option go_error) : receiveStream :=
  mkReceiveStream (rs_streamID s) (frameQueue s) (readOffset s) (currentFrame s)
    (currentFrameIsLast s) (readPosInFrame s) x (cancelReadErr s) (resetRemotelyErr s)
    (rs_closedForShutdown s) (finRead s) (canceledRead s) (resetRemotely s) (readSignal s)
    (rs_deadline s) (rs_deadlineTimer s) (rs_flowController s).
Definition set_cancelReadErr (s : receiveStream) (x : option go_error) : receiveStream :=
  mkReceiveStream (rs_streamID s) (frameQueue s) (readOffset s) (currentFrame s)
    (currentFrameIsLast s) (readPosInFrame s) (rs_closeForShutdownErr s) x (resetRemotelyErr s)
    (rs_closedForShutdown s) (finRead s) (canceledRead s) (resetRemotely s) (readSignal s)
    (rs_deadline s) (rs_deadlineTimer s) (rs_flowController s).
Definition set_resetRemotelyErr (s : receiveStream) (x : option go_error) : receiveStream :=
  mkReceiveStream (rs_streamID s) (frameQueue s) (readOffset s) (currentFrame s)
    (currentFrameIsLast s) (readPosInFrame s) (rs_closeForShutdownErr s) (cancelReadErr s) x
    (rs_closedForShutdown s) (finRead s) (canceledRead s) (resetRemotely s) (readSignal s)
    (rs_deadline s) (rs_deadlineTimer s) (rs_flowController s).
Definition set_rs_closedForShutdown (s : receiveStream) (x : bool) : receiveStream :=
  mkReceiveStream (rs_streamID s) (frameQueue s) (readOffset s) (currentFrame s)
    (currentFrameIsLast s) (readPosInFrame s) (rs_closeForShutdownErr s) (cancelReadErr s)
    (resetRemotelyErr s) x (finRead s) (canceledRead s) (resetRemotely s) (readSignal s)
    (rs_deadline s) (rs_deadlineTimer s) (rs_flowController s).
Definition set_finRead (s : receiveStream) (x : bool) : receiveStream :=
  mkReceiveStream (rs_streamID s) (frameQueue s) (readOffset s) (currentFrame s)
    (currentFrameIsLast s) (readPosInFrame s) (rs_closeForShutdownErr s) (cancelReadErr s)
    (resetRemotelyErr s) (rs_closedForShutdown s) x (canceledRead s) (resetRemotely s)
    (readSignal s) (rs_deadline s) (rs_deadlineTimer s) (rs_flowController s).
Definition set_canceledRead (s : receiveStream) (x : bool) : receiveStream :=
  mkReceiveStream (rs_streamID s) (frameQueue s) (readOffset s) (currentFrame s)
    (currentFrameIsLast s) (readPosInFrame s) (rs_closeForShutdownErr s) (cancelReadErr s)
    (resetRemotelyErr s) (rs_closedForShutdown s) (finRead s) x (resetRemotely s) (readSignal s)
    (rs_deadline s) (rs_deadlineTimer s) (rs_flowController s).
Definition set_resetRemotely (s : receiveStream) (x : bool) : receiveStream :=
  mkReceiveStream (rs_streamID s) (frameQueue s) (readOffset s) (currentFrame s)
    (currentFrameIsLast s) (readPosInFrame s) (rs_closeForShutdownErr s) (cancelReadErr s)
    (resetRemotelyErr s) (rs_closedForShutdown s) (finRead s) (canceledRead s) x (readSignal s)
    (rs_deadline s) (rs_deadlineTimer s) (rs_flowController s).
Definition set_readSignal (s : receiveStream) (x : bool) : receiveStream :=
  mkReceiveStream (rs_streamID s) (frameQueue s) (readOffset s) (currentFrame s)
    (currentFrameIsLast s) (readPosInFrame s) (rs_closeForShutdownErr s) (cancelReadErr s)
    (resetRemotelyErr s) (rs_closedForShutdown s) (finRead s) (canceledRead s) (resetRemotely s) x
    (rs_deadline s) (rs_deadlineTimer s) (rs_flowController s).
Definition set_rs_deadline (s : receiveStream) (x : Z) : receiveStream :=
  mkReceiveStream (rs_streamID s) (frameQueue s) (readOffset s) (currentFrame s)
    (currentFrameIsLast s) (readPosInFrame s) (rs_closeForShutdownErr s) (cancelReadErr s)
    (resetRemotelyErr s) (rs_closedForShutdown s) (finRead s) (canceledRead s) (resetRemotely s)
    (readSignal s) x (rs_deadlineTimer s) (rs_flowController s).
Definition set_rs_deadlineTimer (s : receiveStream) (x : option timer) : receiveStream :=
  mkReceiveStream (rs_streamID s) (frameQueue s) (readOffset s) (currentFrame s)
    (currentFrameIsLast s) (readPosInFrame s) (rs_closeForShutdownErr s) (cancelReadErr s)
    (resetRemotelyErr s) (rs_closedForShutdown s) (finRead s) (canceledRead s) (resetRemotely s)
    (readSignal s) (rs_deadline s) x (rs_flowController s).
Definition set_rs_flowController (s : receiveStream) (x : streamFlowController) : receiveStream :=
  mkReceiveStream (rs_streamID s) (frameQueue s) (readOffset s) (currentFrame s)
    (currentFrameIsLast s) (readPosInFrame s) (rs_closeForShutdownErr s) (cancelReadErr s)
    (resetRemotelyErr s) (rs_closedForShutdown s) (finRead s) (canceledRead s) (resetRemotely s)
    (readSignal s) (rs_deadline s) (rs_deadlineTimer s) x.

Definition newReceiveStream (id : Z) (fc : streamFlowController) : receiveStream :=
  mkReceiveStream id newFrameSorter 0 None false 0 None None None false false false false false 0 None fc.

Definition signalRead (s : receiveStream) : receiveStream := set_readSignal s true.

(** ** Read *)

Definition dequeueNextFrame (s : receiveStream) : receiveStream :=
  let '(data, fin, q) := Pop (frameQueue s) in
  set_readPosInFrame (set_currentFrameIsLast (set_currentFrame (set_frameQueue s q) data) fin) 0.

(** Where a call of [Read] gives up the mutex: it waits, with a select on the
    timer if there is a deadline, or it has copied [m] bytes. *)
Inductive read_point : Type :=
  | Waiting (select : bool)
  | Copied (m : Z).

Inductive read_status : Type :=
  | Returned (completed : bool) (err : option go_error)
  | Suspended (at_ : read_point).

Definition frame_len (s : receiveStream) : Z := len (default [] (currentFrame s)).

(** The inner loop and the copying, for a slice of [n] bytes of which [data]
    is filled: the stream, the data and where the call stands. *)
Definition read_checks (s : receiveStream) (n now : Z) (data : list Z)
    : receiveStream * list Z * read_status :=
  if rs_closedForShutdown s then (s, data, Returned false (rs_closeForShutdownErr s))
  else if canceledRead s then (s, data, Returned false (cancelReadErr s))
  else if resetRemotely s then (s, data, Returned false (resetRemotelyErr s))
  else if deadline_passed (rs_deadline s) now then (s, data, Returned false (Some errDeadline))
  else if negb (bool_decide (currentFrame s = None)) || currentFrameIsLast s then
    if n <? len data then
      (s, data, Returned false (Some (Errorf "BUG: bytesRead (%d) > len(p) (%d) in stream.Read" [len data; n])))
    else if frame_len s <? readPosInFrame s then
      (s, data, Returned false (Some (Errorf "BUG: readPosInFrame (%d) > frame.DataLen (%d) in stream.Read"
                                        [readPosInFrame s; frame_len s])))
    else
      let m := Z.min (n - len data) (frame_len s - readPosInFrame s) in
      let copied := take_z m (drop_z (readPosInFrame s) (default [] (currentFrame s))) in
      (set_readOffset (set_readPosInFrame s (readPosInFrame s + m)) (readOffset s +64 m),
       data ++ copied, Suspended (Copied m))
  else (s, data, Suspended (Waiting (negb (rs_deadline s =? 0)))).

(** The head of the outer loop. *)
Definition read_head (s : receiveStream) (n now : Z) (data : list Z)
    : receiveStream * list Z * read_status :=
  if len data <? n then
    let s := if bool_decide (currentFrame s = None) || (frame_len s <=? readPosInFrame s)
             then dequeueNextFrame s else s in
    if bool_decide (currentFrame s = None) && (0 <? len data) then
      (s, data, Returned false (rs_closeForShutdownErr s))
    else read_checks s n now data
  else (s, data, Returned false None).

Definition read_start (s : receiveStream) (n now : Z) : receiveStream * list Z * read_status :=
  if finRead s then (s, [], Returned false (Some EOF))
  else if canceledRead s then (s, [], Returned false (cancelReadErr s))
  else if resetRemotely s then (s, [], Returned false (resetRemotelyErr s))
  else if rs_closedForShutdown s then (s, [], Returned false (rs_closeForShutdownErr s))
  else read_head s n now [].

(** The wait is over, by the channel or by the timer. *)
Definition read_wake (s : receiveStream) (byTimer : bool) (n now : Z) (data : list Z)
    : receiveStream * list Z * read_status :=
  let s := if byTimer then set_rs_deadlineTimer s (Some TimerDrained) else set_readSignal s false in
  let s := if bool_decide (currentFrame s = None) then dequeueNextFrame s else s in
  read_checks s n now data.

(** After the copying; the flow controllers say whether window updates are
    queued for the stream and for the connection. *)
Definition read_copied (s : receiveStream) (conn : baseFlowController) (n now : Z) (data : list Z) (m : Z)
    : receiveStream * baseFlowController * (bool * bool) * list Z * read_status :=
  let '(fc, conn) := if resetRemotely s then (rs_flowController s, conn)
                     else stream_AddBytesRead now (rs_flowController s) conn m in
  let s := set_rs_flowController s fc in
  let updates := stream_MaybeQueueWindowUpdate fc conn in
  if (frame_len s <=? readPosInFrame s) && currentFrameIsLast s then
    (set_finRead s true, conn, updates, data, Returned true (Some EOF))
  else
    let '(s, data, st) := read_head s n now data in (s, conn, updates, data, st).

(** What [Read] tells the session when it returns. *)
Definition read_calls (s : receiveStream) (st : read_status) : list sender_call :=
  match st with Returned true _ => [OnStreamCompleted (rs_streamID s)] | _ => [] end.

(** ** The other calls *)

Definition CancelRead (s : receiveStream) (errorCode : Z) : receiveStream * list sender_call :=
  if finRead s then (s, [])
  else if canceledRead s then (s, [])
  else
    (signalRead (set_cancelReadErr (set_canceledRead s true)
       (Some (Errorf "Read on stream %d canceled with error code %d" [rs_streamID s; errorCode]))),
     [QueueControlFrame (StopSending (mkStopSendingFrame (rs_streamID s) errorCode))]).

Definition handleStreamFrame (s : receiveStream) (conn : baseFlowController) (f : StreamFrame)
    : receiveStream * baseFlowController * option go_error :=
  let maxOffset := Stream_Offset f +64 StreamFrame_DataLen f in
  let '(fc, conn, err) := UpdateHighestReceived (rs_flowController s) conn maxOffset (Stream_FinBit f) in
  let s := set_rs_flowController s fc in
  match err with
  | Some e => (s, conn, Some e)
  | None =>
      let '(q, err) := Push (frameQueue s) (Stream_Data f) (Stream_Offset f) (Stream_FinBit f) in
      let s := set_frameQueue s q in
      match err with
      | Some e => (s, conn, Some e)
      | None => (signalRead s, conn, None)
      end
  end.

Definition handleResetStreamFrameImpl (s : receiveStream) (conn : baseFlowController) (f : ResetStreamFrame)
    : bool * receiveStream * baseFlowController * option go_error :=
  if rs_closedForShutdown s then (false, s, conn, None)
  else
    let '(fc, conn, err) := UpdateHighestReceived (rs_flowController s) conn (ResetStream_ByteOffset f) true in
    let s := set_rs_flowController s fc in
    match err with
    | Some e => (false, s, conn, Some e)
    | None =>
        if resetRemotely s then (false, s, conn, None)
        else
          (true, signalRead (set_resetRemotelyErr (set_resetRemotely s true)
             (Some (Errorf "Stream %d was reset with error code %d" [rs_streamID s; ResetStream_ErrorCode f]))),
           conn, None)
    end.

Definition handleResetStreamFrame (s : receiveStream) (conn : baseFlowController) (f : ResetStreamFrame)
    : receiveStream * baseFlowController * list sender_call * option go_error :=
  let '(completed, s, conn, err) := handleResetStreamFrameImpl s conn f in
  (s, conn, if completed then [OnStreamCompleted (rs_streamID s)] else [], err).

Definition CloseRemote (s : receiveStream) (conn : baseFlowController) (offset : Z)
    : receiveStream * baseFlowController :=
  (handleStreamFrame s conn (mkStreamFrame 0 true false offset [])).1.

(** [None] if the call never returns. *)
Definition SetReadDeadline (s : receiveStream) (t : Z) : option receiveStream :=
  let s := set_rs_deadline s t in
  if t =? 0 then Some (signalRead s)
  else match rearm (rs_deadlineTimer s) t with
       | Some timer => Some (set_rs_deadlineTimer s (Some timer))
       | None => None
       end.

Definition receive_closeForShutdown (s : receiveStream) (err : go_error) : receiveStream :=
  signalRead (set_rs_closeForShutdownErr (set_rs_closedForShutdown s true) (Some err)).

Definition rs_getWindowUpdate (now rtt : Z) (s : receiveStream) (conn : baseFlowController)
    : Z * receiveStream * baseFlowController :=
  let '(offset, fc, conn) := stream_GetWindowUpdate now rtt (rs_flowController s) conn in
  (offset, set_rs_flowController s fc, conn).

(** ** Lemmas: the final offset *)

Lemma push_gaps_final s data offset s' err : push_gaps s data offset = (s', err) ->
  finalOffset s' = finalOffset s.
Proof. unfold push_gaps. intros E. repeat case_match; simplify_eq; done. Qed.

Lemma Push_final s data offset fin s' err : Push s data offset fin = (s', err) ->
  finalOffset s' = if fin then offset +64 len data else finalOffset s.
Proof.
  unfold Push. destruct (push s data offset fin) as [s1 e1] eqn:Ep.
  assert (E1 : finalOffset s1 = if fin then offset +64 len data else finalOffset s).
  { unfold push in Ep. set (s0 := if fin then _ else s) in Ep.
    replace (if fin then _ else finalOffset s) with (finalOffset s0) by (by destruct fin).
    repeat case_match; simplify_eq; try done; by eapply push_gaps_final. }
  intros E. case_match; by simplify_eq.
Qed.

(** What a successful update of the highest offset does to the stream. *)
Lemma UpdateHighest_stream c conn off final c' conn' :
  UpdateHighestReceived c conn off final = (c', conn', None) ->
  highestReceived (base c') = Z.max (highestReceived (base c)) off
  /\ receivedFinalOffset c' = receivedFinalOffset c || final
  /\ (receivedFinalOffset c = true -> highestReceived (base c') = highestReceived (base c))
  /\ (final = true -> highestReceived (base c') = off)
  /\ bytesRead (base c') = bytesRead (base c).
Proof.
  unfold UpdateHighestReceived.
  destruct (Z.lt_trichotomy off (highestReceived (base c))) as [Hlt | [E | Hgt]].
  - rewrite (proj2 (Z.eqb_neq off _)), (proj2 (Z.ltb_ge _ off)), (proj2 (Z.leb_le off _)) by lia.
    rewrite andb_false_r. destruct final; [case_match; done |]. intros E'. cbn in E'. simplify_eq.
    rewrite orb_false_r. split_and!; try done; lia.
  - rewrite E, Z.eqb_refl, Z.ltb_irrefl, !andb_false_r. intros E'. cbn in E'.
    destruct final; simplify_eq; cbn; rewrite ?orb_false_r, ?orb_true_r; split_and!; try done; lia.
  - rewrite (proj2 (Z.eqb_neq off _)), (proj2 (Z.ltb_lt _ off)), (proj2 (Z.leb_gt off _)) by lia.
    destruct (receivedFinalOffset c) eqn:Ef; cbn [andb negb]; [case_match; done |]. rewrite andb_false_r. cbn [andb].
    case_match; [done |]. destruct (IncrementHighestReceived _ _) as [conn2 e].
    destruct final; intros E'; injection E' as <- _ _; cbn; rewrite ?orb_false_r, ?Ef; split_and!; try done; lia.
Qed.

(** ** The stream in use

    One call of [Read] at a time, and everything else at any time between its
    pieces.  [rz_reader] is the call that is under way: the length of its slice,
    the data it has, and where it stands; [rz_read] is the data of the calls
    that have returned. *)
Section InUse.
(** The bytes of the stream as the peer sends it. *)
Context (c : Z -> Z).

Record rs_sys : Type := mkRsys {
  rz_s : receiveStream;
  rz_conn : baseFlowController;
  rz_reader : option (Z * list Z * read_point);
  rz_read : list Z }.

Definition reader_at (n : Z) (data : list Z) (st : read_status) : option (Z * list Z * read_point) :=
  match st with Suspended at_ => Some (n, data, at_) | Returned _ _ => None end.
Definition read_data (data : list Z) (st : read_status) : list Z :=
  match st with Suspended _ => [] | Returned _ _ => data end.
Definition read_return (st : read_status) : option (bool * option go_error) :=
  match st with Suspended _ => None | Returned completed err => Some (completed, err) end.

(** The frames of the peer carry the stream; those with an error close the
    connection.  The label of a step is what a [Read] that returns in it
    returns. *)
Inductive rs_step : rs_sys -> option (bool * option go_error) -> rs_sys -> Prop :=
  | rs_start s conn read n now s' data st : 0 <= n -> read_start s n now = (s', data, st) ->
      rs_step (mkRsys s conn None read) (read_return st)
        (mkRsys s' conn (reader_at n data st) (read ++ read_data data st))
  | rs_wake s conn read n data select (byTimer : bool) now s' data' st :
      (if byTimer then select = true /\ rs_deadlineTimer s = Some TimerFired else readSignal s = true) ->
      read_wake s byTimer n now data = (s', data', st) ->
      rs_step (mkRsys s conn (Some (n, data, Waiting select)) read) (read_return st)
        (mkRsys s' conn (reader_at n data' st) (read ++ read_data data' st))
  | rs_copied s conn read n data m now s' conn' updates data' st :
      read_copied s conn n now data m = (s', conn', updates, data', st) ->
      rs_step (mkRsys s conn (Some (n, data, Copied m)) read) (read_return st)
        (mkRsys s' conn' (reader_at n data' st) (read ++ read_data data' st))
  | rs_frame s conn r read f s' conn' : 0 <= Stream_Offset f ->
      Stream_Offset f + len (Stream_Data f) < MaxByteCount ->
      Stream_Data f = slice c (Stream_Offset f) (len (Stream_Data f)) ->
      handleStreamFrame s conn f = (s', conn', None) ->
      rs_step (mkRsys s conn r read) None (mkRsys s' conn' r read)
  | rs_reset s conn r read f s' conn' calls : 0 <= ResetStream_ByteOffset f < MaxByteCount ->
      handleResetStreamFrame s conn f = (s', conn', calls, None) ->
      rs_step (mkRsys s conn r read) None (mkRsys s' conn' r read)
  | rs_cancel s conn r read code s' calls : CancelRead s code = (s', calls) ->
      rs_step (mkRsys s conn r read) None (mkRsys s' conn r read)
  | rs_set_deadline s conn r read t s' : SetReadDeadline s t = Some s' ->
      rs_step (mkRsys s conn r read) None (mkRsys s' conn r read)
  | rs_fire s conn r read t : rs_deadlineTimer s = Some (TimerArmed t) ->
      rs_step (mkRsys s conn r read) None (mkRsys (set_rs_deadlineTimer s (Some TimerFired)) conn r read)
  | rs_shutdown s conn r read err :
      rs_step (mkRsys s conn r read) None (mkRsys (receive_closeForShutdown s err) conn r read)
  | rs_update s conn r read now rtt offset s' conn' : rs_getWindowUpdate now rtt s conn = (offset, s', conn') ->
      rs_step (mkRsys s conn r read) None (mkRsys s' conn' r read)
  | rs_other s conn r read conn' : rs_step (mkRsys s conn r read) None (mkRsys s conn' r read).

Inductive rs_reach (id : Z) (fc : streamFlowController) : rs_sys -> Prop :=
  | rs_new conn : rs_reach id fc (mkRsys (newReceiveStream id fc) conn None [])
  | rs_next x l y : rs_reach id fc x -> rs_step x l y -> rs_reach id fc y.

(** The data a call under way has, and what it has copied without telling the
    flow controller yet. *)
Definition progress (r : option (Z * list Z * read_point)) : list Z :=
  match r with Some (_, data, _) => data | None => [] end.
Definition uncounted (r : option (Z * list Z * read_point)) : Z :=
  match r with Some (_, _, Copied m) => m | _ => 0 end.

(** Something is there to be read, or the wait has to end. *)
Definition read_ready (s : receiveStream) : bool :=
  bool_decide (is_Some (queue (frameQueue s) !! readPos (frameQueue s)))
  || (finalOffset (frameQueue s) <=? readPos (frameQueue s))
  || rs_closedForShutdown s || canceledRead s || resetRemotely s.

(** The frame at the reader: a part of the stream that ends where the queue
    goes on. *)
Record rs_ok (s : receiveStream) : Prop := {
  ro_queue : sorter_inv c (frameQueue s);
  ro_high : 0 <= readPos (frameQueue s) <= highestReceived (base (rs_flowController s))
    /\ highestReceived (base (rs_flowController s)) < MaxByteCount;
  ro_beyond : forall x, highestReceived (base (rs_flowController s)) <= x < MaxByteCount ->
    missing (gaps (frameQueue s)) x;
  ro_final : finalOffset (frameQueue s) = MaxByteCount
    \/ receivedFinalOffset (rs_flowController s) = true
       /\ finalOffset (frameQueue s) = highestReceived (base (rs_flowController s));
  ro_pos : 0 <= readPosInFrame s <= frame_len s;
  ro_frame : frame_len s <= readPos (frameQueue s)
    /\ default [] (currentFrame s) = slice c (readPos (frameQueue s) - frame_len s) (frame_len s);
  ro_offset : readOffset s = readPos (frameQueue s) - frame_len s + readPosInFrame s;
  ro_last : currentFrameIsLast s = true -> finalOffset (frameQueue s) = readPos (frameQueue s);
  ro_fin : finRead s = true -> currentFrameIsLast s = true /\ readPosInFrame s = frame_len s }.

Record rsys_inv (x : rs_sys) : Prop := {
  ri_ok : rs_ok (rz_s x);
  ri_data : rz_read x ++ progress (rz_reader x) = slice c 0 (readOffset (rz_s x));
  ri_reader : match rz_reader x with
    | None => True
    | Some (n, data, Waiting _) => len data <= n /\ finRead (rz_s x) = false
        /\ currentFrame (rz_s x) = None /\ (read_ready (rz_s x) = true -> readSignal (rz_s x) = true)
    | Some (n, data, Copied m) => len data <= n /\ finRead (rz_s x) = false /\ 0 <= m
    end;
  ri_counted : resetRemotely (rz_s x) = false ->
    bytesRead (base (rs_flowController (rz_s x))) + uncounted (rz_reader x) = readOffset (rz_s x) }.

(** ** Lemmas: the pieces of Read *)

(** The errors [Read] may return. *)
Definition expected (s : receiveStream) (err : option go_error) : Prop :=
  err = None \/ err = Some EOF \/ err = Some errDeadline
  \/ err = rs_closeForShutdownErr s \/ err = cancelReadErr s \/ err = resetRemotelyErr s.

(** The fields that reading does not change. *)
Definition rs_core (s : receiveStream) :=
  (rs_flowController s, resetRemotely s, canceledRead s, rs_closedForShutdown s, readSignal s, finRead s).

Lemma dequeue_ok s : rs_ok s -> readPosInFrame s = frame_len s -> finRead s = false ->
  let s' := dequeueNextFrame s in
  rs_ok s' /\ readOffset s' = readOffset s /\ rs_core s' = rs_core s
  /\ (currentFrame s' = None -> frameQueue s' = frameQueue s /\ queue (frameQueue s) !! readPos (frameQueue s) = None
      /\ currentFrameIsLast s' = (finalOffset (frameQueue s) <=? readPos (frameQueue s))).
Proof.
  intros [H1 [H2 H2'] H3 H4 H5 [H6 H6'] H7 H8 H9] Hpos Hfin. unfold dequeueNextFrame.
  pose proof (Pop_spec c (frameQueue s) H1) as Hp.
  unfold Pop in *. destruct (queue (frameQueue s) !! readPos (frameQueue s)) as [d |] eqn:Eq.
  - destruct Hp as (Hne & Hd & Hrp & Hinv & Hg & _ & _). pose proof (nonempty_len d Hne) as Hlen.
    assert (Hle : readPos (frameQueue s) + len d <= highestReceived (base (rs_flowController s))).
    { destruct H1 as (_ & _ & _ & He). destruct (He _ _ Eq) as (_ & _ & Hmx & _ & Hnm).
      destruct (Z.leb_spec (readPos (frameQueue s) + len d) (highestReceived (base (rs_flowController s)))); [done |].
      exfalso. apply (Hnm (readPos (frameQueue s) + len d - 1)); [lia |]. apply H3. lia. }
    split_and!; [| | done | done].
    + constructor; cbn -[add64 len slice]; try done; cbn [readPos gaps finalOffset] in *.
      * rewrite Hrp. lia.
      * unfold frame_len. cbn -[len]. lia.
      * unfold frame_len. cbn -[len slice add64]. rewrite Hrp. split; [lia |].
        by replace (readPos (frameQueue s) + len d - len d) with (readPos (frameQueue s)) by lia.
      * unfold frame_len. cbn -[len add64]. rewrite Hrp. lia.
      * rewrite Hrp. intros Hl%Z.leb_le. destruct H4 as [H4 | [_ H4]]; lia.
      * by rewrite Hfin.
    + done.
  - cbn in Hp. split_and!; [| done | done | done].
    constructor; cbn -[len slice]; try done; unfold frame_len in *; cbn -[len slice Z.add Z.sub]; rewrite ?len_nil.
    + split; [lia | done].
    + lia.
    + intros Hl%Z.leb_le. destruct H4 as [H4 | [_ H4]]; lia.
    + by rewrite Hfin.
Qed.

(** What a piece of [Read] does: it has copied the next bytes of the stream. *)
Definition piece (s : receiveStream) (n : Z) (data : list Z) (r : receiveStream * list Z * read_status) : Prop :=
  let '(s', data', st) := r in
  exists copied, data' = data ++ copied /\ copied = slice c (readOffset s) (len copied)
    /\ readOffset s' = readOffset s + len copied /\ len data' <= n
    /\ rs_ok s' /\ rs_core s' = rs_core s
    /\ match st with
       | Returned completed err => completed = false /\ copied = [] /\ expected s' err
       | Suspended (Waiting _) => copied = [] /\ currentFrame s' = None /\ read_ready s' = false
       | Suspended (Copied m) => m = len copied
       end.

Lemma piece_returned s s' n data err : rs_ok s' -> readOffset s' = readOffset s -> rs_core s' = rs_core s ->
  len data <= n -> expected s' err -> piece s n data (s', data, Returned false err).
Proof.
  intros. exists []. rewrite app_nil_r, len_nil. split_and!; try done. lia.
Qed.

Lemma read_checks_ok s s0 n now data : rs_ok s -> finRead s = false -> len data <= n ->
  readOffset s = readOffset s0 -> rs_core s = rs_core s0 ->
  (currentFrame s = None -> currentFrameIsLast s = false ->
    queue (frameQueue s) !! readPos (frameQueue s) = None
    /\ (finalOffset (frameQueue s) <=? readPos (frameQueue s)) = false) ->
  piece s0 n data (read_checks s n now data).
Proof.
  intros Hok Hfin Hn Ho Hcore Hready. unfold read_checks.
  destruct (rs_closedForShutdown s) eqn:Ec; [apply piece_returned; unfold expected; tauto |].
  destruct (canceledRead s) eqn:Ecr; [apply piece_returned; unfold expected; tauto |].
  destruct (resetRemotely s) eqn:Er; [apply piece_returned; unfold expected; tauto |].
  destruct (deadline_passed _ _); [apply piece_returned; unfold expected; tauto |].
  pose proof Hok as [H1 H2 H3 H4 H5 [H6 H6'] H7 H8 H9].
  destruct (negb (bool_decide (currentFrame s = None)) || currentFrameIsLast s) eqn:Eb.
  - rewrite (proj2 (Z.ltb_ge _ _)), (proj2 (Z.ltb_ge _ _)) by lia.
    set (m := Z.min _ _). set (cp := take_z m _).
    assert (Hm : 0 <= m <= frame_len s - readPosInFrame s) by lia.
    assert (Hcp : cp = slice c (readOffset s) m).
    { unfold cp. rewrite H6', drop_slice, take_slice by lia. f_equal. lia. }
    assert (Hl : len cp = m) by (rewrite Hcp, len_slice; lia).
    assert (HM : MaxByteCount < 2 ^ 62) by (unfold MaxByteCount; lia).
    exists cp. rewrite Hl, len_app, Hl, <- Ho. cbn [readOffset set_readOffset].
    split_and!; [done | done | cbn -[add64]; apply add64_small; lia | lia | | | done].
    + constructor; cbn -[add64 len slice]; try done; unfold frame_len in *; cbn -[add64 len slice].
      * lia.
      * rewrite add64_small by lia. lia.
      * intros E. congruence.
    + by rewrite <- Hcore.
  - apply orb_false_iff in Eb as [Eb El]. apply negb_false_iff, bool_decide_eq_true in Eb.
    destruct (Hready Eb El) as [Q1 Q2].
    exists []. rewrite app_nil_r, len_nil, Z.add_0_r. split_and!; try done.
    unfold read_ready. rewrite Q1, Q2, Ec, Ecr, Er. by rewrite bool_decide_false by (by intros [? ?]).
Qed.

Lemma read_head_ok s n now data : rs_ok s -> finRead s = false -> len data <= n ->
  piece s n data (read_head s n now data).
Proof.
  intros Hok Hfin Hn. unfold read_head. destruct (Z.ltb_spec (len data) n) as [Hlt |].
  2: { apply piece_returned; try done. by left. }
  set (need := bool_decide _ || _). set (s1 := if need then _ else s).
  assert (Hs1 : rs_ok s1 /\ readOffset s1 = readOffset s /\ rs_core s1 = rs_core s
    /\ (currentFrame s1 = None -> currentFrameIsLast s1 = false ->
        queue (frameQueue s1) !! readPos (frameQueue s1) = None
        /\ (finalOffset (frameQueue s1) <=? readPos (frameQueue s1)) = false)).
  { unfold s1. destruct need eqn:En.
    - assert (Hpos : readPosInFrame s = frame_len s).
      { pose proof (ro_pos s Hok). unfold need in En.
        apply orb_true_iff in En as [En%bool_decide_eq_true | En%Z.leb_le]; [| lia].
        assert (frame_len s = 0) by (unfold frame_len; by rewrite En). lia. }
      destruct (dequeue_ok s Hok Hpos Hfin) as (D1 & D2 & D3 & D4). split_and!; try done.
      intros Hc Hl. destruct (D4 Hc) as (E1 & E2 & E3). rewrite E1. split; [done | congruence].
    - split_and!; try done. intros Hc. unfold need in En. rewrite Hc in En. done. }
  destruct Hs1 as (S1 & S2 & S3 & S4).
  destruct (bool_decide (currentFrame s1 = None) && (0 <? len data)).
  - apply piece_returned; try done. unfold expected. tauto.
  - apply read_checks_ok; try done. unfold rs_core in S3. congruence.
Qed.

(** What a returning [Read] returns. *)
Definition label_ok (x y : rs_sys) (l : option (bool * option go_error)) : Prop :=
  forall completed err, l = Some (completed, err) -> expected (rz_s y) err
    /\ (completed = true -> err = Some EOF /\ finRead (rz_s x) = false /\ finRead (rz_s y) = true).

Lemma slice_next read data copied off : read ++ data = slice c 0 off -> 0 <= off ->
  copied = slice c off (len copied) -> read ++ data ++ copied = slice c 0 (off + len copied).
Proof.
  intros E Ho Hc. pose proof (len_nonneg copied). rewrite app_assoc, E.
  rewrite <- slice_app, Z.add_0_l by lia. by rewrite <- Hc.
Qed.

Lemma readOffset_nonneg s : rs_ok s -> 0 <= readOffset s.
Proof. intros [H1 H2 H3 H4 H5 [H6 H6'] H7 H8 H9]. lia. Qed.

Lemma piece_inv x s conn n data read s' data' st : rs_ok s -> finRead s = false -> finRead (rz_s x) = false ->
  read ++ data = slice c 0 (readOffset s) ->
  (resetRemotely s = false -> bytesRead (base (rs_flowController s)) = readOffset s) ->
  piece s n data (s', data', st) ->
  let y := mkRsys s' conn (reader_at n data' st) (read ++ read_data data' st) in
  rsys_inv y /\ label_ok x y (read_return st).
Proof.
  intros Hok Hfin Hfx Hdata Hcnt (cp & -> & Hcp & Ho & Hn & Hok' & Hcore & Hst).
  pose proof (readOffset_nonneg s Hok) as Hnn.
  pose proof (slice_next read data cp (readOffset s) Hdata Hnn Hcp) as Hnext.
  unfold rs_core in Hcore. injection Hcore as C1 C2 C3 C4 C5 C6.
  assert (Hf' : finRead s' = false) by congruence.
  destruct st as [completed err | [select | m]]; cbn [reader_at read_data read_return].
  - destruct Hst as (-> & -> & Hexp). rewrite len_nil in *. rewrite !app_nil_r in *.
    split; [| intros ? ? [= <- <-]; done].
    constructor; cbn; [done | | done |].
    + by rewrite app_nil_r, Hdata, Ho, Z.add_0_r.
    + rewrite C1, C2. intros Hr. specialize (Hcnt Hr). lia.
  - destruct Hst as (-> & Hc & Hr). rewrite len_nil in *. rewrite !app_nil_r in *.
    split; [| done]. constructor; cbn [rz_s rz_conn rz_reader rz_read progress uncounted]; [done | | |].
    + by rewrite Hdata, Ho, Z.add_0_r.
    + split_and!; try done. by rewrite Hr.
    + rewrite C1, C2. intros Hr'. specialize (Hcnt Hr'). lia.
  - subst m. pose proof (len_nonneg cp). split; [| done].
    constructor; cbn [rz_s rz_conn rz_reader rz_read progress uncounted]; [done | | |].
    + by rewrite app_nil_r, Hnext, Ho.
    + done.
    + rewrite C1, C2. intros Hr'. specialize (Hcnt Hr'). lia.
Qed.

Lemma start_inv s conn read n now s' data st : rsys_inv (mkRsys s conn None read) -> 0 <= n ->
  read_start s n now = (s', data, st) ->
  let y := mkRsys s' conn (reader_at n data st) (read ++ read_data data st) in
  rsys_inv y /\ label_ok (mkRsys s conn None read) y (read_return st).
Proof.
  intros Hi Hn E. pose proof Hi as [I1 I2 I3 I4]. cbn [rz_s rz_conn rz_reader rz_read progress uncounted] in *.
  assert (Hret : forall err, expected s err ->
    rsys_inv (mkRsys s conn None (read ++ [])) /\
    label_ok (mkRsys s conn None read) (mkRsys s conn None (read ++ [])) (Some (false, err))).
  { intros err He. rewrite app_nil_r. split; [done |]. by intros ? ? [= <- <-]. }
  unfold read_start in E.
  destruct (finRead s) eqn:Ef; [injection E as <- <- <-; apply Hret; unfold expected; tauto |].
  destruct (canceledRead s); [injection E as <- <- <-; apply Hret; unfold expected; tauto |].
  destruct (resetRemotely s) eqn:Er; [injection E as <- <- <-; apply Hret; unfold expected; tauto |].
  destruct (rs_closedForShutdown s); [injection E as <- <- <-; apply Hret; unfold expected; tauto |].
  pose proof (read_head_ok s n now [] I1 Ef) as Hp. rewrite len_nil, E in Hp.
  eapply piece_inv; try done; [| auto]. specialize (I4 ltac:(done)). intros _. lia.
Qed.

Lemma wake_inv s conn read n data select byTimer now s' data' st :
  rsys_inv (mkRsys s conn (Some (n, data, Waiting select)) read) ->
  read_wake s byTimer n now data = (s', data', st) ->
  let y := mkRsys s' conn (reader_at n data' st) (read ++ read_data data' st) in
  rsys_inv y /\ label_ok (mkRsys s conn (Some (n, data, Waiting select)) read) y (read_return st).
Proof.
  intros [I1 I2 [Hn (Hf & Hc & _)] I4] E.
  cbn [rz_s rz_conn rz_reader rz_read progress uncounted] in *. unfold read_wake in E.
  set (s1 := if byTimer then _ else _) in E.
  assert (Hs1 : rs_ok s1 /\ currentFrame s1 = None /\ finRead s1 = false /\ readOffset s1 = readOffset s
    /\ rs_flowController s1 = rs_flowController s /\ resetRemotely s1 = resetRemotely s).
  { unfold s1. destruct I1. by destruct byTimer; split_and!; try done; constructor. }
  destruct Hs1 as (O1 & O2 & O3 & O4 & O5 & O6). clearbody s1.
  rewrite bool_decide_true in E by done.
  assert (Hpos : readPosInFrame s1 = frame_len s1).
  { pose proof (ro_pos s1 O1). assert (frame_len s1 = 0) by (unfold frame_len; by rewrite O2). lia. }
  destruct (dequeue_ok s1 O1 Hpos O3) as (D1 & D2 & D3 & D4).
  eapply (piece_inv _ s1); try done.
  - by rewrite O4.
  - rewrite O5, O6, O4. intros Hr. specialize (I4 Hr). lia.
  - rewrite <- E. apply read_checks_ok; try done.
    + unfold rs_core in D3. congruence.
    + intros Hcur Hl. destruct (D4 Hcur) as (E1 & E2 & E3). rewrite E1. split; [done | congruence].
Qed.

Lemma copied_inv s conn read n data m now s' conn' updates data' st :
  rsys_inv (mkRsys s conn (Some (n, data, Copied m)) read) ->
  read_copied s conn n now data m = (s', conn', updates, data', st) ->
  let y := mkRsys s' conn' (reader_at n data' st) (read ++ read_data data' st) in
  rsys_inv y /\ label_ok (mkRsys s conn (Some (n, data, Copied m)) read) y (read_return st).
Proof.
  intros [I1 I2 (Hn & Hf & Hm) I4] E.
  cbn [rz_s rz_conn rz_reader rz_read progress uncounted] in *. unfold read_copied in E.
  pose proof (readOffset_nonneg s I1) as Hnn.
  assert (Hro : readOffset s < 2 ^ 62).
  { destruct I1 as [_ [? ?] _ _ ? [? _] ? _ _]. assert (MaxByteCount < 2 ^ 62) by (unfold MaxByteCount; lia). lia. }
  destruct (if resetRemotely s then _ else _) as [fc conn1] eqn:Ea.
  set (s1 := set_rs_flowController s fc) in E.
  assert (Hfc : highestReceived (base fc) = highestReceived (base (rs_flowController s))
    /\ receivedFinalOffset fc = receivedFinalOffset (rs_flowController s)
    /\ (resetRemotely s = false -> bytesRead (base fc) = readOffset s)).
  { destruct (resetRemotely s); injection Ea as <- <-; [done |]. specialize (I4 eq_refl).
    cbn -[add64 AddBytesRead]. unfold AddBytesRead. destruct (_ =? 0); cbn -[add64];
      rewrite add64_small by lia; split_and!; auto; lia. }
  destruct Hfc as (F1 & F2 & F3).
  assert (Hs1 : rs_ok s1).
  { destruct I1. constructor; cbn; rewrite ?F1, ?F2; done. }
  destruct ((frame_len s1 <=? readPosInFrame s1) && currentFrameIsLast s1) eqn:El.
  - injection E as <- <- <- <- <-. apply andb_true_iff in El as [Hpos%Z.leb_le Hlast].
    cbn [reader_at read_data read_return]. split.
    + constructor; cbn -[len slice]; [| by rewrite app_nil_r | done | intros Hr; rewrite (F3 Hr); lia].
      pose proof (ro_pos s1 Hs1). destruct Hs1. constructor; try done. intros _. split; [done |]. cbn -[len]. unfold frame_len in *. cbn -[len] in *. lia.
    + intros ? ? [= <- <-]. split; [right; by left | done].
  - destruct (read_head s1 n now data) as [[s2 data2] st2] eqn:Eh. injection E as <- <- <- <- <-.
    eapply (piece_inv _ s1); try done. rewrite <- Eh. by apply read_head_ok.
Qed.

(** A step of the others. *)
Lemma others_inv s conn r read s' conn' : rsys_inv (mkRsys s conn r read) -> rs_ok s' ->
  readOffset s' = readOffset s -> finRead s' = finRead s -> currentFrame s' = currentFrame s ->
  (resetRemotely s' = false -> resetRemotely s = false
     /\ bytesRead (base (rs_flowController s')) = bytesRead (base (rs_flowController s))) ->
  readSignal s' = true \/ (readSignal s' = readSignal s /\ read_ready s' = read_ready s) ->
  rsys_inv (mkRsys s' conn' r read).
Proof.
  intros [I1 I2 I3 I4] Hok Ho Hf Hc Hb Hs. cbn [rz_s rz_conn rz_reader rz_read] in *.
  constructor; cbn [rz_s rz_conn rz_reader rz_read]; [done | by rewrite Ho | |].
  - destruct r as [[[n data] [select | m]] |]; [| by rewrite Hf | done].
    rewrite Hf, Hc. destruct I3 as (? & ? & ? & Hr). split_and!; try done.
    destruct Hs as [-> | [-> ->]]; done.
  - intros Hr. destruct (Hb Hr) as [Hr' ->]. rewrite Ho. auto.
Qed.

Lemma handleStreamFrame_ok s conn f s' conn' : rs_ok s -> 0 <= Stream_Offset f ->
  Stream_Offset f + len (Stream_Data f) < MaxByteCount ->
  Stream_Data f = slice c (Stream_Offset f) (len (Stream_Data f)) ->
  handleStreamFrame s conn f = (s', conn', None) ->
  rs_ok s' /\ readSignal s' = true /\ readOffset s' = readOffset s /\ finRead s' = finRead s
  /\ currentFrame s' = currentFrame s /\ resetRemotely s' = resetRemotely s
  /\ bytesRead (base (rs_flowController s')) = bytesRead (base (rs_flowController s)).
Proof.
  intros [H1 [H2 H2'] H3 H4 H5 H6 H7 H8 H9] Ho Hmax Hd. unfold handleStreamFrame, StreamFrame_DataLen.
  pose proof (len_nonneg (Stream_Data f)) as Hln.
  assert (HM : MaxByteCount < 2 ^ 62) by (unfold MaxByteCount; lia). rewrite add64_small by lia.
  destruct (UpdateHighestReceived _ _ _ _) as [[fc conn1] [e |]] eqn:Eu; [done |].
  destruct (UpdateHighest_stream _ _ _ _ _ _ Eu) as (U1 & U2 & U3 & U4 & U5).
  pose proof (Push_spec c (frameQueue s) (len (Stream_Data f)) (Stream_Offset f) (Stream_FinBit f)
    H1 Hln Ho Hmax) as Hp. rewrite <- Hd in Hp. cbn [frameQueue set_rs_flowController].
  destruct (Push _ _ _ _) as [q [e |]] eqn:Ep; [done |]. destruct Hp as (P1 & P2 & P3).
  pose proof (Push_final _ _ _ _ _ _ Ep) as P4. rewrite add64_small in P4 by lia.
  intros E. injection E as <- <-. split_and!; try done.
  constructor; cbn -[len slice]; unfold frame_len; cbn -[len slice]; rewrite ?P3; try done.
  - lia.
  - intros x Hx. apply P2. split; [apply H3; lia | lia].
  - rewrite P4, U2. destruct (Stream_FinBit f); [right; rewrite orb_true_r; auto with lia |].
    rewrite orb_false_r. destruct H4 as [H4 | [H4 H4']]; [by left | right]. rewrite U3; auto.
  - intros Hl. rewrite P4. specialize (H8 Hl). destruct (Stream_FinBit f); [| done].
    destruct H4 as [H4 | [H4 H4']]; [lia |]. rewrite <- U4, U3; auto; lia.
Qed.

Lemma reset_ok s conn f s' conn' calls : rs_ok s -> 0 <= ResetStream_ByteOffset f < MaxByteCount ->
  handleResetStreamFrame s conn f = (s', conn', calls, None) ->
  rs_ok s' /\ readOffset s' = readOffset s /\ finRead s' = finRead s /\ currentFrame s' = currentFrame s
  /\ (resetRemotely s' = false -> s' = s)
  /\ (readSignal s' = true \/ (readSignal s' = readSignal s /\ read_ready s' = read_ready s)).
Proof.
  intros Hok Ho. pose proof Hok as [H1 [H2 H2'] H3 H4 H5 H6 H7 H8 H9].
  unfold handleResetStreamFrame, handleResetStreamFrameImpl.
  destruct (rs_closedForShutdown s) eqn:Ec.
  { intros E. injection E as <- <- <-. split_and!; auto. }
  destruct (UpdateHighestReceived _ _ _ _) as [[fc conn1] [e |]] eqn:Eu; [done |].
  destruct (UpdateHighest_stream _ _ _ _ _ _ Eu) as (U1 & U2 & U3 & U4 & U5). rewrite orb_true_r in U2.
  assert (Hok1 : rs_ok (set_rs_flowController s fc)).
  { constructor; cbn; try done.
    - lia.
    - intros x Hx. apply H3. lia.
    - destruct H4 as [H4 | [H4 H4']]; [by left | right]. rewrite U3; auto. }
  cbn [resetRemotely set_rs_flowController]. destruct (resetRemotely s) eqn:Er.
  - intros E. injection E as <- <- <-. split_and!; try done; [cbn; by rewrite Er |].
    right. done.
  - intros E. injection E as <- <- <-. split_and!; try done; [| by left].
    destruct Hok1. by constructor.
Qed.

Lemma update_ok s conn now rtt offset s' conn' : rs_ok s -> rs_getWindowUpdate now rtt s conn = (offset, s', conn') ->
  rs_ok s' /\ readSignal s' = readSignal s /\ read_ready s' = read_ready s /\ readOffset s' = readOffset s
  /\ finRead s' = finRead s /\ currentFrame s' = currentFrame s /\ resetRemotely s' = resetRemotely s
  /\ bytesRead (base (rs_flowController s')) = bytesRead (base (rs_flowController s)).
Proof.
  unfold rs_getWindowUpdate. intros Hok.
  destruct (stream_GetWindowUpdate _ _ _ _) as [[o fc] conn1] eqn:Eg. intros E. injection E as <- <- <-.
  assert (Hfc : highestReceived (base fc) = highestReceived (base (rs_flowController s))
    /\ receivedFinalOffset fc = receivedFinalOffset (rs_flowController s)
    /\ bytesRead (base fc) = bytesRead (base (rs_flowController s))).
  { unfold stream_GetWindowUpdate, getWindowUpdate, maybeAdjustWindowSize in Eg.
    repeat case_match; simplify_eq; try done; cbn; auto. }
  destruct Hfc as (F1 & F2 & F3). split_and!; try done.
  destruct Hok. constructor; cbn; rewrite ?F1, ?F2; done.
Qed.

(** ** Lemmas: every step *)

Lemma rs_step_inv x l y : rsys_inv x -> rs_step x l y -> rsys_inv y /\ label_ok x y l.
Proof.
  intros Hi Hs. destruct Hs as [s conn read n now s' data st Hn E | s conn read n data select byTimer now s' data' st _ E
    | s conn read n data m now s' conn' updates data' st E | s conn r read f s' conn' H1 H2 H3 E
    | s conn r read f s' conn' calls H1 E | s conn r read code s' calls E | s conn r read t s' E | s conn r read t E
    | s conn r read err | s conn r read now rtt offset s' conn' E | s conn r read conn'].
  - by eapply start_inv.
  - by eapply wake_inv.
  - by eapply copied_inv.
  - split; [| done]. destruct (handleStreamFrame_ok s conn f s' conn' (ri_ok _ Hi) H1 H2 H3 E) as (? & ? & ? & ? & ? & R & ?).
    eapply others_inv; try done; [by rewrite R | by left].
  - split; [| done]. destruct (reset_ok s conn f s' conn' calls (ri_ok _ Hi) H1 E) as (? & ? & ? & ? & R & ?).
    eapply others_inv; try done. intros Hr. pose proof (R Hr) as ->. done.
  - split; [| done]. pose proof (ri_ok _ Hi) as Hok. unfold CancelRead in E.
    repeat case_match; simplify_eq; try done.
    eapply others_inv; try done; [| by left]. destruct Hok. by constructor.
  - split; [| done]. pose proof (ri_ok _ Hi) as Hok. unfold SetReadDeadline in E.
    repeat case_match; simplify_eq.
    + eapply others_inv; try done; [| by left]. destruct Hok. by constructor.
    + eapply others_inv; try done; [| by right]. destruct Hok. by constructor.
  - split; [| done]. pose proof (ri_ok _ Hi) as Hok.
    eapply others_inv; try done; [| by right]. destruct Hok. by constructor.
  - split; [| done]. pose proof (ri_ok _ Hi) as Hok.
    eapply others_inv; try done; [| by left]. destruct Hok. by constructor.
  - split; [| done]. destruct (update_ok s conn now rtt offset s' conn' (ri_ok _ Hi) E) as (? & ? & ? & ? & ? & ? & R & ?).
    eapply others_inv; try done; [by rewrite R | by right].
  - split; [| done]. eapply others_inv; try done; [apply (ri_ok _ Hi) | by right].
Qed.

Lemma rs_reach_inv id fc x : highestReceived (base fc) = 0 -> bytesRead (base fc) = 0 ->
  receivedFinalOffset fc = false -> rs_reach id fc x -> rsys_inv x.
Proof.
  intros Hh Hb Hr H. induction H as [conn | x l y _ IH Hs]; [| by eapply rs_step_inv].
  assert (HM : 0 < MaxByteCount) by (unfold MaxByteCount; lia).
  constructor; cbn -[MaxByteCount len slice]; [| done | done | rewrite Hb; done].
  constructor; cbn -[MaxByteCount len slice]; rewrite ?Hh; try done; try lia.
  - apply newFrameSorter_inv.
  - intros x Hx. constructor. unfold in_gap. cbn -[MaxByteCount]. lia.
Qed.

(** A [Read] that finds what it waits for does not wait again. *)
Lemma wake_progress s byTimer n now data s' data' select : rs_ok s -> finRead s = false ->
  currentFrame s = None -> len data <= n -> read_ready s = true ->
  read_wake s byTimer n now data = (s', data', Suspended (Waiting select)) -> False.
Proof.
  intros Hok Hf Hc Hn Hr E. unfold read_wake in E. set (s1 := if byTimer then _ else _) in E.
  assert (Hs1 : rs_ok s1 /\ currentFrame s1 = None /\ finRead s1 = false /\ read_ready s1 = true).
  { unfold s1. destruct Hok. by destruct byTimer; split_and!; try done; constructor. }
  destruct Hs1 as (O1 & O2 & O3 & O4). clearbody s1. rewrite bool_decide_true in E by done.
  assert (Hpos : readPosInFrame s1 = frame_len s1).
  { pose proof (ro_pos s1 O1). assert (frame_len s1 = 0) by (unfold frame_len; by rewrite O2). lia. }
  destruct (dequeue_ok s1 O1 Hpos O3) as (D1 & D2 & D3 & D4). set (s2 := dequeueNextFrame s1) in *.
  unfold rs_core in D3. injection D3 as C1 C2 C3 C4 C5 C6. unfold read_checks in E.
  destruct (rs_closedForShutdown s2) eqn:E1; [done |]. destruct (canceledRead s2) eqn:E2; [done |].
  destruct (resetRemotely s2) eqn:E3; [done |]. destruct (deadline_passed _ _); [done |].
  destruct (negb _ || _) eqn:Eb; [repeat case_match; done |].
  apply orb_false_iff in Eb as [Eb El]. apply negb_false_iff, bool_decide_eq_true in Eb.
  destruct (D4 Eb) as (_ & Q1 & Q2). unfold read_ready in O4.
  rewrite Q1, <- Q2, El, <- C2, <- C3, <- C4 in O4. by rewrite bool_decide_false in O4 by (by intros [? ?]).
Qed.

Lemma finRead_stays x l y : rs_step x l y -> finRead (rz_s x) = true -> rsys_inv x -> finRead (rz_s y) = true.
Proof.
  intros Hs Hf Hi. destruct Hs as [s conn read n now s' data st Hn E | s conn read n data select byTimer now s' data' st _ E
    | s conn read n data m now s' conn' updates data' st E | s conn r read f s' conn' H1 H2 H3 E
    | s conn r read f s' conn' calls H1 E | s conn r read code s' calls E | s conn r read t s' E | s conn r read t E
    | s conn r read err | s conn r read now rtt offset s' conn' E | s conn r read conn']; cbn [rz_s] in *; try done.
  - unfold read_start in E. rewrite Hf in E. by simplify_eq.
  - destruct (ri_reader _ Hi) as (_ & Hf' & _). cbn in Hf'. congruence.
  - destruct (ri_reader _ Hi) as (_ & Hf' & _). cbn in Hf'. congruence.
  - by destruct (handleStreamFrame_ok s conn f s' conn' (ri_ok _ Hi) H1 H2 H3 E) as (? & ? & ? & -> & _).
  - by destruct (reset_ok s conn f s' conn' calls (ri_ok _ Hi) H1 E) as (? & ? & -> & _).
  - unfold CancelRead in E. rewrite Hf in E. by simplify_eq.
  - unfold SetReadDeadline in E. repeat case_match; by simplify_eq.
  - by destruct (update_ok s conn now rtt offset s' conn' (ri_ok _ Hi) E) as (? & ? & ? & ? & -> & _).
Qed.
End InUse.

(** ** Theorems *)


(** A stream whose bytes are 0, 1, 2, ... *)
Definition receive_fc : streamFlowController := NewStreamFlowController 4 1000 1000 100.
Definition receive_conn : baseFlowController := NewConnectionFlowController 1000 1000.

(** A frame with the first three bytes and the end of the stream. *)
Definition receive_frame : StreamFrame := mkStreamFrame 4 true true 0 [0; 1; 2].

Definition receive_pushed : receiveStream * baseFlowController :=
  (handleStreamFrame (newReceiveStream 4 receive_fc) receive_conn receive_frame).1.
Definition receive_copying : receiveStream * list Z * read_status := read_start receive_pushed.1 8 0.
Definition receive_done := read_copied receive_copying.1.1 receive_pushed.2 8 0 [0; 1; 2] 3.

(** The frame arrives, and a [Read] of eight bytes gets it. *)
Lemma receive_sample : rs_reach (fun x => x) 4 receive_fc
  (mkRsys receive_done.1.1.1.1 receive_done.1.1.1.2 None [0; 1; 2]).
Proof.
  eapply (rs_next _ _ _ _ (Some (true, Some EOF))).
  - eapply (rs_next _ _ _ _ None).
    + eapply (rs_next _ _ _ _ None); [apply (rs_new _ _ _ receive_conn) |].
      apply (rs_frame _ _ _ _ _ receive_frame receive_pushed.1 receive_pushed.2); by vm_compute.
    + apply (rs_start _ _ _ [] 8 0 receive_copying.1.1 [0; 1; 2] (Suspended (Copied 3))); by vm_compute.
  - apply (rs_copied _ _ _ [] 8 [0; 1; 2] 3 0 _ _ receive_done.1.1.2 [0; 1; 2] (Returned true (Some EOF))).
    by vm_compute.
Qed.


(** ** Deadlines *)

Definition deadline_set : receiveStream := default receive_pushed.1 (SetReadDeadline (newReceiveStream 4 receive_fc) 5).
Definition deadline_fired : receiveStream := set_rs_deadlineTimer deadline_set (Some TimerFired).
Definition deadline_over : receiveStream * list Z * read_status := read_wake deadline_fired true 8 6 [].

(** After a [Read] has timed out on its deadline, the next call of
    [SetReadDeadline] with a deadline never returns: the timer has fired and the
    waiting [Read] has emptied its channel, on which the call waits, holding
    the mutex of the stream. *)
Theorem set_deadline_deadlock : exists conn,
  rs_reach (fun x => x) 4 receive_fc (mkRsys deadline_over.1.1 conn None [])
  /\ deadline_over.2 = Returned false (Some errDeadline)
  /\ forall t, t <> 0 -> SetReadDeadline deadline_over.1.1 t = None.
Proof.
  exists receive_conn. split; [| split; [by vm_compute |]].
  - eapply (rs_next _ _ _ (mkRsys deadline_fired receive_conn (Some (8, [], Waiting true)) []) (Some (false, Some errDeadline))).
    + eapply (rs_next _ _ _ (mkRsys deadline_set receive_conn (Some (8, [], Waiting true)) []) None).
      * eapply (rs_next _ _ _ (mkRsys deadline_set receive_conn None []) None).
        { eapply (rs_next _ _ _ _ None); [apply (rs_new _ _ _ receive_conn) |].
          apply (rs_set_deadline _ _ _ _ _ 5). by vm_compute. }
        apply (rs_start _ deadline_set receive_conn [] 8 0 deadline_set [] (Suspended (Waiting true))); by vm_compute.
      * apply (rs_fire _ deadline_set _ _ _ 5). by vm_compute.
    + apply (rs_wake _ deadline_fired receive_conn [] 8 [] true true 6 deadline_over.1.1 []
        (Returned false (Some errDeadline))); by vm_compute.
  - intros t Ht. unfold SetReadDeadline. by rewrite (proj2 (Z.eqb_neq t 0)).
Qed.

(** A [Read] that is blocked when the deadline is set does not time out:
    it began to wait without a deadline, on its channel only, so that after the
    timer has fired it still waits, whatever the step. *)
Theorem blocked_read_ignores_deadline : exists conn,
  let x := mkRsys deadline_fired conn (Some (8, [], Waiting false)) [] in
  rs_reach (fun x => x) 4 receive_fc x /\ rs_deadline deadline_fired = 5
  /\ forall l y, rs_step (fun x => x) x l y -> rz_reader y = rz_reader x.
Proof.
  exists receive_conn. split; [| split; [by vm_compute |]].
  - eapply (rs_next _ _ _ (mkRsys deadline_set receive_conn (Some (8, [], Waiting false)) []) None).
    + eapply (rs_next _ _ _ (mkRsys (newReceiveStream 4 receive_fc) receive_conn (Some (8, [], Waiting false)) []) None).
      * eapply (rs_next _ _ _ _ None); [apply (rs_new _ _ _ receive_conn) |].
        apply (rs_start _ _ receive_conn [] 8 0 (newReceiveStream 4 receive_fc) [] (Suspended (Waiting false)));
          by vm_compute.
      * apply (rs_set_deadline _ _ _ _ _ 5). by vm_compute.
    + apply (rs_fire _ deadline_set _ _ _ 5). by vm_compute.
  - intros l y Hs. inversion Hs as [| ? ? ? ? ? select byTimer ? ? ? ? Hw | | | | | | | | |]; subst; try done.
    destruct byTimer; [by destruct Hw | by vm_compute in Hw].
Qed.
