(* ===== verification/CryptoStream.v ===== *)
(** * Crypto streams (crypto_stream.go, crypto_stream_manager.go)

    The streams of CRYPTO frames, one per encryption level.  A stream puts the
    received data into order and cuts it into TLS messages; the manager hands
    the messages to the TLS stack, which is a parameter.  The theorems say which
    messages are handed over, however the peer cuts the stream into frames, and
    that the frames sent carry what the TLS stack has written. *)

From S2P Require Import Prelude Qerr Varint Protocol AckFrame Frames FrameCodec FrameSorter.

Record cryptoStreamImpl : Type := mkCryptoStream {
  cs_queue : frameSorter;
  msgBuf : list Z;
  cs_highestOffset : Z;
  finished : bool;
  cs_writeOffset : Z;
  writeBuf : list Z }.

Definition newCryptoStream : cryptoStreamImpl := mkCryptoStream newFrameSorter [] 0 false 0 [].

Definition errCryptoAfterFinish : go_error :=
  Errorf "received crypto data after change of encryption level" [].

(** The loop that pops everything there is runs at most once for each chunk in
    the queue. *)
Definition cs_HandleCryptoFrame (s : cryptoStreamImpl) (f : CryptoFrame)
    : cryptoStreamImpl * option go_error :=
  let highestOffset := Crypto_Offset f +64 len (Crypto_Data f) in
  if MaxCryptoStreamOffset <? highestOffset then
    (s, Some (Errorf "received invalid offset %d on crypto stream, maximum allowed %d"
                [highestOffset; MaxCryptoStreamOffset]))
  else if finished s then
    if cs_highestOffset s <? highestOffset then (s, Some errCryptoAfterFinish) else (s, None)
  else
    let highest := MaxByteCount_of (cs_highestOffset s) highestOffset in
    match Push (cs_queue s) (Crypto_Data f) (Crypto_Offset f) false with
    | (q, Some e) => (mkCryptoStream q (msgBuf s) highest (finished s) (cs_writeOffset s) (writeBuf s), Some e)
    | (q, None) =>
        let '(data, q) := drain (S (size (queue q))) q in
        (mkCryptoStream q (msgBuf s ++ data) highest (finished s) (cs_writeOffset s) (writeBuf s), None)
    end.

Definition GetCryptoData (s : cryptoStreamImpl) : option (list Z) * cryptoStreamImpl :=
  match msgBuf s with
  | _ :: b1 :: b2 :: b3 :: _ =>
      let msgLen := 4 + Z.shiftl b1 16 + Z.shiftl b2 8 + b3 in
      if len (msgBuf s) <? msgLen then (None, s)
      else (Some (take_z msgLen (msgBuf s)),
            mkCryptoStream (cs_queue s) (drop_z msgLen (msgBuf s)) (cs_highestOffset s) (finished s)
              (cs_writeOffset s) (writeBuf s))
  | _ => (None, s)
  end.

Definition Finish (s : cryptoStreamImpl) : cryptoStreamImpl * option go_error :=
  if HasMoreData (cs_queue s) then
    (s, Some (Errorf "encryption level changed, but crypto stream has more data to read" []))
  else (mkCryptoStream (cs_queue s) (msgBuf s) (cs_highestOffset s) true (cs_writeOffset s) (writeBuf s), None).

Definition crypto_Write (s : cryptoStreamImpl) (p : list Z) : cryptoStreamImpl :=
  mkCryptoStream (cs_queue s) (msgBuf s) (cs_highestOffset s) (finished s) (cs_writeOffset s) (writeBuf s ++ p).

Definition HasData (s : cryptoStreamImpl) : bool := 0 <? len (writeBuf s).

Definition PopCryptoFrame (s : cryptoStreamImpl) (maxLen : Z) : outcome (CryptoFrame * cryptoStreamImpl) :=
  maxDataLen ← CryptoFrame_MaxDataLen (mkCryptoFrame (cs_writeOffset s) []) maxLen;
  let n := MinByteCount maxDataLen (len (writeBuf s)) in
  Ok (mkCryptoFrame (cs_writeOffset s) (take_z n (writeBuf s)),
      mkCryptoStream (cs_queue s) (msgBuf s) (cs_highestOffset s) (finished s) (cs_writeOffset s +64 n)
        (drop_z n (writeBuf s))).

(** ** The manager *)

Record cryptoStreamManager : Type := mkCryptoManager {
  initialStream : cryptoStreamImpl;
  handshakeStream : cryptoStreamImpl }.

(** The stream of an encryption level, if it has one. *)
Definition level_stream (m : cryptoStreamManager) (encLevel : EncryptionLevel) : option cryptoStreamImpl :=
  match encLevel with
  | EncryptionInitial => Some (initialStream m)
  | EncryptionHandshake => Some (handshakeStream m)
  | _ => None
  end.

Definition set_level_stream (m : cryptoStreamManager) (encLevel : EncryptionLevel) (s : cryptoStreamImpl)
    : cryptoStreamManager :=
  match encLevel with
  | EncryptionInitial => mkCryptoManager s (handshakeStream m)
  | EncryptionHandshake => mkCryptoManager (initialStream m) s
  | _ => m
  end.

Section Manager.
(** [HandleMessage] of the crypto setup: whether the message ends the use of
    the encryption level, and the new state of the TLS stack; or a panic. *)
Context {H : Type} (HandleMessage : H -> list Z -> EncryptionLevel -> outcome (bool * H)).

(** The loop over the messages; each of them takes at least four bytes. *)
Fixpoint handle_messages (fuel : nat) (h : H) (encLevel : EncryptionLevel) (s : cryptoStreamImpl)
    : option (outcome (bool * option go_error * H * cryptoStreamImpl)) :=
  match fuel with
  | O => None
  | S fuel =>
      match GetCryptoData s with
      | (None, s) => Some (Ok (false, None, h, s))
      | (Some data, s) =>
          match HandleMessage h data encLevel with
          | Ok (true, h) => let '(s, err) := Finish s in Some (Ok (true, err, h, s))
          | Ok (false, h) => handle_messages fuel h encLevel s
          | Err e => Some (Err e)
          | Panic m => Some (Panic m)
          end
      end
  end.

(** [None] if the fuel is used up. *)
Definition HandleCryptoFrame (m : cryptoStreamManager) (h : H) (frame : CryptoFrame) (encLevel : EncryptionLevel)
    : option (outcome (bool * option go_error * H * cryptoStreamManager)) :=
  match level_stream m encLevel with
  | None => Some (Ok (false, Some (Errorf "received CRYPTO frame with unexpected encryption level: %s" []), h, m))
  | Some s =>
      match cs_HandleCryptoFrame s frame with
      | (s, Some e) => Some (Ok (false, Some e, h, set_level_stream m encLevel s))
      | (s, None) =>
          (fun r => '(changed, err, h, s) ← r; Ok (changed, err, h, set_level_stream m encLevel s))
            <$> handle_messages (S (length (msgBuf s))) h encLevel s
      end
  end.
End Manager.

(** ** Lemmas *)

(** A message with its length in its header. *)
Definition framed (d : list Z) : Prop :=
  exists t b1 b2 b3 rest, d = t :: b1 :: b2 :: b3 :: rest /\ len rest = b1 * 2 ^ 16 + b2 * 2 ^ 8 + b3.

Lemma GetCryptoData_spec s : bytes (msgBuf s) ->
  match GetCryptoData s with
  | (Some d, s') => framed d /\ msgBuf s = d ++ msgBuf s' /\ s' = mkCryptoStream (cs_queue s) (msgBuf s')
      (cs_highestOffset s) (finished s) (cs_writeOffset s) (writeBuf s)
  | (None, s') => s' = s /\ ~ exists d rest, msgBuf s = d ++ rest /\ framed d
  end.
Proof.
  intros Hb. unfold GetCryptoData.
  destruct (msgBuf s) as [| t [| b1 [| b2 [| b3 l]]]] eqn:Em;
    try (split; [done |]; by intros (d & rest & E & (? & ? & ? & ? & ? & -> & _))).
  assert (is_byte b1 /\ is_byte b2 /\ is_byte b3) as (B1 & B2 & B3).
  { rewrite !bytes_cons in Hb. tauto. }
  unfold is_byte in *. rewrite !Z.shiftl_mul_pow2 by lia. set (n := 4 + _ + _ + _).
  destruct (Z.ltb_spec (len (t :: b1 :: b2 :: b3 :: l)) n) as [Hlt | Hge].
  - split; [done |]. intros (d & rest & E & (t' & c1 & c2 & c3 & r & -> & Hr)).
    cbn in E. injection E as -> -> -> -> ->. rewrite !len_cons, len_app in Hlt.
    pose proof (len_nonneg rest). lia.
  - cbn [msgBuf]. split_and!; [| by rewrite take_drop_z | done].
    exists t, b1, b2, b3, (take_z (n - 4) l). rewrite !len_cons in Hge.
    split; [| rewrite len_take_z by lia; lia].
    unfold take_z. replace (Z.to_nat n) with (S (S (S (S (Z.to_nat (n - 4)))))) by lia. done.
Qed.

Lemma framed_long d : framed d -> (4 <= length d)%nat.
Proof. intros (? & ? & ? & ? & ? & -> & _). cbn. lia. Qed.

(** ** A crypto stream in use

    [cx_got] are the offsets and lengths of the frames received, [cx_msgs] the
    messages taken, [cx_written] the data written and [cx_sent] the frames
    sent. *)
Record cx_sys : Type := mkCx {
  cx_s : cryptoStreamImpl;
  cx_got : list (Z * Z);
  cx_msgs : list (list Z);
  cx_written : list Z;
  cx_sent : list CryptoFrame }.

Section InUse.
(** The bytes the peer sends. *)
Context (c : Z -> Z) (Hc : forall x, is_byte (c x)).

Inductive cx_step : cx_sys -> cx_sys -> Prop :=
  | cx_frame s got msgs w sent f s' : 0 <= Crypto_Offset f < 2 ^ 62 -> len (Crypto_Data f) < 2 ^ 62 ->
      Crypto_Data f = slice c (Crypto_Offset f) (len (Crypto_Data f)) ->
      cs_HandleCryptoFrame s f = (s', None) ->
      cx_step (mkCx s got msgs w sent)
        (mkCx s' ((Crypto_Offset f, len (Crypto_Data f)) :: got) msgs w sent)
  | cx_get s got msgs w sent d s' : GetCryptoData s = (Some d, s') ->
      cx_step (mkCx s got msgs w sent) (mkCx s' got (msgs ++ [d]) w sent)
  | cx_finish s got msgs w sent s' : Finish s = (s', None) ->
      cx_step (mkCx s got msgs w sent) (mkCx s' got msgs w sent)
  | cx_write s got msgs w sent p : bytes p -> len (w ++ p) < 2 ^ 60 ->
      cx_step (mkCx s got msgs w sent) (mkCx (crypto_Write s p) got msgs (w ++ p) sent)
  | cx_pop s got msgs w sent maxLen f s' : 0 <= maxLen < 2 ^ 14 -> PopCryptoFrame s maxLen = Ok (f, s') ->
      cx_step (mkCx s got msgs w sent) (mkCx s' got msgs w (sent ++ [f])).

Inductive cx_reach : cx_sys -> Prop :=
  | cx_new : cx_reach (mkCx newCryptoStream [] [] [] [])
  | cx_next x y : cx_reach x -> cx_step x y -> cx_reach y.

(** A byte that some frame has carried. *)
Definition carried (got : list (Z * Z)) (x : Z) : Prop := Exists (fun g => g.1 <= x < g.1 + g.2) got.

(** The frames sent follow each other. *)
Fixpoint consecutive (off : Z) (l : list CryptoFrame) : Prop :=
  match l with
  | [] => True
  | f :: l => Crypto_Offset f = off /\ consecutive (off + len (Crypto_Data f)) l
  end.
Definition sent_bytes (l : list CryptoFrame) : list Z := concat (Crypto_Data <$> l).

(** The sorter knows which bytes were carried, and has given all it can; a
    finished stream ignores what repeats the stream. *)
Record cx_inv (x : cx_sys) : Prop := {
  xi_queue : sorter_inv c (cs_queue (cx_s x));
  xi_missing : forall y, 0 <= y < MaxByteCount ->
    (missing (gaps (cs_queue (cx_s x))) y <-> ~ carried (cx_got x) y) \/ finished (cx_s x) = true;
  xi_drained : missing (gaps (cs_queue (cx_s x))) (readPos (cs_queue (cx_s x)));
  xi_data : concat (cx_msgs x) ++ msgBuf (cx_s x) = slice c 0 (readPos (cs_queue (cx_s x)));
  xi_framed : Forall framed (cx_msgs x);
  xi_highest : forall o n, (o, n) ∈ cx_got x -> 0 <= o /\ 0 <= n /\ o + n <= cs_highestOffset (cx_s x);
  xi_max : 0 <= cs_highestOffset (cx_s x) <= MaxCryptoStreamOffset;
  xi_sent : sent_bytes (cx_sent x) ++ writeBuf (cx_s x) = cx_written x;
  xi_written : bytes (cx_written x) /\ len (cx_written x) < 2 ^ 60;
  xi_offset : cs_writeOffset (cx_s x) = len (sent_bytes (cx_sent x));
  xi_offsets : consecutive 0 (cx_sent x) }.

Lemma bytes_slice a n : bytes (slice c a n).
Proof. unfold bytes, slice. apply Forall_fmap, Forall_forall. intros i _. apply Hc. Qed.

Lemma xi_bytes x : cx_inv x -> bytes (msgBuf (cx_s x)).
Proof.
  intros Hi. pose proof (bytes_slice 0 (readPos (cs_queue (cx_s x)))) as Hb.
  rewrite <- (xi_data x Hi) in Hb. apply bytes_app in Hb. tauto.
Qed.

Lemma consecutive_app off l f : consecutive off (l ++ [f]) <->
  consecutive off l /\ Crypto_Offset f = off + len (sent_bytes l).
Proof.
  revert off. induction l as [| g l IH]; intros off; cbn -[len].
  - unfold sent_bytes. cbn -[len]. rewrite len_nil, Z.add_0_r. tauto.
  - rewrite IH. unfold sent_bytes. cbn -[len]. rewrite len_app, Z.add_assoc. tauto.
Qed.

Lemma sent_bytes_app l f : sent_bytes (l ++ [f]) = sent_bytes l ++ Crypto_Data f.
Proof. unfold sent_bytes. by rewrite fmap_app, concat_app, <- (app_nil_r (Crypto_Data f)). Qed.

(** What popping a frame does: it takes the data that fits. *)
Lemma PopCryptoFrame_spec s maxLen : is_varint (cs_writeOffset s) -> 0 <= maxLen < 2 ^ 14 ->
  cs_writeOffset s + len (writeBuf s) < 2 ^ 62 -> bytes (writeBuf s) -> len (writeBuf s) < 2 ^ 60 ->
  exists f s', PopCryptoFrame s maxLen = Ok (f, s') /\ Crypto_Offset f = cs_writeOffset s
    /\ Crypto_Data f ++ writeBuf s' = writeBuf s
    /\ s' = mkCryptoStream (cs_queue s) (msgBuf s) (cs_highestOffset s) (finished s)
              (cs_writeOffset s + len (Crypto_Data f)) (writeBuf s')
    /\ (Crypto_Data f <> [] -> exists l, CryptoFrame_Length f = Ok l /\ l <= maxLen)
    /\ (16 <= maxLen -> writeBuf s <> [] -> Crypto_Data f <> []).
Proof.
  intros Ho Hm Hw Hb Hl. unfold PopCryptoFrame.
  rewrite (CryptoFrame_MaxDataLen_fit (mkCryptoFrame (cs_writeOffset s) []) maxLen) by done.
  cbn [Crypto_Offset mbind outcome_bind]. set (m := fit _ _ _). rewrite MinByteCount_min.
  set (n := Z.min m (len (writeBuf s))).
  pose proof (vlen_range (cs_writeOffset s)) as Hv. pose proof (len_nonneg (writeBuf s)) as Hnn.
  assert (Hm2 : 0 <= m <= maxLen) by (apply fit_range; lia).
  assert (Hn : 0 <= n <= len (writeBuf s)) by lia.
  assert (Hlt : len (take_z n (writeBuf s)) = n) by (by apply len_take_z).
  unfold is_varint, maxVarInt8 in Ho. do 2 eexists. split; [reflexivity |]. cbn [Crypto_Offset Crypto_Data writeBuf].
  rewrite Hlt, add64_small by lia. split_and!; try done; [by rewrite take_drop_z | |].
  - intros Hne. assert (Hpos : 0 < n) by (apply nonempty_len in Hne; lia).
    assert (Hfit : n <= m) by lia. apply fit_spec in Hfit; [| lia..].
    eexists. split; [| apply Hfit]. unfold CryptoFrame_Length. cbn [Crypto_Offset Crypto_Data]. rewrite Hlt.
    rewrite !VarIntLen_vlen by (unfold is_varint, maxVarInt8; lia). cbn [mbind outcome_bind].
    pose proof (vlen_range n). by norm64.
  - intros H16 Hne Hnil. apply (f_equal len) in Hnil. rewrite Hlt, len_nil in Hnil.
    apply nonempty_len in Hne. assert (Hm0 : m = 0) by lia. revert Hm0. unfold m, fit. cbv zeta.
    case_cmp; try lia; destruct (negb _); lia.
Qed.

Lemma frame_step s got msgs w sent f s' : cx_inv (mkCx s got msgs w sent) ->
  0 <= Crypto_Offset f < 2 ^ 62 -> len (Crypto_Data f) < 2 ^ 62 ->
  Crypto_Data f = slice c (Crypto_Offset f) (len (Crypto_Data f)) ->
  cs_HandleCryptoFrame s f = (s', None) ->
  cx_inv (mkCx s' ((Crypto_Offset f, len (Crypto_Data f)) :: got) msgs w sent).
Proof.
  intros [I1 I2 I3 I4 I5 I6 I7 I8 I9 I10 I11] Ho Hl Hd. cbn [cx_s cx_got cx_msgs cx_written cx_sent] in *.
  unfold cs_HandleCryptoFrame. pose proof (len_nonneg (Crypto_Data f)) as Hnn. rewrite add64_small by lia.
  destruct (Z.ltb_spec MaxCryptoStreamOffset (Crypto_Offset f + len (Crypto_Data f))) as [| Hmax]; [done |].
  assert (HM : MaxCryptoStreamOffset < MaxByteCount) by (unfold MaxCryptoStreamOffset, MaxByteCount; lia).
  destruct (finished s) eqn:Ef.
  { destruct (Z.ltb_spec (cs_highestOffset s) (Crypto_Offset f + len (Crypto_Data f))) as [| Hle]; [done |].
    intros E. injection E as <-. constructor; cbn [cx_s cx_got cx_msgs cx_written cx_sent]; try done.
    - intros y _. by right.
    - intros o n [E | E]%elem_of_cons; [| by apply I6]. injection E as -> ->. lia. }
  pose proof (Push_spec c (cs_queue s) (len (Crypto_Data f)) (Crypto_Offset f) false I1 Hnn ltac:(lia) ltac:(lia)) as Hp.
  rewrite <- Hd in Hp. destruct (Push _ _ _ _) as [q [e |]]; [done |]. destruct Hp as (P1 & P2 & P3).
  pose proof (drain_spec c (S (size (queue q))) q P1 ltac:(lia)) as Hdr.
  destruct (drain _ q) as [out q'] eqn:Ed. destruct Hdr as (D1 & D2 & D3 & D4 & D5).
  intros E. injection E as <-. rewrite MaxByteCount_max.
  constructor; cbn [cx_s cx_got cx_msgs cx_written cx_sent cs_queue msgBuf cs_highestOffset finished writeBuf
    cs_writeOffset]; try done; rewrite ?D5; try done.
  - intros y Hy. left. rewrite (P2 y). unfold carried. rewrite Exists_cons. cbn [fst snd].
    destruct (I2 y Hy) as [-> | ?]; [| congruence]. unfold carried. tauto.
  - rewrite app_assoc, I4, D1, P3. destruct I1 as (? & _).
    replace (slice c (readPos (cs_queue s))) with (slice c (0 + readPos (cs_queue s))) by done.
    rewrite P3 in D2. rewrite slice_app by lia. f_equal. lia.
  - intros o n [E | E]%elem_of_cons; [injection E as -> ->; lia |]. destruct (I6 o n E) as (? & ? & ?). lia.
  - lia.
Qed.

Lemma cx_step_inv x y : cx_inv x -> cx_step x y -> cx_inv y.
Proof.
  intros Hi Hs. destruct Hs as [s got msgs w sent f s' H1 H2 H3 E | s got msgs w sent d s' E
    | s got msgs w sent s' E | s got msgs w sent p H1 H2 | s got msgs w sent maxLen f s' H1 E].
  - by eapply frame_step.
  - pose proof (GetCryptoData_spec s (xi_bytes _ Hi)) as Hg. rewrite E in Hg. destruct Hg as (G1 & G2 & ->).
    destruct Hi. constructor; cbn in *; try done.
    + rewrite concat_app, <- app_assoc. cbn. by rewrite app_nil_r, <- G2.
    + apply Forall_app. auto.
  - unfold Finish in E. destruct (HasMoreData _); [done |]. injection E as <-.
    destruct Hi. constructor; cbn in *; try done. intros y Hy. by right.
  - destruct Hi. constructor; cbn -[len] in *; try done.
    + by rewrite app_assoc, xi_sent0.
    + split; [| done]. apply bytes_app. by destruct xi_written0.
  - destruct Hi as [I1 I2 I3 I4 I5 I6 I7 I8 [I9 I9'] I10 I11]. cbn [cx_s cx_got cx_msgs cx_written cx_sent] in *.
    assert (Hlw : len (sent_bytes sent) + len (writeBuf s) = len w) by (by rewrite <- I8, len_app).
    pose proof (len_nonneg (sent_bytes sent)). pose proof (len_nonneg (writeBuf s)).
    destruct (PopCryptoFrame_spec s maxLen) as (f' & s2 & E' & P1 & P2 & P3 & _).
    { unfold is_varint, maxVarInt8. lia. }
    { lia. }
    { lia. }
    { rewrite <- I8 in I9. apply bytes_app in I9. tauto. }
    { lia. }
    rewrite E' in E. injection E as -> ->. rewrite P3.
    constructor; cbn [cx_s cx_got cx_msgs cx_written cx_sent cs_queue msgBuf cs_highestOffset finished writeBuf
      cs_writeOffset]; try done.
    + by rewrite sent_bytes_app, <- app_assoc, P2.
    + by rewrite sent_bytes_app, len_app, I10.
    + apply consecutive_app. split; [done |]. rewrite P1, I10. lia.
Qed.

Lemma cx_reach_inv x : cx_reach x -> cx_inv x.
Proof.
  induction 1 as [| x y _ IH Hs]; [| by eapply cx_step_inv].
  constructor; cbn -[MaxByteCount len slice]; try done.
  - apply newFrameSorter_inv.
  - intros y Hy. left. split; [| intros _; constructor; unfold in_gap; cbn -[MaxByteCount]; lia].
    intros _ Hn. by apply Exists_nil in Hn.
  - constructor. unfold in_gap. cbn -[MaxByteCount]. unfold MaxByteCount. lia.
  - intros o n Hn. by apply elem_of_nil in Hn.
Qed.
End InUse.

(** ** Lemmas: handing over the messages *)

Section HandOver.
Context {H : Type} (HandleMessage : H -> list Z -> EncryptionLevel -> outcome (bool * H)) (level : EncryptionLevel).

(** The handler gets the messages in order, and only the last of them may end
    the use of the encryption level, or make it panic. *)
Inductive hand_over : H -> list (list Z) -> outcome (bool * H) -> Prop :=
  | ho_none h : hand_over h [] (Ok (false, h))
  | ho_last h d r : HandleMessage h d level = r -> (forall h', r <> Ok (false, h')) -> hand_over h [d] r
  | ho_more h d h1 l r : HandleMessage h d level = Ok (false, h1) -> hand_over h1 l r -> hand_over h (d :: l) r.

Lemma handle_messages_spec c (Hc : forall x, is_byte (c x)) fuel h s got msgs w sent :
  cx_reach c (mkCx s got msgs w sent) -> (length (msgBuf s) < fuel)%nat ->
  exists r new, handle_messages HandleMessage fuel h level s = Some r
    /\ hand_over h new ((fun '(changed, err, h', s') => (changed, h')) <$> r)
    /\ forall changed err h' s', r = Ok (changed, err, h', s') ->
         (err = None -> cx_reach c (mkCx s' got (msgs ++ new) w sent))
         /\ (changed = false -> err = None /\ ~ exists d rest, msgBuf s' = d ++ rest /\ framed d).
Proof.
  revert h s msgs. induction fuel as [| fuel IH]; intros h s msgs Hr Hf; [lia |]. cbn [handle_messages].
  pose proof (GetCryptoData_spec s (xi_bytes c Hc _ (cx_reach_inv c Hc _ Hr))) as Hg.
  destruct (GetCryptoData s) as [[d |] s1] eqn:Eg.
  - destruct Hg as (G1 & G2 & G3). apply framed_long in G1.
    assert (Hr1 : cx_reach c (mkCx s1 got (msgs ++ [d]) w sent)).
    { eapply cx_next; [apply Hr |]. by apply cx_get. }
    destruct (HandleMessage h d level) as [[[] h1] | e | m] eqn:Eh.
    + destruct (Finish s1) as [s2 err] eqn:Ef. eexists _, [d]. split_and!; [done | by apply ho_last |].
      intros ? ? ? ? [= <- <- <- <-]. split; [| done]. intros ->. eapply cx_next; [apply Hr1 |]. by apply cx_finish.
    + destruct (IH h1 s1 (msgs ++ [d]) Hr1) as (r & new & E & Ho & Hr').
      { rewrite G2, length_app in Hf. lia. }
      exists r, (d :: new). split_and!; [done | by eapply ho_more |].
      intros ch err h' s' He. specialize (Hr' ch err h' s' He). by rewrite <- app_assoc in Hr'.
    + eexists _, [d]. split_and!; [done | by apply ho_last | done].
    + eexists _, [d]. split_and!; [done | by apply ho_last | done].
  - destruct Hg as [-> Hn]. eexists _, []. split_and!; [done | constructor |].
    intros ? ? ? ? [= <- <- <- <-]. split; [| done]. by rewrite app_nil_r.
Qed.
End HandOver.

(** ** Theorems *)

(** C17. A crypto stream delivers and sends the handshake in order.  For every
    sequence of received CRYPTO frames, however the peer has cut its stream
    into frames, and of the other operations: the messages taken and what is
    left in the buffer are the stream up to the first byte that no frame has
    carried, each message is one with the length its header gives, the frames
    sent follow each other and carry what was written; and a frame can always be
    taken, fits into the space given, and carries data if there is some. *)
Theorem crypto_stream_correct c x : (forall y, is_byte (c y)) -> cx_reach c x ->
  let s := cx_s x in
  (exists m, 0 <= m /\ concat (cx_msgs x) ++ msgBuf s = slice c 0 m
     /\ (finished s = false -> (forall y, 0 <= y < m -> carried (cx_got x) y) /\ ~ carried (cx_got x) m))
  /\ Forall framed (cx_msgs x)
  /\ consecutive 0 (cx_sent x) /\ sent_bytes (cx_sent x) ++ writeBuf s = cx_written x
  /\ forall maxLen, 0 <= maxLen < 2 ^ 14 -> exists f s', PopCryptoFrame s maxLen = Ok (f, s')
     /\ (Crypto_Data f <> [] -> exists l, CryptoFrame_Length f = Ok l /\ l <= maxLen)
     /\ (16 <= maxLen -> HasData s = true -> Crypto_Data f <> []).
Proof.
  intros Hc Hr s. pose proof (cx_reach_inv c Hc x Hr) as [I1 I2 I3 I4 I5 I6 I7 I8 [I9 I9'] I10 I11].
  fold s in I1, I2, I3, I4, I8, I10. split_and!; [| done..|].
  - pose proof I1 as (Hrp & _ & Ht & _). pose proof (tiled_lower _ _ _ _ _ Ht I3) as Hlow.
    exists (readPos (cs_queue s)). split_and!; [done..|]. intros Hf. split.
    + intros y Hy. destruct (I2 y ltac:(lia)) as [Hm | ?]; [| congruence].
      destruct (Exists_dec (fun g : Z * Z => g.1 <= y < g.1 + g.2) (cx_got x)) as [| Hn]; [done |]. exfalso.
      apply Hm in Hn. pose proof (tiled_lower _ _ _ _ _ Ht Hn). lia.
    + destruct (I2 (readPos (cs_queue s)) ltac:(lia)) as [Hm | ?]; [| congruence]. by apply Hm.
  - intros maxLen Hm. assert (Hlw : len (sent_bytes (cx_sent x)) + len (writeBuf s) = len (cx_written x))
      by (by rewrite <- I8, len_app).
    pose proof (len_nonneg (sent_bytes (cx_sent x))). pose proof (len_nonneg (writeBuf s)).
    destruct (PopCryptoFrame_spec s maxLen) as (f' & s2 & E' & P1 & P2 & P3 & P4 & P5); try lia.
    { unfold is_varint, maxVarInt8. lia. }
    { rewrite <- I8 in I9. apply bytes_app in I9. tauto. }
    exists f', s2. split_and!; [done..|]. intros H16 Hh. apply P5; [done |].
    unfold HasData in Hh. intros E. rewrite E in Hh. done.
Qed.

(** The manager hands over the messages of an encryption level in order.
    For every TLS stack, handling a CRYPTO frame of that level ends; if the
    frame is refused, nothing is handed over; otherwise the complete messages
    are, until one of them ends the use of the level or makes the stack panic,
    and if none does, no complete message is left; the other level is not
    touched. *)
Theorem crypto_manager_correct {H : Type} (HandleMessage : H -> list Z -> EncryptionLevel -> outcome (bool * H))
    c m h frame level s got msgs w sent :
  (forall y, is_byte (c y)) -> level_stream m level = Some s -> cx_reach c (mkCx s got msgs w sent) ->
  0 <= Crypto_Offset frame < 2 ^ 62 -> len (Crypto_Data frame) < 2 ^ 62 ->
  Crypto_Data frame = slice c (Crypto_Offset frame) (len (Crypto_Data frame)) ->
  exists r, HandleCryptoFrame HandleMessage m h frame level
      = Some ((fun '(changed, err, h', s') => (changed, err, h', set_level_stream m level s')) <$> r)
    /\ match (cs_HandleCryptoFrame s frame).2 with
       | Some e => exists s', r = Ok (false, Some e, h, s')
       | None => exists new, hand_over HandleMessage level h new ((fun '(changed, err, h', s') => (changed, h')) <$> r)
           /\ forall changed err h' s', r = Ok (changed, err, h', s') ->
              (err = None -> cx_reach c
                 (mkCx s' ((Crypto_Offset frame, len (Crypto_Data frame)) :: got) (msgs ++ new) w sent))
              /\ (changed = false -> err = None /\ ~ exists d rest, msgBuf s' = d ++ rest /\ framed d)
       end.
Proof.
  intros Hc Hs Hr H1 H2 H3. unfold HandleCryptoFrame. rewrite Hs.
  destruct (cs_HandleCryptoFrame s frame) as [s1 [e |]] eqn:Ef.
  { exists (Ok (false, Some e, h, s1)). split; [done | by exists s1]. }
  assert (Hr1 : cx_reach c (mkCx s1 ((Crypto_Offset frame, len (Crypto_Data frame)) :: got) msgs w sent)).
  { eapply cx_next; [apply Hr |]. by apply cx_frame. }
  destruct (handle_messages_spec HandleMessage level c Hc (S (length (msgBuf s1))) h s1 _ msgs w sent Hr1 ltac:(lia))
    as (r & new & -> & Ho & Hr').
  exists r. split; [by destruct r as [[[[? ?] ?] ?] | |] | by exists new].
Qed.

(** A TLS stack that keeps its messages, and two messages in one frame. *)
Definition sample_handler (h : list (list Z)) (d : list Z) (_ : EncryptionLevel) : outcome (bool * list (list Z)) :=
  Ok (bool_decide (d = [1; 0; 0; 0]), h ++ [d]).
Definition two_messages : CryptoFrame := mkCryptoFrame 0 [1; 0; 0; 0; 2; 0; 0; 0].
Definition no_crypto : cryptoStreamManager := mkCryptoManager newCryptoStream newCryptoStream.

Lemma crypto_stream_correct_witness : let s := (crypto_Write newCryptoStream [5; 6]) in
  exists f s', PopCryptoFrame s 100 = Ok (f, s') /\ (16 <= 100 -> HasData s = true -> Crypto_Data f <> []).
Proof.
  assert (Hr : cx_reach (fun x => 0) (mkCx (crypto_Write newCryptoStream [5; 6]) [] [] ([] ++ [5; 6]) [])).
  { eapply cx_next; [apply cx_new |]. apply cx_write; [solve_bytes | by vm_compute]. }
  destruct (crypto_stream_correct (fun x => 0) _ ltac:(intros; unfold is_byte; lia) Hr) as (_ & _ & _ & _ & Hp).
  destruct (Hp 100 ltac:(lia)) as (f & s' & E & _ & Hd). exists f, s'. split; [exact E | exact Hd].
Defined.

Lemma crypto_manager_correct_witness :
  let c := fun x => if x =? 0 then 1 else if x =? 4 then 2 else 0 in
  exists r, HandleCryptoFrame sample_handler no_crypto [] two_messages EncryptionInitial
      = Some ((fun '(changed, err, h', s') => (changed, err, h', set_level_stream no_crypto EncryptionInitial s')) <$> r)
    /\ exists new, hand_over sample_handler EncryptionInitial [] new ((fun '(changed, err, h', s') => (changed, h')) <$> r).
Proof.
  intros c.
  destruct (crypto_manager_correct sample_handler c no_crypto [] two_messages EncryptionInitial newCryptoStream [] [] [] []
    ltac:(intros y; unfold c, is_byte; case_cmp; lia) eq_refl (cx_new c) ltac:(cbn; lia) ltac:(by vm_compute)
    ltac:(by vm_compute)) as (r & E & Hn).
  exists r. split; [exact E |]. vm_compute in Hn. destruct Hn as (new & Hn & _). exists new. exact Hn.
Defined.

(** The end of an encryption level does not check the buffer.  A message
    behind the one that ends the level, in the same frame, is neither handled
    nor refused: [Finish] only asks the sorter, which has given everything
    away.  When the frame is repeated, the message is handed over after all,
    although the level has ended. *)
Theorem finish_ignores_buffered :
  let first := HandleCryptoFrame sample_handler no_crypto [] two_messages EncryptionInitial in
  exists m1, first = Some (Ok (true, None, [[1; 0; 0; 0]], m1))
    /\ msgBuf (initialStream m1) = [2; 0; 0; 0] /\ finished (initialStream m1) = true
    /\ exists m2, HandleCryptoFrame sample_handler m1 [[1; 0; 0; 0]] two_messages EncryptionInitial
         = Some (Ok (false, None, [[1; 0; 0; 0]; [2; 0; 0; 0]], m2)).
Proof.
  eexists. split; [vm_compute; reflexivity |]. split; [done |]. split; [done |].
  eexists. vm_compute. reflexivity.
Qed.
