(* ===== verification/Framer.v ===== *)
(** * Collecting frames (framer.go, window_update_queue.go)

    The framer keeps the control frames to be sent and the queue of the streams
    that have data; the window update queue keeps the streams whose window is to
    be raised.  Both get at the streams through the session, which is the class
    [StreamGetter] here; the maps of send and receive streams implement it. *)

From S2P Require Import Prelude Qerr Varint Protocol AckFrame Frames FrameCodec FrameParser FrameSorter.
From S2P Require Import Float FlowControl SendStream ReceiveStream.

(** ** The streams of the session

    [get_send_stream] says whether there is a stream, without an error, and may
    open it; [pop_stream_frame] takes a frame of a stream and says whether there
    is more; [get_window_update] is [None] if there is no stream. *)
Class StreamGetter (W : Type) := {
  get_send_stream : W -> Z -> bool * W;
  pop_stream_frame : W -> Z -> Z -> outcome (option StreamFrame * bool * W);
  get_window_update : W -> Z -> option Z * W }.

(** What the framer relies on: a frame can be taken, is well-formed, and fits. *)
Class StreamGetterLaws (W : Type) `{StreamGetter W} (ok : W -> Prop) : Prop := {
  get_send_stream_ok w id : ok w -> ok (get_send_stream w id).2;
  pop_stream_frame_ok w id maxBytes : ok w -> (get_send_stream w id).1 = true ->
    MinStreamFrameSize <= maxBytes < 2 ^ 14 ->
    exists frame more w', pop_stream_frame (get_send_stream w id).2 id maxBytes = Ok (frame, more, w') /\ ok w'
      /\ forall f, frame = Some f -> Stream_StreamID f = id /\ frame_ok f /\ Stream_DataLenPresent f = true
           /\ exists l, StreamFrame_Length f = Ok l /\ 0 <= l <= maxBytes }.

(** ** The framer *)

Record framerI : Type := mkFramer {
  activeStreams : gset Z;
  streamQueue : list Z;
  controlFrames : list Frame }.

Definition newFramer : framerI := mkFramer ∅ [] [].

Definition QueueControlFrame (f : framerI) (frame : Frame) : framerI :=
  mkFramer (activeStreams f) (streamQueue f) (controlFrames f ++ [frame]).

Definition AddActiveStream (f : framerI) (id : Z) : framerI :=
  if bool_decide (id ∈ activeStreams f) then f
  else mkFramer ({[id]} ∪ activeStreams f) (streamQueue f ++ [id]) (controlFrames f).

Section Framer.
Context {Net : NetLib} {W : Type} {G : StreamGetter W}.

(** The loop that takes frames as long as they fit.  The framer takes its
    control frames from the end of their list, and [stack] is the list from its
    end; the packer takes those of a retransmission from the front. *)
Fixpoint take_control (stack frames : list Frame) (length maxLen : Z) : outcome (list Frame * Z * list Frame) :=
  match stack with
  | [] => Ok (frames, length, [])
  | frame :: rest =>
      frameLen ← Frame_Length frame;
      if maxLen <? length +64 frameLen then Ok (frames, length, stack)
      else take_control rest (frames ++ [frame]) (length +64 frameLen) maxLen
  end.

Definition AppendControlFrames (f : framerI) (frames : list Frame) (maxLen : Z) : outcome (list Frame * Z * framerI) :=
  '(frames, length, stack) ← take_control (rev (controlFrames f)) frames 0 maxLen;
  Ok (frames, length, mkFramer (activeStreams f) (streamQueue f) (rev stack)).

(** The loop over the [n] streams that are active at its start. *)
Fixpoint append_streams (n : nat) (f : framerI) (w : W) (frames : list Frame) (length maxLen : Z)
    : outcome (list Frame * framerI * W) :=
  match n with
  | O => Ok (frames, f, w)
  | S n =>
      if maxLen -64 length <? MinStreamFrameSize then Ok (frames, f, w) else
      match streamQueue f with
      | [] => Panic "index out of range"
      | id :: queue =>
          let '(found, w) := get_send_stream w id in
          if negb found then
            append_streams n (mkFramer (activeStreams f ∖ {[id]}) queue (controlFrames f)) w frames length maxLen
          else
            '(frame, hasMoreData, w) ← pop_stream_frame w id (maxLen -64 length);
            let f :=
              if hasMoreData : bool then mkFramer (activeStreams f) (queue ++ [id]) (controlFrames f)
              else mkFramer (activeStreams f ∖ {[id]}) queue (controlFrames f) in
            match frame with
            | None => append_streams n f w frames length maxLen
            | Some frame =>
                l ← StreamFrame_Length frame;
                append_streams n f w (frames ++ [Stream frame]) (length +64 l) maxLen
            end
      end
  end.

Definition AppendStreamFrames (f : framerI) (w : W) (frames : list Frame) (maxLen : Z)
    : outcome (list Frame * framerI * W) :=
  append_streams (length (streamQueue f)) f w frames 0 maxLen.

(** ** The window update queue *)

Record windowUpdateQueue : Type := mkWindowUpdateQueue {
  wuq_queue : gset Z;
  queuedConn : bool }.

Definition newWindowUpdateQueue : windowUpdateQueue := mkWindowUpdateQueue ∅ false.

Definition AddStream (q : windowUpdateQueue) (id : Z) : windowUpdateQueue :=
  mkWindowUpdateQueue ({[id]} ∪ wuq_queue q) (queuedConn q).

Definition AddConnection (q : windowUpdateQueue) : windowUpdateQueue :=
  mkWindowUpdateQueue (wuq_queue q) true.

(** The loop over the set; its entries are removed while it runs. *)
Fixpoint queue_streams (ids : list Z) (q : windowUpdateQueue) (w : W) (sent : list Frame)
    : list Frame * windowUpdateQueue * W :=
  match ids with
  | [] => (sent, q, w)
  | id :: ids =>
      match get_window_update w id with
      | (None, w) => queue_streams ids q w sent
      | (Some offset, w) =>
          if offset =? 0 then queue_streams ids q w sent
          else queue_streams ids (mkWindowUpdateQueue (wuq_queue q ∖ {[id]}) (queuedConn q)) w
                 (sent ++ [MaxStreamData (mkMaxStreamDataFrame id offset)])
      end
  end.

(** The frames given to the callback.  [order] is the order in which the map
    is walked through, and [connUpdate] the call of [GetWindowUpdate] of the
    connection, which may share its state with the streams. *)
Definition QueueAll (order : gset Z -> list Z) (connUpdate : W -> Z * W) (q : windowUpdateQueue) (w : W)
    : list Frame * windowUpdateQueue * W :=
  let '(sent, q, w) :=
    if queuedConn q then
      let '(offset, w) := connUpdate w in
      ([MaxData (mkMaxDataFrame offset)], mkWindowUpdateQueue (wuq_queue q) false, w)
    else ([], q, w) in
  queue_streams (order (wuq_queue q)) q w sent.
End Framer.

(** ** Lemmas: control frames *)

Section Theory.
Context {Net : NetLib}.

Fixpoint total_length (l : list Frame) : outcome Z :=
  match l with
  | [] => Ok 0
  | f :: l => a ← Frame_Length f; b ← total_length l; Ok (a + b)
  end.

Lemma total_length_app l k a b : total_length l = Ok a -> total_length k = Ok b ->
  total_length (l ++ k) = Ok (a + b).
Proof.
  revert a. induction l as [| f l IH]; intros a; cbn; [by intros [= <-] |].
  destruct (Frame_Length f) as [x | |]; cbn; [| done | done].
  destruct (total_length l) as [y | |]; cbn; [| done | done]. intros [= <-] Hb.
  rewrite (IH y eq_refl Hb). cbn. f_equal. lia.
Qed.

(** A frame that has a length, and not a huge one. *)
Definition has_length (f : Frame) : Prop := exists l, Frame_Length f = Ok l /\ 0 <= l < 2 ^ 32.

(** As many frames are taken as fit. *)
Lemma take_control_spec stack frames length maxLen : Forall has_length stack -> 0 <= length <= maxLen ->
  maxLen < 2 ^ 32 ->
  exists taken rest t, take_control stack frames length maxLen = Ok (frames ++ taken, length + t, rest)
    /\ stack = taken ++ rest /\ total_length taken = Ok t /\ 0 <= t /\ length + t <= maxLen
    /\ forall f rest', rest = f :: rest' -> exists l, Frame_Length f = Ok l /\ maxLen < length + t + l.
Proof.
  revert frames length. induction stack as [| f stack IH]; intros frames length Hs Hl Hm; cbn [take_control].
  - exists [], [], 0. rewrite app_nil_r, Z.add_0_r. split_and!; try done; lia.
  - apply Forall_cons in Hs as [(l & El & Hlr) Hs]. rewrite El. cbn [mbind outcome_bind].
    rewrite add64_small by lia. destruct (Z.ltb_spec maxLen (length + l)).
    + exists [], (f :: stack), 0. rewrite app_nil_r, Z.add_0_r. split_and!; try done; try lia.
      intros ? ? [= <- <-]. by exists l.
    + destruct (IH (frames ++ [f]) (length + l) Hs ltac:(lia) Hm) as (taken & rest & t & -> & -> & Et & H0 & Hle & Hn).
      exists (f :: taken), rest, (l + t). rewrite <- app_assoc, Z.add_assoc. split_and!; try done; try lia.
      cbn [total_length]. by rewrite El, Et.
Qed.

(** Control frames are neither lost nor sent twice. *)
Lemma AppendControlFrames_spec f frames maxLen : Forall has_length (controlFrames f) -> 0 <= maxLen < 2 ^ 32 ->
  exists taken t f', AppendControlFrames f frames maxLen = Ok (frames ++ taken, t, f')
    /\ controlFrames f = controlFrames f' ++ rev taken
    /\ streamQueue f' = streamQueue f /\ activeStreams f' = activeStreams f
    /\ total_length taken = Ok t /\ t <= maxLen
    /\ forall l next, controlFrames f' = l ++ [next] -> exists n, Frame_Length next = Ok n /\ maxLen < t + n.
Proof.
  intros Hf Hm. unfold AppendControlFrames.
  destruct (take_control_spec (rev (controlFrames f)) frames 0 maxLen) as (taken & rest & t & -> & Er & Et & H0 & Hle & Hn);
    [by apply Forall_rev | lia | lia |].
  cbn [mbind outcome_bind]. exists taken, t, (mkFramer (activeStreams f) (streamQueue f) (rev rest)).
  split_and!; try done.
  - cbn [controlFrames]. rewrite <- rev_app_distr, <- Er. by rewrite rev_involutive.
  - intros l next E. cbn [controlFrames] in E. apply (f_equal (@rev Frame)) in E.
    rewrite rev_involutive, rev_app_distr in E. cbn in E. destruct (Hn next (rev l) E) as (n & En & Hn').
    exists n. split; [done | lia].
Qed.

(** ** Lemmas: stream frames *)

(** Every active stream is in the queue, once. *)
Definition framer_ok (f : framerI) : Prop :=
  NoDup (streamQueue f) /\ activeStreams f = list_to_set (streamQueue f).

Lemma newFramer_ok : framer_ok newFramer.
Proof. split; [constructor | done]. Qed.

Lemma AddActiveStream_ok f id : framer_ok f ->
  framer_ok (AddActiveStream f id) /\ id ∈ streamQueue (AddActiveStream f id)
  /\ streamQueue f `prefix_of` streamQueue (AddActiveStream f id).
Proof.
  intros [Hn Ha]. unfold AddActiveStream. case_bool_decide as Hin.
  - split_and!; [done | | done]. rewrite Ha in Hin. by apply elem_of_list_to_set in Hin.
  - cbn [streamQueue]. rewrite Ha in Hin. split_and!.
    + split; cbn [streamQueue activeStreams].
      * apply NoDup_app. split_and!; [done | | apply NoDup_singleton].
        intros x Hx Hx2. apply list_elem_of_singleton in Hx2 as ->. apply Hin. by apply elem_of_list_to_set.
      * rewrite Ha, list_to_set_app_L. cbn. set_solver.
    + apply elem_of_app. right. by apply list_elem_of_singleton.
    + by apply prefix_app_r.
Qed.

(** Taking a stream from the front of the queue, and putting it to the end. *)
Lemma framer_ok_drop act id q cf : framer_ok (mkFramer act (id :: q) cf) ->
  framer_ok (mkFramer (act ∖ {[id]}) q cf) /\ framer_ok (mkFramer act (q ++ [id]) cf).
Proof.
  intros [Hn Ha]. cbn [streamQueue activeStreams] in *. apply NoDup_cons in Hn as [Hid Hn].
  rewrite list_to_set_cons in Ha. assert (id ∉ (list_to_set q : gset Z)) by (by rewrite elem_of_list_to_set).
  split; (split; cbn [streamQueue activeStreams]).
  - done.
  - rewrite Ha. set_solver.
  - apply NoDup_app. split_and!; [done | | apply NoDup_singleton].
    by intros x Hx ->%list_elem_of_singleton.
  - rewrite Ha, list_to_set_app_L. cbn. set_solver.
Qed.
End Theory.

Section Rounds.
Context {Net : NetLib} {W : Type} {G : StreamGetter W} {ok : W -> Prop} {Laws : StreamGetterLaws W ok}.

(** One round over some streams: the frames they give, and those of them that
    have more. *)
Inductive round : W -> list Z -> list Frame -> list Z -> W -> Prop :=
  | round_end w : round w [] [] [] w
  | round_gone w id ids new kept w' : (get_send_stream w id).1 = false ->
      round (get_send_stream w id).2 ids new kept w' -> round w (id :: ids) new kept w'
  | round_pop w id ids space frame (more : bool) w1 new kept w' : (get_send_stream w id).1 = true ->
      MinStreamFrameSize <= space -> pop_stream_frame (get_send_stream w id).2 id space = Ok (frame, more, w1) ->
      round w1 ids new kept w' ->
      round w (id :: ids) (option_list (Stream <$> frame) ++ new) (if more then id :: kept else kept) w'.

(** A well-formed STREAM frame with its length. *)
Definition full_stream (f : Frame) : Prop := exists sf, f = Stream sf /\ frame_ok sf /\ Stream_DataLenPresent sf = true.

Lemma append_streams_spec todo f w frames length maxLen back : ok w -> framer_ok f ->
  streamQueue f = todo ++ back -> 0 <= length <= maxLen -> maxLen < 2 ^ 14 ->
  exists new f' w' served rest kept t,
    append_streams (List.length todo) f w frames length maxLen = Ok (frames ++ new, f', w')
    /\ ok w' /\ framer_ok f' /\ controlFrames f' = controlFrames f
    /\ todo = served ++ rest /\ streamQueue f' = rest ++ back ++ kept /\ round w served new kept w'
    /\ total_length new = Ok t /\ 0 <= t /\ length + t <= maxLen
    /\ (rest = [] \/ maxLen - length - t < MinStreamFrameSize) /\ Forall full_stream new.
Proof.
  revert f w frames length back. induction todo as [| id todo IH]; intros f w frames length back Hw Hf Hq Hl Hm.
  { exists [], f, w, [], [], [], 0. cbn [List.length append_streams]. rewrite !app_nil_r, Hq.
    split_and!; try done; [constructor | lia | by left]. }
  cbn [List.length append_streams]. rewrite sub64_small by lia.
  destruct (Z.ltb_spec (maxLen - length) MinStreamFrameSize) as [Hlt | Hge].
  { exists [], f, w, [], (id :: todo), [], 0. rewrite !app_nil_r, Hq.
    split_and!; try done; [constructor | lia | right; lia]. }
  rewrite Hq. cbn [app]. destruct f as [act q cf]. cbn [streamQueue activeStreams controlFrames] in *. subst q.
  destruct (framer_ok_drop act id (todo ++ back) cf Hf) as [Hdrop Hback].
  pose proof (get_send_stream_ok w id Hw) as Hw1. pose proof (pop_stream_frame_ok w id (maxLen - length) Hw) as Hpop.
  destruct (get_send_stream w id) as [[] w1] eqn:Eg; cbn [fst snd negb] in *.
  2: { destruct (IH (mkFramer (act ∖ {[id]}) (todo ++ back) cf) w1 frames length back Hw1 Hdrop eq_refl Hl Hm)
         as (new & f' & w' & served & rest & kept & t & -> & R1 & R2 & R3 & -> & R5 & R6 & R7).
       exists new, f', w', (id :: served), rest, kept, t. split_and!; try done; try apply R7.
       by apply round_gone; rewrite Eg. }
  destruct Hpop as (frame & more & w2 & Ep & Hw2 & Hfr); [done | lia |]. rewrite Ep. cbn [mbind outcome_bind].
  set (f2 := if more then _ else _).
  assert (Hf2 : framer_ok f2 /\ controlFrames f2 = cf
    /\ streamQueue f2 = todo ++ back ++ (if more then [id] else [])).
  { unfold f2. destruct more; split_and!; try done; cbn [streamQueue]; by rewrite ?app_assoc, ?app_nil_r. }
  destruct Hf2 as (F1 & F2 & F3).
  assert (Hl2 : exists l, total_length (option_list (Stream <$> frame)) = Ok l /\ 0 <= l /\ length + l <= maxLen
    /\ match frame with
       | None => append_streams (List.length todo) f2 w2 frames length maxLen
       | Some frame => l ← StreamFrame_Length frame;
           append_streams (List.length todo) f2 w2 (frames ++ [Stream frame]) (length +64 l) maxLen
       end = append_streams (List.length todo) f2 w2 (frames ++ option_list (Stream <$> frame)) (length + l) maxLen).
  { destruct frame as [fr |].
    - destruct (Hfr fr eq_refl) as (_ & _ & _ & l & El & Hlr). exists l. cbn. rewrite El. cbn [mbind outcome_bind].
      rewrite add64_small by lia. split_and!; try lia; [f_equal; lia | done].
    - exists 0. cbn. rewrite app_nil_r, Z.add_0_r. split_and!; try done; lia. }
  assert (Hfull : Forall full_stream (option_list (Stream <$> frame))).
  { destruct frame as [fr |]; [| done]. destruct (Hfr fr eq_refl) as (_ & H1 & H2 & _). constructor; [by exists fr | done]. }
  destruct Hl2 as (l & El & Hl0 & Hl1 & ->).
  destruct (IH f2 w2 (frames ++ option_list (Stream <$> frame)) (length + l)
    (back ++ (if more then [id] else [])) Hw2 F1 F3 ltac:(lia) Hm)
    as (new & f' & w' & served & rest & kept & t & -> & R1 & R2 & R3 & -> & R5 & R6 & R7 & R8 & R9 & R10 & R11).
  exists (option_list (Stream <$> frame) ++ new), f', w', (id :: served), rest, (if more then id :: kept else kept), (l + t).
  split_and!; try done; try lia.
  - by rewrite app_assoc.
  - by rewrite R3.
  - rewrite R5. destruct more; by rewrite <- !app_assoc.
  - eapply (round_pop w id served (maxLen - length)); rewrite ?Eg; done.
  - by apply total_length_app.
  - destruct R10; [by left | right; lia].
  - by apply Forall_app.
Qed.
End Rounds.

(** ** Lemmas: window updates *)

Section Updates.
Context {W : Type} {G : StreamGetter W}.

(** Asking some streams for their updates. *)
Inductive update_round : W -> list Z -> list (Z * Z) -> W -> Prop :=
  | ur_end w : update_round w [] [] w
  | ur_none w id ids upd w' :
      (get_window_update w id).1 = None \/ (get_window_update w id).1 = Some 0 ->
      update_round (get_window_update w id).2 ids upd w' -> update_round w (id :: ids) upd w'
  | ur_some w id ids offset upd w' : (get_window_update w id).1 = Some offset -> offset <> 0 ->
      update_round (get_window_update w id).2 ids upd w' -> update_round w (id :: ids) ((id, offset) :: upd) w'.

Definition update_frame (u : Z * Z) : Frame := MaxStreamData (mkMaxStreamDataFrame u.1 u.2).

Lemma queue_streams_spec ids q w sent : exists upd w',
  queue_streams ids q w sent
    = (sent ++ (update_frame <$> upd), mkWindowUpdateQueue (wuq_queue q ∖ list_to_set upd.*1) (queuedConn q), w')
  /\ update_round w ids upd w'.
Proof.
  revert q w sent. induction ids as [| id ids IH]; intros q w sent; cbn [queue_streams].
  { exists [], w. rewrite app_nil_r. split; [| constructor]. destruct q. do 2 f_equal. cbn. by rewrite difference_empty_L. }
  destruct (get_window_update w id) as [[offset |] w1] eqn:Eg.
  - destruct (Z.eqb_spec offset 0) as [-> | Hne].
    + destruct (IH q w1 sent) as (upd & w' & -> & Hr). exists upd, w'. split; [done |].
      apply ur_none; rewrite Eg; auto.
    + destruct (IH (mkWindowUpdateQueue (wuq_queue q ∖ {[id]}) (queuedConn q)) w1
        (sent ++ [MaxStreamData (mkMaxStreamDataFrame id offset)])) as (upd & w' & -> & Hr).
      exists ((id, offset) :: upd), w'. split; [| by apply ur_some; rewrite ?Eg].
      cbn [wuq_queue queuedConn fmap list_fmap fst list_to_set]. rewrite <- app_assoc. do 3 f_equal. set_solver.
  - destruct (IH q w1 sent) as (upd & w' & -> & Hr). exists upd, w'. split; [done |].
    apply ur_none; rewrite Eg; auto.
Qed.
End Updates.

(** ** Theorems *)

(** The framer fills a packet fairly and keeps what does not fit.  From any
    state in which every active stream is queued once: control frames are taken
    from the end of their list as long as they fit, and the others stay; then
    the streams at the front of the queue are asked in turn, once each, until
    less than [MinStreamFrameSize] is left; those that have more data go to the
    end of the queue, in order, and no other stream leaves it; the frames
    appended have the length allowed at most; and the state stays of that kind,
    also when a stream becomes active. *)
Theorem framer_correct {Net : NetLib} {W : Type} {G : StreamGetter W} {ok : W -> Prop} {Laws : StreamGetterLaws W ok}
    f w frames maxLen id : framer_ok f -> ok w -> Forall has_length (controlFrames f) -> 0 <= maxLen < 2 ^ 14 ->
  (exists taken t f', AppendControlFrames f frames maxLen = Ok (frames ++ taken, t, f') /\ framer_ok f'
     /\ controlFrames f = controlFrames f' ++ rev taken /\ total_length taken = Ok t /\ t <= maxLen
     /\ forall l next, controlFrames f' = l ++ [next] -> exists n, Frame_Length next = Ok n /\ maxLen < t + n)
  /\ (exists new f' w' served rest kept t, AppendStreamFrames f w frames maxLen = Ok (frames ++ new, f', w')
     /\ ok w' /\ framer_ok f' /\ controlFrames f' = controlFrames f
     /\ streamQueue f = served ++ rest /\ streamQueue f' = rest ++ kept /\ round w served new kept w'
     /\ total_length new = Ok t /\ t <= maxLen /\ (rest = [] \/ maxLen - t < MinStreamFrameSize))
  /\ framer_ok (AddActiveStream f id) /\ id ∈ streamQueue (AddActiveStream f id)
  /\ streamQueue f `prefix_of` streamQueue (AddActiveStream f id).
Proof.
  intros Hf Hw Hc Hm. split_and!; try by apply AddActiveStream_ok.
  - destruct (AppendControlFrames_spec f frames maxLen Hc ltac:(lia)) as (taken & t & f' & E & H1 & H2 & H3 & H4).
    exists taken, t, f'. split_and!; try done; try apply H4. unfold framer_ok. by rewrite H2, H3.
  - destruct (append_streams_spec (streamQueue f) f w frames 0 maxLen [] Hw Hf)
      as (new & f' & w' & served & rest & kept & t & E & H1 & H2 & H3 & H4 & H5 & H6 & H7 & H8 & H9 & H10 & _);
      [by rewrite app_nil_r | lia | lia |].
    exists new, f', w', served, rest, kept, t. split_and!; try done; try lia.
    destruct H10; [by left | right; lia].
Qed.

(** The window update queue sends the updates there are.  The update of the
    connection comes first if it was queued, each stream in the set is asked
    once, for every stream with an update there is one MAX_STREAM_DATA frame,
    and exactly these streams leave the set: a stream that has been completed,
    or has no update any more, stays in it. *)
Theorem window_updates_exact {W : Type} {G : StreamGetter W} order (connUpdate : W -> Z * W) q w :
  (forall s, order s ≡ₚ elements s) ->
  let w1 := if queuedConn q then (connUpdate w).2 else w in
  exists upd w', update_round w1 (order (wuq_queue q)) upd w'
    /\ QueueAll order connUpdate q w
       = ((if queuedConn q then [MaxData (mkMaxDataFrame (connUpdate w).1)] else []) ++ (update_frame <$> upd),
          mkWindowUpdateQueue (wuq_queue q ∖ list_to_set upd.*1) false, w')
    /\ NoDup (order (wuq_queue q)) /\ forall id, id ∈ order (wuq_queue q) <-> id ∈ wuq_queue q.
Proof.
  intros Ho w1. unfold QueueAll. subst w1. destruct (queuedConn q) eqn:Ec.
  - destruct (connUpdate w) as [offset w1]. cbn [fst snd wuq_queue].
    destruct (queue_streams_spec (order (wuq_queue q)) (mkWindowUpdateQueue (wuq_queue q) false) w1
      [MaxData (mkMaxDataFrame offset)]) as (upd & w' & -> & Hr).
    exists upd, w'. split_and!; [done | done | rewrite Ho; apply NoDup_elements |].
    intros id. by rewrite Ho, elem_of_elements.
  - destruct (queue_streams_spec (order (wuq_queue q)) q w []) as (upd & w' & -> & Hr).
    exists upd, w'. rewrite Ec. split_and!; [done | done | rewrite Ho; apply NoDup_elements |].
    intros id. by rewrite Ho, elem_of_elements.
Qed.

(** ** The streams of a session implement the interface *)

(** The streams by their identifier, the flow controller of the connection,
    what the streams told the session, the time and the round-trip time. *)
Record session_streams : Type := mkSessionStreams {
  st_send : gmap Z sendStream;
  st_receive : gmap Z receiveStream;
  st_conn : baseFlowController;
  st_calls : list sender_call;
  st_now : Z;
  st_rtt : Z }.

#[export] Instance session_StreamGetter : StreamGetter session_streams := {
  get_send_stream w id := (bool_decide (is_Some (st_send w !! id)), w);
  pop_stream_frame w id maxBytes :=
    match st_send w !! id with
    | None => Panic "nil pointer dereference"
    | Some s =>
        '(frame, more, calls, s, conn) ← popStreamFrame s (st_conn w) maxBytes;
        Ok (frame, more, mkSessionStreams (<[id := s]> (st_send w)) (st_receive w) conn (st_calls w ++ calls)
              (st_now w) (st_rtt w))
    end;
  get_window_update w id :=
    match st_receive w !! id with
    | None => (None, w)
    | Some s =>
        let '(offset, s, conn) := rs_getWindowUpdate (st_now w) (st_rtt w) s (st_conn w) in
        (Some offset, mkSessionStreams (st_send w) (<[id := s]> (st_receive w)) conn (st_calls w) (st_now w) (st_rtt w))
    end }.

Definition session_streams_ok (w : session_streams) : Prop :=
  map_Forall (fun id s => ss_streamID s = id /\ ss_ok s (st_conn w)) (st_send w).

Lemma StreamFrame_Length_nonneg f l : StreamFrame_Length f = Ok l -> 0 <= l.
Proof.
  unfold StreamFrame_Length. intros (a & _ & (b & _ & (d & _ & E)%outcome_bind_Ok)%outcome_bind_Ok)%outcome_bind_Ok.
  injection E as <-. apply u64_range.
Qed.

#[export] Instance session_StreamGetterLaws : StreamGetterLaws session_streams session_streams_ok.
Proof.
  split; [done |]. intros w id maxBytes Hw Hg Hm. cbn in *. apply bool_decide_eq_true in Hg as [s Es]. rewrite Es.
  destruct (Hw id s Es) as [Hid Hs]. unfold MinStreamFrameSize in Hm.
  destruct (popImpl_ok s (st_conn w) maxBytes Hs ltac:(lia)) as (r & s' & conn' & E & P).
  unfold popStreamFrame. rewrite E. cbn [mbind outcome_bind]. eexists _, _, _. split; [done |].
  pose proof (po_core _ _ _ _ _ _ P) as Hcore. unfold ss_core in Hcore. injection Hcore as Hid' _ _ _ _ _ _ _ _.
  split.
  - intros i t. cbn [st_send st_conn]. destruct (decide (i = id)) as [-> | Hne].
    + rewrite lookup_insert_eq. intros [= <-]. split; [congruence |]. by apply (po_ok _ _ _ _ _ _ P).
    + rewrite lookup_insert_ne by done. intros Ht. destruct (Hw i t Ht) as [Hi [T1 T2 T3 T4 T5]]. split; [done |].
      constructor; try done. apply (po_ok _ _ _ _ _ _ P).
  - intros f Ef. pose proof (po_frame _ _ _ _ _ _ P) as Hf. rewrite Ef in Hf.
    destruct Hf as (Ef' & Hne & _ & l & El & Hl). rewrite Ef'. cbn [Stream_StreamID]. split; [done |].
    rewrite Ef' in El. split; [| split; [done |]; exists l; split; [done |]; by split; [apply StreamFrame_Length_nonneg in El |]].
    pose proof (po_ok _ _ _ _ _ _ P) as [K1 [K2 K2'] K3 K4 K5]. pose proof (po_offset _ _ _ _ _ _ P) as Ho.
    rewrite Ef in Ho. cbn [frame_data] in Ho. destruct Hs as [L1 [L2 L2'] L3 L4 L5].
    pose proof (len_nonneg (Stream_Data f)). assert (MaxByteCount = 2 ^ 62 - 1) by done.
    split; [exact L1 |]. split; [unfold is_varint, maxVarInt8; cbn [Stream_Offset]; lia |].
    split; [| split; [cbn [Stream_Offset Stream_Data]; lia | done]]. cbn [Stream_Data].
    pose proof (po_data _ _ _ _ _ _ P) as Hd. rewrite Ef in Hd. cbn [frame_data] in Hd.
    destruct (dataForWriting s) as [d |].
    + destruct (L5 d eq_refl) as [Hsd _]. change (d = Stream_Data f ++ default [] (dataForWriting s')) in Hd. rewrite Hd in Hsd. by apply small_data_app in Hsd as [? _].
    + symmetry in Hd. apply app_eq_nil in Hd as [-> _]. split; [constructor | by vm_compute].
Qed.

(** A session with one stream, to which three bytes were written. *)
Definition sample_session : session_streams :=
  mkSessionStreams {[4 := sample_writing]} ∅ sample_conn [] 0 0.
Definition sample_framer : framerI := QueueControlFrame (AddActiveStream newFramer 4) Ping.

Lemma sample_session_ok : session_streams_ok sample_session.
Proof.
  intros id s. cbn [st_send st_conn sample_session]. intros [<- <-]%lookup_singleton_Some. split; [done |].
  constructor; cbn; try done; try (split; cbn; lia).
  intros d [= <-]. split; [split; [solve_bytes | by vm_compute] | done].
Qed.

Lemma framer_correct_witness :
  exists new f' w' served rest kept t, AppendStreamFrames sample_framer sample_session [] 1000 = Ok ([] ++ new, f', w')
    /\ streamQueue sample_framer = served ++ rest /\ streamQueue f' = rest ++ kept
    /\ round sample_session served new kept w' /\ total_length (Net := loopback_net) new = Ok t /\ t <= 1000.
Proof.
  destruct (framer_correct (Net := loopback_net) sample_framer sample_session [] 1000 8) as (_ & Hs & _).
  - apply AddActiveStream_ok, newFramer_ok.
  - apply sample_session_ok.
  - constructor; [| constructor]. exists 1. split; [reflexivity | lia].
  - lia.
  - destruct Hs as (new & f' & w' & served & rest & kept & t & H1 & _ & _ & _ & H5 & H6 & H7 & H8 & H9 & _).
    exists new, f', w', served, rest, kept, t. split_and!; assumption.
Defined.

Lemma window_updates_exact_witness : exists upd w',
  update_round sample_session (elements (wuq_queue (AddStream newWindowUpdateQueue 4))) upd w'.
Proof.
  destruct (window_updates_exact elements (fun w => (7, w)) (AddStream newWindowUpdateQueue 4) sample_session
    (fun s => reflexivity _)) as (upd & w' & Hr & _).
  exists upd, w'. exact Hr.
Defined.
