(* ===== verification/Packer.v ===== *)
(** * Packing packets (packet_packer.go)

    The packer composes packets from ACKs, control frames, stream data and
    handshake data, writes the header and the frames and seals them.  What it
    uses of the other components, the interfaces at the head of the file, is the
    class [PackerEnv]; sealers are the AEADs of the TLS stack and parameters.
    The theorems say that packets have the right size and contain all the
    frames. *)

From S2P Require Import Prelude Qerr Varint Protocol AckFrame Frames FrameCodec FrameParser FrameSorter.
From S2P Require Import Header Float FlowControl SentHistory SendStream ReceiveStream CryptoStream Framer.

(** ** What the packer uses *)

(** [Seal], of the payload, the packet number and the associated data. *)
Record Sealer : Type := mkSealer {
  Overhead : Z;
  Seal : list Z -> Z -> list Z -> list Z }.

(** packetNumberManager, sealingManager, frameSource and ackFrameSource. *)
Class PackerEnv (W : Type) := {
  env_PeekPacketNumber : W -> Z * Z;
  env_PopPacketNumber : W -> Z * W;
  env_GetSealer : W -> EncryptionLevel * Sealer;
  env_GetSealerWithEncryptionLevel : W -> EncryptionLevel -> outcome Sealer;
  env_AppendStreamFrames : W -> list Frame -> Z -> outcome (list Frame * W);
  env_AppendControlFrames : W -> list Frame -> Z -> outcome (list Frame * Z * W);
  env_GetAckFrame : W -> option AckFrame * W }.

Record packedPacket : Type := mkPackedPacket {
  pk_header : Header;
  pk_raw : list Z;
  pk_frames : list Frame;
  pk_encryptionLevel : EncryptionLevel }.

Definition ToAckHandlerPacket (now : Z) (p : packedPacket) : Packet :=
  mkPacket (Header_PacketNumber (pk_header p)) (Header_Type (pk_header p)) (pk_frames p) (len (pk_raw p))
    (pk_encryptionLevel p) now 0 false false [] false 0.

Record packetPacker : Type := mkPacker {
  p_destConnID : list Z;
  p_srcConnID : list Z;
  p_perspective : Perspective;
  p_version : Z;
  p_initialStream : cryptoStreamImpl;
  p_handshakeStream : cryptoStreamImpl;
  p_token : list Z;
  p_maxPacketSize : Z;
  p_hasSentPacket : bool;
  p_numNonRetransmittableAcks : Z }.

Definition newPacketPacker (dest src : list Z) (initial handshake : cryptoStreamImpl) (token : list Z)
    (perspective : Perspective) (version : Z) : packetPacker :=
  mkPacker dest src perspective version initial handshake token MaxPacketSizeIPv6 false 0.

Definition set_p_initialStream (p : packetPacker) (x : cryptoStreamImpl) : packetPacker :=
  mkPacker (p_destConnID p) (p_srcConnID p) (p_perspective p) (p_version p) x (p_handshakeStream p) (p_token p)
    (p_maxPacketSize p) (p_hasSentPacket p) (p_numNonRetransmittableAcks p).
Definition set_p_handshakeStream (p : packetPacker) (x : cryptoStreamImpl) : packetPacker :=
  mkPacker (p_destConnID p) (p_srcConnID p) (p_perspective p) (p_version p) (p_initialStream p) x (p_token p)
    (p_maxPacketSize p) (p_hasSentPacket p) (p_numNonRetransmittableAcks p).
Definition set_p_hasSentPacket (p : packetPacker) (x : bool) : packetPacker :=
  mkPacker (p_destConnID p) (p_srcConnID p) (p_perspective p) (p_version p) (p_initialStream p) (p_handshakeStream p)
    (p_token p) (p_maxPacketSize p) x (p_numNonRetransmittableAcks p).
Definition set_p_numNonRetransmittableAcks (p : packetPacker) (x : Z) : packetPacker :=
  mkPacker (p_destConnID p) (p_srcConnID p) (p_perspective p) (p_version p) (p_initialStream p) (p_handshakeStream p)
    (p_token p) (p_maxPacketSize p) (p_hasSentPacket p) x.
Definition ChangeDestConnectionID (p : packetPacker) (connID : list Z) : packetPacker :=
  mkPacker connID (p_srcConnID p) (p_perspective p) (p_version p) (p_initialStream p) (p_handshakeStream p)
    (p_token p) (p_maxPacketSize p) (p_hasSentPacket p) (p_numNonRetransmittableAcks p).

(** [maxPacketSize] is the parameter the peer has sent, 0 if it has not. *)
Definition packer_HandleTransportParameters (p : packetPacker) (maxPacketSize : Z) : packetPacker :=
  if maxPacketSize =? 0 then p
  else mkPacker (p_destConnID p) (p_srcConnID p) (p_perspective p) (p_version p) (p_initialStream p)
         (p_handshakeStream p) (p_token p) (MinByteCount (p_maxPacketSize p) maxPacketSize) (p_hasSentPacket p)
         (p_numNonRetransmittableAcks p).

(** Setting [DataLenPresent] of a STREAM frame, and of the last frame. *)
Definition set_DataLenPresent (b : bool) (f : StreamFrame) : StreamFrame :=
  mkStreamFrame (Stream_StreamID f) (Stream_FinBit f) b (Stream_Offset f) (Stream_Data f).

Fixpoint set_last_DataLen (b : bool) (frames : list Frame) : list Frame :=
  match frames with
  | [] => []
  | [Stream f] => [Stream (set_DataLenPresent b f)]
  | f :: frames => f :: set_last_DataLen b frames
  end.

Definition canSendData (encLevel : EncryptionLevel) : bool := bool_decide (encLevel = Encryption1RTT).

(** The header with the fields that are set when it is written. *)
Definition with_payload (h : Header) (token : list Z) (payloadLen : Z) : Header :=
  mkHeader (Header_Raw h) (Header_Version h) (DestConnectionID h) (SrcConnectionID h) (OrigDestConnectionID h)
    (Header_PacketNumberLen h) (Header_PacketNumber h) (IsVersionNegotiation h) (Header_SupportedVersions h)
    (Header_Type h) (IsLongHeader h) (KeyPhase h) payloadLen token.

Definition with_type (h : Header) (t : Z) : Header :=
  mkHeader (Header_Raw h) (Header_Version h) (DestConnectionID h) (SrcConnectionID h) (OrigDestConnectionID h)
    (Header_PacketNumberLen h) (Header_PacketNumber h) (IsVersionNegotiation h) (Header_SupportedVersions h)
    t (IsLongHeader h) (KeyPhase h) (PayloadLen h) (Header_Token h).

Section Packer.
Context {Net : NetLib} {W : Type} {E : PackerEnv W}.

Definition getHeader (p : packetPacker) (w : W) (encLevel : EncryptionLevel) : Header :=
  let '(pn, pnLen) := env_PeekPacketNumber w in
  let long := negb (bool_decide (encLevel = Encryption1RTT)) in
  mkHeader [] (p_version p) (p_destConnID p) (if long then p_srcConnID p else []) [] pnLen pn false []
    (match encLevel with
     | EncryptionInitial => PacketTypeInitial
     | EncryptionHandshake => PacketTypeHandshake
     | _ => 0
     end) long 0 (if long then p_maxPacketSize p else 0) [].

(** The sum of the lengths of the frames, added to [n]. *)
Fixpoint payload_length (n : Z) (frames : list Frame) : outcome Z :=
  match frames with
  | [] => Ok n
  | f :: frames => l ← Frame_Length f; payload_length (n +64 l) frames
  end.

Definition write_frames (frames : list Frame) : writes := foldr (fun f w => Frame_Write f +w+ w) (Ok []) frames.

Definition client_initial (p : packetPacker) (header : Header) : bool :=
  bool_decide (p_perspective p = PerspectiveClient) && (Header_Type header =? PacketTypeInitial).

Definition add_padding (p : packetPacker) (header : Header) : bool :=
  client_initial p header && negb (p_hasSentPacket p).

(** The payload length and the token of a long header. *)
Definition set_payload_len (p : packetPacker) (header : Header) (frames : list Frame) (sealer : Sealer) : outcome Header :=
  if IsLongHeader header then
    let token := if client_initial p header then p_token p else Header_Token header in
    if add_padding p header then
      headerLen ← GetLength (with_payload header token (PayloadLen header));
      Ok (with_payload header token (MinInitialPacketSize -64 headerLen))
    else
      payloadLen ← payload_length (Overhead sealer) frames;
      Ok (with_payload header token payloadLen)
  else Ok header.

(** The packet as it is sent, and the header and the frames as they are then. *)
Definition writeAndSealPacket (p : packetPacker) (w : W) (header : Header) (frames : list Frame) (sealer : Sealer)
    : outcome (Header * list Frame * list Z * packetPacker * W) :=
  header ← set_payload_len p header frames sealer;
  headerBytes ← Header_Write 0 header;
  frames ← (if client_initial p header then
              match frames with
              | [] => Panic "index out of range"
              | _ => Ok (set_last_DataLen true frames)
              end
            else Ok frames);
  payload ← write_frames frames;
  let paddingLen := MinInitialPacketSize - Overhead sealer - (len headerBytes + len payload) in
  let payload := if add_padding p header then payload ++ replicate (Z.to_nat paddingLen) 0 else payload in
  let size := len headerBytes + len payload + Overhead sealer in
  if p_maxPacketSize p <? size then
    Err (Errorf "PacketPacker BUG: packet too large (%d bytes, allowed %d bytes)" [size; p_maxPacketSize p])
  else
    let raw := headerBytes ++ Seal sealer payload (Header_PacketNumber header) headerBytes in
    let '(num, w) := env_PopPacketNumber w in
    if negb (num =? Header_PacketNumber header) then
      Err (Errorf "packetPacker BUG: Peeked and Popped packet numbers do not match" [])
    else Ok (header, frames, raw, set_p_hasSentPacket p true, w).

(** Sealing the frames into a packet of their own. *)
Definition pack_frames (p : packetPacker) (w : W) (header : Header) (frames : list Frame) (encLevel : EncryptionLevel)
    (sealer : Sealer) : outcome (packedPacket * packetPacker * W) :=
  '(header, frames, raw, p, w) ← writeAndSealPacket p w header frames sealer;
  Ok (mkPackedPacket header raw frames encLevel, p, w).

Definition PackConnectionClose (p : packetPacker) (w : W) (ccf : ConnectionCloseFrame)
    : outcome (packedPacket * packetPacker * W) :=
  let '(encLevel, sealer) := env_GetSealer w in
  pack_frames p w (getHeader p w encLevel) [ConnectionClose ccf] encLevel sealer.

Definition MaybePackAckPacket (p : packetPacker) (w : W) : outcome (option packedPacket * packetPacker * W) :=
  match env_GetAckFrame w with
  | (None, w) => Ok (None, p, w)
  | (Some ack, w) =>
      let '(encLevel, sealer) := env_GetSealer w in
      '(packet, p, w) ← pack_frames p w (getHeader p w encLevel) [Ack ack] encLevel sealer;
      Ok (Some packet, p, w)
  end.

Definition packHandshakeRetransmission (p : packetPacker) (w : W) (packet : Packet)
    : outcome (packedPacket * packetPacker * W) :=
  sealer ← env_GetSealerWithEncryptionLevel w (Packet_EncryptionLevel packet);
  let p := if PacketType packet =? PacketTypeInitial then set_p_hasSentPacket p false else p in
  let header := with_type (getHeader p w (Packet_EncryptionLevel packet)) (PacketType packet) in
  pack_frames p w header (Packet_Frames packet) (Packet_EncryptionLevel packet) sealer.

(** The stream frames of a retransmission, after the control frames that fit.
    A frame that does not fit is split, and fills the packet. *)
Fixpoint take_streams (fuel : nat) (streamFrames : list StreamFrame) (frames : list Frame) (length maxSize : Z)
    : outcome (list Frame * list StreamFrame) :=
  match streamFrames with
  | [] => Ok (frames, [])
  | frame :: rest =>
      if length +64 MinStreamFrameSize <? maxSize then
        match fuel with
        | O => Panic "out of fuel"
        | S fuel =>
            '(sf, frame) ← MaybeSplitOffFrame (set_DataLenPresent false frame) (maxSize -64 length);
            let frame := set_DataLenPresent true frame in
            let '(frameToAdd, streamFrames) :=
              match sf with Some sf => (sf, frame :: rest) | None => (frame, rest) end in
            l ← StreamFrame_Length frameToAdd;
            take_streams fuel streamFrames (frames ++ [Stream frameToAdd]) (length +64 l) maxSize
        end
      else Ok (frames, streamFrames)
  end.

(** The loop over the packets of a retransmission. *)
Fixpoint retransmit (fuel : nat) (p : packetPacker) (w : W) (encLevel : EncryptionLevel) (sealer : Sealer)
    (controlFrames : list Frame) (streamFrames : list StreamFrame) (packets : list packedPacket)
    : outcome (list packedPacket * packetPacker * W) :=
  match controlFrames, streamFrames with
  | [], [] => Ok (packets, p, w)
  | _, _ =>
      match fuel with
      | O => Panic "out of fuel"
      | S fuel =>
          let header := getHeader p w encLevel in
          headerLen ← GetLength header;
          let maxSize := p_maxPacketSize p -64 u64 (Overhead sealer) -64 headerLen in
          '(frames, length, controlFrames) ← take_control controlFrames [] 0 maxSize;
          '(frames, streamFrames) ← take_streams (List.length streamFrames) streamFrames frames length maxSize;
          match frames with
          | [] => Panic "index out of range"
          | _ =>
              '(packet, p, w) ← pack_frames p w header (set_last_DataLen false frames) encLevel sealer;
              retransmit fuel p w encLevel sealer controlFrames streamFrames (packets ++ [packet])
          end
      end
  end.

(** The STREAM frames of a packet, with their length field, and the others. *)
Definition stream_frames (frames : list Frame) : list StreamFrame :=
  omap (fun f => match f with Stream sf => Some (set_DataLenPresent true sf) | _ => None end) frames.
Definition control_frames (frames : list Frame) : list Frame :=
  omap (fun f => match f with Stream _ => None | _ => Some f end) frames.

(** Every packet takes a frame or some data. *)
Definition stream_fuel (sfs : list StreamFrame) : nat :=
  list_sum ((fun f => S (List.length (Stream_Data f))) <$> sfs).
Definition retransmit_fuel (controlFrames : list Frame) (streamFrames : list StreamFrame) : nat :=
  List.length controlFrames + stream_fuel streamFrames.

Definition PackRetransmission (p : packetPacker) (w : W) (packet : Packet)
    : outcome (list packedPacket * packetPacker * W) :=
  if negb (bool_decide (Packet_EncryptionLevel packet = Encryption1RTT)) then
    '(packed, p, w) ← packHandshakeRetransmission p w packet;
    Ok ([packed], p, w)
  else
    let controlFrames := control_frames (Packet_Frames packet) in
    let streamFrames := stream_frames (Packet_Frames packet) in
    sealer ← env_GetSealerWithEncryptionLevel w (Packet_EncryptionLevel packet);
    retransmit (retransmit_fuel controlFrames streamFrames) p w (Packet_EncryptionLevel packet) sealer
      controlFrames streamFrames [].

Definition maybePackCryptoPacket (p : packetPacker) (w : W) : outcome (option packedPacket * packetPacker * W) :=
  let source :=
    if HasData (p_initialStream p) then Some (p_initialStream p, EncryptionInitial)
    else if HasData (p_handshakeStream p) then Some (p_handshakeStream p, EncryptionHandshake)
    else None in
  match source with
  | None => Ok (None, p, w)
  | Some (s, encLevel) =>
      let hdr := getHeader p w encLevel in
      hdrLen ← GetLength hdr;
      sealer ← env_GetSealerWithEncryptionLevel w encLevel;
      let '(ack, w) := env_GetAckFrame w in
      length ← (match ack with Some ack => AckFrame_Length ack | None => Ok 0 end);
      '(cf, s) ← PopCryptoFrame s (p_maxPacketSize p -64 hdrLen -64 u64 (Overhead sealer) -64 length);
      let p := match encLevel with
               | EncryptionInitial => set_p_initialStream p s
               | _ => set_p_handshakeStream p s
               end in
      '(packet, p, w) ← pack_frames p w hdr (option_list (Ack <$> ack) ++ [Crypto cf]) encLevel sealer;
      Ok (Some packet, p, w)
  end.

Definition composeNextPacket (w : W) (maxFrameSize : Z) (canSendStreamFrames : bool) : outcome (list Frame * W) :=
  let '(ack, w) := env_GetAckFrame w in
  length ← (match ack with Some ack => AckFrame_Length ack | None => Ok 0 end);
  '(frames, lengthAdded, w) ← env_AppendControlFrames w (option_list (Ack <$> ack)) (maxFrameSize -64 length);
  let length := length +64 lengthAdded in
  if negb canSendStreamFrames then Ok (frames, w)
  else
    '(frames, w) ← env_AppendStreamFrames w frames (maxFrameSize +64 1 -64 length);
    Ok (set_last_DataLen false frames, w).

Definition PackPacket (p : packetPacker) (w : W) : outcome (option packedPacket * packetPacker * W) :=
  '(packet, p, w) ← maybePackCryptoPacket p w;
  match packet with
  | Some packet => Ok (Some packet, p, w)
  | None =>
      if negb (p_hasSentPacket p) then Ok (None, p, w)
      else
        let '(encLevel, sealer) := env_GetSealer w in
        let header := getHeader p w encLevel in
        headerLen ← GetLength header;
        let maxSize := p_maxPacketSize p -64 u64 (Overhead sealer) -64 headerLen in
        '(frames, w) ← composeNextPacket w maxSize (canSendData encLevel);
        match frames with
        | [] => Ok (None, p, w)
        | _ =>
            let '(frames, p) :=
              if negb (HasRetransmittableFrames frames) then
                if MaxNonRetransmittableAcks <=? p_numNonRetransmittableAcks p then
                  (frames ++ [Ping], set_p_numNonRetransmittableAcks p 0)
                else (frames, set_p_numNonRetransmittableAcks p (p_numNonRetransmittableAcks p + 1))
              else (frames, set_p_numNonRetransmittableAcks p 0) in
            '(packet, p, w) ← pack_frames p w header frames encLevel sealer;
            Ok (Some packet, p, w)
        end
  end.
End Packer.

(** ** Lemmas: frames and their lengths *)

Section Frames.
Context {Net : NetLib} {P : UDPAddr -> Prop} {NetLaws : NetLibLaws P}.

(** A frame whose [Length] is right. *)
Definition measured (f : Frame) : Prop :=
  exists bs, Frame_Write f = Ok bs /\ bytes bs /\ Frame_Length f = Ok (len bs).

(** The frames with which packets are filled: ADDR_MOD frames have a wrong
    length. *)
Definition packable (f : Frame) : Prop := sendable (P := P) f /\ is_AddrMod f = false.

Lemma packable_measured f : packable f -> measured f.
Proof.
  intros [Hs Ha]. destruct (frame_seen f [] Hs) as (f' & _ & bs & E & Hb & _ & Hl & _).
  - destruct f; try done. by right.
  - by exists bs; auto.
Qed.

Lemma write_frames_measured frames : Forall measured frames ->
  exists bs, write_frames frames = Ok bs /\ bytes bs /\ total_length frames = Ok (len bs).
Proof.
  induction 1 as [| f frames (b & E & Hb & El) _ (bs & Es & Hbs & Els)]; [by exists [] |].
  exists (b ++ bs). cbn [write_frames foldr total_length]. fold (write_frames frames).
  rewrite E, Es, El, Els. cbn. rewrite len_app. split_and!; try done. by apply bytes_app.
Qed.

Lemma total_length_nonneg frames t : Forall measured frames -> total_length frames = Ok t -> 0 <= t.
Proof.
  intros Hm Ht. destruct (write_frames_measured frames Hm) as (bs & _ & _ & E). rewrite Ht in E.
  injection E as ->. apply len_nonneg.
Qed.

Lemma payload_length_total frames n t : Forall measured frames -> total_length frames = Ok t -> 0 <= n ->
  n + t < 2 ^ 64 -> payload_length n frames = Ok (n + t).
Proof.
  revert n t. induction frames as [| f frames IH]; intros n t Hm Ht Hn Hs; cbn in *.
  - injection Ht as <-. by rewrite Z.add_0_r.
  - apply Forall_cons in Hm as [(b & Eb & _ & El) Hm]. rewrite El in *. cbn [mbind outcome_bind] in *.
    destruct (total_length frames) as [t' | |] eqn:Et; try done. injection Ht as <-.
    pose proof (len_nonneg b). pose proof (total_length_nonneg frames t' Hm Et).
    rewrite add64_small by lia. rewrite (IH (n + len b) t' Hm eq_refl) by lia. f_equal. lia.
Qed.

Lemma stream_length f : frame_ok f ->
  StreamFrame_Length f
  = Ok (stream_header_len f + (if Stream_DataLenPresent f then vlen (len (Stream_Data f)) else 0) + len (Stream_Data f)).
Proof.
  intros (Hs & Ho & Hd & _). pose proof (StreamFrame_Length_with f (Stream_Data f) Hs Ho Hd) as E.
  by destruct f.
Qed.

Lemma set_DataLen_ok b f : frame_ok f -> frame_ok (set_DataLenPresent b f).
Proof. done. Qed.

Lemma set_last_snoc b frames f : set_last_DataLen b (frames ++ [f])
  = frames ++ [match f with Stream f => Stream (set_DataLenPresent b f) | _ => f end].
Proof.
  induction frames as [| g frames IH]; [by destruct f |]. cbn [app set_last_DataLen].
  destruct frames as [| g' frames].
  - cbn [app] in *. by destruct g; rewrite IH.
  - cbn [app] in *. by destruct g; rewrite IH.
Qed.

(** Only the last frame may be a STREAM frame without its length. *)
Definition has_DataLen (f : Frame) : Prop :=
  match f with Stream f => Stream_DataLenPresent f = true | _ => True end.
Definition terminated (frames : list Frame) : Prop := Forall has_DataLen (removelast frames).

Lemma terminated_all frames : Forall has_DataLen frames -> terminated frames.
Proof.
  unfold terminated. destruct frames as [| f frames _] using rev_ind; [done |].
  rewrite removelast_last, Forall_app. tauto.
Qed.

Lemma terminated_set_last b frames : terminated frames -> terminated (set_last_DataLen b frames).
Proof.
  unfold terminated. destruct frames as [| f frames _] using rev_ind; [done |].
  by rewrite set_last_snoc, !removelast_last.
Qed.

Lemma set_last_packable b frames : Forall packable frames -> Forall packable (set_last_DataLen b frames).
Proof.
  destruct frames as [| f frames _] using rev_ind; [done |]. rewrite set_last_snoc, !Forall_app, !Forall_singleton.
  intros [Hf [Hs Ha]]. split; [done |]. by destruct f.
Qed.

(** Without the length field of the last frame. *)
Lemma set_last_shorter frames t : Forall packable frames -> total_length frames = Ok t ->
  exists t', total_length (set_last_DataLen false frames) = Ok t' /\ t' <= t
    /\ ((exists l f, frames = l ++ [Stream f] /\ Stream_DataLenPresent f = true) -> t' < t).
Proof.
  destruct frames as [| f frames _] using rev_ind; intros Hp Ht.
  { exists t. split_and!; [done | done |]. by intros ([] & ? & ? & _). }
  rewrite set_last_snoc. apply Forall_app in Hp as [Hp Hf]. rewrite Forall_singleton in Hf.
  destruct (write_frames_measured frames) as (bs & _ & _ & El).
  { eapply Forall_impl; [exact Hp | apply packable_measured]. }
  assert (Hf' : exists a b, Frame_Length f = Ok a
    /\ Frame_Length (match f with Stream f => Stream (set_DataLenPresent false f) | _ => f end) = Ok b /\ b <= a
    /\ ((exists g, f = Stream g /\ Stream_DataLenPresent g = true) -> b < a)).
  { destruct (packable_measured f Hf) as (x & _ & _ & Ea).
    destruct f as [| | | | | | | | | | | | | | | f | | |];
      try by (exists (len x), (len x); split_and!; [done | done | done | intros (? & ? & _); discriminate]).
    destruct Hf as [Hok _]. cbn [Frame_Length]. rewrite !stream_length by done. cbn [set_DataLenPresent Stream_DataLenPresent Stream_Data].
    change (stream_header_len (set_DataLenPresent false f)) with (stream_header_len f).
    pose proof (vlen_range (len (Stream_Data f))).
    eexists _, _. split_and!; [done | done | |].
    - destruct (Stream_DataLenPresent f); lia.
    - intros (g & [= <-] & ->). lia. }
  destruct Hf' as (a & b & Ea & Eb & Hab & Hlt).
  assert (Hsnoc : forall g c, Frame_Length g = Ok c -> total_length (frames ++ [g]) = Ok (len bs + c)).
  { intros g c Hg. apply total_length_app; [done |]. cbn. rewrite Hg. cbn. by rewrite Z.add_0_r. }
  rewrite (Hsnoc _ a Ea) in Ht. injection Ht as <-. exists (len bs + b). split_and!; [by apply Hsnoc | lia |].
  intros (l & g & Eg & Hg). apply app_inj_tail in Eg as [_ ->]. specialize (Hlt (ex_intro _ g (conj eq_refl Hg))). lia.
Qed.
End Frames.

(** ** Lemmas: writing a packet *)

(** An AEAD adds its overhead. *)
Definition sealer_ok (s : Sealer) : Prop :=
  0 <= Overhead s <= 64
  /\ forall payload pn ad, bytes payload -> bytes ad ->
     len (Seal s payload pn ad) = len payload + Overhead s /\ bytes (Seal s payload pn ad).

Definition stream_ok (s : cryptoStreamImpl) : Prop :=
  0 <= cs_writeOffset s /\ cs_writeOffset s + len (writeBuf s) < 2 ^ 60 /\ bytes (writeBuf s).

Record packer_ok (p : packetPacker) : Prop := {
  pa_dest : connid_ok (p_destConnID p);
  pa_src : connid_ok (p_srcConnID p);
  pa_version : 0 < p_version p < 2 ^ 32;
  pa_size : MinInitialPacketSize <= p_maxPacketSize p <= MaxReceivePacketSize;
  pa_token : bytes (p_token p) /\ len (p_token p) < 2 ^ 60;
  pa_initial : stream_ok (p_initialStream p);
  pa_handshake : stream_ok (p_handshakeStream p) }.

(** What the packer relies on. *)
Class PackerEnvLaws {Net : NetLib} (P : UDPAddr -> Prop) (W : Type) `{PackerEnv W} (ok : W -> Prop) : Prop := {
  peek_ok w : ok w -> pn_ok (env_PeekPacketNumber w).1 (env_PeekPacketNumber w).2;
  pop_ok w : ok w -> (env_PopPacketNumber w).1 = (env_PeekPacketNumber w).1 /\ ok (env_PopPacketNumber w).2;
  GetSealer_ok w : ok w -> sealer_ok (env_GetSealer w).2 /\ (env_GetSealer w).1 <> EncryptionUnspecified;
  GetSealerWith_ok w level s : ok w -> env_GetSealerWithEncryptionLevel w level = Ok s -> sealer_ok s;
  GetAckFrame_ok w : ok w -> ok (env_GetAckFrame w).2
    /\ env_PeekPacketNumber (env_GetAckFrame w).2 = env_PeekPacketNumber w
    /\ forall a, (env_GetAckFrame w).1 = Some a -> ack_wf a;
  AppendControl_ok w frames maxLen : ok w -> 0 <= maxLen < 2 ^ 14 ->
    exists new t w', env_AppendControlFrames w frames maxLen = Ok (frames ++ new, t, w') /\ ok w'
      /\ env_PeekPacketNumber w' = env_PeekPacketNumber w
      /\ Forall (packable (P := P)) new /\ Forall (fun f => forall sf, f <> Stream sf) new
      /\ total_length new = Ok t /\ t <= maxLen;
  AppendStream_ok w frames maxLen : ok w -> 0 <= maxLen < 2 ^ 14 ->
    exists new t w', env_AppendStreamFrames w frames maxLen = Ok (frames ++ (Stream <$> new), w') /\ ok w'
      /\ env_PeekPacketNumber w' = env_PeekPacketNumber w
      /\ Forall (fun f => frame_ok f /\ Stream_DataLenPresent f = true) new
      /\ total_length (Stream <$> new) = Ok t /\ t <= maxLen }.

Lemma vlen_mono a b : 0 <= a <= b -> vlen a <= vlen b.
Proof. intros H. unfold vlen. case_cmp; lia. Qed.

(** The headers the packer makes: of the given kind, type and payload length. *)
Definition packer_header (p : packetPacker) (pn pnLen : Z) (long : bool) (t pl : Z) (token : list Z) : Header :=
  mkHeader [] (p_version p) (p_destConnID p) (if long then p_srcConnID p else []) [] pnLen pn false [] t long 0 pl token.

Definition header_size (p : packetPacker) (pnLen : Z) (long : bool) (t pl : Z) (token : list Z) : Z :=
  if long then
    6 + len (p_destConnID p) + len (p_srcConnID p) + pnLen + vlen pl
    + (if t =? PacketTypeInitial then vlen (len token) + len token else 0)
  else 1 + len (p_destConnID p) + pnLen.

Definition long_params (long : bool) (t pl : Z) (token : list Z) : Prop :=
  if long then (t = PacketTypeInitial \/ t = PacketTypeHandshake) /\ is_varint pl /\ bytes token /\ len token < 2 ^ 60
    /\ (t = PacketTypeInitial \/ token = [])
  else t = 0 /\ token = [].

Lemma packer_header_written p pn pnLen long t pl token : packer_ok p -> pn_ok pn pnLen ->
  long_params long t pl token ->
  exists hb, Header_Write 0 (packer_header p pn pnLen long t pl token) = Ok hb /\ bytes hb
    /\ len hb = header_size p pnLen long t pl token
    /\ GetLength (packer_header p pn pnLen long t pl token) = Ok (len hb).
Proof.
  intros [D1 D2 D3 D4 D5 D6 D7] Hpn Hl. destruct long; cbn [long_params] in Hl.
  - destruct Hl as (Ht & Hpl & Bt & Lt & Htok).
    destruct (long_roundtrip 0 0 (p_version p) (p_destConnID p) (p_srcConnID p) pnLen pn t pl token [])
      as (hb & E & Hb & Hlen & _); try done.
    { unfold long_type. tauto. }
    { unfold PacketTypeRetry, PacketTypeInitial, PacketTypeHandshake in *. lia. }
    exists hb. split_and!; try done. revert Hlen. unfold GetLength. cbn [IsLongHeader PayloadLen DestConnectionID
      SrcConnectionID Header_PacketNumberLen Header_Type Header_Token].
    rewrite !VarIntLen_vlen by (pose proof (len_nonneg token); unfold is_varint, maxVarInt8 in *; lia).
    cbn [mbind outcome_bind header_size]. destruct D1 as [_ D1], D2 as [_ D2].
    pose proof (vlen_range pl). pose proof (vlen_range (len token)). pose proof (len_nonneg token).
    assert (1 <= pnLen <= 4) by (destruct Hpn as [_ Hpn];
      unfold PacketNumberLen1, PacketNumberLen2, PacketNumberLen4 in Hpn; lia).
    destruct (t =? PacketTypeInitial); norm64; intros [= <-]; lia.
  - destruct Hl as (-> & ->). destruct D1 as [B1 D1].
    destruct (short_roundtrip 0 (p_destConnID p) pnLen pn 0 []) as (hb & E & Hb & Hlen & _); try done; [lia | by left |].
    exists hb. split_and!; try done. revert Hlen. unfold GetLength. cbn [IsLongHeader DestConnectionID Header_PacketNumberLen].
    assert (1 <= pnLen <= 4) by (destruct Hpn as [_ Hpn];
      unfold PacketNumberLen1, PacketNumberLen2, PacketNumberLen4 in Hpn; lia).
    pose proof (len_nonneg (p_destConnID p)). norm64. intros [= <-]. cbn [header_size]. lia.
Qed.

Section Packing.
Context {Net : NetLib} {P : UDPAddr -> Prop} {NetLaws : NetLibLaws P}.
Context {W : Type} {E : PackerEnv W} {ok : W -> Prop} {Laws : PackerEnvLaws P W ok}.

(** A packer that need not send a token. *)
Definition no_token (p : packetPacker) : Prop := p_perspective p = PerspectiveServer \/ p_token p = [].

Lemma no_token_nil p header : no_token p -> Header_Token header = [] ->
  (if client_initial p header then p_token p else Header_Token header) = [].
Proof.
  intros [Hp | Ht] Hh; unfold client_initial; [| by rewrite Ht, Hh; destruct (_ && _)].
  by rewrite Hp, Hh, bool_decide_false.
Qed.

(** The payload length that is written. *)
Definition sent_payload_len (p : packetPacker) (header : Header) (pnLen t pl T : Z) (sealer : Sealer) : Z :=
  if IsLongHeader header then
    if add_padding p header then MinInitialPacketSize - header_size p pnLen true t pl [] else Overhead sealer + T
  else pl.

(** What sealing a packet gives, if it is small enough. *)
Lemma writeAndSeal_ok p w pn pnLen long t pl frames sealer T : packer_ok p -> ok w -> no_token p ->
  env_PeekPacketNumber w = (pn, pnLen) -> sealer_ok sealer -> long_params long t pl [] ->
  0 <= pl < 2 ^ 14 -> frames <> [] -> Forall (packable (P := P)) frames -> set_last_DataLen true frames = frames \/ long = false ->
  total_length frames = Ok T -> T < 2 ^ 32 ->
  let header := packer_header p pn pnLen long t pl [] in
  let pl' := sent_payload_len p header pnLen t pl T sealer in
  let hs := header_size p pnLen long t pl' [] in
  hs + T + Overhead sealer <= p_maxPacketSize p ->
  exists hb bs pad w', writeAndSealPacket p w header frames sealer
      = Ok (packer_header p pn pnLen long t pl' [], frames, hb ++ Seal sealer (bs ++ replicate pad 0) pn hb,
            set_p_hasSentPacket p true, w')
    /\ ok w' /\ Header_Write 0 (packer_header p pn pnLen long t pl' []) = Ok hb /\ bytes hb /\ len hb = hs
    /\ write_frames frames = Ok bs /\ bytes bs /\ len bs = T
    /\ Z.of_nat pad = (if add_padding p header then Z.max 0 (MinInitialPacketSize - Overhead sealer - (hs + T)) else 0)
    /\ long_params long t pl' [].
Proof.
  intros Hp Hw Hnt Hpeek Hseal Hlong Hpl Hne Hfr Hlast HT HTs header pl' hs Hsize.
  pose proof (peek_ok w Hw) as Hpn. rewrite Hpeek in Hpn. cbn [fst snd] in Hpn.
  assert (Hm : Forall measured frames) by (eapply Forall_impl; [exact Hfr | apply packable_measured]).
  pose proof (total_length_nonneg frames T Hm HT) as HT0. destruct Hseal as [Hov Hsl].
  assert (Hci : long = false -> client_initial p header = false).
  { intros ->. cbn in Hlong. unfold client_initial. destruct Hlong as [-> _]. cbn. by rewrite andb_false_r. }
  assert (Hset : set_payload_len p header frames sealer = Ok (packer_header p pn pnLen long t pl' [])
    /\ long_params long t pl' []).
  { subst pl'. unfold set_payload_len, sent_payload_len. destruct long; cbn [IsLongHeader header packer_header]; [| done].
    rewrite (no_token_nil p _ Hnt) by done. destruct Hlong as (Ht & Hv & Hrest).
    assert (Hh : header_size p pnLen true t pl [] <= 60 /\ 0 <= header_size p pnLen true t pl []).
    { pose proof (vlen_range pl). destruct (pa_dest p Hp) as [_ ?], (pa_src p Hp) as [_ ?].
      destruct Hpn as [_ Hpn]. unfold PacketNumberLen1, PacketNumberLen2, PacketNumberLen4 in Hpn.
      cbn [header_size]. rewrite len_nil. change (vlen 0) with 1. destruct (t =? _); lia. }
    unfold MinInitialPacketSize, add_padding in *. fold header. destruct (client_initial p header && _).
    - destruct (packer_header_written p pn pnLen true t pl [] Hp Hpn) as (hb & _ & _ & Hhl & HG);
        [exact (conj Ht (conj Hv Hrest)) |].
      unfold with_payload. cbn -[GetLength sub64 header_size]. unfold packer_header in HG. rewrite HG.
      cbn [mbind outcome_bind]. rewrite Hhl, sub64_small by lia. split; [done |].
      split_and!; try apply Hrest; try done; unfold is_varint, maxVarInt8; lia.
    - rewrite (payload_length_total frames _ T) by (done || lia). split; [done |].
      split_and!; try apply Hrest; try done; unfold is_varint, maxVarInt8; lia. }
  destruct Hset as [Hset Hlong'].
  destruct (packer_header_written p pn pnLen long t pl' [] Hp Hpn Hlong') as (hb & Ehb & Bhb & Lhb & _).
  destruct (write_frames_measured frames Hm) as (bs & Ebs & Bbs & Lbs). rewrite HT in Lbs. injection Lbs as ->.
  unfold writeAndSealPacket. rewrite Hset. cbn [mbind outcome_bind]. rewrite Ehb. cbn [mbind outcome_bind].
  change (client_initial p (packer_header p pn pnLen long t pl' [])) with (client_initial p header).
  change (add_padding p (packer_header p pn pnLen long t pl' [])) with (add_padding p header).
  assert (Hfr' : (if client_initial p header
                  then match frames with [] => Panic "index out of range" | _ => Ok (set_last_DataLen true frames) end
                  else Ok frames) = Ok frames).
  { destruct Hlast as [Hlast | Hl]; [| by rewrite (Hci Hl)]. destruct (client_initial p header); [| done].
    rewrite Hlast. by destruct frames. }
  rewrite Hfr'. cbn [mbind outcome_bind]. rewrite Ebs. cbn [mbind outcome_bind].
  destruct (pop_ok w Hw) as [Hpop Hw']. rewrite Hpeek in Hpop. destruct (env_PopPacketNumber w) as [num w'] eqn:Epop.
  cbn [fst snd] in Hpop, Hw'. subst num.
  set (padding := MinInitialPacketSize - Overhead sealer - (len hb + len bs)).
  exists hb, bs, (if add_padding p header then Z.to_nat padding else 0%nat), w'.
  assert (Hpad : Z.of_nat (if add_padding p header then Z.to_nat padding else 0%nat)
    = if add_padding p header then Z.max 0 padding else 0) by (destruct (add_padding p header); lia).
  assert (Epl : (if add_padding p header then bs ++ replicate (Z.to_nat padding) 0 else bs)
    = bs ++ replicate (if add_padding p header then Z.to_nat padding else 0%nat) 0)
    by (destruct (add_padding p header); [done | by rewrite app_nil_r]).
  rewrite Epl. set (pad := if add_padding p header then Z.to_nat padding else 0%nat) in *.
  assert (Lpl : len (bs ++ replicate pad 0) = len bs + Z.of_nat pad)
    by (rewrite len_app; unfold len at 2; by rewrite length_replicate).
  rewrite (proj2 (Z.ltb_ge _ _)).
  - cbn [packer_header Header_PacketNumber]. rewrite Z.eqb_refl. cbn [negb]. split_and!; try done.
    rewrite Hpad. unfold padding. by rewrite Lhb.
  - rewrite Lpl, Hpad. unfold padding. rewrite Lhb. destruct (pa_size p Hp). fold hs.
    destruct (add_padding p header); lia.
Qed.

Definition level_type (level : EncryptionLevel) : Z :=
  match level with EncryptionInitial => PacketTypeInitial | EncryptionHandshake => PacketTypeHandshake | _ => 0 end.
Definition level_long (level : EncryptionLevel) : bool := negb (bool_decide (level = Encryption1RTT)).
Definition level_payload (p : packetPacker) (level : EncryptionLevel) : Z :=
  if level_long level then p_maxPacketSize p else 0.

Lemma getHeader_packer p w level pn pnLen : env_PeekPacketNumber w = (pn, pnLen) ->
  getHeader p w level = packer_header p pn pnLen (level_long level) (level_type level) (level_payload p level) [].
Proof. intros Hw. unfold getHeader. rewrite Hw. by destruct level. Qed.

Lemma level_params p level : packer_ok p -> level <> EncryptionUnspecified ->
  long_params (level_long level) (level_type level) (level_payload p level) []
  /\ 0 <= level_payload p level < 2 ^ 14.
Proof.
  intros [_ _ _ Hs _ _ _] Hl. unfold MinInitialPacketSize, MaxReceivePacketSize in Hs.
  unfold level_payload, level_long, long_params, is_varint, maxVarInt8.
  destruct level; [done | | |]; (case_bool_decide; try done); cbn [negb level_type];
    split_and!; auto; (lia || by vm_compute).
Qed.

Lemma header_size_small p pnLen level pl : packer_ok p -> (exists pn, pn_ok pn pnLen) ->
  1 <= header_size p pnLen (level_long level) (level_type level) pl [] <= 60.
Proof.
  intros Hp [pn [_ Hpn]]. unfold PacketNumberLen1, PacketNumberLen2, PacketNumberLen4 in Hpn.
  pose proof (vlen_range pl). destruct (pa_dest p Hp) as [_ ?], (pa_src p Hp) as [_ ?].
  pose proof (len_nonneg (p_destConnID p)). pose proof (len_nonneg (p_srcConnID p)).
  unfold header_size. rewrite len_nil. change (vlen 0) with 1. destruct (level_long level); [| lia].
  destruct (_ =? _); lia.
Qed.

(** A packet that was packed: the header and the frames are written, padded
    with zeros and sealed; it is not too large.  The payload length is right,
    but for a first packet of a client with more than [MinInitialPacketSize]
    bytes. *)
Inductive packed (p : packetPacker) (level : EncryptionLevel) (sealer : Sealer) : packedPacket -> Prop :=
  | packed_intro pn pnLen pl frames hb bs pad :
      let header := packer_header p pn pnLen (level_long level) (level_type level) pl [] in
      let raw := hb ++ Seal sealer (bs ++ replicate pad 0) pn hb in
      pn_ok pn pnLen -> long_params (level_long level) (level_type level) pl [] ->
      frames <> [] -> Forall (packable (P := P)) frames -> terminated frames ->
      (pad <> O -> set_last_DataLen true frames = frames) ->
      Header_Write 0 header = Ok hb -> bytes hb -> write_frames frames = Ok bs -> bytes bs ->
      (level_long level = true -> pl = len bs + Z.of_nat pad + Overhead sealer
         \/ add_padding p header = true /\ MinInitialPacketSize < len hb + len bs + Overhead sealer) ->
      (add_padding p header = true -> MinInitialPacketSize <= len raw) ->
      len raw <= p_maxPacketSize p ->
      packed p level sealer (mkPackedPacket header raw frames level).

Lemma packed_same q p level sealer pkt : packer_header q = packer_header p -> add_padding q = add_padding p ->
  p_maxPacketSize q = p_maxPacketSize p -> packed q level sealer pkt -> packed p level sealer pkt.
Proof.
  intros E1 E2 E3 H. destruct H as [pn pnLen pl frames hb bs pad header raw H1 H2 H3 H4 H5 H6 H7 H8 H9 H10 H11 H12 H13].
  subst header raw. rewrite E1, ?E2, ?E3 in *. by apply packed_intro.
Qed.

Lemma pack_frames_ok p w pn pnLen level sealer frames T : packer_ok p -> ok w -> no_token p ->
  env_PeekPacketNumber w = (pn, pnLen) -> sealer_ok sealer -> level <> EncryptionUnspecified ->
  frames <> [] -> Forall (packable (P := P)) frames -> terminated frames ->
  set_last_DataLen true frames = frames \/ level = Encryption1RTT -> total_length frames = Ok T ->
  header_size p pnLen (level_long level) (level_type level) (level_payload p level) [] + T + Overhead sealer
    <= p_maxPacketSize p ->
  exists pkt w', pack_frames p w (packer_header p pn pnLen (level_long level) (level_type level) (level_payload p level) [])
      frames level sealer = Ok (pkt, set_p_hasSentPacket p true, w')
    /\ ok w' /\ packed p level sealer pkt /\ pk_frames pkt = frames /\ Header_PacketNumber (pk_header pkt) = pn.
Proof.
  intros Hp Hw Hnt Hpeek Hseal Hl Hne Hfr Hterm Hlast HT Hsize.
  pose proof (peek_ok w Hw) as Hpn. rewrite Hpeek in Hpn. cbn [fst snd] in Hpn.
  destruct (level_params p level Hp Hl) as [Hlp Hpl]. pose proof (pa_size p Hp) as Hps.
  unfold MinInitialPacketSize, MaxReceivePacketSize in Hps.
  assert (Hm : Forall measured frames) by (eapply Forall_impl; [exact Hfr | apply packable_measured]).
  pose proof (total_length_nonneg frames T Hm HT) as HT0. pose proof Hseal as [Hov Hsl].
  pose proof (header_size_small p pnLen level (level_payload p level) Hp (ex_intro _ pn Hpn)) as Hhs.
  set (header := packer_header p pn pnLen (level_long level) (level_type level) (level_payload p level) []).
  set (pl' := sent_payload_len p header pnLen (level_type level) (level_payload p level) T sealer).
  (* the payload length is not longer than the one the header was measured with *)
  assert (Hpl' : level_long level = true -> 0 <= pl' <= p_maxPacketSize p).
  { intros El. subst pl'. unfold sent_payload_len. cbn [header packer_header IsLongHeader]. rewrite El.
    rewrite El in Hhs, Hsize. unfold MinInitialPacketSize. destruct (add_padding p header); lia. }
  assert (Hmono : header_size p pnLen (level_long level) (level_type level) pl' []
    <= header_size p pnLen (level_long level) (level_type level) (level_payload p level) []).
  { unfold header_size. destruct (level_long level) eqn:El; [| lia]. specialize (Hpl' eq_refl).
    unfold level_payload. rewrite El. pose proof (vlen_mono pl' (p_maxPacketSize p) Hpl'). lia. }
  destruct (writeAndSeal_ok p w pn pnLen (level_long level) (level_type level) (level_payload p level) frames sealer T)
    as (hb & bs & pad & w' & Ew & Hw' & Ehb & Bhb & Lhb & Ebs & Bbs & Lbs & Hpad & Hlp'); try done; try lia.
  { destruct Hlast as [Hlast | ->]; [by left | by right]. }
  { fold header. fold pl'. lia. }
  fold header in Ew, Ehb, Lhb, Hpad, Hlp'. fold pl' in Ew, Ehb, Lhb, Hpad, Hlp'.
  unfold pack_frames. fold header. rewrite Ew. cbn [mbind outcome_bind]. eexists _, w'. split; [done |].
  split; [done |]. split; [| done].
  assert (Lraw : len (hb ++ Seal sealer (bs ++ replicate pad 0) pn hb)
    = len hb + (T + Z.of_nat pad) + Overhead sealer).
  { rewrite len_app. rewrite (proj1 (Hsl (bs ++ replicate pad 0) pn hb
      ltac:(apply bytes_app; split; [done | apply Forall_replicate; unfold is_byte; lia]) Bhb)).
    rewrite len_app, Lbs. unfold len at 2. rewrite length_replicate. lia. }
  assert (Hpad_same : level_long level = true -> add_padding p header = true ->
    pl' = MinInitialPacketSize - header_size p pnLen (level_long level) (level_type level) (level_payload p level) []
    /\ header_size p pnLen (level_long level) (level_type level) pl' []
       = header_size p pnLen (level_long level) (level_type level) (level_payload p level) []).
  { intros El Ea. assert (E1 : pl' = MinInitialPacketSize
      - header_size p pnLen (level_long level) (level_type level) (level_payload p level) []).
    { subst pl'. unfold sent_payload_len. cbn [header packer_header IsLongHeader]. rewrite El. fold header. by rewrite Ea. }
    split; [done |]. assert (Hv : vlen pl' = vlen (level_payload p level)).
    { rewrite E1. unfold level_payload in *. rewrite El in *.
      unfold MinInitialPacketSize, vlen, maxVarInt1, maxVarInt2, maxVarInt4. case_cmp; lia. }
    unfold header_size. by rewrite Hv. }
  apply packed_intro; try done.
  - intros Hp0. destruct Hlast as [| ->]; [done |]. exfalso. apply Hp0.
    assert (Ea : add_padding p header = false) by (unfold add_padding, client_initial; cbn; by rewrite andb_false_r).
    rewrite Ea in Hpad. lia.
  - intros El. change (add_padding p (packer_header p pn pnLen (level_long level) (level_type level) pl' []))
      with (add_padding p header). specialize (Hpad_same El). rewrite Lbs, Hpad, Lhb.
    destruct (add_padding p header) eqn:Ea.
    + destruct (Hpad_same eq_refl) as [E1 E2]. rewrite E2. clear Hpad.
      destruct (Z.ltb_spec MinInitialPacketSize
        (header_size p pnLen (level_long level) (level_type level) (level_payload p level) [] + T + Overhead sealer));
        [right; done | left; lia].
    + left. subst pl'. unfold sent_payload_len. cbn [header packer_header IsLongHeader]. rewrite El.
      fold header. rewrite Ea. lia.
  - intros Hap. change (add_padding p header = true) in Hap. rewrite Lraw, Hpad, Hap, Lhb. lia.
  - rewrite Lraw, Hpad, Lhb. unfold MinInitialPacketSize. destruct (add_padding p header); lia.
Qed.

(** Packers that differ in what does not matter for the size. *)
Definition same_sizes (q p : packetPacker) : Prop :=
  packer_header q = packer_header p /\ add_padding q = add_padding p /\ header_size q = header_size p
  /\ level_payload q = level_payload p /\ p_maxPacketSize q = p_maxPacketSize p.

Lemma pack_same q p w pn pnLen level sealer frames T : packer_ok q -> no_token q -> same_sizes q p -> ok w ->
  env_PeekPacketNumber w = (pn, pnLen) -> sealer_ok sealer -> level <> EncryptionUnspecified ->
  frames <> [] -> Forall (packable (P := P)) frames -> terminated frames ->
  set_last_DataLen true frames = frames \/ level = Encryption1RTT -> total_length frames = Ok T ->
  header_size p pnLen (level_long level) (level_type level) (level_payload p level) [] + T + Overhead sealer
    <= p_maxPacketSize p ->
  exists pkt w', pack_frames q w (packer_header p pn pnLen (level_long level) (level_type level) (level_payload p level) [])
      frames level sealer = Ok (pkt, set_p_hasSentPacket q true, w')
    /\ ok w' /\ packer_ok (set_p_hasSentPacket q true) /\ packed p level sealer pkt /\ pk_frames pkt = frames.
Proof.
  intros Hq Hnt (S1 & S2 & S3 & S4 & S5) Hw Hpeek Hseal Hl Hne Hfr Hterm Hlast HT Hsize.
  destruct (pack_frames_ok q w pn pnLen level sealer frames T) as (pkt & w' & Epk & Hw' & Hpacked & Hf & _); try done.
  { by rewrite S3, S4, S5. }
  rewrite S1, S4 in Epk. exists pkt, w'. split_and!; try done; [by destruct Hq; constructor |].
  by apply (packed_same q).
Qed.

(** The ACK frame at the head of a packet. *)
Lemma ack_length a : ack_wf a -> packable (P := P) (Ack a)
  /\ exists l, AckFrame_Length a = Ok l /\ 0 <= l <= MaxAckFrameSize + 8.
Proof.
  intros Ha. assert (Hp : packable (P := P) (Ack a)) by done. split; [done |].
  destruct (packable_measured (Ack a) Hp) as (bs & E1 & _ & El). destruct (ack_frame_size a Ha) as (bs' & E2 & Hl).
  cbn in E1, El. rewrite E1 in E2. injection E2 as <-. exists (len bs). pose proof (len_nonneg bs). done.
Qed.

Lemma opt_ack_length (ack : option AckFrame) : (forall a, ack = Some a -> ack_wf a) ->
  exists l, (match ack with Some ack => AckFrame_Length ack | None => Ok 0 end) = Ok l
    /\ 0 <= l <= MaxAckFrameSize + 8 /\ total_length (option_list (Ack <$> ack)) = Ok l
    /\ Forall (packable (P := P)) (option_list (Ack <$> ack)).
Proof.
  intros Ha. destruct ack as [a |].
  - destruct (ack_length a (Ha a eq_refl)) as [Hp (l & El & Hl)]. exists l. cbn. rewrite El. cbn.
    rewrite Z.add_0_r. split_and!; try done; try lia. by constructor.
  - exists 0. unfold MaxAckFrameSize. split_and!; try done; lia.
Qed.

Lemma stream_ok_pop s maxLen : stream_ok s -> HasData s = true -> 16 <= maxLen < 2 ^ 14 ->
  exists f s', PopCryptoFrame s maxLen = Ok (f, s') /\ stream_ok s' /\ packable (P := P) (Crypto f)
    /\ exists l, CryptoFrame_Length f = Ok l /\ l <= maxLen.
Proof.
  intros (H1 & H2 & H3) Hd Hm. pose proof (len_nonneg (writeBuf s)) as Hn.
  destruct (PopCryptoFrame_spec s maxLen) as (f & s' & E1 & P1 & P2 & P3 & P4 & P5); try done; try lia.
  { unfold is_varint, maxVarInt8. lia. }
  rewrite <- P2 in H2, H3, Hn. rewrite len_app in H2, Hn. apply bytes_app in H3 as [B1 B2].
  pose proof (len_nonneg (Crypto_Data f)). pose proof (len_nonneg (writeBuf s')).
  exists f, s'. split_and!; try done.
  - rewrite P3. unfold stream_ok. cbn [cs_writeOffset writeBuf]. split_and!; try done; lia.
  - split; [| done]. split; [rewrite P1; unfold is_varint, maxVarInt8; lia |]. split; [done | lia].
  - apply P4, P5; [lia |]. unfold HasData in Hd. intros E0. by rewrite E0 in Hd.
Qed.

(** The stream of handshake data that is sent next, and its level. *)
Definition crypto_level (p : packetPacker) : option EncryptionLevel :=
  if HasData (p_initialStream p) then Some EncryptionInitial
  else if HasData (p_handshakeStream p) then Some EncryptionHandshake else None.

Lemma pack_crypto_ok p w s level (set_stream : cryptoStreamImpl -> packetPacker) sealer :
  packer_ok p -> ok w -> stream_ok s -> HasData s = true ->
  level <> EncryptionUnspecified -> level <> Encryption1RTT ->
  (forall s', stream_ok s' -> packer_ok (set_stream s') /\ no_token (set_stream s') /\ same_sizes (set_stream s') p) ->
  env_GetSealerWithEncryptionLevel w level = Ok sealer ->
  exists pkt p' w' ack cf,
    (hdrLen ← GetLength (getHeader p w level);
     sealer ← env_GetSealerWithEncryptionLevel w level;
     let '(ack, w1) := env_GetAckFrame w in
     length ← (match ack with Some ack => AckFrame_Length ack | None => Ok 0 end);
     '(cf, s) ← PopCryptoFrame s (p_maxPacketSize p -64 hdrLen -64 u64 (Overhead sealer) -64 length);
     '(packet, p, w) ← pack_frames (set_stream s) w1 (getHeader p w level) (option_list (Ack <$> ack) ++ [Crypto cf]) level sealer;
     Ok (Some packet, p, w)) = Ok (Some pkt, p', w') /\ ok w' /\ packer_ok p' /\ no_token p'
    /\ packed p level sealer pkt /\ pk_frames pkt = option_list (Ack <$> ack) ++ [Crypto cf].
Proof.
  intros Hp Hw Hs Hd Hl Hl1 Hset Hsealer. destruct (env_PeekPacketNumber w) as [pn pnLen] eqn:Epeek.
  pose proof (peek_ok w Hw) as Hpn. rewrite Epeek in Hpn. cbn [fst snd] in Hpn.
  destruct (level_params p level Hp Hl) as [Hlp Hpl].
  destruct (packer_header_written p pn pnLen _ _ _ [] Hp Hpn Hlp) as (hb & _ & _ & Lhb & HG).
  rewrite (getHeader_packer p w level pn pnLen Epeek), HG. cbn [mbind outcome_bind]. rewrite Hsealer. cbn [mbind outcome_bind].
  pose proof (GetSealerWith_ok w level sealer Hw Hsealer) as Hso. pose proof Hso as [Hov _].
  destruct (GetAckFrame_ok w Hw) as (Hw1 & Hpk1 & Hack). destruct (env_GetAckFrame w) as [ack w1]. cbn [fst snd] in *.
  destruct (opt_ack_length ack Hack) as (l & -> & Hl0 & Htl & Hpa). cbn [mbind outcome_bind].
  pose proof (header_size_small p pnLen level (level_payload p level) Hp (ex_intro _ pn Hpn)) as Hhs.
  pose proof (pa_size p Hp) as Hps. unfold MinInitialPacketSize, MaxReceivePacketSize, MaxAckFrameSize in *.
  rewrite Lhb, (u64_small (Overhead sealer)) by lia. rewrite (sub64_small (p_maxPacketSize p)) by lia.
  rewrite (sub64_small (_ - _) (Overhead sealer)), sub64_small by lia.
  destruct (stream_ok_pop s (p_maxPacketSize p
    - header_size p pnLen (level_long level) (level_type level) (level_payload p level) [] - Overhead sealer - l))
    as (cf & s' & -> & Hs' & Hpcf & lc & Elc & Hlc); [done | done | lia |]. cbn [mbind outcome_bind].
  destruct (Hset s' Hs') as (S1 & S2 & S3).
  destruct (pack_same (set_stream s') p w1 pn pnLen level sealer (option_list (Ack <$> ack) ++ [Crypto cf]) (l + lc))
    as (pkt & w' & -> & Hw' & Hp' & Hpacked & Hframes); try done.
  - by rewrite Hpk1.
  - by destruct (option_list (Ack <$> ack)).
  - apply Forall_app. split; [done |]. by constructor.
  - apply terminated_all. destruct ack; cbn; by repeat constructor.
  - left. by rewrite set_last_snoc.
  - apply total_length_app; [done |]. cbn [total_length Frame_Length]. rewrite Elc.
    cbn [mbind outcome_bind]. by rewrite Z.add_0_r.
  - lia.
  - cbn [mbind outcome_bind]. by exists pkt, (set_p_hasSentPacket (set_stream s') true), w', ack, cf.
Qed.

Lemma maybePackCryptoPacket_ok p w : packer_ok p -> ok w -> no_token p ->
  match crypto_level p with
  | None => maybePackCryptoPacket p w = Ok (None, p, w)
  | Some level => forall sealer, env_GetSealerWithEncryptionLevel w level = Ok sealer ->
      exists pkt p' w' ack cf, maybePackCryptoPacket p w = Ok (Some pkt, p', w') /\ ok w' /\ packer_ok p' /\ no_token p'
        /\ packed p level sealer pkt /\ pk_frames pkt = option_list (Ack <$> ack) ++ [Crypto cf]
  end.
Proof.
  intros Hp Hw Hnt. unfold crypto_level, maybePackCryptoPacket. destruct (HasData (p_initialStream p)) eqn:E1.
  - intros sealer. apply (pack_crypto_ok p w (p_initialStream p) EncryptionInitial (set_p_initialStream p)); try done;
      [apply (pa_initial p Hp) |]. intros s' Hs'. split_and!; try done. destruct Hp. by constructor.
  - destruct (HasData (p_handshakeStream p)) eqn:E2; [| done]. intros sealer.
    apply (pack_crypto_ok p w (p_handshakeStream p) EncryptionHandshake (set_p_handshakeStream p)); try done;
      [apply (pa_handshake p Hp) |]. intros s' Hs'. split_and!; try done. destruct Hp. by constructor.
Qed.

Lemma set_last_no_stream b frames : Forall (fun f => forall sf, f <> Stream sf) frames ->
  set_last_DataLen b frames = frames.
Proof.
  destruct frames as [| f frames _] using rev_ind; [done |]. rewrite set_last_snoc, Forall_app, Forall_singleton.
  intros [_ Hf]. destruct f; try done. by destruct (Hf f).
Qed.

Lemma composeNextPacket_ok w maxSize canSend : ok w -> MaxAckFrameSize + 8 <= maxSize < 2 ^ 14 - 1 ->
  exists frames w' t, composeNextPacket w maxSize canSend = Ok (frames, w') /\ ok w'
    /\ env_PeekPacketNumber w' = env_PeekPacketNumber w
    /\ Forall (packable (P := P)) frames /\ terminated frames /\ total_length frames = Ok t /\ t <= maxSize
    /\ (canSend = false -> set_last_DataLen true frames = frames).
Proof.
  intros Hw Hm. unfold composeNextPacket.
  destruct (GetAckFrame_ok w Hw) as (Hw1 & Hpk1 & Hack). destruct (env_GetAckFrame w) as [ack w1]. cbn [fst snd] in *.
  destruct (opt_ack_length ack Hack) as (l & -> & Hl0 & Htl & Hpa). cbn [mbind outcome_bind].
  rewrite sub64_small by lia.
  destruct (AppendControl_ok w1 (option_list (Ack <$> ack)) (maxSize - l) Hw1) as (new & t & w2 & -> & Hw2 & Hpk2 & Hnew & Hns & Ht & Htm);
    [lia |]. cbn [mbind outcome_bind].
  assert (Ht0 : 0 <= t).
  { apply (total_length_nonneg new); [| done]. eapply Forall_impl; [exact Hnew | apply packable_measured]. }
  assert (Hall : Forall (packable (P := P)) (option_list (Ack <$> ack) ++ new)) by (by apply Forall_app).
  assert (Hns' : Forall (fun f => forall sf, f <> Stream sf) (option_list (Ack <$> ack) ++ new)).
  { apply Forall_app. split; [| done]. destruct ack; cbn; by repeat constructor. }
  assert (Hdl : Forall has_DataLen (option_list (Ack <$> ack) ++ new)).
  { eapply Forall_impl; [exact Hns' |]. intros f Hf. destruct f; try done. by destruct (Hf f). }
  destruct canSend; cbn [negb].
  - rewrite !add64_small by lia. rewrite sub64_small by lia.
    destruct (AppendStream_ok w2 (option_list (Ack <$> ack) ++ new) (maxSize + 1 - (l + t)) Hw2)
      as (sfs & ts & w3 & -> & Hw3 & Hpk3 & Hsfs & Hts & Htsm); [lia |]. cbn [mbind outcome_bind].
    assert (Hall' : Forall (packable (P := P)) ((option_list (Ack <$> ack) ++ new) ++ (Stream <$> sfs))).
    { apply Forall_app. split; [done |]. apply Forall_fmap. eapply Forall_impl; [exact Hsfs |]. by intros f [Hf _]. }
    assert (Htot : total_length ((option_list (Ack <$> ack) ++ new) ++ (Stream <$> sfs)) = Ok (l + t + ts)).
    { apply total_length_app; [by apply total_length_app | done]. }
    destruct (set_last_shorter _ _ Hall' Htot) as (t' & Et' & Hle & Hlt).
    eexists _, w3, t'. split_and!; [done | done | by rewrite Hpk3, Hpk2 | by apply set_last_packable | | done | | done].
    { apply terminated_set_last, terminated_all, Forall_app. split; [done |]. apply Forall_fmap.
      eapply Forall_impl; [exact Hsfs |]. by intros f [_ Hf]. }
    destruct sfs as [| sf sfs _] using rev_ind.
    + cbn in Hts. injection Hts as <-. lia.
    + apply Forall_app in Hsfs as [_ Hsf]. rewrite Forall_singleton in Hsf. destruct Hsf as [_ Hsd].
      rewrite fmap_app, app_assoc in Hlt. specialize (Hlt (ex_intro _ _ (ex_intro _ sf (conj eq_refl Hsd)))). lia.
  - eexists _, w2, (l + t). split_and!; [done | done | by rewrite Hpk2 | done | by apply terminated_all | by apply total_length_app | lia |].
    intros _. by apply set_last_no_stream.
Qed.

(** The frames that are sealed, and the counter of the packets without frames
    that need an acknowledgement. *)
Definition add_ping (p : packetPacker) (frames : list Frame) : list Frame * packetPacker :=
  if negb (HasRetransmittableFrames frames) then
    if MaxNonRetransmittableAcks <=? p_numNonRetransmittableAcks p then
      (frames ++ [Ping], set_p_numNonRetransmittableAcks p 0)
    else (frames, set_p_numNonRetransmittableAcks p (p_numNonRetransmittableAcks p + 1))
  else (frames, set_p_numNonRetransmittableAcks p 0).

Lemma add_ping_ok p frames t maxSize level : packer_ok p -> no_token p -> frames <> [] ->
  Forall (packable (P := P)) frames -> terminated frames ->
  set_last_DataLen true frames = frames \/ level = Encryption1RTT -> total_length frames = Ok t -> t <= maxSize ->
  (exists t', total_length (add_ping p frames).1 = Ok t' /\ t' <= maxSize /\ (add_ping p frames).1 <> []
     /\ Forall (packable (P := P)) (add_ping p frames).1 /\ terminated (add_ping p frames).1
     /\ (set_last_DataLen true (add_ping p frames).1 = (add_ping p frames).1 \/ level = Encryption1RTT)
     /\ packer_ok (add_ping p frames).2 /\ no_token (add_ping p frames).2 /\ same_sizes (add_ping p frames).2 p)
  \/ (MaxNonRetransmittableAcks <= p_numNonRetransmittableAcks p /\ HasRetransmittableFrames frames = false /\ t = maxSize).
Proof.
  intros Hp Hnt Hne Hfr Hterm Hlast Ht Htm. unfold add_ping.
  assert (Hq : forall n, packer_ok (set_p_numNonRetransmittableAcks p n)) by (intros n; destruct Hp; by constructor).
  destruct (HasRetransmittableFrames frames) eqn:Er; cbn [negb]; [left; exists t; split_and!; (done || apply Hq) |].
  destruct (Z.leb_spec MaxNonRetransmittableAcks (p_numNonRetransmittableAcks p)); [| left; exists t; split_and!; (done || apply Hq)].
  destruct (Z.eqb_spec t maxSize) as [-> | Hn]; [by right |]. left. exists (t + 1). cbn [fst snd].
  split_and!; try (done || apply Hq); [by apply total_length_app | lia | by destruct frames | | | left; by rewrite set_last_snoc].
  - apply Forall_app. split; [done |]. by repeat constructor.
  - unfold terminated. rewrite removelast_last. apply Forall_forall. intros f Hf. destruct f; try done. exfalso.
    unfold HasRetransmittableFrames in Er. rewrite <- not_true_iff_false, existsb_exists in Er. apply Er.
    eexists. split; [by apply list_elem_of_In | done].
Qed.

(** The odd case that is left: a PING is due in a packet which is full of
    frames that need no acknowledgement. *)
Definition ping_full (p : packetPacker) (w : W) : Prop :=
  MaxNonRetransmittableAcks <= p_numNonRetransmittableAcks p
  /\ exists maxSize frames w', composeNextPacket w maxSize (canSendData (env_GetSealer w).1) = Ok (frames, w')
     /\ HasRetransmittableFrames frames = false /\ total_length frames = Ok maxSize.

End Packing.

(** ** Lemmas: retransmissions *)

Section Retransmission.
Context {Net : NetLib} {P : UDPAddr -> Prop} {NetLaws : NetLibLaws P}.

(** Cutting a frame into two. *)
Definition split_into (f g f' : StreamFrame) : Prop :=
  Stream_Data g ++ Stream_Data f' = Stream_Data f /\ Stream_Data g <> [] /\ Stream_Data f' <> []
  /\ g = mkStreamFrame (Stream_StreamID f) false (Stream_DataLenPresent g) (Stream_Offset f) (Stream_Data g)
  /\ f' = mkStreamFrame (Stream_StreamID f) (Stream_FinBit f) (Stream_DataLenPresent f')
             (Stream_Offset f + len (Stream_Data g)) (Stream_Data f').

(** The frames of the second list are those of the first one, some of them cut
    into pieces. *)
Inductive pieces : list StreamFrame -> list StreamFrame -> Prop :=
  | pieces_end : pieces [] []
  | pieces_whole f sfs l : pieces sfs l -> pieces (f :: sfs) (f :: l)
  | pieces_part f g f' sfs l : split_into f g f' -> pieces (f' :: sfs) l -> pieces (f :: sfs) (g :: l).

(** The frames that one packet takes, with their length field, and what is
    left. *)
Inductive taken : list StreamFrame -> list StreamFrame -> list StreamFrame -> Prop :=
  | taken_none sfs : taken sfs [] sfs
  | taken_whole f sfs new rest : taken sfs new rest -> taken (f :: sfs) (f :: new) rest
  | taken_part f g f' sfs : split_into f g f' -> taken (f :: sfs) [g] (f' :: sfs).

Lemma taken_pieces sfs new rest l : taken sfs new rest -> pieces rest l -> pieces sfs (new ++ l).
Proof. induction 1; intros Hl; cbn; [done | constructor; auto | by eapply pieces_part]. Qed.

Lemma stream_fuel_cons f sfs : stream_fuel (f :: sfs) = (S (List.length (Stream_Data f)) + stream_fuel sfs)%nat.
Proof. done. Qed.

Lemma taken_fuel sfs new rest : taken sfs new rest -> new <> [] -> (stream_fuel rest < stream_fuel sfs)%nat.
Proof.
  induction 1 as [| f sfs new rest H IH | f g f' sfs (Hd & Hg & _)]; [done | |]; intros _.
  - rewrite stream_fuel_cons. destruct new; [| specialize (IH ltac:(done)); lia].
    inversion H; subst; lia.
  - rewrite !stream_fuel_cons, <- Hd, length_app. destruct (Stream_Data g); [done |]. cbn [List.length]. lia.
Qed.

(** Splitting a frame without its length fills the space. *)
Lemma split_fills f space : frame_ok f -> Stream_DataLenPresent f = false -> MinStreamFrameSize < space < 2 ^ 14 ->
  match MaybeSplitOffFrame f space with
  | Ok (None, f') => f' = f /\ exists l, StreamFrame_Length f = Ok l /\ l <= space
  | Ok (Some g, f') => split_into f g f' /\ StreamFrame_Length g = Ok space
      /\ Stream_DataLenPresent g = false /\ frame_ok g /\ frame_ok f'
  | _ => False
  end.
Proof.
  intros Hok Hdl Hs. unfold MinStreamFrameSize in Hs. pose proof (stream_frame_split f space Hok ltac:(lia)) as H.
  pose proof Hok as (Hid & Ho & Hd & Hmax & Hne). pose proof (stream_header_range f) as Hh.
  assert (Hfit : StreamFrame_MaxDataLen f space = Ok (space - stream_header_len f)).
  { rewrite StreamFrame_MaxDataLen_fit, Hdl by (done || lia). unfold fit.
    by rewrite (proj2 (Z.ltb_ge space _)) by lia. }
  destruct (MaybeSplitOffFrame f space) as [[[g |] f'] | e |] eqn:Es; [| done | | done].
  2: { rewrite Hfit in H. injection H as H. lia. }
  destruct H as (H1 & H2 & H3 & H4 & H5 & _).
  assert (Hlg : len (Stream_Data g) = space - stream_header_len f).
  { unfold MaybeSplitOffFrame in Es. apply outcome_bind_Ok in Es as (l & _ & Es). case_match; [done |].
    rewrite Hfit in Es. cbn [mbind outcome_bind] in Es. case_match; [done |]. case_match; [done |].
    injection Es as <- _. cbn [Stream_Data]. apply len_take_z. bool_to_prop. lia. }
  destruct (small_data_app (Stream_Data g) (Stream_Data f')) as [Hdg Hdf]; [by rewrite H1 |].
  assert (Hl : len (Stream_Data f) = len (Stream_Data g) + len (Stream_Data f')) by (by rewrite <- H1, len_app).
  destruct g as [gi gf gd go gdata], f' as [fi ff fd fo fdata]. cbn [Stream_Data] in *.
  injection H4 as -> -> -> ->. injection H5 as -> -> -> ->. pose proof (len_nonneg gdata). pose proof (len_nonneg fdata).
  assert (HM : MaxByteCount < 2 ^ 62) by (unfold MaxByteCount; lia). unfold is_varint, maxVarInt8 in Ho.
  assert (Hgok : frame_ok (mkStreamFrame (Stream_StreamID f) false (Stream_DataLenPresent f) (Stream_Offset f) gdata)).
  { split; [exact Hid |]. split; [exact Ho |]. split; [exact Hdg |]. split; [cbn [Stream_Offset Stream_Data]; lia | by left]. }
  assert (Hfok : frame_ok (mkStreamFrame (Stream_StreamID f) (Stream_FinBit f) (Stream_DataLenPresent f)
    (Stream_Offset f + len gdata) fdata)).
  { split; [exact Hid |]. split; [unfold is_varint, maxVarInt8; cbn [Stream_Offset]; lia |]. split; [exact Hdf |].
    split; [cbn [Stream_Offset Stream_Data]; lia | by left]. }
  split; [by split_and! |]. split; [| by split_and!].
  rewrite (stream_length _ Hgok). cbn [Stream_DataLenPresent Stream_Data]. rewrite Hdl, Hlg.
  change (stream_header_len _) with (stream_header_len f). f_equal. lia.
Qed.

Definition norm : StreamFrame -> StreamFrame := set_DataLenPresent true.

Lemma norm_id f : Stream_DataLenPresent f = true -> norm (set_DataLenPresent false f) = f.
Proof. destruct f. by intros [= ->]. Qed.

Lemma split_into_norm f g f' : split_into (set_DataLenPresent false f) g f' -> split_into f (norm g) (norm f').
Proof.
  destruct f, g, f'. intros (H1 & H2 & H3 & H4 & H5). cbn in *. injection H4 as -> -> ->. injection H5 as -> -> ->.
  by split_and!.
Qed.

(** A frame to be sent again, and frames that fit without their last length. *)
Definition resend (f : StreamFrame) : Prop := frame_ok f /\ Stream_DataLenPresent f = true.
Definition fits (fs : list Frame) (maxSize : Z) : Prop :=
  exists t, total_length (set_last_DataLen false fs) = Ok t /\ t <= maxSize.

Lemma total_length_snoc fs L f l : total_length fs = Ok L -> Frame_Length f = Ok l ->
  total_length (fs ++ [f]) = Ok (L + l).
Proof. intros H1 H2. apply total_length_app; [done |]. cbn. rewrite H2. cbn. by rewrite Z.add_0_r. Qed.

Lemma fits_snoc fs L f maxSize l : total_length fs = Ok L -> frame_ok f ->
  StreamFrame_Length (set_DataLenPresent false f) = Ok l -> L + l <= maxSize -> fits (fs ++ [Stream f]) maxSize.
Proof.
  intros HL Hf Hl Hle. unfold fits. rewrite set_last_snoc. exists (L + l). split; [| done]. by apply total_length_snoc.
Qed.

Lemma take_streams_ok sfs : forall fs L maxSize, Forall resend sfs -> Forall has_DataLen fs ->
  total_length fs = Ok L -> 0 <= L < 2 ^ 15 -> fits fs maxSize -> MinStreamFrameSize < maxSize < 2 ^ 14 ->
  exists new rest, take_streams (List.length sfs) sfs fs L maxSize = Ok (fs ++ (Stream <$> new), rest)
    /\ taken sfs (norm <$> new) rest /\ Forall frame_ok new /\ Forall resend rest
    /\ terminated (fs ++ (Stream <$> new)) /\ fits (fs ++ (Stream <$> new)) maxSize
    /\ (L + MinStreamFrameSize < maxSize -> sfs <> [] -> new <> []).
Proof.
  induction sfs as [| f sfs IH]; intros fs L maxSize Hs Hdl HL HL0 Hfit Hm.
  { exists [], []. cbn. rewrite app_nil_r. split_and!; try done; [constructor | by apply terminated_all]. }
  cbn [take_streams List.length]. unfold MinStreamFrameSize in *. rewrite add64_small by lia.
  destruct (Z.ltb_spec (L + 128) maxSize) as [Hlt | Hge].
  2: { exists [], (f :: sfs). cbn. rewrite app_nil_r. split_and!; try done; [constructor | by apply terminated_all | lia]. }
  apply Forall_cons in Hs as [[Hf Hfd] Hs]. rewrite sub64_small by lia.
  pose proof (split_fills (set_DataLenPresent false f) (maxSize - L) Hf eq_refl ltac:(unfold MinStreamFrameSize; lia)) as Hsp.
  destruct (MaybeSplitOffFrame _ _) as [[[g |] f'] | |]; [| | done | done]; cbn [mbind outcome_bind].
  - destruct Hsp as (S1 & S2 & S3 & S4 & S5). rewrite S2. cbn [mbind outcome_bind]. rewrite add64_small by lia.
    exists [g], (norm f' :: sfs). split.
    { destruct (List.length sfs); cbn [take_streams]; unfold MinStreamFrameSize; rewrite add64_small by lia;
        rewrite (proj2 (Z.ltb_ge _ _)) by lia; done. }
    split_and!.
    + apply taken_part. by apply split_into_norm.
    + by constructor.
    + constructor; [| done]. by split.
    + cbn. unfold terminated. by rewrite removelast_last.
    + apply (fits_snoc fs L g maxSize (maxSize - L)); [done | done | | lia]. destruct g. cbn in S3. by subst.
    + done.
  - destruct Hsp as (-> & l & El & Hl). change (set_DataLenPresent true (set_DataLenPresent false f)) with (norm (set_DataLenPresent false f)).
    rewrite norm_id by done. rewrite (stream_length f Hf), Hfd. cbn [mbind outcome_bind].
    rewrite (stream_length (set_DataLenPresent false f) Hf) in El. injection El as <-.
    cbn [Stream_DataLenPresent Stream_Data set_DataLenPresent] in Hl.
    change (stream_header_len _) with (stream_header_len f) in Hl. pose proof (stream_header_range f) as Hh.
    pose proof (vlen_range (len (Stream_Data f))) as Hv. pose proof (len_nonneg (Stream_Data f)). rewrite add64_small by lia.
    set (l' := stream_header_len f + vlen (len (Stream_Data f)) + len (Stream_Data f)).
    destruct (IH (fs ++ [Stream f]) (L + l') maxSize) as (new & rest & E1 & E2 & E3 & E4 & E5 & E6 & E7); try done.
    + apply Forall_app. split; [done |]. by constructor.
    + apply total_length_snoc; [done |]. cbn [Frame_Length]. by rewrite (stream_length f Hf), Hfd.
    + subst l'. lia.
    + eapply fits_snoc; [done.. | |].
      * apply (stream_length (set_DataLenPresent false f) Hf).
      * cbn [Stream_DataLenPresent Stream_Data set_DataLenPresent]. change (stream_header_len _) with (stream_header_len f). lia.
    + exists (f :: new), rest. rewrite <- app_assoc in *. cbn [fmap list_fmap app] in *. split_and!; try done.
      * replace (norm f) with f by (destruct f; cbn in Hfd; by subst). by constructor.
      * by constructor.
Qed.

Lemma stream_frames_app l k : stream_frames (l ++ k) = stream_frames l ++ stream_frames k.
Proof. apply omap_app. Qed.
Lemma control_frames_app l k : control_frames (l ++ k) = control_frames l ++ control_frames k.
Proof. apply omap_app. Qed.

Lemma frames_set_last b fs : stream_frames (set_last_DataLen b fs) = stream_frames fs
  /\ control_frames (set_last_DataLen b fs) = control_frames fs.
Proof.
  destruct fs as [| f fs _] using rev_ind; [done |]. rewrite set_last_snoc, !stream_frames_app, !control_frames_app.
  by destruct f.
Qed.

Definition no_stream (f : Frame) : Prop := forall sf, f <> Stream sf.

Lemma frames_no_stream l : Forall no_stream l -> stream_frames l = [] /\ control_frames l = l.
Proof.
  induction 1 as [| f l Hf _ [IH1 IH2]]; [done |].
  destruct f; try (split; [exact IH1 | unfold control_frames in *; cbn; by rewrite IH2]). by destruct (Hf f).
Qed.

Lemma frames_streams l : stream_frames (Stream <$> l) = norm <$> l /\ control_frames (Stream <$> l) = [].
Proof. induction l as [| f l [IH1 IH2]]; [done |]. unfold stream_frames, control_frames in *. cbn. by rewrite IH1, IH2. Qed.

(** A control frame that fits into any packet. *)
Definition short_control (f : Frame) : Prop := packable (P := P) f /\ no_stream f
  /\ exists l, Frame_Length f = Ok l /\ l <= 1000.

(** The frames of one packet of a retransmission. *)
Lemma retransmit_frames cfs sfs maxSize : Forall short_control cfs -> Forall resend sfs -> 1000 < maxSize < 2 ^ 14 ->
  cfs <> [] \/ sfs <> [] ->
  exists ctrl crest t new srest,
    take_control cfs [] 0 maxSize = Ok (ctrl, t, crest)
    /\ take_streams (List.length sfs) sfs ctrl t maxSize = Ok (ctrl ++ (Stream <$> new), srest)
    /\ cfs = ctrl ++ crest /\ taken sfs (norm <$> new) srest /\ Forall short_control crest /\ Forall resend srest
    /\ ctrl ++ (Stream <$> new) <> [] /\ Forall (packable (P := P)) (ctrl ++ (Stream <$> new))
    /\ terminated (ctrl ++ (Stream <$> new)) /\ fits (ctrl ++ (Stream <$> new)) maxSize
    /\ (retransmit_fuel crest srest < retransmit_fuel cfs sfs)%nat.
Proof.
  intros Hc Hs Hm Hne.
  destruct (take_control_spec cfs [] 0 maxSize) as (ctrl & crest & t & Et & -> & Htot & Ht0 & Htm & Hnext); [| lia | lia |].
  { eapply Forall_impl; [exact Hc |]. intros f (Hp & _ & l & El & Hl). exists l. split; [done |].
    destruct (packable_measured f Hp) as (bs & _ & _ & E). rewrite El in E. injection E as ->. pose proof (len_nonneg bs). lia. }
  rewrite !Z.add_0_l in *. cbn [app] in Et. apply Forall_app in Hc as [Hctrl Hcrest].
  assert (Hns : Forall no_stream ctrl) by (eapply Forall_impl; [exact Hctrl |]; by intros f (_ & H & _)).
  assert (Hdl : Forall has_DataLen ctrl).
  { eapply Forall_impl; [exact Hns |]. intros f Hf. destruct f; try done. by destruct (Hf f). }
  destruct (take_streams_ok sfs ctrl t maxSize) as (new & srest & Es & Htk & Hok & Hrs & Hterm & Hfits & Hprog); try done; try lia.
  { unfold fits. rewrite set_last_no_stream by done. by exists t. }
  { unfold MinStreamFrameSize. lia. }
  exists ctrl, crest, t, new, srest. split_and!; try done.
  - destruct ctrl as [| f ctrl]; [| done]. cbn in Htot. injection Htot as <-. destruct crest as [| f crest].
    + destruct Hne as [| Hne]; [done |]. destruct new; [| done]. by destruct (Hprog ltac:(unfold MinStreamFrameSize; lia) Hne).
    + destruct (Hnext f crest eq_refl) as (l & El & Hl). apply Forall_cons in Hcrest as [(_ & _ & l' & El' & Hl') _].
      rewrite El in El'. injection El' as ->. lia.
  - apply Forall_app. split; [eapply Forall_impl; [exact Hctrl |]; by intros f (H & _) |].
    apply Forall_fmap. eapply Forall_impl; [exact Hok |]. by split.
  - unfold retransmit_fuel. rewrite length_app. destruct new as [| f new].
    + inversion Htk; subst. destruct ctrl as [| f ctrl]; [| cbn [List.length]; lia]. cbn in Htot. injection Htot as <-.
      destruct crest as [| f crest].
      * destruct Hne as [| Hne]; [done |]. by destruct (Hprog ltac:(unfold MinStreamFrameSize; lia) Hne).
      * destruct (Hnext f crest eq_refl) as (l & El & Hl). apply Forall_cons in Hcrest as [(_ & _ & l' & El' & Hl') _].
        rewrite El in El'. injection El' as ->. lia.
    + pose proof (taken_fuel _ _ _ Htk ltac:(done)). lia.
Qed.
End Retransmission.

Section Retransmit.
Context {Net : NetLib} {P : UDPAddr -> Prop} {NetLaws : NetLibLaws P}.
Context {W : Type} {E : PackerEnv W} {ok : W -> Prop} {Laws : PackerEnvLaws P W ok}.

Definition sent_control (pkts : list packedPacket) : list Frame := concat ((fun k => control_frames (pk_frames k)) <$> pkts).
Definition sent_streams (pkts : list packedPacket) : list StreamFrame := concat ((fun k => stream_frames (pk_frames k)) <$> pkts).

Lemma retransmit_ok sealer fuel : sealer_ok sealer -> forall p w cfs sfs pkts, packer_ok p -> ok w -> no_token p ->
  Forall (short_control (P := P)) cfs -> Forall resend sfs -> (retransmit_fuel cfs sfs <= fuel)%nat ->
  exists new p' w', retransmit fuel p w Encryption1RTT sealer cfs sfs pkts = Ok (pkts ++ new, p', w')
    /\ ok w' /\ packer_ok p' /\ no_token p'
    /\ Forall (fun k => exists b, packed (P := P) (set_p_hasSentPacket p b) Encryption1RTT sealer k) new
    /\ sent_control new = cfs /\ pieces sfs (sent_streams new).
Proof.
  intros Hseal. induction fuel as [| fuel IH]; intros p w cfs sfs pkts Hp Hw Hnt Hc Hs Hf.
  - destruct cfs; [| unfold retransmit_fuel in Hf; cbn in Hf; lia].
    destruct sfs; [| unfold retransmit_fuel in Hf; rewrite stream_fuel_cons in Hf; lia].
    exists [], p, w. cbn. rewrite app_nil_r. split_and!; try done. constructor.
  - destruct (decide (cfs = [] /\ sfs = [])) as [[-> ->] | Hnn].
    { exists [], p, w. cbn. rewrite app_nil_r. split_and!; try done. constructor. }
    assert (Hne : cfs <> [] \/ sfs <> []) by (destruct cfs; [right; intros ->; by apply Hnn | by left]).
    destruct (env_PeekPacketNumber w) as [pn pnLen] eqn:Epeek.
    pose proof (peek_ok w Hw) as Hpn. rewrite Epeek in Hpn. cbn [fst snd] in Hpn.
    destruct (level_params p Encryption1RTT Hp ltac:(done)) as [Hlp Hpl].
    destruct (packer_header_written p pn pnLen _ _ _ [] Hp Hpn Hlp) as (hb & _ & _ & Lhb & HG).
    pose proof (header_size_small p pnLen Encryption1RTT (level_payload p Encryption1RTT) Hp (ex_intro _ pn Hpn)) as Hhs.
    pose proof (pa_size p Hp) as Hps. unfold MinInitialPacketSize, MaxReceivePacketSize in Hps. pose proof Hseal as [Hov _].
    set (maxSize := p_maxPacketSize p - Overhead sealer
      - header_size p pnLen (level_long Encryption1RTT) (level_type Encryption1RTT) (level_payload p Encryption1RTT) []).
    destruct (retransmit_frames cfs sfs maxSize Hc Hs ltac:(lia) Hne)
      as (ctrl & crest & t & new & srest & Et & Es & -> & Htk & Hcr & Hsr & Hne' & Hpk & Hterm & (t' & Et' & Ht') & Hfuel).
    destruct (pack_same p p w pn pnLen Encryption1RTT sealer (set_last_DataLen false (ctrl ++ (Stream <$> new))) t')
      as (pkt & w1 & Epk & Hw1 & Hp1 & Hpacked & Hfr); try done.
    { by intros E0%(f_equal (@List.length Frame)); destruct (ctrl ++ (Stream <$> new)) as [| f l _] using rev_ind;
        [| rewrite set_last_snoc, length_app in E0; cbn in E0; lia]. }
    { by apply set_last_packable. }
    { by apply terminated_set_last. }
    { by right. }
    { subst maxSize. lia. }
    destruct (IH (set_p_hasSentPacket p true) w1 crest srest (pkts ++ [pkt]) Hp1 Hw1 Hnt Hcr Hsr ltac:(lia))
      as (rest & p' & w' & Er & R1 & R2 & R3 & R4 & R5 & R6).
    exists (pkt :: rest), p', w'. split.
    { cbn [retransmit]. destruct (ctrl ++ crest) as [| c0 cs0] eqn:Ecs, sfs as [| s0 ss0];
        [by destruct Hnn | | |];
        rewrite (getHeader_packer p w Encryption1RTT pn pnLen Epeek), HG; cbn [mbind outcome_bind];
        rewrite Lhb, (u64_small (Overhead sealer)) by lia; rewrite (sub64_small (p_maxPacketSize p)), sub64_small by lia;
        fold maxSize; rewrite Et; cbn [mbind outcome_bind]; rewrite Es; cbn [mbind outcome_bind];
        (destruct (ctrl ++ (Stream <$> new)) eqn:Efr; [done |]); rewrite Epk; cbn [mbind outcome_bind];
        rewrite Er, <- app_assoc; done. }
    destruct (frames_set_last false (ctrl ++ (Stream <$> new))) as [F1 F2]. rewrite stream_frames_app in F1.
    rewrite control_frames_app in F2. apply Forall_app in Hc as [Hctrl _].
    destruct (frames_no_stream ctrl) as [F3 F4]; [eapply Forall_impl; [exact Hctrl |]; by intros f (_ & H & _) |].
    destruct (frames_streams new) as [F5 F6]. rewrite F3, F5 in F1. rewrite F4, F6, app_nil_r in F2.
    split_and!; try done.
    + constructor; [| done]. exists (p_hasSentPacket p). by destruct p.
    + unfold sent_control in *. cbn. by rewrite Hfr, F2, R5.
    + unfold sent_streams in *. cbn. rewrite Hfr, F1. by eapply taken_pieces.
Qed.

End Retransmit.

(** ** A connection as the environment of the packer

    Consecutive packet numbers, the framer with the streams of the session, a
    list of the ACK frames that are due, and an AEAD that only appends a tag. *)
Record packer_world : Type := mkPackerWorld {
  pw_next : Z;
  pw_framer : framerI;
  pw_streams : session_streams;
  pw_acks : list AckFrame }.

Definition plain_sealer : Sealer := mkSealer 16 (fun payload _ _ => payload ++ replicate 16 0).

Section World.
Context {Net : NetLib}.

#[export] Instance packer_world_env : PackerEnv packer_world := {
  env_PeekPacketNumber w := (pw_next w, PacketNumberLen2);
  env_PopPacketNumber w := (pw_next w, mkPackerWorld (u64 (pw_next w + 1)) (pw_framer w) (pw_streams w) (pw_acks w));
  env_GetSealer w := (Encryption1RTT, plain_sealer);
  env_GetSealerWithEncryptionLevel w level := Ok plain_sealer;
  env_AppendStreamFrames w frames maxLen :=
    '(frames, f, st) ← AppendStreamFrames (pw_framer w) (pw_streams w) frames maxLen;
    Ok (frames, mkPackerWorld (pw_next w) f st (pw_acks w));
  env_AppendControlFrames w frames maxLen :=
    '(frames, length, f) ← AppendControlFrames (pw_framer w) frames maxLen;
    Ok (frames, length, mkPackerWorld (pw_next w) f (pw_streams w) (pw_acks w));
  env_GetAckFrame w :=
    match pw_acks w with
    | [] => (None, w)
    | a :: acks => (Some a, mkPackerWorld (pw_next w) (pw_framer w) (pw_streams w) acks)
    end }.

Context {P : UDPAddr -> Prop} {NetLaws : NetLibLaws P}.

Record packer_world_ok (w : packer_world) : Prop := {
  pw_pn : is_u64 (pw_next w);
  pw_fr : framer_ok (pw_framer w);
  pw_control : Forall (fun f => packable (P := P) f /\ no_stream f /\ has_length f) (controlFrames (pw_framer w));
  pw_st : session_streams_ok (pw_streams w);
  pw_ack : Forall ack_wf (pw_acks w) }.

Lemma plain_sealer_ok : sealer_ok plain_sealer.
Proof.
  split; [cbn; lia |]. intros payload pn ad Hb _. cbn [plain_sealer Seal Overhead]. rewrite len_app. split; [done |].
  apply bytes_app. split; [done |]. apply Forall_replicate. unfold is_byte. lia.
Qed.

#[export] Instance packer_world_laws : PackerEnvLaws P packer_world packer_world_ok.
Proof.
  split.
  - intros w Hw. split; [apply (pw_pn w Hw) | by right; left].
  - intros w []. split; [done |]. constructor; try done. apply u64_range.
  - intros w Hw. split; [apply plain_sealer_ok | done].
  - intros w level s _ [= <-]. apply plain_sealer_ok.
  - intros w Hw. pose proof (pw_ack w Hw) as Ha. cbn [env_GetAckFrame packer_world_env].
    destruct (pw_acks w) as [| a acks] eqn:Ea; cbn [fst snd]; [by split_and! |].
    apply Forall_cons in Ha as [Ha Has]. split; [destruct Hw; by constructor |]. split; [done |]. by intros ? [= <-].
  - intros w frames maxLen Hw Hm. cbn [env_AppendControlFrames packer_world_env].
    pose proof (pw_control w Hw) as Hc.
    destruct (AppendControlFrames_spec (pw_framer w) frames maxLen) as (new & t & f' & -> & H1 & H2 & H3 & H4 & H5 & _); [| lia |].
    { eapply Forall_impl; [exact Hc |]. by intros f (_ & _ & H). }
    cbn [mbind outcome_bind]. exists new, t, (mkPackerWorld (pw_next w) f' (pw_streams w) (pw_acks w)).
    rewrite H1, Forall_app in Hc. destruct Hc as [Hc1 Hc2]. apply Forall_rev in Hc2. rewrite rev_involutive in Hc2.
    split_and!; try done.
    + destruct Hw as [W1 [W2 W2'] W3 W4 W5]. constructor; try done. split; cbn [pw_framer]; by rewrite ?H2, ?H3.
    + eapply Forall_impl; [exact Hc2 |]. by intros f (H & _).
    + eapply Forall_impl; [exact Hc2 |]. by intros f (_ & H & _).
  - intros w frames maxLen Hw Hm. cbn [env_AppendStreamFrames packer_world_env].
    destruct (append_streams_spec (streamQueue (pw_framer w)) (pw_framer w) (pw_streams w) frames 0 maxLen [])
      as (new & f' & st' & served & rest & kept & t & E0 & H1 & H2 & H3 & _ & _ & _ & H7 & _ & H9 & _ & H11);
      [apply (pw_st w Hw) | apply (pw_fr w Hw) | by rewrite app_nil_r | lia | lia |].
    unfold AppendStreamFrames. rewrite E0. cbn [mbind outcome_bind].
    assert (Hnew : exists sfs, new = Stream <$> sfs /\ Forall (fun f => frame_ok f /\ Stream_DataLenPresent f = true) sfs).
    { clear -H11. induction H11 as [| f l (sf & -> & Hf) _ (sfs & -> & Hs)]; [by exists [] |].
      exists (sf :: sfs). split; [done |]. by constructor. }
    destruct Hnew as (sfs & -> & Hsfs). exists sfs, t, (mkPackerWorld (pw_next w) f' st' (pw_acks w)).
    split_and!; try (done || lia). destruct Hw. constructor; try done. cbn [pw_framer]. by rewrite H3.
Qed.
End World.

#[local] Existing Instance loopback_net.

(** A server that has finished the handshake. *)
Definition sample_packer : packetPacker :=
  set_p_hasSentPacket (newPacketPacker [1; 2; 3; 4] [5; 6; 7; 8] newCryptoStream newCryptoStream [] PerspectiveServer VersionTLS) true.
Definition sample_world : packer_world := mkPackerWorld 7 sample_framer sample_session [].

Lemma sample_packer_ok : packer_ok sample_packer.
Proof.
  constructor; try (by vm_compute); (split; [solve_bytes | right; vm_compute; split; discriminate]).
Qed.

Lemma sample_world_ok : packer_world_ok (P := fun a => a = loopback) sample_world.
Proof.
  constructor; cbn [pw_next pw_framer pw_streams pw_acks sample_world].
  - unfold is_u64. lia.
  - apply AddActiveStream_ok, newFramer_ok.
  - constructor; [| done]. split_and!; [done | done |]. exists 1. split; [reflexivity | lia].
  - apply sample_session_ok.
  - done.
Qed.


(** A packet with a PING and 2000 bytes of a stream, to be sent again. *)
Definition sample_lost : Packet :=
  mkPacket 3 0 [Ping; Stream (mkStreamFrame 4 true false 0 (replicate 2000 7))] 2050 Encryption1RTT 0 0 true true [] false 0.


(** ** Packets that go wrong *)

(** 2000 bytes of a stream are waiting, and a control frame. *)
Definition big_stream : sendStream :=
  (stream_Write (newSendStream 4 (NewStreamFlowController 4 1000 1000 100000)) (replicate 2000 7) 5).1.1.
Definition big_world (control : Frame) : packer_world :=
  mkPackerWorld 7 (QueueControlFrame (AddActiveStream newFramer 4) control)
    (mkSessionStreams {[4 := big_stream]} ∅ (UpdateSendWindow (NewConnectionFlowController 1000 1000) 100000) [] 0 0) [].

Definition too_large (size : Z) : go_error :=
  Errorf "PacketPacker BUG: packet too large (%d bytes, allowed %d bytes)" [size; MaxPacketSizeIPv6].

(** An ADDR_MOD frame in a full packet closes the connection: its [Length]
    is two bytes short, the stream data fills what seems to be left, and the
    packet is refused as too large.  With a PING in its place the packet is
    made. *)
Theorem addr_mod_breaks_packing :
  PackPacket sample_packer (big_world (AddrMod (mkAddrModFrame AddFrame IPv4 loopback))) = Err (too_large 1233)
  /\ exists pkt p' w', PackPacket sample_packer (big_world Ping) = Ok (Some pkt, p', w') /\ len (pk_raw pkt) = 1231.
Proof.
  split; [by vm_compute |]. eexists _, _, _. split; [vm_compute; reflexivity | by vm_compute].
Qed.

(** A client with its first [n] bytes of handshake data. *)
Definition client_packer (token : list Z) (n : nat) : packetPacker :=
  newPacketPacker [1; 2; 3; 4] [5; 6; 7; 8] (crypto_Write newCryptoStream (replicate n 1)) newCryptoStream token
    PerspectiveClient VersionTLS.

(** The first packet of a client with much handshake data has a wrong
    payload length: with 1190 bytes it announces 1181 bytes of payload, the
    length of a packet padded to 1200 bytes, but has 1210, so that the server
    cuts the packet and cannot open it. *)
Theorem initial_payload_len_wrong : exists pkt p' w' hb,
  PackPacket (client_packer [] 1190) (big_world Ping) = Ok (Some pkt, p', w')
  /\ Header_Write 0 (pk_header pkt) = Ok hb /\ PayloadLen (pk_header pkt) = 1181
  /\ len (pk_raw pkt) - len hb = 1210.
Proof.
  eexists _, _, _, _. split; [vm_compute; reflexivity |]. split; [vm_compute; reflexivity |]. by vm_compute.
Qed.

(** The token of a Retry packet is not counted when the first packet is
    filled: with a token of 100 bytes and enough handshake data the packet is
    refused as too large, and a token of 1190 bytes makes the payload length
    wrap around and the client panic. *)
Theorem token_breaks_initial :
  PackPacket (client_packer (replicate 100 9) 1190) (big_world Ping) = Err (too_large 1330)
  /\ PackPacket (client_packer (replicate 1190 9) 1) (big_world Ping) = Panic "value doesn't fit into 62 bits".
Proof. split; by vm_compute. Qed.
