(* ===== verification/Receiving.v ===== *)
(** * Receiving packets (packet_handler_map.go, packet_unpacker.go)

    The packet handler map parses the header of a received packet and hands it
    to the session with that connection ID, or to the server; the unpacker opens
    the payload and parses the frames.  The AEADs are parameters.  The theorems
    say that arbitrary bytes are handled, where a packet goes, and that what the
    packer has packed arrives. *)

From S2P Require Import Prelude Qerr Varint Protocol AckFrame Frames FrameCodec FrameParser FrameSorter.
From S2P Require Import Header Float FlowControl SentHistory SendStream ReceiveStream CryptoStream Framer Packer.

(** ** packet_unpacker.go *)

Record unpackedPacket : Type := mkUnpackedPacket {
  up_encryptionLevel : EncryptionLevel;
  up_frames : list Frame }.

Section Unpacker.
Context {Net : NetLib}.
(** OpenInitial, OpenHandshake and Open1RTT: of the sealed payload, the packet
    number and the associated data. *)
Context (Open : EncryptionLevel -> list Z -> Z -> list Z -> outcome (list Z)).

(** The loop over the frames; every frame takes at least a byte. *)
Fixpoint parse_frames (fuel : nat) (r : list Z) (fs : list Frame) : outcome (list Frame) :=
  match fuel with
  | O => Panic "out of fuel"
  | S fuel =>
      '(frame, r) ← ParseNextFrame r;
      match frame with
      | None => Ok fs
      | Some frame => parse_frames fuel r (fs ++ [frame])
      end
  end.

Definition parseFrames (decrypted : list Z) : outcome (list Frame) :=
  if len decrypted =? 0 then Err (ErrorCode MissingPayload)
  else parse_frames (S (length decrypted)) decrypted [].

Definition Unpack (headerBinary : list Z) (hdr : Header) (data : list Z) : outcome unpackedPacket :=
  let opened :=
    if Header_Type hdr =? PacketTypeInitial then Ok EncryptionInitial
    else if Header_Type hdr =? PacketTypeHandshake then Ok EncryptionHandshake
    else if IsLongHeader hdr then Err (Errorf "unknown packet type: %s" [Header_Type hdr])
    else Ok Encryption1RTT in
  encryptionLevel ← opened;
  match Open encryptionLevel data (Header_PacketNumber hdr) headerBinary with
  | Panic s => Panic s
  | Err e => Err (QuicError DecryptionFailure (MsgOf e))
  | Ok decrypted =>
      fs ← parseFrames decrypted;
      Ok (mkUnpackedPacket encryptionLevel fs)
  end.
End Unpacker.

(** ** packet_handler_map.go *)

Section Handlers.
(** Sessions and servers. *)
Context {H S : Type}.

(** A connection ID that was removed stays, with nil, until its timer fires. *)
Record packetHandlerMap : Type := mkHandlerMap {
  connIDLen : Z;
  handlers : gmap (list Z) (option H);
  ph_server : option S;
  ph_closed : bool }.

Definition newPacketHandlerMap (connIDLen : Z) : packetHandlerMap := mkHandlerMap connIDLen ∅ None false.

Definition ph_Add (m : packetHandlerMap) (id : list Z) (handler : H) : packetHandlerMap :=
  mkHandlerMap (connIDLen m) (<[id := Some handler]> (handlers m)) (ph_server m) (ph_closed m).

Definition ph_Remove (m : packetHandlerMap) (id : list Z) : packetHandlerMap :=
  mkHandlerMap (connIDLen m) (<[id := None]> (handlers m)) (ph_server m) (ph_closed m).

(** The timer [ph_Remove] has started. *)
Definition ph_delete (m : packetHandlerMap) (id : list Z) : packetHandlerMap :=
  mkHandlerMap (connIDLen m) (delete id (handlers m)) (ph_server m) (ph_closed m).

Definition SetServer (m : packetHandlerMap) (s : S) : packetHandlerMap :=
  mkHandlerMap (connIDLen m) (handlers m) (Some s) (ph_closed m).

(** The sessions of the server are closed and removed; [isServer] tells the
    perspective of a session. *)
Definition CloseServer (isServer : H -> bool) (m : packetHandlerMap) : packetHandlerMap :=
  mkHandlerMap (connIDLen m)
    ((fun h => match h with Some h => if isServer h then None else Some h | None => None end) <$> handlers m)
    None (ph_closed m).

(** The sessions that are destroyed and the server that is closed. *)
Definition ph_close (m : packetHandlerMap) : list H * option S * packetHandlerMap :=
  if ph_closed m then ([], None, m)
  else (omap id (map_to_list (handlers m)).*2, ph_server m,
        mkHandlerMap (connIDLen m) (handlers m) (ph_server m) true).

(** Where a packet goes, with its header and its payload. *)
Inductive delivery : Type :=
  | Late
  | ToSession (h : H) (hdr : Header) (data : list Z)
  | ToServer (s : S) (hdr : Header) (data : list Z).

Definition with_raw (h : Header) (raw : list Z) : Header :=
  mkHeader raw (Header_Version h) (DestConnectionID h) (SrcConnectionID h) (OrigDestConnectionID h)
    (Header_PacketNumberLen h) (Header_PacketNumber h) (IsVersionNegotiation h) (Header_SupportedVersions h)
    (Header_Type h) (IsLongHeader h) (KeyPhase h) (PayloadLen h) (Header_Token h).

Definition handlePacket (m : packetHandlerMap) (data : list Z) : outcome delivery :=
  match ParseInvariantHeader (connIDLen m) data with
  | Panic s => Panic s
  | Err _ => Err (Errorf "error parsing invariant header: %s" [])
  | Ok (iHdr, r) =>
      let handler := handlers m !! iv_DestConnectionID iHdr in
      match handler, ph_server m with
      | Some None, _ => Ok Late
      | None, None => Err (Errorf "received a packet with an unexpected Connection ID %s" (iv_DestConnectionID iHdr))
      | _, _ =>
          match iv_Parse iHdr r with
          | Panic s => Panic s
          | Err _ => Err (Errorf "error parsing header: %s" [])
          | Ok (hdr, r) =>
              let hdr := with_raw hdr (take_z (len data - len r) data) in
              let packetData := drop_z (len data - len r) data in
              if IsLongHeader hdr && (len packetData <? PayloadLen hdr) then
                Err (Errorf "packet payload (%d bytes) is smaller than the expected payload length (%d bytes)"
                       [len packetData; PayloadLen hdr])
              else
                let packetData := if IsLongHeader hdr then take_z (PayloadLen hdr) packetData else packetData in
                match handler, ph_server m with
                | Some (Some h), _ => Ok (ToSession h hdr packetData)
                | _, Some s => Ok (ToServer s hdr packetData)
                | _, None => Panic "nil pointer dereference"
                end
          end
      end
  end.
End Handlers.

(** ** Lemmas: frames *)

Section FrameLemmas.
Context {Net : NetLib} {P : UDPAddr -> Prop} {NetLaws : NetLibLaws P}.

Lemma parse_frames_safe : forall fuel r fs, bytes r -> (length r < fuel)%nat -> Forall frame_valid fs ->
  match parse_frames fuel r fs with
  | Ok fs' => fs `prefix_of` fs' /\ Forall frame_valid fs'
  | Err e => exists e', e = QuicError InvalidFrameData (MsgOf e')
  | Panic _ => In 0xf1 r
  end.
Proof.
  induction fuel as [| fuel IH]; intros r fs Hr Hf Hfs; [lia |]. cbn [parse_frames].
  pose proof (next_frame_safe r Hr) as H. destruct (ParseNextFrame r) as [[[f |] r'] | e | s]; cbn.
  - destruct H as (Hv & Hs & Hl). assert (Hr' : bytes r').
    { by eapply bytes_suffix. }
    specialize (IH r' (fs ++ [f]) Hr' ltac:(lia) ltac:(by apply Forall_app; auto)).
    destruct (parse_frames fuel r' (fs ++ [f])); [| done |].
    + destruct IH as [Hp Hv']. split; [| done]. etrans; [by apply prefix_app_r | exact Hp].
    + destruct Hs as [k ->]. apply in_or_app. by right.
  - auto.
  - done.
  - destruct H as (k & r' & ->). apply in_or_app. right. by left.
Qed.

Lemma parse_zeros pad : ParseNextFrame (replicate pad 0) = Ok (None, []).
Proof. induction pad as [| pad IH]; [done |]. cbn [replicate ParseNextFrame]. exact IH. Qed.

Lemma parse_frames_written pad frames : Forall (packable (P := P)) frames -> terminated frames ->
  (pad <> O -> set_last_DataLen true frames = frames) ->
  exists fs', Forall2 seen frames fs' /\ forall bs fuel acc, write_frames frames = Ok bs ->
    (length (bs ++ replicate pad 0%Z) < fuel)%nat ->
    parse_frames fuel (bs ++ replicate pad 0) acc = Ok (acc ++ fs').
Proof.
  induction frames as [| f frames IH]; intros Hp Ht Hl.
  - exists []. split; [done |]. intros bs fuel acc [= <-] Hf. cbn [app] in *. destruct fuel as [| fuel]; [lia |].
    cbn [parse_frames]. rewrite parse_zeros. cbn. by rewrite app_nil_r.
  - apply Forall_cons in Hp as [[Hs Ha] Hp].
    assert (Ht' : terminated frames).
    { destruct frames as [| g frames]; [done |]. unfold terminated in *. cbn [removelast] in Ht.
      apply Forall_cons in Ht as [_ ?]. done. }
    destruct IH as (fs' & Hfs & IH); [done | done | |].
    { intros Hpad. specialize (Hl Hpad). destruct frames as [| g frames]; [done |].
      cbn [set_last_DataLen] in Hl. destruct f; by injection Hl. }
    destruct (write_frames frames) as [bs | |] eqn:Ebs.
    2,3: destruct (write_frames_measured frames) as (? & ? & _); [| congruence];
         eapply Forall_impl; [exact Hp | apply packable_measured].
    assert (Hfol : followed_by f (bs ++ replicate pad 0)).
    { destruct f; try done. unfold followed_by, frame_rest. cbn. destruct frames as [| g frames].
      - injection Ebs as <-. destruct pad; [by right |]. left. specialize (Hl ltac:(done)). cbn in Hl.
        injection Hl as Hl. by rewrite <- Hl.
      - left. unfold terminated in Ht. cbn [removelast] in Ht. by apply Forall_cons in Ht as [? _]. }
    destruct (frame_seen f _ Hs Hfol) as (f' & Hf' & b & Eb & _ & Hb & _ & Hparse).
    exists (f' :: fs'). split; [by constructor |]. intros bs' fuel acc Ebs' Hfuel.
    unfold write_frames in Ebs'. cbn [foldr] in Ebs'. fold (write_frames frames) in Ebs'.
    rewrite Eb, Ebs in Ebs'. injection Ebs' as <-. rewrite <- app_assoc in *.
    destruct fuel as [| fuel]; [lia |]. cbn [parse_frames]. rewrite Hparse. cbn [mbind outcome_bind].
    rewrite (IH bs fuel (acc ++ [f'])); [by rewrite <- app_assoc | done |].
    rewrite length_app in Hfuel. destruct b; [done |]. cbn [length] in Hfuel. lia.
Qed.
End FrameLemmas.

(** ** Lemmas: headers *)

(** The parser keeps what the invariant header has. *)
Lemma iv_Parse_keeps iv r h r' : iv_Parse iv r = Ok (h, r') ->
  DestConnectionID h = iv_DestConnectionID iv /\ SrcConnectionID h = iv_SrcConnectionID iv
  /\ IsLongHeader h = iv_IsLongHeader iv.
Proof.
  assert (Hk : forall a b c d e f g i j r1, mret (M := reader) (with_parsed (toHeader iv) a b c d e f g i j) r1 = Ok (h, r') ->
    DestConnectionID h = iv_DestConnectionID iv /\ SrcConnectionID h = iv_SrcConnectionID iv
    /\ IsLongHeader h = iv_IsLongHeader iv) by (intros * [= <- <-]; done).
  unfold iv_Parse, parseVersionNegotiationPacket, parseLongHeader, parseShortHeader. intros H.
  repeat (cbv zeta in H; match type of H with
    | mret _ _ = _ => by eapply Hk
    | fail _ _ = _ => discriminate H
    | (let '(_, _) := ?p in _) _ = _ => destruct p
    | (if ?b then _ else _) _ = _ => destruct b
    | (_ ≫= _) _ = _ => apply reader_bind_Ok in H as (? & ? & _ & H)
    end).
Qed.

Lemma packer_header_parsed p pn pnLen long t pl hb rest : packer_ok p -> pn_ok pn pnLen ->
  long_params long t pl [] -> Header_Write 0 (packer_header p pn pnLen long t pl []) = Ok hb ->
  exists h, parse_header (len (p_destConnID p)) (hb ++ rest) = Ok (h, rest)
    /\ DestConnectionID h = p_destConnID p /\ Header_PacketNumberLen h = pnLen
    /\ Header_PacketNumber h = pn mod 2 ^ pn_bits pnLen /\ Header_Type h = t /\ IsLongHeader h = long
    /\ (long = true -> PayloadLen h = pl /\ SrcConnectionID h = p_srcConnID p).
Proof.
  intros [D1 D2 D3 D4 D5 D6 D7] Hpn Hl Hw. destruct long; cbn [long_params] in Hl.
  - destruct Hl as (Ht & Hpl & Bt & Lt & Htok).
    assert (Hnr : t <> PacketTypeRetry)
      by (unfold PacketTypeRetry, PacketTypeInitial, PacketTypeHandshake in *; lia).
    destruct (long_roundtrip 0 (len (p_destConnID p)) (p_version p) (p_destConnID p) (p_srcConnID p) pnLen pn t pl [] rest)
      as (hb' & E & _ & _ & H); try done.
    { unfold long_type. tauto. }
    unfold packer_header in Hw. rewrite E in Hw. injection Hw as ->. eexists. split; [exact H |].
    unfold on_wire, is_retry. cbn [IsLongHeader Header_Type]. rewrite (proj2 (Z.eqb_neq _ _) Hnr). by split_and!.
  - destruct Hl as (-> & _). destruct D1 as [B1 D1].
    destruct (short_roundtrip 0 (p_destConnID p) pnLen pn 0 rest) as (hb' & E & _ & _ & H); try done; [lia | by left |].
    change (Header_Write 0 _ = Ok hb') with
      (Header_Write 0 (packer_header p pn pnLen false 0 pl []) = Ok hb') in E.
    rewrite E in Hw. injection Hw as ->. eexists. split; [exact H |]. by split_and!.
Qed.

(** The number of a received packet, as the session infers it. *)
Definition infer_number (largestRcvdPacketNumber : Z) (h : Header) : Header :=
  mkHeader (Header_Raw h) (Header_Version h) (DestConnectionID h) (SrcConnectionID h) (OrigDestConnectionID h)
    (Header_PacketNumberLen h)
    (InferPacketNumber (Header_PacketNumberLen h) largestRcvdPacketNumber (Header_PacketNumber h))
    (IsVersionNegotiation h) (Header_SupportedVersions h) (Header_Type h) (IsLongHeader h) (KeyPhase h)
    (PayloadLen h) (Header_Token h).

Section Delivery.
Context {H S : Type}.

(** The packet of a known session, with a header that can be parsed. *)
Lemma handlePacket_session (m : packetHandlerMap (H := H) (S := S)) (h : H) hb rest hdr :
  parse_header (connIDLen m) (hb ++ rest) = Ok (hdr, rest) -> handlers m !! DestConnectionID hdr = Some (Some h) ->
  (IsLongHeader hdr = true -> PayloadLen hdr = len rest) ->
  handlePacket m (hb ++ rest) = Ok (ToSession h (with_raw hdr hb) rest).
Proof.
  intros Hp Hh Hl. unfold parse_header in Hp. apply reader_bind_Ok in Hp as (iv & r1 & Hiv & Hp).
  destruct (iv_Parse_keeps iv r1 hdr rest Hp) as (Hd & _). unfold handlePacket.
  rewrite Hiv, <- Hd, Hh, Hp. replace (len (hb ++ rest) - len rest) with (len hb) by (rewrite len_app; lia).
  rewrite take_z_app, drop_z_app. cbn [IsLongHeader with_raw PayloadLen].
  destruct (IsLongHeader hdr) eqn:El; cbn [andb]; [| done]. rewrite (Hl eq_refl), Z.ltb_irrefl.
  rewrite <- (app_nil_r rest) at 2. by rewrite take_z_app.
Qed.
End Delivery.

(** ** Theorems *)

(** The bytes of a packed packet at the other end. *)
Lemma packed_arrives {Net : NetLib} {P : UDPAddr -> Prop} {NetLaws : NetLibLaws P} {H S : Type}
    (Open : EncryptionLevel -> list Z -> Z -> list Z -> outcome (list Z))
    (p : packetPacker) (level : EncryptionLevel) (sealer : Sealer) (pkt : packedPacket)
    (m : packetHandlerMap (H := H) (S := S)) (session : H) (last : Z) :
  packer_ok p -> sealer_ok sealer -> packed (P := P) p level sealer pkt -> level <> EncryptionUnspecified ->
  (forall payload pn ad, Open level (Seal sealer payload pn ad) pn ad = Ok payload) ->
  connIDLen m = len (p_destConnID p) -> handlers m !! p_destConnID p = Some (Some session) ->
  (add_padding p (pk_header pkt) = true -> len (pk_raw pkt) <= MinInitialPacketSize) ->
  0 <= last < 2 ^ 62 -> Header_PacketNumber (pk_header pkt) < 2 ^ 62 ->
  Z.abs (Header_PacketNumber (pk_header pkt) - (last + 1)) < 2 ^ (pn_bits (Header_PacketNumberLen (pk_header pkt)) - 1) ->
  exists hdr data fs',
    handlePacket m (pk_raw pkt) = Ok (ToSession session hdr data)
    /\ Header_PacketNumber (infer_number last hdr) = Header_PacketNumber (pk_header pkt)
    /\ Unpack Open (Header_Raw hdr) (infer_number last hdr) data = Ok (mkUnpackedPacket level fs')
    /\ Forall2 seen (pk_frames pkt) fs'
    /\ (IsLongHeader hdr = true -> SrcConnectionID hdr = p_srcConnID p) /\ Header_Type hdr = level_type level.
Proof.
  intros Hp Hseal Hpk Hlev Hopen Hlen Hsess Hpad Hlast Hpn Hwin.
  destruct Hpk as [pn pnLen pl frames hb bs pad header raw K1 K2 K3 K4 K5 K6 K7 K8 K9 K10 K11 K12 K13].
  cbn [pk_header pk_raw pk_frames Header_PacketNumber Header_PacketNumberLen header packer_header] in *.
  set (payload := bs ++ replicate pad 0) in *. fold payload in raw.
  assert (Bpl : bytes payload) by (apply bytes_app; split; [done | apply Forall_replicate; unfold is_byte; lia]).
  destruct Hseal as [Hov Hs]. destruct (Hs payload pn hb Bpl K8) as [Ls Bs].
  assert (Lpl : len payload = len bs + Z.of_nat pad)
    by (subst payload; rewrite len_app; unfold len at 2; by rewrite length_replicate).
  destruct (packer_header_parsed p pn pnLen _ _ pl hb (Seal sealer payload pn hb) Hp K1 K2 K7)
    as (h & Eh & Hd & Hl & Hn & Ht & Hlong & Hpl).
  destruct (parse_frames_written (P := P) pad frames K4 K5 K6) as (fs' & Hseen & Hparse).
  exists (with_raw h hb), (Seal sealer payload pn hb), fs'.
  assert (Hinf : InferPacketNumber pnLen last (pn mod 2 ^ pn_bits pnLen) = pn).
  { apply InferPacketNumber_window; [apply K1 | done | | done]. destruct K1 as [K1 _]. unfold is_u64 in K1. lia. }
  split_and!; [| cbn; by rewrite Hl, Hn | | done | cbn; rewrite Hlong; intros El; by apply Hpl | done].
  - apply handlePacket_session; [by rewrite Hlen | by rewrite Hd |]. rewrite Hlong. intros El.
    rewrite (proj1 (Hpl El)), Ls. destruct (K11 El) as [-> | [Ha Hm]]; [lia |]. exfalso. specialize (Hpad Ha).
    subst raw. rewrite len_app, Ls in Hpad. lia.
  - assert (Hpf : parseFrames payload = Ok fs').
    { unfold parseFrames. rewrite (proj2 (Z.eqb_neq _ _)).
      - apply (Hparse bs _ []); [done | subst payload; lia].
      - destruct frames as [| f frames]; [done |]. apply Forall_cons in K4 as [[Hf Ha] K4].
        destruct (frame_seen f [] Hf) as (_ & _ & b & Eb & _ & Hb & _); [destruct f; try done; by right |].
        unfold write_frames in K9. cbn [foldr] in K9. rewrite Eb in K9. apply wseq_Ok in K9 as (x & y & [= <-] & _ & ->).
        rewrite Lpl, len_app. pose proof (len_nonneg y). destruct b; [done |]. rewrite len_cons.
        pose proof (len_nonneg b). lia. }
    assert (Hop : Open level (Seal sealer payload pn hb) pn hb = Ok payload) by apply Hopen.
    unfold Unpack. cbn [infer_number with_raw Header_Type IsLongHeader Header_PacketNumber Header_Raw
      Header_PacketNumberLen]. rewrite Ht, Hlong, Hl, Hn, Hinf.
    destruct level; [done | | | change (level_long Encryption1RTT) with false];
      cbn -[parseFrames]; rewrite Hop; cbn -[parseFrames]; by rewrite Hpf.
Qed.


(** A server's PING in a packet of its own, and a client that has seen packet 6. *)
Definition plain_open (level : EncryptionLevel) (data : list Z) (pn : Z) (ad : list Z) : outcome (list Z) :=
  Ok (take (length data - 16) data).
Definition ping_packet : packedPacket :=
  mkPackedPacket (packer_header sample_packer 7 2 false 0 0 [])
    ([0x30; 1; 2; 3; 4; 0x80; 7] ++ Seal plain_sealer [1] 7 [0x30; 1; 2; 3; 4; 0x80; 7]) [Ping] Encryption1RTT.
Definition client_handlers : packetHandlerMap (H := nat) (S := nat) :=
  ph_Add (newPacketHandlerMap 4) [1; 2; 3; 4] 5%nat.

#[local] Existing Instance loopback_net.

Lemma ping_packed : packed (P := fun a => a = loopback) sample_packer Encryption1RTT plain_sealer ping_packet.
Proof.
  apply (packed_intro (P := fun a => a = loopback) sample_packer Encryption1RTT plain_sealer 7 2 0 [Ping]
    [0x30; 1; 2; 3; 4; 0x80; 7] [1] 0).
  - split; [by unfold is_u64 | by right; left].
  - by split.
  - done.
  - constructor; [| done]. by split.
  - by constructor.
  - done.
  - by vm_compute.
  - solve_bytes.
  - by vm_compute.
  - solve_bytes.
  - done.
  - done.
  - by vm_compute.
Qed.


(** Where a packet goes: the entry of its connection ID decides. *)
Definition delivered {H S} (m : packetHandlerMap (H := H) (S := S)) (data : list Z) (d : delivery (H := H) (S := S)) : Prop :=
  let whole hdr payload := parsed_ok (connIDLen m) hdr
    /\ (Header_Raw hdr ++ payload) `prefix_of` data
    /\ if IsLongHeader hdr then len payload = PayloadLen hdr else Header_Raw hdr ++ payload = data in
  match d with
  | Late => exists id, handlers m !! id = Some None
  | ToSession h hdr payload => handlers m !! DestConnectionID hdr = Some (Some h) /\ whole hdr payload
  | ToServer s hdr payload => handlers m !! DestConnectionID hdr = None /\ ph_server m = Some s /\ whole hdr payload
  end.

Lemma handlePacket_routed {H S} (m : packetHandlerMap (H := H) (S := S)) data : 0 <= connIDLen m -> bytes data ->
  match handlePacket m data with
  | Panic _ => False
  | Err _ => True
  | Ok d => delivered m data d
  end.
Proof.
  intros Hn Hd. unfold handlePacket.
  assert (Hinv : safe_on (iv_ok (connIDLen m)) data (ParseInvariantHeader (connIDLen m) data)).
  { destruct (safe_invariant (connIDLen m) Hn) as [H0 H1]. destruct data as [| b r]; [done |].
    specialize (H1 b r Hd). unfold safe_on in *. destruct (ParseInvariantHeader _ (b :: r)) as [[iv r'] | |]; [| done | done].
    destruct H1 as [? ?]. split; [done | by apply suffix_cons_r]. }
  destruct (ParseInvariantHeader (connIDLen m) data) as [[iv r1] | |]; [| done | done].
  destruct Hinv as [Hiv Hs1]. pose proof (safe_iv_Parse _ _ Hiv r1 (bytes_suffix _ _ Hs1 Hd)) as Hp.
  set (parsed := match iv_Parse iv r1 with Ok _ => _ | Err _ => _ | Panic _ => _ end).
  assert (Hparsed : match parsed with
    | Panic _ => handlers m !! iv_DestConnectionID iv = None /\ ph_server m = None
                 \/ handlers m !! iv_DestConnectionID iv = Some None
    | Err _ => True | Ok d => handlers m !! iv_DestConnectionID iv <> Some None -> delivered m data d end).
  { subst parsed. destruct (iv_Parse iv r1) as [[hdr r2] | |] eqn:Ep; [| done | done]. destruct Hp as [Hok Hs2].
    destruct (iv_Parse_keeps iv r1 hdr r2 Ep) as (Ed & _ & _).
    assert (Hs : suffix r2 data) by (by etrans). destruct Hs as [pre ->].
    replace (len (pre ++ r2) - len r2) with (len pre) by (rewrite len_app; lia).
    rewrite take_z_app, drop_z_app. cbn [IsLongHeader with_raw PayloadLen].
    assert (Hw : forall rest, IsLongHeader hdr && (len r2 <? PayloadLen hdr) = false ->
      rest = (if IsLongHeader hdr then take_z (PayloadLen hdr) r2 else r2) ->
      parsed_ok (connIDLen m) (with_raw hdr pre) /\ (pre ++ rest) `prefix_of` (pre ++ r2)
      /\ if IsLongHeader hdr then len rest = PayloadLen hdr else pre ++ rest = pre ++ r2).
    { intros rest Hl ->. split; [exact Hok |]. destruct Hok as (_ & Hpl & _). destruct (IsLongHeader hdr); [| done].
      cbn [andb] in Hl. split; [| rewrite len_take_z; lia]. apply prefix_app.
      exists (drop_z (PayloadLen hdr) r2). by rewrite take_drop_z. }
    destruct (IsLongHeader hdr && _) eqn:Hl; [done |].
    destruct (handlers m !! iv_DestConnectionID iv) as [[h |] |] eqn:Eh; [| by destruct (ph_server m); auto |].
    - intros _. cbn. rewrite Ed. split; [done |]. by apply Hw.
    - destruct (ph_server m) as [s |] eqn:Es; [| by auto]. intros _. cbn. rewrite Ed. split; [done | split; [done | by apply Hw]]. }
  clearbody parsed. destruct (handlers m !! iv_DestConnectionID iv) as [[h |] |] eqn:Eh.
  - destruct parsed; [by apply Hparsed | done |]. destruct Hparsed as [[? _] | ?]; done.
  - by exists (iv_DestConnectionID iv).
  - destruct (ph_server m) as [s |]; [| done]. destruct parsed; [by apply Hparsed | done |].
    destruct Hparsed as [[_ ?] | ?]; done.
Qed.


