(* ===== verification/Scheduler.v ===== *)
(** * The multipath scheduler (scheduler.go, schedulerImplementation.go, path.go,
    address_helper.go)

    A session sends its packets over paths, pairs of a socket and an address of
    the peer.  The scheduler opens a path for every pair of a local address and
    an address that the peer announces, and chooses the path of each packet,
    round robin first and then by weights that follow the delays.  Package ewma
    and the sockets are parameters; the order in which Go iterates over a map is
    an argument, as are random numbers. *)

From S2P Require Import Prelude Qerr Varint Protocol AckFrame Frames FrameCodec FrameParser Float.

(** ** What the code uses *)

(** Package github.com/VividCortex/ewma. *)
Class EWMA : Type := {
  MovingAverage : Type;
  NewMovingAverage : Z -> MovingAverage;
  ewma_Add : MovingAverage -> float -> MovingAverage;
  ewma_Value : MovingAverage -> float }.

(** A [net.Addr] that holds a [*net.UDPAddr]: comparing two of them compares
    the pointers. *)
Record Addr : Type := mkAddr { a_pointer : Z; a_udp : UDPAddr }.
Definition same_addr (a b : Addr) : bool := a_pointer a =? a_pointer b.

(** A [net.PacketConn]; its address is one object. *)
Record Socket : Type := mkSocket { so_LocalAddr : Addr }.

(** [crc32.ChecksumIEEE]. *)
Definition crc_bit (c : Z) : Z := if Z.testbit c 0 then Z.lxor (c ≫ 1) 0xedb88320 else c ≫ 1.
Definition crc_byte (c b : Z) : Z := Nat.iter 8 crc_bit (Z.lxor c b).
Definition ChecksumIEEE (data : list Z) : Z := Z.lxor (foldl crc_byte 0xffffffff data) 0xffffffff.

(** [rand.Intn]: [rnd] is what the generator draws. *)
Definition Intn (rnd n : Z) : outcome Z :=
  if n <=? 0 then Panic "invalid argument to Intn" else Ok (rnd mod n).

(** ** path.go *)

Section Path.
Context {Ewma : EWMA}.

Record Path : Type := mkPath {
  isPathZero : bool;
  pathID : Z;
  weight : Z;
  owd : float;
  path_local : Socket;
  path_remote : Addr;
  vewma : MovingAverage }.

Definition NewPath (pathId : Z) (pconn : Socket) (remote : Addr) (weight : Z) : Path :=
  mkPath false pathId weight (mkFloat 0 0) pconn remote (NewMovingAverage 5).

Definition path_setOwd (p : Path) (owd : float) : Path :=
  mkPath (isPathZero p) (pathID p) (weight p) owd (path_local p) (path_remote p) (ewma_Add (vewma p) owd).

Definition set_weight (p : Path) (w : Z) : Path :=
  mkPath (isPathZero p) (pathID p) w (owd p) (path_local p) (path_remote p) (vewma p).

Definition path_contains (p : Path) (address : Addr) : bool :=
  same_addr (so_LocalAddr (path_local p)) address || same_addr (path_remote p) address.

Definition path_MovingAverage (p : Path) : float :=
  if mant (ewma_Value (vewma p)) =? 0 then owd p else ewma_Value (vewma p).
End Path.

(** ** scheduler.go *)

Definition roundRobin : Z := 0.
Definition weightBased : Z := 1.

(** Despite its name, [xor] joins the two. *)
Definition xor (local remote : list Z) : list Z := local ++ remote.

Definition isSameVersion (local remote : Addr) : bool :=
  match To4 (IP (a_udp local)), To4 (IP (a_udp remote)) with
  | None, None => true
  | Some _, Some _ => true
  | _, _ => false
  end.

(** ** address_helper.go *)

(** [strings.Contains] and the part before the first slash. *)
Fixpoint Contains (s sub : list Z) : bool :=
  bool_decide (sub `prefix_of` s) || match s with [] => false | _ :: s => Contains s sub end.
Fixpoint before_slash (s : list Z) : list Z :=
  match s with [] => [] | c :: s => if c =? 47 then [] else c :: before_slash s end.

(** The texts 127, fe80, 169.254, loopback and :4433. *)
Definition text_127 : list Z := [49; 50; 55].
Definition text_fe80 : list Z := [102; 101; 56; 48].
Definition text_169_254 : list Z := [49; 54; 57; 46; 50; 53; 52].
Definition text_loopback : list Z := [108; 111; 111; 112; 98; 97; 99; 107].
Definition text_port : list Z := [58; 52; 52; 51; 51].

Definition isLinkLocal (addr : list Z) : outcome bool :=
  if len addr <? 7 then Panic "slice bounds out of range"
  else Ok (bool_decide (take 3 addr = text_127) || bool_decide (take 4 addr = text_fe80)
           || bool_decide (take 7 addr = text_169_254)).

Section Addresses.
Context {Net : NetLib}.

Definition CRC (a : Addr) : Z := ChecksumIEEE (UDPAddr_String (a_udp a)).

(** One address of an interface; [pointer] is where the result is allocated. *)
Definition gather_address (pointer : Z) (addr : list Z) (ipAddresses : gmap Z Addr) : outcome (gmap Z Addr) :=
  linkLocal ← isLinkLocal addr;
  if (linkLocal : bool) then Ok ipAddresses
  else
    let host := before_slash addr in
    let host := if Contains host [58] then [91] ++ host ++ [93] else host in
    match ResolveUDPAddr (host ++ text_port) with
    | Panic s => Panic s
    | Err _ => Ok ipAddresses
    | Ok udp => let a := mkAddr pointer udp in Ok (<[CRC a := a]> ipAddresses)
    end.

(** The interfaces of the host: the flags and the addresses of each. *)
Fixpoint gather_addresses (pointer : Z) (addrs : list (list Z)) (ipAddresses : gmap Z Addr) : outcome (gmap Z Addr) :=
  match addrs with
  | [] => Ok ipAddresses
  | addr :: addrs =>
      ipAddresses ← gather_address pointer addr ipAddresses;
      gather_addresses (pointer + 1) addrs ipAddresses
  end.

Definition gatherAddresses (pointer : Z) (interfaces : list (list Z * list (list Z))) : outcome (gmap Z Addr) :=
  gather_addresses pointer
    (concat ((fun (i : list Z * list (list Z)) => let (flags, addrs) := i in if Contains flags text_loopback then [] else addrs) <$> interfaces)) ∅.
End Addresses.

(** ** schedulerImplementation.go *)

Section Scheduler.
Context {Net : NetLib} {Ewma : EWMA}.
(** [net.ListenUDP]. *)
Context (ListenUDP : UDPAddr -> outcome Socket).

(** [hasSession] tells whether the field [session] is set, [pathZero] is only
    used for its socket. *)
Record SchedulerImplementation : Type := mkScheduler {
  paths : gmap Z Path;
  hasSession : bool;
  pathZero : Path;
  pathIds : list Z;
  lastPath : Z;
  localAddrs : gmap Z Addr;
  remoteAddrs : gmap Z Addr;
  sockets : gmap Z Socket;
  totalPathWeight : Z;
  isActive : bool;
  sched_mode : Z }.

Definition NewScheduler (addresses : gmap Z Addr) (pconn : Socket) (remote : Addr) : SchedulerImplementation :=
  let pathZero := mkPath true 0 1000 (mkFloat 0 0) pconn remote (NewMovingAverage 5) in
  mkScheduler {[0 := pathZero]} false pathZero [0] 0 addresses ∅ {[CRC (so_LocalAddr pconn) := pconn]} 1000 false roundRobin.

Definition set_paths (s : SchedulerImplementation) (x : gmap Z Path) : SchedulerImplementation :=
  mkScheduler x (hasSession s) (pathZero s) (pathIds s) (lastPath s) (localAddrs s) (remoteAddrs s) (sockets s)
    (totalPathWeight s) (isActive s) (sched_mode s).
Definition set_pathIds (s : SchedulerImplementation) (x : list Z) : SchedulerImplementation :=
  mkScheduler (paths s) (hasSession s) (pathZero s) x (lastPath s) (localAddrs s) (remoteAddrs s) (sockets s)
    (totalPathWeight s) (isActive s) (sched_mode s).
Definition set_lastPath (s : SchedulerImplementation) (x : Z) : SchedulerImplementation :=
  mkScheduler (paths s) (hasSession s) (pathZero s) (pathIds s) x (localAddrs s) (remoteAddrs s) (sockets s)
    (totalPathWeight s) (isActive s) (sched_mode s).
Definition set_addrs (s : SchedulerImplementation) (locals remotes : gmap Z Addr) : SchedulerImplementation :=
  mkScheduler (paths s) (hasSession s) (pathZero s) (pathIds s) (lastPath s) locals remotes (sockets s)
    (totalPathWeight s) (isActive s) (sched_mode s).
Definition set_sockets (s : SchedulerImplementation) (x : gmap Z Socket) : SchedulerImplementation :=
  mkScheduler (paths s) (hasSession s) (pathZero s) (pathIds s) (lastPath s) (localAddrs s) (remoteAddrs s) x
    (totalPathWeight s) (isActive s) (sched_mode s).
Definition set_totalPathWeight (s : SchedulerImplementation) (x : Z) : SchedulerImplementation :=
  mkScheduler (paths s) (hasSession s) (pathZero s) (pathIds s) (lastPath s) (localAddrs s) (remoteAddrs s) (sockets s)
    x (isActive s) (sched_mode s).
(** The field [session], which the server and the client set. *)
Definition set_session (s : SchedulerImplementation) : SchedulerImplementation :=
  mkScheduler (paths s) true (pathZero s) (pathIds s) (lastPath s) (localAddrs s) (remoteAddrs s) (sockets s)
    (totalPathWeight s) (isActive s) (sched_mode s).

Definition Activate (s : SchedulerImplementation) (x : bool) : SchedulerImplementation :=
  mkScheduler (paths s) (hasSession s) (pathZero s) (pathIds s) (lastPath s) (localAddrs s) (remoteAddrs s) (sockets s)
    (totalPathWeight s) x (sched_mode s).

(** The end of [modeSelectionTimer], half a second after the activation. *)
Definition modeSelectionTimer (s : SchedulerImplementation) : SchedulerImplementation :=
  mkScheduler (paths s) (hasSession s) (pathZero s) (pathIds s) (lastPath s) (localAddrs s) (remoteAddrs s) (sockets s)
    (totalPathWeight s) (isActive s) weightBased.

(** *** Choosing a path *)

(** [range s.paths], in the given order of the keys. *)
Definition range_paths (m : gmap Z Path) (order : list Z) : list Path := omap (fun k => m !! k) order.

Fixpoint select_weighted (r : Z) (l : list Path) : option Path :=
  match l with
  | [] => None
  | path :: l => let r := r - weight path in if r <=? 0 then Some path else select_weighted r l
  end.

Definition getWeightedPath (s : SchedulerImplementation) (order : list Z) (rnd : Z) : outcome (option Path) :=
  r ← Intn rnd (totalPathWeight s);
  Ok (select_weighted r (range_paths (paths s) order)).

Definition getRoundRobinPath (s : SchedulerImplementation) : outcome (option Path * SchedulerImplementation) :=
  let n := u32 (len (pathIds s)) in
  if n =? 0 then Panic "integer divide by zero"
  else
    let s := set_lastPath s (u32 (lastPath s + 1) mod n) in
    match pathIds s !! Z.to_nat (lastPath s) with
    | None => Panic "index out of range"
    | Some id => Ok (paths s !! id, s)
    end.

Definition getPath (s : SchedulerImplementation) (order : list Z) (rnd : Z)
    : outcome (option Path * SchedulerImplementation) :=
  if sched_mode s =? roundRobin then getRoundRobinPath s
  else if sched_mode s =? weightBased then
    path ← getWeightedPath s order rnd;
    Ok (path, s)
  else Ok (None, s).

(** [Write] asks for a path until it gets one; each element of [choices] is the
    iteration order and the random number of a turn.  [None]: still asking. *)
Fixpoint sched_Write (s : SchedulerImplementation) (choices : list (list Z * Z))
    : outcome (option (Socket * Addr) * SchedulerImplementation) :=
  match choices with
  | [] => Ok (None, s)
  | (order, rnd) :: choices =>
      '(path, s) ← getPath s order rnd;
      match path with
      | Some path => Ok (Some (path_local path, path_remote path), s)
      | None => sched_Write s choices
      end
  end.

(** [lastPath] is an index but is used as a path ID here. *)
Definition sched_RemoteAddr (s : SchedulerImplementation) : outcome Addr :=
  match paths s !! lastPath s with
  | Some path => Ok (path_remote path)
  | None => Panic "nil pointer dereference"
  end.

(** *** Adding and removing addresses *)

(** The socket, and the sockets handed to the packet handler map. *)
Definition openSocket (s : SchedulerImplementation) (local : Addr) : outcome (Socket * list Socket * SchedulerImplementation) :=
  match sockets s !! CRC local with
  | Some usock => Ok (usock, [], s)
  | None =>
      match ListenUDP (a_udp local) with
      | Panic e => Panic e
      | Err _ => Panic "listen"
      | Ok usock =>
          let s := set_sockets s (<[CRC local := usock]> (sockets s)) in
          if hasSession s then Ok (usock, [usock], s)
          else Panic "interface conversion: interface is nil"
      end
  end.

Definition newPath (s : SchedulerImplementation) (local remote : Addr) : outcome (list Socket * SchedulerImplementation) :=
  '(usock, added, s) ← openSocket s local;
  let checksum := ChecksumIEEE (xor (UDPAddr_String (a_udp local)) (UDPAddr_String (a_udp remote))) in
  let p := NewPath checksum usock remote 1000 in
  Ok (added, set_pathIds (set_paths s (<[pathID p := p]> (paths s))) (pathIds s ++ [pathID p])).

(** A path for each of the pairs that have the same IP version. *)
Fixpoint new_paths (s : SchedulerImplementation) (pairs : list (Addr * Addr)) : outcome (list Socket * SchedulerImplementation) :=
  match pairs with
  | [] => Ok ([], s)
  | (local, remote) :: pairs =>
      if isSameVersion local remote then
        '(a, s) ← newPath s local remote;
        '(b, s) ← new_paths s pairs;
        Ok (a ++ b, s)
      else new_paths s pairs
  end.

Definition range_addrs (m : gmap Z Addr) (order : list Z) : list Addr := omap (fun k => m !! k) order.

Definition addLocalAddress (s : SchedulerImplementation) (order : list Z) (local : Addr)
    : outcome (list Socket * SchedulerImplementation) :=
  new_paths s ((fun r => (local, r)) <$> range_addrs (remoteAddrs s) order).

Definition addRemoteAddress (s : SchedulerImplementation) (order : list Z) (remoteAddress : Addr)
    : outcome (list Socket * SchedulerImplementation) :=
  let checksum := CRC remoteAddress in
  if bool_decide (is_Some (remoteAddrs s !! checksum)) then Ok ([], s)
  else
    let s := set_addrs s (localAddrs s) (<[checksum := remoteAddress]> (remoteAddrs s)) in
    new_paths s ((fun l => (l, remoteAddress)) <$> range_addrs (localAddrs s) order).

(** Deleting the paths with an address: [removePath] and [deletePath]. *)
Definition delete_paths (s : SchedulerImplementation) (address : Addr) : SchedulerImplementation :=
  set_paths s (filter (fun kp => path_contains kp.2 address = false) (paths s)).

Definition sched_delete_remote (s : SchedulerImplementation) (address : Addr) : SchedulerImplementation :=
  let s := delete_paths s address in set_addrs s (localAddrs s) (delete (CRC address) (remoteAddrs s)).
Definition sched_delete_local (s : SchedulerImplementation) (address : Addr) : SchedulerImplementation :=
  let s := delete_paths s address in set_addrs s (delete (CRC address) (localAddrs s)) (remoteAddrs s).

Definition removeAddress (s : SchedulerImplementation) (address : Addr) : SchedulerImplementation :=
  let s := if bool_decide (is_Some (remoteAddrs s !! CRC address)) then sched_delete_remote s address else s in
  let s := if bool_decide (is_Some (localAddrs s !! CRC address)) then sched_delete_local s address else s in
  delete_paths s address.

(** *** Measuring and weighing *)

Definition sched_setOwd (s : SchedulerImplementation) (pathId owd : Z) : outcome SchedulerImplementation :=
  match paths s !! pathId with
  | Some path => Ok (set_paths s (<[pathId := path_setOwd path (of_int prec64 owd)]> (paths s)))
  | None => Panic "nil pointer dereference"
  end.

Definition measurePaths (now_unix : Z) (s : SchedulerImplementation) (order : list Z) : list Frame :=
  (fun path => Owd (NewOwdFrame now_unix (pathID path))) <$> range_paths (paths s) order.

Definition assembleAddrModFrame (operation : Z) (addr : Addr) : AddrModFrame :=
  NewAddrModFrame operation (match To4 (IP (a_udp addr)) with Some _ => IPv4 | None => IPv6 end) (a_udp addr).

(** The frames that are queued when the scheduler is activated. *)
Definition announceAddresses (s : SchedulerImplementation) (order : list Z) : list Frame :=
  omap (fun addr => if same_addr addr (so_LocalAddr (path_local (pathZero s))) then None
                    else Some (AddrMod (assembleAddrModFrame AddFrame addr)))
    (range_addrs (localAddrs s) order).

Definition calculateAverageOwd (m : gmap Z Path) (order : list Z) : float :=
  let sum := foldl (fun a p => fadd prec64 a (path_MovingAverage p)) (mkFloat 0 0) (range_paths m order) in
  fdiv prec64 sum (of_int prec64 (Z.of_nat (size m))).

Definition weighPath (path : Path) (average : float) : Path :=
  if flt (owd path) average then
    if weight path <? 1000 then set_weight path (weight path + 1) else path
  else
    if 1 <? weight path then set_weight path (weight path - 1) else path.

(** [sumUpWeights] counts from zero, so that others see the sum so far. *)
Definition sum_start (s : SchedulerImplementation) : SchedulerImplementation := set_totalPathWeight s 0.
Definition sum_add (s : SchedulerImplementation) (k : Z) : SchedulerImplementation :=
  match paths s !! k with
  | Some path => set_totalPathWeight s (totalPathWeight s + weight path)
  | None => s
  end.
Definition sumUpWeights (s : SchedulerImplementation) (order : list Z) : SchedulerImplementation :=
  foldl sum_add (sum_start s) order.

(** The outer loop visits the paths in the order [order]; computing the average
    for the path [k] visits them in the order [inner k]. *)
Definition weigh_one (inner : Z -> list Z) (s : SchedulerImplementation) (k : Z) : SchedulerImplementation :=
  match paths s !! k with
  | Some path => set_paths s (<[k := weighPath path (calculateAverageOwd (paths s) (inner k))]> (paths s))
  | None => s
  end.
Definition weighPaths (s : SchedulerImplementation) (order : list Z) (inner : Z -> list Z) (order2 : list Z)
    : SchedulerImplementation :=
  sumUpWeights (foldl (weigh_one inner) s order) order2.
End Scheduler.

(** ** Lemmas: weights *)

Section Weights.
Context {Ewma : EWMA}.

Fixpoint sum_weights (l : list Path) : Z := match l with [] => 0 | p :: l => weight p + sum_weights l end.

Lemma sum_weights_app l k : sum_weights (l ++ k) = sum_weights l + sum_weights k.
Proof. induction l as [| p l IH]; cbn; [done | lia]. Qed.

#[export] Instance sum_weights_proper : Proper ((≡ₚ) ==> (=)) sum_weights.
Proof. intros l k H. induction H; cbn; lia. Qed.

(** The sum over all the paths of a map. *)
Definition total_weight (m : gmap Z Path) : Z := sum_weights (map_to_list m).*2.

Lemma total_weight_delete m k : total_weight m = total_weight (delete k m) + from_option weight 0 (m !! k).
Proof.
  unfold total_weight. destruct (m !! k) as [p |] eqn:E; cbn.
  - rewrite <- (insert_delete_id m k p E) at 1. rewrite map_to_list_insert by apply lookup_delete_eq. cbn. lia.
  - rewrite delete_id by done. lia.
Qed.

Lemma total_weight_insert m k p : total_weight (<[k := p]> m) = total_weight (delete k m) + weight p.
Proof. rewrite (total_weight_delete (<[k := p]> m) k), lookup_insert_eq, delete_insert_eq. done. Qed.

Lemma range_all m order : order ≡ₚ (map_to_list m).*1 -> range_paths m order ≡ₚ (map_to_list m).*2.
Proof.
  intros H. unfold range_paths. rewrite H. clear H order.
  assert (H : Forall (fun kp => m !! kp.1 = Some kp.2) (map_to_list m)).
  { apply Forall_forall. intros [k p] Hk. by apply elem_of_map_to_list in Hk. }
  induction H as [| [k p] l Hk _ IH]; [done |]. cbn in *. rewrite Hk. by f_equiv.
Qed.

Lemma sum_weights_positive l : Forall (fun p => 1 <= weight p) l -> Z.of_nat (length l) <= sum_weights l.
Proof. induction 1; cbn; lia. Qed.

Lemma total_weight_positive m : map_Forall (fun _ p => 1 <= weight p) m -> m <> ∅ -> 0 < total_weight m.
Proof.
  intros H Hm. apply Z.lt_le_trans with (Z.of_nat (length (map_to_list m).*2)).
  - rewrite length_fmap. destruct (map_to_list m) eqn:E; [| cbn; lia]. by apply map_to_list_empty_iff in E.
  - apply sum_weights_positive, Forall_fmap, Forall_forall. intros [k p] Hk. apply elem_of_map_to_list in Hk. by apply (H k p).
Qed.

(** Enough weight: a path is selected, one of the list. *)
Lemma select_weighted_some l : forall r, l <> [] -> r <= sum_weights l ->
  exists p, select_weighted r l = Some p /\ p ∈ l.
Proof.
  induction l as [| p l IH]; intros r Hl Hr; [done |]. cbn [select_weighted sum_weights] in *.
  destruct (Z.leb_spec (r - weight p) 0).
  - exists p. split; [done |]. by left.
  - destruct l as [| q l]; [cbn in *; lia |]. destruct (IH (r - weight p)) as (x & -> & Hx); [done | lia |].
    exists x. split; [done |]. by right.
Qed.

Lemma select_weighted_elem l r p : select_weighted r l = Some p -> p ∈ l.
Proof.
  revert r. induction l as [| q l IH]; intros r; [done |]. cbn. destruct (_ <=? 0); [intros [= ->]; by left |].
  intros H. right. by eapply IH.
Qed.

(** Which numbers select a path: those of its interval. *)
Lemma select_weighted_pos pre p post r : Forall (fun q => 1 <= weight q) pre -> p ∉ pre -> p ∉ post ->
  select_weighted r (pre ++ p :: post) = Some p
  <-> (pre = [] \/ sum_weights pre < r) /\ r <= sum_weights pre + weight p.
Proof.
  revert r. induction pre as [| q pre IH]; intros r Hw Hp Hq; cbn [app select_weighted sum_weights].
  - destruct (Z.leb_spec (r - weight p) 0); [split; [intros _; split; [by left | lia] | done] |].
    split; [| lia]. intros H1. by apply select_weighted_elem in H1.
  - apply Forall_cons in Hw as [Hw Hws]. apply not_elem_of_cons in Hp as [Hne Hp].
    destruct (Z.leb_spec (r - weight q) 0).
    + assert (0 <= sum_weights pre) by (pose proof (sum_weights_positive pre Hws); lia).
      split; [intros [= ->]; done |]. intros [[? | ?] ?]; [done | lia].
    + rewrite IH by done. split; intros [[H1 | H1] H2].
      * subst pre. cbn in *. split; [right; lia | lia].
      * split; [right; lia | lia].
      * done.
      * split; [| lia]. destruct pre; [by left |]. right. lia.
Qed.

Lemma filter_none {A} (Q : A -> Prop) `{!forall x, Decision (Q x)} (l : list A) : (forall x, x ∈ l -> ~ Q x) -> filter Q l = [].
Proof.
  induction l as [| x l IH]; intros Hq; [done |]. rewrite filter_cons_False by (apply Hq; by left).
  apply IH. intros y Hy. apply Hq. by right.
Qed.

Lemma filter_every {A} (Q : A -> Prop) `{!forall x, Decision (Q x)} (l : list A) : (forall x, x ∈ l -> Q x) -> filter Q l = l.
Proof.
  induction l as [| x l IH]; intros Hq; [done |]. rewrite filter_cons_True by (apply Hq; by left).
  f_equal. apply IH. intros y Hy. apply Hq. by right.
Qed.

Lemma list_filter_iff' {A} (Q R : A -> Prop) `{!forall x, Decision (Q x)} `{!forall x, Decision (R x)} (l : list A) :
  (forall x, x ∈ l -> Q x <-> R x) -> filter Q l = filter R l.
Proof.
  induction l as [| x l IH]; intros Hqr; [done |]. rewrite !filter_cons.
  rewrite IH by (intros y Hy; apply Hqr; by right). pose proof (Hqr x ltac:(by left)).
  destruct (decide (Q x)), (decide (R x)); tauto.
Qed.

Lemma count_interval n lo hi : 0 <= lo -> lo <= hi + 1 -> hi < n ->
  Z.of_nat (length (filter (fun r => lo <= r <= hi) (seqZ 0 n))) = hi + 1 - lo.
Proof.
  intros H1 H2 H3. replace n with (lo + ((hi + 1 - lo) + (n - hi - 1))) by lia.
  rewrite seqZ_app, seqZ_app, !filter_app, !length_app by lia.
  assert (Hnil : forall m k, (m + k <= lo \/ hi < m) -> filter (fun r => lo <= r <= hi) (seqZ m k) = []).
  { intros m k H. apply filter_none. intros r Hr. apply elem_of_seqZ in Hr. lia. }
  rewrite (Hnil 0 lo), (Hnil _ (n - hi - 1)) by lia.
  rewrite filter_every by (intros r Hr; apply elem_of_seqZ in Hr; lia).
  cbn [length]. rewrite length_seqZ. lia.
Qed.
End Weights.

(** ** Lemmas: the scheduler *)

Section Theory.
Context {Net : NetLib} {Ewma : EWMA} (ListenUDP : UDPAddr -> outcome Socket).

(** Sockets keep their addresses in objects of their own, at pointers below 0. *)
Definition listen_ok : Prop := forall a so, ListenUDP a = Ok so -> a_pointer (so_LocalAddr so) < 0.

Record sched_ok (s : SchedulerImplementation) : Prop := {
  sc_ids : forall id, id ∈ pathIds s <-> is_Some (paths s !! id);
  sc_weights : map_Forall (fun k p => pathID p = k /\ 1 <= weight p <= 1000) (paths s);
  sc_last : 0 <= lastPath s < len (pathIds s);
  sc_total : 0 < totalPathWeight s <= total_weight (paths s);
  sc_mode : sched_mode s = roundRobin \/ sched_mode s = weightBased }.

(** The objects a scheduler holds were allocated below [next]. *)
Record pointers_below (next : Z) (s : SchedulerImplementation) : Prop := {
  pb_paths : map_Forall (fun _ p => a_pointer (so_LocalAddr (path_local p)) < 0 /\ a_pointer (path_remote p) < next) (paths s);
  pb_sockets : map_Forall (fun _ so => a_pointer (so_LocalAddr so) < 0) (sockets s);
  pb_remotes : map_Forall (fun _ a => a_pointer a < next) (remoteAddrs s) }.

Lemma sched_paths_ne s : sched_ok s -> paths s <> ∅.
Proof. intros [_ _ _ Ht _] E. unfold total_weight in Ht. rewrite E, map_to_list_empty in Ht. cbn in Ht. lia. Qed.

Lemma sched_weights_positive s : sched_ok s -> map_Forall (fun _ p => 1 <= weight p) (paths s).
Proof. intros [_ Hw _ _ _] k p Hp. destruct (Hw k p Hp). lia. Qed.

Lemma round_robin_ok s : sched_ok s -> len (pathIds s) < 2 ^ 32 -> exists id p,
  pathIds s !! Z.to_nat ((lastPath s + 1) mod len (pathIds s)) = Some id /\ paths s !! id = Some p
  /\ getRoundRobinPath s = Ok (Some p, set_lastPath s ((lastPath s + 1) mod len (pathIds s))).
Proof.
  intros [Hi Hw Hl _ _] Hn. unfold getRoundRobinPath. rewrite (u32_small (len _)) by (unfold is_u32; lia).
  destruct (Z.eqb_spec (len (pathIds s)) 0); [lia |].
  rewrite (u32_small (lastPath s + 1)) by (unfold is_u32; lia). cbn [pathIds lastPath set_lastPath].
  destruct (pathIds s !! Z.to_nat ((lastPath s + 1) mod len (pathIds s))) as [id |] eqn:E.
  - destruct (proj1 (Hi id)) as [p Hp]; [by eapply list_elem_of_lookup_2 |]. exists id, p. cbn. by rewrite Hp.
  - apply lookup_ge_None in E. unfold len in *.
    pose proof (Z.mod_pos_bound (lastPath s + 1) (Z.of_nat (length (pathIds s)))). lia.
Qed.

Lemma weighted_ok s order rnd : sched_ok s -> order ≡ₚ (map_to_list (paths s)).*1 ->
  exists p, getWeightedPath s order rnd = Ok (Some p) /\ paths s !! pathID p = Some p.
Proof.
  intros Hs Ho. pose proof (sc_total s Hs) as Ht. pose proof (sched_paths_ne s Hs) as Hne.
  pose proof (range_all (paths s) order Ho) as Hr.
  unfold getWeightedPath, Intn. destruct (Z.leb_spec (totalPathWeight s) 0); [lia |]. cbn [mbind outcome_bind].
  pose proof (Z.mod_pos_bound rnd (totalPathWeight s)) as Hm.
  destruct (select_weighted_some (range_paths (paths s) order) (rnd mod totalPathWeight s)) as (p & Hp & Hin).
  - intros E. rewrite E in Hr. apply Permutation_nil_l in Hr. symmetry in Hr. apply fmap_nil_inv in Hr.
    by apply map_to_list_empty_iff in Hr.
  - rewrite Hr. fold (total_weight (paths s)). lia.
  - exists p. split; [by rewrite Hp |]. rewrite Hr in Hin. apply list_elem_of_fmap in Hin as ([k q] & -> & Hk).
    apply elem_of_map_to_list in Hk. cbn [snd]. by destruct (sc_weights s Hs k q Hk) as [-> _].
Qed.

Lemma getPath_ok s order rnd : sched_ok s -> len (pathIds s) < 2 ^ 32 -> order ≡ₚ (map_to_list (paths s)).*1 ->
  exists p s', getPath s order rnd = Ok (Some p, s') /\ paths s !! pathID p = Some p /\ sched_ok s'
    /\ s' = set_lastPath s (lastPath s').
Proof.
  intros Hs Hn Ho. unfold getPath. destruct (sc_mode s Hs) as [-> | ->]; cbn -[getRoundRobinPath getWeightedPath].
  - destruct (round_robin_ok s Hs Hn) as (id & p & Hi & Hp & ->). eexists _, _. split; [done |].
    destruct (sc_weights s Hs id p Hp) as [-> _]. split; [done |]. split; [| done].
    destruct Hs as [H1 H2 H3 H4 H5]. split; try done. apply Z.mod_pos_bound. cbn [set_lastPath pathIds]. lia.
  - destruct (weighted_ok s order rnd Hs Ho) as (p & -> & Hp). exists p, s. split_and!; try done. by destruct s.
Qed.

(** A new path. *)
Lemma newPath_ok s next local remote added s' : listen_ok -> sched_ok s -> pointers_below next s -> a_pointer remote < next ->
  newPath ListenUDP s local remote = Ok (added, s') ->
  sched_ok s' /\ pointers_below next s' /\ remoteAddrs s' = remoteAddrs s
  /\ (forall id, is_Some (paths s !! id) -> is_Some (paths s' !! id)).
Proof.
  intros Hl [S1 S2 S3 S4 S5] [P1 P2 P3] Hr H. unfold newPath in H.
  apply outcome_bind_Ok in H as ([[usock add] s1] & Ho & H).
  assert (H1 : a_pointer (so_LocalAddr usock) < 0 /\ exists sk, s1 = set_sockets s sk
    /\ map_Forall (fun _ so => a_pointer (so_LocalAddr so) < 0) sk).
  { unfold openSocket in Ho. destruct (sockets s !! CRC local) as [so |] eqn:E.
    - injection Ho as <- <- <-. split; [by apply (P2 _ _ E) |]. exists (sockets s). split; [by destruct s | done].
    - destruct (ListenUDP (a_udp local)) as [so | |] eqn:El; try done. cbn [hasSession set_sockets] in Ho.
      destruct (hasSession s); [| done]. injection Ho as <- <- <-. pose proof (Hl _ _ El).
      split; [done |]. eexists. split; [done |]. by apply map_Forall_insert_2. }
  destruct H1 as (Hu & sk' & -> & Hsock). cbv zeta in H.
  set (id := ChecksumIEEE _) in H. cbn [NewPath pathID] in H. injection H as <- <-.
  set (p := NewPath id usock remote 1000). clear Ho add. destruct s as [ps hs pz ids lp la ra sk tw ac md].
  cbn [set_pathIds set_paths set_sockets paths pathIds lastPath sockets remoteAddrs totalPathWeight sched_mode] in *.
  split; [split | split; [split | split]];
    cbn [set_pathIds set_paths set_sockets paths pathIds lastPath sockets remoteAddrs totalPathWeight sched_mode].
  - intros i. rewrite elem_of_app, list_elem_of_singleton, S1, lookup_insert_is_Some'. naive_solver.
  - apply map_Forall_insert_2; [done | exact S2].
  - rewrite len_app. pose proof (len_nonneg [id]). lia.
  - rewrite total_weight_insert. rewrite (total_weight_delete ps id) in S4.
    change (weight p) with 1000. destruct (ps !! id) as [q |] eqn:E; cbn in S4; [| lia].
    destruct (S2 id q E). lia.
  - done.
  - apply map_Forall_insert_2; [done | exact P1].
  - done.
  - done.
  - done.
  - intros i Hi. apply lookup_insert_is_Some'. by right.
Qed.

Lemma new_paths_ok next pairs : listen_ok -> Forall (fun lr => a_pointer lr.2 < next) pairs ->
  forall s added s', sched_ok s -> pointers_below next s -> new_paths ListenUDP s pairs = Ok (added, s') ->
  sched_ok s' /\ pointers_below next s' /\ (forall id, is_Some (paths s !! id) -> is_Some (paths s' !! id)).
Proof.
  intros Hl. induction pairs as [| [l r] pairs IH]; intros Hp s added s' Hs Hb H.
  - injection H as <- <-. auto.
  - apply Forall_cons in Hp as [Hr Hp]. cbn [new_paths] in H. destruct (isSameVersion l r); [| by eapply IH].
    apply outcome_bind_Ok in H as ([a s1] & H1 & H). apply outcome_bind_Ok in H as ([b s2] & H2 & H).
    injection H as <- <-. destruct (newPath_ok s next l r a s1 Hl Hs Hb Hr H1) as (Hs1 & Hb1 & _ & Hk1).
    destruct (IH Hp s1 b s2 Hs1 Hb1 H2) as (Hs2 & Hb2 & Hk2). eauto 10.
Qed.
(** Weighing changes weights only, by at most one and within their bounds. *)
Definition weighed (m m' : gmap Z Path) : Prop := forall k,
  match m !! k, m' !! k with
  | Some p, Some p' => p' = set_weight p (weight p') /\ Z.abs (weight p' - weight p) <= 1
  | None, None => True
  | _, _ => False
  end.

Lemma weighPath_bounds p avg : 1 <= weight p <= 1000 ->
  weighPath p avg = set_weight p (weight (weighPath p avg)) /\ 1 <= weight (weighPath p avg) <= 1000
  /\ Z.abs (weight (weighPath p avg) - weight p) <= 1.
Proof.
  intros Hw. unfold weighPath. destruct (flt _ _).
  - destruct (Z.ltb_spec (weight p) 1000); cbn [set_weight weight]; split_and!; try lia; by destruct p.
  - destruct (Z.ltb_spec 1 (weight p)); cbn [set_weight weight]; split_and!; try lia; by destruct p.
Qed.

Definition weights_ok (m : gmap Z Path) : Prop := map_Forall (fun k p => pathID p = k /\ 1 <= weight p <= 1000) m.

(** Each path is weighed once. *)
Lemma weigh_fold inner order : forall s, NoDup order -> weights_ok (paths s) ->
  exists m, foldl (weigh_one inner) s order = set_paths s m /\ weighed (paths s) m /\ weights_ok m
    /\ forall k, k ∉ order -> m !! k = paths s !! k.
Proof.
  induction order as [| k order IH]; intros s Hnd Hw; cbn [foldl].
  - exists (paths s). split; [by destruct s |]. split_and!; try done. intros k. destruct (paths s !! k) as [p |]; [| done].
    split; [by destruct p | lia].
  - apply NoDup_cons in Hnd as [Hk Hnd]. unfold weigh_one at 2. destruct (paths s !! k) as [p |] eqn:Ek.
    + destruct (Hw k p Ek) as [Hid Hb]. set (p' := weighPath p _).
      destruct (weighPath_bounds p (calculateAverageOwd (paths s) (inner k)) Hb) as (Ep & Hb' & Hd). fold p' in Ep, Hb', Hd.
      destruct (IH (set_paths s (<[k := p']> (paths s))) Hnd) as (m & E & Hm & Hmo & Hout).
      { apply map_Forall_insert_2; [| done]. rewrite Ep. by split. }
      exists m. rewrite E. cbn [set_paths paths] in *. split_and!; [by destruct s | | done |].
      * intros j. specialize (Hm j). destruct (decide (j = k)) as [-> |].
        -- rewrite Hout, lookup_insert_eq in * by done. rewrite Ek. by split.
        -- by rewrite lookup_insert_ne in Hm.
      * intros j Hj. apply not_elem_of_cons in Hj as [Hj1 Hj2]. rewrite Hout, lookup_insert_ne by done. done.
    + destruct (IH s Hnd Hw) as (m & E & Hm & Hmo & Hout). exists m. split_and!; try done.
      intros j Hj. apply not_elem_of_cons in Hj as [_ Hj]. by apply Hout.
Qed.

Lemma weighed_keys m m' : weighed m m' -> forall k, is_Some (m' !! k) <-> is_Some (m !! k).
Proof. intros H k. specialize (H k). destruct (m !! k), (m' !! k); try done; split; by eauto. Qed.

Lemma sum_fold order : forall s, foldl sum_add s order
  = set_totalPathWeight s (totalPathWeight s + sum_weights (range_paths (paths s) order)).
Proof.
  induction order as [| k order IH]; intros s; cbn [foldl range_paths omap list_omap].
  - destruct s. cbn. by rewrite Z.add_0_r.
  - rewrite IH. unfold sum_add. change (omap (fun k => paths s !! k) order) with (range_paths (paths s) order).
    destruct (paths s !! k) as [p |]; [| done]. destruct s. cbn. unfold set_totalPathWeight. cbn. f_equal. lia.
Qed.

Lemma sumUpWeights_total s order : order ≡ₚ (map_to_list (paths s)).*1 ->
  sumUpWeights s order = set_totalPathWeight s (total_weight (paths s)).
Proof.
  intros Ho. unfold sumUpWeights. rewrite sum_fold. cbn [sum_start set_totalPathWeight totalPathWeight paths].
  rewrite (range_all _ _ Ho). done.
Qed.

Lemma keys_NoDup {A} (m : gmap Z A) order : order ≡ₚ (map_to_list m).*1 -> NoDup order.
Proof. intros ->. apply NoDup_fst_map_to_list. Qed.

(** The keys do not change: the same orders are possible before and after. *)
Lemma weighed_order m m' : weighed m m' -> (map_to_list m).*1 ≡ₚ (map_to_list m').*1.
Proof.
  intros H. apply NoDup_Permutation; try apply NoDup_fst_map_to_list. intros k. rewrite !list_elem_of_fmap.
  assert (Hin : forall (m : gmap Z Path), (exists kp : Z * Path, k = kp.1 /\ kp ∈ map_to_list m) <-> is_Some (m !! k)).
  { intros n. split.
    - intros ([j p] & -> & Hj). apply elem_of_map_to_list in Hj. by eauto.
    - intros [p Hp]. exists (k, p). by rewrite elem_of_map_to_list. }
  rewrite !Hin. symmetry. by apply weighed_keys.
Qed.

Lemma weighPaths_ok s order inner order2 : sched_ok s -> order ≡ₚ (map_to_list (paths s)).*1 ->
  order2 ≡ₚ (map_to_list (paths s)).*1 ->
  exists m, weighPaths s order inner order2 = set_totalPathWeight (set_paths s m) (total_weight m)
    /\ weighed (paths s) m /\ sched_ok (weighPaths s order inner order2).
Proof.
  intros Hs Ho Ho2. destruct Hs as [S1 S2 S3 S4 S5].
  destruct (weigh_fold inner order s (keys_NoDup _ _ Ho) S2) as (m & E & Hm & Hmo & _).
  exists m. unfold weighPaths. rewrite E, sumUpWeights_total by (cbn [set_paths paths]; by rewrite <- (weighed_order _ _ Hm)).
  cbn [set_paths paths]. split_and!; [done | done |].
  pose proof (weighed_keys _ _ Hm) as Hk. split; cbn; try done.
  - intros id. by rewrite S1, Hk.
  - split; [| lia]. apply total_weight_positive.
    + intros k p Hp. destruct (Hmo k p Hp). lia.
    + intros ->. destruct (proj1 (S1 (pathIds s !!! 0%nat))) as [p Hp].
      { apply list_elem_of_lookup_total_2. unfold len in S3. lia. }
      specialize (Hk (pathIds s !!! 0%nat)). rewrite lookup_empty, Hp in Hk.
      destruct Hk as [_ Hk]. by destruct (Hk ltac:(by eauto)).
Qed.

(** An address in a new object is none of those the paths have. *)
Lemma delete_paths_fresh s next udp : 0 <= next -> pointers_below next s -> delete_paths s (mkAddr next udp) = s.
Proof.
  intros Hn [P1 _ _]. unfold delete_paths. rewrite map_filter_id; [by destruct s |].
  intros k p Hp. destruct (P1 k p Hp) as [H1 H2]. cbn. unfold path_contains, same_addr. cbn [a_pointer].
  apply orb_false_iff. split; apply Z.eqb_neq; lia.
Qed.

Lemma removeAddress_fresh s next udp : 0 <= next -> pointers_below next s ->
  removeAddress s (mkAddr next udp)
  = set_addrs s (delete (CRC (mkAddr next udp)) (localAddrs s)) (delete (CRC (mkAddr next udp)) (remoteAddrs s)).
Proof.
  intros Hn Hp. unfold removeAddress, sched_delete_remote, sched_delete_local. set (a := mkAddr next udp). cbv zeta.
  rewrite !(delete_paths_fresh s next udp Hn Hp : delete_paths s a = s).
  set (s1 := if bool_decide _ then set_addrs s (localAddrs s) (delete (CRC a) (remoteAddrs s)) else s).
  assert (E1 : s1 = set_addrs s (localAddrs s) (delete (CRC a) (remoteAddrs s))).
  { subst s1. case_bool_decide as Hr; [done |]. rewrite delete_id by (by apply eq_None_not_Some). by destruct s. }
  assert (Hd : forall l r, delete_paths (set_addrs s l r) a = set_addrs s l r).
  { intros l r. pose proof (delete_paths_fresh s next udp Hn Hp : delete_paths s a = s) as E.
    unfold delete_paths in *. destruct s. cbn in *. injection E as E. by rewrite E. }
  rewrite E1, Hd. cbn [localAddrs remoteAddrs set_addrs]. case_bool_decide as Hl; cbn [set_addrs].
  - exact (Hd _ _).
  - rewrite (delete_id (localAddrs s)) by (by apply eq_None_not_Some). apply Hd.
Qed.

(** What the session, the socket and the timers do with the scheduler; [next] is
    where the next address is allocated. *)
Inductive sched_step : SchedulerImplementation * Z -> SchedulerImplementation * Z -> Prop :=
  | st_write s next order rnd d s' : order ≡ₚ (map_to_list (paths s)).*1 ->
      sched_Write s [(order, rnd)] = Ok (d, s') -> sched_step (s, next) (s', next)
  | st_add s next udp order added s' : addRemoteAddress ListenUDP s order (mkAddr next udp) = Ok (added, s') ->
      sched_step (s, next) (s', next + 1)
  | st_remove s next udp : sched_step (s, next) (removeAddress s (mkAddr next udp), next + 1)
  | st_owd s next id owd s' : sched_setOwd s id owd = Ok s' -> sched_step (s, next) (s', next)
  | st_weigh s next order inner order2 : order ≡ₚ (map_to_list (paths s)).*1 -> order2 ≡ₚ (map_to_list (paths s)).*1 ->
      sched_step (s, next) (weighPaths s order inner order2, next)
  | st_mode s next : sched_step (s, next) (modeSelectionTimer s, next)
  | st_activate s next b : sched_step (s, next) (Activate s b, next)
  | st_session s next : sched_step (s, next) (set_session s, next).

Inductive sched_reach : SchedulerImplementation * Z -> Prop :=
  | sched_start addresses pconn remote next : 0 <= next -> a_pointer (so_LocalAddr pconn) < 0 -> a_pointer remote < next ->
      sched_reach (NewScheduler addresses pconn remote, next)
  | sched_next x y : sched_reach x -> sched_step x y -> sched_reach y.

Definition sched_inv (x : SchedulerImplementation * Z) : Prop :=
  sched_ok x.1 /\ pointers_below x.2 x.1 /\ 0 <= x.2.

Lemma pointers_below_next next s : pointers_below next s -> pointers_below (next + 1) s.
Proof.
  intros [P1 P2 P3]. split; [| done |].
  - intros k p Hp. destruct (P1 k p Hp). split; lia.
  - intros k a Ha. specialize (P3 k a Ha). cbn in *. lia.
Qed.

Lemma set_lastPath_pointers next s x : pointers_below next s -> pointers_below next (set_lastPath s x).
Proof. intros [P1 P2 P3]. by split. Qed.

Lemma add_step_ok s next udp order added s' : listen_ok -> sched_inv (s, next) ->
  addRemoteAddress ListenUDP s order (mkAddr next udp) = Ok (added, s') ->
  sched_inv (s', next + 1) /\ (forall id, is_Some (paths s !! id) -> is_Some (paths s' !! id)).
Proof.
  intros Hl (Hs & Hp & Hn) H. unfold addRemoteAddress in H. case_bool_decide.
  { injection H as <- <-. split; [split_and!; [done | by apply pointers_below_next | cbn in *; lia] | done]. }
  cbn [fst snd] in *. pose proof (pointers_below_next _ _ Hp) as Hp1.
  set (s1 := set_addrs s _ _) in H. assert (Hs1 : sched_ok s1) by (destruct Hs; by split).
  assert (Hp1' : pointers_below (next + 1) s1).
  { destruct Hp1 as [P1 P2 P3]. split; [done | done |]. apply map_Forall_insert_2; [cbn; lia | done]. }
  apply (new_paths_ok (next + 1)) in H as (Hs' & Hp' & Hk); [| done | | done | done].
  - split; [split_and!; [done | done | cbn; lia] | done].
  - apply Forall_fmap, Forall_forall. intros l _. cbn. lia.
Qed.

Lemma setOwd_ok s next id owd s' : sched_inv (s, next) -> sched_setOwd s id owd = Ok s' ->
  sched_inv (s', next) /\ (forall id, is_Some (paths s !! id) -> is_Some (paths s' !! id)).
Proof.
  intros ([S1 S2 S3 S4 S5] & [P1 P2 P3] & Hn) H. unfold sched_setOwd in H.
  destruct (paths s !! id) as [p |] eqn:E; [| done]. injection H as <-. cbn [fst snd] in *.
  destruct (S2 id p E) as [Hid Hw].
  assert (Hk : forall i, is_Some (<[id := path_setOwd p (of_int prec64 owd)]> (paths s) !! i) <-> is_Some (paths s !! i)).
  { intros i. rewrite lookup_insert_is_Some'. split; [| by right]. intros [<- | ?]; [by eauto | done]. }
  split; [| intros i Hi; by apply Hk]. split_and!; [split | split |]; cbn; try done.
  - intros i. by rewrite S1, Hk.
  - by apply map_Forall_insert_2.
  - rewrite total_weight_insert. rewrite (total_weight_delete (paths s) id), E in S4. exact S4.
  - apply map_Forall_insert_2; [exact (P1 id p E) | done].
Qed.

Lemma sched_step_ok x y : listen_ok -> sched_inv x -> sched_step x y ->
  sched_inv y /\ (forall id, is_Some (paths x.1 !! id) -> is_Some (paths y.1 !! id)).
Proof.
  intros Hl Hx Hst. destruct Hst as [s next order rnd d s' Ho H | s next udp order added s' H | s next udp
    | s next id owd s' H | s next order inner order2 Ho Ho2 | s next | s next b | s next].
  - cbn [sched_Write] in H. apply outcome_bind_Ok in H as ([path s1] & H1 & H2).
    assert (Es : s1 = s') by (destruct path; by injection H2). subst s1. clear H2.
    destruct Hx as (Hs & Hp & Hn). cbn [fst snd] in *.
    unfold getPath in H1. destruct (sched_mode s =? roundRobin) eqn:Em.
    + unfold getRoundRobinPath in H1. destruct (Z.eqb_spec (u32 (len (pathIds s))) 0) as [| Hne]; [done |].
      destruct (_ !! _) as [id |] eqn:El; [| done]. injection H1 as _ <-. split; [| done].
      split_and!; [| by apply set_lastPath_pointers | done]. destruct Hs as [S1 S2 S3 S4 S5]. split; try done.
      apply lookup_lt_Some in El. cbn [set_lastPath pathIds lastPath fst] in *.
      pose proof (u32_range (len (pathIds s))) as Hu. unfold is_u32 in Hu.
      pose proof (Z.mod_pos_bound (u32 (lastPath s + 1)) (u32 (len (pathIds s))) ltac:(lia)).
      unfold len in *. lia.
    + destruct (sched_mode s =? weightBased).
      * apply outcome_bind_Ok in H1 as (q & _ & [= _ <-]). by split.
      * injection H1 as _ <-. by split.
  - by eapply add_step_ok.
  - destruct Hx as (Hs & Hp & Hn). cbn [fst snd] in *. rewrite (removeAddress_fresh s next udp Hn Hp). split; [| done].
    apply pointers_below_next in Hp. split_and!; [by destruct Hs | | cbn; lia].
    destruct Hp as [P1 P2 P3]. split; [done | done |]. cbn. by apply map_Forall_delete.
  - by eapply setOwd_ok.
  - destruct Hx as (Hs & [P1 P2 P3] & Hn). cbn [fst snd] in *.
    destruct (weighPaths_ok s order inner order2 Hs Ho Ho2) as (m & E & Hm & Hs'). split.
    + split_and!; [done | | done]. cbn [fst snd]. rewrite E. split; [| done | done]. cbn. intros k p Hp.
      specialize (Hm k). rewrite Hp in Hm. destruct (paths s !! k) as [q |] eqn:Eq; [| done].
      destruct Hm as [-> _]. exact (P1 k q Eq).
    + rewrite E. cbn. intros id Hi. by apply (weighed_keys _ _ Hm).
  - destruct Hx as ([S1 S2 S3 S4 S5] & [P1 P2 P3] & Hn). split; [| done]. split_and!; [split | split |]; try done. by right.
  - destruct Hx as ([S1 S2 S3 S4 S5] & [P1 P2 P3] & Hn). split; [| done]. by split_and!; [split | split |].
  - destruct Hx as ([S1 S2 S3 S4 S5] & [P1 P2 P3] & Hn). split; [| done]. by split_and!; [split | split |].
Qed.

Lemma sched_start_ok addresses pconn remote next : 0 <= next -> a_pointer (so_LocalAddr pconn) < 0 ->
  a_pointer remote < next -> sched_inv (NewScheduler addresses pconn remote, next).
Proof.
  intros Hn Hl Hr. split_and!; [split | split | done]; cbn.
  - intros id. rewrite list_elem_of_singleton. split.
    + intros ->. rewrite lookup_singleton_eq. by eauto.
    + intros [p Hp]. by apply lookup_singleton_Some in Hp as [-> _].
  - by apply map_Forall_singleton.
  - done.
  - unfold total_weight. rewrite map_to_list_singleton. done.
  - by left.
  - by apply map_Forall_singleton.
  - by apply map_Forall_singleton.
  - apply map_Forall_empty.
Qed.

Lemma sched_reach_inv x : listen_ok -> sched_reach x -> sched_inv x.
Proof.
  intros Hl. induction 1 as [| x y _ IH Hst]; [by apply sched_start_ok |]. by apply (sched_step_ok x y Hl IH).
Qed.

(** ** Theorems *)


(** The path at position [i] of the round. *)
Definition path_at (s : SchedulerImplementation) (i : Z) : option Path :=
  id ← pathIds s !! Z.to_nat (i mod len (pathIds s)); paths s !! id.

Fixpoint writes (n : nat) (s : SchedulerImplementation) : outcome (list (Socket * Addr) * SchedulerImplementation) :=
  match n with
  | O => Ok ([], s)
  | S n =>
      '(d, s) ← sched_Write s [([], 0)];
      '(ds, s) ← writes n s;
      Ok (option_list d ++ ds, s)
  end.

(** Round robin: in a row of packets, each goes to the path after the one of
    the packet before, so that every path gets its turn in each round. *)
Theorem round_robin_fair n s : sched_ok s -> sched_mode s = roundRobin -> len (pathIds s) < 2 ^ 32 ->
  exists ds s', writes n s = Ok (ds, s')
    /\ Forall2 (fun i d => exists p, path_at s i = Some p /\ d = (path_local p, path_remote p))
         (seqZ (lastPath s + 1) (Z.of_nat n)) ds.
Proof.
  revert s. induction n as [| n IH]; intros s Hs Hm Hn; [by exists [], s; repeat constructor |].
  cbn [writes sched_Write]. unfold getPath. rewrite Hm. change (roundRobin =? roundRobin) with true. cbv iota.
  destruct (round_robin_ok s Hs Hn) as (id & p & Hi & Hp & ->). cbn [mbind outcome_bind].
  set (s1 := set_lastPath s _).
  destruct (IH s1) as (ds & s' & -> & Hds); [| done | done |].
  { destruct Hs as [S1 S2 S3 S4 S5]. split; try done. apply Z.mod_pos_bound. cbn. lia. }
  cbn [mbind outcome_bind]. eexists _, _. split; [done |]. rewrite seqZ_cons by lia. cbn [option_list app].
  constructor; [exists p; split; [| done]; unfold path_at; by rewrite Hi |].
  rewrite Nat2Z.inj_succ, Z.pred_succ.
  replace (seqZ (Z.succ (lastPath s + 1)) (Z.of_nat n))
    with (Z.add (lastPath s + 1 - lastPath s1) <$> seqZ (lastPath s1 + 1) (Z.of_nat n)).
  - apply Forall2_fmap_l. eapply Forall2_impl; [exact Hds |]. intros i d (q & Hq & ->). exists q. split; [| done].
    rewrite <- Hq. unfold path_at. cbn [s1 set_lastPath pathIds paths lastPath]. do 3 f_equal.
    replace (lastPath s + 1 - (lastPath s + 1) mod len (pathIds s) + i)
      with (i + (lastPath s + 1) / len (pathIds s) * len (pathIds s)).
    + apply Z_mod_plus_full.
    + destruct Hs. rewrite Z.mod_eq by lia. lia.
  - rewrite fmap_add_seqZ. f_equal. lia.
Qed.

(** The number [r] selects the path [p]. *)
Definition selects (s : SchedulerImplementation) (order : list Z) (p : Path) (r : Z) : bool :=
  match getWeightedPath s order r with Ok (Some q) => pathID q =? pathID p | _ => false end.

(** Choosing by weight: when the total is the sum of the weights, of the
    [totalPathWeight] equally likely numbers a path is chosen by as many as it
    weighs, but one more if the map is visited from it and one less if it is
    visited last: a path of weight 1 that is visited last is never chosen. *)
Theorem weighted_share s order pre p post : sched_ok s -> totalPathWeight s = total_weight (paths s) ->
  order ≡ₚ (map_to_list (paths s)).*1 -> range_paths (paths s) order = pre ++ p :: post ->
  Z.of_nat (length (filter (fun r => selects s order p r = true) (seqZ 0 (totalPathWeight s))))
  = weight p + (if decide (pre = []) then 1 else 0) - (if decide (post = []) then 1 else 0).
Proof.
  intros Hs Ht Ho Hr. pose proof (range_all _ _ Ho) as Hperm. rewrite Hr in Hperm.
  assert (Hw : Forall (fun q => 1 <= weight q) (pre ++ p :: post)).
  { rewrite Hperm. apply Forall_fmap, Forall_forall. intros [k q] Hk. apply elem_of_map_to_list in Hk.
    exact (sched_weights_positive s Hs k q Hk). }
  assert (Hnd : NoDup (pre ++ p :: post)).
  { rewrite Hperm. apply (NoDup_fmap_1 pathID). rewrite <- list_fmap_compose.
    rewrite (list_fmap_ext _ fst (map_to_list (paths s))); [apply NoDup_fst_map_to_list |].
    intros i [k q] Hk. apply list_elem_of_lookup_2, elem_of_map_to_list in Hk. by destruct (sc_weights s Hs k q Hk). }
  apply NoDup_app in Hnd as (_ & Hd & Hnd). apply NoDup_cons in Hnd as [Hpost _].
  assert (Hpre : p ∉ pre) by (intros H; apply (Hd p H); by left).
  apply Forall_app in Hw as [Hwpre [Hwp Hwpost]%Forall_cons].
  pose proof (sum_weights_positive pre Hwpre). pose proof (sum_weights_positive post Hwpost).
  assert (Hsum : totalPathWeight s = sum_weights pre + weight p + sum_weights post).
  { rewrite Ht. unfold total_weight. rewrite <- Hperm, sum_weights_app. cbn. lia. }
  set (lo := if decide (pre = []) then 0 else sum_weights pre + 1).
  set (hi := if decide (post = []) then totalPathWeight s - 1 else sum_weights pre + weight p).
  rewrite (list_filter_iff' _ (fun r => lo <= r <= hi)).
  - rewrite count_interval.
    + subst lo hi. destruct (decide (pre = [])) as [-> |], (decide (post = [])) as [-> |]; cbn in *; lia.
    + subst lo. destruct (decide (pre = [])); lia.
    + subst lo hi. destruct (decide (pre = [])) as [-> |], (decide (post = [])) as [-> |]; cbn in *; lia.
    + subst hi. destruct (decide (post = [])); [lia |]. destruct post; [done |]. cbn in *. lia.
  - intros r [Hr0 Hr1]%elem_of_seqZ. unfold selects, getWeightedPath, Intn.
    destruct (Z.leb_spec (totalPathWeight s) 0); [lia |]. cbn [mbind outcome_bind]. rewrite Z.mod_small, Hr by lia.
    transitivity (select_weighted r (pre ++ p :: post) = Some p).
    { split; [| intros ->; apply Z.eqb_refl]. destruct (select_weighted r _) as [q |] eqn:Eq; [| done].
      intros Hid%Z.eqb_eq. f_equal. apply select_weighted_elem in Eq.
      assert (Hin : forall x, x ∈ pre ++ p :: post -> paths s !! pathID x = Some x).
      { intros x Hx. rewrite Hperm in Hx. apply list_elem_of_fmap in Hx as ([k y] & -> & Hk). cbn [snd].
        apply elem_of_map_to_list in Hk. by destruct (sc_weights s Hs k y Hk) as [-> _]. }
      apply Hin in Eq. rewrite Hid, Hin in Eq by (apply elem_of_app; right; by left). by injection Eq. }
    rewrite select_weighted_pos by done. subst lo hi.
    destruct (decide (pre = [])) as [-> | Hpn], (decide (post = [])) as [-> | Hqn]; cbn [sum_weights length] in *;
      split; intros H'; split; try lia; try (destruct H' as [[? | ?] ?]; (done || lia)); try (by left); right; lia.
Qed.

(** Writing does not look at the addresses. *)
Lemma sched_Write_addrs choices : forall s l r d s1, sched_Write s choices = Ok (d, s1) ->
  sched_Write (set_addrs s l r) choices = Ok (d, set_addrs s1 l r).
Proof.
  induction choices as [| [order rnd] choices IH]; intros s l r d s1 H; cbn [sched_Write] in *; [by injection H as <- <- |].
  apply outcome_bind_Ok in H as ([p s2] & H1 & H2).
  assert (E : getPath (set_addrs s l r) order rnd = Ok (p, set_addrs s2 l r)).
  { unfold getPath in *. change (sched_mode (set_addrs s l r)) with (sched_mode s).
    destruct (sched_mode s =? roundRobin).
    - unfold getRoundRobinPath in *. cbn [set_addrs pathIds] in *. destruct (_ =? 0); [done |].
      cbn [set_addrs set_lastPath pathIds lastPath paths] in *. destruct (_ !! _); [| done]. by injection H1 as <- <-.
    - destruct (_ =? _); [| by injection H1 as <- <-].
      apply outcome_bind_Ok in H1 as (q & Hq & [= <- <-]). change (getWeightedPath (set_addrs s l r)) with (getWeightedPath s).
      by rewrite Hq. }
  rewrite E. cbn [mbind outcome_bind]. destruct p; [by injection H2 as <- <- |]. by apply IH.
Qed.

(** Removing an address has no effect on the paths: an ADDR_MOD frame
    brings the address in a new object, and paths are compared with it by
    pointer.  The address is forgotten, but packets are sent to it as before. *)
Theorem removed_address_still_used s next udp choices d s1 : listen_ok -> sched_reach (s, next) ->
  sched_Write s choices = Ok (d, s1) ->
  let s' := removeAddress s (mkAddr next udp) in
  paths s' = paths s /\ pathIds s' = pathIds s /\ remoteAddrs s' !! CRC (mkAddr next udp) = None
  /\ exists s2, sched_Write s' choices = Ok (d, s2).
Proof.
  intros Hl Hr Hw. destruct (sched_reach_inv _ Hl Hr) as (_ & Hp & Hn). cbv zeta. cbn [fst snd] in *.
  rewrite (removeAddress_fresh s next udp Hn Hp). cbn [set_addrs paths pathIds remoteAddrs].
  split_and!; [done | done | apply lookup_delete_eq |]. eexists. by apply sched_Write_addrs.
Qed.

(** ** Paths without measurements *)

Definition unmeasured (p : Path) : Prop := mant (owd p) = 0 /\ vewma p = NewMovingAverage 5.
Definition lighter (p : Path) : Path := set_weight p (Z.max 1 (weight p - 1)).

Context (new_value : mant (ewma_Value (NewMovingAverage 5)) = 0).

Lemma zero_average m order : map_Forall (fun _ => unmeasured) m -> mant (calculateAverageOwd m order) = 0.
Proof.
  intros Hm. unfold calculateAverageOwd. set (sum := foldl _ _ _).
  assert (Hs : mant sum = 0).
  { assert (Hl : Forall unmeasured (range_paths m order)).
    { apply Forall_forall. intros p Hp. apply list_elem_of_omap in Hp as (k & _ & Hk). by apply (Hm k). }
    subst sum. assert (H0 : mant (mkFloat 0 0) = 0) by done. revert H0. generalize (mkFloat 0 0).
    induction Hl as [| p l [Ho Hv] _ IH]; intros x Hx; [done |]. cbn [foldl]. apply IH.
    unfold path_MovingAverage. rewrite Hv, new_value, Z.eqb_refl. unfold fadd. by rewrite Hx, Ho. }
  unfold fdiv. rewrite Hs. cbn. by rewrite Z.mul_0_l.
Qed.

Lemma weigh_unmeasured m order p : map_Forall (fun _ => unmeasured) m -> unmeasured p -> 1 <= weight p ->
  weighPath p (calculateAverageOwd m order) = lighter p.
Proof.
  intros Hm [Ho _] Hw. unfold weighPath, flt. rewrite (zero_average m order Hm), Ho. cbn. unfold lighter.
  destruct (Z.ltb_spec 1 (weight p)); [f_equal; lia |]. replace (Z.max 1 _) with (weight p) by lia. by destruct p.
Qed.

Lemma weigh_unmeasured_fold inner order : forall s, NoDup order -> map_Forall (fun _ p => unmeasured p /\ 1 <= weight p) (paths s) ->
  exists m, foldl (weigh_one inner) s order = set_paths s m
    /\ forall k, m !! k = (if decide (k ∈ order) then lighter else id) <$> paths s !! k.
Proof.
  induction order as [| k order IH]; intros s Hnd Hm; cbn [foldl].
  - exists (paths s). split; [by destruct s |]. intros k. rewrite decide_False by apply not_elem_of_nil.
    by destruct (paths s !! k).
  - apply NoDup_cons in Hnd as [Hk Hnd]. unfold weigh_one at 2.
    destruct (paths s !! k) as [p |] eqn:Ek.
    + destruct (Hm k p Ek) as [Hu Hw]. rewrite weigh_unmeasured; [| | done | done].
      2: { intros j q Hq. by destruct (Hm j q Hq). }
      destruct (IH (set_paths s (<[k := lighter p]> (paths s))) Hnd) as (m & E & Hl).
      { apply map_Forall_insert_2; [| done]. destruct Hu. split; [by split | cbn; lia]. }
      exists m. rewrite E. split; [by destruct s |]. cbn [set_paths paths] in Hl. intros j. rewrite Hl.
      destruct (decide (j = k)) as [-> | Hne].
      * rewrite lookup_insert_eq, Ek, decide_False, decide_True by (done || by left). done.
      * rewrite lookup_insert_ne by done. destruct (decide (j ∈ order)).
        -- by rewrite decide_True by (by right).
        -- rewrite decide_False; [done |]. by intros [? | ?]%elem_of_cons.
    + destruct (IH s Hnd Hm) as (m & E & Hl). exists m. split; [done |]. intros j. rewrite Hl.
      destruct (decide (j = k)) as [-> | Hne]; [by rewrite Ek |]. destruct (decide (j ∈ order)).
      * by rewrite decide_True by (by right).
      * rewrite decide_False; [done |]. by intros [? | ?]%elem_of_cons.
Qed.

(** [n] rounds of weighing, in any orders. *)
Inductive weigh_rounds : nat -> SchedulerImplementation -> SchedulerImplementation -> Prop :=
  | no_round s : weigh_rounds O s s
  | one_round n s order inner order2 s' : order ≡ₚ (map_to_list (paths s)).*1 ->
      weigh_rounds n (weighPaths s order inner order2) s' -> weigh_rounds (S n) s s'.

(** Without measurements weights only fall: after [n] rounds of weighing
    paths that no OWD_ACK frame has arrived for, every weight is [n] less, down
    to 1, so that in the end all paths weigh the same. *)
Theorem unmeasured_weights_fall n s s' : weigh_rounds n s s' ->
  map_Forall (fun _ p => unmeasured p /\ 1 <= weight p) (paths s) ->
  forall k p, paths s !! k = Some p -> exists p', paths s' !! k = Some p' /\ weight p' = Z.max 1 (weight p - Z.of_nat n).
Proof.
  induction 1 as [s | n s order inner order2 s' Ho _ IH]; intros Hm k p Hp.
  - exists p. split; [done |]. destruct (Hm k p Hp). lia.
  - destruct (weigh_unmeasured_fold inner order s (keys_NoDup _ _ Ho) Hm) as (m & E & Hl).
    assert (Hpaths : paths (weighPaths s order inner order2) = m).
    { unfold weighPaths, sumUpWeights. rewrite E, sum_fold. done. }
    rewrite Hpaths in IH.
    assert (Hall : forall j q, paths s !! j = Some q -> j ∈ order).
    { intros j q Hj. rewrite Ho. apply list_elem_of_fmap. exists (j, q). by rewrite elem_of_map_to_list. }
    destruct (IH) with (k := k) (p := lighter p) as (p' & H1 & H2).
    + intros j q Hq. rewrite Hl in Hq. destruct (paths s !! j) as [q0 |] eqn:Ej; [| done]. cbn in Hq.
      rewrite decide_True in Hq by (by eapply Hall). injection Hq as <-. destruct (Hm j q0 Ej) as [[? ?] ?].
      split; [by split | cbn; lia].
    + rewrite Hl, Hp. cbn. by rewrite decide_True by (by eapply Hall).
    + exists p'. split; [done |]. rewrite H2. cbn. lia.
Qed.
End Theory.

(** ** An example *)

#[local] Existing Instance loopback_net.
#[local] Instance last_value : EWMA :=
  {| MovingAverage := float; NewMovingAverage _ := mkFloat 0 0; ewma_Add _ x := x; ewma_Value x := x |}.

Definition sample_listen (a : UDPAddr) : outcome Socket := Ok (mkSocket (mkAddr (-1) a)).
Definition sample_local : Addr := mkAddr 1 loopback.
Definition sample_zero : SchedulerImplementation :=
  NewScheduler {[CRC sample_local := sample_local]} (mkSocket (mkAddr (-2) (mkUDPAddr [10; 0; 0; 1] 443)))
    (mkAddr 2 (mkUDPAddr [10; 0; 0; 2] 443)).

(** After the peer has announced an address: a second path. *)
Definition sample_sched : SchedulerImplementation :=
  match addRemoteAddress sample_listen (set_session sample_zero) [CRC sample_local] (mkAddr 3 loopback) with
  | Ok (_, s) => s
  | _ => sample_zero
  end.
Definition sample_order : list Z := (map_to_list (paths sample_sched)).*1.

Lemma sample_listen_ok : listen_ok sample_listen.
Proof. intros a so [= <-]. done. Qed.

Lemma sample_reach : sched_reach sample_listen (sample_sched, 4).
Proof.
  apply (sched_next _ (set_session sample_zero, 3)).
  - apply (sched_next _ (sample_zero, 3)); [by apply sched_start | apply st_session].
  - apply (st_add _ _ 3 loopback [CRC sample_local] [mkSocket (mkAddr (-1) loopback)]). vm_compute. reflexivity.
Qed.

(** The checksum of 123456789 is the check value of CRC-32. *)
Lemma crc_check : ChecksumIEEE [49; 50; 51; 52; 53; 54; 55; 56; 57] = 0xcbf43926.
Proof. by vm_compute. Qed.


Lemma sample_ok : sched_ok sample_sched.
Proof. by destruct (sched_reach_inv sample_listen _ sample_listen_ok sample_reach). Qed.

Lemma round_robin_fair_witness : exists ds s', writes 3 sample_sched = Ok (ds, s').
Proof.
  destruct (round_robin_fair 3 sample_sched sample_ok eq_refl) as (ds & s' & H & _); [by vm_compute |].
  exists ds, s'. exact H.
Defined.

(** Both paths weigh 1000. *)
Definition sample_weighed : SchedulerImplementation := set_totalPathWeight sample_sched 2000.

Lemma sample_weighed_ok : sched_ok sample_weighed.
Proof. destruct sample_ok as [S1 S2 S3 S4 S5]. split; try done; by vm_compute. Qed.

Definition sample_second : Path := NewPath 1172636078 (mkSocket (mkAddr (-1) loopback)) (mkAddr 3 loopback) 1000.

Lemma weighted_share_witness : range_paths (paths sample_weighed) sample_order = [sample_second; pathZero sample_zero]
  /\ Z.of_nat (length (filter (fun r => selects sample_weighed sample_order sample_second r = true)
       (seqZ 0 (totalPathWeight sample_weighed)))) = 1001.
Proof.
  assert (E : range_paths (paths sample_weighed) sample_order = [sample_second; pathZero sample_zero]) by (by vm_compute).
  split; [exact E |].
  etransitivity; [apply (weighted_share sample_weighed sample_order [] sample_second [pathZero sample_zero] sample_weighed_ok) |].
  - by vm_compute.
  - done.
  - exact E.
  - reflexivity.
Defined.

Lemma removed_address_still_used_witness :
  remoteAddrs sample_sched !! CRC (mkAddr 4 loopback) <> None
  /\ remoteAddrs (removeAddress sample_sched (mkAddr 4 loopback)) !! CRC (mkAddr 4 loopback) = None
  /\ exists s2, sched_Write (removeAddress sample_sched (mkAddr 4 loopback)) [([], 0)]
       = Ok (Some (mkSocket (mkAddr (-1) loopback), mkAddr 3 loopback), s2).
Proof.
  destruct (removed_address_still_used sample_listen sample_sched 4 loopback [([], 0)]
    (Some (mkSocket (mkAddr (-1) loopback), mkAddr 3 loopback)) (set_lastPath sample_sched 1) sample_listen_ok sample_reach)
    as (_ & _ & H1 & H2); [vm_compute; reflexivity |].
  split; [by vm_compute | split; [exact H1 | exact H2]].
Defined.

Lemma unmeasured_weights_fall_witness : exists p',
  paths (weighPaths sample_sched sample_order (fun _ => sample_order) sample_order) !! 0 = Some p' /\ weight p' = 999.
Proof.
  destruct (unmeasured_weights_fall (Ewma := last_value) eq_refl 1 sample_sched _
    (one_round 0 _ sample_order (fun _ => sample_order) sample_order _ (Permutation_refl _) (no_round _)))
    with (k := 0) (p := pathZero sample_zero) as (p' & H1 & H2).
  - intros k p Hp. cut (p = sample_second \/ p = pathZero sample_zero).
    { intros [-> | ->]; (split; [split; reflexivity | vm_compute; discriminate]). }
    assert (Hin : p ∈ (map_to_list (paths sample_sched)).*2)
      by (apply list_elem_of_fmap; exists (k, p); split; [done | by apply elem_of_map_to_list]).
    assert (E : (map_to_list (paths sample_sched)).*2 = [sample_second; pathZero sample_zero]) by (by vm_compute).
    rewrite E in Hin.
    apply elem_of_cons in Hin as [-> | Hin]; [by left |]. right. by apply list_elem_of_singleton in Hin.
  - by vm_compute.
  - exists p'. split; [exact H1 | exact H2].
Defined.

(** Three ways to crash: after the first packet on a second path
    [RemoteAddr] takes an index for a path ID and dereferences nil; an OWD_ACK
    frame of the peer for a path that does not exist dereferences nil; choosing
    a path while the weights are being summed up can find the total zero, for
    which [rand.Intn] panics. *)
Theorem scheduler_crashes :
  (exists d s', sched_Write sample_sched [([], 0)] = Ok (d, s') /\ sched_RemoteAddr s' = Panic "nil pointer dereference")
  /\ (exists f, ParseNextFrame [0xf3; 9; 1] = Ok (Some (OwdAck f), [])
        /\ sched_setOwd sample_sched (OwdAck_pathID f) (OwdAck_owd f) = Panic "nil pointer dereference")
  /\ forall s order rnd, getWeightedPath (sum_start s) order rnd = Panic "invalid argument to Intn".
Proof.
  split; [| split; [| done]].
  - eexists _, _. split; [vm_compute; reflexivity | by vm_compute].
  - eexists. split; [vm_compute; reflexivity | by vm_compute].
Qed.
