(* ===== verification/TransportParams.v ===== *)
(** * Transport parameters (internal/handshake: transport_parameters.go,
    tls_extension.go, tls_extension_handler_client.go,
    tls_extension_handler_server.go)

    The parameters of a connection travel in an extension of the TLS handshake,
    together with the versions the endpoints have offered and support.  The
    theorems: what is marshalled is unmarshalled; arbitrary bytes give an error or
    parameters in their ranges; a forged version negotiation is detected. *)

From stdpp Require Import sorting.
From S2P Require Import Prelude Qerr Varint Protocol Header.

(** ** transport_parameters.go *)

Definition originalConnectionIDParameterID : Z := 0x0.
Definition idleTimeoutParameterID : Z := 0x1.
Definition statelessResetTokenParameterID : Z := 0x2.
Definition maxPacketSizeParameterID : Z := 0x3.
Definition initialMaxDataParameterID : Z := 0x4.
Definition initialMaxStreamDataBidiLocalParameterID : Z := 0x5.
Definition initialMaxStreamDataBidiRemoteParameterID : Z := 0x6.
Definition initialMaxStreamDataUniParameterID : Z := 0x7.
Definition initialMaxStreamsBidiParameterID : Z := 0x8.
Definition initialMaxStreamsUniParameterID : Z := 0x9.
Definition disableMigrationParameterID : Z := 0xc.

Record TransportParameters : Type := mkTP {
  InitialMaxStreamDataBidiLocal : Z;
  InitialMaxStreamDataBidiRemote : Z;
  InitialMaxStreamDataUni : Z;
  InitialMaxData : Z;
  MaxPacketSize : Z;
  MaxUniStreams : Z;
  MaxBidiStreams : Z;
  IdleTimeout : Z;
  DisableMigration : bool;
  StatelessResetToken : list Z;
  OriginalConnectionID : list Z }.

(** The zero value. *)
Definition no_parameters : TransportParameters := mkTP 0 0 0 0 0 0 0 0 false [] [].

Definition numeric_parameter (id : Z) : bool :=
  (id =? initialMaxStreamDataBidiLocalParameterID) || (id =? initialMaxStreamDataBidiRemoteParameterID)
  || (id =? initialMaxStreamDataUniParameterID) || (id =? initialMaxDataParameterID)
  || (id =? initialMaxStreamsBidiParameterID) || (id =? initialMaxStreamsUniParameterID)
  || (id =? idleTimeoutParameterID) || (id =? maxPacketSizeParameterID).

(** The switch over the parameter that was read. *)
Definition set_numeric (p : TransportParameters) (id val : Z) : TransportParameters :=
  mkTP (if id =? initialMaxStreamDataBidiLocalParameterID then val else InitialMaxStreamDataBidiLocal p)
    (if id =? initialMaxStreamDataBidiRemoteParameterID then val else InitialMaxStreamDataBidiRemote p)
    (if id =? initialMaxStreamDataUniParameterID then val else InitialMaxStreamDataUni p)
    (if id =? initialMaxDataParameterID then val else InitialMaxData p)
    (if id =? maxPacketSizeParameterID then val else MaxPacketSize p)
    (if id =? initialMaxStreamsUniParameterID then val else MaxUniStreams p)
    (if id =? initialMaxStreamsBidiParameterID then val else MaxBidiStreams p)
    (if id =? idleTimeoutParameterID then MaxDuration MinRemoteIdleTimeout (i64 (val * 10 ^ 9)) else IdleTimeout p)
    (DisableMigration p) (StatelessResetToken p) (OriginalConnectionID p).

Definition readNumericTransportParameter (p : TransportParameters) (paramID expectedLen : Z) : reader TransportParameters :=
  remainingLen ← Len;
  val ← (fun r => match ReadVarInt r with
                  | Err _ => Err (Errorf "error while reading transport parameter %d: %s" [paramID])
                  | res => res
                  end);
  n ← Len;
  if negb (remainingLen - n =? expectedLen) then fail (Errorf "inconsistent transport parameter length for %d" [paramID])
  else if (paramID =? maxPacketSizeParameterID) && (val <? 1200) then
    fail (Errorf "invalid value for max_packet_size: %d (minimum 1200)" [val])
  else if numeric_parameter paramID then mret (set_numeric p paramID val)
  else fail (Errorf "TransportParameter BUG: transport parameter %d not found" [paramID]).

Definition set_DisableMigration (p : TransportParameters) : TransportParameters :=
  mkTP (InitialMaxStreamDataBidiLocal p) (InitialMaxStreamDataBidiRemote p) (InitialMaxStreamDataUni p) (InitialMaxData p)
    (MaxPacketSize p) (MaxUniStreams p) (MaxBidiStreams p) (IdleTimeout p) true (StatelessResetToken p)
    (OriginalConnectionID p).
Definition set_StatelessResetToken (p : TransportParameters) (x : list Z) : TransportParameters :=
  mkTP (InitialMaxStreamDataBidiLocal p) (InitialMaxStreamDataBidiRemote p) (InitialMaxStreamDataUni p) (InitialMaxData p)
    (MaxPacketSize p) (MaxUniStreams p) (MaxBidiStreams p) (IdleTimeout p) (DisableMigration p) x (OriginalConnectionID p).
Definition set_OriginalConnectionID (p : TransportParameters) (x : list Z) : TransportParameters :=
  mkTP (InitialMaxStreamDataBidiLocal p) (InitialMaxStreamDataBidiRemote p) (InitialMaxStreamDataUni p) (InitialMaxData p)
    (MaxPacketSize p) (MaxUniStreams p) (MaxBidiStreams p) (IdleTimeout p) (DisableMigration p) (StatelessResetToken p) x.

(** One turn of the loop.  The reads of the last three cases cannot fail: the
    length was checked. *)
Definition read_parameter (sentBy : Perspective) (p : TransportParameters) (paramID paramLen : Z) : reader TransportParameters :=
  if numeric_parameter paramID then readNumericTransportParameter p paramID paramLen
  else
    n ← Len;
    if n <? paramLen then fail (Errorf "remaining length (%d) smaller than parameter length (%d)" [n; paramLen])
    else if paramID =? disableMigrationParameterID then
      if negb (paramLen =? 0) then fail (Errorf "wrong length for disable_migration: %d (expected empty)" [paramLen])
      else mret (set_DisableMigration p)
    else if paramID =? statelessResetTokenParameterID then
      if bool_decide (sentBy = PerspectiveClient) then fail (Errorf "client sent a stateless_reset_token" [])
      else if negb (paramLen =? 16) then fail (Errorf "wrong length for stateless_reset_token: %d (expected 16)" [paramLen])
      else b ← ReadFull 16; mret (set_StatelessResetToken p b)
    else if paramID =? originalConnectionIDParameterID then
      if bool_decide (sentBy = PerspectiveClient) then fail (Errorf "client sent an original_connection_id" [])
      else id ← ReadConnectionID paramLen; mret (set_OriginalConnectionID p id)
    else _ ← ReadFull paramLen; mret p.

Fixpoint read_parameters (fuel : nat) (sentBy : Perspective) (p : TransportParameters) (parameterIDs : list Z)
    : reader (TransportParameters * list Z) := fun r =>
  if len r <? 4 then Ok ((p, parameterIDs), r)
  else match fuel with
       | O => Panic "out of fuel"
       | S fuel =>
           (paramID ← ReadUint16;
            paramLen ← ReadUint16;
            p ← read_parameter sentBy p paramID paramLen;
            read_parameters fuel sentBy p (parameterIDs ++ [paramID])) r
       end.

(** The first of two equal neighbours. *)
Fixpoint equal_neighbours (l : list Z) : option Z :=
  match l with
  | a :: (b :: _) as l' => if a =? b then Some a else equal_neighbours l'
  | _ => None
  end.

Definition unmarshal (sentBy : Perspective) (p : TransportParameters) (data : list Z) : outcome TransportParameters :=
  '((p, parameterIDs), r) ← read_parameters (length data) sentBy p [] data;
  match equal_neighbours (merge_sort Z.le parameterIDs) with
  | Some id => Err (Errorf "received duplicate transport parameter %#x" [id])
  | None =>
      if negb (len r =? 0) then Err (Errorf "should have read all data. Still have %d bytes" [len r])
      else Ok p
  end.

Definition write_numeric (id val : Z) : writes :=
  WriteUint16 id +w+ ((l ← VarIntLen val; WriteUint16 (u16 l)) +w+ WriteVarInt val).

Definition marshal (p : TransportParameters) : writes :=
  write_numeric initialMaxStreamDataBidiLocalParameterID (InitialMaxStreamDataBidiLocal p)
  +w+ write_numeric initialMaxStreamDataBidiRemoteParameterID (InitialMaxStreamDataBidiRemote p)
  +w+ write_numeric initialMaxStreamDataUniParameterID (InitialMaxStreamDataUni p)
  +w+ write_numeric initialMaxDataParameterID (InitialMaxData p)
  +w+ write_numeric initialMaxStreamsBidiParameterID (MaxBidiStreams p)
  +w+ write_numeric initialMaxStreamsUniParameterID (MaxUniStreams p)
  +w+ write_numeric idleTimeoutParameterID (u64 (Z.quot (IdleTimeout p) (10 ^ 9)))
  +w+ write_numeric maxPacketSizeParameterID MaxReceivePacketSize
  +w+ (if DisableMigration p then WriteUint16 disableMigrationParameterID +w+ WriteUint16 0 else Ok [])
  +w+ (if 0 <? len (StatelessResetToken p) then
         WriteUint16 statelessResetTokenParameterID +w+ (WriteUint16 (u16 (len (StatelessResetToken p))) +w+ Ok (StatelessResetToken p))
       else Ok [])
  +w+ (if 0 <? len (OriginalConnectionID p) then
         WriteUint16 originalConnectionIDParameterID
         +w+ (WriteUint16 (u16 (len (OriginalConnectionID p))) +w+ Ok (OriginalConnectionID p))
       else Ok []).

(** ** tls_extension.go *)

Record clientHelloTransportParameters : Type := mkCHTP { InitialVersion : Z; ch_Parameters : TransportParameters }.

(** The parameters behind their length. *)
Definition with_length (p : TransportParameters) : writes :=
  params ← marshal p; WriteUint16 (u16 (len params)) +w+ Ok params.

Definition ch_Marshal (p : clientHelloTransportParameters) : writes :=
  WriteUint32 (InitialVersion p) +w+ with_length (ch_Parameters p).

(** Reading from a slice of which the length was checked. *)
Definition read_length (sentBy : Perspective) (p : TransportParameters) (data : list Z) : outcome TransportParameters :=
  '(paramsLen, data) ← ReadUint16 data;
  if negb (len data =? paramsLen) then
    Err (Errorf "expected transport parameters to be %d bytes long, have %d" [paramsLen; len data])
  else unmarshal sentBy p data.

Definition ch_Unmarshal (p : clientHelloTransportParameters) (data : list Z) : outcome clientHelloTransportParameters :=
  if len data <? 6 then Err (Errorf "transport parameter data too short" [])
  else
    '(version, data) ← ReadUint32 data;
    params ← read_length PerspectiveClient (ch_Parameters p) data;
    Ok (mkCHTP version params).

Record encryptedExtensionsTransportParameters : Type := mkEETP {
  NegotiatedVersion : Z;
  ee_SupportedVersions : list Z;
  ee_Parameters : TransportParameters }.

Definition ee_Marshal (p : encryptedExtensionsTransportParameters) : writes :=
  WriteUint32 (NegotiatedVersion p) +w+ Ok [u8 (4 * len (ee_SupportedVersions p))]
  +w+ write_versions (ee_SupportedVersions p) +w+ with_length (ee_Parameters p).

Fixpoint take_versions (n : nat) (data : list Z) : outcome (list Z * list Z) :=
  match n with
  | O => Ok ([], data)
  | S n =>
      '(v, data) ← ReadUint32 data;
      '(vs, data) ← take_versions n data;
      Ok (v :: vs, data)
  end.

Definition ee_Unmarshal (p : encryptedExtensionsTransportParameters) (data : list Z)
    : outcome encryptedExtensionsTransportParameters :=
  if len data <? 5 then Err (Errorf "transport parameter data too short" [])
  else
    '(version, data) ← ReadUint32 data;
    '(numVersions, data) ← ReadByte data;
    if negb (numVersions mod 4 =? 0) then Err (Errorf "invalid length for version list: %d" [numVersions])
    else
      let numVersions := numVersions / 4 in
      if len data <? 4 * numVersions + 2 then Err (Errorf "transport parameter data too short" [])
      else
        '(versions, data) ← take_versions (Z.to_nat numVersions) data;
        params ← read_length PerspectiveServer (ee_Parameters p) data;
        Ok (mkEETP version versions params).

(** ** tls_extension_handler_server.go, tls_extension_handler_client.go *)

Definition quicTLSExtensionType : Z := 0xff5.

(** [qtls.Extension]. *)
Record Extension : Type := mkExtension { Ext_Type : Z; Ext_Data : list Z }.

(** The loop over the extensions: those of our type are read into one
    structure, [a]. *)
Fixpoint find_extension {A} (parse : A -> list Z -> outcome A) (found : bool) (a : A) (exts : list Extension) : outcome (bool * A) :=
  match exts with
  | [] => Ok (found, a)
  | ext :: exts =>
      if negb (Ext_Type ext =? quicTLSExtensionType) then find_extension parse found a exts
      else a ← parse a (Ext_Data ext); find_extension parse true a exts
  end.

Definition typeClientHello : Z := 1.
Definition typeEncryptedExtensions : Z := 8.

Record extensionHandlerServer : Type := mkExtServer {
  es_ourParams : TransportParameters;
  es_version : Z;
  es_supportedVersions : list Z }.

(** [posByte] and [rnd] are random. *)
Definition es_GetExtensions (posByte rnd : Z) (h : extensionHandlerServer) (msgType : Z) : outcome (list Extension) :=
  if negb (msgType =? typeEncryptedExtensions) then Ok []
  else
    data ← ee_Marshal (mkEETP (es_version h) (GetGreasedVersions posByte rnd (es_supportedVersions h)) (es_ourParams h));
    Ok [mkExtension quicTLSExtensionType data].

(** The parameters are sent to the session. *)
Definition es_ReceivedExtensions (h : extensionHandlerServer) (msgType : Z) (exts : list Extension)
    : outcome (option TransportParameters) :=
  if negb (msgType =? typeClientHello) then Ok None
  else
    '(found, chtp) ← find_extension ch_Unmarshal false (mkCHTP 0 no_parameters) exts;
    if negb found then Err (Errorf "ClientHello didn't contain a QUIC extension" [])
    else if negb (InitialVersion chtp =? es_version h) && IsSupportedVersion (es_supportedVersions h) (InitialVersion chtp) then
      Err (QuicError VersionNegotiationMismatch (Msg "Client should have used the initial version" []))
    else Ok (Some (ch_Parameters chtp)).

Record extensionHandlerClient : Type := mkExtClient {
  ec_ourParams : TransportParameters;
  ec_origConnID : list Z;
  ec_initialVersion : Z;
  ec_supportedVersions : list Z;
  ec_version : Z }.

Definition ec_GetExtensions (h : extensionHandlerClient) (msgType : Z) : outcome (list Extension) :=
  if negb (msgType =? typeClientHello) then Ok []
  else
    data ← ch_Marshal (mkCHTP (ec_initialVersion h) (ec_ourParams h));
    Ok [mkExtension quicTLSExtensionType data].

Definition ec_ReceivedExtensions (h : extensionHandlerClient) (msgType : Z) (exts : list Extension)
    : outcome (option TransportParameters) :=
  if negb (msgType =? typeEncryptedExtensions) then Ok None
  else
    '(found, eetp) ← find_extension ee_Unmarshal false (mkEETP 0 [] no_parameters) exts;
    let '(negotiated, ok) := ChooseSupportedVersion (ec_supportedVersions h) (ee_SupportedVersions eetp) in
    let params := ee_Parameters eetp in
    if negb found then Err (Errorf "EncryptedExtensions message didn't contain a QUIC extension" [])
    else if negb (NegotiatedVersion eetp =? ec_version h) then
      Err (QuicError VersionNegotiationMismatch (Msg "current version doesn't match negotiated_version" []))
    else if negb (IsSupportedVersion (ee_SupportedVersions eetp) (ec_version h)) then
      Err (QuicError VersionNegotiationMismatch (Msg "current version not included in the supported versions" []))
    else if negb (ec_version h =? ec_initialVersion h) && (negb ok || negb (ec_version h =? negotiated)) then
      Err (QuicError VersionNegotiationMismatch (Msg "would have picked a different version" []))
    else if len (StatelessResetToken params) =? 0 then Err (Errorf "server didn't sent stateless_reset_token" [])
    else if negb (bool_decide (ec_origConnID h = OriginalConnectionID params)) then
      Err (Errorf "expected original_connection_id to equal %s, is %s" (ec_origConnID h))
    else Ok (Some params).

(** ** Lemmas: the loop *)

Definition param_bytes (id : Z) (bs : list Z) : list Z := u16_bytes id ++ u16_bytes (len bs) ++ bs.
Definition wire (l : list (Z * list Z)) : list Z := concat ((fun ib => param_bytes ib.1 ib.2) <$> l).

(** The parameters of the list, read one after the other. *)
Inductive reads (sentBy : Perspective) : TransportParameters -> list (Z * list Z) -> TransportParameters -> Prop :=
  | reads_nil p : reads sentBy p [] p
  | reads_cons p p1 p2 id bs l : is_u16 id -> is_u16 (len bs) ->
      (forall rest, read_parameter sentBy p id (len bs) (bs ++ rest) = Ok (p1, rest)) ->
      reads sentBy p1 l p2 -> reads sentBy p ((id, bs) :: l) p2.

Lemma reads_app sentBy p l p1 k p2 : reads sentBy p l p1 -> reads sentBy p1 k p2 -> reads sentBy p (l ++ k) p2.
Proof. induction 1; intros Hk; [done |]. cbn [app]. econstructor; eauto. Qed.

Lemma read_parameters_wire sentBy p l p' : reads sentBy p l p' -> forall fuel ids, (length l <= fuel)%nat ->
  read_parameters fuel sentBy p ids (wire l) = Ok ((p', ids ++ l.*1), []).
Proof.
  induction 1 as [p | p p1 p2 id bs l Hid Hlen Hread _ IH]; intros fuel ids Hf.
  - cbn [wire]. rewrite app_nil_r. by destruct fuel.
  - destruct fuel as [| fuel]; [cbn in Hf; lia |].
    unfold wire. rewrite fmap_cons. cbn [concat fst snd]. fold (wire l). cbn [read_parameters].
    replace (len (param_bytes id bs ++ wire l) <? 4) with false.
    2: { symmetry. apply Z.ltb_ge. unfold param_bytes. rewrite !len_app, !len_u16_bytes.
         pose proof (len_nonneg bs). pose proof (len_nonneg (wire l)). lia. }
    unfold param_bytes. rewrite <- !app_assoc. rewrite ReadUint16_step, ReadUint16_step by done.
    erewrite reader_bind_step by apply Hread. rewrite IH by (cbn in Hf; lia).
    by rewrite <- app_assoc.
Qed.

Lemma length_wire l : (length l <= length (wire l))%nat.
Proof.
  induction l as [| [id bs] l IH]; [done |]. unfold wire in *. rewrite fmap_cons. cbn [concat length fst snd].
  rewrite length_app. unfold param_bytes at 1. rewrite !length_app.
  assert (length (u16_bytes id) = 2%nat) by (apply Nat2Z.inj, (len_u16_bytes id)). lia.
Qed.

(** The check for duplicates. *)
Lemma equal_neighbours_NoDup l : StronglySorted Z.le l -> equal_neighbours l = None <-> NoDup l.
Proof.
  induction 1 as [| a l Hs IH Ha]; [split; intros _; [constructor | done] |]. destruct l as [| b l].
  - split; intros _; [apply NoDup_singleton | done].
  - cbn [equal_neighbours]. rewrite NoDup_cons. apply Forall_cons in Ha as [Hab Ha].
    destruct (Z.eqb_spec a b) as [-> | Hne].
    + split; [done |]. intros [H _]. exfalso. apply H. by left.
    + change (equal_neighbours (b :: l) = None <-> (a ∉ b :: l) /\ NoDup (b :: l)). rewrite IH. split; [| by intros [_ ?]].
      intros Hnd. split; [| done]. intros [? | Hin]%elem_of_cons; [done |]. rewrite Forall_forall in Ha.
      inversion Hs as [| ? ? _ Hb]; subst. rewrite Forall_forall in Hb. specialize (Hb a Hin). lia.
Qed.

Lemma no_duplicates ids : equal_neighbours (merge_sort Z.le ids) = None <-> NoDup ids.
Proof.
  rewrite equal_neighbours_NoDup by (apply StronglySorted_merge_sort; apply _).
  by rewrite (merge_sort_Permutation Z.le ids).
Qed.

Lemma unmarshal_wire sentBy p l p' : reads sentBy p l p' -> NoDup l.*1 -> unmarshal sentBy p (wire l) = Ok p'.
Proof.
  intros Hr Hnd. unfold unmarshal. rewrite (read_parameters_wire _ _ _ _ Hr) by apply length_wire.
  cbn [mbind outcome_bind app]. by rewrite (proj2 (no_duplicates _) Hnd).
Qed.

(** ** Lemmas: marshalling *)

Record tp_ok (p : TransportParameters) : Prop := {
  tp_bidi_local : is_varint (InitialMaxStreamDataBidiLocal p);
  tp_bidi_remote : is_varint (InitialMaxStreamDataBidiRemote p);
  tp_uni : is_varint (InitialMaxStreamDataUni p);
  tp_data : is_varint (InitialMaxData p);
  tp_uni_streams : is_varint (MaxUniStreams p);
  tp_bidi_streams : is_varint (MaxBidiStreams p);
  tp_idle : 0 <= IdleTimeout p < 2 ^ 63;
  tp_token : StatelessResetToken p = [] \/ (bytes (StatelessResetToken p) /\ len (StatelessResetToken p) = 16);
  tp_orig : bytes (OriginalConnectionID p) /\ len (OriginalConnectionID p) < 2 ^ 15 }.

Definition seconds (p : TransportParameters) : Z := IdleTimeout p / 10 ^ 9.

Definition numeric_list (p : TransportParameters) : list (Z * Z) :=
  [(initialMaxStreamDataBidiLocalParameterID, InitialMaxStreamDataBidiLocal p);
   (initialMaxStreamDataBidiRemoteParameterID, InitialMaxStreamDataBidiRemote p);
   (initialMaxStreamDataUniParameterID, InitialMaxStreamDataUni p);
   (initialMaxDataParameterID, InitialMaxData p);
   (initialMaxStreamsBidiParameterID, MaxBidiStreams p);
   (initialMaxStreamsUniParameterID, MaxUniStreams p);
   (idleTimeoutParameterID, seconds p);
   (maxPacketSizeParameterID, MaxReceivePacketSize)].

Definition other_list (p : TransportParameters) : list (Z * list Z) :=
  (if DisableMigration p then [(disableMigrationParameterID, [])] else [])
  ++ (if 0 <? len (StatelessResetToken p) then [(statelessResetTokenParameterID, StatelessResetToken p)] else [])
  ++ (if 0 <? len (OriginalConnectionID p) then [(originalConnectionIDParameterID, OriginalConnectionID p)] else []).

Definition parameter_list (p : TransportParameters) : list (Z * list Z) :=
  ((fun iv => (iv.1, varint_bytes iv.2)) <$> numeric_list p) ++ other_list p.

Lemma seconds_range p : 0 <= IdleTimeout p < 2 ^ 63 -> 0 <= seconds p < 2 ^ 34.
Proof. intros H. unfold seconds. split; [apply Z.div_pos; lia | apply Z.div_lt_upper_bound; lia]. Qed.

Lemma numeric_list_ok p : tp_ok p -> Forall (fun iv => numeric_parameter iv.1 = true /\ is_varint iv.2
  /\ (iv.1 = maxPacketSizeParameterID -> 1200 <= iv.2)) (numeric_list p).
Proof.
  intros []. pose proof (seconds_range p ltac:(done)).
  repeat constructor; try done; cbn [fst snd] in *; unfold is_varint, maxVarInt8 in *; try lia; by intros.
Qed.

Lemma wire_app l k : wire (l ++ k) = wire l ++ wire k.
Proof. unfold wire. by rewrite fmap_app, concat_app. Qed.

Lemma write_numeric_bytes id v : is_varint v -> write_numeric id v = Ok (param_bytes id (varint_bytes v)).
Proof.
  intros Hv. unfold write_numeric, param_bytes. rewrite VarIntLen_vlen, WriteVarInt_bytes by done.
  cbn [mbind outcome_bind]. rewrite !WriteUint16_bytes. cbn [wseq mbind outcome_bind].
  pose proof (vlen_range v). rewrite u16_small by (unfold is_u16; lia). by rewrite <- len_varint_bytes by done.
Qed.

Lemma marshal_wire p : tp_ok p -> marshal p = Ok (wire (parameter_list p)).
Proof.
  intros Hp. pose proof (numeric_list_ok p Hp) as Hn. unfold numeric_list in Hn.
  repeat rewrite Forall_cons in Hn. cbn [fst snd] in Hn. destruct Hp as [_ _ _ _ _ _ Hi Ht Ho].
  pose proof (seconds_range p Hi) as Hs.
  assert (Eq : u64 (Z.quot (IdleTimeout p) (10 ^ 9)) = seconds p).
  { unfold seconds in *. rewrite Z.quot_div_nonneg by lia. apply u64_small. unfold is_u64. lia. }
  unfold marshal. rewrite Eq, !write_numeric_bytes by apply Hn.
  assert (E1 : (if DisableMigration p then WriteUint16 disableMigrationParameterID +w+ WriteUint16 0 else Ok [])
    = Ok (wire (if DisableMigration p then [(disableMigrationParameterID, [])] else []))) by (by destruct (DisableMigration p)).
  assert (E2 : forall id l, is_u16 (len l) -> (if 0 <? len l then WriteUint16 id +w+ (WriteUint16 (u16 (len l)) +w+ Ok l) else Ok [])
    = Ok (wire (if 0 <? len l then [(id, l)] else []))).
  { intros id l Hl. destruct (0 <? len l); [| done]. rewrite (u16_small (len l)) by done. unfold wire. cbn.
    by rewrite app_nil_r. }
  rewrite E1, !E2.
  - unfold parameter_list, other_list. rewrite !wire_app. unfold wire at 4. cbn -[param_bytes wire].
    by rewrite <- !app_assoc, app_nil_l.
  - pose proof (len_nonneg (OriginalConnectionID p)). unfold is_u16. lia.
  - destruct Ht as [-> | [_ ->]]; by vm_compute.
Qed.

Lemma read_numeric sentBy p id v rest : numeric_parameter id = true -> is_varint v ->
  (id = maxPacketSizeParameterID -> 1200 <= v) ->
  read_parameter sentBy p id (len (varint_bytes v)) (varint_bytes v ++ rest) = Ok (set_numeric p id v, rest).
Proof.
  intros Hid Hv Hm. unfold read_parameter. rewrite Hid. unfold readNumericTransportParameter. rewrite Len_step.
  erewrite reader_bind_step by (by rewrite ReadVarInt_bytes). rewrite Len_step.
  rewrite len_app. replace (len (varint_bytes v) + len rest - len rest) with (len (varint_bytes v)) by lia.
  rewrite Z.eqb_refl. cbn [negb]. destruct (Z.eqb_spec id maxPacketSizeParameterID) as [E |]; cbn [andb].
  - specialize (Hm E). destruct (Z.ltb_spec v 1200); [lia |]. by rewrite Hid.
  - by rewrite Hid.
Qed.

Lemma numeric_u16 id : numeric_parameter id = true -> is_u16 id.
Proof. unfold numeric_parameter. rewrite !orb_true_iff, !Z.eqb_eq. intros H. destruct_or! H; subst id; by vm_compute. Qed.

Lemma reads_numeric sentBy l : forall p, Forall (fun iv => numeric_parameter iv.1 = true /\ is_varint iv.2
    /\ (iv.1 = maxPacketSizeParameterID -> 1200 <= iv.2)) l ->
  reads sentBy p ((fun iv => (iv.1, varint_bytes iv.2)) <$> l) (foldl (fun p iv => set_numeric p iv.1 iv.2) p l).
Proof.
  induction l as [| [id v] l IH]; intros p Hl; [constructor |].
  apply Forall_cons in Hl as [(H1 & H2 & H3) Hl]. cbn [fst snd] in *. rewrite fmap_cons. cbn [foldl fst snd].
  econstructor; [by apply numeric_u16 | | intros rest; by apply read_numeric | by apply IH].
  rewrite len_varint_bytes by done. pose proof (vlen_range v). unfold is_u16. lia.
Qed.

(** Who sends which parameters. *)
Definition sent_by (sentBy : Perspective) (p : TransportParameters) : Prop :=
  sentBy = PerspectiveClient -> StatelessResetToken p = [] /\ OriginalConnectionID p = [].

Lemma reads_token sentBy p token : sentBy = PerspectiveServer -> bytes token -> len token = 16 ->
  reads sentBy p [(statelessResetTokenParameterID, token)] (set_StatelessResetToken p token).
Proof.
  intros -> Hb Hl. econstructor; [by vm_compute | rewrite Hl; by vm_compute | | constructor].
  intros rest. unfold read_parameter. cbn -[Len ReadFull Z.ltb]. rewrite Len_step.
  destruct (Z.ltb_spec (len (token ++ rest)) (len token)).
  { rewrite len_app in *. pose proof (len_nonneg rest). lia. }
  rewrite Hl. exact (ReadFull_step (fun b => mret (set_StatelessResetToken p b)) token rest 16 (eq_sym Hl)).
Qed.

Lemma reads_orig sentBy p id : sentBy = PerspectiveServer -> bytes id -> len id < 2 ^ 15 ->
  reads sentBy p [(originalConnectionIDParameterID, id)] (set_OriginalConnectionID p id).
Proof.
  intros -> Hb Hl. pose proof (len_nonneg id).
  econstructor; [by vm_compute | unfold is_u16; lia | | constructor].
  intros rest. unfold read_parameter. cbn -[Len ReadConnectionID Z.ltb]. rewrite Len_step.
  destruct (Z.ltb_spec (len (id ++ rest)) (len id)).
  { rewrite len_app in *. pose proof (len_nonneg rest). lia. }
  exact (ReadConnectionID_step (fun i => mret (set_OriginalConnectionID p i)) id rest).
Qed.

(** The parameters as the peer gets them. *)
Definition received_params (p : TransportParameters) : TransportParameters :=
  mkTP (InitialMaxStreamDataBidiLocal p) (InitialMaxStreamDataBidiRemote p) (InitialMaxStreamDataUni p) (InitialMaxData p)
    MaxReceivePacketSize (MaxUniStreams p) (MaxBidiStreams p) (MaxDuration MinRemoteIdleTimeout (seconds p * 10 ^ 9))
    (DisableMigration p) (StatelessResetToken p) (OriginalConnectionID p).

Lemma reads_parameters sentBy p : tp_ok p -> sent_by sentBy p ->
  reads sentBy no_parameters (parameter_list p) (received_params p).
Proof.
  intros Hp Hsent. eapply reads_app; [apply reads_numeric; by apply numeric_list_ok |].
  assert (Enum : foldl (fun q iv => set_numeric q iv.1 iv.2) no_parameters (numeric_list p)
    = mkTP (InitialMaxStreamDataBidiLocal p) (InitialMaxStreamDataBidiRemote p) (InitialMaxStreamDataUni p)
        (InitialMaxData p) MaxReceivePacketSize (MaxUniStreams p) (MaxBidiStreams p)
        (MaxDuration MinRemoteIdleTimeout (seconds p * 10 ^ 9)) false [] []).
  { assert (Ei : i64 (seconds p * 10 ^ 9) = seconds p * 10 ^ 9).
    { pose proof (tp_idle p Hp). pose proof (seconds_range p ltac:(done)). apply i64_small.
      assert (seconds p * 10 ^ 9 <= IdleTimeout p) by (unfold seconds; rewrite Z.mul_comm; apply Z.mul_div_le; lia). lia. }
    rewrite <- Ei. reflexivity. }
  rewrite Enum. destruct Hp as [_ _ _ _ _ _ _ Ht [Ho1 Ho2]]. unfold other_list, received_params.
  set (q0 := mkTP _ _ _ _ _ _ _ _ false [] []).
  eapply (reads_app _ _ _ (if DisableMigration p then set_DisableMigration q0 else q0)).
  { destruct (DisableMigration p); [| constructor]. econstructor; [by vm_compute | by vm_compute | | constructor].
    intros rest. unfold read_parameter. cbn -[Len Z.ltb]. rewrite Len_step. change (len []) with 0.
    destruct (Z.ltb_spec (len rest) 0); [pose proof (len_nonneg rest); lia |]. done. }
  destruct Ht as [Et | [Hb Hl]].
  - rewrite Et. cbn [app]. destruct (Z.ltb_spec 0 (len (OriginalConnectionID p))) as [Hpos | Hz].
    + assert (Hs : sentBy = PerspectiveServer).
      { destruct sentBy; [done |]. destruct (Hsent eq_refl) as [_ E]. exfalso; rewrite E in Hpos; by vm_compute in Hpos. }
      replace (mkTP _ _ _ _ _ _ _ _ _ _ _)
        with (set_OriginalConnectionID (if DisableMigration p then set_DisableMigration q0 else q0) (OriginalConnectionID p))
        by (by destruct (DisableMigration p)).
      by apply reads_orig.
    + assert (E : OriginalConnectionID p = []) by (apply len_zero; pose proof (len_nonneg (OriginalConnectionID p)); lia).
      rewrite E. destruct (DisableMigration p); constructor.
  - assert (Hs : sentBy = PerspectiveServer).
    { destruct sentBy; [done |]. destruct (Hsent eq_refl) as [E _]. rewrite E in Hl. done. }
    rewrite Hl. change (0 <? 16) with true. cbv iota.
    eapply reads_app; [by apply reads_token |].
    destruct (Z.ltb_spec 0 (len (OriginalConnectionID p))) as [Hpos | Hz].
    + replace (mkTP _ _ _ _ _ _ _ _ _ _ _) with (set_OriginalConnectionID (set_StatelessResetToken
        (if DisableMigration p then set_DisableMigration q0 else q0) (StatelessResetToken p)) (OriginalConnectionID p))
        by (by destruct (DisableMigration p)).
      by apply reads_orig.
    + assert (E : OriginalConnectionID p = []) by (apply len_zero; pose proof (len_nonneg (OriginalConnectionID p)); lia).
      rewrite E. destruct (DisableMigration p); constructor.
Qed.

(** ** Lemmas: the extensions *)

Lemma parameter_ids_NoDup p : NoDup (parameter_list p).*1.
Proof.
  unfold parameter_list, other_list. rewrite !fmap_app.
  apply (bool_decide_unpack _). destruct (DisableMigration p), (0 <? len _), (0 <? len _); by vm_compute.
Qed.

Lemma len_wire_numeric l : Forall (fun iv => is_varint iv.2) l ->
  len (wire ((fun iv => (iv.1, varint_bytes iv.2)) <$> l)) <= 12 * Z.of_nat (length l).
Proof.
  induction 1 as [| [id v] l Hv _ IH]; [done |]. rewrite fmap_cons. unfold wire in *. rewrite fmap_cons. cbn [concat fst snd length] in *.
  rewrite len_app. unfold param_bytes at 1. rewrite !len_app, !len_u16_bytes, len_varint_bytes by done.
  pose proof (vlen_range v). lia.
Qed.

Lemma len_wire_parameters p : tp_ok p -> is_u16 (len (wire (parameter_list p))).
Proof.
  intros Hp. pose proof (len_nonneg (wire (parameter_list p))). unfold is_u16. split; [done |].
  unfold parameter_list, other_list. rewrite !wire_app, !len_app.
  assert (Hn : Forall (fun iv : Z * Z => is_varint iv.2) (numeric_list p))
    by (eapply Forall_impl; [by apply numeric_list_ok | by intros iv (_ & ? & _)]).
  pose proof (len_wire_numeric _ Hn) as Hl. change (Z.of_nat (length (numeric_list p))) with 8 in Hl.
  assert (Hopt : forall id l, len (wire (if 0 <? len l then [(id, l)] else [])) <= 4 + len l).
  { intros id l. pose proof (len_nonneg l). destruct (0 <? len l); [| change (len (wire [])) with 0; lia].
    unfold wire. rewrite fmap_cons. cbn [concat fst snd]. rewrite app_nil_r. unfold param_bytes. rewrite !len_app, !len_u16_bytes. lia. }
  pose proof (Hopt statelessResetTokenParameterID (StatelessResetToken p)).
  pose proof (Hopt originalConnectionIDParameterID (OriginalConnectionID p)).
  assert (len (wire (if DisableMigration p then [(disableMigrationParameterID, [])] else [])) <= 4)
    by (destruct (DisableMigration p); by vm_compute).
  assert (len (StatelessResetToken p) <= 16) by (destruct (tp_token p Hp) as [-> | [_ ->]]; by vm_compute).
  destruct (tp_orig p Hp) as [_ ?]. lia.
Qed.

Lemma with_length_read sentBy p : tp_ok p -> sent_by sentBy p ->
  exists bs, with_length p = Ok bs /\ 2 <= len bs /\ read_length sentBy no_parameters bs = Ok (received_params p).
Proof.
  intros Hp Hs. unfold with_length. rewrite marshal_wire by done. cbn [mbind outcome_bind].
  pose proof (len_wire_parameters p Hp) as Hl. rewrite u16_small by done.
  destruct (WriteUint16 (len (wire (parameter_list p)))) as [lb | |] eqn:E; try done.
  destruct (WriteUint16_read _ (wire (parameter_list p)) lb Hl E) as (Hr & Hlb & _).
  cbn [wseq mbind outcome_bind]. eexists. split; [done |]. split; [rewrite len_app, Hlb; unfold is_u16 in Hl; lia |].
  unfold read_length. rewrite Hr. cbn [mbind outcome_bind]. rewrite Z.eqb_refl. cbn [negb].
  apply unmarshal_wire; [by apply reads_parameters | apply parameter_ids_NoDup].
Qed.

Lemma ch_roundtrip v p : is_u32 v -> tp_ok p -> sent_by PerspectiveClient p ->
  exists bs, ch_Marshal (mkCHTP v p) = Ok bs
    /\ ch_Unmarshal (mkCHTP 0 no_parameters) bs = Ok (mkCHTP v (received_params p)).
Proof.
  intros Hv Hp Hs. destruct (with_length_read PerspectiveClient p Hp Hs) as (lb & El & Hlb & Hr).
  unfold ch_Marshal. cbn [InitialVersion ch_Parameters]. rewrite El.
  destruct (WriteUint32 v) as [vb | |] eqn:Ev; try done. destruct (WriteUint32_read v lb vb Hv Ev) as (Hvr & Hvl & _).
  cbn [wseq mbind outcome_bind]. eexists. split; [done |]. unfold ch_Unmarshal.
  rewrite (proj2 (Z.ltb_ge _ _)) by (rewrite len_app; lia). rewrite Hvr. cbn [mbind outcome_bind ch_Parameters].
  by rewrite Hr.
Qed.

Lemma take_versions_write vs rest : Forall is_u32 vs ->
  exists bs, write_versions vs = Ok bs /\ len bs = 4 * len vs /\ take_versions (length vs) (bs ++ rest) = Ok (vs, rest).
Proof.
  induction 1 as [| v vs Hv _ (bs & E & Hl & IH)]; [by exists [] |]. unfold write_versions. cbn [foldr]. fold (write_versions vs).
  rewrite (u32_small v) by done. destruct (WriteUint32 v) as [vb | |] eqn:Ev; try done.
  destruct (WriteUint32_read v (bs ++ rest) vb Hv Ev) as (Hvr & Hvl & _). rewrite E. cbn [wseq mbind outcome_bind].
  eexists. split; [done |]. rewrite len_app, len_cons, Hl. split; [lia |]. cbn [length take_versions].
  rewrite <- app_assoc, Hvr. cbn [mbind outcome_bind]. by rewrite IH.
Qed.

Lemma ee_roundtrip v vs p : is_u32 v -> Forall is_u32 vs -> len vs < 64 -> tp_ok p ->
  exists bs, ee_Marshal (mkEETP v vs p) = Ok bs
    /\ ee_Unmarshal (mkEETP 0 [] no_parameters) bs = Ok (mkEETP v vs (received_params p)).
Proof.
  intros Hv Hvs Hn Hp. destruct (with_length_read PerspectiveServer p Hp ltac:(done)) as (lb & El & Hlb & Hr).
  destruct (take_versions_write vs lb Hvs) as (nb & En & Hnl & Ht). pose proof (len_nonneg vs).
  unfold ee_Marshal. cbn [NegotiatedVersion ee_SupportedVersions ee_Parameters]. rewrite El, En.
  destruct (WriteUint32 v) as [vb | |] eqn:Ev; try done. rewrite u8_small by (unfold is_u8; lia).
  destruct (WriteUint32_read v ((4 * len vs) :: nb ++ lb) vb Hv Ev) as (Hvr & Hvl & _).
  cbn [wseq mbind outcome_bind app]. eexists. split; [done |]. unfold ee_Unmarshal.
  rewrite (proj2 (Z.ltb_ge _ _)) by (rewrite len_app, len_cons, len_app; lia). rewrite Hvr. cbn [mbind outcome_bind ReadByte].
  rewrite Z.mul_comm, Z.mod_mul by lia. cbn [Z.eqb negb]. rewrite Z.div_mul by lia.
  rewrite (proj2 (Z.ltb_ge _ _)) by (rewrite len_app; lia).
  replace (Z.to_nat (len vs)) with (length vs) by (unfold len; lia). rewrite Ht. cbn [mbind outcome_bind ee_Parameters].
  by rewrite Hr.
Qed.

(** ** Lemmas: arbitrary bytes *)

Record tp_inv (sentBy : Perspective) (p : TransportParameters) : Prop := {
  ti_bidi_local : is_varint (InitialMaxStreamDataBidiLocal p);
  ti_bidi_remote : is_varint (InitialMaxStreamDataBidiRemote p);
  ti_uni : is_varint (InitialMaxStreamDataUni p);
  ti_data : is_varint (InitialMaxData p);
  ti_uni_streams : is_varint (MaxUniStreams p);
  ti_bidi_streams : is_varint (MaxBidiStreams p);
  ti_size : MaxPacketSize p = 0 \/ 1200 <= MaxPacketSize p < 2 ^ 62;
  ti_idle : IdleTimeout p = 0 \/ MinRemoteIdleTimeout <= IdleTimeout p < 2 ^ 63;
  ti_token : StatelessResetToken p = [] \/ len (StatelessResetToken p) = 16;
  ti_client : sent_by sentBy p }.

Lemma set_numeric_inv sentBy p id v : tp_inv sentBy p -> is_varint v -> (id = maxPacketSizeParameterID -> 1200 <= v) ->
  tp_inv sentBy (set_numeric p id v).
Proof.
  intros [] Hv Hm. split; cbn; try (by destruct (_ =? _)); try done.
  - destruct (Z.eqb_spec id maxPacketSizeParameterID) as [E |]; [| done]. right. specialize (Hm E).
    unfold is_varint, maxVarInt8 in Hv. lia.
  - destruct (id =? idleTimeoutParameterID); [| done]. right. unfold MaxDuration, MinRemoteIdleTimeout.
    pose proof (i64_range (v * 10 ^ 9)) as [? ?]. case_cmp; lia.
Qed.

Lemma safe_wrapped {A} (m : reader A) P e : safe m P -> safe (fun r => match m r with Err _ => Err e | res => res end) P.
Proof. intros H r Hr. specialize (H r Hr). unfold safe_on in *. by destruct (m r) as [[a r'] | |]. Qed.

Lemma safe_read_parameter sentBy p id l : tp_inv sentBy p -> is_u16 l -> safe (read_parameter sentBy p id l) (tp_inv sentBy).
Proof.
  intros Hp [Hl _]. unfold read_parameter. destruct (numeric_parameter id).
  - unfold readNumericTransportParameter. eapply safe_bind; [apply safe_Len |]. intros n _.
    eapply safe_bind; [apply safe_wrapped, safe_ReadVarInt |]. intros v Hv.
    eapply safe_bind; [apply safe_Len |]. intros n' _. apply safe_if; [intros _; apply safe_fail | intros _].
    apply safe_if; [intros _; apply safe_fail | intros Hm]. apply safe_if; [intros _ | intros _; apply safe_fail].
    apply safe_ret, set_numeric_inv; [done | done |]. intros ->. rewrite Z.eqb_refl in Hm. cbn in Hm. lia.
  - eapply safe_bind; [apply safe_Len |]. intros n _. apply safe_if; [intros _; apply safe_fail | intros _].
    apply safe_if; intros _.
    { apply safe_if; intros _; [apply safe_fail |]. apply safe_ret. destruct Hp. by split. }
    apply safe_if; intros _.
    { apply safe_if; [intros _; apply safe_fail | intros Hs]. apply safe_if; [intros _; apply safe_fail | intros _].
      eapply safe_bind; [apply safe_ReadFull; lia |]. intros b [_ Hb]. apply safe_ret. destruct Hp.
      apply bool_decide_eq_false in Hs. split; try done. by right. }
    apply safe_if; intros _.
    { apply safe_if; [intros _; apply safe_fail | intros Hs]. eapply safe_bind; [by apply safe_ReadConnectionID |].
      intros b _. apply safe_ret. destruct Hp. apply bool_decide_eq_false in Hs. by split. }
    eapply safe_bind; [by apply safe_ReadFull |]. intros _ _. by apply safe_ret.
Qed.

Lemma read_parameters_safe sentBy : forall fuel p ids r, tp_inv sentBy p -> bytes r -> (length r <= fuel)%nat ->
  safe_on (fun x => tp_inv sentBy x.1) r (read_parameters fuel sentBy p ids r).
Proof.
  induction fuel as [| fuel IH]; intros p ids r Hp Hr Hf; cbn [read_parameters].
  - destruct r; [| cbn in Hf; lia]. cbn. split; done.
  - destruct (Z.ltb_spec (len r) 4); [by split |]. destruct r as [| a [| b r]]; [done | done |].
    assert (Hids : exists id, ReadUint16 (a :: b :: r) = Ok (id, r)) by (eexists; reflexivity). destruct Hids as [id Eid].
    erewrite reader_bind_step by exact Eid.
    assert (Hr' : bytes r) by (by apply (bytes_suffix (a :: b :: r)); [exists [a; b] |]).
    assert (H1 : safe_on (fun x => tp_inv sentBy x.1) r ((paramLen ← ReadUint16;
      p ← read_parameter sentBy p id paramLen; read_parameters fuel sentBy p (ids ++ [id])) r)).
    { eapply safe_on_bind; [done | by apply safe_ReadUint16 |]. intros l r1 Hl Hs1 Hr1.
      eapply safe_on_bind; [done | by apply safe_read_parameter |]. intros q r2 Hq Hs2 Hr2.
      apply IH; [done | done |]. apply suffix_length in Hs1, Hs2. cbn in Hf. lia. }
    match type of H1 with safe_on _ _ ?o => destruct o as [[x r'] | |] end; [| done | done]. destruct H1 as [H1 H2].
    split; [done |]. by apply suffix_cons_r, suffix_cons_r.
Qed.

(** ** Theorems *)

(** A ClientHello at the server. *)
Lemma client_hello_received hc hs :
  tp_ok (ec_ourParams hc) -> sent_by PerspectiveClient (ec_ourParams hc) -> is_u32 (ec_initialVersion hc) ->
  exists exts, ec_GetExtensions hc typeClientHello = Ok exts
    /\ es_ReceivedExtensions hs typeClientHello exts
       = if negb (ec_initialVersion hc =? es_version hs) && IsSupportedVersion (es_supportedVersions hs) (ec_initialVersion hc)
         then Err (QuicError VersionNegotiationMismatch (Msg "Client should have used the initial version" []))
         else Ok (Some (received_params (ec_ourParams hc))).
Proof.
  intros Hc Hcs Hiv. destruct (ch_roundtrip (ec_initialVersion hc) (ec_ourParams hc) Hiv Hc Hcs) as (bs & E1 & E2).
  unfold ec_GetExtensions. change (negb (typeClientHello =? typeClientHello)) with false. cbv iota. rewrite E1.
  cbn [mbind outcome_bind]. eexists. split; [done |]. unfold es_ReceivedExtensions.
  change (negb (typeClientHello =? typeClientHello)) with false. cbv iota. cbn [find_extension Ext_Type Ext_Data].
  rewrite Z.eqb_refl. cbn [negb]. rewrite E2. cbn [mbind outcome_bind negb InitialVersion ch_Parameters]. done.
Qed.

(** EncryptedExtensions at the client: when they are accepted. *)
Lemma encrypted_extensions_received hc hs posByte rnd : tp_ok (es_ourParams hs) -> is_u32 (es_version hs) ->
  let versions := GetGreasedVersions posByte rnd (es_supportedVersions hs) in
  Forall is_u32 versions -> len versions < 64 ->
  exists exts, es_GetExtensions posByte rnd hs typeEncryptedExtensions = Ok exts
    /\ forall ps, ec_ReceivedExtensions hc typeEncryptedExtensions exts = Ok (Some ps)
        <-> ps = received_params (es_ourParams hs) /\ es_version hs = ec_version hc /\ In (ec_version hc) versions
            /\ (ec_version hc <> ec_initialVersion hc ->
                ChooseSupportedVersion (ec_supportedVersions hc) versions = (ec_version hc, true))
            /\ StatelessResetToken (es_ourParams hs) <> []
            /\ OriginalConnectionID (es_ourParams hs) = ec_origConnID hc.
Proof.
  intros Hs Hv versions Hvs Hn. destruct (ee_roundtrip (es_version hs) versions (es_ourParams hs) Hv Hvs Hn Hs) as (bs & E1 & E2).
  unfold es_GetExtensions. change (negb (typeEncryptedExtensions =? typeEncryptedExtensions)) with false. cbv iota.
  fold versions. rewrite E1. cbn [mbind outcome_bind]. eexists. split; [done |]. intros ps. unfold ec_ReceivedExtensions.
  change (negb (typeEncryptedExtensions =? typeEncryptedExtensions)) with false. cbv iota.
  cbn [find_extension Ext_Type Ext_Data]. rewrite Z.eqb_refl. cbn [negb]. rewrite E2.
  cbn [mbind outcome_bind ee_SupportedVersions]. clear E1 E2 bs. rewrite <- IsSupportedVersion_In.
  destruct (ChooseSupportedVersion (ec_supportedVersions hc) versions) as [nv ok].
  cbn [negb NegotiatedVersion ee_SupportedVersions ee_Parameters].
  set (q := received_params (es_ourParams hs)).
  change (StatelessResetToken (es_ourParams hs)) with (StatelessResetToken q).
  change (OriginalConnectionID (es_ourParams hs)) with (OriginalConnectionID q). clearbody q.
  destruct (Z.eqb_spec (es_version hs) (ec_version hc)) as [-> |]; cbn [negb]; [| naive_solver].
  destruct (IsSupportedVersion versions (ec_version hc)); cbn [negb]; [| naive_solver].
  assert (Ht : len (StatelessResetToken q) = 0 <-> StatelessResetToken q = []) by (split; [apply len_zero | by intros ->]).
  destruct (Z.eqb_spec (ec_version hc) (ec_initialVersion hc)) as [Ei | Ei]; cbn [negb andb].
  - destruct (Z.eqb_spec (len (StatelessResetToken q)) 0); [naive_solver |]. case_bool_decide; cbn [negb]; naive_solver.
  - destruct ok; cbn [negb orb]; [| naive_solver]. destruct (Z.eqb_spec (ec_version hc) nv) as [-> |]; cbn [negb]; [| naive_solver].
    destruct (Z.eqb_spec (len (StatelessResetToken q)) 0); [naive_solver |]. case_bool_decide; cbn [negb]; naive_solver.
Qed.

(** A reserved version in the list makes no difference for other versions. *)
Lemma supported_greased posByte rnd l v : is_greased v = false ->
  IsSupportedVersion (GetGreasedVersions posByte rnd l) v = IsSupportedVersion l v.
Proof.
  intros Hg. apply Bool.eq_iff_eq_true. rewrite !IsSupportedVersion_In. unfold GetGreasedVersions.
  set (n := _ mod _). rewrite in_app_iff. cbn [In]. rewrite <- (take_drop_z n l) at 3. rewrite in_app_iff.
  split; [| tauto]. intros [? | [<- | ?]]; [tauto | | tauto]. by rewrite generateReservedVersion_greased in Hg.
Qed.

Lemma choose_greased posByte rnd ours theirs : Forall (fun v => is_greased v = false) ours ->
  ChooseSupportedVersion ours (GetGreasedVersions posByte rnd theirs) = ChooseSupportedVersion ours theirs.
Proof. induction 1 as [| v ours Hv _ IH]; [done |]. cbn. by rewrite supported_greased, IH. Qed.

(** Transport parameters arrive: what one handler puts into its extension
    the handler of the peer reads back, with the idle timeout in seconds (at
    least five) and the packet size we can receive.  The server rejects the
    extension exactly if it supports the version the client offered first; the
    client rejects it for another version, for a choice of version it would not
    have made, without a reset token, and for a wrong original connection ID. *)
Theorem extensions_roundtrip hc hs posByte rnd :
  tp_ok (ec_ourParams hc) -> sent_by PerspectiveClient (ec_ourParams hc) -> is_u32 (ec_initialVersion hc) ->
  tp_ok (es_ourParams hs) -> is_u32 (es_version hs) ->
  let versions := GetGreasedVersions posByte rnd (es_supportedVersions hs) in
  Forall is_u32 versions -> len versions < 64 ->
  (exists exts, ec_GetExtensions hc typeClientHello = Ok exts
    /\ es_ReceivedExtensions hs typeClientHello exts
       = if negb (ec_initialVersion hc =? es_version hs) && IsSupportedVersion (es_supportedVersions hs) (ec_initialVersion hc)
         then Err (QuicError VersionNegotiationMismatch (Msg "Client should have used the initial version" []))
         else Ok (Some (received_params (ec_ourParams hc))))
  /\ exists exts, es_GetExtensions posByte rnd hs typeEncryptedExtensions = Ok exts
    /\ (ec_ReceivedExtensions hc typeEncryptedExtensions exts = Ok (Some (received_params (es_ourParams hs)))
        <-> es_version hs = ec_version hc /\ In (ec_version hc) versions
            /\ (ec_version hc <> ec_initialVersion hc ->
                ChooseSupportedVersion (ec_supportedVersions hc) versions = (ec_version hc, true))
            /\ StatelessResetToken (es_ourParams hs) <> []
            /\ OriginalConnectionID (es_ourParams hs) = ec_origConnID hc).
Proof.
  intros Hc Hcs Hiv Hs Hv versions Hvs Hn. split; [by apply client_hello_received |].
  destruct (encrypted_extensions_received hc hs posByte rnd Hs Hv Hvs Hn) as (exts & E & H). exists exts.
  split; [done |]. rewrite H. naive_solver.
Qed.

(** A forged version negotiation is detected: if the handshake succeeds on
    both sides after the client has changed its version, then the server does
    not support the version that was offered first, and the new version is the
    one the client prefers of those the server supports. *)
Theorem version_downgrade_detected hc hs posByte rnd cexts sexts pc ps :
  tp_ok (ec_ourParams hc) -> sent_by PerspectiveClient (ec_ourParams hc) -> is_u32 (ec_initialVersion hc) ->
  tp_ok (es_ourParams hs) -> is_u32 (es_version hs) ->
  Forall is_u32 (GetGreasedVersions posByte rnd (es_supportedVersions hs)) ->
  len (GetGreasedVersions posByte rnd (es_supportedVersions hs)) < 64 ->
  Forall (fun v => is_greased v = false) (ec_supportedVersions hc) ->
  ec_GetExtensions hc typeClientHello = Ok cexts -> es_ReceivedExtensions hs typeClientHello cexts = Ok (Some pc) ->
  es_GetExtensions posByte rnd hs typeEncryptedExtensions = Ok sexts ->
  ec_ReceivedExtensions hc typeEncryptedExtensions sexts = Ok (Some ps) ->
  ec_version hc <> ec_initialVersion hc ->
  es_version hs = ec_version hc /\ ~ In (ec_initialVersion hc) (es_supportedVersions hs)
  /\ ChooseSupportedVersion (ec_supportedVersions hc) (es_supportedVersions hs) = (ec_version hc, true).
Proof.
  intros Hc Hcs Hiv Hs Hv Hvs Hn Hg Gc Rc Gs Rs Hne.
  destruct (client_hello_received hc hs Hc Hcs Hiv) as (exts & E & H). rewrite Gc in E. injection E as <-. rewrite Rc in H.
  destruct (encrypted_extensions_received hc hs posByte rnd Hs Hv Hvs Hn) as (exts' & E' & H'). rewrite Gs in E'. injection E' as <-.
  apply H' in Rs as (_ & Hver & _ & Hch & _). specialize (Hch Hne). rewrite choose_greased in Hch by done.
  split_and!; [done | | done]. rewrite <- IsSupportedVersion_In. intros Hin. rewrite Hin, andb_true_r in H.
  destruct (Z.eqb_spec (ec_initialVersion hc) (es_version hs)); [congruence | done].
Qed.

(** C40. Parameters from arbitrary bytes: unmarshalling does not panic; it fails,
    or gives parameters in their ranges, of which a client sends no reset token
    and no original connection ID, and none of which was sent twice. *)
Theorem unmarshal_sound sentBy data : bytes data ->
  match unmarshal sentBy no_parameters data with
  | Ok p => tp_inv sentBy p
      /\ exists ids r, read_parameters (length data) sentBy no_parameters [] data = Ok ((p, ids), r) /\ NoDup ids /\ r = []
  | Err _ => True
  | Panic _ => False
  end.
Proof.
  intros Hd. assert (H0 : tp_inv sentBy no_parameters) by (split; try (by left); try (by vm_compute); by intros).
  pose proof (read_parameters_safe sentBy (length data) no_parameters [] data H0 Hd (le_n _)) as H.
  unfold unmarshal. destruct (read_parameters _ _ _ _ _) as [[[p ids] r] | |]; cbn [mbind outcome_bind]; [| done | done].
  destruct (equal_neighbours (merge_sort Z.le ids)) eqn:En; [done |]. apply no_duplicates in En.
  destruct (Z.eqb_spec (len r) 0) as [Hr |]; cbn [negb]; [| done]. destruct H as [H _]. split; [done |].
  apply len_zero in Hr. eauto 10.
Qed.

(** ** An example *)

Definition sample_client_params : TransportParameters := mkTP 1000 1000 1000 5000 0 3 7 (30 * 10 ^ 9) true [] [].
Definition sample_server_params : TransportParameters :=
  mkTP 1000 1000 1000 5000 0 3 7 (30 * 10 ^ 9) true (replicate 16 42) [1; 2; 3; 4].

(** The client has offered version 7 first. *)
Definition sample_ec : extensionHandlerClient := mkExtClient sample_client_params [1; 2; 3; 4] 7 [7; VersionTLS] VersionTLS.
Definition sample_es : extensionHandlerServer := mkExtServer sample_server_params VersionTLS [VersionTLS].

Lemma sample_client_ok : tp_ok sample_client_params.
Proof. split; try (by vm_compute). by left. Qed.
Lemma sample_server_ok : tp_ok sample_server_params.
Proof. split; try (by vm_compute); [right | split; [solve_bytes | by vm_compute]]. split; [solve_bytes | by vm_compute]. Qed.

Lemma extensions_roundtrip_witness : exists exts, ec_GetExtensions sample_ec typeClientHello = Ok exts
  /\ es_ReceivedExtensions sample_es typeClientHello exts = Ok (Some (received_params sample_client_params)).
Proof.
  destruct (extensions_roundtrip sample_ec sample_es 1 5 sample_client_ok ltac:(done) ltac:(by vm_compute) sample_server_ok
    ltac:(by vm_compute)) as [H _].
  - repeat constructor; by vm_compute.
  - by vm_compute.
  - exact H.
Defined.

Lemma version_downgrade_detected_witness : ~ In 7 (es_supportedVersions sample_es)
  /\ ChooseSupportedVersion (ec_supportedVersions sample_ec) (es_supportedVersions sample_es) = (VersionTLS, true).
Proof.
  destruct (version_downgrade_detected sample_ec sample_es 1 5
    (default [] (match ec_GetExtensions sample_ec typeClientHello with Ok x => Some x | _ => None end))
    (default [] (match es_GetExtensions 1 5 sample_es typeEncryptedExtensions with Ok x => Some x | _ => None end))
    (received_params sample_client_params) (received_params sample_server_params)
    sample_client_ok ltac:(done) ltac:(by vm_compute) sample_server_ok ltac:(by vm_compute)) as (_ & H1 & H2).
  - repeat constructor; by vm_compute.
  - by vm_compute.
  - by repeat constructor.
  - vm_compute. reflexivity.
  - vm_compute. reflexivity.
  - vm_compute. reflexivity.
  - vm_compute. reflexivity.
  - by vm_compute.
  - split; [exact H1 | exact H2].
Defined.

Lemma unmarshal_sound_witness :
  match unmarshal PerspectiveClient no_parameters [0; 3; 0; 2; 0x45; 0xac] with
  | Ok p => tp_inv PerspectiveClient p
  | Err _ => True
  | Panic _ => False
  end.
Proof.
  pose proof (unmarshal_sound PerspectiveClient [0; 3; 0; 2; 0x45; 0xac] ltac:(solve_bytes)) as H.
  destruct (unmarshal _ _ _); [apply H | exact I | exact H].
Defined.
