(* ===== verification/Endpoints.v ===== *)
(** * Clients and servers (client.go, server.go, server_session.go)

    What an endpoint does with packets outside a session: a client follows
    version negotiation and Retry packets by closing its session and starting
    again; a server answers with version negotiation or Retry packets, or starts
    a session for a client that has shown a token.  Tokens and the text form of IP
    addresses are parameters here; Cookies models them.
    Sockets, TLS configuration and the sessions themselves are not modelled here. *)

From S2P Require Import Prelude Qerr Varint Protocol AckFrame Frames FrameCodec FrameParser FrameSorter.
From S2P Require Import Header Float FlowControl SentHistory SendStream ReceiveStream CryptoStream Framer Packer Receiving.

(** ** Configuration *)

Definition DefaultHandshakeTimeout : Z := 10 * 10 ^ 9.
Definition DefaultIdleTimeout : Z := 30 * 10 ^ 9.
Definition DefaultMaxReceiveStreamFlowControlWindow : Z := 18 * 2 ^ 20.
Definition DefaultMaxReceiveConnectionFlowControlWindow : Z := 45 * 2 ^ 20.
Definition DefaultMaxIncomingStreams : Z := 100.
Definition DefaultMaxIncomingUniStreams : Z := 100.
Definition DefaultConnectionIDLength : Z := 4.
Definition InitialMaxStreamData : Z := 2 ^ 10 * 512.
(** [protocol.InitialMaxData], 1.5 times the window of a stream. *)
Definition initialMaxData : Z := 3 * InitialMaxStreamData / 2.

(** [quic.Config], without the callback for cookies. *)
Record Config : Type := mkConfig {
  Config_Versions : list Z;
  ConnectionIDLength : Z;
  HandshakeTimeout : Z;
  Config_IdleTimeout : Z;
  MaxReceiveStreamFlowControlWindow : Z;
  MaxReceiveConnectionFlowControlWindow : Z;
  MaxIncomingStreams : Z;
  MaxIncomingUniStreams : Z;
  KeepAlive : bool }.

Definition no_config : Config := mkConfig [] 0 0 0 0 0 0 0 false.

Definition or_default (x d : Z) : Z := if x =? 0 then d else x.
Definition stream_limit (x d : Z) : Z := if x =? 0 then d else if x <? 0 then 0 else x.

Definition populate (connIDLen : Z) (config : Config) : Config :=
  mkConfig (match Config_Versions config with [] => SupportedVersions | vs => vs end) connIDLen
    (or_default (HandshakeTimeout config) DefaultHandshakeTimeout)
    (or_default (Config_IdleTimeout config) DefaultIdleTimeout)
    (or_default (MaxReceiveStreamFlowControlWindow config) DefaultMaxReceiveStreamFlowControlWindow)
    (or_default (MaxReceiveConnectionFlowControlWindow config) DefaultMaxReceiveConnectionFlowControlWindow)
    (stream_limit (MaxIncomingStreams config) DefaultMaxIncomingStreams)
    (stream_limit (MaxIncomingUniStreams config) DefaultMaxIncomingUniStreams)
    (KeepAlive config).

(** A client does not use the configured length. *)
Definition populateClientConfig (config : option Config) (createdPacketConn : bool) : Config :=
  populate DefaultConnectionIDLength (default no_config config).

Definition populateServerConfig (config : option Config) : Config :=
  let config := default no_config config in
  populate (or_default (ConnectionIDLength config) DefaultConnectionIDLength) config.

(** ** client.go *)

(** What a session of a client is created with. *)
Record session_args : Type := mkSessionArgs {
  sa_token : list Z;
  sa_origDestConnID : list Z;
  sa_destConnID : list Z;
  sa_srcConnID : list Z;
  sa_initialVersion : Z;
  sa_version : Z }.

Record client : Type := mkClient {
  c_token : list Z;
  versionNegotiated : bool;
  receivedVersionNegotiationPacket : bool;
  negotiatedVersions : list Z;
  c_Versions : list Z;
  c_srcConnID : list Z;
  c_destConnID : list Z;
  c_origDestConnID : list Z;
  c_initialVersion : Z;
  c_version : Z }.

Inductive close_reason : Type := CloseForNewVersion | CloseForRetry | CloseWithError (e : go_error).

(** Calls of the session. *)
Inductive session_call : Type := Destroy (e : close_reason) | Handle (hdr : Header) (data : list Z).

(** The two connection IDs are random. *)
Definition newClient (versions : list Z) (ids : list Z * list Z) : outcome client :=
  match versions with
  | [] => Panic "index out of range"
  | v :: _ =>
      if forallb IsValidVersion versions then Ok (mkClient [] false false [] versions ids.1 ids.2 [] 0 v)
      else Err (Errorf "%s is not a valid QUIC version" [])
  end.

Definition generateConnectionIDs (c : client) (ids : outcome (list Z * list Z)) : outcome client :=
  '(src, dest) ← ids;
  Ok (mkClient (c_token c) (versionNegotiated c) (receivedVersionNegotiationPacket c) (negotiatedVersions c) (c_Versions c)
        src dest (c_origDestConnID c) (c_initialVersion c) (c_version c)).

(** The error, the calls of the session, and the client. *)
Definition handleVersionNegotiationPacket (ids : outcome (list Z * list Z)) (c : client) (hdr : Header)
    : option go_error * list session_call * client :=
  if receivedVersionNegotiationPacket c || versionNegotiated c then (None, [], c)
  else if IsSupportedVersion (Header_SupportedVersions hdr) (c_version c) then (None, [], c)
  else
    match ChooseSupportedVersion (c_Versions c) (Header_SupportedVersions hdr) with
    | (_, false) => (Some (ErrorCode InvalidVersion), [], c)
    | (newVersion, true) =>
        let c := mkClient (c_token c) (versionNegotiated c) true (Header_SupportedVersions hdr) (c_Versions c)
                   (c_srcConnID c) (c_destConnID c) (c_origDestConnID c) (c_version c) newVersion in
        match generateConnectionIDs c ids with
        | Ok c => (None, [Destroy CloseForNewVersion], c)
        | Err e => (Some e, [], c)
        | Panic s => (Some (Errorf s []), [], c)
        end
    end.

Definition handleRetryPacket (c : client) (hdr : Header) : list session_call * client :=
  if negb (bool_decide (OrigDestConnectionID hdr = c_destConnID c)) then ([], c)
  else if bool_decide (SrcConnectionID hdr = c_destConnID c) then ([], c)
  else if 0 <? len (c_token c) then ([], c)
  else ([Destroy CloseForRetry],
        mkClient (Header_Token hdr) (versionNegotiated c) (receivedVersionNegotiationPacket c) (negotiatedVersions c)
          (c_Versions c) (c_srcConnID c) (SrcConnectionID hdr) (c_destConnID c) (c_initialVersion c) (c_version c)).

Definition client_handlePacketImpl (ids : outcome (list Z * list Z)) (c : client) (hdr : Header) (data : list Z)
    : option go_error * list session_call * client :=
  if IsVersionNegotiation hdr then
    match handleVersionNegotiationPacket ids c hdr with
    | (Some e, calls, c) => (Some e, calls ++ [Destroy (CloseWithError e)], c)
    | res => res
    end
  else if negb (bool_decide (DestConnectionID hdr = c_srcConnID c)) then
    (Some (Errorf "received a packet with an unexpected connection ID (%s, expected %s)" (DestConnectionID hdr)), [], c)
  else if Header_Type hdr =? PacketTypeRetry then
    let '(calls, c) := handleRetryPacket c hdr in (None, calls, c)
  else
    (None, [Handle hdr data],
     mkClient (c_token c) true (receivedVersionNegotiationPacket c) (negotiatedVersions c) (c_Versions c) (c_srcConnID c)
       (c_destConnID c) (c_origDestConnID c) (c_initialVersion c) (c_version c)).

(** The arguments of the new session; the client is added to the handler map. *)
Definition createNewTLSSession (c : client) : session_args :=
  mkSessionArgs (c_token c) (c_origDestConnID c) (c_destConnID c) (c_srcConnID c) (c_initialVersion c) (c_version c).

(** ** server_session.go *)

(** Whether a packet is passed to the session of version [v]. *)
Definition serverSession_handlePacketImpl (v : Z) (hdr : Header) : outcome bool :=
  if IsLongHeader hdr && negb (Header_Version hdr =? v) then Ok false
  else if IsLongHeader hdr && negb ((Header_Type hdr =? PacketTypeInitial) || (Header_Type hdr =? PacketTypeHandshake)) then
    Err (Errorf "Received unsupported packet type: %s" [Header_Type hdr])
  else Ok true.

(** ** server.go *)

Record Cookie : Type := mkCookie { Cookie_RemoteAddr : list Z; OriginalDestConnectionID : list Z; SentTime : Z }.

Definition CookieExpiryTime : Z := 24 * 3600 * 10 ^ 9.

Section Server.
(** [IP.String] and the cookie generator, of which [DecodeToken] is called for
    tokens that are not empty. *)
Context (IP_String : list Z -> list Z).
Context (NewToken : UDPAddr -> list Z -> outcome (list Z)).
Context (DecodeToken : list Z -> outcome Cookie).

Definition defaultAcceptCookie (now : Z) (clientAddr : UDPAddr) (cookie : option Cookie) : bool :=
  match cookie with
  | None => false
  | Some cookie =>
      if SentTime cookie + CookieExpiryTime <? now then false
      else bool_decide (IP_String (IP clientAddr) = Cookie_RemoteAddr cookie)
  end.

(** What the server does with a packet; a session is started with these IDs, and
    added to the handler map under [srcConnID]. *)
Inductive server_action : Type :=
  | Ignored
  | SendTo (data : list Z) (addr : UDPAddr)
  | StartSession (origDestConnID clientDestConnID destConnID srcConnID : list Z) (version : Z).

(** [connID] and [rnd] are random. *)
Definition sendRetry (rnd : Z) (connID : list Z) (remoteAddr : UDPAddr) (hdr : Header) : outcome server_action :=
  token ← NewToken remoteAddr (DestConnectionID hdr);
  let replyHdr := mkHeader [] (Header_Version hdr) (SrcConnectionID hdr) connID (DestConnectionID hdr) 0 0 false []
                    PacketTypeRetry true 0 0 token in
  data ← Header_Write rnd replyHdr;
  Ok (SendTo data remoteAddr).

Definition handleInitialImpl (accept : UDPAddr -> option Cookie -> bool) (rnd : Z) (connID : list Z) (remoteAddr : UDPAddr)
    (hdr : Header) (data : list Z) : outcome server_action :=
  if (len (Header_Token hdr) =? 0) && (len (DestConnectionID hdr) <? MinConnectionIDLenInitial) then
    Err (Errorf "dropping Initial packet with too short Connection ID" [])
  else if len (Header_Raw hdr) + len data <? MinInitialPacketSize then
    Err (Errorf "dropping too small Initial packet" [])
  else
    let c := if 0 <? len (Header_Token hdr)
             then match DecodeToken (Header_Token hdr) with Ok c => Some c | _ => None end else None in
    let cookie := (fun c => mkCookie (Cookie_RemoteAddr c) [] (SentTime c)) <$> c in
    let origDestConnectionID := default [] (OriginalDestConnectionID <$> c) in
    if negb (accept remoteAddr cookie) then sendRetry rnd connID remoteAddr hdr
    else Ok (StartSession origDestConnectionID (DestConnectionID hdr) (SrcConnectionID hdr) connID (Header_Version hdr)).

(** [r], [posByte] and [rndv] are random, too. *)
Definition server_handlePacketImpl (accept : UDPAddr -> option Cookie -> bool) (versions : list Z)
    (r posByte rndv rnd : Z) (connID : list Z) (remoteAddr : UDPAddr) (hdr : Header) (data : list Z) : outcome server_action :=
  if IsLongHeader hdr && negb (IsSupportedVersion versions (Header_Version hdr)) then
    reply ← ComposeVersionNegotiation r posByte rndv (SrcConnectionID hdr) (DestConnectionID hdr) versions;
    Ok (SendTo reply remoteAddr)
  else if Header_Type hdr =? PacketTypeInitial then handleInitialImpl accept rnd connID remoteAddr hdr data
  else Ok Ignored.
End Server.

(** ** A client, its session and the handler map

    A session that was destroyed ends and removes its connection ID; if this was
    for a new version or a Retry, the client starts again.  [ph_Remove] starts a
    timer that deletes the entry. *)

Record client_sys : Type := mkClientSys {
  cs_client : client;
  cs_session : session_args;
  cs_closing : option close_reason;
  cs_map : packetHandlerMap (H := unit) (S := unit);
  cs_timers : list (list Z) }.

(** [destroy] only works once. *)
Fixpoint closing (calls : list session_call) (r : option close_reason) : option close_reason :=
  match calls with
  | [] => r
  | Destroy e :: calls => closing calls (match r with None => Some e | _ => r end)
  | Handle _ _ :: calls => closing calls r
  end.

Definition start_session (c : client) (m : packetHandlerMap) (timers : list (list Z)) : client_sys :=
  mkClientSys c (createNewTLSSession c) None (ph_Add m (c_srcConnID c) tt) timers.

Inductive client_step : client_sys -> client_sys -> Prop :=
  | cl_packet s ids hdr data e calls c :
      client_handlePacketImpl ids (cs_client s) hdr data = (e, calls, c) ->
      client_step s (mkClientSys c (cs_session s) (closing calls (cs_closing s)) (cs_map s) (cs_timers s))
  | cl_restart s r : cs_closing s = Some r -> r = CloseForNewVersion \/ r = CloseForRetry ->
      client_step s (start_session (cs_client s) (ph_Remove (cs_map s) (sa_srcConnID (cs_session s)))
        (sa_srcConnID (cs_session s) :: cs_timers s))
  | cl_timer s pre id post : cs_timers s = pre ++ id :: post ->
      client_step s (mkClientSys (cs_client s) (cs_session s) (cs_closing s) (ph_delete (cs_map s) id) (pre ++ post)).

Inductive client_reach (versions : list Z) (connIDLen : Z) : client_sys -> Prop :=
  | client_start ids c : newClient versions ids = Ok c ->
      client_reach versions connIDLen (start_session c (newPacketHandlerMap connIDLen) [])
  | client_next s s' : client_reach versions connIDLen s -> client_step s s' -> client_reach versions connIDLen s'.

(** The versions a client has gone through. *)
Definition negotiation_ok (versions : list Z) (c : client) : Prop :=
  c_Versions c = versions
  /\ exists v0, hd_error versions = Some v0
    /\ if receivedVersionNegotiationPacket c then
         c_initialVersion c = v0 /\ IsSupportedVersion (negotiatedVersions c) v0 = false
         /\ ChooseSupportedVersion versions (negotiatedVersions c) = (c_version c, true)
       else c_initialVersion c = 0 /\ c_version c = v0 /\ negotiatedVersions c = [].

Definition client_inv (versions : list Z) (s : client_sys) : Prop :=
  negotiation_ok versions (cs_client s)
  /\ (cs_closing s = None -> cs_session s = createNewTLSSession (cs_client s)).

(** Every change of the client destroys its session. *)
Lemma client_packet_ok versions ids c hdr data e calls c' : negotiation_ok versions c ->
  client_handlePacketImpl ids c hdr data = (e, calls, c') ->
  negotiation_ok versions c'
  /\ (closing calls None = None -> createNewTLSSession c' = createNewTLSSession c)
  /\ (receivedVersionNegotiationPacket c = true -> c_version c' = c_version c).
Proof.
  intros (Hv & v0 & Hhd & Hc) H. unfold client_handlePacketImpl in H. destruct (IsVersionNegotiation hdr).
  - unfold handleVersionNegotiationPacket in H.
    destruct (receivedVersionNegotiationPacket c || versionNegotiated c) eqn:Ei.
    { injection H as <- <- <-. split_and!; [by split; eauto | done | done]. }
    apply orb_false_iff in Ei as [Er Ev]. rewrite Er in Hc.
    destruct (IsSupportedVersion (Header_SupportedVersions hdr) (c_version c)) eqn:Es.
    { injection H as <- <- <-. split_and!; [| done | done]. split; [done |]. exists v0. by rewrite Er. }
    destruct (ChooseSupportedVersion (c_Versions c) (Header_SupportedVersions hdr)) as [nv [|]] eqn:Ech.
    2: { injection H as <- <- <-. split_and!; [| done | done]. split; [done |]. exists v0. by rewrite Er. }
    destruct Hc as (Hc1 & Hc2 & Hc3). rewrite Hc2 in Es. rewrite Hv in Ech.
    assert (Hn : forall src dest, negotiation_ok versions (mkClient (c_token c) (versionNegotiated c) true
      (Header_SupportedVersions hdr) (c_Versions c) src dest (c_origDestConnID c) (c_version c) nv)).
    { intros src dest. split; [done |]. exists v0. by split. }
    unfold generateConnectionIDs in H. destruct ids as [[src dest] | e' | s']; cbn in H; injection H as <- <- <-;
      (split_and!; [apply Hn | done | by rewrite Er]).
  - destruct (negb _); [injection H as <- <- <-; split_and!; [by split; eauto | done | done] |].
    destruct (_ =? _); [| injection H as <- <- <-; split_and!; [by split; eauto | done | done]].
    unfold handleRetryPacket in H. destruct (negb _); [injection H as <- <- <-; split_and!; [by split; eauto | done | done] |].
    destruct (bool_decide _); [injection H as <- <- <-; split_and!; [by split; eauto | done | done] |].
    destruct (_ <? _); injection H as <- <- <-; split_and!; try done; by split; eauto.
Qed.

Lemma closing_none calls r : closing calls r = None -> r = None /\ closing calls None = None.
Proof.
  revert r. induction calls as [| [e | hdr data] calls IH]; intros r H; cbn in *; [done | | by apply IH].
  destruct r as [r |]; [by apply IH in H as [? _] |]. by apply IH in H as [? _].
Qed.

Lemma client_reach_inv versions n s : client_reach versions n s -> client_inv versions s.
Proof.
  induction 1 as [ids c H | s s' _ [Hn Hs] Hst].
  - split; [| done]. unfold newClient in H. destruct versions as [| v versions]; [done |].
    destruct (forallb _ _); [| done]. injection H as <-. split; [done |]. exists v. by split.
  - destruct Hst as [s ids hdr data e calls c H | s r Hc Hr | s pre id post Ht].
    + destruct (client_packet_ok versions ids _ hdr data e calls c Hn H) as (H1 & H2 & _). split; [done |]. cbn.
      intros Hcl. apply closing_none in Hcl as [Hc1 Hc2]. rewrite H2 by done. by apply Hs.
    + by split.
    + by split.
Qed.

(** ** Theorems *)

(** Version negotiation and Retry: whatever packets arrive, a client changes
    its version at most once, to the one it prefers among those the server has
    listed, and only if its first version is not among them; it remembers the
    first version for the handshake.  A running session has been created with
    the versions, connection IDs and token the client has now. *)
Theorem client_negotiation_correct versions n s : client_reach versions n s ->
  negotiation_ok versions (cs_client s)
  /\ (cs_closing s = None -> cs_session s = createNewTLSSession (cs_client s))
  /\ forall s', client_step s s' -> receivedVersionNegotiationPacket (cs_client s) = true ->
     c_version (cs_client s') = c_version (cs_client s).
Proof.
  intros Hr. destruct (client_reach_inv versions n s Hr) as [Hn Hs]. split_and!; [done | done |].
  intros s' Hst Hvn. destruct Hst as [s ids hdr data e calls c H | s r Hc Hr' | s pre id post Ht]; [| done | done].
  by apply (client_packet_ok versions ids _ hdr data e calls c Hn H).
Qed.

Lemma retry_destroys ids c hdr data : c_token c = [] -> IsVersionNegotiation hdr = false ->
  Header_Type hdr = PacketTypeRetry -> DestConnectionID hdr = c_srcConnID c ->
  OrigDestConnectionID hdr = c_destConnID c -> SrcConnectionID hdr <> c_destConnID c ->
  exists c', client_handlePacketImpl ids c hdr data = (None, [Destroy CloseForRetry], c')
    /\ c_token c' = Header_Token hdr /\ c_destConnID c' = SrcConnectionID hdr /\ c_srcConnID c' = c_srcConnID c.
Proof.
  intros Ht Hv Hty Hd Ho Hs. unfold client_handlePacketImpl, handleRetryPacket.
  rewrite Hv, Hty, Z.eqb_refl, (bool_decide_true _ Hd), (bool_decide_true _ Ho), (bool_decide_false _ Hs), Ht.
  cbn [negb]. change (0 <? len []) with false. cbv iota. eexists. by split_and!.
Qed.

(** Retry packets are not tied to the state of the connection: one with the
    right connection IDs destroys the session whenever no token was taken yet,
    also after packets of the session were handled, and if its token is empty
    so does the next one. *)
Theorem retry_at_any_time ids c hdr data : c_token c = [] -> IsVersionNegotiation hdr = false ->
  Header_Type hdr = PacketTypeRetry -> DestConnectionID hdr = c_srcConnID c ->
  OrigDestConnectionID hdr = c_destConnID c -> SrcConnectionID hdr <> c_destConnID c ->
  exists c', client_handlePacketImpl ids c hdr data = (None, [Destroy CloseForRetry], c')
    /\ c_token c' = Header_Token hdr /\ c_destConnID c' = SrcConnectionID hdr /\ c_srcConnID c' = c_srcConnID c.
Proof. apply retry_destroys. Qed.


Lemma client_negotiation_correct_witness :
  exists s, client_reach [VersionTLS] 4 s /\ negotiation_ok [VersionTLS] (cs_client s).
Proof.
  eexists. split.
  - by apply (client_start [VersionTLS] 4 ([1; 2; 3; 4], [5; 6; 7; 8])).
  - eapply (proj1 (client_negotiation_correct [VersionTLS] 4 _ _)). Unshelve. by apply (client_start [VersionTLS] 4 ([1; 2; 3; 4], [5; 6; 7; 8])).
Defined.

Lemma retry_at_any_time_witness :
  exists c', client_handlePacketImpl (Ok ([], [])) (mkClient [] true false [] [VersionTLS] [1; 2; 3; 4] [5; 6; 7; 8] [] 0 VersionTLS)
    (mkHeader [] 0 [1; 2; 3; 4] [9; 9; 9; 9] [5; 6; 7; 8] 0 0 false [] PacketTypeRetry true 0 0 []) []
    = (None, [Destroy CloseForRetry], c') /\ c_token c' = [].
Proof.
  destruct (retry_at_any_time (Ok ([], [])) (mkClient [] true false [] [VersionTLS] [1; 2; 3; 4] [5; 6; 7; 8] [] 0 VersionTLS)
    (mkHeader [] 0 [1; 2; 3; 4] [9; 9; 9; 9] [5; 6; 7; 8] 0 0 false [] PacketTypeRetry true 0 0 []) []) as (c' & H & Ht & _);
    [reflexivity.. | discriminate |]. by exists c'.
Defined.

Section ServerTheorems.
Context (IP_String : list Z -> list Z).
Context (NewToken : UDPAddr -> list Z -> outcome (list Z)).
Context (DecodeToken : list Z -> outcome Cookie).

(** The cookie shows that the address is the one the token was made for, and
    that it is not too old. *)
Definition valid_cookie (now : Z) (addr : UDPAddr) (c : Cookie) : Prop :=
  IP_String (IP addr) = Cookie_RemoteAddr c /\ now <= SentTime c + CookieExpiryTime.

Lemma accept_cookie now addr c orig :
  defaultAcceptCookie IP_String now addr (Some (mkCookie (Cookie_RemoteAddr c) orig (SentTime c))) = true <-> valid_cookie now addr c.
Proof.
  unfold defaultAcceptCookie, valid_cookie. cbn [SentTime Cookie_RemoteAddr].
  destruct (Z.ltb_spec (SentTime c + CookieExpiryTime) now); [split; [done | lia] |].
  rewrite bool_decide_eq_true. split; [| tauto]. intros ->. split; [done | lia].
Qed.

Lemma starts_session now versions r posByte rndv rnd connID addr hdr data orig cdest dest src v :
  IsLongHeader hdr = true ->
  server_handlePacketImpl NewToken DecodeToken (defaultAcceptCookie IP_String now) versions r posByte rndv rnd connID addr hdr data
    = Ok (StartSession orig cdest dest src v)
  <-> In (Header_Version hdr) versions /\ Header_Type hdr = PacketTypeInitial
      /\ MinInitialPacketSize <= len (Header_Raw hdr) + len data
      /\ (exists c, Header_Token hdr <> [] /\ DecodeToken (Header_Token hdr) = Ok c /\ valid_cookie now addr c
            /\ orig = OriginalDestConnectionID c)
      /\ cdest = DestConnectionID hdr /\ dest = SrcConnectionID hdr /\ src = connID /\ v = Header_Version hdr.
Proof.
  intros Hlong. unfold server_handlePacketImpl. rewrite Hlong, <- IsSupportedVersion_In. cbn [andb].
  destruct (IsSupportedVersion versions (Header_Version hdr)); cbn [negb].
  2: { split; [| by intros [? _]]. intros H. apply outcome_bind_Ok in H as (b & _ & H). done. }
  destruct (Z.eqb_spec (Header_Type hdr) PacketTypeInitial) as [Ht |]; [| split; [done | by intros (_ & ? & _)]].
  unfold handleInitialImpl.
  assert (Htok : (0 <? len (Header_Token hdr)) = false <-> Header_Token hdr = []).
  { rewrite Z.ltb_ge.
    split; [intros; apply len_zero; pose proof (len_nonneg (Header_Token hdr)); lia | intros ->; by vm_compute]. }
  destruct ((len (Header_Token hdr) =? 0) && _) eqn:Es.
  { split; [done |]. intros (_ & _ & _ & (c & Hne & _) & _). apply andb_true_iff in Es as [Es _].
    apply Z.eqb_eq, len_zero in Es. done. }
  destruct (Z.ltb_spec (len (Header_Raw hdr) + len data) MinInitialPacketSize); [split; [done | lia] |].
  assert (Hretry : sendRetry NewToken rnd connID addr hdr = Ok (StartSession orig cdest dest src v) -> False).
  { unfold sendRetry. intros Hr. apply outcome_bind_Ok in Hr as (tok & _ & Hr). by apply outcome_bind_Ok in Hr as (b & _ & Hr). }
  destruct (0 <? len (Header_Token hdr)) eqn:Et.
  2: { cbn. split; [by intros H1%Hretry |]. intros (_ & _ & _ & (c & Hne & _) & _). by destruct Hne, Htok as [Hn _]; apply Hn. }
  destruct (DecodeToken (Header_Token hdr)) as [c | |] eqn:Ed; cbn [fmap option_fmap option_map];
    [| cbn; split; [by intros H1%Hretry | naive_solver]..].
  destruct (defaultAcceptCookie _ _ _ _) eqn:Ea; cbn [negb default from_option].
  - apply accept_cookie in Ea. assert (Header_Token hdr <> []) by (intros E; rewrite E in Et; by vm_compute in Et).
    split; [intros [= <- <- <- <- <-]; split_and!; eauto 10 |]. intros (_ & _ & _ & (c' & _ & [= <-] & _ & ->) & -> & -> & -> & ->). done.
  - split; [by intros H1%Hretry |]. intros (_ & _ & _ & (c' & _ & [= <-] & Hv & _) & _).
    apply (accept_cookie now addr c []) in Hv. by rewrite Hv in Ea.
Qed.

(** A server with the default check starts a session for a packet exactly if
    the packet is a large enough Initial packet of a supported version with a
    token that decodes to a cookie for the sender's address that is not too old;
    the session gets the connection ID the client used before the Retry. *)
Theorem session_needs_token now versions r posByte rndv rnd connID addr hdr data orig cdest dest src v :
  IsLongHeader hdr = true ->
  server_handlePacketImpl NewToken DecodeToken (defaultAcceptCookie IP_String now) versions r posByte rndv rnd connID addr hdr data
    = Ok (StartSession orig cdest dest src v)
  <-> In (Header_Version hdr) versions /\ Header_Type hdr = PacketTypeInitial
      /\ MinInitialPacketSize <= len (Header_Raw hdr) + len data
      /\ (exists c, Header_Token hdr <> [] /\ DecodeToken (Header_Token hdr) = Ok c /\ valid_cookie now addr c
            /\ orig = OriginalDestConnectionID c)
      /\ cdest = DestConnectionID hdr /\ dest = SrcConnectionID hdr /\ src = connID /\ v = Header_Version hdr.
Proof. apply starts_session. Qed.

(** A packet that is refused for its missing token is answered with a Retry. *)
Lemma sends_retry now versions r posByte rndv rnd connID addr hdr data token :
  IsLongHeader hdr = true -> In (Header_Version hdr) versions -> Header_Type hdr = PacketTypeInitial ->
  Header_Token hdr = [] -> MinConnectionIDLenInitial <= len (DestConnectionID hdr) ->
  MinInitialPacketSize <= len (Header_Raw hdr) + len data -> NewToken addr (DestConnectionID hdr) = Ok token ->
  0 <= rnd < 256 -> 0 < Header_Version hdr < 2 ^ 32 -> connid_ok (SrcConnectionID hdr) -> connid_ok (DestConnectionID hdr) ->
  connid_ok connID -> bytes token ->
  exists reply, forall n, let h := mkHeader [] (Header_Version hdr) (SrcConnectionID hdr) connID (DestConnectionID hdr) 0 0 false []
                 PacketTypeRetry true 0 0 token in
  server_handlePacketImpl NewToken DecodeToken (defaultAcceptCookie IP_String now) versions r posByte rndv rnd connID addr hdr data
    = Ok (SendTo reply addr) /\ parse_header n reply = Ok (h, []).
Proof.
  intros Hlong Hin Ht Htok Hd Hsize Hnew Hrnd Hv Hs Hdc Hc Hb.
  destruct (retry_roundtrip rnd 0 (Header_Version hdr) (SrcConnectionID hdr) connID (DestConnectionID hdr) token)
    as (bs & Ew & _ & _); try done. exists bs. intros n. cbv zeta.
  destruct (retry_roundtrip rnd n (Header_Version hdr) (SrcConnectionID hdr) connID (DestConnectionID hdr) token)
    as (bs' & Ew' & _ & Hp); try done. rewrite Ew in Ew'. injection Ew' as <-. split; [| done].
  unfold server_handlePacketImpl. apply IsSupportedVersion_In in Hin. rewrite Hlong, Hin, Ht, Z.eqb_refl. cbn [andb negb].
  unfold handleInitialImpl. rewrite Htok. change (len []) with 0. cbn [Z.eqb andb].
  rewrite (proj2 (Z.ltb_ge _ _) Hd), (proj2 (Z.ltb_ge _ _) Hsize). cbn. unfold sendRetry. rewrite Hnew. cbn [mbind outcome_bind].
  by rewrite Ew.
Qed.

End ServerTheorems.

(** The Retry exchange: the first packet of a client is answered by a Retry
    packet that the client accepts; it starts again with the token, and its next
    Initial packet then makes the server start a session, which knows the
    connection ID of the first packet, as the new session of the client does. *)
Theorem retry_exchange IP_String NewToken DecodeToken NewToken' now now' sent versions r posByte rndv rnd connID connID' addr c ids hdr data hdr' data' token :
  DecodeToken token = Ok (mkCookie (IP_String (IP addr)) (c_destConnID c) sent) ->
  NewToken addr (c_destConnID c) = Ok token -> bytes token -> token <> [] -> now' <= sent + CookieExpiryTime ->
  (* the client and its first packet *)
  c_token c = [] -> connid_ok (c_srcConnID c) -> connid_ok (c_destConnID c) -> MinConnectionIDLenInitial <= len (c_destConnID c) ->
  0 < c_version c < 2 ^ 32 -> In (c_version c) versions ->
  IsLongHeader hdr = true -> Header_Type hdr = PacketTypeInitial -> Header_Version hdr = c_version c -> Header_Token hdr = [] ->
  DestConnectionID hdr = c_destConnID c -> SrcConnectionID hdr = c_srcConnID c ->
  MinInitialPacketSize <= len (Header_Raw hdr) + len data ->
  (* the random connection ID of the Retry *)
  0 <= rnd < 256 -> connid_ok connID -> connID <> c_destConnID c ->
  exists reply retry c',
    server_handlePacketImpl NewToken DecodeToken (defaultAcceptCookie IP_String now) versions r posByte rndv rnd connID addr hdr data
      = Ok (SendTo reply addr)
    /\ parse_header (len (c_srcConnID c)) reply = Ok (retry, [])
    /\ client_handlePacketImpl ids c retry [] = (None, [Destroy CloseForRetry], c')
    /\ let s := createNewTLSSession c' in
       sa_token s = token /\ sa_origDestConnID s = c_destConnID c
       /\ (IsLongHeader hdr' = true -> Header_Type hdr' = PacketTypeInitial -> Header_Version hdr' = sa_version s ->
           Header_Token hdr' = sa_token s -> DestConnectionID hdr' = sa_destConnID s -> SrcConnectionID hdr' = sa_srcConnID s ->
           MinInitialPacketSize <= len (Header_Raw hdr') + len data' ->
           server_handlePacketImpl NewToken' DecodeToken (defaultAcceptCookie IP_String now') versions r posByte rndv rnd connID' addr
             hdr' data'
           = Ok (StartSession (sa_origDestConnID s) (sa_destConnID s) (sa_srcConnID s) connID' (sa_version s))).
Proof.
  intros Htl Hnew Hb Hne Htime Htok Hsrc Hdest Hdl Hver Hin L1 L2 L3 L4 L5 L6 L7 Hrnd Hcid Hcne.
  destruct (sends_retry IP_String NewToken DecodeToken now versions r posByte rndv rnd connID addr hdr data token) as (reply & Hrep);
    try done; rewrite ?L3, ?L5, ?L6; try done.
  destruct (Hrep (len (c_srcConnID c))) as [Hsend Hparse]. cbv zeta in Hparse. exists reply. eexists _, _.
  split; [exact Hsend |]. split; [exact Hparse |]. split.
  { unfold client_handlePacketImpl, handleRetryPacket. cbn [IsVersionNegotiation DestConnectionID Header_Type OrigDestConnectionID
      SrcConnectionID Header_Token]. rewrite Z.eqb_refl, (bool_decide_true _ L6), (bool_decide_true _ L5), (bool_decide_false _ Hcne), Htok.
    cbn [negb]. change (0 <? len []) with false. reflexivity. }
  cbn [createNewTLSSession sa_token sa_origDestConnID sa_destConnID sa_srcConnID sa_version c_token c_origDestConnID
    c_destConnID c_srcConnID c_version]. split_and!; [done | done |].
  intros M1 M2 M3 M4 M5 M6 M7. apply starts_session; [done |]. rewrite M3, M4, M5, M6. split_and!; try done.
  exists (mkCookie (IP_String (IP addr)) (c_destConnID c) sent). split_and!; [done | done | split; [done | cbn; lia] | done].
Qed.

(** A concrete server: a token is the address and the connection ID in the clear. *)
Definition sample_NewToken (a : UDPAddr) (id : list Z) : outcome (list Z) := Ok (len (IP a) :: IP a ++ id).
Definition sample_DecodeToken (t : list Z) : outcome Cookie :=
  match t with
  | l :: t => Ok (mkCookie (take_z l t) (drop_z l t) 0)
  | [] => Err (Errorf "no token" [])
  end.
Definition sample_addr : UDPAddr := mkUDPAddr [192; 168; 0; 1] 443.
Definition sample_initial (token : list Z) (dest : list Z) : Header :=
  mkHeader [] VersionTLS dest [1; 2; 3; 4] [] 1 0 false [] PacketTypeInitial true 0 0 token.

Lemma session_needs_token_witness :
  server_handlePacketImpl sample_NewToken sample_DecodeToken (defaultAcceptCookie id 100) [VersionTLS] 0 0 0 0 [7; 7; 7; 7] sample_addr
    (sample_initial [4; 192; 168; 0; 1; 1; 2; 3; 4; 5; 6; 7; 8] [9; 9; 9; 9]) (repeat 0 1200)
  = Ok (StartSession [1; 2; 3; 4; 5; 6; 7; 8] [9; 9; 9; 9] [1; 2; 3; 4] [7; 7; 7; 7] VersionTLS).
Proof.
  apply session_needs_token; [reflexivity |]. split_and!; try reflexivity; [by left |].
  eexists. split_and!; [discriminate | reflexivity | split; by vm_compute | reflexivity].
Defined.

(** ** Defects *)

(** After a Retry the client forgets its own connection ID: the destroyed
    session has started the timer that deletes its entry in the handler map, and
    the new session uses the same ID.  A minute later every packet for the
    running session is refused. *)
Theorem retry_forgets_client versions n src dest c : newClient versions (src, dest) = Ok c ->
  forall newdest token, newdest <> dest ->
  exists s, client_reach versions n s /\ cs_closing s = None
    /\ sa_srcConnID (cs_session s) = src /\ sa_destConnID (cs_session s) = newdest /\ sa_token (cs_session s) = token
    /\ forall data hdr r, ParseInvariantHeader n data = Ok (hdr, r) -> iv_DestConnectionID hdr = src ->
       exists e, handlePacket (cs_map s) data = Err e.
Proof.
  intros Hc newdest token Hne.
  assert (c = mkClient [] false false [] versions src dest [] 0 (c_version c)) as E.
  { unfold newClient in Hc. destruct versions; [done |]. destruct (forallb _ _); [| done]. by injection Hc as <-. }
  set (hdr := mkHeader [] 0 src newdest dest 0 0 false [] PacketTypeRetry true 0 0 token).
  destruct (retry_destroys (Ok ([], [])) c hdr []) as (c' & Hr & Ht & Hd & Hs); try done; try (by rewrite E).
  pose proof (client_start versions n _ _ Hc) as R. eapply client_next in R.
  2: { by apply (cl_packet _ (Ok ([], [])) hdr [] None [Destroy CloseForRetry] c'). }
  eapply client_next in R. 2: { eapply cl_restart; [reflexivity | by right]. }
  eapply client_next in R. 2: { apply (cl_timer _ [] src []). cbn. by rewrite E. }
  rewrite E in Hs. eexists. split; [exact R |]. split_and!; try done.
  intros data h r Hp Hi. unfold handlePacket. cbn. rewrite Hp, Hi, lookup_delete_eq. by eexists.
Qed.

Lemma retry_forgets_client_witness :
  exists s, client_reach [VersionTLS] 4 s /\ cs_closing s = None /\ sa_srcConnID (cs_session s) = [1; 2; 3; 4].
Proof.
  destruct (retry_forgets_client [VersionTLS] 4 [1; 2; 3; 4] [5; 6; 7; 8] _ eq_refl [9; 9; 9; 9] [7]) as (s & H1 & H2 & H3 & _);
    [done |]. by exists s.
Defined.

(** Servers answer version negotiation packets: such a packet carries version
    zero, which no server supports, so a server that receives one sends another
    one back, with the connection IDs swapped, and two servers keep doing so. *)
Theorem negotiation_loop NewToken DecodeToken accept versions r posByte rndv rnd connID addr data
    r' posByte' rnd' dest src versions' n :
  is_byte r -> 0 <= rndv < 2 ^ 32 -> Forall (fun v => is_u32 v /\ is_greased v = false) versions -> ~ In 0 versions ->
  is_byte r' -> 0 <= rnd' < 2 ^ 32 -> Forall (fun v => is_u32 v /\ is_greased v = false) versions' ->
  connid_ok dest -> connid_ok src ->
  exists packet hdr reply,
    ComposeVersionNegotiation r' posByte' rnd' dest src versions' = Ok packet /\ parse_header n packet = Ok (hdr, [])
    /\ ComposeVersionNegotiation r posByte rndv src dest versions = Ok reply
    /\ server_handlePacketImpl NewToken DecodeToken accept versions r posByte rndv rnd connID addr hdr data = Ok (SendTo reply addr).
Proof.
  intros Hr Hrnd Hv H0 Hr' Hrnd' Hv' Hd Hs.
  destruct (version_negotiation_roundtrip r' posByte' rnd' n dest src versions')
    as (p & h & Ep & _ & Hp & _ & Dd & Ds & _ & Hl & Hver); try done.
  destruct (version_negotiation_roundtrip r posByte rndv n src dest versions) as (reply & h' & Er & _); try done.
  exists p, h, reply. split_and!; [done.. |]. unfold server_handlePacketImpl.
  destruct (IsSupportedVersion versions (Header_Version h)) eqn:E; [by rewrite IsSupportedVersion_In, Hver in E |].
  rewrite Hl, Dd, Ds, Er. reflexivity.
Qed.

Lemma negotiation_loop_witness : exists packet hdr reply,
  ComposeVersionNegotiation 1 0 0 [1; 2; 3; 4] [] [VersionTLS] = Ok packet /\ parse_header 4 packet = Ok (hdr, [])
  /\ ComposeVersionNegotiation 2 0 0 [] [1; 2; 3; 4] [VersionTLS] = Ok reply
  /\ server_handlePacketImpl sample_NewToken sample_DecodeToken (defaultAcceptCookie id 0) [VersionTLS] 2 0 0 0 [] sample_addr hdr []
     = Ok (SendTo reply sample_addr).
Proof.
  apply negotiation_loop; [unfold is_byte; lia | lia | | | unfold is_byte; lia | lia | | |].
  - repeat constructor; by vm_compute.
  - intros [H | []]. by vm_compute in H.
  - repeat constructor; by vm_compute.
  - split; [solve_bytes | right; by vm_compute].
  - split; [constructor | by left].
Defined.
