(* ===== verification/Listener.v ===== *)
(** * The listener (server.go, multiplexer.go, buffer_pool.go, conn.go and the
      reading goroutine of packet_handler_map.go)

    A server with its goroutines: packets that arrive, one goroutine for each
    Initial packet, the run loops of the sessions, the callers of [Accept] and
    [Close].  A step is what one of them does between two points where it can
    wait: the mutex of the server, the queue of new sessions, the end of a
    session.  A step that is not enabled waits.  Sessions are known by the order
    of their creation; of a session only the state of its run loop matters here.
    Clients that share the connection with the server are left out. *)

From S2P Require Import Prelude Qerr Varint Protocol AckFrame Frames FrameCodec FrameParser FrameSorter.
From S2P Require Import Header Float FlowControl SentHistory SendStream ReceiveStream CryptoStream Framer Packer Receiving.
From S2P Require Import TransportParams Endpoints.

(** ** multiplexer.go *)

(** Connections are compared by identity; a manager is created for each. *)
Record connManager : Type := mkConnManager { cm_connIDLen : Z; cm_manager : nat }.
Definition connMultiplexer : Type := gmap nat connManager.

(** [manager] is the new manager, which starts to listen. *)
Definition mux_AddConn (m : connMultiplexer) (manager c : nat) (connIDLen : Z)
    : outcome nat * connMultiplexer :=
  let '(p, m) :=
    match m !! c with
    | Some p => (p, m)
    | None => let p := mkConnManager connIDLen manager in (p, <[c := p]> m)
    end in
  if negb (cm_connIDLen p =? connIDLen) then
    (Err (Errorf "cannot use %d byte Connection IDs on a Connection that is already using %d byte connction IDs"
            [connIDLen; cm_connIDLen p]), m)
  else (Ok (cm_manager p), m).

(** ** buffer_pool.go *)

(** The capacities of the buffers in the pool; [Get] takes any, or makes one. *)
Definition getPacketBuffer (pool : list Z) : Z * list Z :=
  match pool with
  | [] => (MaxReceivePacketSize, [])
  | b :: pool => (b, pool)
  end.

Definition putPacketBuffer (pool : list Z) (cap : Z) : outcome (list Z) :=
  if negb (cap =? MaxReceivePacketSize) then Panic "putPacketBuffer called with packet of wrong size!"
  else Ok (cap :: pool).

(** ** The server *)

(** The run loop of a session: before the end of the handshake; when it gives
    itself to [Accept]; afterwards; and when it has returned. *)
Inductive run_state : Type := Handshaking | Reporting | Established | Ended.

Record srv_session : Type := mkSrvSession {
  ss_connID : list Z; ss_params : TransportParameters; ss_version : Z; ss_pc : run_state; ss_closing : bool }.

Record received : Type := mkReceived { rp_addr : UDPAddr; rp_header : Header; rp_data : list Z }.

#[export] Instance UDPAddr_eq_dec : EqDecision UDPAddr.
Proof. solve_decision. Defined.
#[export] Instance Header_eq_dec : EqDecision Header.
Proof. solve_decision. Defined.
#[export] Instance received_eq_dec : EqDecision received.
Proof. solve_decision. Defined.

(** The handlers are sessions; there is one server. *)
Abbreviation handler_map := (packetHandlerMap (H := nat) (S := unit)).

Record server : Type := mkServer {
  sv_config : Config;
  sv_createdPacketConn : bool;
  sv_connOpen : bool;
  sv_serverError : option go_error;
  sv_errorChan : bool;                             (* closed *)
  sv_closed : bool;
  sv_sessionQueue : list nat;
  sv_handler : handler_map;
  sv_timers : list (list Z);                       (* of removed connection IDs *)
  sv_sessions : list srv_session;
  sv_initials : list received;                     (* goroutines of handleInitial *)
  sv_adds : list nat;                              (* sessions they have still to add *)
  sv_closer : option (list (list Z * nat));        (* who holds the mutex waits for these *)
  sv_accepted : list nat;                          (* what Accept has returned *)
  sv_sent : list (list Z * UDPAddr) }.

Definition sessionQueue_cap : nat := 5.

(** [created] is the new manager, [managers] are the existing ones, and [cookies]
    tells whether the cookie generator could be made.  The conditions are those of
    [listen] in their order. *)
Definition listen (m : connMultiplexer) (created conn : nat) (managers : nat -> handler_map) (cookies : outcome unit)
    (config : option Config) (createdPacketConn : bool) : outcome server * connMultiplexer :=
  let config := populateServerConfig config in
  if negb (forallb IsValidVersion (Config_Versions config)) then
    (Err (Errorf "%s is not a valid QUIC version" []), m)
  else
    let '(manager, m') := mux_AddConn m created conn (ConnectionIDLength config) in
    (manager ← manager;
     _ ← cookies;
     let handler := match m !! conn with
                    | Some _ => managers manager
                    | None => newPacketHandlerMap (ConnectionIDLength config)
                    end in
     Ok (mkServer config createdPacketConn true None false false [] (SetServer handler tt) [] [] [] [] None [] []), m').

(** The transport parameters of a new session, from server.go and client.go. *)
Definition session_params (config : Config) (token origDestConnID : list Z) : TransportParameters :=
  mkTP InitialMaxStreamData InitialMaxStreamData InitialMaxStreamData initialMaxData 0
    (u64 (MaxIncomingUniStreams config)) (u64 (MaxIncomingStreams config)) (Config_IdleTimeout config) true
    token origDestConnID.

Definition server_params (config : Config) (origDestConnID : list Z) : TransportParameters :=
  session_params config (replicate 16 42) origDestConnID.
Definition client_params (config : Config) : TransportParameters := session_params config [] [].

Section server.
(** [IP.String], the cookie generator and the callback [AcceptCookie]. *)
Context (NewToken : UDPAddr -> list Z -> outcome (list Z)) (DecodeToken : list Z -> outcome Cookie).
Context (AcceptCookie : UDPAddr -> option Cookie -> bool).

(** What a goroutine does next. *)
Inductive event : Type :=
| Packet (addr : UDPAddr) (data : list Z) (r posByte rndv : Z)
| Initial (p : received) (rnd : Z) (connID : list Z) (newSession : bool)
| AddSession (i : nat)
| HandshakeComplete (i : nat)
| Report (i : nat)
| End_ (i : nat)
| Timer (id : list Z)
| Accept
| AcceptError
| Close (e : option go_error)                      (* closeWithError has an error *)
| CloseSession (id : list Z) (i : nat)
| CloseDone
| ReadError.

Definition set_session (s : server) (i : nat) (x : srv_session) : server :=
  mkServer (sv_config s) (sv_createdPacketConn s) (sv_connOpen s) (sv_serverError s) (sv_errorChan s) (sv_closed s)
    (sv_sessionQueue s) (sv_handler s) (sv_timers s) (<[i := x]> (sv_sessions s)) (sv_initials s) (sv_adds s)
    (sv_closer s) (sv_accepted s) (sv_sent s).
Definition set_pc (pc : run_state) (x : srv_session) : srv_session :=
  mkSrvSession (ss_connID x) (ss_params x) (ss_version x) pc (ss_closing x).
Definition request_close (x : srv_session) : srv_session :=
  mkSrvSession (ss_connID x) (ss_params x) (ss_version x) (ss_pc x) true.
Definition set_queue (s : server) (queue accepted : list nat) : server :=
  mkServer (sv_config s) (sv_createdPacketConn s) (sv_connOpen s) (sv_serverError s) (sv_errorChan s) (sv_closed s)
    queue (sv_handler s) (sv_timers s) (sv_sessions s) (sv_initials s) (sv_adds s) (sv_closer s) accepted (sv_sent s).
Definition set_handler (s : server) (m : handler_map) (timers : list (list Z)) : server :=
  mkServer (sv_config s) (sv_createdPacketConn s) (sv_connOpen s) (sv_serverError s) (sv_errorChan s) (sv_closed s)
    (sv_sessionQueue s) m timers (sv_sessions s) (sv_initials s) (sv_adds s) (sv_closer s) (sv_accepted s) (sv_sent s).
Definition set_closer (s : server) (err : option go_error) (c : option (list (list Z * nat))) : server :=
  mkServer (sv_config s) (sv_createdPacketConn s) (sv_connOpen s) err (sv_errorChan s) (sv_closed s)
    (sv_sessionQueue s) (sv_handler s) (sv_timers s) (sv_sessions s) (sv_initials s) (sv_adds s) c
    (sv_accepted s) (sv_sent s).
Definition set_initials (s : server) (initials : list received) : server :=
  mkServer (sv_config s) (sv_createdPacketConn s) (sv_connOpen s) (sv_serverError s) (sv_errorChan s) (sv_closed s)
    (sv_sessionQueue s) (sv_handler s) (sv_timers s) (sv_sessions s) initials (sv_adds s)
    (sv_closer s) (sv_accepted s) (sv_sent s).
Definition send (s : server) (d : list Z * UDPAddr) : server :=
  mkServer (sv_config s) (sv_createdPacketConn s) (sv_connOpen s) (sv_serverError s) (sv_errorChan s) (sv_closed s)
    (sv_sessionQueue s) (sv_handler s) (sv_timers s) (sv_sessions s) (sv_initials s) (sv_adds s)
    (sv_closer s) (sv_accepted s) (sv_sent s ++ [d]).
Definition set_adds (s : server) (sessions : list srv_session) (adds : list nat) : server :=
  mkServer (sv_config s) (sv_createdPacketConn s) (sv_connOpen s) (sv_serverError s) (sv_errorChan s) (sv_closed s)
    (sv_sessionQueue s) (sv_handler s) (sv_timers s) sessions (sv_initials s) adds
    (sv_closer s) (sv_accepted s) (sv_sent s).

(** [handlePacketImpl]: an Initial packet is handled by a goroutine of its own. *)
Definition srv_handlePacket (s : server) (p : received) (r posByte rndv : Z) : server :=
  let hdr := rp_header p in
  if IsLongHeader hdr && negb (IsSupportedVersion (Config_Versions (sv_config s)) (Header_Version hdr)) then
    match ComposeVersionNegotiation r posByte rndv (SrcConnectionID hdr) (DestConnectionID hdr)
            (Config_Versions (sv_config s)) with
    | Ok data => send s (data, rp_addr p)
    | _ => s
    end
  else if Header_Type hdr =? PacketTypeInitial then set_initials s (p :: sv_initials s)
  else s.

(** The session starts to run, unless [newSession] fails. *)
Definition createNewSession (s : server) (origDestConnID srcConnID : list Z) (version : Z) (newSession : bool) : server :=
  let x := mkSrvSession srcConnID (server_params (sv_config s) origDestConnID) version Handshaking false in
  if negb newSession then s else
  set_adds s (sv_sessions s ++ [x]) (length (sv_sessions s) :: sv_adds s).

Definition srv_handleInitial (s : server) (p : received) (rnd : Z) (connID : list Z) (newSession : bool) : server :=
  match handleInitialImpl NewToken DecodeToken AcceptCookie rnd connID (rp_addr p) (rp_header p) (rp_data p) with
  | Ok (StartSession orig _ _ src version) => createNewSession s orig src version newSession
  | Ok (SendTo data addr) => send s (data, addr)
  | _ => s
  end.

(** [CloseServer]: the sessions that are in the map. *)
Definition handler_sessions (m : handler_map) : list (list Z * nat) :=
  omap (fun '(id, h) => (fun i => (id, i)) <$> h) (map_to_list (handlers m)).

Definition close_all (l : list (list Z * nat)) (xs : list srv_session) : list srv_session :=
  foldr (fun '(_, i) xs => alter request_close i xs) xs l.

Definition without_server (m : handler_map) : handler_map :=
  mkHandlerMap (connIDLen m) (handlers m) None (ph_closed m).

(** A connection ID is removed, and a timer started. *)
Definition srv_remove (s : server) (id : list Z) : server :=
  set_handler s (ph_Remove (sv_handler s) id) (id :: sv_timers s).

Definition begin_close (s : server) (e : option go_error) : server :=
  let pending := handler_sessions (sv_handler s) in
  let s := set_handler s (without_server (sv_handler s)) (sv_timers s) in
  let s := set_adds s (close_all pending (sv_sessions s)) (sv_adds s) in
  set_closer s (match e with Some e => Some e | None => sv_serverError s end) (Some pending).

(** The end of [closeWithMutex], which unlocks the mutex. *)
Definition end_close (s : server) : outcome server :=
  let err := match sv_serverError s with Some e => e | None => Errorf "server closed" [] end in
  let open := if sv_createdPacketConn s then false else sv_connOpen s in
  if sv_errorChan s then Panic "close of closed channel"
  else Ok (mkServer (sv_config s) (sv_createdPacketConn s) open (Some err) true true
             (sv_sessionQueue s) (sv_handler s) (sv_timers s) (sv_sessions s) (sv_initials s) (sv_adds s) None
             (sv_accepted s) (sv_sent s)).

Fixpoint remove_first {A} `{EqDecision A} (x : A) (l : list A) : list A :=
  match l with
  | [] => []
  | y :: l => if decide (x = y) then l else y :: remove_first x l
  end.

(** A turn of [listenConn] with the result of [ReadFrom]: a packet for a session
    does not change the server, and an error panics. *)
Definition ErrClosed : go_error := Errorf "use of closed network connection" [].

Definition listenConn (s : server) (read : outcome (UDPAddr * list Z)) (r posByte rndv : Z) : outcome server :=
  match read with
  | Ok (addr, data) =>
      match handlePacket (sv_handler s) data with
      | Ok (ToServer _ hdr payload) => Ok (srv_handlePacket s (mkReceived addr hdr payload) r posByte rndv)
      | Ok _ | Err _ => Ok s
      | Panic msg => Panic msg
      end
  | Err _ => Panic "use of closed network connection"
  | Panic msg => Panic msg
  end.

(** No result: the goroutine waits. *)
Definition step (s : server) (e : event) : option (outcome server) :=
  match e with
  | Packet addr data r posByte rndv =>
      if sv_connOpen s then Some (listenConn s (Ok (addr, data)) r posByte rndv) else None
  | Initial p rnd connID newSession =>
      if decide (p ∈ sv_initials s) then
        Some (Ok (srv_handleInitial (set_initials s (remove_first p (sv_initials s))) p rnd connID newSession))
      else None
  | AddSession i =>
      if decide (i ∈ sv_adds s) then
        match sv_sessions s !! i with
        | Some x => Some (Ok (set_handler (set_adds s (sv_sessions s) (remove_first i (sv_adds s)))
                                (ph_Add (sv_handler s) (ss_connID x) i) (sv_timers s)))
        | None => None
        end
      else None
  | HandshakeComplete i =>
      match sv_sessions s !! i with
      | Some x => match ss_pc x with Handshaking => Some (Ok (set_session s i (set_pc Reporting x))) | _ => None end
      | None => None
      end
  | Report i =>
      match sv_sessions s !! i with
      | Some x =>
          match ss_pc x with
          | Reporting =>
              if (length (sv_sessionQueue s) <? sessionQueue_cap)%nat then
                Some (Ok (set_queue (set_session s i (set_pc Established x)) (sv_sessionQueue s ++ [i]) (sv_accepted s)))
              else None
          | _ => None
          end
      | None => None
      end
  | End_ i =>
      match sv_sessions s !! i with
      | Some x =>
          match ss_pc x with
          | Handshaking | Established => Some (Ok (srv_remove (set_session s i (set_pc Ended x)) (ss_connID x)))
          | _ => None
          end
      | None => None
      end
  | Timer id =>
      if decide (id ∈ sv_timers s) then
        Some (Ok (set_handler s (ph_delete (sv_handler s) id) (remove_first id (sv_timers s))))
      else None
  | Accept =>
      match sv_sessionQueue s with
      | i :: queue => Some (Ok (set_queue s queue (sv_accepted s ++ [i])))
      | [] => None
      end
  | AcceptError => if sv_errorChan s then Some (Ok s) else None
  | Close e =>
      match sv_closer s with
      | Some _ => None
      | None => Some (Ok (if sv_closed s then s else begin_close s e))
      end
  | CloseSession id i =>
      match sv_closer s, sv_sessions s !! i with
      | Some pending, Some x =>
          if decide ((id, i) ∈ pending) then
            match ss_pc x with
            | Ended => Some (Ok (srv_remove (set_closer s (sv_serverError s) (Some (remove_first (id, i) pending))) id))
            | _ => None
            end
          else None
      | _, _ => None
      end
  | CloseDone =>
      match sv_closer s with
      | Some [] => Some (end_close s)
      | _ => None
      end
  | ReadError => Some (listenConn s (Err ErrClosed) 0 0 0)
  end.

(** What a call of [Accept] can return. *)
Definition accept_results (s : server) : list (nat + option go_error) :=
  match sv_sessionQueue s with i :: _ => [inl i] | [] => [] end
  ++ (if sv_errorChan s then [inr (sv_serverError s)] else []).

(** A server on a connection of its own. *)
Inductive reach : server -> Prop :=
| reach_new m created conn managers config pconn s m' : m !! conn = None -> 0 <= ConnectionIDLength (populateServerConfig config) ->
    listen m created conn managers (Ok tt) config pconn = (Ok s, m') -> reach s
| reach_step s e s' : reach s -> step s e = Some (Ok s') -> reach s'.

Fixpoint run (s : server) (es : list event) : option server :=
  match es with
  | [] => Some s
  | e :: es => match step s e with Some (Ok s) => run s es | _ => None end
  end.

(** ** The invariant *)

Definition reported (s : server) : list nat := sv_accepted s ++ sv_sessionQueue s.

Record srv_ok (s : server) : Prop := {
  ok_closed : sv_closed s = sv_errorChan s;
  ok_closer : sv_closer s <> None -> sv_closed s = false;
  ok_error : sv_closed s = true <-> sv_closer s = None /\ sv_serverError s <> None;
  ok_conn : sv_connOpen s = negb (sv_closed s && sv_createdPacketConn s);
  ok_server : ph_server (sv_handler s) = None <-> sv_closed s = true \/ sv_closer s <> None;
  ok_once : NoDup (reported s);
  ok_reported i : i ∈ reported s -> exists x, sv_sessions s !! i = Some x /\ (ss_pc x = Established \/ ss_pc x = Ended);
  ok_established i x : sv_sessions s !! i = Some x -> ss_pc x = Established -> i ∈ reported s;
  ok_room : (length (sv_sessionQueue s) <= sessionQueue_cap)%nat;
  ok_connIDLen : 0 <= connIDLen (sv_handler s);
  ok_handlers id i : handlers (sv_handler s) !! id = Some (Some i) -> is_Some (sv_sessions s !! i);
  ok_pending id i pending : sv_closer s = Some pending -> (id, i) ∈ pending -> is_Some (sv_sessions s !! i) }.

Lemma close_all_length l xs : length (close_all l xs) = length xs.
Proof. induction l as [| [id i] l IH]; [done |]. cbn. by rewrite length_alter. Qed.

Lemma close_all_lookup l xs i x : close_all l xs !! i = Some x ->
  exists y, xs !! i = Some y /\ ss_pc x = ss_pc y /\ ss_connID x = ss_connID y.
Proof.
  revert x. induction l as [| [id j] l IH]; intros x; [by eauto |].
  change (close_all ((id, j) :: l) xs) with (alter request_close j (close_all l xs)).
  destruct (decide (i = j)) as [-> |].
  - rewrite list_lookup_alter_eq. destruct (close_all l xs !! j) as [y |] eqn:E; cbn; [intros [= <-] | by intros [=]].
    by apply (IH y).
  - rewrite list_lookup_alter_ne by done. by apply IH.
Qed.

Lemma close_all_is_Some l xs i : is_Some (close_all l xs !! i) <-> is_Some (xs !! i).
Proof. by rewrite !lookup_lt_is_Some, close_all_length. Qed.

Lemma close_all_back l xs i y : xs !! i = Some y ->
  exists x, close_all l xs !! i = Some x /\ ss_pc x = ss_pc y /\ ss_connID x = ss_connID y.
Proof.
  intros Hy. destruct (close_all l xs !! i) as [x |] eqn:E.
  - destruct (close_all_lookup l xs i x E) as (y' & Hy' & H). simplify_eq. by eauto.
  - apply eq_None_not_Some in E. destruct E. apply close_all_is_Some. by exists y.
Qed.

Lemma elem_of_remove_first {A} `{EqDecision A} (x y : A) l : x ∈ remove_first y l -> x ∈ l.
Proof. induction l as [| z l IH]; cbn; [done |]. case_decide; rewrite ?elem_of_cons; naive_solver. Qed.

Lemma elem_of_remove_first_ne {A} `{EqDecision A} (x y : A) l : x ∈ l -> x = y \/ x ∈ remove_first y l.
Proof.
  induction l as [| z l IH]; cbn; [by rewrite elem_of_nil |]. rewrite elem_of_cons.
  case_decide; rewrite ?elem_of_cons; naive_solver.
Qed.

Lemma elem_of_handler_sessions m id i : (id, i) ∈ handler_sessions m <-> handlers m !! id = Some (Some i).
Proof.
  unfold handler_sessions. rewrite list_elem_of_omap. split.
  - intros ([id' [j |]] & Hin & [= <- <-]). by apply elem_of_map_to_list.
  - intros H. exists (id, Some i). by rewrite elem_of_map_to_list.
Qed.

(** The parts of the state that the invariant is about. *)
Definition view (s : server) :=
  (sv_closed s, sv_errorChan s, sv_closer s, sv_serverError s, (sv_connOpen s, sv_createdPacketConn s), sv_handler s,
   (sv_accepted s, sv_sessionQueue s), sv_sessions s).

Lemma srv_ok_view s s' : view s' = view s -> srv_ok s -> srv_ok s'.
Proof.
  intros H []. unfold view in H. injection H as E1 E2 E3 E4 E5 E6 E7 E8 E9 E10.
  constructor; unfold reported in *; by rewrite ?E1, ?E2, ?E3, ?E4, ?E5, ?E6, ?E7, ?E8, ?E9, ?E10.
Qed.

Lemma srv_handlePacket_view s p r posByte rndv : view (srv_handlePacket s p r posByte rndv) = view s.
Proof. unfold srv_handlePacket. by repeat case_match. Qed.

(** A session changes its state, and its entry. *)
Lemma set_session_ok s i x y : srv_ok s -> sv_sessions s !! i = Some x ->
  (ss_pc y = Established -> i ∈ reported s) -> (ss_pc y = Established \/ ss_pc y = Ended \/ i ∉ reported s) ->
  srv_ok (set_session s i y).
Proof.
  intros [] Hx Hy1 Hy2. assert (Hlt : (i < length (sv_sessions s))%nat) by (by eapply lookup_lt_Some).
  constructor; cbn; try done.
  - intros j Hj. destruct (decide (j = i)) as [-> |].
    + rewrite list_lookup_insert_eq by done. exists y. naive_solver.
    + rewrite list_lookup_insert_ne by done. by apply ok_reported0.
  - intros j z. destruct (decide (j = i)) as [-> |].
    + rewrite list_lookup_insert_eq by done. intros [= <-]. done.
    + rewrite list_lookup_insert_ne by done. by apply ok_established0.
  - intros id j Hj. rewrite lookup_lt_is_Some, length_insert, <- lookup_lt_is_Some. by eapply ok_handlers0.
  - intros id j pending Hp Hj. rewrite lookup_lt_is_Some, length_insert, <- lookup_lt_is_Some. by eapply ok_pending0.
Qed.

(** The handler map, with less sessions or with one that was created. *)
Lemma set_handler_ok s m timers : srv_ok s -> ph_server m = ph_server (sv_handler s) -> connIDLen m = connIDLen (sv_handler s) ->
  (forall id i, handlers m !! id = Some (Some i) -> is_Some (sv_sessions s !! i)) -> srv_ok (set_handler s m timers).
Proof. intros [] H1 H2 H3. constructor; cbn; rewrite ?H1, ?H2; done. Qed.

Lemma removed_ok s id timers : srv_ok s -> srv_ok (set_handler s (ph_Remove (sv_handler s) id) timers).
Proof.
  intros Hs. apply set_handler_ok; [done | done | done |]. intros id' i. cbn.
  rewrite lookup_insert_Some. intros [[_ ?] | [_ H]]; [done | by eapply ok_handlers].
Qed.

Lemma deleted_ok s id timers : srv_ok s -> srv_ok (set_handler s (ph_delete (sv_handler s) id) timers).
Proof.
  intros Hs. apply set_handler_ok; [done | done | done |]. intros id' i. cbn.
  rewrite lookup_delete_Some. intros [_ H]. by eapply ok_handlers.
Qed.

Lemma created_ok s orig src version newSession : srv_ok s -> srv_ok (createNewSession s orig src version newSession).
Proof.
  intros Hs. unfold createNewSession. destruct newSession; [| done]. destruct Hs. cbn [negb].
  assert (Hmore : forall i, is_Some (sv_sessions s !! i) -> forall x, is_Some ((sv_sessions s ++ [x]) !! i)).
  { intros i [y Hy] x. exists y. by apply lookup_app_l_Some. }
  constructor; cbn; try done.
  - intros i Hi. destruct (ok_reported0 i Hi) as (x & Hx & Hpc). exists x. split; [by apply lookup_app_l_Some | done].
  - intros i x Hx Hpc. apply lookup_app_Some in Hx as [Hx | [_ Hx]]; [by eapply ok_established0 |].
    apply list_lookup_singleton_Some in Hx as [_ <-]. done.
  - intros id i Hi. eapply Hmore. by eapply ok_handlers0.
  - intros id i pending Hp Hi. eapply Hmore. by eapply ok_pending0.
Qed.

Lemma begin_close_ok s e : srv_ok s -> sv_closer s = None -> sv_closed s = false -> srv_ok (begin_close s e).
Proof.
  intros [] Hc Hcl. constructor; cbn; try done.
  - rewrite Hcl. by split; [| intros [? _]].
  - split; [by right |]. done.
  - intros i Hi. destruct (ok_reported0 i Hi) as (x & Hx & Hpc).
    destruct (close_all_back (handler_sessions (sv_handler s)) _ i x Hx) as (y & Hy & Ey & _). exists y. by rewrite Ey.
  - intros i x Hx Hpc. apply close_all_lookup in Hx as (y & Hy & Ey & _). eapply ok_established0; [done | by rewrite <- Ey].
  - intros id i Hi. apply close_all_is_Some. by eapply ok_handlers0.
  - intros id i pending [= <-] Hi. apply elem_of_handler_sessions in Hi. apply close_all_is_Some. by eapply ok_handlers0.
Qed.

Lemma end_close_ok s s' : srv_ok s -> sv_closer s = Some [] -> end_close s = Ok s' -> srv_ok s'.
Proof.
  intros [] Hc. unfold end_close. destruct (sv_errorChan s) eqn:E; [done |]. intros [= <-].
  constructor; cbn; try done.
  - by rewrite ok_conn0, ok_closed0; destruct (sv_createdPacketConn s).
  - split; [by left |]. intros _. apply ok_server0. right. by rewrite Hc.
Qed.

Lemma queued_ok s i x : srv_ok s -> sv_sessions s !! i = Some x -> ss_pc x = Reporting ->
  (length (sv_sessionQueue s) < sessionQueue_cap)%nat ->
  srv_ok (set_queue (set_session s i (set_pc Established x)) (sv_sessionQueue s ++ [i]) (sv_accepted s)).
Proof.
  intros Hs Hx Hpc Hq. assert (Hnew : i ∉ reported s).
  { intros Hi. destruct (ok_reported s Hs i Hi) as (y & Hy & Hpc'). simplify_eq. rewrite Hpc in Hpc'. naive_solver. }
  assert (Hlt : (i < length (sv_sessions s))%nat) by (by eapply lookup_lt_Some).
  destruct Hs. unfold reported in *. constructor; unfold reported; cbn; try done; rewrite ?app_assoc.
  - apply NoDup_app. split_and!; [done | | apply NoDup_singleton]. intros j Hj. rewrite list_elem_of_singleton. by intros ->.
  - intros j. rewrite elem_of_app, list_elem_of_singleton. destruct (decide (j = i)) as [-> |].
    + intros _. rewrite list_lookup_insert_eq by done. eexists. split; [done | by left].
    + rewrite list_lookup_insert_ne by done. intros [Hj | ?]; [by apply ok_reported0 | done].
  - intros j y. rewrite elem_of_app, list_elem_of_singleton. destruct (decide (j = i)) as [-> |]; [by right |].
    rewrite list_lookup_insert_ne by done. intros. left. by eapply ok_established0.
  - rewrite length_app. cbn. lia.
  - intros id j Hj. rewrite lookup_lt_is_Some, length_insert, <- lookup_lt_is_Some. by eapply ok_handlers0.
  - intros id j pending Hp Hj. rewrite lookup_lt_is_Some, length_insert, <- lookup_lt_is_Some. by eapply ok_pending0.
Qed.

Ltac step_inv H := cbn in H; repeat case_match; simplify_eq.

Lemma set_initials_ok s l : srv_ok s -> srv_ok (set_initials s l).
Proof. by apply srv_ok_view. Qed.

Lemma pending_ok s pending pending' : srv_ok s -> sv_closer s = Some pending ->
  (forall p, p ∈ pending' -> p ∈ pending) -> srv_ok (set_closer s (sv_serverError s) (Some pending')).
Proof.
  intros [] Hc Hp. rewrite Hc in *. constructor; cbn; try done.
  - intros _. by apply ok_closer0.
  - rewrite ok_error0. by split; intros [? _].
  - rewrite ok_server0. by split; (intros [? | _]; [left | right]).
  - intros id i pending2 [= <-] Hi. eapply ok_pending0; [done |]. by apply Hp.
Qed.

Lemma step_ok s e s' : srv_ok s -> step s e = Some (Ok s') -> srv_ok s'.
Proof.
  intros Hs H. destruct e as [addr data r posByte rndv | p rnd connID newSession | i | i | i | i | id | | | e | id i | |].
  - step_inv H; [done | done | | done]. eapply srv_ok_view; [apply srv_handlePacket_view | done].
  - step_inv H. unfold srv_handleInitial. repeat case_match; try by apply (srv_ok_view s).
    by apply created_ok, set_initials_ok.
  - step_inv H. apply set_handler_ok; cbn; [by apply (srv_ok_view s) | done | done |]. intros id j.
    rewrite lookup_insert_Some. intros [[_ [= <-]] | [_ Hj]]; [by eexists | by eapply ok_handlers].
  - step_inv H. eapply set_session_ok; cbn; [done.. |]. right. right. intros Hi.
    destruct (ok_reported s Hs i Hi) as (y & Hy & Hpc). simplify_eq. destruct Hpc; congruence.
  - step_inv H. apply queued_ok; [done.. |]. by apply Nat.ltb_lt.
  - step_inv H; apply removed_ok; (eapply set_session_ok; [done | done | done | by right; left]).
  - step_inv H. by apply deleted_ok.
  - step_inv H. destruct Hs. unfold reported in *.
    match goal with E : sv_sessionQueue s = _ |- _ => rewrite E in * end.
    constructor; unfold reported; cbn; try done; rewrite <- ?app_assoc; try done. cbn in *. lia.
  - by step_inv H.
  - step_inv H; [done |]. by apply begin_close_ok.
  - step_inv H. apply (removed_ok (set_closer s _ _)). eapply pending_ok; [done | done | by intros ? ?%elem_of_remove_first].
  - step_inv H. by eapply end_close_ok.
  - done.
Qed.

Lemma reach_ok s : reach s -> srv_ok s.
Proof.
  induction 1 as [m created conn managers config pconn s m' Hm Hlen H | s e s' _ IH H]; [| by eapply step_ok].
  unfold listen, mux_AddConn in H. rewrite Hm in H. destruct (forallb _ _); cbn in H; [| done].
  rewrite Z.eqb_refl in H. cbn in H. injection H as <- <-. constructor; cbn; try done.
  - split; [done | by intros [_ ?]].
  - split; [done | by intros [? | ?]].
  - constructor.
  - intros i. by rewrite elem_of_nil.
  - unfold sessionQueue_cap. lia.

Qed.

(** What has been given to [Accept] only grows. *)
Lemma step_reported s e s' : step s e = Some (Ok s') -> reported s `prefix_of` reported s'.
Proof.
  intros H. destruct e; step_inv H; unfold reported; try done.
  - by match goal with |- context [srv_handlePacket ?s ?p ?a ?b ?c] =>
      pose proof (srv_handlePacket_view s p a b c) as Ev end; injection Ev as _ _ _ _ _ _ _ -> -> _.
  - unfold srv_handleInitial, createNewSession. by repeat case_match.
  - cbn. rewrite app_assoc. by apply prefix_app_r.
  - cbn. match goal with E : sv_sessionQueue s = _ |- _ => rewrite E end. by rewrite <- app_assoc.
  - unfold end_close in *. by case_match; simplify_eq.
Qed.

(** Packets from the network are lists of bytes. *)
Definition event_ok (e : event) : Prop := match e with Packet _ data _ _ _ => bytes data | _ => True end.

Lemma step_panics s e msg : srv_ok s -> event_ok e -> step s e = Some (Panic msg) -> e = ReadError.
Proof.
  intros Hs He H. destruct e; [| step_inv H.. | done].
  - step_inv H. match goal with E : handlePacket _ _ = Panic _ |- _ =>
      pose proof (handlePacket_routed (sv_handler s) data (ok_connIDLen s Hs) He) as Hr; rewrite E in Hr end. done.
  - unfold end_close in *. case_match; simplify_eq. destruct Hs. rewrite ok_closer0 in ok_closed0; congruence.
Qed.

(** ** Closing *)

Lemma run_app s es es' : run s (es ++ es') = match run s es with Some s => run s es' | None => None end.
Proof.
  revert s. induction es as [| e es IH]; intros s; [done |]. cbn.
  by destruct (step s e) as [[s' | |] |].
Qed.

Lemma run_reach s es s' : reach s -> run s es = Some s' -> reach s'.
Proof.
  revert s. induction es as [| e es IH]; intros s Hs; cbn; [by intros [= <-] |].
  destruct (step s e) as [[s1 | |] |] eqn:E; [| done..]. apply IH. by eapply reach_step.
Qed.

(** What every step keeps, every run keeps. *)
Lemma srv_run_keeps (P : server -> Prop) es :
  (forall s e s', e ∈ es -> P s -> step s e = Some (Ok s') -> P s') -> forall s s', P s -> run s es = Some s' -> P s'.
Proof.
  induction es as [| e es IH]; intros Hstep s s' Hs; cbn; [by intros [= <-] |].
  destruct (step s e) as [[s1 | |] |] eqn:E; [| done..]. apply IH.
  - intros ? ? ? ?. apply Hstep. by right.
  - eapply Hstep; [by left | done | done].
Qed.

Definition ended (s : server) (i : nat) : Prop := exists x, sv_sessions s !! i = Some x /\ ss_pc x = Ended.

(** The states of the sessions after a step, but for one. *)
Lemma step_sessions s e s' i x : step s e = Some (Ok s') -> sv_sessions s !! i = Some x ->
  exists x', sv_sessions s' !! i = Some x' /\ ss_connID x' = ss_connID x
    /\ (e <> HandshakeComplete i -> e <> Report i -> e <> End_ i -> ss_pc x' = ss_pc x)
    /\ (ss_pc x = Ended -> ss_pc x' = Ended).
Proof.
  intros H Hx.
  assert (Hins : forall j y pc, sv_sessions s !! j = Some y -> (j = i -> ss_pc y <> Ended) ->
    exists x', <[j := set_pc pc y]> (sv_sessions s) !! i = Some x' /\ ss_connID x' = ss_connID x
      /\ (j <> i -> ss_pc x' = ss_pc x) /\ (ss_pc x = Ended -> ss_pc x' = Ended)).
  { intros j y pc Hy Hne. destruct (decide (j = i)) as [-> |].
    - rewrite list_lookup_insert_eq by (by eapply lookup_lt_Some). simplify_eq. eexists. split_and!; [done.. |].
      intros E. by destruct Hne.
    - rewrite list_lookup_insert_ne by done. by eauto. }
  destruct e; step_inv H; try (by eauto); cbn [sv_sessions set_session set_queue set_handler srv_remove];
    try match goal with |- context [<[?j := set_pc ?pc ?y]> _] =>
      destruct (Hins j y pc) as (x' & ? & ? & Hk & ?); [done | congruence |];
      exists x'; split_and!; [done | done | by intros; apply Hk; congruence | done] end.
  - match goal with |- context [srv_handlePacket ?s ?p ?a ?b ?c] =>
      pose proof (srv_handlePacket_view s p a b c) as Ev end. injection Ev as _ _ _ _ _ _ _ _ _ ->. by eauto.
  - unfold srv_handleInitial, createNewSession. repeat case_match; cbn; try (by eauto).
    exists x. split_and!; [by apply lookup_app_l_Some | done..].
  - destruct (close_all_back (handler_sessions (sv_handler s)) _ i x Hx) as (y & Hy & Ey & Ec). exists y.
    split_and!; [done.. | by intros | by rewrite Ey].
  - unfold end_close in *. case_match; simplify_eq. by eauto.
Qed.

Lemma step_ended s e s' i : step s e = Some (Ok s') -> ended s i -> ended s' i.
Proof.
  intros H (x & Hx & Hpc). destruct (step_sessions s e s' i x H Hx) as (x' & Hx' & _ & _ & Hpc'). exists x'. by auto.
Qed.

(** The steps of [Close] and [closeWithError] alone close the server. *)
Definition closes (e : event) : bool := match e with Close _ | CloseSession _ _ | CloseDone => true | _ => false end.

Lemma step_close_fields s e s' : closes e = false -> step s e = Some (Ok s') ->
  sv_closed s' = sv_closed s /\ sv_closer s' = sv_closer s /\ sv_serverError s' = sv_serverError s
  /\ sv_createdPacketConn s' = sv_createdPacketConn s.
Proof.
  intros He H. destruct e; step_inv H; try done; try discriminate.
  - match goal with |- context [srv_handlePacket ?s ?p ?a ?b ?c] =>
      pose proof (srv_handlePacket_view s p a b c) as Ev end. by injection Ev as -> _ -> -> _ -> _ _ _ _.
  - unfold srv_handleInitial, createNewSession. by repeat case_match.
Qed.

Definition server_closed : go_error := Errorf "server closed" [].

(** A server that is being closed with [e], of which the sessions [l] have to end. *)
Definition closing_with (e : option go_error) (l : list (list Z * nat)) (s : server) : Prop :=
  (exists pending, sv_closer s = Some pending /\ sv_closed s = false /\ sv_serverError s = e
     /\ forall id i, (id, i) ∈ l -> (id, i) ∈ pending \/ ended s i)
  \/ (sv_closer s = None /\ sv_closed s = true /\ sv_serverError s = Some (default server_closed e)
      /\ forall id i, (id, i) ∈ l -> ended s i).

Lemma step_closing e l s ev s' : closing_with e l s -> step s ev = Some (Ok s') -> closing_with e l s'.
Proof.
  intros Hc H. assert (Hend := fun i => step_ended s ev s' i H). destruct (closes ev) eqn:Ev.
  - destruct Hc as [(pending & Hc & Hcl & He & Hl) | (Hc & Hcl & He & Hl)]; destruct ev; try discriminate;
      cbn in H; rewrite Hc in H; try done.
    + destruct (sv_sessions s !! i) as [x |] eqn:Hx; [| done]. case_decide; [| done].
      destruct (ss_pc x) eqn:Hpc; [done.. |]. injection H as <-. left. eexists. split_and!; [done.. |]. cbn.
      intros id' j Hj. destruct (Hl id' j Hj) as [Hp | Hp]; [| by right; apply Hend].
      destruct (elem_of_remove_first_ne (id', j) (id, i) pending Hp) as [[= -> ->] | ?]; [| by left].
      right. by exists x.
    + destruct pending; [| done]. unfold end_close in H. destruct (sv_errorChan s); [done |]. injection H as <-. right. cbn.
      split_and!; [done | done | by rewrite He; destruct e |]. intros id i Hi.
      destruct (Hl id i Hi) as [Hn | Hn]; [by apply elem_of_nil in Hn | done].
    + rewrite Hcl in H. injection H as <-. right. by split_and!.
  - destruct (step_close_fields s ev s' Ev H) as (E1 & E2 & E3 & _).
    destruct Hc as [(pending & Hc & Hcl & He & Hl) | (Hc & Hcl & He & Hl)]; [left; exists pending | right];
      (split_and!; [congruence.. | intros id i Hi]).
    + destruct (Hl id i Hi) as [? | ?]; [by left | right; by apply Hend].
    + apply Hend. by eapply Hl.
Qed.

Lemma run_closing e l s es s' : closing_with e l s -> run s es = Some s' -> closing_with e l s'.
Proof. apply srv_run_keeps. intros ? ? ? _. apply step_closing. Qed.

Lemma begin_closing s e : srv_ok s -> sv_closer s = None -> sv_closed s = false ->
  closing_with e (handler_sessions (sv_handler s)) (begin_close s e).
Proof.
  intros Hs Hc Hcl. left. eexists. split_and!; [done | done | | by left]. cbn. destruct e as [e |]; [done |].
  destruct (sv_serverError s) eqn:E; [| done]. pose proof (ok_error s Hs) as Ho. rewrite Hcl, E in Ho.
  by assert (false = true) by (by apply Ho).
Qed.

(** ** A session that cannot end *)

Definition stuck (id : list Z) (i : nat) (s : server) : Prop :=
  (exists pending, sv_closer s = Some pending /\ (id, i) ∈ pending) /\ sv_closed s = false
  /\ (exists x, sv_sessions s !! i = Some x /\ ss_pc x = Reporting)
  /\ (sessionQueue_cap <= length (sv_sessionQueue s))%nat.

Lemma step_queue s e s' : e <> Accept -> step s e = Some (Ok s') ->
  (length (sv_sessionQueue s) <= length (sv_sessionQueue s'))%nat.
Proof.
  intros He H. destruct e; step_inv H; try done.
  - match goal with |- context [srv_handlePacket ?s ?p ?a ?b ?c] =>
      pose proof (srv_handlePacket_view s p a b c) as Ev end. by injection Ev as _ _ _ _ _ _ _ _ -> _.
  - unfold srv_handleInitial, createNewSession. by repeat case_match.
  - cbn. rewrite length_app. lia.
  - unfold end_close in *. by case_match; simplify_eq.
Qed.

Lemma step_stuck id i s e s' : e <> Accept -> stuck id i s -> step s e = Some (Ok s') -> stuck id i s'.
Proof.
  intros He ((pending & Hc & Hin) & Hcl & (x & Hx & Hpc) & Hq) H.
  assert (Hx' : exists x, sv_sessions s' !! i = Some x /\ ss_pc x = Reporting).
  { destruct (step_sessions s e s' i x H Hx) as (x' & Hx' & _ & Hsame & _). exists x'. split; [done |].
    rewrite <- Hpc. apply Nat.ltb_ge in Hq. apply Hsame; intros ->; cbn [step] in H; rewrite Hx, Hpc in H; [done | | done].
    by rewrite Hq in H. }
  pose proof (step_queue s e s' He H). split; [| split; [| split; [done | lia]]].
  - destruct (closes e) eqn:Ec; [| destruct (step_close_fields s e s' Ec H) as (_ & -> & _); by exists pending].
    destruct e as [| | | | | | | | | e | id' j | |]; try discriminate; cbn in H; rewrite Hc in H; try done.
    + destruct (sv_sessions s !! j) as [y |] eqn:Hy; [| done]. case_decide; [| done].
      destruct (ss_pc y) eqn:Hpy; [done.. |]. injection H as <-. eexists. split; [done |].
      destruct (elem_of_remove_first_ne (id, i) (id', j) pending Hin) as [[= -> ->] | ?]; [congruence | done].
    + destruct pending; [by apply elem_of_nil in Hin | done].
  - destruct (closes e) eqn:Ec; [| by destruct (step_close_fields s e s' Ec H) as (-> & _)].
    destruct e as [| | | | | | | | | e | id' j | |]; try discriminate; cbn in H; rewrite Hc in H; try done.
    + repeat case_match; by simplify_eq.
    + destruct pending; [by apply elem_of_nil in Hin | done].
Qed.

(** ** A run in which the server closes *)

Lemma run_one s e s' : step s e = Some (Ok s') -> run s [e] = Some s'.
Proof. intros H. cbn. by rewrite H. Qed.

Lemma run_ok s es s' : srv_ok s -> run s es = Some s' -> srv_ok s'.
Proof. apply srv_run_keeps. intros ? ? ? _. apply step_ok. Qed.

Lemma session_ends s i x : sv_sessions s !! i = Some x -> (ss_pc x = Handshaking \/ ss_pc x = Established) ->
  exists s', run s [End_ i] = Some s' /\ ended s' i /\ sv_closer s' = sv_closer s.
Proof.
  intros Hx Hpc. eexists. split_and!; [apply run_one; cbn [step]; rewrite Hx; destruct Hpc as [-> | ->]; reflexivity | | done].
  eexists. split; [by apply list_lookup_insert_eq; eapply lookup_lt_Some | done].
Qed.

Lemma session_reports s i x : sv_sessions s !! i = Some x -> ss_pc x = Reporting ->
  (length (sv_sessionQueue s) < sessionQueue_cap)%nat ->
  exists s' x', run s [Report i] = Some s' /\ sv_sessions s' !! i = Some x' /\ ss_pc x' = Established /\ sv_closer s' = sv_closer s.
Proof.
  intros Hx Hpc Hq%Nat.ltb_lt. eexists _, _. split_and!.
  - apply run_one. cbn [step]. rewrite Hx, Hpc, Hq. reflexivity.
  - by apply list_lookup_insert_eq; eapply lookup_lt_Some.
  - done.
  - done.
Qed.

Lemma room_for_one s : srv_ok s ->
  exists es s', run s es = Some s' /\ (length (sv_sessionQueue s') < sessionQueue_cap)%nat
    /\ sv_sessions s' = sv_sessions s /\ sv_closer s' = sv_closer s.
Proof.
  intros Hs. destruct (sv_sessionQueue s) as [| j queue] eqn:Eq.
  - exists [], s. rewrite Eq. split_and!; [done | cbn; unfold sessionQueue_cap; lia | done | done].
  - eexists [Accept], _. split_and!; [cbn; rewrite Eq; reflexivity | | done | done].
    pose proof (ok_room s Hs) as Hr. rewrite Eq in Hr. cbn in *. lia.
Qed.

Lemma session_can_end s i : srv_ok s -> is_Some (sv_sessions s !! i) ->
  exists es s', run s es = Some s' /\ ended s' i /\ sv_closer s' = sv_closer s.
Proof.
  intros Hs [x Hx]. destruct (ss_pc x) eqn:Hpc.
  - destruct (session_ends s i x Hx (or_introl Hpc)) as (s' & H & ? & ?). by exists [End_ i], s'.
  - destruct (room_for_one s Hs) as (es & s1 & Hr1 & Hq & Es & Ec1).
    destruct (session_reports s1 i x) as (s2 & x2 & Hr2 & Hx2 & Hpc2 & Ec2); [by rewrite Es | done | done |].
    destruct (session_ends s2 i x2 Hx2 (or_intror Hpc2)) as (s3 & Hr3 & He & Ec3).
    exists (es ++ [Report i] ++ [End_ i]), s3. split_and!; [by rewrite run_app, Hr1, run_app, Hr2 | done | congruence].
  - destruct (session_ends s i x Hx (or_intror Hpc)) as (s' & H & ? & ?). by exists [End_ i], s'.
  - exists [], s. split_and!; [done | by exists x | done].
Qed.

Lemma can_close pending s : srv_ok s -> sv_closer s = Some pending -> exists es s', run s es = Some s' /\ sv_closed s' = true.
Proof.
  revert s. induction pending as [| [id i] pending IH]; intros s Hs Hc.
  - eexists [CloseDone], _. cbn. rewrite Hc. unfold end_close.
    rewrite <- (ok_closed s Hs), (ok_closer s Hs) by (by rewrite Hc). by split.
  - destruct (session_can_end s i Hs) as (es & s1 & Hr1 & (x & Hx & Hpc) & Ec).
    { eapply (ok_pending s Hs id i); [done | by left]. }
    rewrite Hc in Ec.
    set (s2 := srv_remove (set_closer s1 (sv_serverError s1) (Some pending)) id).
    assert (Hr2 : run s1 [CloseSession id i] = Some s2).
    { apply run_one. cbn [step]. rewrite Ec, Hx, Hpc. rewrite decide_True by (by left). cbn. by rewrite decide_True. }
    destruct (IH s2) as (es' & s3 & Hr3 & Hcl); [| done |].
    { eapply run_ok; [by eapply run_ok | done]. }
    exists (es ++ [CloseSession id i] ++ es'), s3. split; [| done]. by rewrite run_app, Hr1, run_app, Hr2.
Qed.

(** ** Theorems *)


(** C21. [Close] and [closeWithError]: once the server is closed, every session
    that was in the handler map has ended; [Accept] returns the error of the
    first call, or that the server was closed, and later calls do not change
    it; from every state on the way there is a run in which it gets there. *)
Theorem close_correct s e es s' : reach s -> sv_closer s = None -> sv_closed s = false ->
  run s (Close e :: es) = Some s' ->
  (sv_closed s' = true ->
     sv_serverError s' = Some (default server_closed e) /\ inr (sv_serverError s') ∈ accept_results s'
     /\ (forall id i, handlers (sv_handler s) !! id = Some (Some i) -> ended s' i)
     /\ forall es' s'', run s' es' = Some s'' -> sv_closed s'' = true /\ sv_serverError s'' = sv_serverError s')
  /\ exists es' s'', run s' es' = Some s'' /\ sv_closed s'' = true.
Proof.
  intros Hr Hc Hcl H. pose proof (reach_ok s Hr) as Hs. pose proof (run_ok s _ s' Hs H) as Hs'.
  cbn in H. rewrite Hc, Hcl in H. pose proof (begin_closing s e Hs Hc Hcl) as Hb.
  pose proof (run_closing _ _ _ es s' Hb H) as Hc'. split.
  - intros Hcl'. destruct Hc' as [(? & _ & ? & _) | Hd]; [congruence |]. pose proof Hd as (Hn & _ & He & Hl). split_and!; [done | | |].
    + unfold accept_results. rewrite <- (ok_closed s' Hs'), Hcl', elem_of_app. right. by left.
    + intros id i Hi. eapply (Hl id), elem_of_handler_sessions. done.
    + intros es' s'' H'. pose proof Hd as (_ & _ & He' & _).
      assert (Hk : sv_closer s'' = None /\ sv_closed s'' = true /\ sv_serverError s'' = sv_serverError s');
        [| by destruct Hk as (_ & ? & ?)].
      revert H'. apply (srv_run_keeps (fun t => sv_closer t = None /\ sv_closed t = true /\ sv_serverError t = sv_serverError s'));
        [| done]. intros t ev t' _ (H1 & H2 & H3) Ht. destruct (closes ev) eqn:Ev.
      * destruct ev; try discriminate; cbn in Ht; rewrite H1 in Ht; try done. rewrite H2 in Ht. by injection Ht as <-.
      * destruct (step_close_fields t ev t' Ev Ht) as (-> & -> & -> & _). done.
  - destruct Hc' as [(pending & Hp & _) | (_ & Hcl' & _)]; [by apply (can_close pending) | by exists [], s'].
Qed.

(** [Close] may need [Accept]: a session that completes its handshake waits
    until there is room in the queue of five, and does not end meanwhile; when
    the server is closed then, [Close] does not return, whatever else happens,
    until [Accept] is called. *)
Theorem close_needs_accept s id i pending x es s' :
  sv_closer s = Some pending -> (id, i) ∈ pending -> sv_closed s = false ->
  sv_sessions s !! i = Some x -> ss_pc x = Reporting -> (sessionQueue_cap <= length (sv_sessionQueue s))%nat ->
  Accept ∉ es -> run s es = Some s' ->
  sv_closed s' = false /\ sv_closer s' <> None
  /\ exists x', sv_sessions s' !! i = Some x' /\ ss_pc x' = Reporting.
Proof.
  intros Hc Hin Hcl Hx Hpc Hq Hes H. assert (Hst : stuck id i s) by (split_and!; eauto).
  assert (Hst' : stuck id i s').
  { revert Hst H. apply srv_run_keeps. intros t e t' He. apply step_stuck. by intros ->. }
  destruct Hst' as ((pending' & Hc' & _) & Hcl' & Hx' & _). split_and!; [done | by rewrite Hc' | done].
Qed.

(** When a server that has made its connection is closed, the goroutine that reads
    from the connection gets no packet any more: its next step panics. *)
Theorem closed_server_panics s addr data r posByte rndv : reach s -> sv_createdPacketConn s = true -> sv_closed s = true ->
  step s (Packet addr data r posByte rndv) = None /\ exists msg, step s ReadError = Some (Panic msg).
Proof.
  intros Hr%reach_ok Hcr Hcl. split; [| by eexists]. cbn. by rewrite (ok_conn s Hr), Hcr, Hcl.
Qed.
End server.

(** A server that takes every cookie, and a client's first packet. *)
Definition any_token (addr : UDPAddr) (id : list Z) : outcome (list Z) := Ok [1].
Definition no_decode (token : list Z) : outcome Cookie := Err EOF.
Definition any_cookie (addr : UDPAddr) (c : option Cookie) : bool := true.
Definition first_packet : list Z :=
  match Header_Write 0 (mkHeader [] VersionTLS [1; 2; 3; 4; 5; 6; 7; 8] [9; 9; 9; 9] [] 1 0 false [] PacketTypeInitial true 0 1200 []) with
  | Ok b => b ++ replicate 1200 0
  | _ => []
  end.
Definition sample_received : received :=
  match handlePacket (SetServer (newPacketHandlerMap (H := nat) 4) tt) first_packet with
  | Ok (ToServer _ hdr d) => mkReceived sample_addr hdr d
  | _ => mkReceived sample_addr (mkHeader [] 0 [] [] [] 0 0 false [] 0 false 0 0 []) []
  end.
(** A session is created and completes its handshake. *)
Definition sample_session (i : nat) : list event :=
  [Packet sample_addr first_packet 0 0 0; Initial sample_received 0 [Z.of_nat i; 0; 0; 0] true; AddSession i; HandshakeComplete i].
Definition sample_server : server :=
  match listen ∅ 0 0 (fun _ => newPacketHandlerMap 4) (Ok tt) None true with
  | (Ok s, _) => s
  | _ => mkServer no_config false false None false false [] (newPacketHandlerMap 4) [] [] [] [] None [] []
  end.
Abbreviation sample_run := (run any_token no_decode any_cookie).
Abbreviation sample_reach := (reach any_token no_decode any_cookie).

Lemma sample_server_reach : sample_reach sample_server.
Proof. by eapply (reach_new _ _ _ ∅ 0%nat 0%nat (fun _ => newPacketHandlerMap 4) None true). Qed.

(** Six sessions, of which five are in the queue. *)
Definition six_sessions : list event :=
  concat ((fun i => sample_session i ++ [Report i]) <$> seq 0 5) ++ sample_session 5.
Definition full_server : server := default sample_server (sample_run sample_server six_sessions).
Definition closing_server : server := begin_close full_server None.

Lemma full_server_run : sample_run sample_server six_sessions = Some full_server.
Proof. vm_compute. reflexivity. Qed.

Lemma full_server_reach : sample_reach full_server.
Proof. eapply run_reach; [apply sample_server_reach | apply full_server_run]. Qed.


Lemma close_correct_witness : exists es s, sample_run closing_server es = Some s /\ sv_closed s = true.
Proof.
  apply (close_correct any_token no_decode any_cookie full_server None [] closing_server full_server_reach);
    vm_compute; reflexivity.
Defined.

(** A goroutine that handles an Initial packet does not see that the server was
    closed meanwhile: it starts a session, which nothing closes, and adds it. *)
Definition late_session : list event :=
  [Packet sample_addr first_packet 0 0 0; Close None; CloseDone; Initial sample_received 0 [1; 2; 3; 4] true; AddSession 0].

Theorem session_after_close : exists s x, sample_run sample_server late_session = Some s
  /\ sv_closed s = true /\ handlers (sv_handler s) !! [1; 2; 3; 4] = Some (Some 0%nat)
  /\ sv_sessions s !! 0%nat = Some x /\ ss_pc x = Handshaking /\ ss_closing x = false.
Proof. eexists _, _. split; [vm_compute; reflexivity |]. split_and!; reflexivity. Qed.

(** Two copies of a packet start two sessions. *)
Definition repeated_packet : list event :=
  [Packet sample_addr first_packet 0 0 0; Packet sample_addr first_packet 0 0 0;
   Initial sample_received 0 [1; 2; 3; 4] true; Initial sample_received 0 [5; 6; 7; 8] true].

Theorem repeated_initial_two_sessions : exists s, sample_run sample_server repeated_packet = Some s
  /\ length (sv_sessions s) = 2%nat.
Proof. eexists. split; [vm_compute; reflexivity |]. reflexivity. Qed.

Definition waiting_server : server :=
  default sample_server (sample_run closing_server [End_ 0; CloseSession [0; 0; 0; 0] 0]).

Lemma close_needs_accept_witness : sv_closed waiting_server = false /\ sv_closer waiting_server <> None.
Proof.
  destruct (close_needs_accept any_token no_decode any_cookie closing_server [5; 0; 0; 0] 5
    (handler_sessions (sv_handler full_server))
    (mkSrvSession [5; 0; 0; 0] (server_params (populateServerConfig None) []) VersionTLS Reporting true)
    [End_ 0; CloseSession [0; 0; 0; 0] 0] waiting_server) as (H1 & H2 & _).
  - vm_compute. reflexivity.
  - apply elem_of_handler_sessions. vm_compute. reflexivity.
  - vm_compute. reflexivity.
  - vm_compute. reflexivity.
  - reflexivity.
  - apply Nat.leb_le. vm_compute. reflexivity.
  - intros [? | [? | ?%elem_of_nil]%elem_of_cons]%elem_of_cons; done.
  - vm_compute. reflexivity.
  - exact (conj H1 H2).
Defined.
