(* ===== verification/Dialing.v ===== *)
(** * Dialing (client.go)

    The goroutines of a client: [dial], which waits for the session to complete
    its handshake or to end and starts again after a version negotiation or a
    Retry; the run loop of the session; and the handler of the packets, as
    Endpoints models it.  Steps are executed one at a time, in any order. *)

From S2P Require Import Prelude Qerr Varint Protocol AckFrame Frames FrameCodec FrameParser FrameSorter.
From S2P Require Import Header Float FlowControl SentHistory SendStream ReceiveStream CryptoStream Framer Packer Receiving.
From S2P Require Import TransportParams Endpoints Listener.

(** What ends a session or [dial]. *)
Inductive dial_error : Type := RunError (e : close_reason) | ContextError | SessionError.

(** The run loop; [complete] is [handshakeComplete]. *)
Inductive client_run : Type := Running (complete : bool) | Stopped.

Record dial_sys : Type := mkDial {
  dl_sys : client_sys;
  dl_params : TransportParameters;
  dl_run : client_run;
  dl_handshakeChan : bool;                       (* closed *)
  dl_errorChan : option dial_error;
  dl_cancelled : bool;                           (* Close was called for the context *)
  dl_result : option (option dial_error) }.      (* what dial has returned *)

Inductive dial_event : Type :=
| DialPacket (ids : outcome (list Z * list Z)) (hdr : Header) (data : list Z)
| DialHandshake
| DialEnd (e : close_reason)
| DialTimer (id : list Z)
| DialSelectError (newSession : bool)
| DialSelectHandshake
| DialContext
| DialClosed.

Definition is_restart (e : dial_error) : bool :=
  match e with RunError CloseForNewVersion | RunError CloseForRetry => true | _ => false end.

(** [createNewTLSSession] and the start of [establishSecureConnection], with a
    channel for the error of its own. *)
Definition dial_start (config : Config) (c : client) (m : packetHandlerMap) (timers : list (list Z)) (handshakeChan : bool)
    : dial_sys :=
  mkDial (start_session c m timers) (client_params config) (Running false) handshakeChan None false None.

Definition dialContext (config : option Config) (createdPacketConn : bool) (ids : list Z * list Z) : outcome dial_sys :=
  let config := populateClientConfig config createdPacketConn in
  c ← newClient (Config_Versions config) ids;
  Ok (dial_start config c (newPacketHandlerMap (ConnectionIDLength config)) [] false).

Definition with_sys (s : dial_sys) (sys : client_sys) (run : client_run) (handshakeChan : bool) (errorChan : option dial_error)
    : dial_sys :=
  mkDial sys (dl_params s) run handshakeChan errorChan (dl_cancelled s) (dl_result s).

Definition dial_return (s : dial_sys) (r : option dial_error) : dial_sys :=
  mkDial (dl_sys s) (dl_params s) (dl_run s) (dl_handshakeChan s) (dl_errorChan s) (dl_cancelled s) (Some r).

(** The session is closed with [r], unless it is already. *)
Definition close_session (sys : client_sys) (r : close_reason) : client_sys :=
  mkClientSys (cs_client sys) (cs_session sys) (closing [Destroy r] (cs_closing sys)) (cs_map sys) (cs_timers sys).

(** Whether the select of [establishSecureConnection] waits. *)
Definition selecting (s : dial_sys) : bool :=
  match dl_result s with None => negb (dl_cancelled s) | Some _ => false end.

Definition dial_step (config : Config) (s : dial_sys) (e : dial_event) : option (outcome dial_sys) :=
  let sys := dl_sys s in
  match e with
  | DialPacket ids hdr data =>
      let '(_, calls, c) := client_handlePacketImpl ids (cs_client sys) hdr data in
      Some (Ok (with_sys s (mkClientSys c (cs_session sys) (closing calls (cs_closing sys)) (cs_map sys) (cs_timers sys))
                  (dl_run s) (dl_handshakeChan s) (dl_errorChan s)))
  | DialHandshake =>
      match dl_run s with
      | Running false =>
          if dl_handshakeChan s then Some (Panic "close of closed channel")
          else Some (Ok (with_sys s sys (Running true) true (dl_errorChan s)))
      | _ => None
      end
  | DialEnd e =>
      match dl_run s with
      | Running _ =>
          let r := default e (cs_closing sys) in
          let id := sa_srcConnID (cs_session sys) in
          let sys := close_session sys e in
          Some (Ok (with_sys s (mkClientSys (cs_client sys) (cs_session sys) (cs_closing sys) (ph_Remove (cs_map sys) id)
                                  (id :: cs_timers sys))
                      Stopped (dl_handshakeChan s) (Some (RunError r))))
      | Stopped => None
      end
  | DialTimer id =>
      if decide (id ∈ cs_timers sys) then
        Some (Ok (with_sys s (mkClientSys (cs_client sys) (cs_session sys) (cs_closing sys) (ph_delete (cs_map sys) id)
                                (remove_first id (cs_timers sys)))
                    (dl_run s) (dl_handshakeChan s) (dl_errorChan s)))
      else None
  | DialSelectError newSession =>
      match dl_errorChan s with
      | Some e =>
          if negb (selecting s) then None
          else if negb (is_restart e) then Some (Ok (dial_return s (Some e)))
          else if negb newSession then Some (Ok (dial_return s (Some SessionError)))
          else Some (Ok (dial_start config (cs_client sys) (cs_map sys) (cs_timers sys) (dl_handshakeChan s)))
      | None => None
      end
  | DialSelectHandshake =>
      if selecting s && dl_handshakeChan s then Some (Ok (dial_return s None)) else None
  | DialContext =>
      if selecting s then
        Some (Ok (mkDial (close_session sys (CloseWithError (ErrorCode PeerGoingAway))) (dl_params s) (dl_run s) (dl_handshakeChan s)
                    (dl_errorChan s) true None))
      else None
  | DialClosed =>
      match dl_run s, dl_result s with
      | Stopped, None => if dl_cancelled s then Some (Ok (dial_return s (Some ContextError))) else None
      | _, _ => None
      end
  end.

(** The end of a session that was not asked to end is an error of its own. *)
Definition dial_event_ok (e : dial_event) : Prop := match e with DialEnd e => is_restart (RunError e) = false | _ => True end.

Inductive dial_reach (config : Config) : dial_sys -> Prop :=
| dial_new ids s opt created : config = populateClientConfig opt created -> dialContext opt created ids = Ok s -> dial_reach config s
| dial_next s e s' : dial_reach config s -> dial_event_ok e -> dial_step config s e = Some (Ok s') -> dial_reach config s'.

Fixpoint dial_run (config : Config) (s : dial_sys) (es : list dial_event) : option (outcome dial_sys) :=
  match es with
  | [] => Some (Ok s)
  | e :: es => match dial_step config s e with Some (Ok s) => dial_run config s es | r => r end
  end.

(** ** The invariant *)

Record dial_ok (config : Config) (s : dial_sys) : Prop := {
  do_negotiation : negotiation_ok (Config_Versions config) (cs_client (dl_sys s));
  do_session : cs_closing (dl_sys s) = None -> cs_session (dl_sys s) = createNewTLSSession (cs_client (dl_sys s));
  do_params : dl_params s = client_params config;
  do_error : dl_errorChan s = match dl_run s with Running _ => None | Stopped => RunError <$> cs_closing (dl_sys s) end;
  do_stopped : dl_run s = Stopped -> is_Some (cs_closing (dl_sys s));
  do_complete : dl_run s = Running true -> dl_handshakeChan s = true;
  do_success : dl_result s = Some None -> dl_handshakeChan s = true;
  do_failure e : dl_result s = Some (Some e) -> is_restart e = false;
  do_cancelled : dl_cancelled s = true -> is_Some (cs_closing (dl_sys s)) /\ dl_result s <> Some None }.

Lemma closing_some calls r : closing calls (Some r) = Some r.
Proof. by induction calls as [| [e | hdr data] calls IH]. Qed.

Lemma closing_is_Some calls r : is_Some r -> closing calls r = r.
Proof. intros [x ->]. apply closing_some. Qed.

Lemma dial_start_ok config c m timers handshakeChan : negotiation_ok (Config_Versions config) c ->
  dial_ok config (dial_start config c m timers handshakeChan).
Proof. by constructor. Qed.

Lemma dial_return_ok config s r : dial_ok config s -> (r = None -> dl_handshakeChan s = true /\ dl_cancelled s = false) ->
  (forall e, r = Some e -> is_restart e = false) -> dial_ok config (dial_return s r).
Proof.
  intros [] H1 H2. constructor; cbn; try done.
  - intros [= ->]. by apply H1.
  - intros e [= ->]. by apply H2.
  - intros Hc. split; [by apply do_cancelled0 |]. intros [= ->]. destruct H1 as [_ H]; [done | congruence].
Qed.

Lemma selecting_true s : selecting s = true -> dl_result s = None /\ dl_cancelled s = false.
Proof. unfold selecting. destruct (dl_result s), (dl_cancelled s); done. Qed.

Lemma dial_packet_ok config s ids hdr data err calls c : dial_ok config s ->
  client_handlePacketImpl ids (cs_client (dl_sys s)) hdr data = (err, calls, c) ->
  dial_ok config (with_sys s (mkClientSys c (cs_session (dl_sys s)) (closing calls (cs_closing (dl_sys s))) (cs_map (dl_sys s))
    (cs_timers (dl_sys s))) (dl_run s) (dl_handshakeChan s) (dl_errorChan s)).
Proof.
  intros [] H. destruct (client_packet_ok _ _ _ _ _ _ _ _ do_negotiation0 H) as (Hn & Hs & _).
  constructor; cbn; try done.
  - intros Hc%closing_none. destruct Hc as [Hc1 Hc2]. rewrite do_session0 by done. symmetry. by apply Hs.
  - rewrite do_error0. destruct (dl_run s); [done |]. by rewrite closing_is_Some by (by apply do_stopped0).
  - intros Hst%do_stopped0. by rewrite closing_is_Some.
  - intros Hc%do_cancelled0. destruct Hc. by rewrite closing_is_Some.
Qed.

Lemma dial_end_ok config s e complete m timers : dial_ok config s -> dl_run s = Running complete ->
  dial_ok config (with_sys s (mkClientSys (cs_client (dl_sys s)) (cs_session (dl_sys s))
    (closing [Destroy e] (cs_closing (dl_sys s))) m timers) Stopped (dl_handshakeChan s)
    (Some (RunError (default e (cs_closing (dl_sys s)))))).
Proof.
  intros [] Hrun. constructor; cbn; try done; try (by destruct (cs_closing (dl_sys s))).
  intros Hc%do_cancelled0. destruct Hc as [[r Hr] ?]. by rewrite Hr.
Qed.

Lemma dial_step_ok config s e s' : dial_ok config s -> dial_step config s e = Some (Ok s') -> dial_ok config s'.
Proof.
  intros Hs H. destruct e as [ids hdr data | | e | id | newSession | | |]; cbn -[client_handlePacketImpl] in H.
  - destruct (client_handlePacketImpl _ _ _ _) as [[err calls] c] eqn:E. injection H as <-. by eapply dial_packet_ok.
  - repeat case_match; simplify_eq. destruct Hs. constructor; cbn; try done.
    match goal with E : dl_run s = _ |- _ => by rewrite E in do_error0 end.
  - destruct (dl_run s) eqn:Er; [| done]. injection H as <-. by eapply dial_end_ok.
  - repeat case_match; simplify_eq. by destruct Hs.
  - destruct (dl_errorChan s) as [e |] eqn:Ee; [| done]. destruct (selecting s) eqn:Esel; [| done].
    apply selecting_true in Esel as [_ Hcan]. cbn [negb] in H. destruct (is_restart e) eqn:Er; cbn [negb] in H.
    + destruct newSession; injection H as <-; [by apply dial_start_ok, Hs |].
      apply dial_return_ok; [done | done |]. by intros ? [= <-].
    + injection H as <-. apply dial_return_ok; [done | done |]. by intros ? [= <-].
  - destruct (selecting s) eqn:Esel; [| done]. destruct (dl_handshakeChan s) eqn:Eh; [| done]. injection H as <-.
    apply selecting_true in Esel as [_ Hcan]. by apply dial_return_ok.
  - destruct (selecting s) eqn:Esel; [| done]. injection H as <-. destruct Hs. constructor; cbn; try done;
      try (by destruct (cs_closing (dl_sys s))). rewrite do_error0. destruct (dl_run s); [done |].
    by destruct (do_stopped0 eq_refl) as [r ->].
  - repeat case_match; simplify_eq. apply dial_return_ok; [done | done |]. by intros ? [= <-].
Qed.

Lemma valid_version v : IsValidVersion v = true -> v = VersionTLS.
Proof.
  unfold IsValidVersion, SupportedVersions, IsSupportedVersion. rewrite (Z.eqb_sym VersionTLS v).
  by destruct (Z.eqb_spec v VersionTLS).
Qed.

Lemma valid_versions l : forallb IsValidVersion l = true -> Forall (fun v => v = VersionTLS) l.
Proof. rewrite forallb_forall. intros H. apply List.Forall_forall. intros v Hv. by apply valid_version, H. Qed.

Lemma dial_reach_ok config s : dial_reach config s -> dial_ok config s /\ Forall (fun v => v = VersionTLS) (Config_Versions config).
Proof.
  induction 1 as [ids s opt created -> H | s e s' _ [IH Hv] _ H]; [| split; [by eapply dial_step_ok | done]].
  unfold dialContext in H. apply outcome_bind_Ok in H as (c & Hc & [= <-]).
  unfold newClient in Hc. set (config := populateClientConfig opt created) in *.
  destruct (Config_Versions config) as [| v vs] eqn:Ev; [done |].
  destruct (forallb IsValidVersion (v :: vs)) eqn:Hval; [| done]. injection Hc as <-.
  split; [| by apply valid_versions]. apply dial_start_ok. rewrite Ev. split; [done |]. exists v. by split.
Qed.

(** Only one version is valid, and no other can be negotiated. *)
Lemma choose_only l theirs v : Forall (fun v => v = VersionTLS) l -> IsSupportedVersion theirs VersionTLS = false ->
  ChooseSupportedVersion l theirs <> (v, true).
Proof. induction 1 as [| ? l -> _ IH]; intros Hs; cbn; [done |]. rewrite Hs. by apply IH. Qed.

Lemma dial_version config s : dial_reach config s ->
  c_version (cs_client (dl_sys s)) = VersionTLS /\ c_initialVersion (cs_client (dl_sys s)) = 0
  /\ hd_error (Config_Versions config) = Some VersionTLS.
Proof.
  intros [Hok Hv]%dial_reach_ok. destruct (do_negotiation _ _ Hok) as (_ & v0 & Hhd & Hc).
  assert (Hv0 : v0 = VersionTLS) by (destruct Hv; [done |]; cbn in Hhd; congruence). subst v0.
  destruct (receivedVersionNegotiationPacket _).
  - destruct Hc as (_ & Hs & Hch). by apply choose_only in Hch.
  - by destruct Hc as (? & ? & _).
Qed.

(** ** Transport parameters *)

(** Values of a configuration that fit the wire format; those that are not set
    or negative are replaced. *)
Definition config_ok (c : Config) : Prop :=
  MaxIncomingStreams c <= maxVarInt8 /\ MaxIncomingUniStreams c <= maxVarInt8 /\ 0 <= Config_IdleTimeout c < 2 ^ 63.

Lemma stream_limit_range x d : x <= maxVarInt8 -> 0 <= d <= maxVarInt8 -> is_varint (u64 (stream_limit x d)).
Proof.
  intros Hx Hd. assert (Hr : 0 <= stream_limit x d <= maxVarInt8) by (unfold stream_limit; repeat case_match; bool_to_prop; lia).
  rewrite u64_small; [done |]. unfold is_u64, maxVarInt8 in *. lia.
Qed.

Lemma session_params_ok c n token orig : config_ok c -> (token = [] \/ (bytes token /\ len token = 16)) ->
  bytes orig -> len orig < 2 ^ 15 -> tp_ok (session_params (populate n c) token orig).
Proof.
  intros (H1 & H2 & H3) Ht Ho1 Ho2. constructor; cbn -[Z.pow]; try done.
  - apply stream_limit_range; [done | by vm_compute].
  - apply stream_limit_range; [done | by vm_compute].
  - unfold or_default. case_match; [by vm_compute | done].
Qed.

(** ** Theorems *)

(** C38. [dial], in every order of the steps of its goroutines, whatever packets
    arrive: it returns without an error only if a handshake was completed, and
    never returns the errors that mean to start again; while a session is not
    closed it is the one that was made with the versions, connection IDs and the
    token the client has now; the version is the only valid one. *)
Theorem dial_correct config s : dial_reach config s ->
  (dl_result s = Some None -> dl_handshakeChan s = true)
  /\ (forall e, dl_result s = Some (Some e) -> is_restart e = false)
  /\ (cs_closing (dl_sys s) = None ->
      cs_session (dl_sys s) = createNewTLSSession (cs_client (dl_sys s)) /\ dl_errorChan s = None)
  /\ (dl_cancelled s = true -> dl_result s <> Some None)
  /\ dl_params s = client_params config
  /\ c_version (cs_client (dl_sys s)) = VersionTLS /\ c_initialVersion (cs_client (dl_sys s)) = 0.
Proof.
  intros Hr. destruct (dial_version config s Hr) as (Hv & Hi & _). apply dial_reach_ok in Hr as [Hok _].
  split_and!; try apply Hok; try done.
  - intros Hc. split; [by apply Hok |]. rewrite (do_error _ _ Hok). destruct (dl_run s) eqn:E; [done |]. by rewrite Hc.
Qed.

(** The version of the client is among those of the server, in any position. *)
Lemma listen_config m new conn managers opt pconn srv m' : listen m new conn managers (Ok tt) opt pconn = (Ok srv, m') ->
  sv_config srv = populateServerConfig opt /\ Forall (fun v => v = VersionTLS) (Config_Versions (sv_config srv))
  /\ In VersionTLS (Config_Versions (sv_config srv)).
Proof.
  unfold listen. destruct (forallb _ _) eqn:Hval; cbn [negb]; [| done].
  destruct (mux_AddConn _ _ _ _) as [mgr m1]. intros [= Hl _].
  apply outcome_bind_Ok in Hl as (k & _ & Hl). cbn in Hl. injection Hl as <-. cbn [sv_config].
  apply valid_versions in Hval. split_and!; [done | done |]. revert Hval. cbn.
  destruct (Config_Versions (default no_config opt)) as [| v vs]; [by left |]. intros [-> _]%Forall_cons. by left.
Qed.

Lemma only_version_ok l posByte rnd : Forall (fun v => v = VersionTLS) l -> In VersionTLS l ->
  let greased := GetGreasedVersions posByte rnd l in
  Forall is_u32 greased /\ len greased = len l + 1 /\ In VersionTLS greased
  /\ forall ours, hd_error ours = Some VersionTLS -> ChooseSupportedVersion ours greased = (VersionTLS, true).
Proof.
  intros Hl Hin greased. assert (Hs : IsSupportedVersion greased VersionTLS = true).
  { subst greased. rewrite supported_greased by done. by apply IsSupportedVersion_In. }
  split_and!.
  - apply greased_u32. eapply Forall_impl; [exact Hl |]. by intros ? ->.
  - unfold greased, GetGreasedVersions. rewrite len_app, len_cons, Z.add_comm, <- Z.add_assoc.
    set (n := _ mod _). rewrite <- (take_drop_z n l) at 3. rewrite len_app. lia.
  - by apply IsSupportedVersion_In.
  - intros [| v ours]; [done |]. intros [= ->]. cbn. by rewrite Hs.
Qed.

(** C37. The parameters of a client and a server arrive, whatever their
    configuration, as far as it fits the wire format: what [dial] announces the
    server accepts, and what the server of [listen] announces the client accepts,
    and both get the limits that were configured, or the default ones, for the
    streams and the idle timeout. *)
Theorem parameters_arrive opt created s m new conn managers opt' pconn srv m' posByte rnd :
  let config := populateClientConfig opt created in
  dial_reach config s -> cs_closing (dl_sys s) = None ->
  listen m new conn managers (Ok tt) opt' pconn = (Ok srv, m') ->
  config_ok (default no_config opt) -> config_ok (default no_config opt') ->
  let args := cs_session (dl_sys s) in
  bytes (sa_origDestConnID args) -> len (sa_origDestConnID args) < 2 ^ 15 ->
  len (Config_Versions (sv_config srv)) < 63 ->
  let hc := mkExtClient (dl_params s) (sa_origDestConnID args) (sa_initialVersion args) (Config_Versions config) (sa_version args) in
  let hs := mkExtServer (server_params (sv_config srv) (sa_origDestConnID args)) (sa_version args) (Config_Versions (sv_config srv)) in
  exists cexts sexts pc ps,
    ec_GetExtensions hc typeClientHello = Ok cexts /\ es_ReceivedExtensions hs typeClientHello cexts = Ok (Some pc)
    /\ es_GetExtensions posByte rnd hs typeEncryptedExtensions = Ok sexts
    /\ ec_ReceivedExtensions hc typeEncryptedExtensions sexts = Ok (Some ps)
    /\ MaxBidiStreams pc = u64 (MaxIncomingStreams config) /\ MaxUniStreams pc = u64 (MaxIncomingUniStreams config)
    /\ MaxBidiStreams ps = u64 (MaxIncomingStreams (sv_config srv)) /\ MaxUniStreams ps = u64 (MaxIncomingUniStreams (sv_config srv))
    /\ IdleTimeout pc = MaxDuration MinRemoteIdleTimeout (Config_IdleTimeout config / 10 ^ 9 * 10 ^ 9)
    /\ IdleTimeout ps = MaxDuration MinRemoteIdleTimeout (Config_IdleTimeout (sv_config srv) / 10 ^ 9 * 10 ^ 9).
Proof.
  intros config Hr Hcl Hl Hc Hc' args Ho1 Ho2 Hlen hc hs.
  destruct (dial_version _ s Hr) as (Hv & Hi & Hhd). apply dial_reach_ok in Hr as [Hok _].
  assert (Hargs : args = createNewTLSSession (cs_client (dl_sys s))) by (by apply Hok).
  assert (Hv1 : sa_version args = VersionTLS) by (by rewrite Hargs).
  assert (Hi1 : sa_initialVersion args = 0) by (by rewrite Hargs).
  apply listen_config in Hl as (Econf & Hvs & Hin).
  destruct (only_version_ok _ posByte rnd Hvs Hin) as (Hu & Hlg & Hing & Hch).
  destruct (client_hello_received hc hs) as (cexts & Gc & Rc).
  { subst hc. cbn [ec_ourParams]. rewrite (do_params _ _ Hok). apply session_params_ok; [done | by left | constructor | by vm_compute]. }
  { subst hc. cbn [ec_ourParams]. by rewrite (do_params _ _ Hok). }
  { subst hc. cbn. rewrite Hi1. by vm_compute. }
  destruct (encrypted_extensions_received hc hs posByte rnd) as (sexts & Gs & Rs).
  { subst hs. cbn [es_ourParams]. rewrite Econf. apply session_params_ok; [done | right; split; [solve_bytes | done] | done | done]. }
  { subst hs. cbn. rewrite Hv1. by vm_compute. }
  { done. }
  { subst hs. cbn [es_supportedVersions]. lia. }
  exists cexts, sexts, (received_params (ec_ourParams hc)), (received_params (es_ourParams hs)).
  split; [done |]. split.
  { rewrite Rc. subst hc hs. cbn [ec_initialVersion es_supportedVersions]. rewrite Hi1.
    destruct (IsSupportedVersion _ 0) eqn:E0; [| by rewrite andb_false_r].
    apply IsSupportedVersion_In in E0. rewrite List.Forall_forall in Hvs. by apply Hvs in E0. }
  split; [done |]. split.
  { apply Rs. subst hc hs. cbn [ec_version ec_initialVersion es_version ec_supportedVersions es_supportedVersions ec_origConnID es_ourParams].
    rewrite Hv1. split_and!; [done | done | done | by intros; apply Hch | done | done]. }
  subst hc hs. cbn [ec_ourParams es_ourParams]. rewrite (do_params _ _ Hok). by split_and!.
Qed.

(** A client that dials, and its configuration. *)
Definition dial_config : Config := populateClientConfig None false.
Definition dial_ids : list Z * list Z := ([1; 2; 3; 4], [5; 6; 7; 8; 5; 6; 7; 8]).
Definition dial_begin : dial_sys :=
  match dialContext None false dial_ids with
  | Ok s => s
  | _ => mkDial (mkClientSys (mkClient [] false false [] [] [] [] [] 0 0) (mkSessionArgs [] [] [] [] 0 0) None
           (newPacketHandlerMap 4) []) (client_params dial_config) Stopped false None false None
  end.

Lemma dial_begin_reach : dial_reach dial_config dial_begin.
Proof. by apply (dial_new _ dial_ids dial_begin None false). Qed.

Lemma dial_correct_witness : dl_params dial_begin = client_params dial_config.
Proof. apply (dial_correct dial_config dial_begin dial_begin_reach). Defined.

Lemma parameters_arrive_witness : exists cexts pc,
  ec_GetExtensions (mkExtClient (client_params dial_config) [] 0 [VersionTLS] VersionTLS) typeClientHello = Ok cexts
  /\ es_ReceivedExtensions (mkExtServer (server_params (sv_config sample_server) []) VersionTLS [VersionTLS]) typeClientHello cexts
     = Ok (Some pc)
  /\ MaxBidiStreams pc = 100.
Proof.
  destruct (parameters_arrive None false dial_begin ∅ 0 0 (fun _ => newPacketHandlerMap 4) None true sample_server
    {[0%nat := mkConnManager 4 0]} 0 0) as (cexts & sexts & pc & ps & H1 & H2 & _ & _ & H3 & _).
  - apply dial_begin_reach.
  - reflexivity.
  - reflexivity.
  - by vm_compute.
  - by vm_compute.
  - constructor.
  - by vm_compute.
  - by vm_compute.
  - exists cexts, pc. split; [exact H1 |]. split; [exact H2 | exact H3].
Defined.

(** ** A defect *)

(** A Retry packet that arrives right after the handshake: the session ends, and
    the select of [establishSecureConnection], which finds both channels ready,
    may choose the error.  Then [dial] starts a second session, and returns at
    once, because the channel of the handshake is closed still; when the
    handshake of the second session is complete, it is closed again, which
    panics. *)
Definition dial_retry : Header :=
  mkHeader [] VersionTLS [1; 2; 3; 4] [9; 9; 9; 9] [5; 6; 7; 8; 5; 6; 7; 8] 0 0 false [] PacketTypeRetry true 0 0 [7].
Definition retry_after_handshake : list dial_event :=
  [DialHandshake; DialPacket (Ok dial_ids) dial_retry []; DialEnd (CloseWithError EOF); DialSelectError true; DialSelectHandshake].

Theorem dial_returns_early : exists s, dial_run dial_config dial_begin retry_after_handshake = Some (Ok s)
  /\ dl_result s = Some None /\ dl_run s = Running false
  /\ dial_step dial_config s DialHandshake = Some (Panic "close of closed channel").
Proof. eexists. split; [vm_compute; reflexivity |]. split_and!; reflexivity. Qed.
