(* ===== verification/Cookies.v ===== *)
(** * Cookies (internal/handshake/cookie_generator.go, cookie_protector.go)

    The tokens of the Retry exchange: the address of the client, its connection
    ID and the time, encoded with ASN.1 and sealed with a key that the server
    keeps.  Of the standard library, the encoding of this one structure by
    encoding/asn1 and the text form of net.IP are modelled; the key derivation
    and AES-GCM are parameters. *)

From S2P Require Import Prelude Qerr Varint Protocol AckFrame Frames FrameCodec FrameParser FrameSorter.
From S2P Require Import Header Float FlowControl SentHistory SendStream ReceiveStream CryptoStream Framer Packer Receiving Endpoints.

(** ** ASN.1 *)

(** [for more(i) { n++; i >>= 8 }]; eight rounds are enough for 64 bits. *)
Fixpoint shrink (more : Z -> bool) (fuel : nat) (n i : Z) : Z * Z :=
  match fuel with
  | O => (n, i)
  | S fuel => if more i then shrink more fuel (n + 1) (i ≫ 8) else (n, i)
  end.

Definition int64Encoder_Len (i : Z) : Z :=
  let '(n, i) := shrink (fun i => 127 <? i) 8 1 i in (shrink (fun i => i <? -128) 8 n i).1.

Definition lengthLength (i : Z) : Z := (shrink (fun i => 255 <? i) 8 1 i).1.

Definition appendTagAndLength (tag : Z) (isCompound : bool) (length : Z) : list Z :=
  Z.lor (if isCompound then 32 else 0) tag
    :: (if 128 <=? length then let l := lengthLength length in Z.lor 128 l :: big_bytes l length else [length]).

Definition TagInteger : Z := 2.
Definition TagOctetString : Z := 4.
Definition TagSequence : Z := 16.

Definition element (tag : Z) (isCompound : bool) (body : list Z) : list Z :=
  appendTagAndLength tag isCompound (len body) ++ body.

Record token : Type := mkToken {
  token_RemoteAddr : list Z;
  token_OriginalDestConnectionID : list Z;
  Timestamp : Z }.

(** [asn1.Marshal] and [asn1.Unmarshal] for a token. *)
Definition Marshal (t : token) : list Z :=
  element TagSequence true
    (element TagOctetString false (token_RemoteAddr t)
     ++ element TagOctetString false (token_OriginalDestConnectionID t)
     ++ element TagInteger false (big_bytes (int64Encoder_Len (Timestamp t)) (Timestamp t))).

Definition SyntaxError (s : string) : go_error := Errorf s [].

Fixpoint length_loop (numBytes : nat) (length : Z) : reader Z :=
  match numBytes with
  | O => mret length
  | S numBytes =>
      b ← ReadByte;
      if 2 ^ 23 <=? length then fail (SyntaxError "length too large")
      else
        let length := Z.lor (length ≪ 8) b in
        if length =? 0 then fail (SyntaxError "superfluous leading zeros in length") else length_loop numBytes length
  end.

Definition parse_length : reader Z :=
  b ← ReadByte;
  if Z.land b 128 =? 0 then mret (Z.land b 127)
  else
    let numBytes := Z.land b 127 in
    if numBytes =? 0 then fail (SyntaxError "indefinite length found (not DER)")
    else
      length ← length_loop (Z.to_nat numBytes) 0;
      if length <? 128 then fail (SyntaxError "non-minimal length") else mret length.

(** A tag of more than one byte, whatever follows it, is never one of those that
    are expected. *)
Definition parseTagAndLength : reader (Z * bool * Z * Z) :=
  b ← ReadByte;
  let class := b ≫ 6 in
  let isCompound := Z.land b 32 =? 32 in
  let tag := Z.land b 31 in
  if tag =? 31 then fail (SyntaxError "tags don't match")
  else length ← parse_length; mret (class, isCompound, tag, length).

(** The contents of the field, which has to be there with this tag. *)
Definition parseField (tag : Z) (compoundType : bool) : reader (list Z) :=
  n ← Len;
  if n =? 0 then fail (SyntaxError "sequence truncated")
  else
    '(class, isCompound, t, length) ← parseTagAndLength;
    if negb (class =? 0) || negb (t =? tag) || negb (Bool.eqb isCompound compoundType) then
      fail (SyntaxError "tags don't match")
    else
      n ← Len;
      if n <? length then fail (SyntaxError "data truncated") else ReadFull length.

Definition checkInteger (b : list Z) : option go_error :=
  match b with
  | [] => Some (SyntaxError "empty integer")
  | b0 :: b1 :: _ =>
      if ((b0 =? 0) && (Z.land b1 128 =? 0)) || ((b0 =? 255) && (Z.land b1 128 =? 128))
      then Some (SyntaxError "integer not minimally-encoded") else None
  | _ => None
  end.

Definition parseInt64 (b : list Z) : outcome Z :=
  match checkInteger b with
  | Some e => Err e
  | None =>
      if 8 <? len b then Err (SyntaxError "integer too large")
      else
        let ret := foldl (fun ret b => Z.lor (i64 (ret ≪ 8)) b) 0 b in
        Ok (i64 (ret ≪ (64 - len b * 8)) ≫ (64 - len b * 8))
  end.

(** More bytes at the end of the sequence are allowed. *)
Definition parse_token : reader token :=
  addr ← parseField TagOctetString false;
  id ← parseField TagOctetString false;
  int ← parseField TagInteger false;
  time ← lift (parseInt64 int);
  mret (mkToken addr id time).

Definition Unmarshal : reader token :=
  inner ← parseField TagSequence true;
  lift ('(t, _) ← parse_token inner; Ok t).

(** ** The text form of IP addresses *)

Fixpoint uitoa_loop (fuel : nat) (v : Z) (buf : list Z) : list Z :=
  match fuel with
  | O => buf
  | S fuel => if 10 <=? v then uitoa_loop fuel (v / 10) ((48 + v mod 10) :: buf) else (48 + v) :: buf
  end.

(** Of a byte. *)
Definition uitoa (v : Z) : list Z := uitoa_loop 3 v [].

Definition hex_digit (d : Z) : Z := if d <? 10 then 48 + d else 87 + d.

(** [appendHex] for 16 bits, without leading zeros. *)
Definition appendHex (i : Z) : list Z :=
  if i =? 0 then [48]
  else
    concat ((fun j => let v := i ≫ (j * 4) in if 0 <? v then [hex_digit (Z.land v 15)] else []) <$> [3; 2; 1; 0]).

(** The groups of 16 bits of an IPv6 address. *)
Fixpoint groups (ip : list Z) : list Z :=
  match ip with
  | a :: b :: ip => Z.lor (a ≪ 8) b :: groups ip
  | _ => []
  end.

(** How many groups are zero at the beginning. *)
Fixpoint zeros (g : list Z) : Z :=
  match g with
  | 0 :: g => 1 + zeros g
  | _ => 0
  end.

(** The first of the longest runs of zero groups, from [i] on; [skip] groups are
    part of the run just found. *)
Fixpoint longest_run (g : list Z) (i skip e0 e1 : Z) : Z * Z :=
  match g with
  | [] => (e0, e1)
  | _ :: g' =>
      if 0 <? skip then longest_run g' (i + 1) (skip - 1) e0 e1
      else
        let j := i + zeros g in
        if (i <? j) && (e1 - e0 <? j - i) then longest_run g' (i + 1) (j - i) i j
        else longest_run g' (i + 1) 0 e0 e1
  end.

Definition join_groups (g : list Z) : list Z :=
  match g with
  | [] => []
  | x :: g => appendHex x ++ concat ((fun x => 58 :: appendHex x) <$> g)
  end.

Definition IPv6_String (ip : list Z) : list Z :=
  let g := groups ip in
  let '(e0, e1) := longest_run g 0 0 (-1) (-1) in
  if e1 - e0 <=? 1 then join_groups g
  else join_groups (take_z e0 g) ++ [58; 58] ++ join_groups (drop_z e1 g).

Definition IP_String (ip : list Z) : list Z :=
  if len ip =? 0 then [60; 110; 105; 108; 62]
  else match To4 ip with
       | Some ip4 =>
           match ip4 with
           | [a; b; c; d] => uitoa a ++ 46 :: uitoa b ++ 46 :: uitoa c ++ 46 :: uitoa d
           | _ => []
           end
       | None =>
           if negb (len ip =? 16) then
             63 :: concat ((fun b => [hex_digit (b ≫ 4); hex_digit (Z.land b 15)]) <$> ip)
           else IPv6_String ip
       end.

(** Some addresses: the unspecified one, the first of two runs of zeros of the same length,
    a single zero group, an IPv4 address in the form of IPv6. *)
Example IP_String_examples :
  IP_String [0; 0; 0; 0; 0; 0; 0; 0; 0; 0; 0; 0; 0; 0; 0; 0] = [58; 58]
  /\ IP_String [32; 1; 13; 184; 0; 0; 0; 0; 0; 0; 0; 0; 0; 0; 0; 1] = [50; 48; 48; 49; 58; 100; 98; 56; 58; 58; 49]
  /\ IP_String [0; 1; 0; 0; 0; 0; 0; 2; 0; 0; 0; 0; 0; 0; 0; 3] = [49; 58; 48; 58; 48; 58; 50; 58; 58; 51]
  /\ IP_String [254; 128; 0; 0; 0; 1; 0; 2; 0; 3; 0; 4; 0; 5; 0; 6] = [102; 101; 56; 48; 58; 48; 58; 49; 58; 50; 58; 51; 58; 52; 58; 53; 58; 54]
  /\ IP_String [0; 1; 0; 0; 0; 0; 0; 2; 0; 0; 0; 0; 0; 3; 0; 4] = [49; 58; 58; 50; 58; 48; 58; 48; 58; 51; 58; 52]
  /\ IP_String [0; 0; 0; 0; 0; 0; 0; 0; 0; 0; 255; 255; 1; 2; 3; 4] = [49; 46; 50; 46; 51; 46; 52].
Proof. by vm_compute. Qed.

(** ** The generator *)

(** [net.Addr]; the text of an address that is not one of UDP is arbitrary. *)
Inductive net_Addr : Type :=
  | UDP (a : UDPAddr)
  | OtherAddr (text : list Z).

Definition cookiePrefixIP : Z := 0.
Definition cookiePrefixString : Z := 1.

Definition encodeRemoteAddr (remoteAddr : net_Addr) : list Z :=
  match remoteAddr with
  | UDP udpAddr => cookiePrefixIP :: IP udpAddr
  | OtherAddr text => cookiePrefixString :: text
  end.

Definition decodeRemoteAddr (data : list Z) : list Z :=
  match data with
  | [] => []
  | b :: data => if b =? cookiePrefixIP then IP_String data else data
  end.

Definition cookieSecretSize : Z := 32.
Definition cookieNonceSize : Z := 32.

(** "quic-go cookie source" *)
Definition cookie_info : list Z :=
  [113; 117; 105; 99; 45; 103; 111; 32; 99; 111; 111; 107; 105; 101; 32; 115; 111; 117; 114; 99; 101].

(** The parts of the libraries for cryptography that are used: the output of
    [hkdf.New], which is read in pieces, and AES-GCM with a key. *)
Class CookieCrypto : Type := {
  AEAD : Type;
  hkdf_New : list Z -> list Z -> list Z -> list Z;
  NewGCM : list Z -> outcome AEAD;
  AEAD_Seal : AEAD -> list Z -> list Z -> list Z;
  AEAD_Open : AEAD -> list Z -> list Z -> outcome (list Z) }.

Section Generator.
Context {CC : CookieCrypto}.

Record cookieProtectorImpl : Type := mkProtector { secret : list Z }.

Definition newCookieProtector (rand : outcome (list Z)) : outcome cookieProtectorImpl :=
  secret ← rand; Ok (mkProtector secret).

Definition createAEAD (s : cookieProtectorImpl) (nonce : list Z) : outcome (AEAD * list Z) :=
  let h := hkdf_New (secret s) nonce cookie_info in
  '(key, h) ← ReadFull 32 h;
  '(aeadNonce, _) ← ReadFull 12 h;
  aead ← NewGCM key;
  Ok (aead, aeadNonce).

(** [rand] is what [rand.Read] gives for the nonce. *)
Definition protector_NewToken (s : cookieProtectorImpl) (rand : outcome (list Z)) (data : list Z) : outcome (list Z) :=
  nonce ← rand;
  '(aead, aeadNonce) ← createAEAD s nonce;
  Ok (nonce ++ AEAD_Seal aead aeadNonce data).

Definition protector_DecodeToken (s : cookieProtectorImpl) (p : list Z) : outcome (list Z) :=
  if len p <? cookieNonceSize then Err (Errorf "Token too short: %d" [len p])
  else
    '(aead, aeadNonce) ← createAEAD s (take_z cookieNonceSize p);
    AEAD_Open aead aeadNonce (drop_z cookieNonceSize p).

(** Times are nanoseconds; a token has seconds. *)
Definition gen_NewToken (g : cookieProtectorImpl) (now : Z) (rand : outcome (list Z)) (raddr : net_Addr) (origConnID : list Z)
    : outcome (list Z) :=
  protector_NewToken g rand (Marshal (mkToken (encodeRemoteAddr raddr) origConnID (now / 10 ^ 9))).

Definition gen_DecodeToken (g : cookieProtectorImpl) (encrypted : list Z) : outcome (option Cookie) :=
  if len encrypted =? 0 then Ok None
  else
    data ← protector_DecodeToken g encrypted;
    '(t, rest) ← Unmarshal data;
    if negb (len rest =? 0) then Err (Errorf "rest when unpacking token: %d" [len rest])
    else Ok (Some (mkCookie (decodeRemoteAddr (token_RemoteAddr t)) (token_OriginalDestConnectionID t) (Timestamp t * 10 ^ 9))).

(** For the server, which does not decode an empty token. *)
Definition server_NewToken (g : cookieProtectorImpl) (now : Z) (rand : outcome (list Z)) (a : UDPAddr) (id : list Z) : outcome (list Z) :=
  gen_NewToken g now rand (UDP a) id.
Definition server_DecodeToken (g : cookieProtectorImpl) (t : list Z) : outcome Cookie :=
  c ← gen_DecodeToken g t;
  match c with Some c => Ok c | None => Err (Errorf "no token" []) end.
End Generator.

(** What is known of the libraries: enough key material; a key of 32 bytes is
    one for AES-256; and a ciphertext is opened exactly if it is the one of its
    plaintext (sealing is a function of key, nonce and plaintext). *)
Class CookieCryptoLaws (CC : CookieCrypto) : Prop := {
  hkdf_long s salt info : 44 <= len (hkdf_New s salt info);
  gcm_key key : len key = 32 -> exists a, NewGCM key = Ok a;
  gcm_bytes a n p : bytes p -> bytes (AEAD_Seal a n p);
  gcm_nonempty a n p : AEAD_Seal a n p <> [];
  gcm_open a n p c : AEAD_Open a n c = Ok p <-> c = AEAD_Seal a n p }.

(** ** Lemmas: ASN.1 *)

#[local] Ltac Zify.zify_post_hook ::= Z.to_euclidean_division_equations.

(** What holds of all bytes by computation. *)
Lemma byte_check (P : Z -> bool) b : forallb P (seqZ 0 256) = true -> is_byte b -> P b = true.
Proof. intros Hp Hb. rewrite forallb_forall in Hp. apply Hp, list_elem_of_In, elem_of_seqZ. unfold is_byte in Hb. lia. Qed.

Lemma land_high b : is_byte b -> Z.land b 128 = if 128 <=? b then 128 else 0.
Proof. intros Hb. apply Z.eqb_eq. by apply (byte_check (fun b => Z.land b 128 =? (if 128 <=? b then 128 else 0))). Qed.

Lemma lor_low hi b : is_byte b -> Z.lor (hi ≪ 8) b = 256 * hi + b.
Proof.
  intros Hb. unfold is_byte in Hb. rewrite <- Z.add_nocarry_lor; [rewrite Z.shiftl_mul_pow2; lia |].
  rewrite <- (Z.mod_small b (2 ^ 8)) by lia. apply Z.bits_inj'. intros k Hk. rewrite Z.land_spec, Z.bits_0.
  destruct (Z.lt_ge_cases k 8).
  - by rewrite Z.shiftl_spec_low by lia.
  - rewrite Z.mod_pow2_bits_high by lia. apply andb_false_r.
Qed.

Lemma length_step k acc b rest : 0 <= acc < 2 ^ 23 -> is_byte b -> 0 < 256 * acc + b ->
  length_loop (S k) acc (b :: rest) = length_loop k (256 * acc + b) rest.
Proof.
  intros Ha Hb Hp. cbn [length_loop]. rewrite ReadByte_step, lor_low by done.
  by rewrite (proj2 (Z.leb_gt _ _)), (proj2 (Z.eqb_neq _ _)) by lia.
Qed.

Lemma lengthLength_small n : 0 <= n < 2 ^ 16 -> lengthLength n = if 255 <? n then 2 else 1.
Proof.
  intros Hn. unfold lengthLength. cbn [shrink]. destruct (Z.ltb_spec 255 n); [| done].
  by rewrite (proj2 (Z.ltb_ge 255 (n ≫ 8))) by (rewrite Z.shiftr_div_pow2; lia).
Qed.

Lemma parse_length_roundtrip n rest : 0 <= n < 2 ^ 16 ->
  parse_length ((if 128 <=? n then let l := lengthLength n in Z.lor 128 l :: big_bytes l n else [n]) ++ rest) = Ok (n, rest).
Proof.
  intros Hn. unfold is_byte in *. destruct (Z.leb_spec 128 n) as [H1 | H1].
  - assert (Hb : is_byte (u8 n)) by (unfold is_byte, u8; lia). cbv zeta.
    destruct (Z.lt_ge_cases 255 n) as [H2 | H2].
    + assert (E : u8 (n ≫ 8) = n / 256) by (unfold u8; rewrite Z.shiftr_div_pow2 by lia; rewrite Z.mod_small; lia).
      rewrite lengthLength_small, (proj2 (Z.ltb_lt 255 n)) by lia.
      change (big_bytes 2 n) with [u8 (n ≫ 8); u8 (n ≫ 0)]. rewrite Z.shiftr_0_r, E. cbn [app].
      unfold parse_length. rewrite ReadByte_step. cbv zeta. change (Z.land (Z.lor 128 2) 128 =? 0) with false.
      change (Z.land (Z.lor 128 2) 127) with 2. change (2 =? 0) with false. cbv iota. change (Z.to_nat 2) with 2%nat.
      erewrite reader_bind_step; [| rewrite !length_step; [reflexivity | unfold is_byte in *; lia ..]].
      replace (256 * (256 * 0 + n / 256) + u8 n) with n by (unfold u8; lia). by rewrite (proj2 (Z.ltb_ge n 128)) by lia.
    + rewrite lengthLength_small, (proj2 (Z.ltb_ge 255 n)) by lia.
      change (big_bytes 1 n) with [u8 (n ≫ 0)]. rewrite Z.shiftr_0_r. cbn [app].
      unfold parse_length. rewrite ReadByte_step. cbv zeta. change (Z.land (Z.lor 128 1) 128 =? 0) with false.
      change (Z.land (Z.lor 128 1) 127) with 1. change (1 =? 0) with false. cbv iota. change (Z.to_nat 1) with 1%nat.
      assert (E : u8 n = n) by (unfold u8; rewrite Z.mod_small; lia). rewrite E in *.
      erewrite reader_bind_step; [| rewrite !length_step; [reflexivity | unfold is_byte in *; lia ..]].
      replace (256 * 0 + n) with n by lia. by rewrite (proj2 (Z.ltb_ge n 128)) by lia.
  - cbn [app]. unfold parse_length. rewrite ReadByte_step, land_high by (unfold is_byte; lia).
    rewrite (proj2 (Z.leb_gt 128 n)) by lia. cbn [Z.eqb]. change 127 with (Z.ones 7). rewrite Z.land_ones by lia.
    by rewrite Z.mod_small by lia.
Qed.

(** A tag that fits its byte. *)
Definition tag_ok (tag : Z) (isCompound : bool) : Prop :=
  (tag = TagInteger /\ isCompound = false) \/ (tag = TagOctetString /\ isCompound = false) \/ (tag = TagSequence /\ isCompound = true).

Lemma parseField_element tag isCompound body rest : tag_ok tag isCompound -> len body < 2 ^ 16 ->
  parseField tag isCompound (element tag isCompound body ++ rest) = Ok (body, rest).
Proof.
  intros Ht Hb. pose proof (len_nonneg body). pose proof (len_nonneg rest). unfold element, appendTagAndLength.
  rewrite <- app_assoc, <- app_comm_cons. unfold parseField. rewrite Len_step, (proj2 (Z.eqb_neq _ _))
    by (rewrite len_cons; match goal with |- context [1 + len ?l] => pose proof (len_nonneg l) end; lia).
  erewrite reader_bind_step; cycle 1.
  { unfold parseTagAndLength. rewrite ReadByte_step.
    cbv zeta. assert ((Z.land (Z.lor (if isCompound then 32 else 0) tag) 31 =? 31) = false) as ->
      by (by destruct Ht as [[-> ->] | [[-> ->] | [-> ->]]]).
    erewrite reader_bind_step by (apply parse_length_roundtrip; lia). reflexivity. }
  cbv beta iota. assert (negb (Z.lor (if isCompound then 32 else 0) tag ≫ 6 =? 0)
    || negb (Z.land (Z.lor (if isCompound then 32 else 0) tag) 31 =? tag)
    || negb (Bool.eqb (Z.land (Z.lor (if isCompound then 32 else 0) tag) 32 =? 32) isCompound) = false) as ->
    by (by destruct Ht as [[-> ->] | [[-> ->] | [-> ->]]]).
  rewrite Len_step, len_app, (proj2 (Z.ltb_ge _ _)) by lia. apply ReadFull_app.
Qed.

Lemma shrink_spec more fuel n i :
  exists k, shrink more fuel n i = (n + k, i / 256 ^ k) /\ 0 <= k <= Z.of_nat fuel
    /\ (k = 0 \/ more (i / 256 ^ (k - 1)) = true) /\ (k < Z.of_nat fuel -> more (i / 256 ^ k) = false).
Proof.
  revert n i. induction fuel as [| fuel IH]; intros n i; cbn [shrink].
  - exists 0. rewrite Z.add_0_r, Z.pow_0_r, Z.div_1_r. split_and!; [done | lia | lia | by left | lia].
  - destruct (more i) eqn:Em.
    + destruct (IH (n + 1) (i ≫ 8)) as (k & -> & Hk & H1 & H2). exists (k + 1).
      rewrite Z.shiftr_div_pow2 in * by lia. change (2 ^ 8) with (256 ^ 1) in *.
      rewrite Z.div_div, <- Z.pow_add_r in * by lia. rewrite (Z.add_comm 1 k) in *. split_and!; [f_equal; lia | lia | lia | | intros; apply H2; lia].
      right. destruct H1 as [-> | H1]; [cbn; by rewrite Z.div_1_r |].
      destruct (Z.eq_dec k 0) as [-> | Hne]; [cbn; by rewrite Z.div_1_r |].
      rewrite Z.div_div, <- Z.pow_add_r in H1 by lia. by replace (1 + (k - 1)) with (k + 1 - 1) in H1 by lia.
    + exists 0. rewrite Z.add_0_r, Z.pow_0_r, Z.div_1_r. split_and!; [done | lia | lia | by left | done].
Qed.

(** The encoding of an integer is the shortest that has its sign. *)
Lemma int64Encoder_Len_spec i : is_i64 i -> let n := int64Encoder_Len i in
  1 <= n <= 8 /\ -128 <= i / 256 ^ (n - 1) <= 127 /\ (n = 1 \/ ~ -128 <= i / 256 ^ (n - 2) <= 127).
Proof.
  intros Hi n. unfold is_i64 in Hi. unfold n, int64Encoder_Len.
  destruct (shrink_spec (fun i => 127 <? i) 8 1 i) as (k & -> & Hk & H1 & H2).
  destruct (shrink_spec (fun i => i <? -128) 8 (1 + k) (i / 256 ^ k)) as (k' & -> & Hk' & H1' & H2'). cbn [fst].
  assert (Hp : forall e, 0 <= e -> 0 < 256 ^ e) by (intros; lia).
  destruct (Z.lt_ge_cases i 0) as [Hneg | Hpos].
  - assert (Hlt : forall e, 0 <= e -> i / 256 ^ e < 0) by (intros e He; apply Z.div_lt_upper_bound; [auto | lia]).
    assert (k = 0) as ->.
    { destruct H1 as [? | H1%Z.ltb_lt]; [done |]. destruct (Z.eq_dec k 0); [done |].
      pose proof (Hlt (k - 1) ltac:(lia)). lia. }
    rewrite Z.pow_0_r, Z.div_1_r in *. replace (1 + 0 + k' - 1) with k' by lia. replace (1 + 0 + k' - 2) with (k' - 1) by lia.
    assert (k' <> 8). { intros ->. destruct H1' as [? | H1'%Z.ltb_lt]; [lia |].
      change (256 ^ (8 - 1)) with 72057594037927936 in H1'. lia. }
    specialize (H2' ltac:(lia)). apply Z.ltb_ge in H2'. split_and!; [lia.. | |].
    + pose proof (Hlt k' ltac:(lia)). lia.
    + destruct H1' as [-> | H1'%Z.ltb_lt]; [by left | right; lia].
  - assert (Hnn : forall e, 0 <= e -> 0 <= i / 256 ^ e) by (intros e He; apply Z.div_pos; auto).
    assert (k' = 0) as ->.
    { destruct H1' as [? | H1'%Z.ltb_lt]; [done |]. destruct (Z.eq_dec k' 0); [done |].
      pose proof (Z.div_pos (i / 256 ^ k) (256 ^ (k' - 1)) (Hnn k ltac:(lia)) (Hp (k' - 1) ltac:(lia))). lia. }
    replace (1 + k + 0 - 1) with k by lia. replace (1 + k + 0 - 2) with (k - 1) by lia.
    assert (k <> 8). { intros ->. destruct H1 as [? | H1%Z.ltb_lt]; [lia |].
      change (256 ^ (8 - 1)) with 72057594037927936 in H1. lia. }
    specialize (H2 ltac:(lia)). apply Z.ltb_ge in H2. pose proof (Hnn k ltac:(lia)). split_and!; [lia.. |].
    destruct H1 as [-> | H1%Z.ltb_lt]; [by left | right; lia].
Qed.

Lemma fold_i64 b : bytes b -> foldl (fun ret b => Z.lor (i64 (ret ≪ 8)) b) 0 b = i64 (be_value b).
Proof.
  induction b as [| x b IH] using rev_ind; intros Hb; [done |]. apply bytes_app in Hb as [Hb Hx%Forall_cons_1].
  rewrite foldl_app, be_value_app, IH by done. cbn [foldl]. set (V := be_value b). destruct Hx as [Hx _].
  assert (E : i64 (i64 V ≪ 8) = (i64 (256 * V) / 256) ≪ 8).
  { rewrite !Z.shiftl_mul_pow2 by lia. unfold i64. lia. }
  rewrite E, lor_low by done. unfold is_byte in Hx. unfold i64. lia.
Qed.

Lemma big_bytes_head n i : 2 <= n -> exists rest,
  big_bytes n i = (i / 256 ^ (n - 1)) mod 256 :: (i / 256 ^ (n - 2)) mod 256 :: rest.
Proof.
  intros Hn. unfold big_bytes. rewrite (seqZ_cons 0 n), seqZ_cons by lia. cbn [fmap list_fmap]. eexists.
  unfold u8. rewrite !Z.shiftr_div_pow2, (Z.mul_comm _ 8), (Z.mul_comm (n - 1 - Z.succ 0)), !Z.pow_mul_r by lia.
  change (2 ^ 8) with 256. replace (n - 1 - 0) with (n - 1) by lia. by replace (n - 1 - Z.succ 0) with (n - 2) by lia.
Qed.

(** Shifting up and down extends the sign. *)
Lemma sign_extend n i : 1 <= n <= 8 -> -128 <= i / 256 ^ (n - 1) <= 127 ->
  i64 (i64 (i mod 256 ^ n) ≪ (64 - n * 8)) ≫ (64 - n * 8) = i.
Proof.
  intros Hn Hi. rewrite Z.shiftl_mul_pow2, Z.shiftr_div_pow2 by lia. set (m := 64 - n * 8).
  assert (Hp : 256 ^ n * 2 ^ m = 2 ^ 64).
  { change 256 with (2 ^ 8). rewrite <- Z.pow_mul_r, <- Z.pow_add_r by lia. f_equal. lia. }
  assert (Hr : - 2 ^ 63 <= i * 2 ^ m < 2 ^ 63).
  { assert (E : 256 * 256 ^ (n - 1) = 256 ^ n) by (rewrite <- Z.pow_succ_r by lia; f_equal; lia).
    assert (0 < 256 ^ (n - 1)) by lia. assert (0 < 2 ^ m) by lia.
    assert (-128 * 256 ^ (n - 1) <= i < 128 * 256 ^ (n - 1)) by nia. nia. }
  assert (Hm : 0 < 2 ^ m) by lia.
  assert (Hi64 : exists q, i64 (i mod 256 ^ n) = i mod 256 ^ n + q * 2 ^ 64) 
    by (generalize (i mod 256 ^ n); intros B; unfold i64; exists (- ((B + 2 ^ 63) / 2 ^ 64)); lia).
  destruct Hi64 as (q & ->). pose proof (Z.div_mod i (256 ^ n) ltac:(lia)) as Hd.
  assert ((i mod 256 ^ n + q * 2 ^ 64) * 2 ^ m = i * 2 ^ m + (q * 2 ^ m - i / 256 ^ n) * 2 ^ 64) as -> by (rewrite <- Hp; nia).
  assert (forall z k, i64 (z + k * 2 ^ 64) = i64 z) as -> by (intros; unfold i64; lia).
  rewrite i64_small by lia. by rewrite Z.div_mul by lia.
Qed.

Lemma parseInt64_roundtrip i : is_i64 i -> parseInt64 (big_bytes (int64Encoder_Len i) i) = Ok i.
Proof.
  intros Hi. destruct (int64Encoder_Len_spec i Hi) as (Hn & Hfit & Hmin). set (n := int64Encoder_Len i) in *.
  unfold parseInt64. assert (checkInteger (big_bytes n i) = None) as ->.
  { destruct Hmin as [-> | Hmin]; [done |]. destruct (Z.eq_dec n 1) as [-> | Hne]; [done |].
    destruct (big_bytes_head n i) as (rest & ->); [lia |]. cbn [checkInteger].
    assert (E : i / 256 ^ (n - 1) = i / 256 ^ (n - 2) / 256).
    { rewrite Z.div_div by lia. rewrite (Z.mul_comm _ 256), <- Z.pow_succ_r by lia. do 2 f_equal. lia. }
    rewrite E in *. revert Hmin Hfit. generalize (i / 256 ^ (n - 2)). intros y Hmin Hfit.
    rewrite land_high by (unfold is_byte; lia). case_cmp; cbn; try done; lia. }
  rewrite len_big_bytes, (proj2 (Z.ltb_ge _ _)), fold_i64 by (lia || apply bytes_big_bytes). rewrite be_value_big_bytes by lia.
  f_equal. by apply sign_extend.
Qed.

Lemma len_element tag isCompound body : len body < 2 ^ 16 -> len (element tag isCompound body) <= len body + 4.
Proof.
  intros Hb. unfold element, appendTagAndLength. rewrite len_app, len_cons. pose proof (len_nonneg body).
  destruct (128 <=? _); [| rewrite len_cons, len_nil; lia]. cbv zeta. rewrite len_cons, lengthLength_small by lia.
  destruct (_ <? _); rewrite len_big_bytes; lia.
Qed.

Lemma Unmarshal_Marshal t : len (token_RemoteAddr t) < 2 ^ 14 -> len (token_OriginalDestConnectionID t) < 2 ^ 14 ->
  is_i64 (Timestamp t) -> Unmarshal (Marshal t) = Ok (t, []).
Proof.
  intros H1 H2 Ht. destruct (int64Encoder_Len_spec _ Ht) as (Hn & _ & _).
  unfold Unmarshal, Marshal. rewrite <- (app_nil_r (element TagSequence _ _)).
  erewrite reader_bind_step; [| apply parseField_element; [by right; right |]].
  - unfold lift, parse_token.
    erewrite reader_bind_step by (apply parseField_element; [by right; left | lia]).
    erewrite reader_bind_step by (apply parseField_element; [by right; left | lia]).
    rewrite <- (app_nil_r (element TagInteger _ _)).
    erewrite reader_bind_step by (apply parseField_element; [by left | rewrite len_big_bytes; lia]).
    rewrite parseInt64_roundtrip by done. by destruct t.
  - rewrite !len_app. pose proof (len_element TagOctetString false (token_RemoteAddr t)).
    pose proof (len_element TagOctetString false (token_OriginalDestConnectionID t)).
    pose proof (len_element TagInteger false (big_bytes (int64Encoder_Len (Timestamp t)) (Timestamp t))) as H3.
    rewrite len_big_bytes in H3 by lia. lia.
Qed.

Lemma bytes_element tag isCompound body : tag_ok tag isCompound -> bytes body -> len body < 2 ^ 16 -> bytes (element tag isCompound body).
Proof.
  intros Ht Hb Hl. pose proof (len_nonneg body). unfold element, appendTagAndLength. apply bytes_app. split; [| done]. constructor.
  - by destruct Ht as [[-> ->] | [[-> ->] | [-> ->]]].
  - destruct (Z.leb_spec 128 (len body)); [| constructor; [unfold is_byte; lia | constructor]].
    cbv zeta. constructor; [| apply bytes_big_bytes]. rewrite lengthLength_small by lia. by destruct (_ <? _).
Qed.

Lemma bytes_Marshal t : bytes (token_RemoteAddr t) -> bytes (token_OriginalDestConnectionID t) ->
  len (token_RemoteAddr t) < 2 ^ 14 -> len (token_OriginalDestConnectionID t) < 2 ^ 14 -> is_i64 (Timestamp t) -> bytes (Marshal t).
Proof.
  intros B1 B2 H1 H2 Ht. destruct (int64Encoder_Len_spec _ Ht) as (Hn & _ & _).
  pose proof (len_element TagOctetString false (token_RemoteAddr t)).
  pose proof (len_element TagOctetString false (token_OriginalDestConnectionID t)).
  pose proof (len_element TagInteger false (big_bytes (int64Encoder_Len (Timestamp t)) (Timestamp t))) as H3.
  rewrite len_big_bytes in H3 by lia. unfold Marshal. apply bytes_element; [by right; right | | rewrite !len_app; lia].
  rewrite !bytes_app. split_and!; apply bytes_element; unfold tag_ok; try done; try tauto; try lia; try apply bytes_big_bytes.
  rewrite len_big_bytes; lia.
Qed.

(** ** Lemmas: the text of IPv4 addresses *)

Definition digit (c : Z) : Prop := 48 <= c <= 57.

Lemma uitoa_digits a : is_byte a -> Forall digit (uitoa a).
Proof.
  intros Ha. assert (H : forallb (fun c => (48 <=? c) && (c <=? 57)) (uitoa a) = true)
    by (by apply (byte_check (fun a => forallb (fun c => (48 <=? c) && (c <=? 57)) (uitoa a)))).
  apply Forall_forall. intros c Hc%list_elem_of_In. rewrite forallb_forall in H. specialize (H c Hc). unfold digit. bool_to_prop. lia.
Qed.

Lemma uitoa_inj a b : is_byte a -> is_byte b -> uitoa a = uitoa b -> a = b.
Proof.
  intros Ha Hb E. set (value := foldl (fun v c => 10 * v + (c - 48)) 0).
  assert (Hv : forall x, is_byte x -> value (uitoa x) = x).
  { intros x Hx. apply Z.eqb_eq. by apply (byte_check (fun x => value (uitoa x) =? x)). }
  rewrite <- (Hv a Ha), <- (Hv b Hb). by rewrite E.
Qed.

(** Digits end at a dot. *)
Lemma dot_split d d' r r' : Forall digit d -> Forall digit d' -> d ++ 46 :: r = d' ++ 46 :: r' -> d = d' /\ r = r'.
Proof.
  revert d'. induction d as [| x d IH]; intros [| x' d'] Hd Hd' E.
  - by injection E.
  - injection E as <- _. apply Forall_cons in Hd' as [[? ?] _]. lia.
  - injection E as -> _. apply Forall_cons in Hd as [[? ?] _]. lia.
  - injection E as <- E. apply Forall_cons in Hd as [_ Hd], Hd' as [_ Hd']. destruct (IH d' Hd Hd' E) as [-> ->]. done.
Qed.

Lemma IPv4_String_inj a b : bytes a -> bytes b -> len a = 4 -> len b = 4 -> IP_String a = IP_String b -> a = b.
Proof.
  intros Ba Bb La Lb E. unfold IP_String, To4 in E. rewrite La, Lb in E. cbn [Z.eqb Pos.eqb] in E.
  destruct a as [| a1 [| a2 [| a3 [| a4 []]]]]; try (unfold len in La; cbn in La; lia).
  destruct b as [| b1 [| b2 [| b3 [| b4 []]]]]; try (unfold len in Lb; cbn in Lb; lia).
  unfold bytes in *. rewrite !Forall_cons in Ba, Bb. destruct Ba as (? & ? & ? & ? & _), Bb as (? & ? & ? & ? & _).
  apply dot_split in E as [E1 E]; [| by apply uitoa_digits..]. apply dot_split in E as [E2 E]; [| by apply uitoa_digits..].
  apply dot_split in E as [E3 E4]; [| by apply uitoa_digits..].
  apply uitoa_inj in E1, E2, E3, E4; try done. by subst.
Qed.

(** ** Lemmas: the generator *)

(** The text that the server compares. *)
Definition addr_text (a : net_Addr) : list Z :=
  match a with UDP a => IP_String (IP a) | OtherAddr text => text end.

Lemma decode_encode_addr a : decodeRemoteAddr (encodeRemoteAddr a) = addr_text a.
Proof. by destruct a. Qed.

Section Laws.
Context {CC : CookieCrypto} {CL : CookieCryptoLaws CC}.

Lemma ReadFull_enough n r : 0 < n <= len r -> ReadFull n r = Ok (take_z n r, drop_z n r).
Proof. intros Hn. unfold ReadFull. case_cmp; (lia || done). Qed.

Lemma createAEAD_ok g nonce : exists a n, createAEAD g nonce = Ok (a, n).
Proof.
  unfold createAEAD. pose proof (hkdf_long (secret g) nonce cookie_info) as Hl. set (h := hkdf_New _ _ _) in *.
  rewrite ReadFull_enough by lia. cbn [mbind outcome_bind]. rewrite ReadFull_enough by (rewrite len_drop_z; lia).
  cbn [mbind outcome_bind]. destruct (gcm_key (take_z 32 h)) as [a ->]; [apply len_take_z; lia |]. by do 2 eexists.
Qed.

(** What opens is what was sealed under this nonce. *)
Lemma decode_sealed g tok data : protector_DecodeToken g tok = Ok data <->
  exists nonce a n, len nonce = cookieNonceSize /\ createAEAD g nonce = Ok (a, n) /\ tok = nonce ++ AEAD_Seal a n data.
Proof.
  unfold protector_DecodeToken. split.
  - destruct (Z.ltb_spec (len tok) cookieNonceSize) as [| Hl]; [done |].
    destruct (createAEAD_ok g (take_z cookieNonceSize tok)) as (a & n & E). rewrite E. cbn [mbind outcome_bind].
    intros Ho%gcm_open. exists (take_z cookieNonceSize tok), a, n. split_and!; [| done |].
    + apply len_take_z. unfold cookieNonceSize in *. lia.
    + rewrite <- Ho. by rewrite take_drop_z.
  - intros (nonce & a & n & Hl & E & ->). rewrite len_app, Hl.
    pose proof (len_nonneg (AEAD_Seal a n data)). rewrite (proj2 (Z.ltb_ge _ _)) by lia.
    rewrite <- Hl, take_z_app, drop_z_app, E. cbn [mbind outcome_bind]. by apply gcm_open.
Qed.

Lemma token_decoded g now nonce raddr id tok : len nonce = cookieNonceSize ->
  len (encodeRemoteAddr raddr) < 2 ^ 14 -> len id < 2 ^ 14 -> is_i64 (now / 10 ^ 9) ->
  gen_NewToken g now (Ok nonce) raddr id = Ok tok ->
  gen_DecodeToken g tok = Ok (Some (mkCookie (addr_text raddr) id (now / 10 ^ 9 * 10 ^ 9))).
Proof.
  intros Hn Ha Hi Ht. unfold gen_NewToken, protector_NewToken. cbn [mbind outcome_bind].
  destruct (createAEAD_ok g nonce) as (a & n & E). rewrite E. cbn [mbind outcome_bind]. intros [= <-].
  set (t := mkToken _ _ _). unfold gen_DecodeToken.
  rewrite len_app, Hn, (proj2 (Z.eqb_neq _ _)) by (pose proof (len_nonneg (AEAD_Seal a n (Marshal t))); unfold cookieNonceSize; lia).
  rewrite (proj2 (decode_sealed g _ (Marshal t))) by (by exists nonce, a, n). cbn [mbind outcome_bind].
  rewrite Unmarshal_Marshal by done. cbn. by rewrite decode_encode_addr.
Qed.

Lemma token_made g now nonce raddr id : bytes nonce -> bytes (encodeRemoteAddr raddr) -> bytes id ->
  len (encodeRemoteAddr raddr) < 2 ^ 14 -> len id < 2 ^ 14 -> is_i64 (now / 10 ^ 9) ->
  exists tok, gen_NewToken g now (Ok nonce) raddr id = Ok tok /\ bytes tok /\ tok <> [].
Proof.
  intros Bn Ba Bi Ha Hi Ht. unfold gen_NewToken, protector_NewToken. cbn [mbind outcome_bind].
  destruct (createAEAD_ok g nonce) as (a & n & E). rewrite E. cbn [mbind outcome_bind]. eexists. split_and!; [done | |].
  - apply bytes_app. split; [done |]. by apply gcm_bytes, bytes_Marshal.
  - intros [_ He]%app_nil. by apply gcm_nonempty in He.
Qed.

(** ** Theorems *)

(** A token decodes to what it was made of: the text of the client's address,
    the connection ID, and the time in seconds. *)
Theorem token_roundtrip g now nonce raddr id : len nonce = cookieNonceSize -> bytes nonce ->
  bytes (encodeRemoteAddr raddr) -> bytes id -> len (encodeRemoteAddr raddr) < 2 ^ 14 -> len id < 2 ^ 14 -> is_i64 (now / 10 ^ 9) ->
  exists tok, gen_NewToken g now (Ok nonce) raddr id = Ok tok
    /\ gen_DecodeToken g tok = Ok (Some (mkCookie (addr_text raddr) id (now / 10 ^ 9 * 10 ^ 9))).
Proof.
  intros Hn Bn Ba Bi Ha Hi Ht. destruct (token_made g now nonce raddr id) as (tok & E & _); try done.
  exists tok. split; [done |]. by eapply token_decoded.
Qed.

(** C31. Tokens are bound to an address: if a server starts a session for a packet,
    then the token of the packet was sealed with the key of the server; and if it
    is a token that was made for an address, that address has the same text as the
    one the packet came from (for IPv4: is the same), and at most a day and a
    second have passed. *)
Theorem token_bound_to_address g now t0 nonce0 rand versions r posByte rndv rnd connID addr hdr data orig cdest dest src v :
  server_handlePacketImpl (server_NewToken g now rand) (server_DecodeToken g) (defaultAcceptCookie IP_String now) versions r posByte
    rndv rnd connID addr hdr data = Ok (StartSession orig cdest dest src v) ->
  IsLongHeader hdr = true ->
  (exists nonce a n data, len nonce = cookieNonceSize /\ createAEAD g nonce = Ok (a, n)
     /\ Header_Token hdr = nonce ++ AEAD_Seal a n data)
  /\ forall raddr id, len nonce0 = cookieNonceSize -> len (encodeRemoteAddr raddr) < 2 ^ 14 -> len id < 2 ^ 14 ->
       is_i64 (t0 / 10 ^ 9) -> gen_NewToken g t0 (Ok nonce0) raddr id = Ok (Header_Token hdr) ->
       addr_text raddr = IP_String (IP addr) /\ now < t0 + CookieExpiryTime + 10 ^ 9 /\ orig = id
       /\ forall a, raddr = UDP a -> bytes (IP a) -> bytes (IP addr) -> len (IP a) = 4 -> len (IP addr) = 4 -> IP a = IP addr.
Proof.
  intros Hs Hlong. apply starts_session in Hs as (_ & _ & _ & (c & Hne & Hd & [Htext Htime] & ->) & _); [| done].
  unfold server_DecodeToken in Hd. apply outcome_bind_Ok in Hd as ([c' |] & Hd & [= ->]). split.
  - unfold gen_DecodeToken in Hd. destruct (_ =? 0); [done |]. apply outcome_bind_Ok in Hd as (p & Hp & _).
    apply decode_sealed in Hp as (nonce & a & n & Hl & E & Et). by exists nonce, a, n, p.
  - intros raddr id H1 H2 H3 H4 H5. rewrite (token_decoded g t0 nonce0 raddr id _ H1 H2 H3 H4 H5) in Hd. injection Hd as <-.
    cbn [Cookie_RemoteAddr SentTime] in *. split_and!; [done | lia | done |].
    intros a -> Ba Bb La Lb. by apply IPv4_String_inj.
Qed.

(** C30. The Retry exchange with the server's own tokens: the first packet of a
    client is answered by a Retry packet that the client accepts; it starts again
    with the token, and its next Initial packet, if it comes within a day, makes
    the server start a session, which knows the connection ID of the first packet,
    as the new session of the client does. *)
Theorem retry_succeeds g now now' nonce rand' versions r posByte rndv rnd connID connID' addr c ids hdr data hdr' data' :
  (* the server *)
  len nonce = cookieNonceSize -> bytes nonce -> is_i64 (now / 10 ^ 9) -> now' <= now / 10 ^ 9 * 10 ^ 9 + CookieExpiryTime ->
  bytes (IP addr) -> len (IP addr) <= 16 ->
  (* the client and its first packet *)
  c_token c = [] -> connid_ok (c_srcConnID c) -> connid_ok (c_destConnID c) -> MinConnectionIDLenInitial <= len (c_destConnID c) ->
  0 < c_version c < 2 ^ 32 -> In (c_version c) versions ->
  IsLongHeader hdr = true -> Header_Type hdr = PacketTypeInitial -> Header_Version hdr = c_version c -> Header_Token hdr = [] ->
  DestConnectionID hdr = c_destConnID c -> SrcConnectionID hdr = c_srcConnID c ->
  MinInitialPacketSize <= len (Header_Raw hdr) + len data ->
  (* the random connection ID of the Retry *)
  0 <= rnd < 256 -> connid_ok connID -> connID <> c_destConnID c ->
  exists reply retry c',
    server_handlePacketImpl (server_NewToken g now (Ok nonce)) (server_DecodeToken g) (defaultAcceptCookie IP_String now) versions r
      posByte rndv rnd connID addr hdr data = Ok (SendTo reply addr)
    /\ parse_header (len (c_srcConnID c)) reply = Ok (retry, [])
    /\ client_handlePacketImpl ids c retry [] = (None, [Destroy CloseForRetry], c')
    /\ let s := createNewTLSSession c' in
       sa_origDestConnID s = c_destConnID c
       /\ (IsLongHeader hdr' = true -> Header_Type hdr' = PacketTypeInitial -> Header_Version hdr' = sa_version s ->
           Header_Token hdr' = sa_token s -> DestConnectionID hdr' = sa_destConnID s -> SrcConnectionID hdr' = sa_srcConnID s ->
           MinInitialPacketSize <= len (Header_Raw hdr') + len data' ->
           server_handlePacketImpl (server_NewToken g now' rand') (server_DecodeToken g) (defaultAcceptCookie IP_String now') versions
             r posByte rndv rnd connID' addr hdr' data'
           = Ok (StartSession (sa_origDestConnID s) (sa_destConnID s) (sa_srcConnID s) connID' (sa_version s))).
Proof.
  intros Hn Bn Ht Ht' Ba La Htok Hsrc [Bid Hdl] Hmin.
  assert (Hl : len (encodeRemoteAddr (UDP addr)) < 2 ^ 14) by (cbn [encodeRemoteAddr]; rewrite len_cons; lia).
  destruct (token_made g now nonce (UDP addr) (c_destConnID c)) as (tok & E & Bt & Hne); try done; [| lia |].
  { by constructor. }
  assert (Hd : server_DecodeToken g tok = Ok (mkCookie (IP_String (IP addr)) (c_destConnID c) (now / 10 ^ 9 * 10 ^ 9))).
  { unfold server_DecodeToken. by rewrite (token_decoded g now nonce (UDP addr) (c_destConnID c)) by (done || lia). }
  intros. destruct (retry_exchange IP_String (server_NewToken g now (Ok nonce)) (server_DecodeToken g)
    (server_NewToken g now' rand') now now' (now / 10 ^ 9 * 10 ^ 9) versions r posByte rndv rnd connID connID' addr c ids hdr data
    hdr' data' tok) as (reply & retry & c' & R1 & R2 & R3 & _ & R4); try done.
  by exists reply, retry, c'.
Qed.
End Laws.

(** Cryptography that keeps the plaintext and adds a byte. *)
#[local] Instance open_crypto : CookieCrypto := {
  AEAD := unit;
  hkdf_New _ _ _ := repeat 0 44;
  NewGCM _ := Ok tt;
  AEAD_Seal _ _ p := 42 :: p;
  AEAD_Open _ _ c := match c with
                     | x :: p => if x =? 42 then Ok p else Err (Errorf "cipher: message authentication failed" [])
                     | [] => Err (Errorf "cipher: message authentication failed" [])
                     end }.

#[local] Instance open_crypto_laws : CookieCryptoLaws open_crypto.
Proof.
  constructor.
  - intros. by vm_compute.
  - intros. by exists tt.
  - intros a n p Hp. by constructor.
  - done.
  - intros a n p c. cbn. split; [| by intros ->].
    destruct c as [| x c]; [done |]. destruct (Z.eqb_spec x 42) as [-> |]; [by intros [= ->] | done].
Qed.

Definition sample_generator : cookieProtectorImpl := mkProtector (repeat 7 32).
Definition sample_nonce : list Z := repeat 9 32.

Lemma sample_nonce_bytes : bytes sample_nonce.
Proof. unfold sample_nonce. cbn [repeat]. solve_bytes. Qed.

Lemma token_roundtrip_witness :
  exists tok, gen_NewToken sample_generator 5500000000 (Ok sample_nonce) (UDP sample_addr) [1; 2; 3; 4; 5; 6; 7; 8] = Ok tok
    /\ gen_DecodeToken sample_generator tok
       = Ok (Some (mkCookie [49; 57; 50; 46; 49; 54; 56; 46; 48; 46; 49] [1; 2; 3; 4; 5; 6; 7; 8] 5000000000)).
Proof.
  apply (token_roundtrip sample_generator 5500000000 sample_nonce (UDP sample_addr) [1; 2; 3; 4; 5; 6; 7; 8]).
  - reflexivity.
  - apply sample_nonce_bytes.
  - cbn [encodeRemoteAddr]. unfold sample_addr, cookiePrefixIP. cbn [IP]. solve_bytes.
  - solve_bytes.
  - reflexivity.
  - reflexivity.
  - split; by vm_compute.
Defined.

Definition sample_tok : list Z :=
  sample_nonce ++ 42 :: Marshal (mkToken (encodeRemoteAddr (UDP sample_addr)) [1; 2; 3; 4; 5; 6; 7; 8] 5).

Lemma token_bound_to_address_witness :
  exists nonce a n data, len nonce = cookieNonceSize /\ createAEAD sample_generator nonce = Ok (a, n)
    /\ sample_tok = nonce ++ AEAD_Seal a n data.
Proof.
  assert (Hs : server_handlePacketImpl (server_NewToken sample_generator 6000000000 (Ok sample_nonce))
    (server_DecodeToken sample_generator) (defaultAcceptCookie IP_String 6000000000) [VersionTLS] 0 0 0 0 [7; 7; 7; 7] sample_addr
    (sample_initial sample_tok [9; 9; 9; 9]) (repeat 0 1200)
    = Ok (StartSession [1; 2; 3; 4; 5; 6; 7; 8] [9; 9; 9; 9] [1; 2; 3; 4] [7; 7; 7; 7] VersionTLS)) by (vm_compute; reflexivity).
  destruct (token_bound_to_address sample_generator _ 0 [] _ _ _ _ _ _ _ _ _ _ _ _ _ _ _ Hs eq_refl) as [H _].
  exact H.
Defined.

Lemma retry_succeeds_witness :
  exists reply retry c',
    server_handlePacketImpl (server_NewToken sample_generator 5500000000 (Ok sample_nonce)) (server_DecodeToken sample_generator)
      (defaultAcceptCookie IP_String 5500000000) [VersionTLS] 0 0 0 0 [9; 9; 9; 9] sample_addr
      (sample_initial [] [1; 2; 3; 4; 5; 6; 7; 8]) (repeat 0 1200) = Ok (SendTo reply sample_addr)
    /\ parse_header 4 reply = Ok (retry, [])
    /\ client_handlePacketImpl (Ok ([], [])) (mkClient [] false false [] [VersionTLS] [1; 2; 3; 4] [1; 2; 3; 4; 5; 6; 7; 8] [] 0 VersionTLS)
         retry [] = (None, [Destroy CloseForRetry], c').
Proof.
  destruct (retry_succeeds sample_generator 5500000000 6000000000 sample_nonce (Ok sample_nonce) [VersionTLS] 0 0 0 0 [9; 9; 9; 9]
    [7; 7; 7; 7] sample_addr (mkClient [] false false [] [VersionTLS] [1; 2; 3; 4] [1; 2; 3; 4; 5; 6; 7; 8] [] 0 VersionTLS)
    (Ok ([], [])) (sample_initial [] [1; 2; 3; 4; 5; 6; 7; 8]) (repeat 0 1200) (sample_initial [] []) [])
    as (reply & retry & c' & H1 & H2 & H3 & _).
  all: try reflexivity; try discriminate.
  all: try (split; [solve_bytes | right; split; by vm_compute]).
  - apply sample_nonce_bytes.
  - split; by vm_compute.
  - solve_bytes.
  - by vm_compute.
  - by left.
  - split; [lia | by vm_compute].
  - by exists reply, retry, c'.
Defined.
