(* ===== verification/Crypto.v ===== *)
(** * Cryptography (internal/crypto, internal/handshake/aead.go)

    The keys of Initial packets, which are derived from the connection ID of the
    client, and the nonces that packets are sealed with.  SHA-256 and HMAC of the
    standard library are modelled; the block cipher AES-GCM and the cipher suites
    of TLS are parameters. *)

From S2P Require Import Prelude Qerr Varint Protocol AckFrame Frames FrameCodec FrameParser FrameSorter Float FlowControl.
From S2P Require Import SentHistory Header SendStream ReceiveStream CryptoStream Framer Packer Receiving.

(** ** SHA-256 *)

(** The constants are the first 32 bits of the fractional parts of the square
    and cube roots of the first primes. *)
Definition prime (n : Z) : bool := forallb (fun d => negb (n mod d =? 0)) (seqZ 2 (n - 2)).
Definition primes : list Z := Eval vm_compute in List.filter prime (seqZ 2 310).

(** The cube root of [n], rounded down; the bits of the result from bit [k] on. *)
Fixpoint cube_root (k : nat) (n r : Z) : Z :=
  match k with
  | O => r
  | S k => let r' := r + 2 ^ Z.of_nat k in cube_root k n (if r' ^ 3 <=? n then r' else r)
  end.

Definition sha256_K : list Z := Eval vm_compute in (fun p => u32 (cube_root 40 (p * 2 ^ 96) 0)) <$> primes.
Definition sha256_init : list Z := Eval vm_compute in (fun p => u32 (Z.sqrt (p * 2 ^ 64))) <$> take 8 primes.

Definition rotr (x n : Z) : Z := Z.lor (x ≫ n) (u32 (x ≪ (32 - n))).
Definition not32 (x : Z) : Z := 2 ^ 32 - 1 - x.

(** One round; [w] are the next 16 words of the message schedule. *)
Definition sha256_round (k : Z) (st : list Z * list Z) : list Z * list Z :=
  match st with
  | ([a; b; c; d; e; f; g; h], w0 :: w) =>
      let s1 := Z.lxor (Z.lxor (rotr e 6) (rotr e 11)) (rotr e 25) in
      let ch := Z.lxor (Z.land e f) (Z.land (not32 e) g) in
      let t1 := u32 (h + s1 + ch + k + w0) in
      let s0 := Z.lxor (Z.lxor (rotr a 2) (rotr a 13)) (rotr a 22) in
      let maj := Z.lxor (Z.lxor (Z.land a b) (Z.land a c)) (Z.land b c) in
      let word i := default 0 (w !! i) in
      let x := word 0%nat in
      let y := word 13%nat in
      let sigma0 := Z.lxor (Z.lxor (rotr x 7) (rotr x 18)) (x ≫ 3) in
      let sigma1 := Z.lxor (Z.lxor (rotr y 17) (rotr y 19)) (y ≫ 10) in
      ([u32 (t1 + s0 + maj); a; b; c; u32 (d + t1); e; f; g], w ++ [u32 (w0 + sigma0 + word 8%nat + sigma1)])
  | _ => st
  end.

Fixpoint words (l : list Z) : list Z :=
  match l with
  | a :: b :: c :: d :: l => be_value [a; b; c; d] :: words l
  | _ => []
  end.

Definition sha256_block (st : list Z) (block : list Z) : list Z :=
  zip_with (fun a b => u32 (a + b)) st (foldl (fun st k => sha256_round k st) (st, words block) sha256_K).1.

Fixpoint sha256_blocks (fuel : nat) (st : list Z) (data : list Z) : list Z :=
  match fuel with
  | O => st
  | S fuel => if len data <? 64 then st else sha256_blocks fuel (sha256_block st (take_z 64 data)) (drop_z 64 data)
  end.

(** A one bit, zeros, and the length in bits. *)
Definition sha256_pad (data : list Z) : list Z :=
  data ++ 128 :: repeat 0 (Z.to_nat ((55 - len data) mod 64)) ++ big_bytes 8 (8 * len data).

Definition sha256_Sum (data : list Z) : list Z :=
  let p := sha256_pad data in
  concat (big_bytes 4 <$> sha256_blocks (S (length p)) sha256_init p).

(** "abc" and the empty string, as in FIPS 180. *)
Example sha256_examples :
  be_value (sha256_Sum [97; 98; 99]) = 0xba7816bf8f01cfea414140de5dae2223b00361a396177a9cb410ff61f20015ad
  /\ be_value (sha256_Sum []) = 0xe3b0c44298fc1c149afbf4c8996fb92427ae41e4649b934ca495991b7852b855.
Proof. by vm_compute. Qed.

(** ** HMAC and HKDF *)

(** [crypto.Hash]. *)
Record Hash : Type := mkHash {
  hash_Size : Z;
  hash_BlockSize : Z;
  hash_Sum : list Z -> list Z }.

Definition SHA256 : Hash := mkHash 32 64 sha256_Sum.

Definition hmac (hash : Hash) (key data : list Z) : list Z :=
  let key := if hash_BlockSize hash <? len key then hash_Sum hash key else key in
  let key := key ++ repeat 0 (Z.to_nat (hash_BlockSize hash - len key)) in
  hash_Sum hash ((Z.lxor 0x5c <$> key) ++ hash_Sum hash ((Z.lxor 0x36 <$> key) ++ data)).

(** The bytes of a string. *)
Definition str (s : string) : list Z := (fun c => Z.of_N (Ascii.N_of_ascii c)) <$> String.list_ascii_of_string s.

Definition hkdfExtract (hash : Hash) (secret salt : option (list Z)) : list Z :=
  let zeros := repeat 0 (Z.to_nat (hash_Size hash)) in
  hmac hash (default zeros salt) (default zeros secret).

(** The loop that fills the result, of which [todo] bytes are missing. *)
Fixpoint expand_loop (hash : Hash) (prk info : list Z) (fuel : nat) (prev : list Z) (counter todo : Z) : option (list Z) :=
  match fuel with
  | O => None
  | S fuel =>
      if 0 <? todo then
        let prev := hmac hash prk (prev ++ info ++ [counter]) in
        let n := Z.min todo (len prev) in
        app (take_z n prev) <$> expand_loop hash prk info fuel prev (u8 (counter + 1)) (todo - n)
      else Some []
  end.

(** Every round gives at least one byte. *)
Definition hkdfExpand (hash : Hash) (prk info : list Z) (l : Z) : outcome (list Z) :=
  if 255 * hash_Size hash <? l then Panic "hkdf: requested too much output"
  else match expand_loop hash prk info (S (Z.to_nat l)) [] 1 l with
       | Some res => Ok res
       | None => Panic "out of fuel"
       end.

Definition HkdfExpandLabel (hash : Hash) (secret : list Z) (label : string) (length : Z) : outcome (list Z) :=
  let prefix := str "quic " in
  let qlabel := u16_bytes length ++ [u8 (len prefix + len (str label))] ++ prefix ++ str label ++ [0] in
  hkdfExpand hash secret qlabel length.

(** ** Packet protection *)

(** [cipher.AEAD]. *)
Record cipherAEAD : Type := mkAEAD {
  NonceSize : Z;
  AEAD_Overhead : Z;
  aead_Seal : list Z -> list Z -> list Z -> list Z;
  aead_Open : list Z -> list Z -> list Z -> outcome (list Z) }.

(** [binary.BigEndian.PutUint64]. *)
Definition uint64_bytes (x : Z) : list Z := big_bytes 8 x.

Definition ivLen : Z := 12.

Section Protection.
(** [aes.NewCipher] and [cipher.NewGCM]. *)
Context (NewGCM : list Z -> outcome cipherAEAD).

Record aeadAESGCM : Type := mkAESGCM {
  otherIV : list Z;
  myIV : list Z;
  encrypter : cipherAEAD;
  decrypter : cipherAEAD }.

Definition NewAEADAESGCM (otherKey myKey otherIV myIV : list Z) : outcome aeadAESGCM :=
  if negb (len otherIV =? ivLen) || negb (len myIV =? ivLen) then Err (Errorf "AES-GCM: expected 12 byte IVs" [])
  else
    encrypter ← NewGCM myKey;
    decrypter ← NewGCM otherKey;
    Ok (mkAESGCM otherIV myIV encrypter decrypter).

Definition makeNonce (iv : list Z) (packetNumber : Z) : list Z :=
  zip_with Z.lxor (repeat 0 (Z.to_nat (ivLen - 8)) ++ uint64_bytes packetNumber) iv.

Definition gcm_Open (a : aeadAESGCM) (src : list Z) (packetNumber : Z) (associatedData : list Z) : outcome (list Z) :=
  aead_Open (decrypter a) (makeNonce (otherIV a) packetNumber) src associatedData.

Definition gcm_Seal (a : aeadAESGCM) (src : list Z) (packetNumber : Z) (associatedData : list Z) : list Z :=
  aead_Seal (encrypter a) (makeNonce (myIV a) packetNumber) src associatedData.

Definition gcm_Overhead (a : aeadAESGCM) : Z := AEAD_Overhead (encrypter a).

Definition quicVersion1Salt : list Z :=
  [0x9c; 0x10; 0x8f; 0x98; 0x52; 0x0a; 0x5c; 0x5c; 0x32; 0x96; 0x8e; 0x95; 0x0e; 0x8a; 0x2c; 0x5f; 0xe0; 0x6d; 0x6c; 0x38].

(** A connection ID that is empty is not nil. *)
Definition computeSecrets (connID : list Z) : outcome (list Z * list Z) :=
  let initialSecret := hkdfExtract SHA256 (Some connID) (Some quicVersion1Salt) in
  clientSecret ← HkdfExpandLabel SHA256 initialSecret "client in" (hash_Size SHA256);
  serverSecret ← HkdfExpandLabel SHA256 initialSecret "server in" (hash_Size SHA256);
  Ok (clientSecret, serverSecret).

Definition computeNullAEADKeyAndIV (secret : list Z) : outcome (list Z * list Z) :=
  key ← HkdfExpandLabel SHA256 secret "key" 16;
  iv ← HkdfExpandLabel SHA256 secret "iv" 12;
  Ok (key, iv).

Definition NewNullAEAD (connectionID : list Z) (pers : Perspective) : outcome aeadAESGCM :=
  '(clientSecret, serverSecret) ← computeSecrets connectionID;
  let '(mySecret, otherSecret) :=
    if bool_decide (pers = PerspectiveClient) then (clientSecret, serverSecret) else (serverSecret, clientSecret) in
  '(myKey, myIV) ← computeNullAEADKeyAndIV mySecret;
  '(otherKey, otherIV) ← computeNullAEADKeyAndIV otherSecret;
  NewAEADAESGCM otherKey myKey otherIV myIV.
End Protection.

(** aead.go: the IV is part of the AEAD of the cipher suite already. *)
Record sealer : Type := mk_sealer { sealer_iv : list Z; sealer_aead : cipherAEAD; sealer_nonceBuf : list Z }.
Record opener : Type := mk_opener { opener_iv : list Z; opener_aead : cipherAEAD; opener_nonceBuf : list Z }.

Definition newSealer (aead : cipherAEAD) (iv : list Z) : sealer := mk_sealer iv aead (repeat 0 (Z.to_nat (NonceSize aead))).
Definition newOpener (aead : cipherAEAD) (iv : list Z) : opener := mk_opener iv aead (repeat 0 (Z.to_nat (NonceSize aead))).

(** The buffer keeps its first bytes; a nonce of less than eight bytes panics. *)
Definition put_number (nonceBuf : list Z) (pn : Z) : outcome (list Z) :=
  if len nonceBuf <? 8 then Panic "slice bounds out of range"
  else Ok (take_z (len nonceBuf - 8) nonceBuf ++ uint64_bytes pn).

Definition sealer_Seal (s : sealer) (src : list Z) (pn : Z) (ad : list Z) : outcome (list Z * sealer) :=
  nonceBuf ← put_number (sealer_nonceBuf s) pn;
  Ok (aead_Seal (sealer_aead s) nonceBuf src ad, mk_sealer (sealer_iv s) (sealer_aead s) nonceBuf).

Definition sealer_Overhead (s : sealer) : Z := AEAD_Overhead (sealer_aead s).

Definition opener_Open (o : opener) (src : list Z) (pn : Z) (ad : list Z) : outcome (outcome (list Z) * opener) :=
  nonceBuf ← put_number (opener_nonceBuf o) pn;
  Ok (aead_Open (opener_aead o) nonceBuf src ad, mk_opener (opener_iv o) (opener_aead o) nonceBuf).

(** The AEAD of a TLS 1.3 cipher suite xors the nonce with its mask. *)
Definition nonceMask (mask nonce : list Z) : list Z := take_z 4 mask ++ zip_with Z.lxor (drop_z 4 mask) nonce.

Definition xorNonceAEAD (aead : cipherAEAD) (mask : list Z) : cipherAEAD :=
  mkAEAD 8 (AEAD_Overhead aead)
    (fun nonce plaintext ad => aead_Seal aead (nonceMask mask nonce) plaintext ad)
    (fun nonce ciphertext ad => aead_Open aead (nonceMask mask nonce) ciphertext ad).

(** ** Lemmas: hashes *)

Lemma sha256_round_length k st : length st.1 = 8%nat -> length (sha256_round k st).1 = 8%nat.
Proof.
  destruct st as [l w]. cbn. intros Hl. destruct l as [| a [| b [| c [| d [| e [| f [| g [| h []]]]]]]]]; try done.
  by destruct w.
Qed.

Lemma sha256_blocks_length fuel st data : length st = 8%nat -> length (sha256_blocks fuel st data) = 8%nat.
Proof.
  revert st data. induction fuel as [| fuel IH]; intros st data Hs; cbn; [done |]. destruct (_ <? _); [done |].
  apply IH. unfold sha256_block. rewrite length_zip_with.
  assert (H : forall ks w, length (foldl (fun st k => sha256_round k st) (st, w) ks).1 = 8%nat); [| rewrite H; lia].
  intros ks. assert (H : forall st, length st.1 = 8%nat -> length (foldl (fun st k => sha256_round k st) st ks).1 = 8%nat).
  { induction ks as [| k ks IHk]; intros st' Hs'; [done |]. cbn. by apply IHk, sha256_round_length. }
  intros w. by apply H.
Qed.

Lemma concat_big_bytes (l : list Z) : len (concat (big_bytes 4 <$> l)) = 4 * len l /\ bytes (concat (big_bytes 4 <$> l)).
Proof.
  induction l as [| x l [IH1 IH2]]; [done |]. rewrite fmap_cons. cbn [concat]. split.
  - rewrite len_app, len_big_bytes, IH1, len_cons by lia. lia.
  - apply bytes_app. split; [apply bytes_big_bytes | done].
Qed.

Lemma sha256_ok data : len (sha256_Sum data) = 32 /\ bytes (sha256_Sum data).
Proof.
  unfold sha256_Sum. cbv zeta. destruct (concat_big_bytes (sha256_blocks (S (length (sha256_pad data))) sha256_init (sha256_pad data)))
    as [-> Hb]. split; [| done]. unfold len. rewrite sha256_blocks_length; done.
Qed.

(** A hash has its size. *)
Definition hash_ok (hash : Hash) : Prop :=
  0 < hash_Size hash /\ forall data, len (hash_Sum hash data) = hash_Size hash /\ bytes (hash_Sum hash data).

Lemma SHA256_ok : hash_ok SHA256.
Proof. split; [done | apply sha256_ok]. Qed.

Lemma take_z_pieces {A} n (l k : list A) : 0 <= n ->
  take_z (Z.min n (len l)) l ++ take_z (n - Z.min n (len l)) k = take_z n (l ++ k).
Proof.
  intros Hn. unfold take_z, len. rewrite take_app. f_equal; [| f_equal; lia].
  destruct (Z.le_ge_cases n (Z.of_nat (length l))); [f_equal; lia |]. rewrite !firstn_all2 by lia. done.
Qed.

(** The blocks T(1), T(2), ... of RFC 5869. *)
Fixpoint hkdf_T (hash : Hash) (prk info : list Z) (i : nat) : list Z :=
  match i with
  | O => []
  | S j => hmac hash prk (hkdf_T hash prk info j ++ info ++ [Z.of_nat i])
  end.

Section HKDF.
Context (hash : Hash) (prk info : list Z) (Hh : hash_ok hash).
#[local] Abbreviation T := (hkdf_T hash prk info).

Lemma hkdf_T_ok i : len (T (S i)) = hash_Size hash /\ bytes (T (S i)).
Proof. apply Hh. Qed.

Lemma expand_loop_spec fuel i todo : 0 <= todo -> (Z.to_nat todo < fuel)%nat -> Z.of_nat i * hash_Size hash + todo <= 255 * hash_Size hash ->
  expand_loop hash prk info fuel (T i) (u8 (Z.of_nat (S i))) todo = Some (take_z todo (concat (T <$> seq (S i) (255 - i)))).
Proof.
  destruct Hh as [Hpos _]. revert i todo. induction fuel as [| fuel IH]; intros i todo H0 Hf Hle; [lia |]. cbn [expand_loop].
  destruct (Z.ltb_spec 0 todo) as [Hlt | Hge]; [| by replace todo with 0 by lia].
  assert (Hi : (i < 255)%nat) by nia. replace (255 - i)%nat with (S (255 - S i)) by lia. cbn [seq]. rewrite fmap_cons. cbn [concat].
  assert (u8 (Z.of_nat (S i)) = Z.of_nat (S i)) as -> by (unfold u8; rewrite Z.mod_small; lia).
  change (hmac hash prk (T i ++ info ++ [Z.of_nat (S i)])) with (T (S i)). destruct (hkdf_T_ok i) as [Hl _]. rewrite <- Hl in *.
  replace (Z.of_nat (S i) + 1) with (Z.of_nat (S (S i))) by lia. rewrite IH by nia. cbn [fmap option_fmap option_map]. f_equal.
  by apply take_z_pieces.
Qed.

Lemma len_blocks i n : len (concat (T <$> seq (S i) n)) = Z.of_nat n * hash_Size hash /\ bytes (concat (T <$> seq (S i) n)).
Proof.
  revert i. induction n as [| n IH]; intros i; [done |]. cbn [seq]. rewrite fmap_cons. cbn [concat].
  destruct (IH (S i)) as [IH1 IH2], (hkdf_T_ok i) as [T1 T2]. rewrite len_app, IH1, T1, bytes_app. split; [lia | done].
Qed.

Lemma hkdfExpand_spec l : 0 <= l <= 255 * hash_Size hash ->
  exists okm, hkdfExpand hash prk info l = Ok okm /\ okm = take_z l (concat (T <$> seq 1 255)) /\ len okm = l /\ bytes okm.
Proof.
  intros Hl. unfold hkdfExpand. rewrite (proj2 (Z.ltb_ge _ _)) by lia.
  pose proof (expand_loop_spec (S (Z.to_nat l)) 0 l ltac:(lia) ltac:(lia) ltac:(lia)) as E.
  change (T 0) with (@nil Z) in E. change (u8 (Z.of_nat 1)) with 1 in E. rewrite E. eexists. split; [done |]. split; [done |].
  destruct (len_blocks 0 255) as [L B]. change (255 - 0)%nat with 255%nat. split.
  - rewrite len_take_z by lia. done.
  - by apply Forall_take.
Qed.
End HKDF.

Lemma HkdfExpandLabel_ok hash secret label n : hash_ok hash -> 0 <= n <= 255 * hash_Size hash ->
  exists k, HkdfExpandLabel hash secret label n = Ok k /\ len k = n /\ bytes k.
Proof.
  intros Hh Hn. unfold HkdfExpandLabel. destruct (hkdfExpand_spec hash secret
    (u16_bytes n ++ [u8 (len (str "quic ") + len (str label))] ++ str "quic " ++ str label ++ [0]) Hh n Hn) as (k & E & _ & Hk).
  by exists k.
Qed.

(** ** Lemmas: nonces *)

Lemma zip_lxor_comm l k : zip_with Z.lxor l k = zip_with Z.lxor k l.
Proof. revert k. induction l as [| x l IH]; intros [| y k]; [done.. |]. cbn. rewrite IH. f_equal. apply Z.lxor_comm. Qed.

Lemma zip_lxor_inj l k m : len l = len k -> len l <= len m -> zip_with Z.lxor l m = zip_with Z.lxor k m -> l = k.
Proof.
  revert k m. induction l as [| x l IH]; intros [| y k] m H1 H2 E; rewrite ?len_cons, ?len_nil in *; [done | | |].
  { pose proof (len_nonneg k). lia. }
  { pose proof (len_nonneg l). lia. }
  destruct m as [| z m]; rewrite ?len_cons, ?len_nil in *; [pose proof (len_nonneg l); lia |].
  cbn in E. injection E as E1 E2. f_equal; [| by apply (IH k m); try lia].
  rewrite <- (Z.lxor_0_r x), <- (Z.lxor_nilpotent z), <- Z.lxor_assoc, E1, Z.lxor_assoc, Z.lxor_nilpotent. apply Z.lxor_0_r.
Qed.

Lemma uint64_bytes_inj x y : is_u64 x -> is_u64 y -> uint64_bytes x = uint64_bytes y -> x = y.
Proof.
  intros Hx Hy E. apply (f_equal be_value) in E. unfold uint64_bytes in E. rewrite !be_value_big_bytes in E by lia.
  unfold is_u64 in *. rewrite !Z.mod_small in E by lia. done.
Qed.

Lemma len_uint64_bytes x : len (uint64_bytes x) = 8.
Proof. by apply len_big_bytes. Qed.

Lemma len_makeNonce iv pn : len iv = ivLen -> len (makeNonce iv pn) = ivLen.
Proof.
  intros Hi. unfold makeNonce, len in *. rewrite length_zip_with, length_app, repeat_length.
  pose proof (len_uint64_bytes pn) as Hu. unfold len in Hu. unfold ivLen in *. lia.
Qed.

Lemma put_number_8 b pn : len b = 8 -> put_number b pn = Ok (uint64_bytes pn).
Proof. intros Hb. unfold put_number. by rewrite Hb. Qed.

Lemma nonceMask_makeNonce iv pn : len iv = ivLen -> nonceMask iv (uint64_bytes pn) = makeNonce iv pn.
Proof.
  intros Hi. unfold nonceMask, makeNonce. rewrite <- (take_drop_z 4 iv) at 3. change (repeat 0 (Z.to_nat (ivLen - 8))) with [0; 0; 0; 0].
  assert (Ht : len (take_z 4 iv) = 4) by (apply len_take_z; unfold ivLen in Hi; lia).
  destruct (take_z 4 iv) as [| a [| b [| c [| d []]]]]; try (unfold len in Ht; cbn in Ht; lia). cbn [app zip_with].
  rewrite !Z.lxor_0_l. do 4 f_equal. apply zip_lxor_comm.
Qed.

(** What is known of an AEAD with a tag of 16 bytes, such as AES-GCM. *)
Definition aead_ok (a : cipherAEAD) : Prop :=
  AEAD_Overhead a = 16
  /\ (forall n p ad, bytes p -> bytes ad -> len (aead_Seal a n p ad) = len p + 16 /\ bytes (aead_Seal a n p ad))
  /\ forall n p ad, aead_Open a n (aead_Seal a n p ad) ad = Ok p.

(** The sealers and openers as the packer and the unpacker use them. *)
Definition initial_sealer (a : aeadAESGCM) : Sealer := mkSealer (gcm_Overhead a) (gcm_Seal a).

Lemma initial_sealer_ok a : aead_ok (encrypter a) -> sealer_ok (initial_sealer a).
Proof.
  intros (Ho & Hs & _). unfold initial_sealer, gcm_Overhead. split; cbn; rewrite Ho; [lia |]. intros payload pn ad. apply Hs.
Qed.

Section Initial.
Context (NewGCM : list Z -> outcome cipherAEAD).
Context (HGCM : forall key, len key = 16 -> exists a, NewGCM key = Ok a /\ aead_ok a).

Lemma key_and_iv secret : exists key iv, computeNullAEADKeyAndIV secret = Ok (key, iv) /\ len key = 16 /\ len iv = ivLen.
Proof.
  unfold computeNullAEADKeyAndIV.
  destruct (HkdfExpandLabel_ok SHA256 secret "key" 16 SHA256_ok ltac:(cbn; lia)) as (key & -> & Hk & _).
  destruct (HkdfExpandLabel_ok SHA256 secret "iv" 12 SHA256_ok ltac:(cbn; lia)) as (iv & -> & Hi & _).
  cbn [mbind outcome_bind]. by exists key, iv.
Qed.

(** The two ends have the same keys, one for each direction. *)
Lemma null_aead_keys connID : exists e1 e2 iv1 iv2,
  NewNullAEAD NewGCM connID PerspectiveClient = Ok (mkAESGCM iv2 iv1 e1 e2)
  /\ NewNullAEAD NewGCM connID PerspectiveServer = Ok (mkAESGCM iv1 iv2 e2 e1) /\ aead_ok e1 /\ aead_ok e2
  /\ len iv1 = ivLen /\ len iv2 = ivLen.
Proof.
  unfold NewNullAEAD, computeSecrets. set (secret := hkdfExtract _ _ _).
  destruct (HkdfExpandLabel_ok SHA256 secret "client in" (hash_Size SHA256) SHA256_ok ltac:(cbn; lia)) as (cs & -> & _).
  destruct (HkdfExpandLabel_ok SHA256 secret "server in" (hash_Size SHA256) SHA256_ok ltac:(cbn; lia)) as (ss & -> & _).
  destruct (key_and_iv cs) as (k1 & i1 & E1 & K1 & I1), (key_and_iv ss) as (k2 & i2 & E2 & K2 & I2).
  destruct (HGCM k1 K1) as (a1 & G1 & O1), (HGCM k2 K2) as (a2 & G2 & O2). exists a1, a2, i1, i2.
  cbn [mbind outcome_bind]. rewrite !bool_decide_true, !bool_decide_false by done. rewrite E1, E2. cbn [mbind outcome_bind].
  unfold NewAEADAESGCM. rewrite I1, I2, G1, G2. done.
Qed.

(** Initial packets can be read by the other end: for every connection ID the
    keys can be derived at both ends, each opens what the other seals, and no two
    packets of one direction are sealed with the same nonce. *)
Theorem initial_keys_agree connID : exists c s,
  NewNullAEAD NewGCM connID PerspectiveClient = Ok c /\ NewNullAEAD NewGCM connID PerspectiveServer = Ok s
  /\ (forall payload pn ad, gcm_Open s (gcm_Seal c payload pn ad) pn ad = Ok payload
                         /\ gcm_Open c (gcm_Seal s payload pn ad) pn ad = Ok payload)
  /\ (forall pn pn', is_u64 pn -> is_u64 pn' -> pn <> pn' ->
        makeNonce (myIV c) pn <> makeNonce (myIV c) pn' /\ makeNonce (myIV s) pn <> makeNonce (myIV s) pn').
Proof.
  destruct (null_aead_keys connID) as (e1 & e2 & i1 & i2 & Ec & Es & (_ & _ & O1) & (_ & _ & O2) & I1 & I2).
  do 2 eexists. split_and!; [exact Ec | exact Es | |].
  - intros payload pn ad. by split; [apply O1 | apply O2].
  - assert (Hinj : forall iv pn pn', len iv = ivLen -> is_u64 pn -> is_u64 pn' -> makeNonce iv pn = makeNonce iv pn' -> pn = pn').
    { intros iv pn pn' Hiv H1 H2 E. apply uint64_bytes_inj; [done.. |]. apply (app_inv_head (repeat 0 (Z.to_nat (ivLen - 8)))).
      apply (zip_lxor_inj _ _ iv); rewrite ?len_app, ?len_uint64_bytes; [done | | exact E]. rewrite Hiv. done. }
    intros pn pn' H1 H2 Hne. split; intros E; apply Hne; [by apply (Hinj i1) | by apply (Hinj i2)].
Qed.

(** C35. A client's Initial packet arrives at the server: what the packer of the
    client packs with the keys derived from a connection ID is routed by the
    server, opened with the keys it derives from the same ID, and gives the frames
    in order. *)
Theorem initial_packet_arrives {Net : NetLib} {P : UDPAddr -> Prop} {NetLaws : NetLibLaws P} {H S : Type}
    (Open' : EncryptionLevel -> list Z -> Z -> list Z -> outcome (list Z)) connID c s
    (p : packetPacker) (pkt : packedPacket) (m : packetHandlerMap (H := H) (S := S)) (session : H) (last : Z) :
  NewNullAEAD NewGCM connID PerspectiveClient = Ok c -> NewNullAEAD NewGCM connID PerspectiveServer = Ok s ->
  packer_ok p -> packed (P := P) p EncryptionInitial (initial_sealer c) pkt ->
  connIDLen m = len (p_destConnID p) -> handlers m !! p_destConnID p = Some (Some session) ->
  (add_padding p (pk_header pkt) = true -> len (pk_raw pkt) <= MinInitialPacketSize) ->
  0 <= last < 2 ^ 62 -> Header_PacketNumber (pk_header pkt) < 2 ^ 62 ->
  Z.abs (Header_PacketNumber (pk_header pkt) - (last + 1)) < 2 ^ (pn_bits (Header_PacketNumberLen (pk_header pkt)) - 1) ->
  exists hdr data fs',
    handlePacket m (pk_raw pkt) = Ok (ToSession session hdr data)
    /\ Unpack (fun level => if bool_decide (level = EncryptionInitial) then gcm_Open s else Open' level)
         (Header_Raw hdr) (infer_number last hdr) data = Ok (mkUnpackedPacket EncryptionInitial fs')
    /\ Forall2 seen (pk_frames pkt) fs'.
Proof.
  intros Ec Es Hp Hpk Hlen Hsess Hpad Hlast Hpn Hwin.
  destruct (null_aead_keys connID) as (e1 & e2 & i1 & i2 & Ec' & Es' & O1 & O2 & _). rewrite Ec in Ec'. rewrite Es in Es'.
  injection Ec' as ->. injection Es' as ->.
  set (Open := fun level => if bool_decide (level = EncryptionInitial) then gcm_Open _ else Open' level).
  destruct (packed_arrives Open p EncryptionInitial _ pkt m session last Hp 
    (initial_sealer_ok (mkAESGCM i2 i1 e1 e2) O1) Hpk) as (hdr & data & fs' & H1 & H2 & H3 & H4 & _);
    try done.
  { intros payload pn ad. destruct O1 as (_ & _ & O1). apply O1. }
  by exists hdr, data, fs'.
Qed.
End Initial.

(** HKDF-Expand is the one of RFC 5869: it gives the first bytes of T(1) T(2) ...,
    for at most 255 blocks. *)
Theorem hkdfExpand_rfc5869 hash prk info l : hash_ok hash -> 0 <= l ->
  hkdfExpand hash prk info l
  = if 255 * hash_Size hash <? l then Panic "hkdf: requested too much output"
    else Ok (take_z l (concat (hkdf_T hash prk info <$> seq 1 255))).
Proof.
  intros Hh Hl. destruct (Z.ltb_spec (255 * hash_Size hash) l) as [Hlt | Hge].
  - unfold hkdfExpand. by rewrite (proj2 (Z.ltb_lt _ _)) by lia.
  - destruct (hkdfExpand_spec hash prk info Hh l ltac:(lia)) as (okm & -> & -> & _). done.
Qed.

Lemma hkdfExpand_rfc5869_witness :
  hkdfExpand SHA256 [1] [2] 40 = Ok (take_z 40 (concat (hkdf_T SHA256 [1] [2] <$> seq 1 255))).
Proof. apply (hkdfExpand_rfc5869 SHA256 [1] [2] 40 SHA256_ok). lia. Defined.

(** The packets of both kinds of keys get the same nonce: a sealer of aead.go on
    the AEAD of a TLS cipher suite seals, whatever was sealed before, with the IV
    xor the packet number, as the sealer of Initial packets does; and the opener
    opens it. *)
Theorem sealer_nonce aead iv pn0 pn src ad src0 ad0 s0 : len iv = ivLen ->
  (s0 = newSealer (xorNonceAEAD aead iv) iv
   \/ exists c, sealer_Seal (newSealer (xorNonceAEAD aead iv) iv) src0 pn0 ad0 = Ok (c, s0)) ->
  (exists s, sealer_Seal s0 src pn ad = Ok (aead_Seal aead (makeNonce iv pn) src ad, s))
  /\ forall c, exists o, opener_Open (newOpener (xorNonceAEAD aead iv) iv) c pn ad = Ok (aead_Open aead (makeNonce iv pn) c ad, o).
Proof.
  intros Hiv Hs0. assert (Hb : len (sealer_nonceBuf s0) = 8 /\ sealer_aead s0 = xorNonceAEAD aead iv).
  { destruct Hs0 as [-> | (c & E)]; [done |]. unfold sealer_Seal in E. apply outcome_bind_Ok in E as (b & Eb & [= _ <-]).
    rewrite put_number_8 in Eb by done. injection Eb as <-. split; [apply len_uint64_bytes | done]. }
  destruct Hb as [Hb Ha]. unfold sealer_Seal, opener_Open. rewrite !put_number_8 by done. cbn [mbind outcome_bind]. rewrite Ha.
  cbn [newOpener opener_aead xorNonceAEAD aead_Seal aead_Open]. rewrite nonceMask_makeNonce by done. split; [| intros c]; by eexists.
Qed.

Lemma sealer_nonce_witness : let a := mkAEAD 12 16 (fun n p ad => n ++ p ++ ad) (fun n c ad => Ok c) in
  exists s, sealer_Seal (newSealer (xorNonceAEAD a (repeat 3 12)) (repeat 3 12)) [9] 5 []
            = Ok (aead_Seal a (makeNonce (repeat 3 12) 5) [9] [], s).
Proof.
  intros a. destruct (sealer_nonce a (repeat 3 12) 0 5 [9] [] [] [] _ eq_refl (or_introl eq_refl)) as [H _]. exact H.
Defined.

(** The test vector of the QUIC working group, as in the tests of the repository. *)
Example null_aead_test_vector :
  match computeSecrets [0x83; 0x94; 0xc8; 0xf0; 0x3e; 0x51; 0x57; 0x08] with
  | Ok (clientSecret, serverSecret) =>
      be_value clientSecret = 0x9f536457f32a1e0ae864bcb3caf1235110630e1d1fb33835bd054170f99bf7dc
      /\ be_value serverSecret = 0xb087dcd7478dda8a858fbf3d605c888586c0a3a9875423ad4f114f0ba38e5a2e
  | _ => False
  end.
Proof. vm_compute. done. Qed.

(** A cipher that adds zeros, and a client's PING. *)
Definition zeros_cipher : cipherAEAD :=
  mkAEAD 12 16 (fun n p ad => p ++ replicate 16 0) (fun n c ad => Ok (take (length c - 16) c)).
Definition sample_GCM (key : list Z) : outcome cipherAEAD :=
  Ok zeros_cipher.

Lemma sample_GCM_ok key : len key = 16 -> exists a, sample_GCM key = Ok a /\ aead_ok a.
Proof.
  intros _. eexists. split; [done |]. split_and!; [done | |].
  - intros n p ad Hp _. cbn [zeros_cipher aead_Seal]. rewrite len_app. split; [done |]. apply bytes_app. split; [done |].
    apply Forall_replicate. unfold is_byte. lia.
  - intros n p ad. cbn [zeros_cipher aead_Seal aead_Open]. rewrite length_app, length_replicate. replace (length p + 16 - 16)%nat with (length p) by lia.
    by rewrite take_app_length.
Qed.

Lemma initial_keys_agree_witness : exists c s,
  NewNullAEAD sample_GCM [1; 2; 3; 4] PerspectiveClient = Ok c /\ NewNullAEAD sample_GCM [1; 2; 3; 4] PerspectiveServer = Ok s
  /\ gcm_Open s (gcm_Seal c [7; 8] 3 [9]) 3 [9] = Ok [7; 8].
Proof.
  destruct (initial_keys_agree sample_GCM sample_GCM_ok [1; 2; 3; 4]) as (c & s & Hc & Hs & Ho & _).
  exists c, s. split; [exact Hc |]. split; [exact Hs |]. apply Ho.
Defined.

Definition client_packer : packetPacker :=
  set_p_hasSentPacket (newPacketPacker [1; 2; 3; 4] [5; 6; 7; 8] newCryptoStream newCryptoStream [] PerspectiveClient VersionTLS) true.

Lemma client_packer_ok : packer_ok client_packer.
Proof.
  constructor; try (by vm_compute); (split; [solve_bytes | right; vm_compute; split; discriminate]).
Qed.

Definition initial_ping (c : aeadAESGCM) : packedPacket :=
  let hb := [255; 0; 0; 0; 101; 17; 1; 2; 3; 4; 5; 6; 7; 8; 0; 17; 128; 7] in
  mkPackedPacket (packer_header client_packer 7 2 true PacketTypeInitial 17 []) (hb ++ Seal (initial_sealer c) [1] 7 hb)
    [Ping] EncryptionInitial.

#[local] Existing Instance loopback_net.

Lemma initial_ping_packed c : encrypter c = zeros_cipher ->
  packed (P := fun a => a = loopback) client_packer EncryptionInitial (initial_sealer c) (initial_ping c).
Proof.
  intros Hc. apply (packed_intro (P := fun a => a = loopback) client_packer EncryptionInitial (initial_sealer c) 7 2 17 [Ping]
    [255; 0; 0; 0; 101; 17; 1; 2; 3; 4; 5; 6; 7; 8; 0; 17; 128; 7] [1] 0).
  all: unfold initial_sealer, gcm_Overhead, gcm_Seal; cbn [Seal Overhead]; unfold gcm_Seal; rewrite ?Hc.
  - split; [by unfold is_u64 | by right; left].
  - split_and!; [by left | by unfold is_varint | solve_bytes | by vm_compute | by left].
  - done.
  - constructor; [| done]. by split.
  - by constructor.
  - done.
  - by vm_compute.
  - solve_bytes.
  - by vm_compute.
  - solve_bytes.
  - intros _. by left.
  - done.
  - by vm_compute.
Qed.

Definition server_handlers : packetHandlerMap (H := nat) (S := nat) :=
  ph_Add (newPacketHandlerMap 4) [1; 2; 3; 4] 5%nat.

Lemma sample_encrypter connID pers a : NewNullAEAD sample_GCM connID pers = Ok a -> encrypter a = zeros_cipher.
Proof.
  unfold NewNullAEAD. intros E. apply outcome_bind_Ok in E as ([cs ss] & _ & E).
  destruct (bool_decide _); apply outcome_bind_Ok in E as ([k1 i1] & _ & E); apply outcome_bind_Ok in E as ([k2 i2] & _ & E);
    unfold NewAEADAESGCM in E; (destruct (_ || _); [discriminate |]); by injection E as <-.
Qed.

Lemma initial_packet_arrives_witness : exists c s hdr data fs',
  NewNullAEAD sample_GCM [1; 2; 3; 4] PerspectiveServer = Ok s
  /\ handlePacket server_handlers (pk_raw (initial_ping c)) = Ok (ToSession 5%nat hdr data)
  /\ Unpack (fun level => if bool_decide (level = EncryptionInitial) then gcm_Open s else plain_open level)
       (Header_Raw hdr) (infer_number 6 hdr) data = Ok (mkUnpackedPacket EncryptionInitial fs').
Proof.
  destruct (null_aead_keys sample_GCM sample_GCM_ok [1; 2; 3; 4]) as (e1 & e2 & i1 & i2 & Ec & Es & _).
  pose proof (sample_encrypter _ _ _ Ec) as He. set (c := mkAESGCM i2 i1 e1 e2) in *.
  destruct (initial_packet_arrives sample_GCM sample_GCM_ok (P := fun a => a = loopback) plain_open [1; 2; 3; 4] c _
    client_packer (initial_ping c) server_handlers 5%nat 6 Ec Es client_packer_ok (initial_ping_packed c He))
    as (hdr & data & fs' & H1 & H2 & _).
  1-6: clear; done.
  exists c. eexists _, hdr, data, fs'. split; [exact Es |]. split; [exact H1 | exact H2].
Defined.
