(* ===== verification/CryptoSetup.v ===== *)
(** * The crypto setup (internal/handshake/crypto_setup.go)

    Three goroutines meet here: the session, which calls [HandleMessage] for the
    messages of the crypto streams and at the end [Close]; [Handshake] of the TLS
    library, which calls back for messages, keys and transport parameters; and
    [RunHandshake], which waits for one of four events.  They talk through
    channels.  A step of the model is one communication, so that all interleavings
    are runs.  The TLS library is a parameter: a program that makes calls and
    returns. *)

From S2P Require Import Prelude Qerr Varint Protocol AckFrame Frames FrameCodec FrameParser FrameSorter Float FlowControl.
From S2P Require Import SentHistory Header SendStream ReceiveStream CryptoStream Framer Packer Receiving TransportParams Crypto.

(** ** State *)

Definition typeServerHello : Z := 2.
Definition typeCertificate : Z := 11.
Definition typeCertificateRequest : Z := 13.
Definition typeCertificateVerify : Z := 15.
Definition typeFinished : Z := 20.

(** [qtls.CipherSuite]. *)
Record CipherSuite : Type := mkCipherSuite {
  suite_Hash : Hash;
  KeyLen : Z;
  IVLen : Z;
  suite_AEAD : list Z -> list Z -> cipherAEAD }.

(** A channel is the list of what it buffers, and whether it is closed; the
    channels for keys have no buffer, and those that are only ever closed are a
    boolean.  The two streams are what was written to them, the callback for
    parameters the list of its arguments. *)
Record cryptoSetup : Type := mkCryptoSetup {
  h_perspective : Perspective;
  messageChan : list (list Z);
  messageChan_closed : bool;
  readEncLevel : EncryptionLevel;
  writeEncLevel : EncryptionLevel;
  handshakeErrChan_closed : bool;
  messageErrChan : list go_error;
  handshakeDone : bool;
  closeChan_closed : bool;
  clientHelloWritten : bool;
  to_initialStream : list Z;
  to_handshakeStream : list Z;
  initialAEAD : aeadAESGCM;
  handshakeOpener : option opener;
  handshakeSealer : option sealer;
  h_opener : option opener;
  h_sealer : option sealer;
  handledParams : list TransportParameters }.

Definition set_messageChan (h : cryptoSetup) (x : list (list Z)) : cryptoSetup :=
  mkCryptoSetup (h_perspective h) x (messageChan_closed h) (readEncLevel h) (writeEncLevel h)
    (handshakeErrChan_closed h) (messageErrChan h) (handshakeDone h) (closeChan_closed h)
    (clientHelloWritten h) (to_initialStream h) (to_handshakeStream h) (initialAEAD h)
    (handshakeOpener h) (handshakeSealer h) (h_opener h) (h_sealer h) (handledParams h).
Definition set_messageChan_closed (h : cryptoSetup) (x : bool) : cryptoSetup :=
  mkCryptoSetup (h_perspective h) (messageChan h) x (readEncLevel h) (writeEncLevel h)
    (handshakeErrChan_closed h) (messageErrChan h) (handshakeDone h) (closeChan_closed h)
    (clientHelloWritten h) (to_initialStream h) (to_handshakeStream h) (initialAEAD h)
    (handshakeOpener h) (handshakeSealer h) (h_opener h) (h_sealer h) (handledParams h).
Definition set_readEncLevel (h : cryptoSetup) (x : EncryptionLevel) : cryptoSetup :=
  mkCryptoSetup (h_perspective h) (messageChan h) (messageChan_closed h) x (writeEncLevel h)
    (handshakeErrChan_closed h) (messageErrChan h) (handshakeDone h) (closeChan_closed h)
    (clientHelloWritten h) (to_initialStream h) (to_handshakeStream h) (initialAEAD h)
    (handshakeOpener h) (handshakeSealer h) (h_opener h) (h_sealer h) (handledParams h).
Definition set_writeEncLevel (h : cryptoSetup) (x : EncryptionLevel) : cryptoSetup :=
  mkCryptoSetup (h_perspective h) (messageChan h) (messageChan_closed h) (readEncLevel h) x
    (handshakeErrChan_closed h) (messageErrChan h) (handshakeDone h) (closeChan_closed h)
    (clientHelloWritten h) (to_initialStream h) (to_handshakeStream h) (initialAEAD h)
    (handshakeOpener h) (handshakeSealer h) (h_opener h) (h_sealer h) (handledParams h).
Definition set_handshakeErrChan_closed (h : cryptoSetup) (x : bool) : cryptoSetup :=
  mkCryptoSetup (h_perspective h) (messageChan h) (messageChan_closed h) (readEncLevel h)
    (writeEncLevel h) x (messageErrChan h) (handshakeDone h) (closeChan_closed h)
    (clientHelloWritten h) (to_initialStream h) (to_handshakeStream h) (initialAEAD h)
    (handshakeOpener h) (handshakeSealer h) (h_opener h) (h_sealer h) (handledParams h).
Definition set_messageErrChan (h : cryptoSetup) (x : list go_error) : cryptoSetup :=
  mkCryptoSetup (h_perspective h) (messageChan h) (messageChan_closed h) (readEncLevel h)
    (writeEncLevel h) (handshakeErrChan_closed h) x (handshakeDone h) (closeChan_closed h)
    (clientHelloWritten h) (to_initialStream h) (to_handshakeStream h) (initialAEAD h)
    (handshakeOpener h) (handshakeSealer h) (h_opener h) (h_sealer h) (handledParams h).
Definition set_handshakeDone (h : cryptoSetup) (x : bool) : cryptoSetup :=
  mkCryptoSetup (h_perspective h) (messageChan h) (messageChan_closed h) (readEncLevel h)
    (writeEncLevel h) (handshakeErrChan_closed h) (messageErrChan h) x (closeChan_closed h)
    (clientHelloWritten h) (to_initialStream h) (to_handshakeStream h) (initialAEAD h)
    (handshakeOpener h) (handshakeSealer h) (h_opener h) (h_sealer h) (handledParams h).
Definition set_closeChan_closed (h : cryptoSetup) (x : bool) : cryptoSetup :=
  mkCryptoSetup (h_perspective h) (messageChan h) (messageChan_closed h) (readEncLevel h)
    (writeEncLevel h) (handshakeErrChan_closed h) (messageErrChan h) (handshakeDone h) x
    (clientHelloWritten h) (to_initialStream h) (to_handshakeStream h) (initialAEAD h)
    (handshakeOpener h) (handshakeSealer h) (h_opener h) (h_sealer h) (handledParams h).
Definition set_clientHelloWritten (h : cryptoSetup) (x : bool) : cryptoSetup :=
  mkCryptoSetup (h_perspective h) (messageChan h) (messageChan_closed h) (readEncLevel h)
    (writeEncLevel h) (handshakeErrChan_closed h) (messageErrChan h) (handshakeDone h)
    (closeChan_closed h) x (to_initialStream h) (to_handshakeStream h) (initialAEAD h)
    (handshakeOpener h) (handshakeSealer h) (h_opener h) (h_sealer h) (handledParams h).
Definition set_to_initialStream (h : cryptoSetup) (x : list Z) : cryptoSetup :=
  mkCryptoSetup (h_perspective h) (messageChan h) (messageChan_closed h) (readEncLevel h)
    (writeEncLevel h) (handshakeErrChan_closed h) (messageErrChan h) (handshakeDone h)
    (closeChan_closed h) (clientHelloWritten h) x (to_handshakeStream h) (initialAEAD h)
    (handshakeOpener h) (handshakeSealer h) (h_opener h) (h_sealer h) (handledParams h).
Definition set_to_handshakeStream (h : cryptoSetup) (x : list Z) : cryptoSetup :=
  mkCryptoSetup (h_perspective h) (messageChan h) (messageChan_closed h) (readEncLevel h)
    (writeEncLevel h) (handshakeErrChan_closed h) (messageErrChan h) (handshakeDone h)
    (closeChan_closed h) (clientHelloWritten h) (to_initialStream h) x (initialAEAD h)
    (handshakeOpener h) (handshakeSealer h) (h_opener h) (h_sealer h) (handledParams h).
Definition set_handshakeOpener (h : cryptoSetup) (x : option opener) : cryptoSetup :=
  mkCryptoSetup (h_perspective h) (messageChan h) (messageChan_closed h) (readEncLevel h)
    (writeEncLevel h) (handshakeErrChan_closed h) (messageErrChan h) (handshakeDone h)
    (closeChan_closed h) (clientHelloWritten h) (to_initialStream h) (to_handshakeStream h)
    (initialAEAD h) x (handshakeSealer h) (h_opener h) (h_sealer h) (handledParams h).
Definition set_handshakeSealer (h : cryptoSetup) (x : option sealer) : cryptoSetup :=
  mkCryptoSetup (h_perspective h) (messageChan h) (messageChan_closed h) (readEncLevel h)
    (writeEncLevel h) (handshakeErrChan_closed h) (messageErrChan h) (handshakeDone h)
    (closeChan_closed h) (clientHelloWritten h) (to_initialStream h) (to_handshakeStream h)
    (initialAEAD h) (handshakeOpener h) x (h_opener h) (h_sealer h) (handledParams h).
Definition set_h_opener (h : cryptoSetup) (x : option opener) : cryptoSetup :=
  mkCryptoSetup (h_perspective h) (messageChan h) (messageChan_closed h) (readEncLevel h)
    (writeEncLevel h) (handshakeErrChan_closed h) (messageErrChan h) (handshakeDone h)
    (closeChan_closed h) (clientHelloWritten h) (to_initialStream h) (to_handshakeStream h)
    (initialAEAD h) (handshakeOpener h) (handshakeSealer h) x (h_sealer h) (handledParams h).
Definition set_h_sealer (h : cryptoSetup) (x : option sealer) : cryptoSetup :=
  mkCryptoSetup (h_perspective h) (messageChan h) (messageChan_closed h) (readEncLevel h)
    (writeEncLevel h) (handshakeErrChan_closed h) (messageErrChan h) (handshakeDone h)
    (closeChan_closed h) (clientHelloWritten h) (to_initialStream h) (to_handshakeStream h)
    (initialAEAD h) (handshakeOpener h) (handshakeSealer h) (h_opener h) x (handledParams h).
Definition set_handledParams (h : cryptoSetup) (x : list TransportParameters) : cryptoSetup :=
  mkCryptoSetup (h_perspective h) (messageChan h) (messageChan_closed h) (readEncLevel h)
    (writeEncLevel h) (handshakeErrChan_closed h) (messageErrChan h) (handshakeDone h)
    (closeChan_closed h) (clientHelloWritten h) (to_initialStream h) (to_handshakeStream h)
    (initialAEAD h) (handshakeOpener h) (handshakeSealer h) (h_opener h) (h_sealer h) x.

(** ** The goroutines *)

(** What the TLS library does: a tree of its calls, by the answers it gets.
    [TRead] gets no message if there was an error. *)
Inductive tls_prog : Type :=
  | TRead (k : option (list Z) -> tls_prog)
  | TWrite (p : list Z) (k : option go_error -> tls_prog)
  | TParams (params : TransportParameters) (k : tls_prog)
  | TSetRead (suite : CipherSuite) (trafficSecret : list Z) (k : tls_prog)
  | TSetWrite (suite : CipherSuite) (trafficSecret : list Z) (k : tls_prog)
  | TReturn (err : option go_error).

(** What a call of [HandleMessage] still waits for. *)
Inductive waiting : Type := ForParams | ForWriteKey | ForReadKey.

(** Where the session is: outside, about to send on a channel, in one of the
    selects of [handleMessageForServer] and [handleMessageForClient] with the
    result to return, in [Close], or after it. *)
Inductive session_pc : Type :=
  | Idle
  | SendErr (err : go_error)
  | SendMessage (data : list Z)
  | Waiting (w : list waiting) (result : bool)
  | InClose
  | Closed.

(** Where the TLS goroutine is: running, sending on a channel without buffer,
    or before and after its deferred call. *)
Inductive tls_pc : Type :=
  | TlsRun (p : tls_prog)
  | TlsPutParams (params : TransportParameters) (k : tls_prog)
  | TlsPutReadKey (k : tls_prog)
  | TlsPutWriteKey (k : tls_prog)
  | TlsExiting
  | TlsExited.

(** Where [RunHandshake] is: in its select, waiting for the TLS goroutine after
    [Close], or at the end. *)
Inductive run_pc : Type :=
  | RunSelect
  | RunAborting
  | RunReturned (err : option go_error).

(** The whole: the channels that are local to [RunHandshake], the messages that
    the session is going to handle, the results so far, the messages put into the
    channel and those taken from it, and a panic that ended the program. *)
Record system : Type := mkSystem {
  sy_h : cryptoSetup;
  sy_session : session_pc;
  sy_tls : tls_pc;
  sy_run : run_pc;
  sy_handshakeErrChan : list go_error;
  sy_handshakeComplete : bool;
  sy_todo : list (list Z * EncryptionLevel);
  sy_results : list bool;
  sy_accepted : list (list Z);
  sy_read : list (list Z);
  sy_panic : option string }.

Definition set_sy_h (s : system) (x : cryptoSetup) : system :=
  mkSystem x (sy_session s) (sy_tls s) (sy_run s) (sy_handshakeErrChan s) (sy_handshakeComplete s)
    (sy_todo s) (sy_results s) (sy_accepted s) (sy_read s) (sy_panic s).
Definition set_sy_session (s : system) (x : session_pc) : system :=
  mkSystem (sy_h s) x (sy_tls s) (sy_run s) (sy_handshakeErrChan s) (sy_handshakeComplete s)
    (sy_todo s) (sy_results s) (sy_accepted s) (sy_read s) (sy_panic s).
Definition set_sy_tls (s : system) (x : tls_pc) : system :=
  mkSystem (sy_h s) (sy_session s) x (sy_run s) (sy_handshakeErrChan s) (sy_handshakeComplete s)
    (sy_todo s) (sy_results s) (sy_accepted s) (sy_read s) (sy_panic s).
Definition set_sy_run (s : system) (x : run_pc) : system :=
  mkSystem (sy_h s) (sy_session s) (sy_tls s) x (sy_handshakeErrChan s) (sy_handshakeComplete s)
    (sy_todo s) (sy_results s) (sy_accepted s) (sy_read s) (sy_panic s).
Definition set_sy_handshakeErrChan (s : system) (x : list go_error) : system :=
  mkSystem (sy_h s) (sy_session s) (sy_tls s) (sy_run s) x (sy_handshakeComplete s) (sy_todo s)
    (sy_results s) (sy_accepted s) (sy_read s) (sy_panic s).
Definition set_sy_handshakeComplete (s : system) (x : bool) : system :=
  mkSystem (sy_h s) (sy_session s) (sy_tls s) (sy_run s) (sy_handshakeErrChan s) x (sy_todo s)
    (sy_results s) (sy_accepted s) (sy_read s) (sy_panic s).
Definition set_sy_todo (s : system) (x : list (list Z * EncryptionLevel)) : system :=
  mkSystem (sy_h s) (sy_session s) (sy_tls s) (sy_run s) (sy_handshakeErrChan s)
    (sy_handshakeComplete s) x (sy_results s) (sy_accepted s) (sy_read s) (sy_panic s).
Definition set_sy_results (s : system) (x : list bool) : system :=
  mkSystem (sy_h s) (sy_session s) (sy_tls s) (sy_run s) (sy_handshakeErrChan s)
    (sy_handshakeComplete s) (sy_todo s) x (sy_accepted s) (sy_read s) (sy_panic s).
Definition set_sy_accepted (s : system) (x : list (list Z)) : system :=
  mkSystem (sy_h s) (sy_session s) (sy_tls s) (sy_run s) (sy_handshakeErrChan s)
    (sy_handshakeComplete s) (sy_todo s) (sy_results s) x (sy_read s) (sy_panic s).
Definition set_sy_read (s : system) (x : list (list Z)) : system :=
  mkSystem (sy_h s) (sy_session s) (sy_tls s) (sy_run s) (sy_handshakeErrChan s)
    (sy_handshakeComplete s) (sy_todo s) (sy_results s) (sy_accepted s) x (sy_panic s).
Definition set_sy_panic (s : system) (x : option string) : system :=
  mkSystem (sy_h s) (sy_session s) (sy_tls s) (sy_run s) (sy_handshakeErrChan s)
    (sy_handshakeComplete s) (sy_todo s) (sy_results s) (sy_accepted s) (sy_read s) x.

Definition newCryptoSetup (initialAEAD : aeadAESGCM) (perspective : Perspective) : cryptoSetup :=
  mkCryptoSetup perspective [] false EncryptionInitial EncryptionInitial false [] false false false [] [] initialAEAD
    None None None None [].

(** ** Messages *)

Definition checkEncryptionLevel (msgType : Z) (encLevel : EncryptionLevel) : option go_error :=
  let expected :=
    if (msgType =? typeClientHello) || (msgType =? typeServerHello) then Some EncryptionInitial
    else if (msgType =? typeEncryptedExtensions) || (msgType =? typeCertificate) || (msgType =? typeCertificateRequest)
            || (msgType =? typeCertificateVerify) || (msgType =? typeFinished) then Some EncryptionHandshake
    else None in
  match expected with
  | None => Some (Errorf "unexpected handshake message: %d" [msgType])
  | Some expected =>
      if bool_decide (encLevel = expected) then None
      else Some (Errorf "expected handshake message %s to have encryption level %s, has %s" [msgType])
  end.

(** The selects that follow, and the result; nothing if it panics. *)
Definition handleMessageForServer (msgType : Z) : option (list waiting * bool) :=
  if msgType =? typeClientHello then Some ([ForParams; ForWriteKey; ForWriteKey; ForReadKey], true)
  else if (msgType =? typeCertificate) || (msgType =? typeCertificateVerify) then Some ([], false)
  else if msgType =? typeFinished then Some ([ForReadKey], true)
  else None.

Definition handleMessageForClient (msgType : Z) : option (list waiting * bool) :=
  if msgType =? typeServerHello then Some ([ForReadKey], true)
  else if msgType =? typeEncryptedExtensions then Some ([ForParams], false)
  else if (msgType =? typeCertificateRequest) || (msgType =? typeCertificate) || (msgType =? typeCertificateVerify) then
    Some ([], false)
  else if msgType =? typeFinished then Some ([ForWriteKey; ForWriteKey; ForReadKey], true)
  else None.

Definition handleMessageFor (p : Perspective) (msgType : Z) : option (list waiting * bool) :=
  match p with
  | PerspectiveClient => handleMessageForClient msgType
  | PerspectiveServer => handleMessageForServer msgType
  end.

(** ** Calls of the TLS library *)

Definition derive_keys (suite : CipherSuite) (trafficSecret : list Z) : outcome (cipherAEAD * list Z) :=
  key ← HkdfExpandLabel (suite_Hash suite) trafficSecret "key" (KeyLen suite);
  iv ← HkdfExpandLabel (suite_Hash suite) trafficSecret "iv" (IVLen suite);
  Ok (suite_AEAD suite key iv, iv).

(** Up to the send on the channel. *)
Definition SetReadKey (h : cryptoSetup) (suite : CipherSuite) (trafficSecret : list Z) : outcome cryptoSetup :=
  '(aead, iv) ← derive_keys suite trafficSecret;
  let o := newOpener aead iv in
  match readEncLevel h with
  | EncryptionInitial => Ok (set_handshakeOpener (set_readEncLevel h EncryptionHandshake) (Some o))
  | EncryptionHandshake => Ok (set_h_opener (set_readEncLevel h Encryption1RTT) (Some o))
  | _ => Panic "unexpected read encryption level"
  end.

Definition SetWriteKey (h : cryptoSetup) (suite : CipherSuite) (trafficSecret : list Z) : outcome cryptoSetup :=
  '(aead, iv) ← derive_keys suite trafficSecret;
  let s := newSealer aead iv in
  match writeEncLevel h with
  | EncryptionInitial => Ok (set_handshakeSealer (set_writeEncLevel h EncryptionHandshake) (Some s))
  | EncryptionHandshake => Ok (set_h_sealer (set_writeEncLevel h Encryption1RTT) (Some s))
  | _ => Panic "unexpected write encryption level"
  end.

(** A crypto stream takes all it is given. *)
Definition WriteRecord (h : cryptoSetup) (p : list Z) : option go_error * cryptoSetup :=
  match writeEncLevel h with
  | EncryptionInitial =>
      let h := set_to_initialStream h (to_initialStream h ++ p) in
      (None, if negb (clientHelloWritten h) && bool_decide (h_perspective h = PerspectiveClient)
             then set_clientHelloWritten h true else h)
  | EncryptionHandshake => (None, set_to_handshakeStream h (to_handshakeStream h ++ p))
  | _ => (Some (Errorf "unexpected write encryption level: %s" []), h)
  end.

(** ** Sealers and openers *)

Definition GetSealer (h : cryptoSetup) : EncryptionLevel * (sealer + aeadAESGCM) :=
  match h_sealer h, handshakeSealer h with
  | Some s, _ => (Encryption1RTT, inl s)
  | None, Some s => (EncryptionHandshake, inl s)
  | None, None => (EncryptionInitial, inr (initialAEAD h))
  end.

Definition errNoSealer : go_error := Errorf "CryptoSetup: no sealer with encryption level %s" [].

Definition GetSealerWithEncryptionLevel (h : cryptoSetup) (level : EncryptionLevel) : outcome (sealer + aeadAESGCM) :=
  match level with
  | EncryptionInitial => Ok (inr (initialAEAD h))
  | EncryptionHandshake => match handshakeSealer h with Some s => Ok (inl s) | None => Err errNoSealer end
  | Encryption1RTT => match h_sealer h with Some s => Ok (inl s) | None => Err errNoSealer end
  | _ => Err errNoSealer
  end.

Definition OpenInitial (h : cryptoSetup) : list Z -> Z -> list Z -> outcome (list Z) := gcm_Open (initialAEAD h).

(** The nonce buffer of the opener is written before it is used. *)
Definition open_with (o : option opener) (err : string) (src : list Z) (pn : Z) (ad : list Z) : outcome (list Z) :=
  match o with
  | None => Err (Errorf err [])
  | Some o => '(res, _) ← opener_Open o src pn ad; res
  end.

Definition OpenHandshake (h : cryptoSetup) : list Z -> Z -> list Z -> outcome (list Z) :=
  open_with (handshakeOpener h) "no handshake opener".
Definition Open1RTT (h : cryptoSetup) : list Z -> Z -> list Z -> outcome (list Z) :=
  open_with (h_opener h) "no 1-RTT opener".

(** ** Steps *)

Definition panics (s : system) (msg : string) : system := set_sy_panic s (Some msg).

(** [HandleMessage] up to its first channel operation. *)
Definition start_message (s : system) (data : list Z) (encLevel : EncryptionLevel) : system :=
  match data with
  | [] => panics s "index out of range"
  | msgType :: _ =>
      match checkEncryptionLevel msgType encLevel with
      | Some err => set_sy_session s (SendErr err)
      | None => set_sy_session s (SendMessage data)
      end
  end.

Definition returns (s : system) (result : bool) : system :=
  set_sy_results (set_sy_session s Idle) (sy_results s ++ [result]).

(** The channel for messages has room for 100 of them, the one for errors for one. *)
Definition send_message (s : system) (data : list Z) : option system :=
  let h := sy_h s in
  if messageChan_closed h then Some (panics s "send on closed channel")
  else if 100 <=? len (messageChan h) then None
  else
    let s := set_sy_accepted (set_sy_h s (set_messageChan h (messageChan h ++ [data]))) (sy_accepted s ++ [data]) in
    match handleMessageFor (h_perspective h) (default 0 (head data)) with
    | Some (w, result) => Some (set_sy_session s (Waiting w result))
    | None => Some (panics s "unexpected handshake message")
    end.

Definition session_step (s : system) : option system :=
  match sy_session s with
  | SendErr err =>
      let h := sy_h s in
      if 1 <=? len (messageErrChan h) then None
      else Some (returns (set_sy_h s (set_messageErrChan h (messageErrChan h ++ [err]))) false)
  | SendMessage data => send_message s data
  | Waiting [] result => Some (returns s result)
  | InClose => if handshakeDone (sy_h s) then Some (set_sy_session s Closed) else None
  | _ => None
  end.

(** The session and the TLS goroutine meet at a channel without buffer. *)
Definition meet_step (s : system) : option system :=
  match sy_session s, sy_tls s with
  | Waiting (ForParams :: w) result, TlsPutParams params k =>
      let h := sy_h s in
      Some (set_sy_tls (set_sy_session (set_sy_h s (set_handledParams h (handledParams h ++ [params]))) (Waiting w result)) (TlsRun k))
  | Waiting (ForWriteKey :: w) result, TlsPutWriteKey k | Waiting (ForReadKey :: w) result, TlsPutReadKey k =>
      Some (set_sy_tls (set_sy_session s (Waiting w result)) (TlsRun k))
  | _, _ => None
  end.

Definition tls_call (s : system) (p : tls_prog) : option system :=
  let h := sy_h s in
  match p with
  | TRead k =>
      match messageChan h with
      | msg :: rest =>
          Some (set_sy_read (set_sy_tls (set_sy_h s (set_messageChan h rest)) (TlsRun (k (Some msg)))) (sy_read s ++ [msg]))
      | [] => if messageChan_closed h then Some (set_sy_tls s (TlsRun (k None))) else None
      end
  | TWrite d k => let '(err, h) := WriteRecord h d in Some (set_sy_tls (set_sy_h s h) (TlsRun (k err)))
  | TParams params k => Some (set_sy_tls s (TlsPutParams params k))
  | TSetRead suite secret k =>
      match SetReadKey h suite secret with
      | Ok h => Some (set_sy_tls (set_sy_h s h) (TlsPutReadKey k))
      | Err _ => None
      | Panic msg => Some (panics s msg)
      end
  | TSetWrite suite secret k =>
      match SetWriteKey h suite secret with
      | Ok h => Some (set_sy_tls (set_sy_h s h) (TlsPutWriteKey k))
      | Err _ => None
      | Panic msg => Some (panics s msg)
      end
  | TReturn (Some err) => Some (set_sy_tls (set_sy_handshakeErrChan s (sy_handshakeErrChan s ++ [err])) TlsExiting)
  | TReturn None => Some (set_sy_tls (set_sy_handshakeComplete s true) TlsExiting)
  end.

Definition tls_step (s : system) : option system :=
  match sy_tls s with
  | TlsRun p => tls_call s p
  | TlsExiting => Some (set_sy_tls (set_sy_h s (set_handshakeDone (sy_h s) true)) TlsExited)
  | _ => None
  end.

(** The four cases of the select in [RunHandshake], and what follows the first. *)
Inductive run_case : Type := CaseClosed | CaseComplete | CaseHandshakeErr | CaseMessageErr | Aborted.

Definition select_step (c : run_case) (s : system) : option system :=
  let h := sy_h s in
  match sy_run s, c with
  | RunSelect, CaseClosed =>
      if closeChan_closed h then Some (set_sy_run (set_sy_h s (set_messageChan_closed h true)) RunAborting) else None
  | RunSelect, CaseComplete => if sy_handshakeComplete s then Some (set_sy_run s (RunReturned None)) else None
  | RunSelect, CaseHandshakeErr =>
      match sy_handshakeErrChan s with
      | err :: rest =>
          Some (set_sy_run (set_sy_handshakeErrChan (set_sy_h s (set_handshakeErrChan_closed h true)) rest) (RunReturned (Some err)))
      | [] => None
      end
  | RunSelect, CaseMessageErr =>
      match messageErrChan h with
      | err :: rest =>
          Some (set_sy_run (set_sy_h s (set_messageChan_closed (set_messageErrChan h rest) true)) (RunReturned (Some err)))
      | [] => None
      end
  | RunAborting, Aborted =>
      match sy_handshakeErrChan s with
      | err :: rest => Some (set_sy_run (set_sy_handshakeErrChan s rest) (RunReturned (Some (Errorf "Handshake aborted" []))))
      | [] => None
      end
  | _, _ => None
  end.

Inductive move : Type :=
  | MHandle | MClose | MSession | MMeet | MSeeErr | MTls | MRun (c : run_case).

Definition step (m : move) (s : system) : option system :=
  match sy_panic s with
  | Some _ => None
  | None =>
      match m with
      | MHandle =>
          match sy_session s, sy_todo s with
          | Idle, (data, level) :: todo => Some (start_message (set_sy_todo s todo) data level)
          | _, _ => None
          end
      | MClose =>
          match sy_session s with
          | Idle => Some (set_sy_session (set_sy_h s (set_closeChan_closed (sy_h s) true)) InClose)
          | _ => None
          end
      | MSession => session_step s
      | MMeet => meet_step s
      | MSeeErr =>
          match sy_session s with
          | Waiting (_ :: _) _ => if handshakeErrChan_closed (sy_h s) then Some (returns s false) else None
          | _ => None
          end
      | MTls => tls_step s
      | MRun c => select_step c s
      end
  end.

Definition start (initialAEAD : aeadAESGCM) (p : Perspective) (tls : tls_prog) (todo : list (list Z * EncryptionLevel)) : system :=
  mkSystem (newCryptoSetup initialAEAD p) Idle (TlsRun tls) RunSelect [] false todo [] [] [] None.

(** Runs of a number of the moves in [M]. *)
Inductive runs (M : move -> Prop) : nat -> system -> system -> Prop :=
  | runs_refl s : runs M 0 s s
  | runs_step n s m s1 s2 : runs M n s s1 -> M m -> step m s1 = Some s2 -> runs M (S n) s s2.

Definition any (m : move) : Prop := True.
Definition no_close (m : move) : Prop := m <> MClose.

(** ** Lemmas: safety *)

(** The levels tell which keys there are. *)
Definition keys_ok (h : cryptoSetup) : Prop :=
  match readEncLevel h, handshakeOpener h, h_opener h with
  | EncryptionInitial, None, None | EncryptionHandshake, Some _, None | Encryption1RTT, Some _, Some _ => True
  | _, _, _ => False
  end
  /\ match writeEncLevel h, handshakeSealer h, h_sealer h with
     | EncryptionInitial, None, None | EncryptionHandshake, Some _, None | Encryption1RTT, Some _, Some _ => True
     | _, _, _ => False
     end.

(** A message on the level of its type. *)
Definition fits (x : list Z * EncryptionLevel) : bool :=
  match x.1 with
  | [] => false
  | msgType :: _ => bool_decide (checkEncryptionLevel msgType x.2 = None)
  end.

Definition pending (s : system) : list (list Z) :=
  match sy_session s with SendMessage data => [data] | _ => [] end.

Record safe_inv (todo : list (list Z * EncryptionLevel)) (s : system) : Prop := {
  sf_keys : keys_ok (sy_h s);
  sf_queue : sy_read s ++ messageChan (sy_h s) = sy_accepted s;
  sf_accepted : exists handled, todo = handled ++ sy_todo s /\ sy_accepted s ++ pending s = (List.filter fits handled).*1;
  sf_bounds : len (messageChan (sy_h s)) <= 100 /\ len (messageErrChan (sy_h s)) <= 1 }.

Lemma start_safe aead p tls todo : safe_inv todo (start aead p tls todo).
Proof. split; [done | done | by exists [] | done]. Qed.

Lemma SetReadKey_keys h suite sec h' : keys_ok h -> SetReadKey h suite sec = Ok h' -> keys_ok h'.
Proof.
  unfold SetReadKey. intros [Hr Hw] E. apply outcome_bind_Ok in E as ([a iv] & _ & E).
  destruct (readEncLevel h) eqn:El; try discriminate; injection E as <-; split; cbn; try done;
    by destruct (handshakeOpener h), (h_opener h).
Qed.

Lemma SetWriteKey_keys h suite sec h' : keys_ok h -> SetWriteKey h suite sec = Ok h' -> keys_ok h'.
Proof.
  unfold SetWriteKey. intros [Hr Hw] E. apply outcome_bind_Ok in E as ([a iv] & _ & E).
  destruct (writeEncLevel h) eqn:El; try discriminate; injection E as <-; split; cbn; try done;
    by destruct (handshakeSealer h), (h_sealer h).
Qed.

(** Other fields than those of the keys and of the channels for messages. *)
Definition same_core (h h' : cryptoSetup) : Prop :=
  (readEncLevel h', handshakeOpener h', h_opener h', writeEncLevel h', handshakeSealer h', h_sealer h', messageChan h', messageErrChan h')
  = (readEncLevel h, handshakeOpener h, h_opener h, writeEncLevel h, handshakeSealer h, h_sealer h, messageChan h, messageErrChan h).

Lemma WriteRecord_core h p : same_core h (WriteRecord h p).2.
Proof. unfold WriteRecord, same_core. destruct (writeEncLevel h) eqn:E; cbn; rewrite ?E; try done. destruct (_ && _); cbn; by rewrite E. Qed.

Lemma safe_same todo s h' : safe_inv todo s -> same_core (sy_h s) h' -> safe_inv todo (set_sy_h s h').
Proof.
  intros [[K1 K2] Q A B] E. injection E as E1 E2 E3 E4 E5 E6 E7 E8.
  split; cbn; unfold keys_ok; rewrite ?E1, ?E2, ?E3, ?E4, ?E5, ?E6, ?E7, ?E8; done.
Qed.

Lemma tls_call_safe todo s p s' : safe_inv todo s -> tls_call s p = Some s' -> sy_panic s' = None -> safe_inv todo s'.
Proof.
  intros Hi E Hp. destruct p as [k | d k | params k | suite sec k | suite sec k | [err |]]; cbn in E.
  - destruct (messageChan (sy_h s)) as [| msg rest] eqn:Em.
    + destruct (messageChan_closed _); [| done]. injection E as <-. destruct Hi. split; try done.
    + injection E as <-. destruct Hi as [K Q A [B1 B2]]. rewrite Em in *. rewrite len_cons in B1.
      split; cbn; try done; [by rewrite <- app_assoc | split; [lia | done]].
  - pose proof (WriteRecord_core (sy_h s) d) as Hc. destruct (WriteRecord (sy_h s) d) as [err h']. injection E as <-.
    destruct (safe_same todo s h' Hi Hc). by split.
  - injection E as <-. destruct Hi. by split.
  - destruct (SetReadKey _ _ _) as [h' | | msg] eqn:Ek; try done; injection E as <-; [| done].
    pose proof Ek as Ek'. unfold SetReadKey in Ek'. apply outcome_bind_Ok in Ek' as ([a iv] & _ & Ek').
    destruct Hi as [K Q A B]. split; cbn; [by eapply SetReadKey_keys | ..]; destruct (readEncLevel (sy_h s)); try done; by injection Ek' as <-.
  - destruct (SetWriteKey _ _ _) as [h' | | msg] eqn:Ek; try done; injection E as <-; [| done].
    pose proof Ek as Ek'. unfold SetWriteKey in Ek'. apply outcome_bind_Ok in Ek' as ([a iv] & _ & Ek').
    destruct Hi as [K Q A B]. split; cbn; [by eapply SetWriteKey_keys | ..]; destruct (writeEncLevel (sy_h s)); try done; by injection Ek' as <-.
  - injection E as <-. destruct Hi. by split.
  - injection E as <-. destruct Hi. by split.
Qed.

Lemma send_message_safe todo s data s' : safe_inv todo s -> sy_session s = SendMessage data -> send_message s data = Some s' ->
  sy_panic s' = None -> safe_inv todo s'.
Proof.
  intros [K Q (handled & Et & Ea) [B1 B2]] Hs E Hp. unfold send_message in E. destruct (messageChan_closed _); [by injection E as <- |].
  destruct (Z.leb_spec 100 (len (messageChan (sy_h s)))) as [| Hlt]; [done |].
  destruct (handleMessageFor _ _) as [[w r] |]; injection E as <-; [| done]. unfold pending in Ea. rewrite Hs in Ea.
  split; cbn; [done | by rewrite app_assoc, Q | exists handled; by rewrite app_nil_r |].
  rewrite len_app. change (len [data]) with 1. split; [lia | done].
Qed.

(** A step of the session that is not a send. *)
Lemma safe_move todo s s' : safe_inv todo s -> same_core (sy_h s) (sy_h s') -> sy_read s' = sy_read s -> sy_accepted s' = sy_accepted s ->
  sy_todo s' = sy_todo s -> pending s' = pending s -> safe_inv todo s'.
Proof.
  intros Hi Hc E1 E2 E3 E4. destruct (safe_same todo s (sy_h s') Hi Hc) as [K Q A B]. cbn in *.
  split; [done | by rewrite E1, E2 | | done]. by rewrite E2, E3, E4.
Qed.

Lemma start_message_safe todo s data level rest s' : safe_inv todo s -> sy_session s = Idle -> sy_todo s = (data, level) :: rest ->
  start_message (set_sy_todo s rest) data level = s' -> sy_panic s' = None -> safe_inv todo s'.
Proof.
  intros [K Q (handled & Et & Ea) B] Hs Ht <- Hp. unfold pending in Ea. rewrite Hs, app_nil_r in Ea.
  unfold start_message in *. destruct data as [| msgType d]; [done |].
  assert (Hh : todo = (handled ++ [(msgType :: d, level)]) ++ rest) by (by rewrite Et, Ht, <- app_assoc).
  assert (Hf : List.filter fits (handled ++ [(msgType :: d, level)]) = List.filter fits handled ++ List.filter fits [(msgType :: d, level)])
    by apply List.filter_app.
  destruct (checkEncryptionLevel msgType level) as [err |] eqn:Ec;
    (split; try done; exists (handled ++ [(msgType :: d, level)]); split; [done |]; cbn; rewrite Hf, fmap_app, Ea; cbn; unfold fits; cbn;
     rewrite Ec).
  - by rewrite bool_decide_false.
  - by rewrite bool_decide_true.
Qed.

Lemma step_safe todo m s s' : safe_inv todo s -> step m s = Some s' -> sy_panic s' = None -> safe_inv todo s'.
Proof.
  intros Hi E Hp. unfold step in E. destruct (sy_panic s) eqn:Ep; [done |]. destruct m as [| | | | | | c].
  - destruct (sy_session s) eqn:Es; try done. destruct (sy_todo s) as [| [data level] rest] eqn:Et; [done |]. injection E as E.
    by eapply start_message_safe.
  - destruct (sy_session s) eqn:Es; try done. injection E as <-. apply (safe_move todo s); try done. unfold pending. by rewrite Es.
  - unfold session_step in E. destruct (sy_session s) as [| err | data | [| w ws] r | |] eqn:Es; try done.
    + destruct (Z.leb_spec 1 (len (messageErrChan (sy_h s)))); [done |]. injection E as <-.
      destruct Hi as [K Q (handled & Et & Ea) [B1 B2]]. unfold pending in Ea. rewrite Es in Ea.
      split; cbn; [done | done | by exists handled |]. rewrite len_app. change (len [err]) with 1. split; [done | lia].
    + by eapply send_message_safe.
    + injection E as <-. apply (safe_move todo s); try done. unfold pending. by rewrite Es.
    + destruct (handshakeDone _); [| done]. injection E as <-. apply (safe_move todo s); try done. unfold pending. by rewrite Es.
  - unfold meet_step in E. destruct (sy_session s) as [| | | [| [] ws] r | |] eqn:Es; try done;
      destruct (sy_tls s) eqn:Et; try done; injection E as <-; apply (safe_move todo s); try done; unfold pending; by rewrite Es.
  - destruct (sy_session s) as [| | | [| w ws] r | |] eqn:Es; try done. destruct (handshakeErrChan_closed _); [| done].
    injection E as <-. apply (safe_move todo s); try done. unfold pending. by rewrite Es.
  - unfold tls_step in E. destruct (sy_tls s) eqn:Et; try done; [by eapply tls_call_safe |]. injection E as <-. by apply (safe_move todo s).
  - unfold select_step in E. destruct (sy_run s), c; try done.
    + destruct (closeChan_closed _); [| done]. injection E as <-. by apply (safe_move todo s).
    + destruct (sy_handshakeComplete _); [| done]. injection E as <-. by apply (safe_move todo s).
    + destruct (sy_handshakeErrChan s); [done |]. injection E as <-. by apply (safe_move todo s).
    + destruct (messageErrChan (sy_h s)) as [| err rest] eqn:Em; [done |]. injection E as <-.
      destruct Hi as [K Q A [B1 B2]]. rewrite Em, len_cons in B2. split; cbn; try done. split; [done | lia].
    + destruct (sy_handshakeErrChan s); [done |]. injection E as <-. by apply (safe_move todo s).
Qed.

Lemma step_alive m s s' : step m s = Some s' -> sy_panic s = None.
Proof. unfold step. by destruct (sy_panic s). Qed.

Lemma runs_safe M n aead p tls todo s : runs M n (start aead p tls todo) s -> sy_panic s = None -> safe_inv todo s.
Proof.
  remember (start aead p tls todo) as s0 eqn:E0. induction 1 as [s | n s m s1 s2 Hr IH Hm E]; intros Hp; subst.
  - apply start_safe.
  - eapply step_safe; [| done..]. apply IH; [done |]. by eapply step_alive.
Qed.

(** ** Lemmas: handshakes that complete *)

(** What both goroutines do together. *)
Inductive event : Type := EMessage (data : list Z) | EWait (w : waiting).

Definition message_events (p : Perspective) (x : list Z * EncryptionLevel) : list event :=
  EMessage x.1 :: (EWait <$> default [] (fst <$> handleMessageFor p (default 0 (head x.1)))).
Definition session_events (p : Perspective) (todo : list (list Z * EncryptionLevel)) : list event :=
  concat (message_events p <$> todo).

Definition message_result (p : Perspective) (x : list Z * EncryptionLevel) : bool :=
  default false (snd <$> handleMessageFor p (default 0 (head x.1))).

(** A message that this side can expect. *)
Definition expected (p : Perspective) (x : list Z * EncryptionLevel) : Prop :=
  fits x = true /\ is_Some (handleMessageFor p (default 0 (head x.1))).

Definition next_level (l : EncryptionLevel) : option EncryptionLevel :=
  match l with
  | EncryptionInitial => Some EncryptionHandshake
  | EncryptionHandshake => Some Encryption1RTT
  | _ => None
  end.

(** A program that, on these messages, meets the session in this order, writes
    only while it can, and returns with all keys set; [n] counts its steps. *)
Inductive performs : nat -> EncryptionLevel -> EncryptionLevel -> tls_prog -> list event -> Prop :=
  | pf_return : performs 0 Encryption1RTT Encryption1RTT (TReturn None) []
  | pf_read n rl wl k d ev : performs n rl wl (k (Some d)) ev -> performs (S n) rl wl (TRead k) (EMessage d :: ev)
  | pf_write n rl wl d k ev : wl <> Encryption1RTT -> wl <> EncryptionUnspecified -> performs n rl wl (k None) ev ->
      performs (S n) rl wl (TWrite d k) ev
  | pf_params n rl wl params k ev : performs n rl wl k ev -> performs (S (S n)) rl wl (TParams params k) (EWait ForParams :: ev)
  | pf_setread n rl rl' wl suite sec k ev : next_level rl = Some rl' -> is_ok (derive_keys suite sec) = true ->
      performs n rl' wl k ev -> performs (S (S n)) rl wl (TSetRead suite sec k) (EWait ForReadKey :: ev)
  | pf_setwrite n rl wl wl' suite sec k ev : next_level wl = Some wl' -> is_ok (derive_keys suite sec) = true ->
      performs n rl wl' k ev -> performs (S (S n)) rl wl (TSetWrite suite sec k) (EWait ForWriteKey :: ev).

(** The same at any point of the TLS goroutine. *)
Definition tls_performs (n : nat) (rl wl : EncryptionLevel) (pc : tls_pc) (ev : list event) : Prop :=
  match pc with
  | TlsRun p => exists n', n = S (S n') /\ performs n' rl wl p ev
  | TlsPutParams _ k => exists n' ev', n = S (S (S n')) /\ ev = EWait ForParams :: ev' /\ performs n' rl wl k ev'
  | TlsPutReadKey k => exists n' ev', n = S (S (S n')) /\ ev = EWait ForReadKey :: ev' /\ performs n' rl wl k ev'
  | TlsPutWriteKey k => exists n' ev', n = S (S (S n')) /\ ev = EWait ForWriteKey :: ev' /\ performs n' rl wl k ev'
  | TlsExiting => n = 1%nat /\ ev = [] /\ rl = Encryption1RTT /\ wl = Encryption1RTT
  | TlsExited => n = 0%nat /\ ev = [] /\ rl = Encryption1RTT /\ wl = Encryption1RTT
  end.

(** What the session still does, with the results and the number of steps. *)
Definition pc_events (p : Perspective) (pc : session_pc) : list event :=
  match pc with
  | SendMessage d => message_events p (d, EncryptionInitial)
  | Waiting w _ => EWait <$> w
  | _ => []
  end.
Definition pc_results (p : Perspective) (pc : session_pc) : list bool :=
  match pc with
  | SendMessage d => [message_result p (d, EncryptionInitial)]
  | Waiting _ r => [r]
  | _ => []
  end.
Definition pc_steps (pc : session_pc) : nat := match pc with SendMessage _ => 2 | Waiting _ _ => 1 | _ => 0 end.

(** Compute the fields of a changed state. *)
Ltac fields :=
  cbn [h_perspective messageChan messageChan_closed readEncLevel writeEncLevel handshakeErrChan_closed
    messageErrChan handshakeDone closeChan_closed clientHelloWritten to_initialStream to_handshakeStream
    initialAEAD handshakeOpener handshakeSealer h_opener h_sealer handledParams set_messageChan
    set_messageChan_closed set_readEncLevel set_writeEncLevel set_handshakeErrChan_closed
    set_messageErrChan set_handshakeDone set_closeChan_closed set_clientHelloWritten
    set_to_initialStream set_to_handshakeStream set_handshakeOpener set_handshakeSealer set_h_opener
    set_h_sealer set_handledParams sy_h sy_session sy_tls sy_run sy_handshakeErrChan
    sy_handshakeComplete sy_todo sy_results sy_accepted sy_read sy_panic set_sy_h set_sy_session
    set_sy_tls set_sy_run set_sy_handshakeErrChan set_sy_handshakeComplete set_sy_todo set_sy_results
    set_sy_accepted set_sy_read set_sy_panic returns panics].

Section Completion.
Context (p : Perspective) (todo0 : list (list Z * EncryptionLevel)).

Record hs_inv (n : nat) (s : system) : Prop := {
  hs_panic : sy_panic s = None;
  hs_persp : h_perspective (sy_h s) = p;
  hs_open : messageChan_closed (sy_h s) = false /\ closeChan_closed (sy_h s) = false;
  hs_errors : messageErrChan (sy_h s) = [] /\ handshakeErrChan_closed (sy_h s) = false /\ sy_handshakeErrChan s = [];
  hs_pc : match sy_session s with
          | Idle | Waiting _ _ => True
          | SendMessage d => is_Some (handleMessageFor p (default 0 (head d)))
          | _ => False
          end;
  hs_todo : Forall (expected p) (sy_todo s);
  hs_tls : tls_performs n (readEncLevel (sy_h s)) (writeEncLevel (sy_h s)) (sy_tls s)
             ((EMessage <$> messageChan (sy_h s)) ++ pc_events p (sy_session s) ++ session_events p (sy_todo s));
  hs_results : sy_results s ++ pc_results p (sy_session s) ++ (message_result p <$> sy_todo s) = message_result p <$> todo0;
  hs_complete : sy_handshakeComplete s = true <-> (sy_tls s = TlsExiting \/ sy_tls s = TlsExited);
  hs_run : sy_run s = RunSelect \/ (sy_run s = RunReturned None /\ sy_handshakeComplete s = true) }.

Definition steps_left (n : nat) (s : system) : nat :=
  n + 3 * length (sy_todo s) + pc_steps (sy_session s) + (match sy_run s with RunSelect => 1 | _ => 0 end).

Lemma WriteRecord_core_all h d : writeEncLevel h <> Encryption1RTT -> writeEncLevel h <> EncryptionUnspecified ->
  exists h', WriteRecord h d = (None, h') /\ same_core h h' /\ h_perspective h' = h_perspective h
    /\ messageChan_closed h' = messageChan_closed h /\ closeChan_closed h' = closeChan_closed h
    /\ handshakeErrChan_closed h' = handshakeErrChan_closed h.
Proof.
  intros H1 H2. unfold WriteRecord, same_core. destruct (writeEncLevel h) eqn:E; try done.
  - eexists. split; [done |]. destruct (_ && _); cbn; by rewrite E.
  - eexists. split; [done |]. cbn. by rewrite E.
Qed.

Lemma tls_step_inv n s s' : hs_inv n s -> tls_step s = Some s' -> exists n', (n' < n)%nat /\ hs_inv n' s' /\
  sy_session s' = sy_session s /\ sy_todo s' = sy_todo s /\ sy_run s' = sy_run s.
Proof.
  intros [I1 I2 I3 I4 I5 I6 I7 I8 I9 I10] E. unfold tls_step in E. destruct (sy_tls s) as [q | | | | |] eqn:Et; try done.
  2: { injection E as <-. destruct I7 as (-> & I7). exists 0%nat. split; [lia |]. split; [| done].
       split; fields; try done. naive_solver. }
  destruct I7 as (n' & -> & Hp). assert (Hnc : sy_handshakeComplete s <> true) by (intros Hc; apply I9 in Hc as [|]; done).
  assert (Hrun : sy_run s = RunSelect) by (destruct I10 as [? | [_ ?]]; done).
  assert (Hcomp : forall pc, pc <> TlsExiting -> pc <> TlsExited ->
    sy_handshakeComplete s = true <-> (pc = TlsExiting \/ pc = TlsExited)) by naive_solver.
  remember ((EMessage <$> messageChan (sy_h s)) ++ pc_events p (sy_session s) ++ session_events p (sy_todo s)) as ev eqn:Eev.
  remember (readEncLevel (sy_h s)) as rl eqn:Erl. remember (writeEncLevel (sy_h s)) as wl eqn:Ewl.
  destruct Hp as [| n rl wl k d ev Hp | n rl wl d k ev Hw1 Hw2 Hp | n rl wl params k ev Hp | n rl rl' wl suite sec k ev Hl Hk Hp
    | n rl wl wl' suite sec k ev Hl Hk Hp]; cbn in E.
  - injection E as <-. exists 1%nat. split; [lia |]. split; [| done].
    split; fields; try done; [naive_solver | by left].
  - destruct (messageChan (sy_h s)) as [| d' rest] eqn:Em.
    + destruct I3 as [I3 _]. rewrite I3 in E. done.
    + injection E as <-. cbn in Eev. injection Eev as <- ->. exists (S (S n)). split; [lia |]. split; [| done].
      split; fields; try done; try (by left); try (by apply Hcomp). exists n. by rewrite <- Erl, <- Ewl.
  - subst wl. destruct (WriteRecord_core_all (sy_h s) d Hw1 Hw2) as (h' & Ew & Hc & E1 & E2 & E3 & E4). rewrite Ew in E. injection E as <-.
    injection Hc as C1 C2 C3 C4 C5 C6 C7 C8. exists (S (S n)). split; [lia |]. split; [| done].
    split; fields; rewrite ?E1, ?E2, ?E3, ?E4, ?C8; try done; try (by left); try (by apply Hcomp).
    exists n. rewrite C1, C4, C7. split; [done |]. by rewrite <- Eev, <- Erl.
  - injection E as <-. exists (S (S (S n))). split; [lia |]. split; [| done]. split; fields; try done; try (by left); try (by apply Hcomp).
    exists n, ev. by rewrite <- Eev, <- Erl, <- Ewl.
  - unfold SetReadKey in E. destruct (derive_keys suite sec) as [[a iv] | |]; try done. cbn [mbind outcome_bind] in E. rewrite <- Erl in E.
    exists (S (S (S n))). split; [lia |].
    destruct rl; try done; injection Hl as <-; injection E as <-; (split; [| done]); (split; fields; try done; try (by left); try (by apply Hcomp));
      exists n, ev; by rewrite <- Eev, <- Ewl.
  - unfold SetWriteKey in E. destruct (derive_keys suite sec) as [[a iv] | |]; try done. cbn [mbind outcome_bind] in E. rewrite <- Ewl in E.
    exists (S (S (S n))). split; [lia |].
    destruct wl; try done; injection Hl as <-; injection E as <-; (split; [| done]); (split; fields; try done; try (by left); try (by apply Hcomp));
      exists n, ev; by rewrite <- Eev, <- Erl.
Qed.

(** Steps of the session, where the TLS goroutine stays. *)
Lemma session_inv n s s' : hs_inv n s -> sy_h s' = sy_h s -> sy_tls s' = sy_tls s -> sy_run s' = sy_run s ->
  sy_handshakeErrChan s' = sy_handshakeErrChan s -> sy_handshakeComplete s' = sy_handshakeComplete s -> sy_panic s' = sy_panic s ->
  match sy_session s' with Idle | Waiting _ _ => True | SendMessage d => is_Some (handleMessageFor p (default 0 (head d))) | _ => False end ->
  Forall (expected p) (sy_todo s') ->
  pc_events p (sy_session s') ++ session_events p (sy_todo s') = pc_events p (sy_session s) ++ session_events p (sy_todo s) ->
  sy_results s' ++ pc_results p (sy_session s') ++ (message_result p <$> sy_todo s')
    = sy_results s ++ pc_results p (sy_session s) ++ (message_result p <$> sy_todo s) -> hs_inv n s'.
Proof.
  intros [I1 I2 I3 I4 I5 I6 I7 I8 I9 I10] E1 E2 E3 E4 E5 E6 H1 H2 H3 H4.
  split; rewrite ?E1, ?E2, ?E3, ?E4, ?E5, ?E6; try done; by rewrite ?H3, ?H4.
Qed.

Lemma handle_inv n s s' : hs_inv n s -> step MHandle s = Some s' -> hs_inv n s' /\ (steps_left n s' < steps_left n s)%nat.
Proof.
  intros Hi E. pose proof Hi as [I1 _ _ _ _ I6 _ _ _ _]. unfold step in E. rewrite I1 in E.
  destruct (sy_session s) eqn:Es; try done. destruct (sy_todo s) as [| [data level] rest] eqn:Et; [done |]. injection E as E.
  apply Forall_cons in I6 as [[Hf Hx] I6]. unfold fits in Hf. cbn [fst snd] in *. destruct data as [| msgType d]; [done |].
  apply bool_decide_eq_true in Hf. unfold start_message in E. rewrite Hf in E. subst s'. split.
  - apply (session_inv n s); try done; fields; rewrite Es, Et; try done; by rewrite app_nil_l.
  - unfold steps_left. fields. rewrite Es, Et. cbn. lia.
Qed.

Lemma session_step_inv n s s' : hs_inv n s -> session_step s = Some s' -> hs_inv n s' /\ (steps_left n s' < steps_left n s)%nat.
Proof.
  intros Hi E. pose proof Hi as [I1 I2 [I3 I3'] I4 I5 I6 I7 I8 I9 I10]. unfold session_step in E.
  destruct (sy_session s) as [| | d | [| w ws] r | |] eqn:Es; try done.
  - unfold send_message in E. rewrite I3, I2 in E. destruct (100 <=? _); [done |].
    destruct I5 as [[w r] Hw]. rewrite Hw in E. injection E as <-. split.
    + split; fields; try done.
      * rewrite fmap_app, <- app_assoc. cbn in I7. unfold message_events in I7. cbn in I7. rewrite Hw in I7. apply I7.
      * unfold pc_results, message_result in I8. cbn [fst] in I8. rewrite Hw in I8. done.
    + unfold steps_left. fields. rewrite Es. cbn. lia.
  - injection E as <-. split.
    + apply (session_inv n s); try done; fields; rewrite Es; [done |]. cbn. by rewrite <- app_assoc.
    + unfold steps_left. fields. rewrite Es. cbn. lia.
Qed.

Lemma meet_inv n s s' : hs_inv n s -> meet_step s = Some s' ->
  exists n', hs_inv n' s' /\ (steps_left n' s' < steps_left n s)%nat.
Proof.
  intros Hi E. pose proof Hi as [I1 I2 I3 I4 I5 I6 I7 I8 I9 I10]. unfold meet_step in E.
  assert (Hq : forall (l : list (list Z)) w rest ev', (EMessage <$> l) ++ (EWait w :: rest) = EWait w :: ev' -> l = [] /\ rest = ev')
    by (intros [| x l] w rest ev' Eq; [by injection Eq | done]).
  destruct (sy_session s) as [| | | [| [] ws] r | |] eqn:Es; try done; destruct (sy_tls s) as [| params k | k | k | |] eqn:Et; try done;
    injection E as <-; destruct I7 as (n' & ev' & -> & Eev & Hp); cbn in Eev;
    (assert (Hnc : sy_handshakeComplete s <> true) by (intros Hc; apply I9 in Hc as [|]; done));
    apply Hq in Eev as [Em Eev]; exists (S (S n'));
    (split; [split; fields; try done; [| naive_solver] | unfold steps_left; fields; rewrite Es; cbn; lia]);
    rewrite Em; exists n'; (split; [done |]); cbn; by rewrite Eev.
Qed.

Lemma run_inv n c s s' : hs_inv n s -> select_step c s = Some s' -> hs_inv n s' /\ (steps_left n s' < steps_left n s)%nat.
Proof.
  intros Hi E. pose proof Hi as [I1 I2 [I3' I3] (I4 & I4' & I4'') I5 I6 I7 I8 I9 I10]. unfold select_step in E.
  destruct I10 as [Hr | [Hr Hc]]; rewrite Hr in E; [| done]. destruct c; try done; rewrite ?I3, ?I4, ?I4'' in E; try done.
  destruct (sy_handshakeComplete s) eqn:Hc; [| done]. injection E as <-. split.
  - split; fields; try done; [by rewrite Hc in * | by right].
  - unfold steps_left. fields. rewrite Hr. lia.
Qed.

Lemma hs_step n s m s' : hs_inv n s -> no_close m -> step m s = Some s' ->
  exists n', hs_inv n' s' /\ (steps_left n' s' < steps_left n s)%nat.
Proof.
  intros Hi Hm E. destruct m as [| | | | | | c]; [exists n; by apply handle_inv | done | ..];
    unfold step in E; rewrite (hs_panic n s Hi) in E.
  - exists n. by apply session_step_inv.
  - by apply meet_inv.
  - destruct Hi as [_ _ _ (_ & I4 & _) _ _ _ _ _ _]. destruct (sy_session s) as [| | | [] | |]; try done. by rewrite I4 in E.
  - destruct (tls_step_inv n s s' Hi E) as (n' & Hlt & Hi' & E1 & E2 & E3). exists n'. split; [done |].
    unfold steps_left. rewrite E1, E2, E3. lia.
  - exists n. by eapply run_inv.
Qed.

Definition completed (s : system) : Prop :=
  sy_session s = Idle /\ sy_todo s = [] /\ sy_tls s = TlsExited /\ sy_run s = RunReturned None.

Lemma tls_runs n s q : hs_inv n s -> sy_tls s = TlsRun q ->
  (exists s', tls_step s = Some s') \/ exists k d ev, q = TRead k /\ messageChan (sy_h s) = []
    /\ pc_events p (sy_session s) ++ session_events p (sy_todo s) = EMessage d :: ev.
Proof.
  intros [I1 I2 I3 I4 I5 I6 I7 I8 I9 I10] Et. unfold tls_step. rewrite Et in *. destruct I7 as (n' & -> & Hp).
  remember ((EMessage <$> messageChan (sy_h s)) ++ pc_events p (sy_session s) ++ session_events p (sy_todo s)) as ev eqn:Eev.
  remember (readEncLevel (sy_h s)) as rl eqn:Erl. remember (writeEncLevel (sy_h s)) as wl eqn:Ewl.
  destruct Hp as [| n rl wl k d ev Hp | n rl wl d k ev Hw1 Hw2 Hp | n rl wl params k ev Hp | n rl rl' wl suite sec k ev Hl Hk Hp
    | n rl wl wl' suite sec k ev Hl Hk Hp]; cbn [tls_call].
  - left. by eexists.
  - destruct (messageChan (sy_h s)) as [| d' rest] eqn:Em; [| left; by eexists]. right. by exists k, d, ev.
  - left. destruct (WriteRecord _ _). by eexists.
  - left. by eexists.
  - left. unfold SetReadKey. rewrite <- Erl. destruct (derive_keys suite sec) as [[a iv] | |]; try done. destruct rl; try done; by eexists.
  - left. unfold SetWriteKey. rewrite <- Ewl. destruct (derive_keys suite sec) as [[a iv] | |]; try done. destruct wl; try done; by eexists.
Qed.

(** The session can move, unless it waits, has nothing to do, or the channel is full. *)
Lemma session_moves n s : hs_inv n s ->
  (exists m s', no_close m /\ step m s = Some s') \/ (exists w ws r, sy_session s = Waiting (w :: ws) r)
  \/ (sy_session s = Idle /\ sy_todo s = []) \/ messageChan (sy_h s) <> [].
Proof.
  intros [I1 I2 [I3 I3'] I4 I5 I6 I7 I8 I9 I10]. destruct (sy_session s) as [| | d | [| w ws] r | |] eqn:Es; try done.
  - destruct (sy_todo s) as [| [data level] rest] eqn:Et; [by right; right; left |]. left. exists MHandle. eexists. split; [done |].
    unfold step. by rewrite I1, Es, Et.
  - destruct (messageChan (sy_h s)) eqn:Em; [| by right; right; right]. destruct I5 as [[w r] Hw]. left. exists MSession. eexists.
    split; [done |]. unfold step, session_step, send_message. by rewrite I1, Es, I3, I2, Em, Hw.
  - left. exists MSession. eexists. split; [done |]. unfold step, session_step. by rewrite I1, Es.
  - right. left. by exists w, ws, r.
Qed.

Lemma session_events_head todo ev w : session_events p todo <> EWait w :: ev.
Proof. destruct todo as [| x todo]; [done |]. unfold session_events. cbn. by unfold message_events. Qed.

Lemma hs_progress n s : hs_inv n s -> completed s \/ exists m s', no_close m /\ step m s = Some s'.
Proof.
  intros Hi. destruct (session_moves n s Hi) as [? | Hses]; [by right |].
  pose proof Hi as [I1 I2 [I3 I3'] I4 I5 I6 I7 I8 I9 I10].
  assert (Hmove : forall m s', no_close m -> step m s = Some s' -> completed s \/ exists m s', no_close m /\ step m s = Some s')
    by (intros m s' ? ?; right; by exists m, s').
  assert (Htls : forall s', tls_step s = Some s' -> completed s \/ exists m s', no_close m /\ step m s = Some s')
    by (intros s' E; apply (Hmove MTls s'); [done | unfold step; by rewrite I1]).
  assert (Hput : forall w ev', (EMessage <$> messageChan (sy_h s)) ++ pc_events p (sy_session s) ++ session_events p (sy_todo s)
    = EWait w :: ev' -> exists ws r, sy_session s = Waiting (w :: ws) r).
  { intros w ev' Eev. destruct (messageChan (sy_h s)); [| done]. destruct Hses as [(w' & ws & r & Es) | [[Es Hd] | ?]]; [..| done].
    - rewrite Es in *. cbn in Eev. injection Eev as -> _. by exists ws, r.
    - rewrite Es, Hd in Eev. done. }
  destruct (sy_tls s) as [q | params k | k | k | |] eqn:Et.
  - destruct (tls_runs n s q Hi Et) as [[s' E] | (k & d & ev & -> & Em & Eev)]; [by eapply Htls |].
    destruct Hses as [(w & ws & r & Es) | [[Es Hd] | Hn]]; [..| done].
    + rewrite Es in Eev. done.
    + rewrite Es, Hd in Eev. done.
  - destruct I7 as (n' & ev' & -> & Eev & Hp). destruct (Hput _ _ Eev) as (ws & r & Es).
    eapply (Hmove MMeet); [done |]. unfold step, meet_step. by rewrite I1, Es, Et.
  - destruct I7 as (n' & ev' & -> & Eev & Hp). destruct (Hput _ _ Eev) as (ws & r & Es).
    eapply (Hmove MMeet); [done |]. unfold step, meet_step. by rewrite I1, Es, Et.
  - destruct I7 as (n' & ev' & -> & Eev & Hp). destruct (Hput _ _ Eev) as (ws & r & Es).
    eapply (Hmove MMeet); [done |]. unfold step, meet_step. by rewrite I1, Es, Et.
  - eapply Htls. unfold tls_step. by rewrite Et.
  - destruct I7 as (-> & Eev & _). apply app_nil in Eev as [Em Eev]. apply app_nil in Eev as [Epc Eev].
    destruct Hses as [(w & ws & r & Es) | [[Es Hd] | Hn]]; [by rewrite Es in Epc | | by destruct (messageChan (sy_h s))].
    destruct I10 as [Hr | [Hr Hc]]; [| by left].
    eapply (Hmove (MRun CaseComplete)); [done |]. unfold step, select_step. rewrite I1, Hr. by rewrite (proj2 I9) by (by right).
Qed.

Lemma hs_start n aead tls : performs n EncryptionInitial EncryptionInitial tls (session_events p todo0) -> Forall (expected p) todo0 ->
  hs_inv (S (S n)) (start aead p tls todo0).
Proof. intros Hp Ht. split; fields; try done; [by exists n | split; [done | by intros [|]] | by left]. Qed.

Lemma hs_runs k n aead tls s : performs n EncryptionInitial EncryptionInitial tls (session_events p todo0) -> Forall (expected p) todo0 ->
  runs no_close k (start aead p tls todo0) s ->
  exists n', hs_inv n' s /\ (k + steps_left n' s <= n + 3 * length todo0 + 3)%nat.
Proof.
  intros Hp Ht Hr. remember (start aead p tls todo0) as s0 eqn:E0. revert E0.
  induction Hr as [s | k s m s1 s2 Hr IH Hm E]; intros ->.
  - exists (S (S n)). split; [by apply hs_start |]. unfold steps_left. cbn. lia.
  - destruct (IH eq_refl) as (n' & Hi & Hle). destruct (hs_step n' s1 m s2 Hi Hm E) as (n'' & Hi' & Hlt). exists n''. split; [done | lia].
Qed.

Lemma hs_completed n s : hs_inv n s -> completed s ->
  sy_results s = message_result p <$> todo0 /\ messageChan (sy_h s) = []
  /\ readEncLevel (sy_h s) = Encryption1RTT /\ writeEncLevel (sy_h s) = Encryption1RTT.
Proof.
  intros [I1 I2 I3 I4 I5 I6 I7 I8 I9 I10] (Es & Et & Etls & Er). rewrite Es, Et, Etls in *.
  destruct I7 as (_ & Em & E1 & E2). cbn in I8, Em. rewrite !app_nil_r in *. split_and!; try done. by destruct (messageChan (sy_h s)).
Qed.
End Completion.

(** ** The order of the calls of the TLS library *)

Definition read_error : option go_error := Some (Errorf "error while handling the handshake message" []).

Fixpoint tls_reads (n : nat) (k : tls_prog) : tls_prog :=
  match n with
  | O => k
  | S n => TRead (fun m => match m with Some _ => tls_reads n k | None => TReturn read_error end)
  end.

Fixpoint tls_writes (l : list (list Z)) (k : tls_prog) : tls_prog :=
  match l with
  | [] => k
  | d :: l => TWrite d (fun err => match err with None => tls_writes l k | _ => TReturn err end)
  end.

(** A server: the ClientHello, its extensions, the ServerHello, the keys for
    sending, the key for the client's flight, that flight (with [certs] messages
    before the Finished) and the last key. *)
Definition server_tls (params : TransportParameters) (suite : CipherSuite) (hello flight : list (list Z)) (certs : nat)
    (s1 s2 s3 s4 : list Z) : tls_prog :=
  tls_reads 1 (TParams params (tls_writes hello (TSetWrite suite s1 (tls_writes flight (TSetWrite suite s2 (TSetRead suite s3
    (tls_reads certs (tls_reads 1 (TSetRead suite s4 (TReturn None)))))))))).

(** A client: the ClientHello, the ServerHello, the key for the server's flight,
    that flight with the extensions first, and its own Finished between the keys
    for sending. *)
Definition client_tls (params : TransportParameters) (suite : CipherSuite) (hello flight : list (list Z)) (certs : nat)
    (s1 s2 s3 s4 : list Z) : tls_prog :=
  tls_writes hello (tls_reads 1 (TSetRead suite s1 (tls_reads 1 (TParams params (tls_reads certs (tls_reads 1
    (TSetWrite suite s2 (tls_writes flight (TSetWrite suite s3 (TSetRead suite s4 (TReturn None))))))))))).

Definition suite_ok (suite : CipherSuite) : Prop := forall sec, is_ok (derive_keys suite sec) = true.

Lemma suite_ok_lengths suite : hash_ok (suite_Hash suite) -> 0 <= KeyLen suite <= 255 * hash_Size (suite_Hash suite) ->
  0 <= IVLen suite <= 255 * hash_Size (suite_Hash suite) -> suite_ok suite.
Proof.
  intros Hh Hk Hi sec. unfold derive_keys. destruct (HkdfExpandLabel_ok _ sec "key" _ Hh Hk) as (k & -> & _).
  destruct (HkdfExpandLabel_ok _ sec "iv" _ Hh Hi) as (iv & -> & _). done.
Qed.

Lemma performs_reads ds n rl wl k ev : performs n rl wl k ev ->
  exists n', performs n' rl wl (tls_reads (length ds) k) ((EMessage <$> ds) ++ ev).
Proof.
  intros Hp. induction ds as [| d ds (n' & IH)]; [by exists n |]. exists (S n'). cbn. by apply pf_read.
Qed.

Lemma performs_writes l n rl wl k ev : performs n rl wl k ev -> wl <> Encryption1RTT -> wl <> EncryptionUnspecified ->
  exists n', performs n' rl wl (tls_writes l k) ev.
Proof.
  intros Hp H1 H2. induction l as [| d l (n' & IH)]; [by exists n |]. exists (S n'). cbn. by apply pf_write.
Qed.

(** A message of one of these types, sent with the handshake keys. *)
Definition of_type (types : list Z) (d : list Z) : Prop := exists t rest, d = t :: rest /\ t ∈ types.

Lemma server_performs params suite hello flight s1 s2 s3 s4 ch certs fin : suite_ok suite ->
  of_type [typeClientHello] ch -> Forall (of_type [typeCertificate; typeCertificateVerify]) certs -> of_type [typeFinished] fin ->
  let todo := (ch, EncryptionInitial) :: ((fun d => (d, EncryptionHandshake)) <$> certs ++ [fin]) in
  Forall (expected PerspectiveServer) todo
  /\ exists n, performs n EncryptionInitial EncryptionInitial (server_tls params suite hello flight (length certs) s1 s2 s3 s4)
       (session_events PerspectiveServer todo).
Proof.
  intros Hs (t1 & r1 & -> & ->%list_elem_of_singleton) Hc (t3 & r3 & -> & ->%list_elem_of_singleton) todo.
  assert (Hcs : forall d, d ∈ certs -> expected PerspectiveServer (d, EncryptionHandshake)
    /\ message_events PerspectiveServer (d, EncryptionHandshake) = [EMessage d]).
  { intros d Hd. rewrite Forall_forall in Hc. destruct (Hc d Hd) as (t & r & -> & Ht).
    apply elem_of_cons in Ht as [-> | ->%list_elem_of_singleton]; done. }
  split.
  - constructor; [done |]. apply Forall_fmap, Forall_app. split; [| by repeat constructor].
    apply Forall_forall. intros d Hd. by apply Hcs.
  - assert (Hev : session_events PerspectiveServer todo = [EMessage (typeClientHello :: r1); EWait ForParams; EWait ForWriteKey;
      EWait ForWriteKey; EWait ForReadKey] ++ (EMessage <$> certs) ++ [EMessage (typeFinished :: r3); EWait ForReadKey]).
    { unfold session_events, todo. rewrite fmap_cons. cbn [concat]. f_equal. rewrite !fmap_app, concat_app. f_equal.
      clear - Hcs. induction certs as [| d certs IH]; [done |]. cbn [fmap list_fmap concat].
      rewrite (proj2 (Hcs d ltac:(by left))). cbn [app]. f_equal. apply IH. intros d' Hd'. apply Hcs. by right. }
    rewrite Hev. unfold server_tls.
    assert (P1 : exists n, performs n EncryptionHandshake Encryption1RTT (tls_reads 1 (TSetRead suite s4 (TReturn None)))
      [EMessage (typeFinished :: r3); EWait ForReadKey]).
    { exists 3%nat. apply pf_read. eapply pf_setread; [done | apply Hs | apply pf_return]. }
    destruct P1 as (n1 & P1). destruct (performs_reads certs _ _ _ _ _ P1) as (n2 & P2).
    assert (P3 : performs (S (S n2)) EncryptionInitial Encryption1RTT (TSetRead suite s3 (tls_reads (length certs) (tls_reads 1
      (TSetRead suite s4 (TReturn None))))) (EWait ForReadKey :: (EMessage <$> certs) ++ [EMessage (typeFinished :: r3); EWait ForReadKey]))
      by (eapply pf_setread; [done | apply Hs | done]).
    apply (pf_setwrite _ _ EncryptionHandshake _ suite s2 _ _ eq_refl (Hs s2)) in P3.
    destruct (performs_writes flight _ _ _ _ _ P3 ltac:(done) ltac:(done)) as (n4 & P4).
    apply (pf_setwrite _ _ EncryptionInitial _ suite s1 _ _ eq_refl (Hs s1)) in P4.
    destruct (performs_writes hello _ _ _ _ _ P4 ltac:(done) ltac:(done)) as (n5 & P5).
    eexists. apply pf_read. by apply pf_params.
Qed.

Lemma client_performs params suite hello flight s1 s2 s3 s4 sh ee certs fin : suite_ok suite ->
  of_type [typeServerHello] sh -> of_type [typeEncryptedExtensions] ee ->
  Forall (of_type [typeCertificateRequest; typeCertificate; typeCertificateVerify]) certs -> of_type [typeFinished] fin ->
  let todo := (sh, EncryptionInitial) :: ((fun d => (d, EncryptionHandshake)) <$> ee :: certs ++ [fin]) in
  Forall (expected PerspectiveClient) todo
  /\ exists n, performs n EncryptionInitial EncryptionInitial (client_tls params suite hello flight (length certs) s1 s2 s3 s4)
       (session_events PerspectiveClient todo).
Proof.
  intros Hs (t1 & r1 & -> & ->%list_elem_of_singleton) (t2 & r2 & -> & ->%list_elem_of_singleton) Hc
    (t3 & r3 & -> & ->%list_elem_of_singleton) todo.
  assert (Hcs : forall d, d ∈ certs -> expected PerspectiveClient (d, EncryptionHandshake)
    /\ message_events PerspectiveClient (d, EncryptionHandshake) = [EMessage d]).
  { intros d Hd. rewrite Forall_forall in Hc. destruct (Hc d Hd) as (t & r & -> & Ht).
    apply elem_of_cons in Ht as [-> | [-> | ->%list_elem_of_singleton]%elem_of_cons]; done. }
  split.
  - do 2 (constructor; [done |]). apply Forall_fmap, Forall_app. split; [| by repeat constructor].
    apply Forall_forall. intros d Hd. by apply Hcs.
  - assert (Hev : session_events PerspectiveClient todo = [EMessage (typeServerHello :: r1); EWait ForReadKey;
      EMessage (typeEncryptedExtensions :: r2); EWait ForParams] ++ (EMessage <$> certs)
      ++ [EMessage (typeFinished :: r3); EWait ForWriteKey; EWait ForWriteKey; EWait ForReadKey]).
    { unfold session_events, todo. rewrite !fmap_cons. cbn [concat]. rewrite app_assoc. f_equal. rewrite !fmap_app, concat_app. f_equal.
      clear - Hcs. induction certs as [| d certs IH]; [done |]. cbn [fmap list_fmap concat].
      rewrite (proj2 (Hcs d ltac:(by left))). cbn [app]. f_equal. apply IH. intros d' Hd'. apply Hcs. by right. }
    rewrite Hev. unfold client_tls.
    assert (P1 : performs 4 EncryptionHandshake EncryptionHandshake (TSetWrite suite s3 (TSetRead suite s4 (TReturn None)))
      [EWait ForWriteKey; EWait ForReadKey]).
    { eapply pf_setwrite; [done | apply Hs |]. eapply pf_setread; [done | apply Hs | apply pf_return]. }
    destruct (performs_writes flight _ _ _ _ _ P1 ltac:(done) ltac:(done)) as (n2 & P2).
    apply (pf_setwrite _ _ EncryptionInitial _ suite s2 _ _ eq_refl (Hs s2)) in P2.
    eapply (pf_read _ _ _ (fun m => match m with Some _ => _ | None => TReturn read_error end) (typeFinished :: r3)) in P2.
    destruct (performs_reads certs _ _ _ _ _ P2) as (n3 & P3).
    eapply (pf_params _ _ _ params) in P3.
    eapply (pf_read _ _ _ (fun m => match m with Some _ => _ | None => TReturn read_error end) (typeEncryptedExtensions :: r2)) in P3.
    apply (pf_setread _ EncryptionInitial _ _ suite s1 _ _ eq_refl (Hs s1)) in P3.
    eapply (pf_read _ _ _ (fun m => match m with Some _ => _ | None => TReturn read_error end) (typeServerHello :: r1)) in P3.
    destruct (performs_writes hello _ _ _ _ _ P3 ltac:(done) ltac:(done)) as (n4 & P4). by exists n4.
Qed.

(** ** Theorems *)

(** Whether the keys of a level are there when [current] is the level reached. *)
Definition reached (level current : EncryptionLevel) : bool :=
  match level, current with
  | EncryptionInitial, _ => true
  | EncryptionHandshake, (EncryptionHandshake | Encryption1RTT) => true
  | Encryption1RTT, Encryption1RTT => true
  | _, _ => false
  end.


(** C32. A handshake completes: if the TLS library makes its calls in the order in
    which the messages are handled (as it does for the flights of TLS 1.3, see
    [server_performs] and [client_performs]), then no interleaving deadlocks, panics
    or goes on forever; and at the end every call of [HandleMessage] has told the
    crypto stream whether its level is done, [RunHandshake] has returned without
    error, and packets are sealed with 1-RTT keys. *)
Theorem handshake_completes aead p tls todo n : Forall (expected p) todo ->
  performs n EncryptionInitial EncryptionInitial tls (session_events p todo) ->
  forall k s, runs no_close k (start aead p tls todo) s ->
    (k <= n + 3 * length todo + 3)%nat /\ sy_panic s = None
    /\ (completed s \/ exists m s', no_close m /\ step m s = Some s')
    /\ (completed s -> sy_results s = message_result p <$> todo
          /\ (GetSealer (sy_h s)).1 = Encryption1RTT /\ is_Some (h_opener (sy_h s))).
Proof.
  intros Ht Hp k s Hr. destruct (hs_runs p todo k n aead tls s Hp Ht Hr) as (n' & Hi & Hle). pose proof (hs_panic _ _ _ _ Hi) as Hpan.
  split_and!; [lia | done | by eapply hs_progress |].
  intros Hc. destruct (hs_completed p todo n' s Hi Hc) as (E1 & E2 & E3 & E4).
  destruct (runs_safe no_close k aead p tls todo s Hr Hpan) as [[K1 K2] _ _ _]. rewrite E3, E4 in *. split_and!; [done | |].
  - unfold GetSealer. destruct (handshakeSealer _), (h_sealer _); done.
  - destruct (handshakeOpener _), (h_opener _); done.
Qed.

(** ** Defects *)

(** C34. A message of a type that this side never expects, on the right level, makes
    the program panic: the check of the level does not know the perspective.  A
    ClientHello that is sent to a client in an Initial packet, for which nothing
    secret is needed, ends the client; and a server can be ended by a ServerHello. *)
Theorem unexpected_message_panics aead p tls d rest t :
  (p, t) = (PerspectiveClient, typeClientHello) \/ (p, t) = (PerspectiveServer, typeServerHello) ->
  exists s, runs any 2 (start aead p tls ((t :: d, EncryptionInitial) :: rest)) s
    /\ sy_panic s = Some "unexpected handshake message"%string.
Proof.
  intros Hpt. set (s0 := start _ _ _ _).
  assert (E : exists s1 s2, step MHandle s0 = Some s1 /\ step MSession s1 = Some s2 /\ sy_panic s2 = Some "unexpected handshake message"%string).
  { destruct Hpt as [[= -> ->] | [= -> ->]]; do 2 eexists; (split; [reflexivity |]); split; reflexivity. }
  destruct E as (s1 & s2 & E1 & E2 & E3). exists s2. split; [| done].
  eapply runs_step; [eapply runs_step; [apply runs_refl | done | exact E1] | done | exact E2].
Qed.

Lemma handle_bad s t d level rest err : sy_panic s = None -> sy_session s = Idle -> sy_todo s = (t :: d, level) :: rest ->
  checkEncryptionLevel t level = Some err -> step MHandle s = Some (set_sy_session (set_sy_todo s rest) (SendErr err)).
Proof. intros Hp Hs Ht Hc. unfold step. rewrite Hp, Hs, Ht. unfold start_message. by rewrite Hc. Qed.

Lemma handle_good s x rest : sy_panic s = None -> sy_session s = Idle -> sy_todo s = x :: rest -> fits x = true ->
  step MHandle s = Some (set_sy_session (set_sy_todo s rest) (SendMessage x.1)).
Proof.
  intros Hp Hs Ht Hf. unfold step. rewrite Hp, Hs, Ht. destruct x as [[| t d] level]; [done |].
  unfold fits in Hf. cbn [fst snd] in *. apply bool_decide_eq_true in Hf. unfold start_message. by rewrite Hf.
Qed.

(** Nobody empties the channel for errors. *)
Definition blocked (err : go_error) (s : system) : Prop :=
  sy_session s = SendErr err /\ messageErrChan (sy_h s) <> [] /\ sy_run s <> RunSelect.

Lemma blocked_step err m s s' : blocked err s -> step m s = Some s' -> blocked err s'.
Proof.
  intros (H1 & H2 & H3) E. unfold step in E. destruct (sy_panic s); [done |].
  destruct m as [| | | | | | c]; rewrite ?H1 in E; try done.
  - unfold session_step in E. rewrite H1 in E. destruct (messageErrChan (sy_h s)) as [| x l] eqn:Em; [done |].
    rewrite (proj2 (Z.leb_le _ _)) in E; [done |]. rewrite len_cons. pose proof (len_nonneg l). lia.
  - unfold meet_step in E. by rewrite H1 in E.
  - unfold tls_step in E. destruct (sy_tls s) as [q | | | | |]; try done; [| by injection E as <-].
    destruct q as [k | d k | params k | suite sec k | suite sec k | [e |]]; cbn in E.
    + destruct (messageChan (sy_h s)); [destruct (messageChan_closed _); [| done] |]; by injection E as <-.
    + pose proof (WriteRecord_core (sy_h s) d) as Hc. destruct (WriteRecord _ _). injection E as <-. injection Hc as _ _ _ _ _ _ _ Hc.
      unfold blocked. fields. cbn [snd] in Hc. by rewrite Hc.
    + by injection E as <-.
    + unfold SetReadKey in E. destruct (derive_keys suite sec) as [[a iv] | |]; cbn in E; try done; [| by injection E as <-].
      destruct (readEncLevel (sy_h s)); by injection E as <-.
    + unfold SetWriteKey in E. destruct (derive_keys suite sec) as [[a iv] | |]; cbn in E; try done; [| by injection E as <-].
      destruct (writeEncLevel (sy_h s)); by injection E as <-.
    + by injection E as <-.
    + by injection E as <-.
  - unfold select_step in E. destruct (sy_run s) eqn:Er; [done | | done]. destruct c; try done.
    destruct (sy_handshakeErrChan s); [done |]. injection E as <-. by unfold blocked.
Qed.

Lemma blocked_runs err k s s' : blocked err s -> runs any k s s' -> blocked err s'.
Proof. intros Hb. induction 1 as [| n s m s1 s2 Hr IH _ E]; [done |]. eapply blocked_step; [by apply IH | done]. Qed.

(** After an error in one message the next one can end the program: [RunHandshake]
    closes the channel for messages, and sending on a closed channel panics; if
    instead two more messages have errors, the session waits forever, because
    nobody reads from the channel for errors any more: it handles no packet, and
    no timeout, after that. *)
Theorem message_after_error aead p tls bad good level rest :
  (exists t d, bad = t :: d /\ checkEncryptionLevel t level <> None) -> fits good = true ->
  (exists s k, runs any k (start aead p tls ((bad, level) :: good :: rest)) s /\ sy_panic s = Some "send on closed channel"%string)
  /\ (exists s k err, runs any k (start aead p tls ((bad, level) :: (bad, level) :: (bad, level) :: rest)) s /\ sy_panic s = None
        /\ forall k' s', runs any k' s s' -> sy_session s' = SendErr err).
Proof.
  intros (t & d & -> & Hc) Hg. destruct (checkEncryptionLevel t level) as [err |] eqn:Ec; [clear Hc | done].
  assert (Hfirst : forall rest', let s0 := start aead p tls ((t :: d, level) :: rest') in
    exists s3, runs any 3 s0 s3 /\ sy_panic s3 = None /\ sy_session s3 = Idle /\ sy_todo s3 = rest' /\ messageChan_closed (sy_h s3) = true
      /\ sy_run s3 <> RunSelect /\ messageErrChan (sy_h s3) = []).
  { intros rest' s0. eexists. split.
    - eapply (runs_step _ _ _ (MRun CaseMessageErr)); [| done |].
      + eapply (runs_step _ _ _ MSession); [| done |].
        * eapply (runs_step _ _ _ MHandle); [apply runs_refl | done | by eapply handle_bad].
        * reflexivity.
      + reflexivity.
    - split_and!; done. }
  split.
  - destruct (Hfirst (good :: rest)) as (s3 & Hr & P1 & P2 & P3 & P4 & _). do 2 eexists. split.
    + eapply (runs_step _ _ _ MSession); [| done |].
      * eapply (runs_step _ _ _ MHandle); [exact Hr | done | by eapply handle_good].
      * unfold step, session_step, send_message. fields. rewrite P1, P4. reflexivity.
    + done.
  - destruct (Hfirst ((t :: d, level) :: (t :: d, level) :: rest)) as (s3 & Hr & P1 & P2 & P3 & P4 & P5 & P6).
    do 2 eexists. exists err. split; [| split].
    + eapply (runs_step _ _ _ MHandle); [| done |].
      * eapply (runs_step _ _ _ MSession); [| done |].
        -- eapply (runs_step _ _ _ MHandle); [exact Hr | done | by eapply handle_bad].
        -- unfold step, session_step. fields. rewrite P1, P6. reflexivity.
      * eapply handle_bad; fields; [done | done | reflexivity | done].
    + done.
    + intros k' s' Hr'. eapply blocked_runs in Hr' as (Hb & _); [exact Hb |]. unfold blocked. fields. done.
Qed.

(** ** A scheduler, and concrete handshakes *)

(** The first of the moves that can be made. *)
Fixpoint first_move (l : list move) (s : system) : option system :=
  match l with
  | [] => None
  | m :: l => match step m s with Some s' => Some s' | None => first_move l s end
  end.

Definition schedule : list move := [MMeet; MTls; MSession; MHandle; MRun CaseComplete].

Fixpoint drive (fuel : nat) (s : system) : system :=
  match fuel with
  | O => s
  | S fuel => match first_move schedule s with Some s' => drive fuel s' | None => s end
  end.

Lemma runs_cons M n s m s1 s2 : M m -> step m s = Some s1 -> runs M n s1 s2 -> runs M (S n) s s2.
Proof.
  intros Hm E Hr. induction Hr as [s1 | n s1 m' s2 s3 Hr IH Hm' E']; [by eapply runs_step; [apply runs_refl |..] |].
  eapply runs_step; [by apply IH | done..].
Qed.

Lemma drive_runs fuel s : exists k, runs no_close k s (drive fuel s).
Proof.
  revert s. induction fuel as [| fuel IH]; intros s; [exists 0%nat; constructor |]. cbn [drive].
  assert (Hm : forall l, Forall no_close l -> forall s', first_move l s = Some s' -> exists m, no_close m /\ step m s = Some s').
  { induction l as [| m l IHl]; intros Hl s' E; [done |]. apply Forall_cons in Hl as [Hm Hl]. cbn in E.
    destruct (step m s) eqn:Es; [injection E as <-; by exists m | by apply IHl]. }
  destruct (first_move schedule s) as [s' |] eqn:E; [| exists 0%nat; constructor].
  destruct (Hm schedule ltac:(by repeat constructor) s' E) as (m & Hn & Es). destruct (IH s') as (k & Hr).
  exists (S k). by eapply runs_cons.
Qed.

Definition sample_suite : CipherSuite := mkCipherSuite SHA256 16 12 (fun _ _ => zeros_cipher).
Definition sample_aead : aeadAESGCM := mkAESGCM [] [] zeros_cipher zeros_cipher.

Lemma sample_suite_ok : suite_ok sample_suite.
Proof. apply suite_ok_lengths; [apply SHA256_ok | cbn; lia | cbn; lia]. Qed.

(** The messages of a client without a certificate. *)
Definition client_flight : list (list Z * EncryptionLevel) :=
  [([typeClientHello; 0; 0; 0], EncryptionInitial); ([typeFinished; 0; 0; 0], EncryptionHandshake)].
Definition sample_server_tls : tls_prog := server_tls no_parameters sample_suite [[2; 0; 0; 0]] [[8; 0; 0; 0]; [20; 0; 0; 0]] 0 [1] [2] [3] [4].

Lemma sample_performs : Forall (expected PerspectiveServer) client_flight
  /\ exists n, performs n EncryptionInitial EncryptionInitial sample_server_tls (session_events PerspectiveServer client_flight).
Proof.
  apply (server_performs no_parameters sample_suite [[2; 0; 0; 0]] [[8; 0; 0; 0]; [20; 0; 0; 0]] [1] [2] [3] [4]
    [typeClientHello; 0; 0; 0] [] [typeFinished; 0; 0; 0] sample_suite_ok).
  - exists typeClientHello, [0; 0; 0]. split; [done | by left].
  - constructor.
  - exists typeFinished, [0; 0; 0]. split; [done | by left].
Qed.

Definition is_completed (s : system) : bool :=
  match sy_session s, sy_todo s, sy_tls s, sy_run s with
  | Idle, [], TlsExited, RunReturned None => true
  | _, _, _, _ => false
  end.

Lemma is_completed_spec s : is_completed s = true -> completed s.
Proof.
  unfold is_completed, completed. destruct (sy_session s); try done. destruct (sy_todo s); try done. destruct (sy_tls s); try done.
  destruct (sy_run s) as [| | []]; done.
Qed.

Lemma drive_completes : is_completed (drive 100 (start sample_aead PerspectiveServer sample_server_tls client_flight)) = true.
Proof. vm_compute. reflexivity. Qed.

Lemma handshake_completes_witness : exists k s, runs no_close k (start sample_aead PerspectiveServer sample_server_tls client_flight) s
  /\ completed s /\ sy_results s = [true; true] /\ (GetSealer (sy_h s)).1 = Encryption1RTT.
Proof.
  destruct sample_performs as (He & n & Hp).
  destruct (drive_runs 100 (start sample_aead PerspectiveServer sample_server_tls client_flight)) as (k & Hr).
  pose proof (is_completed_spec _ drive_completes) as Hc.
  destruct (handshake_completes sample_aead PerspectiveServer sample_server_tls client_flight n He Hp k _ Hr) as (_ & _ & _ & Hd).
  destruct (Hd Hc) as (H1 & H2 & _). eexists k, _. split; [exact Hr |]. split; [exact Hc |]. split; [exact H1 | exact H2].
Defined.


Lemma unexpected_message_panics_witness :
  exists s, runs any 2 (start sample_aead PerspectiveClient (TRead (fun _ => TReturn None)) [([1; 0; 0; 0], EncryptionInitial)]) s
    /\ sy_panic s = Some "unexpected handshake message"%string.
Proof. exact (unexpected_message_panics sample_aead PerspectiveClient _ [0; 0; 0] [] typeClientHello (or_introl eq_refl)). Defined.

Lemma message_after_error_witness :
  exists s k, runs any k (start sample_aead PerspectiveServer sample_server_tls
    [([42; 0; 0; 0], EncryptionInitial); ([1; 0; 0; 0], EncryptionInitial)]) s /\ sy_panic s = Some "send on closed channel"%string.
Proof.
  destruct (message_after_error sample_aead PerspectiveServer sample_server_tls [42; 0; 0; 0] ([1; 0; 0; 0], EncryptionInitial)
    EncryptionInitial []) as [H _]; [| reflexivity | exact H].
  exists 42, [0; 0; 0]. split; [reflexivity | discriminate].
Defined.
