(* ===== verification/Stream.v ===== *)
(** * Bidirectional streams (stream.go)

    A bidirectional stream joins a send stream and a receive stream.  Each half
    gets a streamSender of its own, through which it reports its completion; the
    session is told once both halves have completed.  In the code the halves
    share the flow controller; one half uses only its fields for sending and the
    other its fields for receiving, so each has its copy here. *)

From S2P Require Import Prelude Qerr Varint Protocol AckFrame Frames FrameCodec FrameParser FrameSorter Float.
From S2P Require Import FlowControl SendStream ReceiveStream.

Record stream : Type := mkStream {
  str_receive : receiveStream;
  str_send : sendStream;
  receiveStreamCompleted : bool;
  sendStreamCompleted : bool }.

Definition newStream (id : Z) (fc : streamFlowController) : stream :=
  mkStream (newReceiveStream id fc) (newSendStream id fc) false false.

Definition StreamID (s : stream) : Z := ss_streamID (str_send s).

(** What the session is told when a half has completed. *)
Definition checkIfCompleted (s : stream) : list sender_call :=
  if sendStreamCompleted s && receiveStreamCompleted s then [OnStreamCompleted (StreamID s)] else [].

(** uniStreamSender of the send half and of the receive half. *)
Definition send_call (s : stream) (c : sender_call) : stream * list sender_call :=
  match c with
  | OnStreamCompleted _ =>
      let s := mkStream (str_receive s) (str_send s) (receiveStreamCompleted s) true in (s, checkIfCompleted s)
  | c => (s, [c])
  end.
Definition receive_call (s : stream) (c : sender_call) : stream * list sender_call :=
  match c with
  | OnStreamCompleted _ =>
      let s := mkStream (str_receive s) (str_send s) true (sendStreamCompleted s) in (s, checkIfCompleted s)
  | c => (s, [c])
  end.

Fixpoint half_calls (half : stream -> sender_call -> stream * list sender_call) (s : stream) (calls : list sender_call)
    : stream * list sender_call :=
  match calls with
  | [] => (s, [])
  | c :: calls =>
      let '(s, out) := half s c in
      let '(s, out') := half_calls half s calls in
      (s, out ++ out')
  end.

(** An operation of one half: its new state, and what it reports. *)
Definition on_send (s : stream) (half : sendStream) (calls : list sender_call) : stream * list sender_call :=
  half_calls send_call (mkStream (str_receive s) half (receiveStreamCompleted s) (sendStreamCompleted s)) calls.
Definition on_receive (s : stream) (half : receiveStream) (calls : list sender_call) : stream * list sender_call :=
  half_calls receive_call (mkStream half (str_send s) (receiveStreamCompleted s) (sendStreamCompleted s)) calls.

Definition str_Close (s : stream) : stream * list sender_call * option go_error :=
  let '(half, calls, err) := send_Close (str_send s) in (on_send s half calls, err).

(** [None] if the call never returns. *)
Definition SetDeadline (s : stream) (t : Z) : option stream :=
  r ← SetReadDeadline (str_receive s) t;
  w ← SetWriteDeadline (str_send s) t;
  Some (mkStream r w (receiveStreamCompleted s) (sendStreamCompleted s)).

Definition str_closeForShutdown (err : go_error) (s : stream) : stream :=
  mkStream (receive_closeForShutdown (str_receive s) err) (send_closeForShutdown (str_send s) err)
    (receiveStreamCompleted s) (sendStreamCompleted s).

(** ** Completion *)

(** The calls of the two halves, in the order in which they occur. *)
Inductive half_call : Type := FromSend (c : sender_call) | FromReceive (c : sender_call).

Fixpoint run_halves (s : stream) (l : list half_call) : stream * list sender_call :=
  match l with
  | [] => (s, [])
  | c :: l =>
      let '(s, out) := match c with FromSend c => send_call s c | FromReceive c => receive_call s c end in
      let '(s, out') := run_halves s l in
      (s, out ++ out')
  end.

Definition completes (c : sender_call) : bool := match c with OnStreamCompleted _ => true | _ => false end.
Definition completions (out : list sender_call) : nat := length (List.filter completes out).
Definition send_completions (l : list half_call) : nat :=
  length (List.filter (fun c => match c with FromSend c => completes c | FromReceive _ => false end) l).
Definition receive_completions (l : list half_call) : nat :=
  length (List.filter (fun c => match c with FromReceive c => completes c | FromSend _ => false end) l).
(** The other calls. *)
Definition passed (out : list sender_call) : list sender_call := List.filter (fun c => negb (completes c)) out.
Definition call_of (c : half_call) : sender_call := match c with FromSend c | FromReceive c => c end.

Definition flag (b : bool) : nat := if b then 1%nat else 0%nat.

(** How often the session is told: not at all while a half is missing, and once
    if each half reports once; all other calls are passed on. *)
Lemma run_halves_completions l : forall s,
  (send_completions l + flag (sendStreamCompleted s) <= 1)%nat ->
  (receive_completions l + flag (receiveStreamCompleted s) <= 1)%nat ->
  let '(s', out) := run_halves s l in
  completions out = (flag (sendStreamCompleted s' && receiveStreamCompleted s')
                     - flag (sendStreamCompleted s && receiveStreamCompleted s))%nat
  /\ flag (sendStreamCompleted s') = (send_completions l + flag (sendStreamCompleted s))%nat
  /\ flag (receiveStreamCompleted s') = (receive_completions l + flag (receiveStreamCompleted s))%nat
  /\ passed out = passed (call_of <$> l).
Proof.
  unfold completions, send_completions, receive_completions, passed.
  induction l as [| c l IH]; intros s Hs Hr; [cbn; split_and!; try done; lia |].
  destruct s as [rs ss rc sc]. cbn [run_halves]. cbn [sendStreamCompleted receiveStreamCompleted] in *.
  destruct c as [c | c], c as [f | id | id]; cbn [send_call receive_call]; cbn in Hs, Hr;
    match goal with |- context [run_halves ?t ?u] => specialize (IH t) end; cbn in IH.
  all: destruct rc, sc; cbn in *; try lia.
  all: specialize (IH ltac:(lia) ltac:(lia)); match goal with |- context [run_halves ?t ?u] => destruct (run_halves t u) as [s' out] end.
  all: destruct IH as (H1 & H2 & H3 & H4); cbn; rewrite ?H1, ?H2, ?H3, ?H4; split_and!; try done; try lia.
  all: destruct (sendStreamCompleted s'), (receiveStreamCompleted s'); cbn in *; lia.
Qed.

(** The session is told exactly when both halves have completed, provided that
    no half reports its completion twice. *)
Theorem stream_completed_once id fc l :
  (send_completions l <= 1)%nat -> (receive_completions l <= 1)%nat ->
  let '(s, out) := run_halves (newStream id fc) l in
  completions out = flag (sendStreamCompleted s && receiveStreamCompleted s)
  /\ (sendStreamCompleted s = true <-> send_completions l = 1%nat)
  /\ (receiveStreamCompleted s = true <-> receive_completions l = 1%nat)
  /\ passed out = passed (call_of <$> l).
Proof.
  intros Hs Hr. pose proof (run_halves_completions l (newStream id fc)) as H. cbn in H.
  specialize (H ltac:(lia) ltac:(lia)). destruct (run_halves _ l) as [s out]. destruct H as (H1 & H2 & H3 & H4).
  destruct (sendStreamCompleted s), (receiveStreamCompleted s); cbn in *; split_and!; try done; try lia; split; try done; lia.
Qed.
