(* ===== verification/Session.v ===== *)
(** * Sessions (session.go)

    A session ties the components together: it opens the packets it receives and
    hands their frames to the streams, the packet handlers and the scheduler; it
    sends what the packer makes of the frames that are due; and it closes.  The
    components are those of the other files; the TLS stack is a parameter (class
    [CryptoSetup]).  The crypto streams live in the packer, the RTT statistics in
    the sent-packet handler.

    A call that fails keeps its changes of the state ([Failed]).  Where a component
    returns an error, its state is taken to be the one before the call: the
    connection is closed then, and what is sent last does not depend on it. *)

From S2P Require Import Prelude Qerr Varint Protocol AckFrame Frames FrameCodec FrameParser FrameSorter Float RTTStats.
From S2P Require Import FlowControl ReceivedPackets Congestion SentHistory PacketNumbers SentPackets StreamsMap Header.
From S2P Require Import SendStream ReceiveStream CryptoStream Framer Packer Receiving Scheduler TransportParams Endpoints Stream.

Definition MaxUndecryptablePackets : Z := 10.
Definition MaxSessionUnprocessedPackets : Z := defaultMaxCongestionWindowPackets.

(** What a session uses of the handshake and the AEADs. *)
Class CryptoSetup (T : Type) : Type := {
  ct_HandleMessage : T -> list Z -> EncryptionLevel -> outcome (bool * T);
  ct_GetSealer : T -> EncryptionLevel * Sealer;
  ct_GetSealerWithEncryptionLevel : T -> EncryptionLevel -> outcome Sealer;
  ct_Open : T -> EncryptionLevel -> list Z -> Z -> list Z -> outcome (list Z) }.

Record receivedPacket : Type := mkReceivedPacket {
  rp_header : Header;
  rp_data : list Z;
  rp_rcvTime : Z }.

Record closeError : Type := mkCloseError {
  ce_err : option go_error;
  ce_remote : bool;
  ce_sendClose : bool }.

(** The clock and the random numbers for packet numbers; for each call of [Write]
    of the connection, the choices of the scheduler and the error of the socket;
    the orders in which maps are walked through; and the address at which the next
    object is allocated. *)
Record environment : Type := mkEnvironment {
  e_now : Z;
  e_numbers : list Z;
  e_writes : list (list (list Z * Z) * option go_error);
  e_order : list Z;
  e_updates : gset Z -> list Z;
  e_pointer : Z }.

(** What a session does to the rest of the program. *)
Inductive output : Type :=
  | Datagram (data : list Z) (path : Socket * Addr)
  | AddedConn (c : list Socket)
  | HandshakeCompleted
  | RemovedConnectionID (id : list Z).

Section Session.
Context {Net : NetLib} {Ewma : EWMA} (ListenUDP : UDPAddr -> outcome Socket).
Context {C : Type} {SA : SendAlgorithm C} {T : Type} {CT : CryptoSetup T}.
(** The text of an error. *)
Context (error_text : error_msg -> list Z).

Record session : Type := mkSession {
  s_destConnID : list Z;
  s_srcConnID : list Z;
  s_perspective : Perspective;
  s_version : Z;
  s_config : Config;
  s_conn : SchedulerImplementation;
  s_streams : streamsMap stream sendStream receiveStream;
  s_sent : sentPacketHandler (C := C);
  s_received : receivedPacketHandler;
  s_framer : framerI;
  s_windowUpdateQueue : windowUpdateQueue;
  s_connFC : baseFlowController;
  s_packer : packetPacker;
  s_crypto : T;
  s_receivedPackets : list receivedPacket;
  s_sendingScheduled : bool;
  s_closeChan : option closeError;
  s_closeOnce : bool;
  s_undecryptable : list receivedPacket;
  s_handshakeCompleteChan : bool;
  s_handshakeComplete : bool;
  s_receivedFirstPacket : bool;
  s_receivedFirstForwardSecurePacket : bool;
  s_lastRcvd : Z;
  s_largestRcvd : Z;
  s_creationTime : Z;
  s_lastActivity : Z;
  s_pacingDeadline : Z;
  s_peerParams : option TransportParameters;
  s_keepAlivePingSent : bool;
  s_calls : list sender_call;
  s_env : environment;
  s_out : list output }.

Definition set_s_destConnID (s : session) (x : list Z) : session :=
  mkSession x (s_srcConnID s) (s_perspective s) (s_version s) (s_config s) (s_conn s)
    (s_streams s) (s_sent s) (s_received s) (s_framer s) (s_windowUpdateQueue s) (s_connFC s)
    (s_packer s) (s_crypto s) (s_receivedPackets s) (s_sendingScheduled s) (s_closeChan s)
    (s_closeOnce s) (s_undecryptable s) (s_handshakeCompleteChan s) (s_handshakeComplete s)
    (s_receivedFirstPacket s) (s_receivedFirstForwardSecurePacket s) (s_lastRcvd s)
    (s_largestRcvd s) (s_creationTime s) (s_lastActivity s) (s_pacingDeadline s) (s_peerParams s)
    (s_keepAlivePingSent s) (s_calls s) (s_env s) (s_out s).
Definition set_s_srcConnID (s : session) (x : list Z) : session :=
  mkSession (s_destConnID s) x (s_perspective s) (s_version s) (s_config s) (s_conn s)
    (s_streams s) (s_sent s) (s_received s) (s_framer s) (s_windowUpdateQueue s) (s_connFC s)
    (s_packer s) (s_crypto s) (s_receivedPackets s) (s_sendingScheduled s) (s_closeChan s)
    (s_closeOnce s) (s_undecryptable s) (s_handshakeCompleteChan s) (s_handshakeComplete s)
    (s_receivedFirstPacket s) (s_receivedFirstForwardSecurePacket s) (s_lastRcvd s)
    (s_largestRcvd s) (s_creationTime s) (s_lastActivity s) (s_pacingDeadline s) (s_peerParams s)
    (s_keepAlivePingSent s) (s_calls s) (s_env s) (s_out s).
Definition set_s_perspective (s : session) (x : Perspective) : session :=
  mkSession (s_destConnID s) (s_srcConnID s) x (s_version s) (s_config s) (s_conn s) (s_streams s)
    (s_sent s) (s_received s) (s_framer s) (s_windowUpdateQueue s) (s_connFC s) (s_packer s)
    (s_crypto s) (s_receivedPackets s) (s_sendingScheduled s) (s_closeChan s) (s_closeOnce s)
    (s_undecryptable s) (s_handshakeCompleteChan s) (s_handshakeComplete s)
    (s_receivedFirstPacket s) (s_receivedFirstForwardSecurePacket s) (s_lastRcvd s)
    (s_largestRcvd s) (s_creationTime s) (s_lastActivity s) (s_pacingDeadline s) (s_peerParams s)
    (s_keepAlivePingSent s) (s_calls s) (s_env s) (s_out s).
Definition set_s_version (s : session) (x : Z) : session :=
  mkSession (s_destConnID s) (s_srcConnID s) (s_perspective s) x (s_config s) (s_conn s)
    (s_streams s) (s_sent s) (s_received s) (s_framer s) (s_windowUpdateQueue s) (s_connFC s)
    (s_packer s) (s_crypto s) (s_receivedPackets s) (s_sendingScheduled s) (s_closeChan s)
    (s_closeOnce s) (s_undecryptable s) (s_handshakeCompleteChan s) (s_handshakeComplete s)
    (s_receivedFirstPacket s) (s_receivedFirstForwardSecurePacket s) (s_lastRcvd s)
    (s_largestRcvd s) (s_creationTime s) (s_lastActivity s) (s_pacingDeadline s) (s_peerParams s)
    (s_keepAlivePingSent s) (s_calls s) (s_env s) (s_out s).
Definition set_s_config (s : session) (x : Config) : session :=
  mkSession (s_destConnID s) (s_srcConnID s) (s_perspective s) (s_version s) x (s_conn s)
    (s_streams s) (s_sent s) (s_received s) (s_framer s) (s_windowUpdateQueue s) (s_connFC s)
    (s_packer s) (s_crypto s) (s_receivedPackets s) (s_sendingScheduled s) (s_closeChan s)
    (s_closeOnce s) (s_undecryptable s) (s_handshakeCompleteChan s) (s_handshakeComplete s)
    (s_receivedFirstPacket s) (s_receivedFirstForwardSecurePacket s) (s_lastRcvd s)
    (s_largestRcvd s) (s_creationTime s) (s_lastActivity s) (s_pacingDeadline s) (s_peerParams s)
    (s_keepAlivePingSent s) (s_calls s) (s_env s) (s_out s).
Definition set_s_conn (s : session) (x : SchedulerImplementation) : session :=
  mkSession (s_destConnID s) (s_srcConnID s) (s_perspective s) (s_version s) (s_config s) x
    (s_streams s) (s_sent s) (s_received s) (s_framer s) (s_windowUpdateQueue s) (s_connFC s)
    (s_packer s) (s_crypto s) (s_receivedPackets s) (s_sendingScheduled s) (s_closeChan s)
    (s_closeOnce s) (s_undecryptable s) (s_handshakeCompleteChan s) (s_handshakeComplete s)
    (s_receivedFirstPacket s) (s_receivedFirstForwardSecurePacket s) (s_lastRcvd s)
    (s_largestRcvd s) (s_creationTime s) (s_lastActivity s) (s_pacingDeadline s) (s_peerParams s)
    (s_keepAlivePingSent s) (s_calls s) (s_env s) (s_out s).
Definition set_s_streams (s : session) (x : streamsMap stream sendStream receiveStream) : session :=
  mkSession (s_destConnID s) (s_srcConnID s) (s_perspective s) (s_version s) (s_config s)
    (s_conn s) x (s_sent s) (s_received s) (s_framer s) (s_windowUpdateQueue s) (s_connFC s)
    (s_packer s) (s_crypto s) (s_receivedPackets s) (s_sendingScheduled s) (s_closeChan s)
    (s_closeOnce s) (s_undecryptable s) (s_handshakeCompleteChan s) (s_handshakeComplete s)
    (s_receivedFirstPacket s) (s_receivedFirstForwardSecurePacket s) (s_lastRcvd s)
    (s_largestRcvd s) (s_creationTime s) (s_lastActivity s) (s_pacingDeadline s) (s_peerParams s)
    (s_keepAlivePingSent s) (s_calls s) (s_env s) (s_out s).
Definition set_s_sent (s : session) (x : sentPacketHandler (C := C)) : session :=
  mkSession (s_destConnID s) (s_srcConnID s) (s_perspective s) (s_version s) (s_config s)
    (s_conn s) (s_streams s) x (s_received s) (s_framer s) (s_windowUpdateQueue s) (s_connFC s)
    (s_packer s) (s_crypto s) (s_receivedPackets s) (s_sendingScheduled s) (s_closeChan s)
    (s_closeOnce s) (s_undecryptable s) (s_handshakeCompleteChan s) (s_handshakeComplete s)
    (s_receivedFirstPacket s) (s_receivedFirstForwardSecurePacket s) (s_lastRcvd s)
    (s_largestRcvd s) (s_creationTime s) (s_lastActivity s) (s_pacingDeadline s) (s_peerParams s)
    (s_keepAlivePingSent s) (s_calls s) (s_env s) (s_out s).
Definition set_s_received (s : session) (x : receivedPacketHandler) : session :=
  mkSession (s_destConnID s) (s_srcConnID s) (s_perspective s) (s_version s) (s_config s)
    (s_conn s) (s_streams s) (s_sent s) x (s_framer s) (s_windowUpdateQueue s) (s_connFC s)
    (s_packer s) (s_crypto s) (s_receivedPackets s) (s_sendingScheduled s) (s_closeChan s)
    (s_closeOnce s) (s_undecryptable s) (s_handshakeCompleteChan s) (s_handshakeComplete s)
    (s_receivedFirstPacket s) (s_receivedFirstForwardSecurePacket s) (s_lastRcvd s)
    (s_largestRcvd s) (s_creationTime s) (s_lastActivity s) (s_pacingDeadline s) (s_peerParams s)
    (s_keepAlivePingSent s) (s_calls s) (s_env s) (s_out s).
Definition set_s_framer (s : session) (x : framerI) : session :=
  mkSession (s_destConnID s) (s_srcConnID s) (s_perspective s) (s_version s) (s_config s)
    (s_conn s) (s_streams s) (s_sent s) (s_received s) x (s_windowUpdateQueue s) (s_connFC s)
    (s_packer s) (s_crypto s) (s_receivedPackets s) (s_sendingScheduled s) (s_closeChan s)
    (s_closeOnce s) (s_undecryptable s) (s_handshakeCompleteChan s) (s_handshakeComplete s)
    (s_receivedFirstPacket s) (s_receivedFirstForwardSecurePacket s) (s_lastRcvd s)
    (s_largestRcvd s) (s_creationTime s) (s_lastActivity s) (s_pacingDeadline s) (s_peerParams s)
    (s_keepAlivePingSent s) (s_calls s) (s_env s) (s_out s).
Definition set_s_windowUpdateQueue (s : session) (x : windowUpdateQueue) : session :=
  mkSession (s_destConnID s) (s_srcConnID s) (s_perspective s) (s_version s) (s_config s)
    (s_conn s) (s_streams s) (s_sent s) (s_received s) (s_framer s) x (s_connFC s) (s_packer s)
    (s_crypto s) (s_receivedPackets s) (s_sendingScheduled s) (s_closeChan s) (s_closeOnce s)
    (s_undecryptable s) (s_handshakeCompleteChan s) (s_handshakeComplete s)
    (s_receivedFirstPacket s) (s_receivedFirstForwardSecurePacket s) (s_lastRcvd s)
    (s_largestRcvd s) (s_creationTime s) (s_lastActivity s) (s_pacingDeadline s) (s_peerParams s)
    (s_keepAlivePingSent s) (s_calls s) (s_env s) (s_out s).
Definition set_s_connFC (s : session) (x : baseFlowController) : session :=
  mkSession (s_destConnID s) (s_srcConnID s) (s_perspective s) (s_version s) (s_config s)
    (s_conn s) (s_streams s) (s_sent s) (s_received s) (s_framer s) (s_windowUpdateQueue s) x
    (s_packer s) (s_crypto s) (s_receivedPackets s) (s_sendingScheduled s) (s_closeChan s)
    (s_closeOnce s) (s_undecryptable s) (s_handshakeCompleteChan s) (s_handshakeComplete s)
    (s_receivedFirstPacket s) (s_receivedFirstForwardSecurePacket s) (s_lastRcvd s)
    (s_largestRcvd s) (s_creationTime s) (s_lastActivity s) (s_pacingDeadline s) (s_peerParams s)
    (s_keepAlivePingSent s) (s_calls s) (s_env s) (s_out s).
Definition set_s_packer (s : session) (x : packetPacker) : session :=
  mkSession (s_destConnID s) (s_srcConnID s) (s_perspective s) (s_version s) (s_config s)
    (s_conn s) (s_streams s) (s_sent s) (s_received s) (s_framer s) (s_windowUpdateQueue s)
    (s_connFC s) x (s_crypto s) (s_receivedPackets s) (s_sendingScheduled s) (s_closeChan s)
    (s_closeOnce s) (s_undecryptable s) (s_handshakeCompleteChan s) (s_handshakeComplete s)
    (s_receivedFirstPacket s) (s_receivedFirstForwardSecurePacket s) (s_lastRcvd s)
    (s_largestRcvd s) (s_creationTime s) (s_lastActivity s) (s_pacingDeadline s) (s_peerParams s)
    (s_keepAlivePingSent s) (s_calls s) (s_env s) (s_out s).
Definition set_s_crypto (s : session) (x : T) : session :=
  mkSession (s_destConnID s) (s_srcConnID s) (s_perspective s) (s_version s) (s_config s)
    (s_conn s) (s_streams s) (s_sent s) (s_received s) (s_framer s) (s_windowUpdateQueue s)
    (s_connFC s) (s_packer s) x (s_receivedPackets s) (s_sendingScheduled s) (s_closeChan s)
    (s_closeOnce s) (s_undecryptable s) (s_handshakeCompleteChan s) (s_handshakeComplete s)
    (s_receivedFirstPacket s) (s_receivedFirstForwardSecurePacket s) (s_lastRcvd s)
    (s_largestRcvd s) (s_creationTime s) (s_lastActivity s) (s_pacingDeadline s) (s_peerParams s)
    (s_keepAlivePingSent s) (s_calls s) (s_env s) (s_out s).
Definition set_s_receivedPackets (s : session) (x : list receivedPacket) : session :=
  mkSession (s_destConnID s) (s_srcConnID s) (s_perspective s) (s_version s) (s_config s)
    (s_conn s) (s_streams s) (s_sent s) (s_received s) (s_framer s) (s_windowUpdateQueue s)
    (s_connFC s) (s_packer s) (s_crypto s) x (s_sendingScheduled s) (s_closeChan s)
    (s_closeOnce s) (s_undecryptable s) (s_handshakeCompleteChan s) (s_handshakeComplete s)
    (s_receivedFirstPacket s) (s_receivedFirstForwardSecurePacket s) (s_lastRcvd s)
    (s_largestRcvd s) (s_creationTime s) (s_lastActivity s) (s_pacingDeadline s) (s_peerParams s)
    (s_keepAlivePingSent s) (s_calls s) (s_env s) (s_out s).
Definition set_s_sendingScheduled (s : session) (x : bool) : session :=
  mkSession (s_destConnID s) (s_srcConnID s) (s_perspective s) (s_version s) (s_config s)
    (s_conn s) (s_streams s) (s_sent s) (s_received s) (s_framer s) (s_windowUpdateQueue s)
    (s_connFC s) (s_packer s) (s_crypto s) (s_receivedPackets s) x (s_closeChan s) (s_closeOnce s)
    (s_undecryptable s) (s_handshakeCompleteChan s) (s_handshakeComplete s)
    (s_receivedFirstPacket s) (s_receivedFirstForwardSecurePacket s) (s_lastRcvd s)
    (s_largestRcvd s) (s_creationTime s) (s_lastActivity s) (s_pacingDeadline s) (s_peerParams s)
    (s_keepAlivePingSent s) (s_calls s) (s_env s) (s_out s).
Definition set_s_closeChan (s : session) (x : option closeError) : session :=
  mkSession (s_destConnID s) (s_srcConnID s) (s_perspective s) (s_version s) (s_config s)
    (s_conn s) (s_streams s) (s_sent s) (s_received s) (s_framer s) (s_windowUpdateQueue s)
    (s_connFC s) (s_packer s) (s_crypto s) (s_receivedPackets s) (s_sendingScheduled s) x
    (s_closeOnce s) (s_undecryptable s) (s_handshakeCompleteChan s) (s_handshakeComplete s)
    (s_receivedFirstPacket s) (s_receivedFirstForwardSecurePacket s) (s_lastRcvd s)
    (s_largestRcvd s) (s_creationTime s) (s_lastActivity s) (s_pacingDeadline s) (s_peerParams s)
    (s_keepAlivePingSent s) (s_calls s) (s_env s) (s_out s).
Definition set_s_closeOnce (s : session) (x : bool) : session :=
  mkSession (s_destConnID s) (s_srcConnID s) (s_perspective s) (s_version s) (s_config s)
    (s_conn s) (s_streams s) (s_sent s) (s_received s) (s_framer s) (s_windowUpdateQueue s)
    (s_connFC s) (s_packer s) (s_crypto s) (s_receivedPackets s) (s_sendingScheduled s)
    (s_closeChan s) x (s_undecryptable s) (s_handshakeCompleteChan s) (s_handshakeComplete s)
    (s_receivedFirstPacket s) (s_receivedFirstForwardSecurePacket s) (s_lastRcvd s)
    (s_largestRcvd s) (s_creationTime s) (s_lastActivity s) (s_pacingDeadline s) (s_peerParams s)
    (s_keepAlivePingSent s) (s_calls s) (s_env s) (s_out s).
Definition set_s_undecryptable (s : session) (x : list receivedPacket) : session :=
  mkSession (s_destConnID s) (s_srcConnID s) (s_perspective s) (s_version s) (s_config s)
    (s_conn s) (s_streams s) (s_sent s) (s_received s) (s_framer s) (s_windowUpdateQueue s)
    (s_connFC s) (s_packer s) (s_crypto s) (s_receivedPackets s) (s_sendingScheduled s)
    (s_closeChan s) (s_closeOnce s) x (s_handshakeCompleteChan s) (s_handshakeComplete s)
    (s_receivedFirstPacket s) (s_receivedFirstForwardSecurePacket s) (s_lastRcvd s)
    (s_largestRcvd s) (s_creationTime s) (s_lastActivity s) (s_pacingDeadline s) (s_peerParams s)
    (s_keepAlivePingSent s) (s_calls s) (s_env s) (s_out s).
Definition set_s_handshakeCompleteChan (s : session) (x : bool) : session :=
  mkSession (s_destConnID s) (s_srcConnID s) (s_perspective s) (s_version s) (s_config s)
    (s_conn s) (s_streams s) (s_sent s) (s_received s) (s_framer s) (s_windowUpdateQueue s)
    (s_connFC s) (s_packer s) (s_crypto s) (s_receivedPackets s) (s_sendingScheduled s)
    (s_closeChan s) (s_closeOnce s) (s_undecryptable s) x (s_handshakeComplete s)
    (s_receivedFirstPacket s) (s_receivedFirstForwardSecurePacket s) (s_lastRcvd s)
    (s_largestRcvd s) (s_creationTime s) (s_lastActivity s) (s_pacingDeadline s) (s_peerParams s)
    (s_keepAlivePingSent s) (s_calls s) (s_env s) (s_out s).
Definition set_s_handshakeComplete (s : session) (x : bool) : session :=
  mkSession (s_destConnID s) (s_srcConnID s) (s_perspective s) (s_version s) (s_config s)
    (s_conn s) (s_streams s) (s_sent s) (s_received s) (s_framer s) (s_windowUpdateQueue s)
    (s_connFC s) (s_packer s) (s_crypto s) (s_receivedPackets s) (s_sendingScheduled s)
    (s_closeChan s) (s_closeOnce s) (s_undecryptable s) (s_handshakeCompleteChan s) x
    (s_receivedFirstPacket s) (s_receivedFirstForwardSecurePacket s) (s_lastRcvd s)
    (s_largestRcvd s) (s_creationTime s) (s_lastActivity s) (s_pacingDeadline s) (s_peerParams s)
    (s_keepAlivePingSent s) (s_calls s) (s_env s) (s_out s).
Definition set_s_receivedFirstPacket (s : session) (x : bool) : session :=
  mkSession (s_destConnID s) (s_srcConnID s) (s_perspective s) (s_version s) (s_config s)
    (s_conn s) (s_streams s) (s_sent s) (s_received s) (s_framer s) (s_windowUpdateQueue s)
    (s_connFC s) (s_packer s) (s_crypto s) (s_receivedPackets s) (s_sendingScheduled s)
    (s_closeChan s) (s_closeOnce s) (s_undecryptable s) (s_handshakeCompleteChan s)
    (s_handshakeComplete s) x (s_receivedFirstForwardSecurePacket s) (s_lastRcvd s)
    (s_largestRcvd s) (s_creationTime s) (s_lastActivity s) (s_pacingDeadline s) (s_peerParams s)
    (s_keepAlivePingSent s) (s_calls s) (s_env s) (s_out s).
Definition set_s_receivedFirstForwardSecurePacket (s : session) (x : bool) : session :=
  mkSession (s_destConnID s) (s_srcConnID s) (s_perspective s) (s_version s) (s_config s)
    (s_conn s) (s_streams s) (s_sent s) (s_received s) (s_framer s) (s_windowUpdateQueue s)
    (s_connFC s) (s_packer s) (s_crypto s) (s_receivedPackets s) (s_sendingScheduled s)
    (s_closeChan s) (s_closeOnce s) (s_undecryptable s) (s_handshakeCompleteChan s)
    (s_handshakeComplete s) (s_receivedFirstPacket s) x (s_lastRcvd s) (s_largestRcvd s)
    (s_creationTime s) (s_lastActivity s) (s_pacingDeadline s) (s_peerParams s)
    (s_keepAlivePingSent s) (s_calls s) (s_env s) (s_out s).
Definition set_s_lastRcvd (s : session) (x : Z) : session :=
  mkSession (s_destConnID s) (s_srcConnID s) (s_perspective s) (s_version s) (s_config s)
    (s_conn s) (s_streams s) (s_sent s) (s_received s) (s_framer s) (s_windowUpdateQueue s)
    (s_connFC s) (s_packer s) (s_crypto s) (s_receivedPackets s) (s_sendingScheduled s)
    (s_closeChan s) (s_closeOnce s) (s_undecryptable s) (s_handshakeCompleteChan s)
    (s_handshakeComplete s) (s_receivedFirstPacket s) (s_receivedFirstForwardSecurePacket s) x
    (s_largestRcvd s) (s_creationTime s) (s_lastActivity s) (s_pacingDeadline s) (s_peerParams s)
    (s_keepAlivePingSent s) (s_calls s) (s_env s) (s_out s).
Definition set_s_largestRcvd (s : session) (x : Z) : session :=
  mkSession (s_destConnID s) (s_srcConnID s) (s_perspective s) (s_version s) (s_config s)
    (s_conn s) (s_streams s) (s_sent s) (s_received s) (s_framer s) (s_windowUpdateQueue s)
    (s_connFC s) (s_packer s) (s_crypto s) (s_receivedPackets s) (s_sendingScheduled s)
    (s_closeChan s) (s_closeOnce s) (s_undecryptable s) (s_handshakeCompleteChan s)
    (s_handshakeComplete s) (s_receivedFirstPacket s) (s_receivedFirstForwardSecurePacket s)
    (s_lastRcvd s) x (s_creationTime s) (s_lastActivity s) (s_pacingDeadline s) (s_peerParams s)
    (s_keepAlivePingSent s) (s_calls s) (s_env s) (s_out s).
Definition set_s_creationTime (s : session) (x : Z) : session :=
  mkSession (s_destConnID s) (s_srcConnID s) (s_perspective s) (s_version s) (s_config s)
    (s_conn s) (s_streams s) (s_sent s) (s_received s) (s_framer s) (s_windowUpdateQueue s)
    (s_connFC s) (s_packer s) (s_crypto s) (s_receivedPackets s) (s_sendingScheduled s)
    (s_closeChan s) (s_closeOnce s) (s_undecryptable s) (s_handshakeCompleteChan s)
    (s_handshakeComplete s) (s_receivedFirstPacket s) (s_receivedFirstForwardSecurePacket s)
    (s_lastRcvd s) (s_largestRcvd s) x (s_lastActivity s) (s_pacingDeadline s) (s_peerParams s)
    (s_keepAlivePingSent s) (s_calls s) (s_env s) (s_out s).
Definition set_s_lastActivity (s : session) (x : Z) : session :=
  mkSession (s_destConnID s) (s_srcConnID s) (s_perspective s) (s_version s) (s_config s)
    (s_conn s) (s_streams s) (s_sent s) (s_received s) (s_framer s) (s_windowUpdateQueue s)
    (s_connFC s) (s_packer s) (s_crypto s) (s_receivedPackets s) (s_sendingScheduled s)
    (s_closeChan s) (s_closeOnce s) (s_undecryptable s) (s_handshakeCompleteChan s)
    (s_handshakeComplete s) (s_receivedFirstPacket s) (s_receivedFirstForwardSecurePacket s)
    (s_lastRcvd s) (s_largestRcvd s) (s_creationTime s) x (s_pacingDeadline s) (s_peerParams s)
    (s_keepAlivePingSent s) (s_calls s) (s_env s) (s_out s).
Definition set_s_pacingDeadline (s : session) (x : Z) : session :=
  mkSession (s_destConnID s) (s_srcConnID s) (s_perspective s) (s_version s) (s_config s)
    (s_conn s) (s_streams s) (s_sent s) (s_received s) (s_framer s) (s_windowUpdateQueue s)
    (s_connFC s) (s_packer s) (s_crypto s) (s_receivedPackets s) (s_sendingScheduled s)
    (s_closeChan s) (s_closeOnce s) (s_undecryptable s) (s_handshakeCompleteChan s)
    (s_handshakeComplete s) (s_receivedFirstPacket s) (s_receivedFirstForwardSecurePacket s)
    (s_lastRcvd s) (s_largestRcvd s) (s_creationTime s) (s_lastActivity s) x (s_peerParams s)
    (s_keepAlivePingSent s) (s_calls s) (s_env s) (s_out s).
Definition set_s_peerParams (s : session) (x : option TransportParameters) : session :=
  mkSession (s_destConnID s) (s_srcConnID s) (s_perspective s) (s_version s) (s_config s)
    (s_conn s) (s_streams s) (s_sent s) (s_received s) (s_framer s) (s_windowUpdateQueue s)
    (s_connFC s) (s_packer s) (s_crypto s) (s_receivedPackets s) (s_sendingScheduled s)
    (s_closeChan s) (s_closeOnce s) (s_undecryptable s) (s_handshakeCompleteChan s)
    (s_handshakeComplete s) (s_receivedFirstPacket s) (s_receivedFirstForwardSecurePacket s)
    (s_lastRcvd s) (s_largestRcvd s) (s_creationTime s) (s_lastActivity s) (s_pacingDeadline s) x
    (s_keepAlivePingSent s) (s_calls s) (s_env s) (s_out s).
Definition set_s_keepAlivePingSent (s : session) (x : bool) : session :=
  mkSession (s_destConnID s) (s_srcConnID s) (s_perspective s) (s_version s) (s_config s)
    (s_conn s) (s_streams s) (s_sent s) (s_received s) (s_framer s) (s_windowUpdateQueue s)
    (s_connFC s) (s_packer s) (s_crypto s) (s_receivedPackets s) (s_sendingScheduled s)
    (s_closeChan s) (s_closeOnce s) (s_undecryptable s) (s_handshakeCompleteChan s)
    (s_handshakeComplete s) (s_receivedFirstPacket s) (s_receivedFirstForwardSecurePacket s)
    (s_lastRcvd s) (s_largestRcvd s) (s_creationTime s) (s_lastActivity s) (s_pacingDeadline s)
    (s_peerParams s) x (s_calls s) (s_env s) (s_out s).
Definition set_s_calls (s : session) (x : list sender_call) : session :=
  mkSession (s_destConnID s) (s_srcConnID s) (s_perspective s) (s_version s) (s_config s)
    (s_conn s) (s_streams s) (s_sent s) (s_received s) (s_framer s) (s_windowUpdateQueue s)
    (s_connFC s) (s_packer s) (s_crypto s) (s_receivedPackets s) (s_sendingScheduled s)
    (s_closeChan s) (s_closeOnce s) (s_undecryptable s) (s_handshakeCompleteChan s)
    (s_handshakeComplete s) (s_receivedFirstPacket s) (s_receivedFirstForwardSecurePacket s)
    (s_lastRcvd s) (s_largestRcvd s) (s_creationTime s) (s_lastActivity s) (s_pacingDeadline s)
    (s_peerParams s) (s_keepAlivePingSent s) x (s_env s) (s_out s).
Definition set_s_env (s : session) (x : environment) : session :=
  mkSession (s_destConnID s) (s_srcConnID s) (s_perspective s) (s_version s) (s_config s)
    (s_conn s) (s_streams s) (s_sent s) (s_received s) (s_framer s) (s_windowUpdateQueue s)
    (s_connFC s) (s_packer s) (s_crypto s) (s_receivedPackets s) (s_sendingScheduled s)
    (s_closeChan s) (s_closeOnce s) (s_undecryptable s) (s_handshakeCompleteChan s)
    (s_handshakeComplete s) (s_receivedFirstPacket s) (s_receivedFirstForwardSecurePacket s)
    (s_lastRcvd s) (s_largestRcvd s) (s_creationTime s) (s_lastActivity s) (s_pacingDeadline s)
    (s_peerParams s) (s_keepAlivePingSent s) (s_calls s) x (s_out s).
Definition set_s_out (s : session) (x : list output) : session :=
  mkSession (s_destConnID s) (s_srcConnID s) (s_perspective s) (s_version s) (s_config s)
    (s_conn s) (s_streams s) (s_sent s) (s_received s) (s_framer s) (s_windowUpdateQueue s)
    (s_connFC s) (s_packer s) (s_crypto s) (s_receivedPackets s) (s_sendingScheduled s)
    (s_closeChan s) (s_closeOnce s) (s_undecryptable s) (s_handshakeCompleteChan s)
    (s_handshakeComplete s) (s_receivedFirstPacket s) (s_receivedFirstForwardSecurePacket s)
    (s_lastRcvd s) (s_largestRcvd s) (s_creationTime s) (s_lastActivity s) (s_pacingDeadline s)
    (s_peerParams s) (s_keepAlivePingSent s) (s_calls s) (s_env s) x.

(** ** Actions

    A value with the state, an error with the state it leaves behind, or a panic
    (also for a call that does not return). *)
Inductive result (A : Type) : Type :=
  | Done (a : A) (s : session)
  | Failed (e : go_error) (s : session)
  | Crashed (msg : string).
Arguments Done {A} a s.
Arguments Failed {A} e s.
Arguments Crashed {A} msg.

Definition action (A : Type) : Type := session -> result A.

#[export] Instance action_ret : MRet action := fun A a s => Done a s.
#[export] Instance action_bind : MBind action := fun A B f m s =>
  match m s with
  | Done a s => f a s
  | Failed e s => Failed e s
  | Crashed msg => Crashed msg
  end.

Definition modify (f : session -> session) : action unit := fun s => Done tt (f s).
Definition throw {A} (e : go_error) : action A := fun s => Failed e s.

(** A call of a component: on success its result is taken over by [f]. *)
Definition call {A B} (o : outcome A) (f : A -> B * session) : action B := fun s =>
  match o with
  | Ok a => let '(b, s) := f a in Done b s
  | Err e => Failed e s
  | Panic msg => Crashed msg
  end.

Definition error_or_unit (err : option go_error) : action unit :=
  match err with Some e => throw e | None => mret tt end.

(** ** Signals and queues *)

Definition scheduleSending (s : session) : session := set_s_sendingScheduled s true.

Definition queueControlFrame (f : Frame) (s : session) : session :=
  scheduleSending (set_s_framer s (Framer.QueueControlFrame (s_framer s) f)).

Definition onHasStreamWindowUpdate (id : Z) (s : session) : session :=
  scheduleSending (set_s_windowUpdateQueue s (AddStream (s_windowUpdateQueue s) id)).

Definition onHasConnectionWindowUpdate (s : session) : session :=
  scheduleSending (set_s_windowUpdateQueue s (AddConnection (s_windowUpdateQueue s))).

Definition onHasStreamData (id : Z) (s : session) : session :=
  scheduleSending (set_s_framer s (AddActiveStream (s_framer s) id)).

(** The channel has room for one error, and [closeOnce] lets only one in. *)
Definition close_with (e : closeError) (s : session) : session :=
  if s_closeOnce s then s else set_s_closeOnce (set_s_closeChan s (Some e)) true.
Definition closeLocal (e : option go_error) : session -> session := close_with (mkCloseError e false true).
Definition destroy (e : option go_error) : session -> session := close_with (mkCloseError e false false).
Definition closeRemote (e : go_error) : session -> session := close_with (mkCloseError (Some e) true false).

Definition onStreamCompleted (id : Z) (s : session) : result unit :=
  match sm_DeleteStream (s_streams s) id with
  | Ok (frames, m) => Done tt (foldl (fun s f => queueControlFrame f s) (set_s_streams s m) frames)
  | Err e => Done tt (closeLocal (Some e) s)
  | Panic msg => Crashed msg
  end.

(** What a stream, or a bidirectional stream, tells the session. *)
Definition sender (c : sender_call) : action unit :=
  match c with
  | SendStream.QueueControlFrame f => modify (queueControlFrame f)
  | OnHasStreamData id => modify (onHasStreamData id)
  | OnStreamCompleted id => onStreamCompleted id
  end.
Fixpoint senders (calls : list sender_call) : action unit :=
  match calls with
  | [] => mret tt
  | c :: calls => sender c;; senders calls
  end.

(** Packets are dropped when the channel is full. *)
Definition session_handlePacket (p : receivedPacket) (s : session) : session :=
  if len (s_receivedPackets s) <? MaxSessionUnprocessedPackets
  then set_s_receivedPackets s (s_receivedPackets s ++ [p]) else s.

Definition tryQueueingUndecryptablePacket (p : receivedPacket) (s : session) : session :=
  if s_handshakeComplete s then s
  else if MaxUndecryptablePackets <? len (s_undecryptable s) + 1 then s
  else set_s_undecryptable s (s_undecryptable s ++ [p]).

Definition tryDecryptingQueuedPackets (s : session) : session :=
  set_s_undecryptable (foldl (fun s p => session_handlePacket p s) s (s_undecryptable s)) [].

(** ** Streams *)

Definition newFlowController (s : session) (id : Z) : streamFlowController :=
  let initialSendWindow :=
    match s_peerParams s with
    | None => 0
    | Some p =>
        match StreamID_Type id with
        | StreamTypeUni => InitialMaxStreamDataUni p
        | StreamTypeBidi =>
            if decide (InitiatedBy id = s_perspective s) then InitialMaxStreamDataBidiLocal p
            else InitialMaxStreamDataBidiRemote p
        end
    end in
  NewStreamFlowController id InitialMaxStreamData (MaxReceiveStreamFlowControlWindow (s_config s)) initialSendWindow.

Definition session_newStream (s : session) (id : Z) : stream := Stream.newStream id (newFlowController s id).
Definition session_newSendStream (s : session) (id : Z) : sendStream := newSendStream id (newFlowController s id).
Definition session_newReceiveStream (s : session) (id : Z) : receiveStream := newReceiveStream id (newFlowController s id).

Definition get_send (s : session) (id : Z) :=
  GetOrOpenSendStream (session_newStream s) (s_streams s) id.
Definition get_receive (s : session) (id : Z) :=
  GetOrOpenReceiveStream (session_newStream s) (session_newReceiveStream s) (s_streams s) id.

(** Streams are objects: the new state of one takes the place of the old one. *)
Definition out_put {A} (m : outgoingItemsMap A) (id : Z) (x : A) : outgoingItemsMap A :=
  mkOutgoing (<[id := x]> (out_streams m)) (nextStream m) (out_maxStream m) (maxStreamSet m) (blockedSent m) (out_closeErr m).
Definition in_put {A} (m : incomingItemsMap A) (id : Z) (x : A) : incomingItemsMap A :=
  mkIncoming (<[id := x]> (in_streams m)) (nextStreamToAccept m) (nextStreamToOpen m) (in_maxStream m) (maxNumStreams m) (in_closeErr m).
Definition put_stream (m : streamsMap stream sendStream receiveStream) (id : Z) (x : stream) :=
  if decide (InitiatedBy id = perspective m) then set_outgoingBidi m (out_put (outgoingBidiStreams m) id x)
  else set_incomingBidi m (in_put (incomingBidiStreams m) id x).
Definition put_send (m : streamsMap stream sendStream receiveStream) (id : Z) (x : sendStream + stream) :=
  match x with
  | inl x => set_outgoingUni m (out_put (outgoingUniStreams m) id x)
  | inr x => put_stream m id x
  end.
Definition put_receive (m : streamsMap stream sendStream receiveStream) (id : Z) (x : receiveStream + stream) :=
  match x with
  | inl x => set_incomingUni m (in_put (incomingUniStreams m) id x)
  | inr x => put_stream m id x
  end.

(** The halves of a stream, and their calls as the session sees them. *)
Definition send_half (x : sendStream + stream) : sendStream := match x with inl x => x | inr x => str_send x end.
Definition receive_half (x : receiveStream + stream) : receiveStream := match x with inl x => x | inr x => str_receive x end.
Definition with_send_half (x : sendStream + stream) (h : sendStream) (calls : list sender_call)
    : (sendStream + stream) * list sender_call :=
  match x with
  | inl _ => (inl h, calls)
  | inr x => let '(x, calls) := on_send x h calls in (inr x, calls)
  end.
Definition with_receive_half (x : receiveStream + stream) (h : receiveStream) (calls : list sender_call)
    : (receiveStream + stream) * list sender_call :=
  match x with
  | inl _ => (inl h, calls)
  | inr x => let '(x, calls) := on_receive x h calls in (inr x, calls)
  end.

(** An operation on the send stream with the given ID, if it is still there. *)
Definition on_send_stream (id : Z) (f : sendStream -> sendStream * list sender_call) : action unit := fun s =>
  match get_send s id with
  | Panic msg => Crashed msg
  | Err e => Failed e s
  | Ok (None, m) => Done tt (set_s_streams s m)
  | Ok (Some x, m) =>
      let '(h, calls) := f (send_half x) in
      let '(x, calls) := with_send_half x h calls in
      senders calls (set_s_streams s (put_send m id x))
  end.

Definition on_receive_stream (id : Z)
    (f : receiveStream -> baseFlowController -> receiveStream * baseFlowController * list sender_call * option go_error)
    : action unit := fun s =>
  match get_receive s id with
  | Panic msg => Crashed msg
  | Err e => Failed e s
  | Ok (None, m) => Done tt (set_s_streams s m)
  | Ok (Some x, m) =>
      let '(h, conn, calls, err) := f (receive_half x) (s_connFC s) in
      let '(x, calls) := with_receive_half x h calls in
      (senders calls;; error_or_unit err) (set_s_connFC (set_s_streams s (put_receive m id x)) conn)
  end.

(** ** Frames *)

Definition handleCryptoFrame (f : CryptoFrame) (encLevel : EncryptionLevel) : action unit := fun s =>
  let p := s_packer s in
  match HandleCryptoFrame ct_HandleMessage (mkCryptoManager (p_initialStream p) (p_handshakeStream p)) (s_crypto s) f encLevel with
  | None => Crashed "out of fuel"
  | Some (Panic msg) => Crashed msg
  | Some (Err e) => Failed e s
  | Some (Ok (encLevelChanged, err, t, m)) =>
      let p := set_p_handshakeStream (set_p_initialStream p (initialStream m)) (handshakeStream m) in
      let s := set_s_crypto (set_s_packer s p) t in
      match err with
      | Some e => Failed e s
      | None => Done tt (if encLevelChanged then tryDecryptingQueuedPackets s else s)
      end
  end.

Definition session_handleStreamFrame (f : StreamFrame) (encLevel : EncryptionLevel) : action unit :=
  if bool_decide (encLevel = Encryption1RTT) then
    on_receive_stream (Stream_StreamID f) (fun h conn =>
      let '(h, conn, err) := handleStreamFrame h conn f in (h, conn, [], err))
  else throw (QuicError UnencryptedStreamData (Msg "received unencrypted stream data on stream %d" [Stream_StreamID f])).

Definition handleMaxDataFrame (f : MaxDataFrame) (s : session) : session :=
  set_s_connFC s (UpdateSendWindow (s_connFC s) (MaxData_ByteOffset f)).

Definition session_handleMaxStreamDataFrame (f : MaxStreamDataFrame) : action unit :=
  on_send_stream (MaxStreamData_StreamID f) (fun h => handleMaxStreamDataFrame h f).

Definition handleMaxStreamsFrame (f : MaxStreamsFrame) (s : session) : session :=
  set_s_streams s (HandleMaxStreamsFrame (s_streams s) f).

Definition session_handleResetStreamFrame (f : ResetStreamFrame) : action unit :=
  on_receive_stream (ResetStream_StreamID f) (fun h conn => handleResetStreamFrame h conn f).

Definition session_handleStopSendingFrame (f : StopSendingFrame) : action unit :=
  on_send_stream (StopSending_StreamID f) (fun h => handleStopSendingFrame h f).

Definition handlePathChallengeFrame (f : PathChallengeFrame) : session -> session :=
  queueControlFrame (PathResponse (mkPathResponseFrame (PathChallenge_Data f))).

Definition handleAckFrame (f : AckFrame) : action unit := fun s =>
  match ReceivedAck (s_sent s) f (s_lastRcvd s) (s_lastActivity s) with
  | Panic msg => Crashed msg
  | Err e => Failed e s
  | Ok h => Done tt (set_s_received (set_s_sent s h) (IgnoreBelow (s_received s) (lowestPacketNotConfirmedAcked h)))
  end.

(** An object for an address; [e_pointer] is where it is allocated. *)
Definition new_addr (a : UDPAddr) (s : session) : Addr * session :=
  let e := s_env s in
  (mkAddr (e_pointer e) a,
   set_s_env s (mkEnvironment (e_now e) (e_numbers e) (e_writes e) (e_order e) (e_updates e) (e_pointer e + 1))).

Definition handleAddressModificationFrame (f : AddrModFrame) : action unit := fun s =>
  if AddrMod_operation f =? 0 then
    let '(a, s) := new_addr (AddrMod_address f) s in
    Done tt (set_s_conn s (removeAddress (s_conn s) a))
  else
    match ResolveUDPAddr (UDPAddr_String (AddrMod_address f)) with
    | Panic msg => Crashed msg
    | Err e => Failed e s
    | Ok remote =>
        let '(a, s) := new_addr remote s in
        match addRemoteAddress ListenUDP (s_conn s) (e_order (s_env s)) a with
        | Panic msg => Crashed msg
        | Err e => Failed e s
        | Ok (socks, c) => Done tt (set_s_out (set_s_conn s c) (s_out s ++ [AddedConn socks]))
        end
    end.

Definition now_unix (s : session) : Z := e_now (s_env s) / 10 ^ 9.

Definition handleOneWayDelayFrame (f : OwdFrame) (s : session) : session :=
  queueControlFrame (OwdAck (NewOwdAckFrame (Owd_pathID f) (u64 (now_unix s) -64 Owd_time f))) s.

Definition handleOneWayDelayAckFrame (f : OwdAckFrame) : action unit := fun s =>
  match sched_setOwd (s_conn s) (OwdAck_pathID f) (OwdAck_owd f) with
  | Panic msg => Crashed msg
  | Err e => Failed e s
  | Ok c => Done tt (set_s_conn s c)
  end.

Definition handleFrame (encLevel : EncryptionLevel) (f : Frame) : action unit :=
  match f with
  | Crypto f => handleCryptoFrame f encLevel
  | Stream f => session_handleStreamFrame f encLevel
  | Ack f => handleAckFrame f
  | ConnectionClose f => modify (closeRemote (QuicError (ConnectionClose_ErrorCode f) (Msg "%s" (ConnectionClose_ReasonPhrase f))))
  | ResetStream f => session_handleResetStreamFrame f
  | MaxData f => modify (handleMaxDataFrame f)
  | MaxStreamData f => session_handleMaxStreamDataFrame f
  | MaxStreams f => modify (handleMaxStreamsFrame f)
  | DataBlocked _ | StreamDataBlocked _ | StreamsBlocked _ | Ping | NewToken _ => mret tt
  | StopSending f => session_handleStopSendingFrame f
  | PathChallenge f => modify (handlePathChallengeFrame f)
  | PathResponse _ => throw (Errorf "unexpected PATH_RESPONSE frame" [])
  | AddrMod f => handleAddressModificationFrame f
  | Owd f => modify (handleOneWayDelayFrame f)
  | OwdAck f => handleOneWayDelayAckFrame f
  end.

Fixpoint handleFrames (fs : list Frame) (encLevel : EncryptionLevel) : action unit :=
  match fs with
  | [] => mret tt
  | f :: fs => handleFrame encLevel f;; handleFrames fs encLevel
  end.

(** ** Receiving a packet *)

(** [handlePacketImpl] writes the inferred number into the header of the packet,
    and the time if there is none. *)
Definition infer_packet (s : session) (p : receivedPacket) : receivedPacket :=
  mkReceivedPacket (infer_number (s_largestRcvd s) (rp_header p)) (rp_data p)
    (if rp_rcvTime p =? 0 then e_now (s_env s) else rp_rcvTime p).

Definition wrong_source (s : session) (hdr : Header) : bool :=
  IsLongHeader hdr && negb (bool_decide (SrcConnectionID hdr = s_destConnID s)).

(** The server can change its connection ID with its first packet. *)
Definition switch_connID (hdr : Header) (s : session) : session :=
  if bool_decide (s_perspective s = PerspectiveClient) && negb (s_receivedFirstPacket s) && wrong_source s hdr
  then set_s_packer (set_s_destConnID s (SrcConnectionID hdr)) (ChangeDestConnectionID (s_packer s) (SrcConnectionID hdr))
  else s.

Definition note_activity (rcvTime : Z) (s : session) : session :=
  set_s_keepAlivePingSent (set_s_lastActivity (set_s_receivedFirstPacket s true) rcvTime) false.

(** A client learns from the first 1-RTT packet that the handshake is complete. *)
Definition note_forward_secure (packet : unpackedPacket) : action unit := fun s =>
  if bool_decide (s_perspective s = PerspectiveClient) && negb (s_receivedFirstForwardSecurePacket s)
     && bool_decide (up_encryptionLevel packet = Encryption1RTT)
  then call (SetHandshakeComplete (s_sent s)) (fun h => (tt, set_s_sent (set_s_receivedFirstForwardSecurePacket s true) h)) s
  else Done tt s.

Definition note_number (pn : Z) (s : session) : session :=
  set_s_largestRcvd (set_s_lastRcvd s pn) (MaxPacketNumber (s_largestRcvd s) pn).

Definition note_received (p : receivedPacket) (packet : unpackedPacket) : action unit := fun s =>
  let hdr := rp_header p in
  if Header_Type hdr =? PacketTypeRetry then Done tt s
  else match ReceivedPacket (s_received s) (minRTT (rttStats (s_sent s))) (Header_PacketNumber hdr) (rp_rcvTime p)
               (HasRetransmittableFrames (up_frames packet)) with
       | Panic msg => Crashed msg
       | Err e => Failed e s
       | Ok (h, err) => error_or_unit err (set_s_received s h)
       end.

(** The part after the packet was opened. *)
Definition handle_unpacked (p : receivedPacket) (packet : unpackedPacket) : action unit :=
  modify (switch_connID (rp_header p));;
  modify (note_activity (rp_rcvTime p));;
  note_forward_secure packet;;
  modify (note_number (Header_PacketNumber (rp_header p)));;
  note_received p packet;;
  handleFrames (up_frames packet) (up_encryptionLevel packet).

Definition session_handlePacketImpl (p : receivedPacket) : action unit := fun s =>
  if s_receivedFirstPacket s && wrong_source s (rp_header p) then Done tt s
  else
    let p := infer_packet s p in
    let hdr := rp_header p in
    match Unpack (ct_Open (s_crypto s)) (Header_Raw hdr) hdr (rp_data p) with
    | Panic msg => Crashed msg
    | Err e => Failed e s
    | Ok packet => handle_unpacked p packet s
    end.

(** ** Sending *)

#[export] Instance session_getter : StreamGetter session := {
  get_send_stream s id :=
    match get_send s id with
    | Ok (Some _, m) => (true, set_s_streams s m)
    | Ok (None, m) => (false, set_s_streams s m)
    | _ => (false, s)
    end;
  pop_stream_frame s id maxBytes :=
    r ← get_send s id;
    match r with
    | (None, _) => Panic "nil pointer dereference"
    | (Some x, m) =>
        '(frame, more, calls, h, conn) ← popStreamFrame (send_half x) (s_connFC s) maxBytes;
        let '(x, calls) := with_send_half x h calls in
        Ok (frame, more, set_s_calls (set_s_connFC (set_s_streams s (put_send m id x)) conn) (s_calls s ++ calls))
    end;
  get_window_update s id :=
    match get_receive s id with
    | Ok (Some x, m) =>
        let '(offset, h, conn) :=
          rs_getWindowUpdate (e_now (s_env s)) (smoothedRTT (rttStats (s_sent s))) (receive_half x) (s_connFC s) in
        let '(x, _) := with_receive_half x h [] in
        (Some offset, set_s_connFC (set_s_streams s (put_receive m id x)) conn)
    | Ok (None, m) => (None, set_s_streams s m)
    | _ => (None, s)
    end }.

(** The calls of the streams are carried out when their frames were taken: they
    use other parts of the framer. *)
Definition run_calls (s : session) : outcome session :=
  match senders (s_calls s) (set_s_calls s []) with
  | Done _ s => Ok s
  | Failed e _ => Err e
  | Crashed msg => Panic msg
  end.

#[export] Instance session_packer_env : PackerEnv session := {
  env_PeekPacketNumber s := PeekPacketNumber (s_sent s);
  env_PopPacketNumber s :=
    let e := s_env s in
    let '(pn, h) := PopPacketNumber (s_sent s) (hd 0 (e_numbers e)) in
    (pn, set_s_env (set_s_sent s h)
           (mkEnvironment (e_now e) (tl (e_numbers e)) (e_writes e) (e_order e) (e_updates e) (e_pointer e)));
  env_GetSealer s := ct_GetSealer (s_crypto s);
  env_GetSealerWithEncryptionLevel s := ct_GetSealerWithEncryptionLevel (s_crypto s);
  env_AppendStreamFrames s frames maxLen :=
    '(frames, f, s) ← AppendStreamFrames (s_framer s) s frames maxLen;
    s ← run_calls (set_s_framer s f);
    Ok (frames, s);
  env_AppendControlFrames s frames maxLen :=
    '(frames, length, f) ← AppendControlFrames (s_framer s) frames maxLen;
    Ok (frames, length, set_s_framer s f);
  env_GetAckFrame s :=
    let '(ack, h) := GetAckFrame (s_received s) (e_now (s_env s)) in (ack, set_s_received s h) }.

Definition conn_Write (raw : list Z) : action unit := fun s =>
  let e := s_env s in
  let '(turns, err) := hd ([], None) (e_writes e) in
  match sched_Write (s_conn s) turns with
  | Panic msg => Crashed msg
  | Err e => Failed e s
  | Ok (None, _) => Crashed "no path"
  | Ok (Some path, c) =>
      error_or_unit err
        (set_s_out (set_s_env (set_s_conn s c)
            (mkEnvironment (e_now e) (e_numbers e) (tl (e_writes e)) (e_order e) (e_updates e) (e_pointer e)))
          (s_out s ++ [Datagram raw path]))
  end.

Definition sendPackedPacket (packet : packedPacket) : action unit := conn_Write (pk_raw packet).
Fixpoint send_packed (packets : list packedPacket) : action unit :=
  match packets with
  | [] => mret tt
  | p :: packets => sendPackedPacket p;; send_packed packets
  end.

Definition ackhandler_packet (s : session) (p : packedPacket) : Packet := ToAckHandlerPacket (e_now (s_env s)) p.

(** A packer call that may give a packet, which is registered and sent. *)
Definition track_and_send (packet : packedPacket) : action unit := fun s =>
  (call (SentPacket (s_sent s) (ackhandler_packet s packet)) (fun h => (tt, set_s_sent s h));;
   sendPackedPacket packet) s.

Definition maybeSendAckOnlyPacket : action unit := fun s =>
  (packet ← call (MaybePackAckPacket (s_packer s) s) (fun '(packet, p, s) => (packet, set_s_packer s p));
   match packet with
   | None => mret tt
   | Some packet => track_and_send packet
   end) s.

(** The packets in which [x] is sent again. *)
Definition retransmit_packet (x : Packet) : action unit := fun s =>
  (packets ← call (PackRetransmission (s_packer s) s x) (fun '(packets, p, s) => (packets, set_s_packer s p));
   (fun s => call (SentPacketsAsRetransmission (s_sent s) (ackhandler_packet s <$> packets) (PacketNumber x))
               (fun h => (tt, set_s_sent s h)) s);;
   send_packed packets) s.

(** The loop that skips Initial packets which need not be sent again. *)
Fixpoint dequeue_retransmission (fuel : nat) (s : session) : option (option Packet * session) :=
  match fuel with
  | O => None
  | S fuel =>
      match DequeuePacketForRetransmission (s_sent s) with
      | (None, h) => Some (None, set_s_sent s h)
      | (Some x, h) =>
          let s := set_s_sent s h in
          if bool_decide (s_perspective s = PerspectiveClient) && s_receivedFirstPacket s && (PacketType x =? PacketTypeInitial)
          then dequeue_retransmission fuel s
          else Some (Some x, s)
      end
  end.

Definition maybeSendRetransmission : action bool := fun s =>
  match dequeue_retransmission (S (length (retransmissionQueue (s_sent s)))) s with
  | None => Crashed "out of fuel"
  | Some (None, s) => Done false s
  | Some (Some x, s) => (retransmit_packet x;; mret true) s
  end.

Definition sendProbePacket : action unit := fun s =>
  (p ← call (DequeueProbePacket (s_sent s)) (fun '(p, h) => (p, set_s_sent s h));
   match p with
   | None => fun _ => Crashed "nil pointer dereference"
   | Some p => retransmit_packet p
   end) s.

Definition sendPacket : action bool := fun s =>
  let '(isBlocked, offset, c) := IsNewlyBlocked (s_connFC s) in
  let s := set_s_connFC s c in
  let s := if isBlocked then set_s_framer s (Framer.QueueControlFrame (s_framer s) (DataBlocked (mkDataBlockedFrame offset))) else s in
  let '(frames, q, s) :=
    QueueAll (e_updates (s_env s)) (fun s =>
      let '(offset, c) := conn_GetWindowUpdate (e_now (s_env s)) (smoothedRTT (rttStats (s_sent s))) (s_connFC s) in
      (offset, set_s_connFC s c)) (s_windowUpdateQueue s) s in
  let s := set_s_framer (set_s_windowUpdateQueue s q) (foldl Framer.QueueControlFrame (s_framer s) frames) in
  (packet ← call (PackPacket (s_packer s) s) (fun '(packet, p, s) => (packet, set_s_packer s p));
   match packet with
   | None => mret false
   | Some packet => track_and_send packet;; mret true
   end) s.

Definition and_then {A B} (r : result A) (k : A -> session -> option (result B)) : option (result B) :=
  match r with
  | Done a s => k a s
  | Failed e s => Some (Failed e s)
  | Crashed msg => Some (Crashed msg)
  end.

(** The loop of [sendPackets]: the number of packets sent, no number for the
    returns inside it, and [None] if the fuel is used up. *)
Fixpoint send_loop (fuel : nat) (numPackets numPacketsSent : Z) (s : session) : option (result (option Z)) :=
  match fuel with
  | O => None
  | S fuel =>
      let again (n : Z) (s : session) :=
        if numPackets <=? n then Some (Done (Some n) s) else send_loop fuel numPackets n s in
      match handler_SendMode (s_sent s) with
      | SendNone => Some (Done (Some numPacketsSent) s)
      | SendAck => Some (if 0 <? numPacketsSent then Done None s else (maybeSendAckOnlyPacket;; mret None) s)
      | SendTLP | SendRTO => and_then (sendProbePacket s) (fun _ => again (numPacketsSent + 1))
      | SendRetransmission =>
          and_then (maybeSendRetransmission s) (fun sent => again (if sent : bool then numPacketsSent + 1 else numPacketsSent))
      | SendAny =>
          and_then (sendPacket s) (fun sent s =>
            if sent : bool then again (numPacketsSent + 1) s else Some (Done (Some numPacketsSent) s))
      end
  end.

Definition send_fuel (numPackets : Z) : nat := 2 * Z.to_nat numPackets + 3.

Definition sendPackets : action unit := fun s =>
  let s := set_s_pacingDeadline s 0 in
  match handler_SendMode (s_sent s) with
  | SendNone => Done tt s
  | _ =>
      (numPackets ← call (ShouldSendNumPackets (s_sent s)) (fun n => (n, s));
       sent ← (fun s => default (Crashed "out of fuel") (send_loop (send_fuel numPackets) numPackets 0 s));
       modify (fun s => if bool_decide (sent = Some numPackets)
                        then set_s_pacingDeadline s (nextPacketSendTime (s_sent s)) else s)) s
  end.

(** ** Closing *)

Definition sendConnectionClose (code : Z) (msg : error_msg) : action unit := fun s =>
  (packet ← call (PackConnectionClose (s_packer s) s (mkConnectionCloseFrame false code (error_text msg)))
              (fun '(packet, p, s) => (packet, set_s_packer s p));
   conn_Write (pk_raw packet)) s.

Definition handleCloseError (c : closeError) : action unit := fun s =>
  let '(code, msg) := ToQuicError (default (ErrorCode PeerGoingAway) (ce_err c)) in
  let s := set_s_streams s (sm_CloseWithError str_closeForShutdown (fun e h => send_closeForShutdown h e)
             (fun e h => receive_closeForShutdown h e) (s_streams s) (QuicError code msg)) in
  if negb (ce_sendClose c) then Done tt s
  else if ce_remote c then Done tt s
  else if code =? DecryptionFailure then Done tt s
  else sendConnectionClose code msg s.

(** ** Events of the handshake *)

Definition processTransportParameters (params : TransportParameters) (s : session) : session :=
  let s := set_s_peerParams s (Some params) in
  let s := set_s_streams s (UpdateLimits (s_streams s) (MaxBidiStreams params) (MaxUniStreams params)) in
  let s := set_s_packer s (packer_HandleTransportParameters (s_packer s) (MaxPacketSize params)) in
  set_s_connFC s (UpdateSendWindow (s_connFC s) (InitialMaxData params)).

(** The server makes sure that the client learns about it. *)
Definition confirm_handshake : action unit := fun s =>
  if bool_decide (s_perspective s = PerspectiveServer) then
    let s := queueControlFrame Ping s in
    call (SetHandshakeComplete (s_sent s)) (fun h => (tt, set_s_sent s h)) s
  else Done tt s.

Definition handleHandshakeComplete : action unit :=
  modify (fun s => set_s_out (set_s_handshakeCompleteChan (set_s_handshakeComplete s true) false)
                     (s_out s ++ [HandshakeCompleted]));;
  confirm_handshake;;
  modify (fun s => set_s_conn s (Activate (s_conn s) true)).

(** ** The run loop *)

Definition min_time (a b : Z) : Z := if a <? b then a else b.

(** The time for which [maybeResetTimer] sets the timer; zero is no time. *)
Definition timer_deadline (s : session) : outcome Z :=
  deadline ← (if KeepAlive (s_config s) && s_handshakeComplete s && negb (s_keepAlivePingSent s) then
                match s_peerParams s with
                | None => Panic "nil pointer dereference"
                | Some p => Ok (s_lastActivity s + Z.quot (IdleTimeout p) 2)
                end
              else Ok (s_lastActivity s + Config_IdleTimeout (s_config s)));
  let deadline := if ackAlarm (s_received s) =? 0 then deadline else min_time deadline (ackAlarm (s_received s)) in
  let deadline := if alarm (s_sent s) =? 0 then deadline else min_time deadline (alarm (s_sent s)) in
  let deadline := if s_handshakeComplete s then deadline
                  else min_time deadline (s_creationTime s + HandshakeTimeout (s_config s)) in
  Ok (if s_pacingDeadline s =? 0 then deadline else min_time deadline (s_pacingDeadline s)).

(** An error that closes the session. *)
Definition or_close (m : action unit) : action unit := fun s =>
  match m s with
  | Failed e s => Done tt (closeLocal (Some e) s)
  | r => r
  end.

Definition handle_alarm : action unit := fun s =>
  if negb (alarm (s_sent s) =? 0) && (alarm (s_sent s) <? e_now (s_env s))
  then or_close (call (OnAlarm (s_sent s) (e_now (s_env s))) (fun h => (tt, set_s_sent s h))) s
  else Done tt s.

(** Whether it is time to send a PING. *)
Definition keep_alive_due (s : session) : outcome bool :=
  if KeepAlive (s_config s) && negb (s_keepAlivePingSent s) && s_handshakeComplete s then
    match s_peerParams s with
    | None => Panic "nil pointer dereference"
    | Some p => Ok (Z.quot (IdleTimeout p) 2 <=? e_now (s_env s) - s_lastActivity s)
    end
  else Ok false.

(** The part of the loop after the timeouts. *)
Definition check_and_send : action unit := fun s =>
  let now := e_now (s_env s) in
  if negb (s_handshakeComplete s) && (HandshakeTimeout (s_config s) <=? now - s_creationTime s) then
    Done tt (closeLocal (Some (QuicError Qerr.HandshakeTimeout (Msg "Crypto handshake did not complete in time." []))) s)
  else if s_handshakeComplete s && (Config_IdleTimeout (s_config s) <=? now - s_lastActivity s) then
    Done tt (closeLocal (Some (QuicError NetworkIdleTimeout (Msg "No recent network activity." []))) s)
  else or_close sendPackets s.

Definition pace_and_send : action unit := fun s =>
  let now := e_now (s_env s) in
  let pacingDeadline := if s_pacingDeadline s =? 0 then nextPacketSendTime (s_sent s) else 0 in
  match keep_alive_due s with
  | Panic msg => Crashed msg
  | Err e => Failed e s
  | Ok true =>
      check_and_send (set_s_keepAlivePingSent (set_s_framer s (Framer.QueueControlFrame (s_framer s) Ping)) true)
  | Ok false =>
      if negb (pacingDeadline =? 0) && (now <? pacingDeadline) then Done tt (set_s_pacingDeadline s pacingDeadline)
      else check_and_send s
  end.

Definition after_select : action unit := handle_alarm;; pace_and_send.

(** What the second select of the loop has received. *)
Inductive wakeup : Type := ByTimer | BySending | ByPacket | ByHandshake.

Definition is_decryption_failure (e : go_error) : bool :=
  match e with QuicError code _ => code =? DecryptionFailure | _ => false end.

(** Whether the rest of the loop is executed. *)
Definition select (w : wakeup) : action bool := fun s =>
  match w with
  | ByTimer => Done true s
  | BySending => Done true (set_s_sendingScheduled s false)
  | ByPacket =>
      match s_receivedPackets s with
      | [] => Crashed "receive from an empty channel"
      | p :: ps =>
          let s := set_s_receivedPackets s ps in
          match session_handlePacketImpl p s with
          | Crashed msg => Crashed msg
          | Done _ s' => Done true s'
          | Failed e s' =>
              Done false (if is_decryption_failure e then tryQueueingUndecryptablePacket (infer_packet s p) s'
                          else closeLocal (Some e) s')
          end
      end
  | ByHandshake => (handleHandshakeComplete;; mret true) s
  end.

Definition loop_body (w : wakeup) : action unit :=
  go_on ← select w;
  if (go_on : bool) then after_select else mret tt.

(** The end of [run]: an error of [handleCloseError] is only logged. *)
Definition finish (c : closeError) : action unit := fun s =>
  match handleCloseError c s with
  | Crashed msg => Crashed msg
  | Done _ s | Failed _ s => Done tt (set_s_out s (s_out s ++ [RemovedConnectionID (s_srcConnID s)]))
  end.

(** ** Setting up a session *)

(** [preSetup], [postSetup] and the common part of the two constructors. *)
Definition setup (pers : Perspective) (conf : Config) (conn : SchedulerImplementation) (destConnID srcConnID token : list Z)
    (v : Z) (c : C) (t : T) (num : Z) (e : environment) : session :=
  mkSession destConnID srcConnID pers v conf conn
    (newStreamsMap (u64 (MaxIncomingStreams conf)) (u64 (MaxIncomingUniStreams conf)) pers)
    (NewSentPacketHandler NewRTTStats c num) NewReceivedPacketHandler newFramer newWindowUpdateQueue
    (NewConnectionFlowController initialMaxData (MaxReceiveConnectionFlowControlWindow conf))
    (newPacketPacker destConnID srcConnID newCryptoStream newCryptoStream token pers v)
    t [] false None false [] false false false false 0 0 (e_now e) (e_now e) 0 None false [] e [].

Definition newSession (conf : Config) (conn : SchedulerImplementation) (destConnID srcConnID : list Z)
    (v : Z) (c : C) (t : T) (num : Z) (e : environment) : session :=
  setup PerspectiveServer conf conn destConnID srcConnID [] v c t num e.

(** The packer of a client is given the remote address, which it ignores. *)
Definition newClientSession (conf : Config) (conn : SchedulerImplementation) (destConnID srcConnID token : list Z)
    (v : Z) (c : C) (t : T) (num : Z) (e : environment) : outcome session :=
  _ ← sched_RemoteAddr conn;
  Ok (setup PerspectiveClient conf conn destConnID srcConnID token v c t num e).
End Session.
Arguments Done {Ewma C T A} a s.
Arguments Failed {Ewma C T A} e s.
Arguments Crashed {Ewma C T A} msg.
