(* ===== verification/SessionRun.v ===== *)
(** * Sessions at work

    The theory of Session.v.  A relation between the states before and after that
    every part of a component keeps is kept by the session as a whole; the
    theorems about closing, connection IDs and what is sent are instances.  Then:
    the loop that sends packets ends, timers are in time, an idle session closes,
    and packets that cannot be opened do no harm. *)

From S2P Require Import Prelude Qerr Varint Protocol AckFrame Frames FrameCodec FrameParser FrameSorter Float RTTStats.
From S2P Require Import FlowControl ReceivedPackets Congestion SentHistory PacketNumbers SentPackets SentLinks LossRecovery StreamsMap Header.
From S2P Require Import SendStream ReceiveStream CryptoStream Framer Packer Receiving Scheduler TransportParams Endpoints Stream Session.

(** ** What packing does to its environment *)

(** A relation that all calls of the packer keep. *)
Class EnvKeeps {W : Type} {E : PackerEnv W} (R : W -> W -> Prop) : Prop := {
  ek_preorder :: PreOrder R;
  ek_pop w : R w (env_PopPacketNumber w).2;
  ek_ack w : R w (env_GetAckFrame w).2;
  ek_control w frames n frames' l w' : env_AppendControlFrames w frames n = Ok (frames', l, w') -> R w w';
  ek_stream w frames n frames' w' : env_AppendStreamFrames w frames n = Ok (frames', w') -> R w w' }.

Tactic Notation "step" hyp(H) "as" simple_intropattern(p) simple_intropattern(Hx) :=
  apply outcome_bind_Ok in H as (p & Hx & H).

Section Packing.
Context {Net : NetLib} {W : Type} {E : PackerEnv W} (R : W -> W -> Prop) {K : EnvKeeps R}.

Lemma pack_frames_env p w h fs l sealer x p' w' : pack_frames p w h fs l sealer = Ok (x, p', w') ->
  w' = (env_PopPacketNumber w).2 /\ (pk_frames x = fs \/ pk_frames x = set_last_DataLen true fs).
Proof.
  unfold pack_frames, writeAndSealPacket. intros H. step H as [[[[h' fs'] raw] q] v] Hx.
  injection H as <- _ <-. step Hx as h1 _. step Hx as hb _. step Hx as fs1 Hf. step Hx as bs _. destruct (_ <? _); [done |].
  destruct (env_PopPacketNumber w) as [num w1]. destruct (negb _); [done |]. injection Hx as _ <- _ _ <-.
  split; [done |]. cbn [pk_frames]. destruct (client_initial p h1); [| injection Hf as <-; by left].
  destruct fs; [done |]. injection Hf as <-. by right.
Qed.

Lemma pack_frames_keeps p w h fs l sealer x p' w' : pack_frames p w h fs l sealer = Ok (x, p', w') -> R w w'.
Proof. intros H. apply pack_frames_env in H as [-> _]. apply ek_pop. Qed.

Lemma PackConnectionClose_keeps p w ccf x p' w' : PackConnectionClose p w ccf = Ok (x, p', w') -> R w w'.
Proof. unfold PackConnectionClose. destruct (env_GetSealer w). apply pack_frames_keeps. Qed.

Lemma MaybePackAckPacket_keeps p w x p' w' : MaybePackAckPacket p w = Ok (x, p', w') -> R w w'.
Proof.
  unfold MaybePackAckPacket. pose proof (ek_ack w) as Ha. destruct (env_GetAckFrame w) as [[ack |] w1].
  - destruct (env_GetSealer w1). intros H. step H as [[k q] v] Hx. injection H as _ _ <-.
    apply pack_frames_keeps in Hx. by transitivity w1.
  - by intros [= _ _ <-].
Qed.

Lemma retransmit_keeps fuel : forall p w l sealer cf sf acc x p' w',
  retransmit fuel p w l sealer cf sf acc = Ok (x, p', w') -> R w w'.
Proof.
  induction fuel as [| fuel IH]; intros p w l sealer cf sf acc x p' w' H; cbn [retransmit] in H.
  - destruct cf, sf; try done. by injection H as _ _ <-.
  - assert (Hgo : (headerLen ← GetLength (getHeader p w l);
          let maxSize := p_maxPacketSize p -64 u64 (Overhead sealer) -64 headerLen in
          '(frames, length, controlFrames) ← take_control cf [] 0 maxSize;
          '(frames, streamFrames) ← take_streams (List.length sf) sf frames length maxSize;
          match frames with
          | [] => Panic "index out of range"
          | _ =>
              '(packet, p, w) ← pack_frames p w (getHeader p w l) (set_last_DataLen false frames) l sealer;
              retransmit fuel p w l sealer controlFrames streamFrames (acc ++ [packet])
          end) = Ok (x, p', w') -> R w w').
    { intros G. step G as hl _. step G as [[fs n] cf'] _. step G as [fs' sf'] _.
      destruct fs' as [| f fs']; [done |]. step G as [[k q] v] Hx.
      apply pack_frames_keeps in Hx. apply IH in G. by transitivity v. }
    destruct cf, sf; [by injection H as _ _ <- | by apply Hgo..].
Qed.

Lemma PackRetransmission_keeps p w x ps p' w' : PackRetransmission p w x = Ok (ps, p', w') -> R w w'.
Proof.
  unfold PackRetransmission. destruct (negb _); intros H.
  - step H as [[k q] v] Hx. injection H as _ _ <-. unfold packHandshakeRetransmission in Hx. step Hx as sealer _.
    by apply pack_frames_keeps in Hx.
  - step H as sealer _. by apply retransmit_keeps in H.
Qed.

Lemma maybePackCryptoPacket_keeps p w x p' w' : maybePackCryptoPacket p w = Ok (x, p', w') -> R w w'.
Proof.
  unfold maybePackCryptoPacket. intros H.
  destruct (if HasData (p_initialStream p) then _ else _) as [[s l] |]; [| by injection H as _ _ <-].
  step H as hl _. step H as sealer _. pose proof (ek_ack w) as Ha. destruct (env_GetAckFrame w) as [ack w1].
  step H as n _. step H as [cf s'] _. step H as [[k q] v] Hx. injection H as _ _ <-.
  apply pack_frames_keeps in Hx. by transitivity w1.
Qed.

Lemma composeNextPacket_keeps w n b fs w' : composeNextPacket w n b = Ok (fs, w') -> R w w'.
Proof.
  unfold composeNextPacket. pose proof (ek_ack w) as Ha. destruct (env_GetAckFrame w) as [ack w1]. intros H.
  step H as m _. step H as [[fs1 l] w2] Hc. apply ek_control in Hc. destruct (negb b).
  - injection H as _ <-. by transitivity w1.
  - step H as [fs2 w3] Hs. injection H as _ <-. apply ek_stream in Hs.
    transitivity w2; [by transitivity w1 | done].
Qed.

Lemma PackPacket_keeps p w x p' w' : PackPacket p w = Ok (x, p', w') -> R w w'.
Proof.
  unfold PackPacket. intros H. step H as [[k q] w1] Hx. apply maybePackCryptoPacket_keeps in Hx.
  destruct k as [k |]; [by injection H as _ _ <- |]. destruct (negb _); [by injection H as _ _ <- |].
  destruct (env_GetSealer w1) as [l sealer]. step H as hl _. step H as [fs w2] Hc.
  apply composeNextPacket_keeps in Hc.
  destruct fs as [| f fs]; [injection H as _ _ <-; by transitivity w1 |].
  match type of H with (let '(_, _) := ?c in _) = _ => destruct c as [fs' q'] end.
  step H as [[k' q2] v] Hv. injection H as _ _ <-. apply pack_frames_keeps in Hv.
  transitivity w2; [by transitivity w1 | done].
Qed.
End Packing.

(** ** Relations that a session keeps *)

Section Keeping.
Context {Net : NetLib} {Ewma : EWMA} {ListenUDP : UDPAddr -> outcome Socket}.
Context {C : Type} {SA : SendAlgorithm C} {T : Type} {CT : CryptoSetup T} {error_text : error_msg -> list Z}.
#[local] Abbreviation session := (@Session.session Ewma C T).
#[local] Abbreviation action := (@Session.action Ewma C T).

(** A relation that every update of a field keeps; the fields that matter for
    closing and for the connection ID are only changed by the functions named. *)
Class Keeps (R : session -> session -> Prop) : Prop := {
  k_preorder :: PreOrder R;
  k_conn s x : R s (set_s_conn s x);
  k_streams s x : R s (set_s_streams s x);
  k_sent s x : R s (set_s_sent s x);
  k_received s x : R s (set_s_received s x);
  k_framer s x : R s (set_s_framer s x);
  k_updates s x : R s (set_s_windowUpdateQueue s x);
  k_connFC s x : R s (set_s_connFC s x);
  k_packer s x : R s (set_s_packer s x);
  k_crypto s x : R s (set_s_crypto s x);
  k_packets s x : R s (set_s_receivedPackets s x);
  k_scheduled s x : R s (set_s_sendingScheduled s x);
  k_undecryptable s x : R s (set_s_undecryptable s x);
  k_chan s x : R s (set_s_handshakeCompleteChan s x);
  k_complete s x : R s (set_s_handshakeComplete s x);
  k_forward s x : R s (set_s_receivedFirstForwardSecurePacket s x);
  k_lastRcvd s x : R s (set_s_lastRcvd s x);
  k_largest s x : R s (set_s_largestRcvd s x);
  k_pacing s x : R s (set_s_pacingDeadline s x);
  k_params s x : R s (set_s_peerParams s x);
  k_ping s x : R s (set_s_keepAlivePingSent s x);
  k_calls s x : R s (set_s_calls s x);
  k_env s x : R s (set_s_env s x);
  k_out s o : (exists x, o = s_out s ++ x) -> R s (set_s_out s o);
  k_close s e : R s (close_with e s);
  k_switch s hdr : R s (switch_connID hdr s);
  k_activity s t : R s (note_activity t s) }.

Context (R : session -> session -> Prop) {K : Keeps R}.

Lemma keep_step s t u : R s t -> R t u -> R s u.
Proof. intros H1 H2. by transitivity t. Qed.

Definition keeps {A} (m : action A) : Prop :=
  forall s, match m s with Done _ s' | Failed _ s' => R s s' | Crashed _ => True end.

(** The updates of a state, from the inside out. *)
Ltac updates :=
  repeat first
    [ reflexivity
    | apply k_close | apply k_switch | apply k_activity
    | (eapply keep_step; [| first
        [ apply k_conn | apply k_streams | apply k_sent | apply k_received | apply k_framer | apply k_updates | apply k_connFC
        | apply k_packer | apply k_crypto | apply k_packets | apply k_scheduled | apply k_undecryptable | apply k_chan
        | apply k_complete | apply k_forward | apply k_lastRcvd | apply k_largest | apply k_pacing | apply k_params
        | apply k_ping | apply k_calls | apply k_env | (apply k_out; eexists; reflexivity) | apply k_close ]]) ].

Lemma keeps_bind {A B} (m : action A) (f : A -> action B) : keeps m -> (forall a, keeps (f a)) -> keeps (m ≫= f).
Proof.
  intros Hm Hf s. unfold mbind, action_bind. specialize (Hm s). destruct (m s) as [a t | e t | msg]; [| done | done].
  specialize (Hf a t). destruct (f a t); [by apply (keep_step _ t) | by apply (keep_step _ t) | done].
Qed.

Lemma keeps_ret {A} (a : A) : keeps (mret a).
Proof. intros s. apply (k_preorder (R := R)). Qed.
Lemma keeps_throw {A} e : keeps (throw (A := A) e).
Proof. intros s. apply (k_preorder (R := R)). Qed.
Lemma keeps_modify f : (forall s, R s (f s)) -> keeps (modify f).
Proof. intros H s. apply H. Qed.
Lemma keeps_error err : keeps (error_or_unit err).
Proof. destruct err; [apply keeps_throw | apply keeps_ret]. Qed.
Lemma keeps_run {A} (m : action A) s t : keeps m -> R s t ->
  match m t with Done _ s' | Failed _ s' => R s s' | Crashed _ => True end.
Proof. intros Hm Hs. specialize (Hm t). destruct (m t); [by apply (keep_step _ t).. | done]. Qed.

(** Queues and signals. *)
Lemma keep_queueControlFrame f s : R s (queueControlFrame f s).
Proof. unfold queueControlFrame, scheduleSending. updates. Qed.
Lemma keep_onHasStreamData id s : R s (onHasStreamData id s).
Proof. unfold onHasStreamData, scheduleSending. updates. Qed.
Lemma keep_frames l s : R s (foldl (fun s f => queueControlFrame f s) s l).
Proof.
  revert s. induction l as [| f l IH]; intros s; cbn [foldl]; [reflexivity |].
  eapply keep_step; [apply keep_queueControlFrame | apply IH].
Qed.
Lemma keep_handlePacket p s : R s (session_handlePacket p s).
Proof. unfold session_handlePacket. destruct (_ <? _); updates. Qed.
Lemma keep_tryQueueing p s : R s (tryQueueingUndecryptablePacket p s).
Proof. unfold tryQueueingUndecryptablePacket. destruct (s_handshakeComplete s); [updates |]. destruct (_ <? _); updates. Qed.
Lemma keep_tryDecrypting s : R s (tryDecryptingQueuedPackets s).
Proof.
  unfold tryDecryptingQueuedPackets. eapply keep_step; [| apply k_undecryptable]. generalize (s_undecryptable s).
  intros l. revert s. induction l as [| p l IH]; intros s; cbn [foldl]; [reflexivity |].
  eapply keep_step; [apply keep_handlePacket | apply IH].
Qed.

Lemma keeps_sender c : keeps (sender c).
Proof.
  destruct c as [f | id | id]; [apply keeps_modify, keep_queueControlFrame | apply keeps_modify, keep_onHasStreamData |].
  intros s. cbn [sender]. unfold onStreamCompleted. destruct (sm_DeleteStream _ _) as [[fs m] | e | msg]; [| apply k_close | done].
  eapply keep_step; [apply k_streams | apply keep_frames].
Qed.
Lemma keeps_senders l : keeps (senders l).
Proof. induction l as [| c l IH]; cbn [senders]; [apply keeps_ret | apply keeps_bind; [apply keeps_sender | done]]. Qed.

(** Frames. *)
Lemma keeps_on_send_stream id f : keeps (on_send_stream id f).
Proof.
  intros s. unfold on_send_stream. destruct (get_send s id) as [[[x |] m] | e | msg]; [| updates.. | done].
  destruct (f (send_half x)) as [h calls]. destruct (with_send_half x h calls) as [y calls'].
  apply keeps_run; [apply keeps_senders | updates].
Qed.
Lemma keeps_on_receive_stream id f : keeps (on_receive_stream id f).
Proof.
  intros s. unfold on_receive_stream. destruct (get_receive s id) as [[[x |] m] | e | msg]; [| updates.. | done].
  destruct (f (receive_half x) (s_connFC s)) as [[[h c] calls] err]. destruct (with_receive_half x h calls) as [y calls'].
  apply keeps_run; [apply keeps_bind; [apply keeps_senders | intros _; apply keeps_error] | updates].
Qed.
Lemma keeps_handleCryptoFrame f l : keeps (handleCryptoFrame f l).
Proof.
  intros s. unfold handleCryptoFrame. destruct (HandleCryptoFrame _ _ _ _ _) as [[[[[b err] t] m] | |] |]; try done.
  destruct err; [updates |]. destruct b; [eapply keep_step; [| apply keep_tryDecrypting] |]; updates.
Qed.
Lemma keeps_handleAckFrame f : keeps (handleAckFrame f).
Proof. intros s. unfold handleAckFrame. destruct (ReceivedAck _ _ _ _); [updates | updates | done]. Qed.
Lemma keeps_handleAddressModificationFrame f : keeps (handleAddressModificationFrame ListenUDP f).
Proof.
  intros s. unfold handleAddressModificationFrame, new_addr. destruct (_ =? _); [updates |].
  destruct (ResolveUDPAddr _); [| updates | done]. destruct (addRemoteAddress _ _ _ _) as [[so c] | |]; [updates.. | done].
Qed.

Lemma keeps_handleFrame l f : keeps (handleFrame ListenUDP l f).
Proof.
  destruct f; cbn [handleFrame]; try apply keeps_ret; try apply keeps_throw.
  - apply keeps_handleAckFrame.
  - apply keeps_on_receive_stream.
  - apply keeps_on_send_stream.
  - apply keeps_handleCryptoFrame.
  - apply keeps_modify. intros s. unfold handleMaxDataFrame. updates.
  - apply keeps_on_send_stream.
  - apply keeps_modify. intros s. unfold handleMaxStreamsFrame. updates.
  - apply keeps_modify. intros s. apply keep_queueControlFrame.
  - apply keeps_modify. intros s. apply k_close.
  - unfold session_handleStreamFrame. destruct (bool_decide _); [apply keeps_on_receive_stream | apply keeps_throw].
  - apply keeps_handleAddressModificationFrame.
  - apply keeps_modify. intros s. apply keep_queueControlFrame.
  - intros s. unfold handleOneWayDelayAckFrame. destruct (sched_setOwd _ _ _); [updates | updates | done].
Qed.
Lemma keeps_handleFrames l : forall fs, keeps (handleFrames ListenUDP fs l).
Proof.
  induction fs as [| f fs IH]; cbn [handleFrames]; [apply keeps_ret | apply keeps_bind; [apply keeps_handleFrame | done]].
Qed.

(** Packets. *)
Lemma keeps_call {A B} (o : outcome A) (f : A -> B * session) s : (forall a, R s (f a).2) ->
  match call o f s with Done _ s' | Failed _ s' => R s s' | Crashed _ => True end.
Proof.
  intros H. unfold call. destruct o as [a | e | msg]; [| reflexivity | done]. specialize (H a). by destruct (f a).
Qed.
Lemma keeps_note_forward_secure packet : keeps (note_forward_secure packet).
Proof.
  intros s. unfold note_forward_secure. destruct (_ && _); [| reflexivity]. apply keeps_call. intros h. cbn [snd]. updates.
Qed.
Lemma keeps_note_received p packet : keeps (note_received p packet).
Proof.
  intros s. unfold note_received. destruct (_ =? _); [reflexivity |].
  destruct (ReceivedPacket _ _ _ _ _) as [[h err] | |]; [| reflexivity | done]. apply keeps_run; [apply keeps_error | updates].
Qed.
Lemma keeps_handle_unpacked p packet : keeps (handle_unpacked ListenUDP p packet).
Proof.
  unfold handle_unpacked. apply keeps_bind; [apply keeps_modify; intros s; apply k_switch | intros _].
  apply keeps_bind; [apply keeps_modify; intros s; apply k_activity | intros _].
  apply keeps_bind; [apply keeps_note_forward_secure | intros _].
  apply keeps_bind; [apply keeps_modify; intros s; unfold note_number; updates | intros _].
  apply keeps_bind; [apply keeps_note_received | intros _]. apply keeps_handleFrames.
Qed.
Lemma keeps_handlePacketImpl p : keeps (session_handlePacketImpl ListenUDP p).
Proof.
  intros s. unfold session_handlePacketImpl. destruct (_ && _); [reflexivity |].
  destruct (Unpack _ _ _ _); [apply keeps_handle_unpacked | reflexivity | done].
Qed.

(** Packing. *)
Lemma keep_append_streams n : forall f s frames length maxLen frames' f' s',
  append_streams n f s frames length maxLen = Ok (frames', f', s') -> R s s'.
Proof.
  induction n as [| n IH]; intros f s frames length maxLen frames' f' s' H; cbn [append_streams] in H.
  { by injection H as _ _ <-. }
  destruct (_ <? _); [by injection H as _ _ <- |]. destruct (streamQueue f) as [| id q]; [done |].
  cbn [get_send_stream session_getter] in H.
  assert (Hg : forall found s1, match get_send s id with
      | Ok (Some _, m) => (true, set_s_streams s m) | Ok (None, m) => (false, set_s_streams s m) | _ => (false, s)
      end = (found, s1) -> R s s1).
  { intros found s1. destruct (get_send s id) as [[[x |] m] | |]; intros [= _ <-]; updates. }
  destruct (match get_send s id with Ok (Some _, m) => (true, set_s_streams s m) | Ok (None, m) => (false, set_s_streams s m) | _ => (false, s) end)
    as [found s1]. specialize (Hg found s1 eq_refl).
  destruct (negb found); [apply IH in H; by apply (keep_step _ s1) |].
  step H as [[fr more] s2] Hp. cbn [pop_stream_frame session_getter] in Hp.
  assert (H2 : R s1 s2).
  { step Hp as [[x |] m] _; [| done]. step Hp as [[[[fr' more'] calls] h] c] _.
    destruct (with_send_half x h calls) as [y calls']. injection Hp as _ _ <-. updates. }
  destruct fr as [fr |]; [step H as l _ |]; apply IH in H; (eapply keep_step; [exact Hg |]; eapply keep_step; [exact H2 | exact H]).
Qed.

#[local] Instance session_env_keeps : EnvKeeps R.
Proof.
  split.
  - apply k_preorder.
  - intros s. cbn. destruct (PopPacketNumber _ _) as [pn h]. cbn [snd]. updates.
  - intros s. cbn. destruct (GetAckFrame _ _) as [ack h]. cbn [snd]. updates.
  - intros s frames n frames' l s' H. cbn in H. step H as [[fs m] f] _. injection H as _ _ <-. updates.
  - intros s frames n frames' s' H. cbn in H. step H as [[fs f] s1] Ha. step H as s2 Hr. injection H as _ <-.
    apply keep_append_streams in Ha. eapply keep_step; [exact Ha |]. unfold run_calls in Hr.
    pose proof (keeps_run (senders (s_calls (set_s_framer s1 f))) s1 (set_s_calls (set_s_framer s1 f) [])
      (keeps_senders _) ltac:(updates)) as Hk.
    destruct (senders _ _); [by injection Hr as <- | done | done].
Qed.

Lemma keeps_conn_Write raw : keeps (conn_Write raw).
Proof.
  intros s. unfold conn_Write. destruct (hd _ _) as [turns err].
  destruct (sched_Write _ _) as [[[path |] c] | |]; [| done | reflexivity | done].
  apply keeps_run; [apply keeps_error | updates].
Qed.
Lemma keeps_send_packed l : keeps (send_packed l).
Proof. induction l as [| k l IH]; cbn [send_packed]; [apply keeps_ret | apply keeps_bind; [apply keeps_conn_Write | done]]. Qed.
Lemma keeps_call_then {A B D} (o : outcome A) (f : A -> B * session) (m : B -> action D) s :
  (forall a, o = Ok a -> R s (f a).2) -> (forall b, keeps (m b)) ->
  match (call o f ≫= m) s with Done _ s' | Failed _ s' => R s s' | Crashed _ => True end.
Proof.
  intros Ho Hm. unfold mbind, action_bind, call. destruct o as [a | e | msg]; [| reflexivity | done].
  specialize (Ho a eq_refl). destruct (f a) as [b t]. by apply keeps_run.
Qed.

Lemma keeps_track_and_send k : keeps (track_and_send k).
Proof. intros s. apply keeps_call_then; [intros h _; cbn [snd]; updates | intros _; apply keeps_conn_Write]. Qed.
Lemma keeps_maybeSendAckOnlyPacket : keeps maybeSendAckOnlyPacket.
Proof.
  intros s. apply keeps_call_then.
  - intros [[k p] t] H. cbn [snd]. apply (MaybePackAckPacket_keeps R) in H. eapply keep_step; [exact H | updates].
  - intros [k |]; [apply keeps_track_and_send | apply keeps_ret].
Qed.
Lemma keeps_retransmit_packet x : keeps (retransmit_packet x).
Proof.
  intros s. apply keeps_call_then.
  - intros [[k p] t] H. cbn [snd]. apply (PackRetransmission_keeps R) in H. eapply keep_step; [exact H | updates].
  - intros l. apply keeps_bind; [| intros _; apply keeps_send_packed]. intros t. apply keeps_call. intros h. cbn [snd]. updates.
Qed.
Lemma keep_dequeue fuel : forall s x t, dequeue_retransmission fuel s = Some (x, t) -> R s t.
Proof.
  induction fuel as [| fuel IH]; intros s x t; cbn [dequeue_retransmission]; [done |].
  destruct (DequeuePacketForRetransmission _) as [[y |] h]; [| intros [= _ <-]; updates].
  destruct (_ && _); [intros H; apply IH in H; eapply keep_step; [apply k_sent | exact H] | intros [= _ <-]; updates].
Qed.
Lemma keeps_maybeSendRetransmission : keeps maybeSendRetransmission.
Proof.
  intros s. unfold maybeSendRetransmission. destruct (dequeue_retransmission _ s) as [[[x |] t] |] eqn:E; [| by apply keep_dequeue in E | done].
  apply keeps_run; [| by apply keep_dequeue in E]. apply keeps_bind; [apply keeps_retransmit_packet | intros _; apply keeps_ret].
Qed.
Lemma keeps_sendProbePacket : keeps sendProbePacket.
Proof.
  intros s. apply keeps_call_then; [intros [x h] _; cbn [snd]; updates |].
  intros [x |]; [apply keeps_retransmit_packet | by intros ?].
Qed.

Lemma keep_queue_streams ids : forall q s sent sent' q' s',
  queue_streams ids q s sent = (sent', q', s') -> R s s'.
Proof.
  induction ids as [| id ids IH]; intros q s sent sent' q' s'; cbn [queue_streams]; [by intros [= _ _ <-] |].
  cbn [get_window_update session_getter].
  assert (Hg : forall o s1, match get_receive s id with
      | Ok (Some x, m) =>
          let '(offset, h, conn) := rs_getWindowUpdate (e_now (s_env s)) (smoothedRTT (rttStats (s_sent s))) (receive_half x) (s_connFC s) in
          let '(x, _) := with_receive_half x h [] in
          (Some offset, set_s_connFC (set_s_streams s (put_receive m id x)) conn)
      | Ok (None, m) => (None, set_s_streams s m) | _ => (None, s)
      end = (o, s1) -> R s s1).
  { intros o s1. destruct (get_receive s id) as [[[x |] m] | |]; [| intros [= _ <-]; updates..].
    destruct (rs_getWindowUpdate _ _ _ _) as [[off h] c]. destruct (with_receive_half x h []). intros [= _ <-]. updates. }
  match goal with |- context [match get_receive s id with _ => _ end] =>
    match goal with |- (match ?m with _ => _ end = _) -> _ => destruct m as [o s1] end end.
  specialize (Hg o s1 eq_refl). destruct o as [o |]; [destruct (o =? 0) |]; intros H; apply IH in H; by apply (keep_step _ s1).
Qed.
Lemma keeps_sendPacket : keeps sendPacket.
Proof.
  intros s. unfold sendPacket. destruct (IsNewlyBlocked _) as [[b off] c].
  set (s1 := if b then _ else _). assert (H1 : R s s1) by (subst s1; destruct b; updates).
  destruct (QueueAll _ _ _ _) as [[frames q] s2] eqn:Eq.
  assert (H2 : R s1 s2).
  { unfold QueueAll in Eq. destruct (queuedConn _).
    - destruct (conn_GetWindowUpdate _ _ _) as [o c']. apply keep_queue_streams in Eq. eapply keep_step; [apply k_connFC | exact Eq].
    - by apply keep_queue_streams in Eq. }
  match goal with |- match (?m ≫= ?f) ?t with _ => _ end => assert (H3 : match (m ≫= f) t with Done _ s' | Failed _ s' => R t s' | Crashed _ => True end) end.
  { apply keeps_call_then.
    - intros [[k p] t] H. cbn [snd]. apply (PackPacket_keeps R) in H. eapply keep_step; [exact H | updates].
    - intros [k |]; [apply keeps_bind; [apply keeps_track_and_send | intros _] |]; apply keeps_ret. }
  match goal with |- match ?m with _ => _ end => destruct m as [x t | e t | msg] end; [| | done];
    (eapply keep_step; [exact H1 |]; eapply keep_step; [exact H2 |]; eapply keep_step; [| exact H3]; updates).
Qed.

Lemma keep_send_loop fuel n : forall k s r, send_loop fuel n k s = Some r ->
  match r with Done _ s' | Failed _ s' => R s s' | Crashed _ => True end.
Proof.
  induction fuel as [| fuel IH]; intros k s r; cbn [send_loop]; [done |].
  assert (Hagain : forall {A} (m : action A) (g : A -> session -> option (result (option Z))),
    keeps m -> (forall a t r, g a t = Some r -> match r with Done _ s' | Failed _ s' => R t s' | Crashed _ => True end) ->
    and_then (m s) g = Some r -> match r with Done _ s' | Failed _ s' => R s s' | Crashed _ => True end).
  { intros A m g Hm Hg H. unfold and_then in H. specialize (Hm s). destruct (m s) as [a t | e t | msg].
    - apply Hg in H. destruct r; [by apply (keep_step _ t).. | done].
    - by injection H as <-.
    - by injection H as <-. }
  assert (Hk : forall j t r, (if n <=? j then Some (Done (Some j) t) else send_loop fuel n j t) = Some r ->
    match r with Done _ s' | Failed _ s' => R t s' | Crashed _ => True end).
  { intros j t r' H. destruct (n <=? j); [by injection H as <- | by apply IH in H]. }
  destruct (handler_SendMode (s_sent s)).
  - by intros [= <-].
  - intros [= <-]. destruct (0 <? k); [reflexivity |].
    apply (keeps_bind maybeSendAckOnlyPacket); [apply keeps_maybeSendAckOnlyPacket | intros _; apply keeps_ret].
  - apply Hagain; [apply keeps_maybeSendRetransmission | intros a t r'; apply Hk].
  - apply Hagain; [apply keeps_sendProbePacket | intros a t r'; apply Hk].
  - apply Hagain; [apply keeps_sendProbePacket | intros a t r'; apply Hk].
  - apply Hagain; [apply keeps_sendPacket |]. intros [|] t r'; [apply Hk | by intros [= <-]].
Qed.

Lemma keeps_sendPackets : keeps sendPackets.
Proof.
  intros s. unfold sendPackets. set (s1 := set_s_pacingDeadline s 0). assert (H1 : R s s1) by (subst s1; updates).
  assert (H2 : forall n, keeps (fun s => default (Crashed "out of fuel") (send_loop (send_fuel n) n 0 s))).
  { intros n t. destruct (send_loop _ _ _ _) as [r |] eqn:E; [by apply keep_send_loop in E | done]. }
  assert (H3 : keeps (fun s => (numPackets ← call (ShouldSendNumPackets (s_sent s)) (fun n => (n, s));
       sent ← (fun s => default (Crashed "out of fuel") (send_loop (send_fuel numPackets) numPackets 0 s));
       modify (fun s => if bool_decide (sent = Some numPackets)
                        then set_s_pacingDeadline s (nextPacketSendTime (s_sent s)) else s)) s)).
  { intros t. apply keeps_call_then; [intros n _; reflexivity | intros n; apply keeps_bind; [apply H2 |]]. intros sent.
    apply keeps_modify. intros u. destruct (bool_decide _); updates. }
  pose proof (keeps_run _ s s1 H3 H1) as H4. by destruct (handler_SendMode _).
Qed.

Lemma keeps_handleCloseError c : keeps (handleCloseError error_text c).
Proof.
  intros s. unfold handleCloseError. destruct (ToQuicError _) as [code msg].
  set (s1 := set_s_streams s _). assert (H1 : R s s1) by (subst s1; updates).
  destruct (negb _); [done |]. destruct (ce_remote c); [done |]. destruct (_ =? _); [done |].
  apply keeps_run; [| done]. intros t. apply keeps_call_then; [| intros k; apply keeps_conn_Write].
  intros [[k p] u] H. cbn [snd]. apply (PackConnectionClose_keeps R) in H. eapply keep_step; [exact H | updates].
Qed.
Lemma keeps_finish c : keeps (finish error_text c).
Proof.
  intros s. unfold finish. pose proof (keeps_handleCloseError c s) as H.
  destruct (handleCloseError error_text c s); [..| done]; (eapply keep_step; [exact H | updates]).
Qed.

(** The loop. *)
Lemma keep_processTransportParameters params s : R s (processTransportParameters params s).
Proof. unfold processTransportParameters. updates. Qed.
Lemma keeps_handleHandshakeComplete : keeps handleHandshakeComplete.
Proof.
  apply keeps_bind; [apply keeps_modify; intros s; updates | intros _].
  apply keeps_bind; [| intros _; apply keeps_modify; intros s; updates]. intros s. unfold confirm_handshake.
  destruct (bool_decide _); [| reflexivity].
  set (t := queueControlFrame Ping s). assert (Ht : R s t) by apply keep_queueControlFrame.
  pose proof (keeps_call (SetHandshakeComplete (s_sent t)) (fun h => (tt, set_s_sent t h)) t ltac:(intros h; cbn [snd]; updates)) as H.
  destruct (call _ _ t); [by apply (keep_step _ t).. | done].
Qed.
Lemma keeps_or_close m : keeps m -> keeps (or_close m).
Proof. intros H s. unfold or_close. specialize (H s). destruct (m s) as [[] t | e t | msg]; [done | | done]. eapply keep_step; [exact H | apply k_close]. Qed.
Lemma keeps_check_and_send : keeps check_and_send.
Proof.
  intros s. unfold check_and_send. destruct (_ && _); [apply k_close |]. destruct (_ && _); [apply k_close |].
  apply keeps_or_close, keeps_sendPackets.
Qed.
Lemma keeps_after_select : keeps after_select.
Proof.
  apply keeps_bind.
  - intros s. unfold handle_alarm. destruct (_ && _); [| reflexivity]. unfold or_close.
    pose proof (keeps_call (OnAlarm (s_sent s) (e_now (s_env s))) (fun h => (tt, set_s_sent s h)) s
      ltac:(intros h; cbn [snd]; updates)) as H.
    destruct (call _ _ s) as [[] t | e t | msg]; [done | | done]. eapply keep_step; [exact H | apply k_close].
  - intros _ s. unfold pace_and_send. destruct (keep_alive_due s) as [[|] | |]; [| | reflexivity | done].
    + apply keeps_run; [apply keeps_check_and_send | updates].
    + destruct (_ && _); [updates | apply keeps_check_and_send].
Qed.
Lemma keeps_select w : keeps (select ListenUDP w).
Proof.
  intros s. destruct w; cbn [select]; [reflexivity | updates | |].
  - destruct (s_receivedPackets s) as [| p ps]; [done |].
    pose proof (keeps_run (session_handlePacketImpl ListenUDP p) s (set_s_receivedPackets s ps) (keeps_handlePacketImpl p) ltac:(updates)) as H.
    destruct (session_handlePacketImpl _ _ _) as [a t | e t | msg]; [done | | done].
    destruct (is_decryption_failure e); (eapply keep_step; [exact H |]); [apply keep_tryQueueing | apply k_close].
  - apply (keeps_bind handleHandshakeComplete); [apply keeps_handleHandshakeComplete | intros _; apply keeps_ret].
Qed.
Lemma keeps_loop_body w : keeps (loop_body ListenUDP w).
Proof. apply keeps_bind; [apply keeps_select |]. intros [|]; [apply keeps_after_select | apply keeps_ret]. Qed.
End Keeping.

(** ** Runs *)

Section Runs.
Context {Net : NetLib} {Ewma : EWMA} {ListenUDP : UDPAddr -> outcome Socket}.
Context {C : Type} {SA : SendAlgorithm C} {T : Type} {CT : CryptoSetup T} {error_text : error_msg -> list Z}.
#[local] Abbreviation session := (@Session.session Ewma C T).

(** What happens to a session: an iteration of its loop; a packet arrives; the
    application uses its streams, opens new ones, or closes the session; the TLS
    stack proceeds; the scheduler queues frames; time passes. *)
Inductive run_step : session -> session -> Prop :=
  | run_body w s s' : loop_body ListenUDP w s = Done tt s' -> run_step s s'
  | run_arrival p s : run_step s (session_handlePacket p s)
  | run_application m c calls s s' : senders calls (set_s_connFC (set_s_streams s m) c) = Done tt s' -> run_step s s'
  | run_stream_update id s : run_step s (onHasStreamWindowUpdate id s)
  | run_conn_update s : run_step s (onHasConnectionWindowUpdate s)
  | run_close e s : run_step s (closeLocal e s)
  | run_destroy e s : run_step s (destroy e s)
  | run_tls t p s : run_step s (set_s_crypto (set_s_packer s p) t)
  | run_params params s : run_step s (processTransportParameters params s)
  | run_handshake s : run_step s (set_s_handshakeCompleteChan s true)
  | run_scheduler c frames s : run_step s (foldl (fun s f => queueControlFrame f s) (set_s_conn s c) frames)
  | run_time e s : run_step s (set_s_env s e).

Lemma run_keeps (R : session -> session -> Prop) {K : Keeps R} s s' : rtc run_step s s' -> R s s'.
Proof.
  intros H. induction H as [s | s t u Hst _ IH]; [reflexivity |]. apply (keep_step R s t u); [| done]. clear IH.
  destruct Hst as [w s s' H | p s | m c calls s s' H | id s | s | e s | e s | t p s | params s | s | c frames s | e s].
  - pose proof (keeps_loop_body (ListenUDP := ListenUDP) R w s) as Hk. by rewrite H in Hk.
  - by apply keep_handlePacket.
  - pose proof (keeps_run R (senders calls) s (set_s_connFC (set_s_streams s m) c) (keeps_senders R calls)) as Hk.
    rewrite H in Hk. apply Hk. eapply keep_step; [done | apply k_streams | apply k_connFC].
  - eapply keep_step; [done | apply k_updates | apply k_scheduled].
  - eapply keep_step; [done | apply k_updates | apply k_scheduled].
  - apply k_close.
  - apply k_close.
  - eapply keep_step; [done | apply k_packer | apply k_crypto].
  - by apply keep_processTransportParameters.
  - apply k_chan.
  - eapply keep_step; [done | apply k_conn | by apply keep_frames].
  - apply k_env.
Qed.

(** The request to close: the first one stays. *)
Definition close_kept (s s' : session) : Prop :=
  (s_closeOnce s = true -> s_closeOnce s' = true /\ s_closeChan s' = s_closeChan s)
  /\ ((s_closeOnce s = true <-> s_closeChan s <> None) -> (s_closeOnce s' = true <-> s_closeChan s' <> None)).

#[local] Instance close_kept_keeps : Keeps close_kept.
Proof.
  split; try (by intros; split; [| tauto]).
  - split; [by intros s; split |]. intros s t u [H1 H2] [H3 H4]. split; [| tauto]. intros Hs.
    destruct (H1 Hs) as [Ht E]. destruct (H3 Ht) as [Hu E']. split; congruence.
  - intros s e. unfold close_kept, close_with. destruct (s_closeOnce s) eqn:E; (split; [intros ?; by split |]); [by rewrite E |]. intros _. by split.
  - intros s hdr. unfold close_kept, switch_connID. destruct (_ && _); [by split; [| tauto] | by split].
Qed.

(** What a session is set up with, and the connection ID of the peer: only the
    first packet a client opens may change it. *)
Definition identity_kept (s s' : session) : Prop :=
  s_perspective s' = s_perspective s /\ s_srcConnID s' = s_srcConnID s /\ s_version s' = s_version s
  /\ s_config s' = s_config s /\ s_creationTime s' = s_creationTime s
  /\ (s_receivedFirstPacket s = true -> s_receivedFirstPacket s' = true)
  /\ (s_receivedFirstPacket s = true \/ s_perspective s = PerspectiveServer -> s_destConnID s' = s_destConnID s).

#[local] Instance identity_kept_keeps : Keeps identity_kept.
Proof.
  split; try (by intros; split_and!).
  - split; [by intros s; split_and! |]. intros s t u (A1 & A2 & A3 & A4 & A5 & A6 & A7) (B1 & B2 & B3 & B4 & B5 & B6 & B7).
    split_and!; try congruence; [tauto |]. intros [H | H]; (rewrite B7; [apply A7; tauto |]); [left; tauto | right; congruence].
  - intros s e. unfold identity_kept, close_with. by destruct (s_closeOnce s).
  - intros s hdr. unfold identity_kept, switch_connID. case_bool_decide; [| by split_and!].
    destruct (s_receivedFirstPacket s) eqn:E; [by split_and! |]. cbn [andb negb]. destruct (wrong_source s hdr); split_and!; try done.
    intros [? | ?]; congruence.
Qed.

Definition out_kept (s s' : session) : Prop := s_out s `prefix_of` s_out s'.

#[local] Instance out_kept_keeps : Keeps out_kept.
Proof.
  split; unfold out_kept; try (intros; reflexivity).
  - split; [by intros s; exists []; rewrite app_nil_r | intros s t u [x ->] [y ->]; exists (x ++ y); by rewrite app_assoc].
  - intros s o [x ->]. by exists x.
  - intros s e. unfold close_with. by destruct (s_closeOnce s).
  - intros s hdr. unfold switch_connID. by destruct (_ && _).
Qed.

(** Whether the peer is told. *)
Definition announced (c : closeError) : bool :=
  ce_sendClose c && negb (ce_remote c) && negb ((ToQuicError (default (ErrorCode PeerGoingAway) (ce_err c))).1 =? DecryptionFailure).

Definition close_frame (c : closeError) : ConnectionCloseFrame :=
  let '(code, msg) := ToQuicError (default (ErrorCode PeerGoingAway) (ce_err c)) in mkConnectionCloseFrame false code (error_text msg).

(** The state with all streams closed. *)
Definition shut_down (c : closeError) (s : session) : session :=
  let '(code, msg) := ToQuicError (default (ErrorCode PeerGoingAway) (ce_err c)) in
  set_s_streams s (sm_CloseWithError str_closeForShutdown (fun e h => send_closeForShutdown h e)
    (fun e h => receive_closeForShutdown h e) (s_streams s) (QuicError code msg)).

(** What is written when the session has ended. *)
Definition last_words (c : closeError) (sent : list output) : Prop :=
  sent = [] \/ announced c = true
    /\ exists k path, sent = [Datagram (pk_raw k) path] /\ pk_frames k = [ConnectionClose (close_frame c)].

Lemma finish_spec c s :
  match finish error_text c s with
  | Done _ s' => s_streams s' = s_streams (shut_down c s)
      /\ exists sent, s_out s' = s_out s ++ sent ++ [RemovedConnectionID (s_srcConnID s)] /\ last_words c sent
  | Failed _ _ => False
  | Crashed _ => announced c = true
  end.
Proof.
  unfold finish, handleCloseError, last_words, announced, close_frame, shut_down.
  destruct (ToQuicError _) as [code msg]. set (s1 := set_s_streams s _). cbn [fst].
  destruct (ce_sendClose c); cbn [negb andb]; [| split; [done |]; exists []; split; [done | by left]].
  destruct (ce_remote c); cbn [negb andb]; [split; [done |]; exists []; split; [done | by left] |].
  destruct (code =? DecryptionFailure); cbn [negb andb]; [split; [done |]; exists []; split; [done | by left] |].
  unfold sendConnectionClose, mbind, action_bind, call.
  destruct (PackConnectionClose _ s1 _) as [[[k p] s2] | e | m] eqn:Ep; [| split; [done |]; exists []; split; [done | by left] | done].
  unfold PackConnectionClose in Ep. destruct (env_GetSealer s1) as [l sealer].
  apply pack_frames_env in Ep as [Es2 Hk]. assert (Hf : pk_frames k = [ConnectionClose (mkConnectionCloseFrame false code (error_text msg))])
    by (by destruct Hk as [-> | ->]).
  assert (E2 : s_streams s2 = s_streams s1 /\ s_out s2 = s_out s /\ s_srcConnID s2 = s_srcConnID s).
  { rewrite Es2. cbn. by destruct (PopPacketNumber _ _). }
  destruct E2 as (E3 & E4 & E5). unfold conn_Write. cbn [s_env set_s_packer s_conn s_out].
  destruct (hd _ _) as [turns err]. destruct (sched_Write _ _) as [[[path |] c'] | e | m];
    [| done | split; [done |]; exists []; cbn; rewrite E4, E5; split; [done | by left] | done].
  assert (Hw : exists sent, (s_out s2 ++ [Datagram (pk_raw k) path]) ++ [RemovedConnectionID (s_srcConnID s2)]
      = s_out s ++ sent ++ [RemovedConnectionID (s_srcConnID s)]
      /\ (sent = [] \/ true = true /\ exists k' path', sent = [Datagram (pk_raw k') path']
          /\ pk_frames k' = [ConnectionClose (mkConnectionCloseFrame false code (error_text msg))])).
  { exists [Datagram (pk_raw k) path]. rewrite E4, E5, app_assoc. split; [done |]. right. split; [done |]. by exists k, path. }
  destruct err; cbn; (split; [done | exact Hw]).
Qed.

(** C24. Closing: the first request to close a session decides.  It stays whatever
    happens until the loop takes it; then all streams are closed with its error,
    the connection ID is released, and at most one packet is written, with a
    CONNECTION_CLOSE frame that tells the error, never after a close by the peer,
    after [destroy], or for packets that could not be opened. *)
Theorem session_closed_once s0 s c : s_closeOnce s0 = false -> s_closeChan s0 = None ->
  rtc run_step s0 s -> s_closeChan s = Some c ->
  (forall s', rtc run_step s s' -> s_closeChan s' = Some c)
  /\ (announced c = false -> exists s', finish error_text c s = Done tt s')
  /\ forall s', finish error_text c s = Done tt s' ->
     s_streams s' = s_streams (shut_down c s)
     /\ exists sent, s_out s' = s_out s ++ sent ++ [RemovedConnectionID (s_srcConnID s0)] /\ last_words c sent.
Proof.
  intros H1 H2 Hr Hc. destruct (run_keeps close_kept _ _ Hr) as [_ Hi].
  assert (Ho : s_closeOnce s = true) by (apply Hi; [split; congruence | congruence]).
  destruct (run_keeps identity_kept _ _ Hr) as (_ & Esrc & _). pose proof (finish_spec c s) as Hf. split_and!.
  - intros s' Hs'. destruct (run_keeps close_kept _ _ Hs') as [Hk _]. destruct (Hk Ho) as [_ ->]. done.
  - intros Ha. destruct (finish error_text c s) as [[] s' | |]; [by exists s' | done | congruence].
  - intros s' E. rewrite E in Hf. by rewrite <- Esrc.
Qed.
End Runs.

(** ** Sending ends *)

Section Sending.
Context {Net : NetLib} {Ewma : EWMA}.
Context {C : Type} {SA : SendAlgorithm C} {T : Type} {CT : CryptoSetup T}.
#[local] Abbreviation session := (@Session.session Ewma C T).

(** The queue of lost packets is worked off; if no packet is left, it is empty. *)
Lemma dequeue_ends (s : session) fuel : (length (retransmissionQueue (s_sent s)) < fuel)%nat ->
  exists x t, dequeue_retransmission fuel s = Some (x, t) /\ (x = None -> retransmissionQueue (s_sent t) = []).
Proof.
  revert s. induction fuel as [| fuel IH]; intros s Hf; [lia |]. cbn [dequeue_retransmission].
  unfold DequeuePacketForRetransmission. destruct (retransmissionQueue (s_sent s)) as [| y q] eqn:E.
  - eexists _, _. by split.
  - destruct (_ && _).
    + apply IH. cbn in *. lia.
    + eexists _, _. by split.
Qed.

Lemma maybeSendRetransmission_false (s t : session) : maybeSendRetransmission s = Done false t ->
  retransmissionQueue (s_sent t) = [].
Proof.
  unfold maybeSendRetransmission.
  destruct (dequeue_ends s (S (length (retransmissionQueue (s_sent s)))) ltac:(lia)) as (x & u & -> & Hx).
  destruct x as [x |]; [| intros [= <-]; by apply Hx]. unfold mbind, action_bind.
  by destruct (retransmit_packet x u) as [[] v | |].
Qed.

Lemma send_retransmission_queue (h : @sentPacketHandler C) : handler_SendMode h = SendRetransmission -> retransmissionQueue h <> [].
Proof.
  unfold handler_SendMode. repeat case_match; try done. intros _ E. by rewrite E in *.
Qed.

(** What is left to do: two turns for every packet that may still be sent, and one
    for a queue that is not empty. *)
Definition turns_left (n k : Z) (s : session) : nat :=
  2 * Z.to_nat (n - k) + (if decide (retransmissionQueue (s_sent s) = []) then 0 else 1).

Lemma send_loop_ends fuel n : forall k (s : session), (turns_left n k s + 1 < fuel)%nat ->
  exists r, send_loop fuel n k s = Some r /\ forall m t, r = Done (Some m) t -> k <= m /\ (m <= n \/ m <= k + 1).
Proof.
  induction fuel as [| fuel IH]; intros k s Hf; [lia |]. cbn [send_loop]. unfold turns_left in *.
  assert (Hnext : forall t, exists r, (if n <=? k + 1 then Some (Done (Some (k + 1)) t) else send_loop fuel n (k + 1) t) = Some r
    /\ forall m u, r = Done (Some m) u -> k <= m /\ (m <= n \/ m <= k + 1)).
  { intros t. destruct (Z.leb_spec n (k + 1)).
    - eexists. split; [done |]. intros m u [= <- _]. lia.
    - destruct (IH (k + 1) t) as (r & -> & Hr); [destruct (decide _) in |- *; destruct (decide _) in Hf; lia |].
      exists r. split; [done |]. intros m u E. destruct (Hr m u E). lia. }
  assert (Hfail : forall r, (forall m (t : session), r <> Done (Some m) t) ->
    exists r', Some r = Some r' /\ forall m t, r' = Done (Some m) t -> k <= m /\ (m <= n \/ m <= k + 1)).
  { intros r Hr. exists r. split; [done |]. intros m t E. by destruct (Hr m t). }
  destruct (handler_SendMode (s_sent s)) eqn:Em.
  - eexists. split; [done |]. intros m t [= <- _]. lia.
  - destruct (0 <? k); [by apply Hfail |]. apply Hfail. intros m t. unfold mbind, action_bind.
    by destruct (maybeSendAckOnlyPacket s).
  - apply send_retransmission_queue in Em. destruct (maybeSendRetransmission s) as [[|] t | e t | msg] eqn:E; cbn [and_then].
    + apply Hnext.
    + apply maybeSendRetransmission_false in E. destruct (Z.leb_spec n k).
      * eexists. split; [done |]. intros m u [= <- _]. lia.
      * destruct (IH k t) as (r & -> & Hr); [rewrite decide_True by done; rewrite decide_False in Hf by done; lia |].
        by exists r.
    + by apply Hfail.
    + by apply Hfail.
  - destruct (sendProbePacket s); cbn [and_then]; [apply Hnext | by apply Hfail..].
  - destruct (sendProbePacket s); cbn [and_then]; [apply Hnext | by apply Hfail..].
  - destruct (sendPacket s) as [[|] t | e t | msg]; cbn [and_then]; [apply Hnext | | by apply Hfail..].
    eexists. split; [done |]. intros m u [= <- _]. lia.
Qed.

(** The loop of [sendPackets] ends: with the fuel it is given it comes to one of
    its ends, whatever the components do, and at most the number of packets that
    pacing allows (or a single one) is sent. *)
Theorem send_loop_terminates n (s : session) :
  exists r, send_loop (send_fuel n) n 0 s = Some r /\ forall m t, r = Done (Some m) t -> 0 <= m <= Z.max n 1.
Proof.
  destruct (send_loop_ends (send_fuel n) n 0 s) as (r & H & Hr).
  - unfold send_fuel, turns_left. destruct (decide _); lia.
  - exists r. split; [done |]. intros m t E. destruct (Hr m t E). lia.
Qed.
End Sending.

(** ** Packets that cannot be opened *)

Section Forged.
Context {Net : NetLib} {Ewma : EWMA} {ListenUDP : UDPAddr -> outcome Socket}.
Context {C : Type} {SA : SendAlgorithm C} {T : Type} {CT : CryptoSetup T}.
#[local] Abbreviation session := (@Session.session Ewma C T).

(** The encryption level of a packet, by its header. *)
Definition header_level (hdr : Header) : option EncryptionLevel :=
  if Header_Type hdr =? PacketTypeInitial then Some EncryptionInitial
  else if Header_Type hdr =? PacketTypeHandshake then Some EncryptionHandshake
  else if IsLongHeader hdr then None else Some Encryption1RTT.

Lemma Unpack_level (Open : EncryptionLevel -> list Z -> Z -> list Z -> outcome (list Z)) raw hdr data :
  match header_level hdr with
  | None => Unpack Open raw hdr data = Err (Errorf "unknown packet type: %s" [Header_Type hdr])
  | Some l => forall e, Open l data (Header_PacketNumber hdr) raw = Err e -> Unpack Open raw hdr data = Err (QuicError DecryptionFailure (MsgOf e))
  end.
Proof.
  unfold header_level, Unpack. destruct (_ =? _); [intros e H; cbn; by rewrite H |].
  destruct (_ =? _); [intros e H; cbn; by rewrite H |]. destruct (IsLongHeader hdr); [done |]. intros e H. cbn. by rewrite H.
Qed.


(** Yet a client can be closed by anybody who knows its connection IDs, without
    any key: a long-header packet that is neither Initial nor Handshake, such as a
    0-RTT packet, is passed to the session, cannot be unpacked, and the error,
    which is not the one for failed decryption, closes the session. *)
Theorem unknown_type_closes_client ids c hdr data (s : session) ps rcvTime :
  IsVersionNegotiation hdr = false -> IsLongHeader hdr = true -> DestConnectionID hdr = c_srcConnID c ->
  Header_Type hdr <> PacketTypeInitial -> Header_Type hdr <> PacketTypeHandshake -> Header_Type hdr <> PacketTypeRetry ->
  s_receivedPackets s = mkReceivedPacket hdr data rcvTime :: ps ->
  s_receivedFirstPacket s = false \/ SrcConnectionID hdr = s_destConnID s -> s_closeOnce s = false ->
  (exists c', client_handlePacketImpl ids c hdr data = (None, [Handle hdr data], c'))
  /\ exists s', select ListenUDP ByPacket s = Done false s'
     /\ s_closeChan s' = Some (mkCloseError (Some (Errorf "unknown packet type: %s" [Header_Type hdr])) false true).
Proof.
  intros Hv Hlong Hd H1 H2 H3 Hp Hs Hc. split.
  - unfold client_handlePacketImpl. rewrite Hv, (bool_decide_true _ Hd). cbn [negb].
    rewrite (proj2 (Z.eqb_neq _ _) H3). by eexists.
  - cbn [select]. rewrite Hp. unfold session_handlePacketImpl. set (s1 := set_s_receivedPackets s ps).
    assert (Hw : s_receivedFirstPacket s1 && wrong_source s1 hdr = false).
    { destruct Hs as [Hs | Hs]; [by change (s_receivedFirstPacket s1) with (s_receivedFirstPacket s); rewrite Hs |].
      unfold wrong_source. change (s_destConnID s1) with (s_destConnID s). rewrite bool_decide_true by done.
      by rewrite !andb_false_r. }
    cbn [rp_header]. rewrite Hw.
    pose proof (Unpack_level (ct_Open (s_crypto s1)) (Header_Raw hdr) (infer_number (s_largestRcvd s1) hdr) data) as Hu.
    assert (Hl : header_level (infer_number (s_largestRcvd s1) hdr) = None).
    { unfold header_level. cbn. rewrite (proj2 (Z.eqb_neq _ _) H1), (proj2 (Z.eqb_neq _ _) H2). by rewrite Hlong. }
    rewrite Hl in Hu. cbn [infer_packet rp_header rp_data]. cbn in Hu |- *. rewrite Hu. cbn [is_decryption_failure].
    eexists. split; [done |]. unfold closeLocal, close_with. change (s_closeOnce s1) with (s_closeOnce s). by rewrite Hc.
Qed.
End Forged.

(** ** Timers *)

Section Timers.
Context {Net : NetLib} {Ewma : EWMA} {ListenUDP : UDPAddr -> outcome Socket}.
Context {C : Type} {SA : SendAlgorithm C} {L : SendAlgorithmLaws C} {T : Type} {CT : CryptoSetup T}.
#[local] Abbreviation session := (@Session.session Ewma C T).

(** The times at which a session has something to do. *)
Definition deadlines (s : session) : list Z :=
  match s_peerParams s with
  | Some p => if KeepAlive (s_config s) && s_handshakeComplete s && negb (s_keepAlivePingSent s)
              then [s_lastActivity s + Z.quot (IdleTimeout p) 2] else [s_lastActivity s + Config_IdleTimeout (s_config s)]
  | None => [s_lastActivity s + Config_IdleTimeout (s_config s)]
  end
  ++ (if ackAlarm (s_received s) =? 0 then [] else [ackAlarm (s_received s)])
  ++ (if alarm (s_sent s) =? 0 then [] else [alarm (s_sent s)])
  ++ (if s_handshakeComplete s then [] else [s_creationTime s + HandshakeTimeout (s_config s)])
  ++ (if s_pacingDeadline s =? 0 then [] else [s_pacingDeadline s]).

Definition least (d : Z) (l : list Z) : Prop := d ∈ l /\ forall x, x ∈ l -> d <= x.

Lemma least_one d : least d [d].
Proof. split; [by left |]. intros x Hx. apply list_elem_of_singleton in Hx as ->. lia. Qed.
Lemma least_min d l x : least d l -> least (min_time d x) (l ++ [x]).
Proof.
  intros [H1 H2]. unfold min_time. split.
  - destruct (d <? x); apply elem_of_app; [by left | right; by left].
  - intros y Hy. apply elem_of_app in Hy as [Hy | Hy%list_elem_of_singleton]; [apply H2 in Hy | subst y];
      destruct (Z.ltb_spec d x); lia.
Qed.
Lemma least_if d l x (b : bool) : least d l -> least (if b then d else min_time d x) (l ++ (if b then [] else [x])).
Proof. intros H. destruct b; [by rewrite app_nil_r | by apply least_min]. Qed.

(** The run loop is woken up for the first of them. *)
Theorem timer_in_time (s : session) : (s_handshakeComplete s = true -> s_peerParams s <> None) ->
  exists d, timer_deadline s = Ok d /\ least d (deadlines s).
Proof.
  intros Hp. unfold timer_deadline, deadlines. rewrite !app_assoc.
  destruct (s_peerParams s) as [p |] eqn:Ep.
  - destruct (_ && _); cbn [mbind outcome_bind]; (eexists; split; [done |]; repeat apply least_if; apply least_one).
  - destruct (s_handshakeComplete s) eqn:Eh; [by destruct (Hp eq_refl) |].
    rewrite andb_false_r. cbn [andb mbind outcome_bind]. eexists. split; [done |].
    apply least_if. apply (least_if _ _ _ false). repeat apply least_if. apply least_one.
Qed.

(** The handshake or the peer has taken too long. *)
Definition expired (s : session) : bool :=
  if s_handshakeComplete s then Config_IdleTimeout (s_config s) <=? e_now (s_env s) - s_lastActivity s
  else HandshakeTimeout (s_config s) <=? e_now (s_env s) - s_creationTime s.

Lemma closeLocal_once e (s : session) : s_closeOnce (closeLocal e s) = true.
Proof. unfold closeLocal, close_with. by destruct (s_closeOnce s) eqn:E. Qed.

Lemma check_expired (s : session) : expired s = true -> exists t, check_and_send s = Done tt t /\ s_closeOnce t = true.
Proof.
  unfold expired, check_and_send. destruct (s_handshakeComplete s); cbn [andb negb]; intros ->; eexists; split; try done; apply closeLocal_once.
Qed.

Lemma handle_alarm_ok (s : session) clock leaked : handler_inv (s_sent s) clock leaked ->
  exists h, handle_alarm s = Done tt (set_s_sent s h) /\ handler_inv h clock leaked.
Proof.
  intros Hi. unfold handle_alarm. destruct (_ && _); [| exists (s_sent s); split; [by destruct s | done]].
  destruct (OnAlarm_ok _ _ _ (e_now (s_env s)) Hi) as (h & E & Hi' & _). exists h. unfold or_close, call. by rewrite E.
Qed.

(** One iteration closes an expired session, unless pacing makes it wait. *)
Lemma after_select_expired (s : session) clock leaked : handler_inv (s_sent s) clock leaked -> s_peerParams s <> None \/ s_handshakeComplete s = false ->
  expired s = true ->
  exists t, after_select s = Done tt t
    /\ (s_closeOnce t = true \/ s_pacingDeadline s = 0 /\ exists h d, t = set_s_pacingDeadline (set_s_sent s h) d /\ d <> 0 /\ handler_inv h clock leaked).
Proof.
  intros Hi Hp He. destruct (handle_alarm_ok s clock leaked Hi) as (h & Ea & Hi'). unfold after_select, mbind, action_bind. rewrite Ea.
  set (s1 := set_s_sent s h). assert (He1 : forall b f, expired (set_s_keepAlivePingSent (set_s_framer s1 f) b) = true) by done.
  unfold pace_and_send.
  destruct (keep_alive_due s1) as [[|] | e | msg] eqn:Ek.
  - destruct (check_expired _ (He1 true (Framer.QueueControlFrame (s_framer s1) Ping))) as (t & -> & Ht). exists t. by split; [| left].
  - destruct (negb _ && _) eqn:Ep.
    + eexists. split; [done |]. right. change (s_pacingDeadline s1) with (s_pacingDeadline s) in Ep |- *.
      destruct (Z.eqb_spec (s_pacingDeadline s) 0) as [E0 |]; [| done]. split; [done |].
      exists h. eexists. split; [done |]. split; [| done]. intros E. by rewrite E in Ep.
    + destruct (check_expired s1) as (t & -> & Ht); [done |]. exists t. by split; [| left].
  - unfold keep_alive_due in Ek. destruct (_ && _ && _); [by destruct (s_peerParams s1) | done].
  - unfold keep_alive_due in Ek. change (s_peerParams s1) with (s_peerParams s) in Ek.
    change (s_handshakeComplete s1) with (s_handshakeComplete s) in Ek.
    destruct Hp as [Hp | Hp]; [by destruct (_ && _ && _); [destruct (s_peerParams s) |] | rewrite Hp, andb_false_r in Ek; done].
Qed.

(** C27. A session that has expired, because no packet has arrived for the idle timeout
    or the handshake takes too long, is closed when its timer fires, or, if pacing
    makes it wait once more, when the timer fires the next time. *)
Theorem expired_session_closes (s : session) clock discarded :
  sph_reach (s_sent s, clock, discarded) -> s_peerParams s <> None \/ s_handshakeComplete s = false -> expired s = true ->
  exists t, loop_body ListenUDP ByTimer s = Done tt t
    /\ (s_closeOnce t = true
        \/ s_pacingDeadline t <> 0
           /\ forall e, e_now (s_env t) <= e_now e -> exists u, loop_body ListenUDP ByTimer (set_s_env t e) = Done tt u /\ s_closeOnce u = true).
Proof.
  intros Hr Hp He. apply reach_inv in Hr as Hi. unfold state_inv in Hi. cbn in Hi.
  change (loop_body ListenUDP ByTimer s) with (after_select s).
  destruct (after_select_expired s clock discarded Hi Hp He) as (t & Et & Ht). exists t. split; [done |].
  destruct Ht as [Ht | (_ & h & d & -> & Hd & Hh)]; [by left |]. right. split; [done |]. intros e Hle.
  set (t := set_s_pacingDeadline (set_s_sent s h) d) in *.
  change (loop_body ListenUDP ByTimer (set_s_env t e)) with (after_select (set_s_env t e)).
  assert (He' : expired (set_s_env t e) = true).
  { clear - He Hle. unfold expired in *. cbn in *. destruct (s_handshakeComplete s); apply Z.leb_le; apply Z.leb_le in He; lia. }
  destruct (after_select_expired (set_s_env t e) clock discarded Hh Hp He') as (u & Eu & Hu). exists u. split; [done |].
  by destruct Hu as [Hu | (Hu & _)].
Qed.
End Timers.

(** ** Packets of the peer *)

Section Delivered.
Context {Net : NetLib} {P : UDPAddr -> Prop} {NetLaws : NetLibLaws P} {Ewma : EWMA} {ListenUDP : UDPAddr -> outcome Socket}.
Context {C : Type} {SA : SendAlgorithm C} {T : Type} {CT : CryptoSetup T}.
#[local] Abbreviation session := (@Session.session Ewma C T).

(** The state in which the frames of a packet are handled. *)
Definition noted (hdr : Header) (pn t : Z) (h : receivedPacketHandler) (s : session) : session :=
  set_s_received (note_number pn (note_activity t (switch_connID hdr s))) h.

(** No news about the handshake. *)
Definition settled (level : EncryptionLevel) (s : session) : Prop :=
  s_perspective s = PerspectiveServer \/ s_receivedFirstForwardSecurePacket s = true \/ level <> Encryption1RTT.

Lemma handle_unpacked_noted p packet (s : session) h :
  settled (up_encryptionLevel packet) s -> Header_Type (rp_header p) <> PacketTypeRetry ->
  ReceivedPacket (s_received s) (minRTT (rttStats (s_sent s))) (Header_PacketNumber (rp_header p)) (rp_rcvTime p)
    (HasRetransmittableFrames (up_frames packet)) = Ok (h, None) ->
  handle_unpacked ListenUDP p packet s
  = handleFrames ListenUDP (up_frames packet) (up_encryptionLevel packet)
      (noted (rp_header p) (Header_PacketNumber (rp_header p)) (rp_rcvTime p) h s).
Proof.
  intros Hs Ht Hr. unfold handle_unpacked. set (frames := handleFrames ListenUDP _ _). unfold mbind, action_bind, modify.
  set (s1 := note_activity (rp_rcvTime p) (switch_connID (rp_header p) s)).
  assert (E : s_received s1 = s_received s /\ s_sent s1 = s_sent s /\ s_perspective s1 = s_perspective s
    /\ s_receivedFirstForwardSecurePacket s1 = s_receivedFirstForwardSecurePacket s).
  { subst s1. unfold switch_connID. by destruct (_ && _). }
  destruct E as (E1 & E2 & E3 & E4).
  assert (Hf : note_forward_secure packet s1 = Done tt s1).
  { unfold note_forward_secure. rewrite E3, E4. destruct Hs as [-> | [-> | Hn]]; [done | by rewrite andb_false_r |].
    by rewrite (bool_decide_false _ Hn), andb_false_r. }
  rewrite Hf. unfold note_received. rewrite (proj2 (Z.eqb_neq _ _) Ht).
  change (s_received (note_number (Header_PacketNumber (rp_header p)) s1)) with (s_received s1).
  change (s_sent (note_number (Header_PacketNumber (rp_header p)) s1)) with (s_sent s1). rewrite E1, E2, Hr. reflexivity.
Qed.

(** C25. What the packer of one endpoint packs the session of the other one handles:
    the packet handler map gives it the bytes, it infers the number, opens the
    packet, and handles all the frames in their order, at their encryption level,
    after it has noted the packet for the acknowledgement. *)
Theorem packet_handled {H S : Type} (p : packetPacker) (level : EncryptionLevel) (sealer : Sealer) (pkt : packedPacket)
    (m : packetHandlerMap (H := H) (S := S)) (here : H) (s : session) h t :
  packer_ok p -> sealer_ok sealer -> packed (P := P) p level sealer pkt -> level <> EncryptionUnspecified ->
  (forall payload pn ad, ct_Open (s_crypto s) level (Seal sealer payload pn ad) pn ad = Ok payload) ->
  connIDLen m = len (p_destConnID p) -> handlers m !! p_destConnID p = Some (Some here) ->
  (add_padding p (pk_header pkt) = true -> len (pk_raw pkt) <= MinInitialPacketSize) ->
  0 <= s_largestRcvd s < 2 ^ 62 -> Header_PacketNumber (pk_header pkt) < 2 ^ 62 ->
  Z.abs (Header_PacketNumber (pk_header pkt) - (s_largestRcvd s + 1)) < 2 ^ (pn_bits (Header_PacketNumberLen (pk_header pkt)) - 1) ->
  s_receivedFirstPacket s = false \/ p_srcConnID p = s_destConnID s -> settled level s -> t <> 0 ->
  exists hdr data fs',
    handlePacket m (pk_raw pkt) = Ok (ToSession here hdr data) /\ Forall2 seen (pk_frames pkt) fs'
    /\ (ReceivedPacket (s_received s) (minRTT (rttStats (s_sent s))) (Header_PacketNumber (pk_header pkt)) t (HasRetransmittableFrames fs')
         = Ok (h, None) ->
        session_handlePacketImpl ListenUDP (mkReceivedPacket hdr data t) s
        = handleFrames ListenUDP fs' level (noted hdr (Header_PacketNumber (pk_header pkt)) t h s)).
Proof.
  intros Hp Hseal Hpk Hlev Hopen Hlen Hsess Hpad Hlast Hpn Hwin Hsrc Hset Ht.
  destruct (packed_arrives (ct_Open (s_crypto s)) p level sealer pkt m here (s_largestRcvd s) Hp Hseal Hpk Hlev Hopen Hlen Hsess Hpad
    Hlast Hpn Hwin) as (hdr & data & fs' & H1 & H2 & H3 & H4 & H5 & H6).
  assert (Hty : Header_Type hdr <> PacketTypeRetry) by (rewrite H6; by destruct level).
  exists hdr, data, fs'. split_and!; [done | done |]. intros Hr. unfold session_handlePacketImpl.
  assert (Hw : s_receivedFirstPacket s && wrong_source s hdr = false).
  { destruct Hsrc as [-> | Hsrc]; [done |]. unfold wrong_source. destruct (IsLongHeader hdr) eqn:El; [| by rewrite andb_false_r].
    rewrite (H5 eq_refl), bool_decide_true by done. by rewrite andb_false_r. }
  cbn [rp_header]. rewrite Hw. unfold infer_packet. cbn [rp_header rp_data rp_rcvTime]. rewrite (proj2 (Z.eqb_neq _ _) Ht).
  change (Header_Raw (infer_number (s_largestRcvd s) hdr)) with (Header_Raw hdr). rewrite H3.
  rewrite (handle_unpacked_noted _ _ _ h); cbn [rp_header rp_rcvTime up_frames up_encryptionLevel]; [| done | exact Hty | by rewrite H2].
  rewrite H2. reflexivity.
Qed.
End Delivered.

(** ** Defects *)

Section Defects.
Context {Net : NetLib} {P : UDPAddr -> Prop} {NetLaws : NetLibLaws P} {Ewma : EWMA} {ListenUDP : UDPAddr -> outcome Socket}.
Context {C : Type} {SA : SendAlgorithm C} {L : SendAlgorithmLaws C} {T : Type} {CT : CryptoSetup T}.
#[local] Abbreviation session := (@Session.session Ewma C T).

(** An OWD frame whose time is not in the future. *)
Definition owd_past (now : Z) (f : OwdFrame) : Prop := is_u32 (Owd_pathID f) /\ 0 <= Owd_time f <= now.

(** Clocks that do not go backwards. *)
Fixpoint in_order (now : Z) (ss : list session) : Prop :=
  match ss with [] => True | s :: ss => now <= now_unix s < 2 ^ 62 /\ in_order (now_unix s) ss end.

(** Sessions that handle an OWD frame in turn: each queues one frame, which the
    next one reads as an OWD frame. *)
Inductive ping_pong (l : EncryptionLevel) : list session -> OwdFrame -> Prop :=
  | pp_end f : ping_pong l [] f
  | pp_step s ss f g f' : handleFrame ListenUDP l (Owd f) s = Done tt (queueControlFrame (OwdAck g) s) ->
      (forall rest, transmits (OwdAck g) (Owd f') rest) -> ping_pong l ss f' -> ping_pong l (s :: ss) f.

(** Delay measurements never end: an OWD frame is answered by an OWD_ACK frame,
    which is written with the type of OWD frames, so the peer answers it again, and
    so on; each measurement of a path adds a frame that is sent back and forth for
    the rest of the connection. *)
Theorem owd_ping_pong l ss : forall now f, owd_past now f -> in_order now ss -> ping_pong l ss f.
Proof.
  induction ss as [| s ss IH]; intros now f [Hp Ht] Hs; [constructor |]. destruct Hs as [Hn Hs].
  assert (E : u64 (now_unix s) -64 Owd_time f = now_unix s - Owd_time f)
    by (unfold sub64, u64; rewrite (Z.mod_small (now_unix s)), Z.mod_small by lia; done).
  econstructor; [reflexivity | |].
  - intros rest. cbn [NewOwdAckFrame OwdAck_pathID OwdAck_owd]. apply (OwdAck_transmits (P := P)). rewrite E.
    split; cbn; [done |]. unfold is_varint, maxVarInt8. lia.
  - cbn [NewOwdAckFrame OwdAck_pathID OwdAck_owd]. rewrite E. apply (IH (now_unix s)); [split; cbn; [done | lia] | done].
Qed.

(** An OWD frame with a time in the future, from a peer whose clock is ahead or
    who lies, makes the endpoint panic: the difference wraps around, the OWD_ACK
    frame that is queued cannot be encoded, and the next packet is never packed. *)
Theorem owd_from_future_panics l f (s : session) : is_u32 (Owd_pathID f) -> 0 <= now_unix s < Owd_time f -> Owd_time f < 2 ^ 62 ->
  exists s', handleFrame ListenUDP l (Owd f) s = Done tt s'
    /\ (forall frames n, exists msg, env_AppendControlFrames s' frames n = Panic msg)
    /\ (HasData (p_initialStream (s_packer s)) = false -> HasData (p_handshakeStream (s_packer s)) = false ->
        p_hasSentPacket (s_packer s) = true -> (GetAckFrame (s_received s) (e_now (s_env s))).1 = None ->
        (exists n, GetLength (getHeader (s_packer s) s (ct_GetSealer (s_crypto s)).1) = Ok n) ->
        exists msg, PackPacket (s_packer s') s' = Panic msg).
Proof.
  intros Hp Ht Hb. exists (handleOneWayDelayFrame f s). split; [reflexivity |]. set (s' := handleOneWayDelayFrame f s).
  assert (E : u64 (now_unix s) -64 Owd_time f = now_unix s - Owd_time f + 2 ^ 64).
  { unfold sub64, u64. rewrite (Z.mod_small (now_unix s)) by lia.
    rewrite <- (Z.mod_small (now_unix s - Owd_time f + 2 ^ 64) (2 ^ 64)) by lia.
    by rewrite <- (Z_mod_plus_full (now_unix s - Owd_time f) 1 (2 ^ 64)). }
  assert (Hc : forall frames n, exists msg, AppendControlFrames (s_framer s') frames n = Panic msg).
  { intros frames n. unfold AppendControlFrames. cbn [s' s_framer handleOneWayDelayFrame queueControlFrame scheduleSending set_s_framer
      set_s_sendingScheduled Framer.QueueControlFrame controlFrames]. rewrite rev_app_distr. cbn [rev app take_control Frame_Length].
    unfold OwdAckFrame_Length. cbn [NewOwdAckFrame OwdAck_pathID OwdAck_owd]. rewrite E.
    rewrite (VarIntLen_vlen (Owd_pathID f)) by (unfold is_varint, maxVarInt8; unfold is_u32 in Hp; lia). cbn [mbind outcome_bind].
    unfold VarIntLen, maxVarInt1, maxVarInt2, maxVarInt4, maxVarInt8. case_cmp; try lia. by eexists. }
  split.
  - intros frames n. cbn [env_AppendControlFrames session_packer_env]. destruct (Hc frames n) as [msg ->]. by exists msg.
  - intros H1 H2 H3 H4 [n Hn]. unfold PackPacket, maybePackCryptoPacket. change (s_packer s') with (s_packer s).
    rewrite H1, H2. cbn [mbind outcome_bind]. rewrite H3. cbn [negb env_GetSealer session_packer_env].
    change (s_crypto s') with (s_crypto s). destruct (ct_GetSealer (s_crypto s)) as [lv sealer]. cbn [fst] in Hn.
    change (getHeader (s_packer s) s' lv) with (getHeader (s_packer s) s lv). rewrite Hn. cbn [mbind outcome_bind].
    unfold composeNextPacket. cbn [env_GetAckFrame session_packer_env].
    change (s_received s') with (s_received s). change (e_now (s_env s')) with (e_now (s_env s)).
    destruct (GetAckFrame (s_received s) (e_now (s_env s))) as [ack h]. cbn [fst] in H4. rewrite H4. cbn [mbind outcome_bind].
    cbn [env_AppendControlFrames session_packer_env]. change (s_framer (set_s_received s' h)) with (s_framer s').
    match goal with |- context [AppendControlFrames (s_framer s') ?a ?b] => destruct (Hc a b) as [msg ->] end. by exists msg.
Qed.

(** Keep-alive comes too late: if half the idle timeout of the peer is not less
    than our own idle timeout, no PING is sent before our own timeout is over, and
    when the timer fires the session closes itself. *)
Theorem keep_alive_too_late (s : session) p : KeepAlive (s_config s) = true -> s_handshakeComplete s = true ->
  s_keepAlivePingSent s = false -> s_peerParams s = Some p -> Config_IdleTimeout (s_config s) <= Z.quot (IdleTimeout p) 2 ->
  ackAlarm (s_received s) = 0 -> alarm (s_sent s) = 0 -> s_pacingDeadline s = 0 ->
  timer_deadline s = Ok (s_lastActivity s + Z.quot (IdleTimeout p) 2)
  /\ (e_now (s_env s) < s_lastActivity s + Z.quot (IdleTimeout p) 2 -> keep_alive_due s = Ok false)
  /\ (s_lastActivity s + Z.quot (IdleTimeout p) 2 <= e_now (s_env s) ->
      exists t, loop_body ListenUDP ByTimer s = Done tt t /\ s_closeOnce t = true).
Proof.
  intros Hk Hh Hs Hp Hle Ha Hl Hpc. split_and!.
  - unfold timer_deadline. by rewrite Hk, Hh, Hs, Hp, Ha, Hl, Hpc.
  - intros Hn. unfold keep_alive_due. rewrite Hk, Hs, Hh, Hp. cbn [negb andb]. f_equal. apply Z.leb_gt. lia.
  - intros Hn. change (loop_body ListenUDP ByTimer s) with (after_select s).
    unfold after_select, mbind, action_bind, handle_alarm. rewrite Hl, Z.eqb_refl. cbn [negb andb].
    unfold pace_and_send, keep_alive_due. rewrite Hk, Hs, Hh, Hp. cbn [negb andb].
    rewrite (proj2 (Z.leb_le _ _)) by lia. apply check_expired. unfold expired. cbn. rewrite Hh. apply Z.leb_le. lia.
Qed.
End Defects.

(** ** A concrete session *)

#[local] Existing Instance loopback_net.
#[local] Existing Instance last_value.

(** Packets can be opened when the keys are there. *)
#[local] Instance sample_crypto : CryptoSetup bool := {
  ct_HandleMessage t _ _ := Ok (false, t);
  ct_GetSealer _ := (Encryption1RTT, plain_sealer);
  ct_GetSealerWithEncryptionLevel _ _ := Ok plain_sealer;
  ct_Open t level data pn ad := if t then plain_open level data pn ad else Err (Errorf "no keys" []) }.

Definition sample_env (now : Z) : environment := mkEnvironment now [] [] [] elements 0.
Definition sample_cubic : cubicSender := NewCubicSender false InitialCongestionWindow DefaultMaxCongestionWindow.
Definition sample_config : Config := populateServerConfig None.
Definition sample_server (keys : bool) : session :=
  newSession sample_config sample_sched [5; 6; 7; 8] [1; 2; 3; 4] VersionTLS sample_cubic keys 60000 (sample_env 1000000000).
Definition sample_text (_ : error_msg) : list Z := [].

Lemma session_closed_once_witness :
  exists s' sent, finish sample_text (mkCloseError None false false) (destroy None (sample_server true)) = Done tt s'
    /\ s_out s' = sent ++ [RemovedConnectionID [1; 2; 3; 4]].
Proof.
  destruct (session_closed_once (ListenUDP := sample_listen) (error_text := sample_text) (sample_server true)
    (destroy None (sample_server true)) (mkCloseError None false false)) as (_ & H1 & H2).
  - reflexivity.
  - reflexivity.
  - eapply rtc_l; [apply run_destroy | apply rtc_refl].
  - reflexivity.
  - destruct (H1 eq_refl) as (s' & E). destruct (H2 s' E) as (_ & sent & Es & _). by exists s', sent.
Defined.

Definition sample_packet (t : Z) : receivedPacket :=
  mkReceivedPacket (mkHeader [] VersionTLS [1; 2; 3; 4] [5; 6; 7; 8] [] 1 0 false [] t true 0 0 []) [1; 2; 3] 7.


Lemma unknown_type_closes_client_witness :
  exists s', select sample_listen ByPacket (session_handlePacket (sample_packet PacketType0RTT) (sample_server false)) = Done false s'
    /\ s_closeChan s' = Some (mkCloseError (Some (Errorf "unknown packet type: %s" [PacketType0RTT])) false true).
Proof.
  apply (unknown_type_closes_client (ListenUDP := sample_listen) (Ok ([], []))
    (mkClient [] true false [] [VersionTLS] [1; 2; 3; 4] [5; 6; 7; 8] [] 0 VersionTLS)
    (rp_header (sample_packet PacketType0RTT)) [1; 2; 3]
    (session_handlePacket (sample_packet PacketType0RTT) (sample_server false)) [] 7); try reflexivity; try discriminate.
  by left.
Defined.

Lemma expired_session_closes_witness :
  exists t, loop_body sample_listen ByTimer (set_s_env (sample_server true) (sample_env 20000000000)) = Done tt t.
Proof.
  destruct (expired_session_closes (ListenUDP := sample_listen) (set_s_env (sample_server true) (sample_env 20000000000)) 0 0)
    as (t & H & _).
  - apply (LossRecovery.reach_new NewRTTStats sample_cubic 60000). apply NewCubicSender_ok; by vm_compute.
  - by right.
  - reflexivity.
  - by exists t.
Defined.

Lemma owd_ping_pong_witness :
  ping_pong (ListenUDP := sample_listen) Encryption1RTT [sample_server true; sample_server true; sample_server true] (mkOwdFrame 7 0).
Proof.
  apply (owd_ping_pong (P := fun a => a = loopback) Encryption1RTT _ 0).
  - split; [by split | cbn; lia].
  - assert (E : now_unix (sample_server true) = 1) by reflexivity. cbn [in_order]. rewrite !E. lia.
Defined.

Lemma owd_from_future_panics_witness :
  exists s', handleFrame sample_listen Encryption1RTT (Owd (mkOwdFrame 7 5)) (sample_server true) = Done tt s'
    /\ exists msg, env_AppendControlFrames s' [] 1000 = Panic msg.
Proof.
  assert (E : now_unix (sample_server true) = 1) by reflexivity.
  destruct (owd_from_future_panics (ListenUDP := sample_listen) Encryption1RTT (mkOwdFrame 7 5) (sample_server true))
    as (s' & H1 & H2 & _); [by split | rewrite E; cbn; lia | cbn; lia |]. exists s'. split; [exact H1 | apply H2].
Defined.

(** A session with keep-alive, whose peer has an idle timeout of 120 seconds. *)
Definition sample_alive : session :=
  set_s_handshakeComplete (set_s_peerParams
    (newSession (populateServerConfig (Some (mkConfig [] 0 0 0 0 0 0 0 true))) sample_sched [5; 6; 7; 8] [1; 2; 3; 4] VersionTLS
       sample_cubic true 60000 (sample_env 1000000000))
    (Some (mkTP 0 0 0 0 0 0 0 (120 * 10 ^ 9) false [] []))) true.

Lemma keep_alive_too_late_witness : timer_deadline sample_alive = Ok 61000000000.
Proof.
  destruct (keep_alive_too_late (ListenUDP := sample_listen) sample_alive (mkTP 0 0 0 0 0 0 0 (120 * 10 ^ 9) false [] [])) as (H & _);
    [reflexivity.. | | reflexivity | reflexivity | reflexivity |]; [by vm_compute | exact H].
Defined.

Lemma packet_handled_witness : exists hdr data fs' h,
  handlePacket client_handlers (pk_raw ping_packet) = Ok (ToSession 5%nat hdr data)
  /\ session_handlePacketImpl sample_listen (mkReceivedPacket hdr data 7) (set_s_largestRcvd (sample_server true) 6)
     = handleFrames sample_listen fs' Encryption1RTT (noted hdr 7 7 h (set_s_largestRcvd (sample_server true) 6)).
Proof.
  destruct (ReceivedPacket NewReceivedPacketHandler 0 7 7 true) as [[h [e |]] | |] eqn:E; try (by vm_compute in E).
  destruct (packet_handled (P := fun a => a = loopback) (ListenUDP := sample_listen) sample_packer Encryption1RTT plain_sealer
    ping_packet client_handlers 5%nat (set_s_largestRcvd (sample_server true) 6) h 7 sample_packer_ok plain_sealer_ok ping_packed)
    as (hdr & data & fs' & H1 & H2 & H3).
  - done.
  - intros payload pn ad. cbn [ct_Open sample_crypto]. change (s_crypto _) with true. cbv iota. unfold plain_open. cbn [plain_sealer Seal].
    f_equal. rewrite length_app, length_replicate. replace (length payload + 16 - 16)%nat with (length payload) by lia.
    apply take_app_length.
  - done.
  - done.
  - done.
  - cbn; lia.
  - by vm_compute.
  - by vm_compute.
  - by left.
  - by left.
  - done.
  - exists hdr, data, fs', h. split; [exact H1 |]. apply H3.
    apply Forall2_cons_inv_l in H2 as (f & fs & Hf & Hfs & ->). apply Forall2_nil_inv_l in Hfs as ->. cbn in Hf. subst f. exact E.
Defined.
