(* ===== verification/HttpHeaders.v ===== *)
(** * HTTP headers over QUIC (h2quic: request_writer.go, request.go, response.go, response_writer.go)

    How requests and responses become lists of header fields, and how these are
    read.  Strings are bytes.  A header is a map from canonical names to values;
    Go walks through a map in any order, which is an argument.  net/url and the
    packages of golang.org/x/net are parameters: what a URL gives as its request
    URI is a part of it here, and [PunycodeHostPort] and the checks of names and
    values are functions. *)

From Stdlib Require Import Ascii String.
From S2P Require Import Prelude.

Open Scope string_scope.
Open Scope list_scope.
Open Scope Z_scope.

(** ** The standard library: strings, strconv, textproto *)

Definition byte_of (c : ascii) : Z := Z.of_N (N_of_ascii c).
Definition char_of (n : Z) : ascii := ascii_of_N (Z.to_N n).
Definition is_upper (c : ascii) : bool := (65 <=? byte_of c) && (byte_of c <=? 90).
Definition is_lower (c : ascii) : bool := (97 <=? byte_of c) && (byte_of c <=? 122).
Definition is_digit (c : ascii) : bool := (48 <=? byte_of c) && (byte_of c <=? 57).
Definition lower_char (c : ascii) : ascii := if is_upper c then char_of (byte_of c + 32) else c.
Definition upper_char (c : ascii) : ascii := if is_lower c then char_of (byte_of c - 32) else c.

Fixpoint string_map (f : ascii -> ascii) (s : string) : string :=
  match s with EmptyString => EmptyString | String c s => String (f c) (string_map f s) end.
Fixpoint string_forallb (f : ascii -> bool) (s : string) : bool :=
  match s with EmptyString => true | String c s => f c && string_forallb f s end.

(** [strings.ToLower], on ASCII. *)
Definition ToLower (s : string) : string := string_map lower_char s.

(** The bytes of a token: letters, digits, and some marks. *)
Definition token_marks : list Z := [33; 35; 36; 37; 38; 39; 42; 43; 45; 46; 94; 95; 96; 124; 126].
Definition validHeaderFieldByte (c : ascii) : bool :=
  is_upper c || is_lower c || is_digit c || existsb (Z.eqb (byte_of c)) token_marks.

Fixpoint canonical_loop (upper : bool) (s : string) : string :=
  match s with
  | EmptyString => EmptyString
  | String c s => String (if upper then upper_char c else lower_char c) (canonical_loop (byte_of c =? 45) s)
  end.

(** [http.CanonicalHeaderKey]: names with other bytes are not changed. *)
Definition CanonicalHeaderKey (s : string) : string :=
  if string_forallb validHeaderFieldByte s then canonical_loop true s else s.

Definition TrimPrefix (s pre : string) : string :=
  if String.prefix pre s then String.substring (String.length pre) (String.length s - String.length pre) s else s.

Fixpoint Join (l : list string) (sep : string) : string :=
  match l with
  | [] => ""
  | [s] => s
  | s :: l => s +:+ sep +:+ Join l sep
  end.

(** [strconv.FormatInt] with base ten. *)
Fixpoint format_loop (fuel : nat) (v : Z) (buf : string) : string :=
  match fuel with
  | O => buf
  | S fuel => if 10 <=? v then format_loop fuel (v / 10) (String (char_of (48 + v mod 10)) buf) else String (char_of (48 + v)) buf
  end.
Definition FormatInt (v : Z) : string :=
  if v <? 0 then String (char_of 45) (format_loop 20 (- v) "") else format_loop 20 v "".

(** [strconv.ParseInt] with base ten and 64 bits. *)
Fixpoint parse_digits (s : string) (n : Z) : option Z :=
  match s with
  | EmptyString => Some n
  | String c s => if is_digit c then parse_digits s (10 * n + (byte_of c - 48)) else None
  end.
Definition parse_magnitude (s : string) : option Z :=
  match s with EmptyString => None | _ => parse_digits s 0 end.
Definition ParseInt (s : string) : outcome Z :=
  let err := Err (Errorf "strconv.ParseInt: parsing %q" []) in
  let '(neg, digits) :=
    match s with
    | String c r => if byte_of c =? 45 then (true, r) else if byte_of c =? 43 then (false, r) else (false, s)
    | EmptyString => (false, s)
    end in
  match parse_magnitude digits with
  | Some n => let n := if neg then - n else n in if (- 2 ^ 63 <=? n) && (n <? 2 ^ 63) then Ok n else err
  | None => err
  end.

(** ** net/http *)

Abbreviation http_Header := (gmap string (list string)).

Definition values (h : http_Header) (k : string) : list string := default [] (h !! k).
Definition header_Add (h : http_Header) (k v : string) : http_Header :=
  let k := CanonicalHeaderKey k in <[k := values h k ++ [v]]> h.
Definition header_Set (h : http_Header) (k v : string) : http_Header := <[CanonicalHeaderKey k := [v]]> h.
Definition header_Get (h : http_Header) (k : string) : string := default "" (hd_error (values h (CanonicalHeaderKey k))).
Definition header_Del (h : http_Header) (k : string) : http_Header := delete (CanonicalHeaderKey k) h.

Record URL : Type := mkURL { Scheme : string; Opaque : string; URL_Host : string; URL_RequestURI : string }.

(** A body is known by whether there is one. *)
Record Request : Type := mkRequest {
  Method : string;
  Request_URL : option URL;
  Request_Header : http_Header;
  Body : bool;
  Request_ContentLength : Z;
  Host : string;
  RequestURI : string }.

Record HeaderField : Type := mkField { Name : string; Value : string }.

(** What is used of net/url, golang.org/x/net/http/httpguts and
    golang.org/x/net/http2. *)
Class HttpLib : Type := {
  Parse : string -> outcome URL;
  PunycodeHostPort : string -> outcome string;
  ValidHeaderFieldName : string -> bool;
  ValidHeaderFieldValue : string -> bool;
  IsPseudo : HeaderField -> bool;
  PseudoValue : list HeaderField -> string -> string;
  RegularFields : list HeaderField -> list HeaderField }.

(** What their documentation says: names are tokens, pseudo header fields begin
    with a colon and come first. *)
Class HttpLibLaws `{HttpLib} : Prop := {
  valid_name_token k : ValidHeaderFieldName k = true -> k <> "" /\ string_forallb validHeaderFieldByte k = true;
  pseudo_colon f : IsPseudo f = match Name f with String c _ => byte_of c =? 58 | EmptyString => false end;
  pseudo_value_first name v fs : PseudoValue (mkField (String (char_of 58) name) v :: fs) name = v;
  regular_fields ps rs : Forall (fun f => IsPseudo f = true) ps -> Forall (fun f => IsPseudo f = false) rs ->
    RegularFields (ps ++ rs) = rs }.

(** ** request_writer.go *)

Definition defaultUserAgent : string := "quic-go".

Definition validPseudoPath (v : string) : bool :=
  match v with
  | String c EmptyString => byte_of c =? 47
  | String c (String d _) => (byte_of c =? 47) && negb (byte_of d =? 47)
  | EmptyString => false
  end || String.eqb v "*".

Definition shouldSendReqContentLength (method : string) (contentLength : Z) : bool :=
  if 0 <? contentLength then true
  else if contentLength <? 0 then false
  else existsb (String.eqb method) ["POST"; "PUT"; "PATCH"].

Definition actualContentLength (req : Request) : Z :=
  if negb (Body req) then 0
  else if negb (Request_ContentLength req =? 0) then Request_ContentLength req
  else -1.

Section Http.
Context `{HttpLib}.

Definition request_url (req : Request) : URL := default (mkURL "" "" "" "") (Request_URL req).

(** The path of the request. *)
Definition request_path (req : Request) (host : string) : outcome string :=
  if String.eqb (Method req) "CONNECT" then Ok ""
  else
    let orig := URL_RequestURI (request_url req) in
    if validPseudoPath orig then Ok orig
    else
      let path := TrimPrefix orig (Scheme (request_url req) +:+ "://" +:+ host) in
      if validPseudoPath path then Ok path
      else if negb (String.eqb (Opaque (request_url req)) "") then
        Err (Errorf "invalid request :path %q from URL.Opaque = %q" [])
      else Err (Errorf "invalid request :path %q" []).

(** The first name or value that is not valid, in the order of the map. *)
Fixpoint check_headers (badName badValue : go_error) (order : list (string * list string)) : outcome unit :=
  match order with
  | [] => Ok tt
  | (k, vv) :: order =>
      if negb (ValidHeaderFieldName k) then Err badName
      else if negb (forallb ValidHeaderFieldValue vv) then Err badValue
      else check_headers badName badValue order
  end.

Definition skipped_headers : list string :=
  ["host"; "content-length"; "connection"; "proxy-connection"; "transfer-encoding"; "upgrade"; "keep-alive"].

(** The fields of one entry of the header. *)
Definition header_fields (kv : string * list string) : list HeaderField :=
  let lowKey := ToLower kv.1 in
  if existsb (String.eqb lowKey) skipped_headers then []
  else if String.eqb lowKey "user-agent" then
    match kv.2 with
    | [] => []
    | v :: _ => if String.eqb v "" then [] else [mkField lowKey v]
    end
  else mkField lowKey <$> kv.2.

Definition is_user_agent (kv : string * list string) : bool := String.eqb (ToLower kv.1) "user-agent".

(** [order] and [order'] are the orders of the two loops. *)
Definition encodeHeaders (order order' : list (string * list string)) (req : Request) (addGzipHeader : bool)
    (trailers : string) (contentLength : Z) : outcome (list HeaderField) :=
  let host := if String.eqb (Host req) "" then URL_Host (request_url req) else Host req in
  host ← PunycodeHostPort host;
  path ← request_path req host;
  _ ← check_headers (Errorf "invalid HTTP header name %q" []) (Errorf "invalid HTTP header value %q for header %q" []) order;
  Ok ([mkField ":authority" host; mkField ":method" (Method req)]
      ++ (if String.eqb (Method req) "CONNECT" then []
          else [mkField ":path" path; mkField ":scheme" (Scheme (request_url req))])
      ++ (if String.eqb trailers "" then [] else [mkField "trailer" trailers])
      ++ concat (header_fields <$> order')
      ++ (if shouldSendReqContentLength (Method req) contentLength
          then [mkField "content-length" (FormatInt contentLength)] else [])
      ++ (if addGzipHeader then [mkField "accept-encoding" "gzip"] else [])
      ++ (if existsb is_user_agent order' then [] else [mkField "user-agent" defaultUserAgent])).

(** What [WriteRequest] gives to the encoder: an error of [encodeHeaders] is
    dropped, and the header block is what was written before it, nothing. *)
Definition WriteRequest_fields (order order' : list (string * list string)) (req : Request) (requestGzip : bool)
    : list HeaderField :=
  match encodeHeaders order order' req requestGzip "" (actualContentLength req) with
  | Ok fields => fields
  | _ => []
  end.
(** ** request.go *)

Record request_fields : Type := mkRequestFields {
  rf_path : string; rf_authority : string; rf_method : string; rf_contentLength : string; rf_header : http_Header }.

Definition read_field (r : request_fields) (f : HeaderField) : request_fields :=
  let '(mkRequestFields path authority method clen h) := r in
  if String.eqb (Name f) ":path" then mkRequestFields (Value f) authority method clen h
  else if String.eqb (Name f) ":method" then mkRequestFields path authority (Value f) clen h
  else if String.eqb (Name f) ":authority" then mkRequestFields path (Value f) method clen h
  else if String.eqb (Name f) "content-length" then mkRequestFields path authority method (Value f) h
  else if negb (IsPseudo f) then mkRequestFields path authority method clen (header_Add h (Name f) (Value f))
  else r.

Definition join_cookies (h : http_Header) : http_Header :=
  match values h "Cookie" with
  | [] => h
  | cookies => header_Set h "Cookie" (Join cookies "; ")
  end.

Definition requestFromHeaders (headers : list HeaderField) : outcome Request :=
  let r := foldl read_field (mkRequestFields "" "" "" "" ∅) headers in
  let httpHeaders := join_cookies (rf_header r) in
  if String.eqb (rf_path r) "" || String.eqb (rf_authority r) "" || String.eqb (rf_method r) "" then
    Err (Errorf ":path, :authority and :method must not be empty" [])
  else
    u ← Parse (rf_path r);
    contentLength ← (if String.eqb (rf_contentLength r) "" then Ok 0 else ParseInt (rf_contentLength r));
    Ok (mkRequest (rf_method r) (Some u) httpHeaders false contentLength (rf_authority r) (rf_path r)).
Definition hostnameFromRequest (req : Request) : string :=
  match Request_URL req with Some u => URL_Host u | None => "" end.

(** ** response.go *)

Record Response : Type := mkResponse {
  StatusCode : Z;
  Response_Header : http_Header;
  Trailer : option http_Header;
  Response_ContentLength : Z;
  Uncompressed : bool }.

Definition is_space (c : ascii) : bool := (byte_of c =? 32) || (byte_of c =? 9) || (byte_of c =? 10) || (byte_of c =? 13).

Fixpoint trim_left (s : string) : string :=
  match s with String c s' => if is_space c then trim_left s' else s | EmptyString => EmptyString end.
Fixpoint trim_right (s : string) : string :=
  match s with
  | EmptyString => EmptyString
  | String c s => match trim_right s with EmptyString => if is_space c then EmptyString else String c EmptyString | r => String c r end
  end.
(** [textproto.TrimString] *)
Definition TrimString (s : string) : string := trim_left (trim_right s).

(** [strings.Split] with a comma. *)
Fixpoint split_commas (s : string) : list string :=
  match s with
  | EmptyString => [""]
  | String c s =>
      if byte_of c =? 44 then "" :: split_commas s
      else match split_commas s with f :: l => String c f :: l | [] => [String c ""] end
  end.

(** The elements that the callback is called with.  Without a comma [Split]
    gives the string itself. *)
Definition foreachHeaderElement (v : string) : list string :=
  let v := TrimString v in
  if String.eqb v "" then []
  else if string_forallb (fun c => negb (byte_of c =? 44)) v then [v]
  else filter (fun f => f <> "") (TrimString <$> split_commas v).

Definition response_field (res : Response) (hf : HeaderField) : Response :=
  let key := CanonicalHeaderKey (Name hf) in
  if String.eqb key "Trailer" then
    let t := foldl (fun t v => <[CanonicalHeaderKey v := []]> t) (default ∅ (Trailer res)) (foreachHeaderElement (Value hf)) in
    mkResponse (StatusCode res) (Response_Header res) (Some t) (Response_ContentLength res) (Uncompressed res)
  else
    mkResponse (StatusCode res) (<[key := values (Response_Header res) key ++ [Value hf]]> (Response_Header res)) (Trailer res)
      (Response_ContentLength res) (Uncompressed res).

Definition responseFromHeaders (truncated : bool) (fields : list HeaderField) : outcome Response :=
  if truncated then Err (Errorf "http2: response header list larger than advertised limit" [])
  else
    let status := PseudoValue fields "status" in
    if String.eqb status "" then Err (Errorf "missing status pseudo header" [])
    else
      match ParseInt status with
      | Ok statusCode => Ok (foldl response_field (mkResponse statusCode ∅ None 0 false) (RegularFields fields))
      | _ => Err (Errorf "malformed non-numeric status pseudo header" [])
      end.

Definition setLength (res : Response) (isHead streamEnded : bool) : Response :=
  if negb streamEnded || isHead then
    let clen := match values (Response_Header res) "Content-Length" with
                | [c] => match ParseInt c with Ok n => n | _ => -1 end
                | _ => -1
                end in
    mkResponse (StatusCode res) (Response_Header res) (Trailer res) clen (Uncompressed res)
  else res.

(** ** response_writer.go *)

Definition bodyAllowedForStatus (status : Z) : bool :=
  if (100 <=? status) && (status <=? 199) then false
  else if status =? 204 then false
  else if status =? 304 then false
  else true.

Definition all_fields (kv : string * list string) : list HeaderField := mkField (ToLower kv.1) <$> kv.2.

(** The fields of a response; [order] is the order of the header. *)
Definition response_fields (status : Z) (order : list (string * list string)) : list HeaderField :=
  mkField ":status" (FormatInt status) :: concat (all_fields <$> order).
End Http.

(** ** Lemmas: characters and names *)

Lemma char_cases (P : ascii -> bool) : forallb P (char_of <$> seqZ 0 256) = true -> forall c, P c = true.
Proof.
  intros H c. rewrite forallb_forall in H. apply H, list_elem_of_In, list_elem_of_fmap. exists (byte_of c). split.
  - unfold char_of, byte_of. by rewrite N2Z.id, ascii_N_embedding.
  - apply elem_of_seqZ. unfold byte_of. pose proof (N_ascii_bounded c). lia.
Qed.

(** A fact on every character is computed. *)
Ltac by_chars c := revert c; apply (char_cases (fun c => _)); vm_compute; reflexivity.

Lemma lower_token c : validHeaderFieldByte (lower_char c) = validHeaderFieldByte c.
Proof. apply eqb_prop. by_chars c. Qed.
Lemma lower_dash c : (byte_of (lower_char c) =? 45) = (byte_of c =? 45).
Proof. apply eqb_prop. by_chars c. Qed.
Lemma upper_lower c : upper_char (lower_char c) = upper_char c.
Proof. apply Ascii.eqb_eq. by_chars c. Qed.
Lemma lower_lower c : lower_char (lower_char c) = lower_char c.
Proof. apply Ascii.eqb_eq. by_chars c. Qed.
Lemma lower_colon c : (byte_of (lower_char c) =? 58) = (byte_of c =? 58).
Proof. apply eqb_prop. by_chars c. Qed.
Lemma token_not_colon c : validHeaderFieldByte c = true -> (byte_of c =? 58) = false.
Proof.
  intros H. pose proof (char_cases (fun c => negb (validHeaderFieldByte c) || negb (byte_of c =? 58)) eq_refl c) as Hc.
  cbv beta in Hc. rewrite H in Hc. by destruct (_ =? _).
Qed.
Lemma upper_token c : validHeaderFieldByte (upper_char c) = validHeaderFieldByte c.
Proof. apply eqb_prop. by_chars c. Qed.
Lemma lower_upper c : lower_char (upper_char c) = lower_char c.
Proof. apply Ascii.eqb_eq. by_chars c. Qed.

Lemma ToLower_token s : string_forallb validHeaderFieldByte (ToLower s) = string_forallb validHeaderFieldByte s.
Proof. induction s as [| c s IH]; [done |]. cbn. fold (ToLower s). by rewrite IH, lower_token. Qed.

Lemma canonical_lower up s : canonical_loop up (ToLower s) = canonical_loop up s.
Proof.
  revert up. induction s as [| c s IH]; intros up; [done |]. cbn. fold (ToLower s). rewrite IH, lower_dash.
  by destruct up; rewrite ?upper_lower, ?lower_lower.
Qed.

(** The names on the wire are in lower case, and become canonical again. *)
Lemma canonical_ToLower s : string_forallb validHeaderFieldByte s = true -> CanonicalHeaderKey (ToLower s) = CanonicalHeaderKey s.
Proof. intros Hs. unfold CanonicalHeaderKey. by rewrite ToLower_token, Hs, canonical_lower. Qed.

Lemma lower_canonical up s : ToLower (canonical_loop up s) = ToLower s.
Proof.
  revert up. induction s as [| c s IH]; intros up; [done |]. cbn. fold (ToLower (canonical_loop (byte_of c =? 45) s)) (ToLower s).
  rewrite IH. by destruct up; rewrite ?lower_upper, ?lower_lower.
Qed.

Lemma ToLower_canonical s : ToLower (CanonicalHeaderKey s) = ToLower s.
Proof. unfold CanonicalHeaderKey. destruct (string_forallb _ s); [apply lower_canonical | done]. Qed.

(** ** Lemmas: numbers *)

Lemma digit_char d : 0 <= d < 10 -> is_digit (char_of (48 + d)) = true /\ byte_of (char_of (48 + d)) = 48 + d.
Proof.
  intros Hd. assert (Hc : forallb (fun d => is_digit (char_of (48 + d)) && (byte_of (char_of (48 + d)) =? 48 + d)) (seqZ 0 10) = true)
    by (vm_compute; reflexivity).
  rewrite forallb_forall in Hc. specialize (Hc d). rewrite <- list_elem_of_In, elem_of_seqZ, andb_true_iff, Z.eqb_eq in Hc.
  apply Hc. lia.
Qed.

Lemma parse_format_loop fuel v buf : 0 <= v < 10 ^ Z.of_nat fuel -> parse_digits (format_loop fuel v buf) 0 = parse_digits buf v.
Proof.
  revert v buf. induction fuel as [| fuel IH]; intros v buf Hv; [cbn in Hv; by replace v with 0 by lia |]. cbn [format_loop].
  destruct (Z.leb_spec 10 v).
  - pose proof (Z.mod_pos_bound v 10 ltac:(lia)) as Hm. destruct (digit_char (v mod 10) Hm) as [Hd Hb].
    rewrite IH.
    + cbn [parse_digits]. rewrite Hd, Hb. f_equal. pose proof (Z.div_mod v 10 ltac:(lia)). lia.
    + split; [apply Z.div_pos; lia |]. apply Z.div_lt_upper_bound; [lia |].
      replace (10 * 10 ^ Z.of_nat fuel) with (10 ^ Z.of_nat (S fuel)); [lia |]. rewrite Nat2Z.inj_succ, Z.pow_succ_r; lia.
  - cbn [parse_digits]. destruct (digit_char v) as [Hd Hb]; [lia |]. rewrite Hd, Hb. f_equal. lia.
Qed.

Lemma format_loop_digit fuel v buf : 0 <= v -> (0 < fuel)%nat \/ (exists c s, buf = String c s /\ is_digit c = true) ->
  exists c s, format_loop fuel v buf = String c s /\ is_digit c = true.
Proof.
  revert v buf. induction fuel as [| fuel IH]; intros v buf Hv Hf; [destruct Hf; [lia | done] |]. cbn [format_loop].
  destruct (Z.leb_spec 10 v).
  - apply IH; [apply Z.div_pos; lia |]. right. eexists _, _. split; [done |]. apply digit_char. apply Z.mod_pos_bound. lia.
  - eexists _, _. split; [done |]. apply digit_char. lia.
Qed.

Lemma digit_no_sign c : is_digit c = true -> (byte_of c =? 45) = false /\ (byte_of c =? 43) = false.
Proof. unfold is_digit. rewrite andb_true_iff, !Z.leb_le, !Z.eqb_neq. lia. Qed.

Lemma ParseInt_FormatInt v : 0 <= v < 2 ^ 63 -> ParseInt (FormatInt v) = Ok v.
Proof.
  intros Hv. unfold FormatInt. destruct (Z.ltb_spec v 0); [lia |].
  pose proof (parse_format_loop 20 v "" ltac:(cbn; lia)) as Hp.
  destruct (format_loop_digit 20 v "") as (c & s & E & Hd); [lia | left; lia |]. rewrite E in *.
  unfold ParseInt. destruct (digit_no_sign c Hd) as [-> ->]. cbv iota. unfold parse_magnitude. rewrite Hp. cbn [parse_digits].
  by rewrite (proj2 (Z.leb_le _ _)), (proj2 (Z.ltb_lt _ _)) by lia.
Qed.

Lemma FormatInt_nonempty v : FormatInt v <> "".
Proof.
  unfold FormatInt. destruct (Z.ltb_spec v 0); [done |]. destruct (format_loop_digit 20 v "") as (c & s & -> & _); [done | left; lia | done].
Qed.

(** ** Lemmas: what is read from a list of fields *)

Section HttpTheory.
Context `{HttpLibLaws}.

(** Fields that are neither pseudo header fields nor the content length. *)
Definition regular (f : HeaderField) : bool := negb (IsPseudo f) && negb (String.eqb (Name f) "content-length").

Definition field_values (K : string) (fs : list HeaderField) : list string :=
  Value <$> List.filter (fun f => String.eqb (CanonicalHeaderKey (Name f)) K) fs.

Lemma field_values_app K fs fs' : field_values K (fs ++ fs') = field_values K fs ++ field_values K fs'.
Proof. unfold field_values. by rewrite List.filter_app, fmap_app. Qed.

Lemma header_Add_values h k v K :
  values (header_Add h k v) K = values h K ++ (if String.eqb (CanonicalHeaderKey k) K then [v] else []).
Proof.
  unfold header_Add, values. destruct (String.eqb_spec (CanonicalHeaderKey k) K) as [-> | Hne].
  - by rewrite lookup_insert_eq.
  - by rewrite lookup_insert_ne, app_nil_r.
Qed.

Lemma pseudo_name f n v : Name f = String (char_of 58) n -> regular f = true -> Value f = v -> False.
Proof. unfold regular. rewrite pseudo_colon. by intros ->. Qed.

Lemma read_field_regular r f : regular f = true ->
  read_field r f = mkRequestFields (rf_path r) (rf_authority r) (rf_method r) (rf_contentLength r)
                     (header_Add (rf_header r) (Name f) (Value f)).
Proof.
  intros Hf. destruct r as [path authority method clen h]. unfold read_field.
  destruct (String.eqb_spec (Name f) ":path") as [E |]; [by destruct (pseudo_name f _ _ E Hf eq_refl) |].
  destruct (String.eqb_spec (Name f) ":method") as [E |]; [by destruct (pseudo_name f _ _ E Hf eq_refl) |].
  destruct (String.eqb_spec (Name f) ":authority") as [E |]; [by destruct (pseudo_name f _ _ E Hf eq_refl) |].
  unfold regular in Hf. apply andb_true_iff in Hf as [Hp Hc].
  destruct (String.eqb (Name f) "content-length"); [done |]. by rewrite Hp.
Qed.

Lemma read_regular_fields fs r : Forall (fun f => regular f = true) fs ->
  let r' := foldl read_field r fs in
  rf_path r' = rf_path r /\ rf_authority r' = rf_authority r /\ rf_method r' = rf_method r
  /\ rf_contentLength r' = rf_contentLength r
  /\ forall K, values (rf_header r') K = values (rf_header r) K ++ field_values K fs.
Proof.
  intros Hfs. revert r. induction Hfs as [| f fs Hf _ IH]; intros r; cbn zeta.
  - split_and!; try done. intros K. unfold field_values. cbn. by rewrite app_nil_r.
  - cbn [foldl]. rewrite (read_field_regular r f Hf).
    match goal with |- context [foldl read_field ?r' fs] => destruct (IH r') as (E1 & E2 & E3 & E4 & E5) end.
    rewrite E1, E2, E3, E4. split_and!; try done. intros K. rewrite E5. cbn [rf_header].
    rewrite header_Add_values, <- app_assoc. f_equal. unfold field_values. cbn [List.filter]. by destruct (String.eqb _ K).
Qed.

(** The name of a header is a token. *)
Lemma token_regular k v : k <> "" -> string_forallb validHeaderFieldByte k = true -> ToLower k <> "content-length" ->
  regular (mkField (ToLower k) v) = true.
Proof.
  intros Hne Ht Hc. unfold regular. rewrite pseudo_colon. destruct k as [| c k]; [done |]. cbn [Name] in *.
  cbn in Ht. apply andb_true_iff in Ht as [Ht _]. change (ToLower (String c k)) with (String (lower_char c) (ToLower k)) in *.
  cbv iota. rewrite lower_colon, token_not_colon by done. cbn [negb andb]. by apply negb_true_iff, String.eqb_neq.
Qed.

Definition names_ok (h : http_Header) : Prop :=
  forall k vv, h !! k = Some vv -> CanonicalHeaderKey k = k /\ k <> "" /\ string_forallb validHeaderFieldByte k = true.

(** What is sent of the values of one name. *)
Definition sent_values (kv : string * list string) : list string := Value <$> header_fields kv.

Lemma header_fields_name kv f : In f (header_fields kv) ->
  Name f = ToLower kv.1 /\ existsb (String.eqb (ToLower kv.1)) skipped_headers = false.
Proof.
  destruct kv as [k vv]. unfold header_fields. cbn [fst snd].
  destruct (existsb (String.eqb (ToLower k)) skipped_headers); [done |]. destruct (String.eqb (ToLower k) "user-agent").
  - destruct vv as [| v vv]; [done |]. destruct (String.eqb v ""); [done |]. intros [<- | []]. done.
  - intros Hf%list_elem_of_In. apply list_elem_of_fmap in Hf as (v & -> & _). done.
Qed.

Lemma header_fields_regular k vv : k <> "" -> string_forallb validHeaderFieldByte k = true ->
  Forall (fun f => regular f = true) (header_fields (k, vv)).
Proof.
  intros Hne Ht. apply List.Forall_forall. intros [n v] Hf. destruct (header_fields_name _ _ Hf) as [Hn Hs]. cbn [Name fst] in *. subst n.
  apply token_regular; [done | done |]. intros E. by rewrite E in Hs.
Qed.

Lemma field_values_entry k vv K : CanonicalHeaderKey k = k -> string_forallb validHeaderFieldByte k = true ->
  field_values K (header_fields (k, vv)) = if String.eqb k K then sent_values (k, vv) else [].
Proof.
  intros Hc Ht. unfold field_values, sent_values.
  assert (Hall : forall f, In f (header_fields (k, vv)) -> CanonicalHeaderKey (Name f) = k).
  { intros f Hf. destruct (header_fields_name _ _ Hf) as [-> _]. cbn [fst]. by rewrite canonical_ToLower. }
  revert Hall. generalize (header_fields (k, vv)). induction l as [| f l IH]; intros Hall; [by destruct (String.eqb k K) |].
  cbn [List.filter]. rewrite Hall by (by left). destruct (String.eqb k K); cbn; [f_equal |]; apply IH; intros; apply Hall; by right.
Qed.

Lemma sent_values_nil K : sent_values (K, []) = [].
Proof.
  unfold sent_values, header_fields. cbn [snd]. destruct (existsb _ _); [done |]. by destruct (String.eqb _ _).
Qed.

Lemma header_values order h K : names_ok h -> order ≡ₚ map_to_list h ->
  Forall (fun f => regular f = true) (concat (header_fields <$> order))
  /\ field_values K (concat (header_fields <$> order)) = sent_values (K, values h K).
Proof.
  intros Hn Hp. assert (Hnd : NoDup order.*1) by (rewrite Hp; apply NoDup_fst_map_to_list).
  assert (Hh : list_to_map order = h) by (rewrite <- (list_to_map_to_list h); by apply list_to_map_proper).
  assert (Hok : forall k vv, (k, vv) ∈ order -> CanonicalHeaderKey k = k /\ k <> "" /\ string_forallb validHeaderFieldByte k = true).
  { intros k vv Hin. rewrite Hp, elem_of_map_to_list in Hin. by eapply Hn. }
  rewrite <- Hh. unfold values. clear Hh Hp Hn. induction order as [| [k vv] order IH].
  { split; [constructor |]. cbn. rewrite lookup_empty. cbn. by rewrite sent_values_nil. }
  cbn [fmap list_fmap] in Hnd. apply NoDup_cons in Hnd as [Hnk Hnd].
  destruct (Hok k vv) as (Hc & Hne & Ht); [by left |]. destruct IH as [IH1 IH2]; [done | by intros; eapply Hok; right |].
  rewrite fmap_cons. cbn [concat]. split; [apply Forall_app; split; [by apply header_fields_regular | done] |].
  rewrite field_values_app, field_values_entry by done. cbn [list_to_map foldr fst snd uncurry].
  destruct (String.eqb_spec k K) as [-> |].
  - rewrite lookup_insert_eq. rewrite IH2, (not_elem_of_list_to_map_1 _ _ Hnk). cbn [default from_option id].
    by rewrite sent_values_nil, app_nil_r.
  - by rewrite lookup_insert_ne.
Qed.

Lemma join_cookies_values h K : values (join_cookies h) K =
  if String.eqb K "Cookie" then match values h "Cookie" with [] => [] | l => [Join l "; "] end else values h K.
Proof.
  unfold join_cookies. destruct (String.eqb_spec K "Cookie") as [-> | Hne].
  - destruct (values h "Cookie") as [| c l] eqn:E; [done |]. unfold header_Set, values. change (CanonicalHeaderKey "Cookie") with "Cookie".
    by rewrite lookup_insert_eq.
  - destruct (values h "Cookie"); [done |]. unfold header_Set, values. change (CanonicalHeaderKey "Cookie") with "Cookie".
    by rewrite lookup_insert_ne.
Qed.

(** A user agent in the header. *)
Lemma user_agent_in order h : names_ok h -> order ≡ₚ map_to_list h ->
  existsb is_user_agent order = bool_decide (is_Some (h !! "User-Agent")).
Proof.
  intros Hn Hp. apply Bool.eq_iff_eq_true. rewrite bool_decide_eq_true, existsb_exists. split.
  - intros ([k vv] & Hin & Hua). apply list_elem_of_In in Hin. rewrite Hp, elem_of_map_to_list in Hin.
    destruct (Hn k vv Hin) as (Hc & _ & Ht). unfold is_user_agent in Hua. apply String.eqb_eq in Hua. cbn [fst] in Hua.
    rewrite <- canonical_ToLower, Hua in Hc by done. change (CanonicalHeaderKey "user-agent") with "User-Agent" in Hc. subst k. by eexists.
  - intros [vv Hv]. exists ("User-Agent", vv). split; [| done]. apply list_elem_of_In. by rewrite Hp, elem_of_map_to_list.
Qed.

Lemma check_headers_ok badName badValue order h : order ≡ₚ map_to_list h ->
  (forall k vv, h !! k = Some vv -> ValidHeaderFieldName k = true /\ Forall (fun v => ValidHeaderFieldValue v = true) vv) ->
  check_headers badName badValue order = Ok tt.
Proof.
  intros Hp Hv. assert (Hok : forall k vv, (k, vv) ∈ order -> ValidHeaderFieldName k = true /\ Forall (fun v => ValidHeaderFieldValue v = true) vv).
  { intros k vv Hin. rewrite Hp, elem_of_map_to_list in Hin. by apply Hv. }
  clear Hp Hv. induction order as [| [k vv] order IH]; [done |]. cbn. destruct (Hok k vv) as [-> Hvv]; [by left |]. cbn [negb].
  rewrite (proj2 (forallb_forall _ _)); [| by apply List.Forall_forall]. cbn [negb]. apply IH. intros; eapply Hok; by right.
Qed.

(** The header that arrives: some names are not sent, there is a user agent unless
    it was set to be empty, compression may have been added, and cookies are
    joined. *)
Definition arrived_values (h : http_Header) (gzip : bool) (K : string) : list string :=
  sent_values (K, values h K)
  ++ (if gzip && String.eqb K "Accept-Encoding" then ["gzip"] else [])
  ++ (if negb (bool_decide (is_Some (h !! "User-Agent"))) && String.eqb K "User-Agent" then [defaultUserAgent] else []).

Definition arrived_header (h : http_Header) (gzip : bool) (K : string) : list string :=
  if String.eqb K "Cookie" then match arrived_values h gzip "Cookie" with [] => [] | l => [Join l "; "] end
  else arrived_values h gzip K.

Lemma validPseudoPath_nonempty p : validPseudoPath p = true -> p <> "".
Proof. by intros H1 ->. Qed.

Lemma request_path_nonempty req host path : Method req <> "CONNECT" -> request_path req host = Ok path -> path <> "".
Proof.
  intros Hm. unfold request_path. rewrite (proj2 (String.eqb_neq _ _) Hm). destruct (validPseudoPath (URL_RequestURI _)) eqn:E1.
  - intros [= <-]. by apply validPseudoPath_nonempty.
  - destruct (validPseudoPath (TrimPrefix _ _)) eqn:E2; [intros [= <-]; by apply validPseudoPath_nonempty | by destruct (negb _)].
Qed.

(** The fields behind the pseudo header fields. *)
Lemma read_rest order h r method clen (gzip : bool) : names_ok h -> order ≡ₚ map_to_list h ->
  let r' := foldl read_field r (concat (header_fields <$> order)
      ++ (if shouldSendReqContentLength method clen then [mkField "content-length" (FormatInt clen)] else [])
      ++ (if gzip then [mkField "accept-encoding" "gzip"] else [])
      ++ (if existsb is_user_agent order then [] else [mkField "user-agent" defaultUserAgent])) in
  rf_header r = ∅ ->
  rf_path r' = rf_path r /\ rf_authority r' = rf_authority r /\ rf_method r' = rf_method r
  /\ rf_contentLength r' = (if shouldSendReqContentLength method clen then FormatInt clen else rf_contentLength r)
  /\ forall K, values (rf_header r') K = arrived_values h gzip K.
Proof.
  intros Hn Hp r' Hr. subst r'. rewrite foldl_app, (user_agent_in order h Hn Hp).
  destruct (header_values order h "" Hn Hp) as [Hreg _].
  destruct (read_regular_fields _ r Hreg) as (E1 & E2 & E3 & E4 & E5). set (r1 := foldl read_field r _) in *. rewrite foldl_app.
  set (r2 := foldl read_field r1 (if shouldSendReqContentLength method clen then [mkField "content-length" (FormatInt clen)] else [])).
  assert (E6 : rf_path r2 = rf_path r1 /\ rf_authority r2 = rf_authority r1 /\ rf_method r2 = rf_method r1 /\ rf_header r2 = rf_header r1
    /\ rf_contentLength r2 = if shouldSendReqContentLength method clen then FormatInt clen else rf_contentLength r1).
  { subst r2. destruct (shouldSendReqContentLength method clen); [| done]. cbn. by destruct r1. }
  destruct E6 as (F1 & F2 & F3 & F4 & F5).
  destruct (read_regular_fields ((if gzip then [mkField "accept-encoding" "gzip"] else [])
    ++ (if bool_decide (is_Some (h !! "User-Agent")) then [] else [mkField "user-agent" defaultUserAgent])) r2) as (G1 & G2 & G3 & G4 & G5).
  { apply Forall_app. split; [destruct gzip | case_bool_decide]; repeat constructor; unfold regular; by rewrite pseudo_colon. }
  rewrite G1, G2, G3, G4, F1, F2, F3, F5, E1, E2, E3, E4. split_and!; try done.
  intros K. rewrite G5, F4, E5, Hr. destruct (header_values order h K Hn Hp) as [_ ->]. unfold values at 1. rewrite lookup_empty.
  unfold arrived_values. rewrite field_values_app. cbn [default from_option app]. f_equal. f_equal.
  - destruct gzip; [| done]. unfold field_values. cbn [List.filter Name]. change (CanonicalHeaderKey "accept-encoding") with "Accept-Encoding".
    rewrite String.eqb_sym. by destruct (String.eqb K "Accept-Encoding").
  - case_bool_decide; [done |]. unfold field_values. cbn [List.filter Name negb]. change (CanonicalHeaderKey "user-agent") with "User-Agent".
    rewrite String.eqb_sym. by destruct (String.eqb K "User-Agent").
Qed.

(** ** Lemmas: responses *)

Lemma all_fields_regular k vv : k <> "" -> string_forallb validHeaderFieldByte k = true ->
  Forall (fun f => IsPseudo f = false) (all_fields (k, vv)).
Proof.
  intros Hne Ht. apply Forall_forall. intros f Hf. apply list_elem_of_fmap in Hf as (v & -> & _). rewrite pseudo_colon. cbn.
  destruct k as [| c k]; [done |]. cbn in *. apply andb_true_iff in Ht as [Ht _]. by rewrite lower_colon, token_not_colon.
Qed.

(** The entries for names other than [Trailer]. *)
Lemma response_entry res k vv : CanonicalHeaderKey k = k -> string_forallb validHeaderFieldByte k = true -> k <> "Trailer" ->
  let res' := foldl response_field res (all_fields (k, vv)) in
  StatusCode res' = StatusCode res /\ Trailer res' = Trailer res
  /\ forall K, values (Response_Header res') K = values (Response_Header res) K ++ (if String.eqb k K then vv else []).
Proof.
  intros Hc Ht Hne. unfold all_fields. cbn [fst snd]. revert res. induction vv as [| v vv IH]; intros res; cbn zeta.
  - split_and!; try done. intros K. cbn. destruct (String.eqb k K); by rewrite app_nil_r.
  - rewrite fmap_cons. cbn [foldl]. match goal with |- context [foldl _ ?r _] => set (res1 := r) end.
    assert (E : res1 = mkResponse (StatusCode res) (<[k := values (Response_Header res) k ++ [v]]> (Response_Header res)) (Trailer res)
      (Response_ContentLength res) (Uncompressed res)).
    { subst res1. unfold response_field. cbn [Name Value]. rewrite canonical_ToLower, Hc by done.
      by rewrite (proj2 (String.eqb_neq _ _) Hne). }
    destruct (IH res1) as (E1 & E2 & E3). rewrite E1, E2. split_and!; [by rewrite E.. |]. intros K. rewrite E3, E. cbn [Response_Header].
    unfold values. destruct (String.eqb_spec k K) as [-> |].
    + rewrite lookup_insert_eq. cbn [default from_option id]. by rewrite <- app_assoc.
    + by rewrite lookup_insert_ne.
Qed.

Lemma response_header order h res : names_ok h -> order ≡ₚ map_to_list h -> h !! "Trailer" = None ->
  let res' := foldl response_field res (concat (all_fields <$> order)) in
  StatusCode res' = StatusCode res /\ Trailer res' = Trailer res
  /\ forall K, values (Response_Header res') K = values (Response_Header res) K ++ values h K.
Proof.
  intros Hn Hp Htr. assert (Hnd : NoDup order.*1) by (rewrite Hp; apply NoDup_fst_map_to_list).
  assert (Hh : list_to_map order = h) by (rewrite <- (list_to_map_to_list h); by apply list_to_map_proper).
  assert (Hok : forall k vv, (k, vv) ∈ order -> CanonicalHeaderKey k = k /\ string_forallb validHeaderFieldByte k = true /\ k <> "Trailer").
  { intros k vv Hin. rewrite Hp, elem_of_map_to_list in Hin. destruct (Hn k vv Hin) as (? & ? & ?). split_and!; try done. intros ->. congruence. }
  rewrite <- Hh. clear Hh Hp Hn Htr. revert res. induction order as [| [k vv] order IH]; intros res; cbn zeta.
  { split_and!; try done. intros K. unfold values at 3. cbn. by rewrite lookup_empty, app_nil_r. }
  cbn [fmap list_fmap] in Hnd. apply NoDup_cons in Hnd as [Hnk Hnd]. destruct (Hok k vv) as (Hc & Ht & Hne); [by left |].
  rewrite fmap_cons. cbn [concat]. rewrite foldl_app. destruct (response_entry res k vv Hc Ht Hne) as (E1 & E2 & E3).
  set (res1 := foldl response_field res _) in *. destruct (IH Hnd ltac:(intros; eapply Hok; by right) res1) as (F1 & F2 & F3).
  rewrite F1, F2, E1, E2. split_and!; try done. intros K. rewrite F3, E3, <- app_assoc. f_equal.
  cbn [list_to_map foldr fst snd uncurry]. unfold values. destruct (String.eqb_spec k K) as [-> |].
  - by rewrite lookup_insert_eq, (not_elem_of_list_to_map_1 _ _ Hnk), app_nil_r.
  - by rewrite lookup_insert_ne.
Qed.

Lemma concat_fields_regular order h : names_ok h -> order ≡ₚ map_to_list h ->
  Forall (fun f => IsPseudo f = false) (concat (all_fields <$> order)).
Proof.
  intros Hn Hp. apply Forall_concat, Forall_fmap, Forall_forall. intros [k vv] Hin. rewrite Hp, elem_of_map_to_list in Hin.
  destruct (Hn k vv Hin) as (_ & ? & ?). by apply all_fields_regular.
Qed.

(** ** Theorems *)

(** A request that can be sent, with its host, its path, and the URL the server
    makes of it. *)
Record request_valid (req : Request) (host path : string) (u : URL) : Prop := {
  rv_names k vv : Request_Header req !! k = Some vv -> CanonicalHeaderKey k = k /\ ValidHeaderFieldName k = true
    /\ Forall (fun v => ValidHeaderFieldValue v = true) vv;
  rv_method : Method req <> "" /\ Method req <> "CONNECT";
  rv_length : actualContentLength req < 2 ^ 63;
  rv_host : PunycodeHostPort (if String.eqb (Host req) "" then URL_Host (request_url req) else Host req) = Ok host /\ host <> "";
  rv_path : request_path req host = Ok path;
  rv_url : Parse path = Ok u }.

(** What the server gets of a request. *)
Definition request_arrived (req : Request) (gzip : bool) (host path : string) (u : URL) (req' : Request) : Prop :=
  Method req' = Method req /\ Host req' = host /\ RequestURI req' = path /\ Request_URL req' = Some u
  /\ Request_ContentLength req'
     = (if shouldSendReqContentLength (Method req) (actualContentLength req) then actualContentLength req else 0)
  /\ forall K, values (Request_Header req') K = arrived_header (Request_Header req) gzip K.

(** Requests arrive, for every order in which the header is walked through. *)
Theorem request_roundtrip order order' req gzip host path u :
  order ≡ₚ map_to_list (Request_Header req) -> order' ≡ₚ map_to_list (Request_Header req) -> request_valid req host path u ->
  exists req', requestFromHeaders (WriteRequest_fields order order' req gzip) = Ok req' /\ request_arrived req gzip host path u req'.
Proof.
  intros Hp Hp' [Hh [Hm Hc] Hlen [Hhost Hne] Hpath Hu]. set (h := Request_Header req) in *. set (clen := actualContentLength req) in *.
  assert (Hn : names_ok h).
  { intros k vv Hk. destruct (Hh k vv Hk) as (? & Hv & _). apply valid_name_token in Hv as [? ?]. done. }
  assert (Hchk : forall badName badValue, check_headers badName badValue order = Ok tt).
  { intros ? ?. eapply check_headers_ok; [done |]. intros k vv Hk. destruct (Hh k vv Hk) as (_ & ? & ?). done. }
  pose proof (request_path_nonempty req host path Hc Hpath) as Hpne.
  unfold WriteRequest_fields, encodeHeaders. rewrite Hhost. cbn [mbind outcome_bind]. rewrite Hpath. cbn [mbind outcome_bind].
  rewrite Hchk. cbn [mbind outcome_bind]. fold clen. rewrite (proj2 (String.eqb_neq _ _) Hc). rewrite String.eqb_refl.
  set (scheme := Scheme (request_url req)). unfold requestFromHeaders.
  assert (E0 : forall rest, foldl read_field (mkRequestFields "" "" "" "" ∅)
    ([mkField ":authority" host; mkField ":method" (Method req)] ++ [mkField ":path" path; mkField ":scheme" scheme] ++ [] ++ rest)
    = foldl read_field (mkRequestFields path host (Method req) "" ∅) rest).
  { intros rest. cbn. by rewrite pseudo_colon. }
  rewrite E0.
  destruct (read_rest order' h (mkRequestFields path host (Method req) "" ∅) (Method req) clen gzip Hn Hp' eq_refl)
    as (E1 & E2 & E3 & E4 & E5).
  set (r := foldl read_field _ _) in *. rewrite E1, E2, E3, E4. cbn [rf_path rf_authority rf_method rf_contentLength].
  rewrite (proj2 (String.eqb_neq _ _) Hpne), (proj2 (String.eqb_neq _ _) Hne), (proj2 (String.eqb_neq _ _) Hm). cbn [orb].
  rewrite Hu. cbn [mbind outcome_bind].
  assert (E6 : (if String.eqb (if shouldSendReqContentLength (Method req) clen then FormatInt clen else "") "" then Ok 0
    else ParseInt (if shouldSendReqContentLength (Method req) clen then FormatInt clen else ""))
    = Ok (if shouldSendReqContentLength (Method req) clen then clen else 0)).
  { destruct (shouldSendReqContentLength (Method req) clen) eqn:Es; [| done].
    rewrite (proj2 (String.eqb_neq _ _) (FormatInt_nonempty clen)). apply ParseInt_FormatInt. split; [| done].
    unfold shouldSendReqContentLength in Es. destruct (Z.ltb_spec 0 clen); [lia |]. destruct (Z.ltb_spec clen 0); [done | lia]. }
  rewrite E6. cbn [mbind outcome_bind]. eexists. split; [done |]. split_and!; try done.
  intros K. cbn [Request_Header]. rewrite join_cookies_values, !E5. done.
Qed.

(** Responses arrive: status and header of the handler are those the client reads,
    apart from [Trailer]. *)
Theorem response_roundtrip status order h :
  names_ok h -> order ≡ₚ map_to_list h -> h !! "Trailer" = None -> 0 <= status < 2 ^ 63 ->
  exists res, responseFromHeaders false (response_fields status order) = Ok res /\ StatusCode res = status /\ Trailer res = None
    /\ forall K, values (Response_Header res) K = values h K.
Proof.
  intros Hn Hp Htr Hs. unfold responseFromHeaders, response_fields.
  rewrite (pseudo_value_first "status" (FormatInt status)), (proj2 (String.eqb_neq _ _) (FormatInt_nonempty status)).
  rewrite ParseInt_FormatInt by done.
  assert (Er : RegularFields (mkField ":status" (FormatInt status) :: concat (all_fields <$> order)) = concat (all_fields <$> order)).
  { apply (regular_fields [mkField ":status" (FormatInt status)]); [by repeat constructor; rewrite pseudo_colon |].
    by eapply concat_fields_regular. }
  rewrite Er.
  destruct (response_header order h (mkResponse status ∅ None 0 false) Hn Hp Htr) as (E1 & E2 & E3).
  eexists. split; [done |]. split_and!; [done | done |]. intros K. rewrite E3. unfold values at 1. cbn. by rewrite lookup_empty.
Qed.
End HttpTheory.

(** ** An instance *)

Definition starts_with_colon (f : HeaderField) : bool :=
  match Name f with String c _ => byte_of c =? 58 | EmptyString => false end.

Fixpoint drop_pseudo (fs : list HeaderField) : list HeaderField :=
  match fs with [] => [] | f :: l => if starts_with_colon f then drop_pseudo l else fs end.

#[export] Instance sample_http : HttpLib := {
  Parse s := Ok (mkURL "" "" "" s);
  PunycodeHostPort s := Ok s;
  ValidHeaderFieldName s := negb (String.eqb s "") && string_forallb validHeaderFieldByte s;
  ValidHeaderFieldValue s := true;
  IsPseudo := starts_with_colon;
  PseudoValue fs name := match fs with f :: _ => if String.eqb (Name f) (String (char_of 58) name) then Value f else "" | [] => "" end;
  RegularFields := drop_pseudo }.

#[export] Instance sample_http_ok : HttpLibLaws.
Proof.
  split.
  - intros k [H1 H2]%andb_true_iff. split; [| done]. intros ->. done.
  - done.
  - intros name v fs. cbn. by rewrite String.eqb_refl.
  - intros ps rs Hps Hrs. cbn. induction Hps as [| f ps Hf _ IH]; cbn.
    + destruct Hrs as [| f rs Hf _]; [done |]. cbn in *. by rewrite Hf.
    + cbn in Hf. by rewrite Hf.
Qed.

Definition sample_request : Request :=
  mkRequest "GET" (Some (mkURL "https" "" "www.example.org" "/index.html")) {["Cookie" := ["a=1"; "b=2"]]} false 0 "" "".

Lemma sample_request_valid : request_valid sample_request "www.example.org" "/index.html" (mkURL "" "" "" "/index.html").
Proof.
  split; try done. intros k vv Hk. change (Request_Header sample_request) with ({["Cookie" := ["a=1"; "b=2"]]} : http_Header) in Hk.
  apply lookup_singleton_Some in Hk as [<- <-]. split_and!; [reflexivity | reflexivity | by repeat constructor].
Qed.

Lemma request_roundtrip_witness : exists req',
  requestFromHeaders (WriteRequest_fields [("Cookie", ["a=1"; "b=2"])] [("Cookie", ["a=1"; "b=2"])] sample_request true) = Ok req'
  /\ Host req' = "www.example.org" /\ values (Request_Header req') "Cookie" = ["a=1; b=2"].
Proof.
  destruct (request_roundtrip [("Cookie", ["a=1"; "b=2"])] [("Cookie", ["a=1"; "b=2"])] sample_request true
    "www.example.org" "/index.html" (mkURL "" "" "" "/index.html")) as (req' & H1 & _ & H2 & _ & _ & _ & H3).
  - reflexivity.
  - reflexivity.
  - apply sample_request_valid.
  - exists req'. split; [exact H1 |]. split; [exact H2 |]. rewrite H3. reflexivity.
Defined.

(** ** Defects *)

(** [WriteRequest] drops the error of [encodeHeaders] and sends an empty header
    block, which the server refuses, closing the connection. *)
Theorem failed_request_is_sent `{HttpLib} order order' req gzip e :
  encodeHeaders order order' req gzip "" (actualContentLength req) = Err e ->
  requestFromHeaders (WriteRequest_fields order order' req gzip)
  = Err (Errorf ":path, :authority and :method must not be empty" []).
Proof. intros He. unfold WriteRequest_fields. by rewrite He. Qed.

Lemma failed_request_is_sent_witness :
  requestFromHeaders (WriteRequest_fields [] [] (mkRequest "GET" (Some (mkURL "https" "x" "h" "x")) ∅ false 0 "" "") false)
  = Err (Errorf ":path, :authority and :method must not be empty" []).
Proof.
  apply (failed_request_is_sent [] [] _ false (Errorf "invalid request :path %q from URL.Opaque = %q" [])). reflexivity.
Defined.

(** For the method CONNECT no path is sent, and the server refuses the request. *)
Theorem connect_is_refused :
  requestFromHeaders (WriteRequest_fields [] [] (mkRequest "CONNECT" (Some (mkURL "https" "" "h" "")) ∅ false 0 "" "") false)
  = Err (Errorf ":path, :authority and :method must not be empty" []).
Proof. reflexivity. Qed.
