(* ===== verification/HttpServer.v ===== *)
(** * An HTTP server over QUIC (h2quic: server.go, response_writer.go, request_body.go)

    The server reads the frames of the header stream and starts a goroutine for
    every request.  A handler is known by the calls it makes, in any number and
    order, and by whether it panics at the end; what it causes is a list of calls
    of the streams and of the session.  The HTTP/2 framer and the HPACK decoder are
    parameters, the stream of a request is its identifier. *)

From Stdlib Require Import Ascii String.
From S2P Require Import Prelude Qerr Protocol HttpHeaders.

Open Scope string_scope.
Open Scope list_scope.
Open Scope Z_scope.

Definition InvalidHeadersStreamData : Z := 56.
Definition HeadersStreamDataDecompressFailure : Z := 97.

(** Calls of the streams and of the session. *)
Inductive http_call : Type :=
| WriteHeaders (streamID : Z) (fields : list HeaderField)
| StreamWrite (data : list Z)
| StreamRead
| StreamCloseRemote (offset : Z)
| StreamCancelRead (code : Z)
| StreamClose
| SessionClose
| SessionCloseWithError (code : Z) (e : go_error).

(** ** response_writer.go *)

Record responseWriter : Type := mkResponseWriter {
  dataStreamID : Z;
  w_header : http_Header;
  w_status : Z;
  headerWritten : bool }.

Definition newResponseWriter (id : Z) : responseWriter := mkResponseWriter id ∅ 0 false.

(** [order] is the order in which the header is walked through. *)
Definition WriteHeader (w : responseWriter) (order : list (string * list string)) (status : Z)
    : responseWriter * list http_call :=
  if headerWritten w then (w, [])
  else (mkResponseWriter (dataStreamID w) (w_header w) status true,
        [WriteHeaders (u32 (dataStreamID w)) (response_fields status order)]).

Definition ErrBodyNotAllowed : go_error := Errorf "http: request method or response status code does not allow body" [].

Definition rw_Write (w : responseWriter) (order : list (string * list string)) (p : list Z)
    : option go_error * responseWriter * list http_call :=
  let '(w, calls) := if negb (headerWritten w) then WriteHeader w order 200 else (w, []) in
  if negb (bodyAllowedForStatus (w_status w)) then (Some ErrBodyNotAllowed, w, calls)
  else (None, w, calls ++ [StreamWrite p]).

(** ** The goroutine of a request *)

(** What a handler does. *)
Inductive handler_call : Type :=
| HeaderSet (h : http_Header)
| HandlerWriteHeader (status : Z)
| HandlerWrite (p : list Z)
| HandlerRead
| HandlerFlush.

(** [requestRead] of the body, and the response. *)
Record serving : Type := mkServing { sv_writer : responseWriter; sv_requestRead : bool; sv_calls : list http_call }.

Section Serving.
(** The order in which Go walks through a header. *)
Context (order : http_Header -> list (string * list string)).

Definition serving_WriteHeader (s : serving) (status : Z) : serving :=
  let '(w, calls) := WriteHeader (sv_writer s) (order (w_header (sv_writer s))) status in
  mkServing w (sv_requestRead s) (sv_calls s ++ calls).

Definition handler_step (s : serving) (c : handler_call) : serving :=
  match c with
  | HeaderSet h =>
      let w := sv_writer s in
      mkServing (mkResponseWriter (dataStreamID w) h (w_status w) (headerWritten w)) (sv_requestRead s) (sv_calls s)
  | HandlerWriteHeader status => serving_WriteHeader s status
  | HandlerWrite p =>
      let '(_, w, calls) := rw_Write (sv_writer s) (order (w_header (sv_writer s))) p in
      mkServing w (sv_requestRead s) (sv_calls s ++ calls)
  | HandlerRead => mkServing (sv_writer s) true (sv_calls s ++ [StreamRead])
  | HandlerFlush => s
  end.

(** The function that [handleRequest] starts. *)
Definition serve_request (closeAfterFirstRequest streamEnded : bool) (id : Z) (handler : list handler_call) (panicked : bool)
    : list http_call :=
  let start := if streamEnded then [StreamCloseRemote 0; StreamRead] else [] in
  let s := foldl handler_step (mkServing (newResponseWriter id) false start) handler in
  let s := serving_WriteHeader s (if panicked then 500 else 200) in
  sv_calls s
  ++ (if negb streamEnded && negb (sv_requestRead s) then [StreamCancelRead 0] else [])
  ++ [StreamClose]
  ++ (if closeAfterFirstRequest then [SessionClose] else []).
End Serving.

(** ** server.go: the header stream *)

Inductive h2_frame : Type :=
| PriorityFrame
| HeadersFrame (streamID : Z) (endHeaders endStream : bool) (block : list Z)
| OtherFrame.

Section HeaderStream.
Context `{HttpLib}.
(** The HPACK decoder with its state, and [GetOrOpenStream]. *)
Context {D : Type} (DecodeFull : D -> list Z -> outcome (list HeaderField) * D).
Context (GetOrOpenStream : Z -> outcome (option Z)).

(** A request that is served: stream, request, and whether the stream has ended. *)
Record served : Type := mkServed { sd_stream : Z; sd_request : Request; sd_ended : bool }.

(** The rest of [handleRequest] once the header block is decoded. *)
Definition start_request (id : Z) (endStream : bool) (headers : outcome (list HeaderField)) : outcome (option served) :=
  headers ← headers;
  req ← requestFromHeaders headers;
  dataStream ← GetOrOpenStream id;
  Ok (match dataStream with Some s => Some (mkServed s req endStream) | None => None end).

Definition handleRequest (d : D) (frame : outcome h2_frame) : outcome (option served) * D :=
  match frame with
  | Ok PriorityFrame => (Ok None, d)
  | Ok (HeadersFrame id endHeaders endStream block) =>
      if negb endHeaders then (Err (Errorf "http2 header continuation not implemented" []), d)
      else
        let '(headers, d) := DecodeFull d block in
        (start_request id endStream headers, d)
  | Ok OtherFrame => (Err (QuicError InvalidHeadersStreamData (Msg "expected a header frame" [])), d)
  | _ => (Err (QuicError HeadersStreamDataDecompressFailure (Msg "cannot read frame" [])), d)
  end.

(** The code the session is closed with. *)
Definition close_code (e : go_error) : Z := match e with QuicError code _ => code | _ => InternalError end.

(** The frames of the header stream in their order: what is served, and the call
    that ends the session if one of them fails. *)
Fixpoint handleHeaderStream (d : D) (frames : list (outcome h2_frame)) : list served * option http_call :=
  match frames with
  | [] => ([], None)
  | f :: frames =>
      match handleRequest d f with
      | (Ok None, d) => handleHeaderStream d frames
      | (Ok (Some s), d) => let '(l, c) := handleHeaderStream d frames in (s :: l, c)
      | (Err e, _) => ([], Some (SessionCloseWithError (close_code e) e))
      | (Panic msg, _) => ([], Some (SessionCloseWithError InternalError (Errorf msg [])))
      end
  end.
End HeaderStream.

(** ** server.go: the server *)

(** The listener of [ListenAndServe] or [Serve]. *)
Record Server : Type := mkHttpServer { hasServer : bool; listener : option nat; h_closed : bool }.

(** [ln] is what [quicListen] gives. *)
Definition serveImpl (s : Server) (ln : outcome nat) : outcome nat * Server :=
  if negb (hasServer s) then (Err (Errorf "use of h2quic.Server without http.Server" []), s)
  else if h_closed s then (Err (Errorf "Server is already closed" []), s)
  else match listener s with
       | Some _ => (Err (Errorf "ListenAndServe may only be called once" []), s)
       | None =>
           match ln with
           | Ok l => (Ok l, mkHttpServer (hasServer s) (Some l) (h_closed s))
           | _ => (ln, s)
           end
       end.

(** The listener that is closed. *)
Definition Server_Close (s : Server) : option nat * Server := (listener s, mkHttpServer (hasServer s) None true).

(** [SetQuicHeaders]; [lookup] is the result of [net.SplitHostPort] and [net.LookupPort]. *)
Definition ToAltSvc (v : Z) : string := FormatInt v.
Definition quote : string := String (char_of 34) "".

Definition SetQuicHeaders (port : Z) (lookup : outcome Z) (hdr : http_Header) : outcome (Z * http_Header) :=
  port ← (if port =? 0 then lookup else Ok port);
  let versions := Join (ToAltSvc <$> SupportedVersions) "," in
  Ok (port, header_Add hdr "Alt-Svc"
        ("quic=" +:+ quote +:+ ":" +:+ FormatInt port +:+ quote +:+ "; ma=2592000; v=" +:+ quote +:+ versions +:+ quote)).

(** ** Lemmas *)

(** What is written to the header stream, and to the stream of the request. *)
Definition headers_of (calls : list http_call) : list (Z * list HeaderField) :=
  omap (fun c => match c with WriteHeaders id fs => Some (id, fs) | _ => None end) calls.
Definition body_of (calls : list http_call) : list (list Z) :=
  omap (fun c => match c with StreamWrite p => Some p | _ => None end) calls.
(** No body before the header. *)
Fixpoint header_first (calls : list http_call) : bool :=
  match calls with
  | [] => true
  | WriteHeaders _ _ :: _ => true
  | StreamWrite _ :: _ => false
  | _ :: calls => header_first calls
  end.

(** The status a handler chooses. *)
Fixpoint chosen_status (handler : list handler_call) (otherwise : Z) : Z :=
  match handler with
  | [] => otherwise
  | HandlerWriteHeader status :: _ => status
  | HandlerWrite _ :: _ => 200
  | _ :: handler => chosen_status handler otherwise
  end.

Definition written (handler : list handler_call) : list (list Z) :=
  omap (fun c => match c with HandlerWrite p => Some p | _ => None end) handler.
Definition reads (handler : list handler_call) : bool :=
  existsb (fun c => match c with HandlerRead => true | _ => false end) handler.

Section ServingTheory.
Context (order : http_Header -> list (string * list string)).

Abbreviation steps := (foldl (handler_step order)).

Lemma header_first_app calls calls' : header_first (calls ++ calls') =
  match headers_of calls, body_of calls with [], [] => header_first calls' | _, _ => header_first calls end.
Proof.
  induction calls as [| c calls IH]; [done |]. destruct c; try exact IH; [done |].
  change (headers_of (StreamWrite data :: calls)) with (headers_of calls).
  change (body_of (StreamWrite data :: calls)) with (data :: body_of calls). by destruct (headers_of calls).
Qed.

Lemma headers_of_app l l' : headers_of (l ++ l') = headers_of l ++ headers_of l'.
Proof. apply omap_app. Qed.
Lemma body_of_app l l' : body_of (l ++ l') = body_of l ++ body_of l'.
Proof. apply omap_app. Qed.

(** Once the header is written: [s'] has written the rest of the body. *)
Definition continues (s s' : serving) (handler : list handler_call) : Prop :=
  headers_of (sv_calls s') = headers_of (sv_calls s) /\ headerWritten (sv_writer s') = true
  /\ w_status (sv_writer s') = w_status (sv_writer s)
  /\ body_of (sv_calls s') = body_of (sv_calls s) ++ (if bodyAllowedForStatus (w_status (sv_writer s)) then written handler else [])
  /\ sv_requestRead s' = sv_requestRead s || reads handler
  /\ sv_calls s `prefix_of` sv_calls s'.

Lemma app_nil_if {A} (b : bool) (l : list A) : l = l ++ (if b then [] else []).
Proof. by destruct b; rewrite app_nil_r. Qed.

Lemma written_step s c : headerWritten (sv_writer s) = true -> continues s (handler_step order s c) [c].
Proof.
  intros Hw. unfold continues, handler_step, serving_WriteHeader, WriteHeader, rw_Write. rewrite Hw. cbn [negb].
  destruct c as [h | status | p | |]; cbn [written reads existsb omap list_omap orb sv_calls sv_writer sv_requestRead w_status headerWritten];
    rewrite ?app_nil_r, ?orb_false_r, ?orb_true_r.
  - split_and!; try done. apply app_nil_if.
  - split_and!; try done. apply app_nil_if.
  - destruct (bodyAllowedForStatus (w_status (sv_writer s))) eqn:E; cbn [negb sv_calls sv_writer sv_requestRead app].
    + rewrite headers_of_app, body_of_app. cbn. rewrite app_nil_r. split_and!; try done. by apply prefix_app_r.
    + rewrite !app_nil_r. by split_and!.
  - rewrite headers_of_app, body_of_app. cbn. rewrite !app_nil_r. split_and!; try done; [apply app_nil_if | by apply prefix_app_r].
  - split_and!; try done. apply app_nil_if.
Qed.

Lemma written_cons c handler : written (c :: handler) = written [c] ++ written handler.
Proof. by destruct c. Qed.
Lemma reads_cons c handler : reads (c :: handler) = reads [c] || reads handler.
Proof. by destruct c. Qed.

Lemma written_steps handler s : headerWritten (sv_writer s) = true -> continues s (steps s handler) handler.
Proof.
  revert s. induction handler as [| c handler IH]; intros s Hw.
  { unfold continues. cbn. rewrite orb_false_r. split_and!; try done. apply app_nil_if. }
  cbn [foldl]. destruct (written_step s c Hw) as (H1 & H2 & H3 & H4 & H5 & H6).
  destruct (IH _ H2) as (E1 & E2 & E3 & E4 & E5 & E6). unfold continues.
  rewrite E1, E3, E4, E5, H1, H3, H4, H5, (written_cons c handler), (reads_cons c handler). split_and!; try done.
  - rewrite <- app_assoc. by destruct (bodyAllowedForStatus _).
  - by rewrite orb_assoc.
  - by etrans.
Qed.

(** Before: nothing but reads. *)
Definition fresh (s : serving) : Prop :=
  headerWritten (sv_writer s) = false /\ headers_of (sv_calls s) = [] /\ body_of (sv_calls s) = [].

(** The header with status [status] has been written, and the body [body]. *)
Definition responded (id status : Z) (body : list (list Z)) (s : serving) : Prop :=
  headerWritten (sv_writer s) = true /\ w_status (sv_writer s) = status
  /\ (exists h, headers_of (sv_calls s) = [(u32 id, response_fields status (order h))])
  /\ body_of (sv_calls s) = (if bodyAllowedForStatus status then body else [])
  /\ header_first (sv_calls s) = true.

Lemma continues_responded id status body s s' handler : responded id status body s -> continues s s' handler ->
  responded id status (body ++ written handler) s'.
Proof.
  intros (H1 & H2 & (h & H3) & H4 & H5) (E1 & E2 & E3 & E4 & _ & [l E6]). unfold responded. rewrite E1, E3, E4, H2, H3, H4.
  split_and!; try done; [by exists h | by destruct (bodyAllowedForStatus status) |].
  rewrite E6, header_first_app, H3. done.
Qed.

Lemma fresh_WriteHeader s status : fresh s ->
  responded (dataStreamID (sv_writer s)) status [] (serving_WriteHeader order s status).
Proof.
  intros (Hw & Hh & Hb). unfold serving_WriteHeader, WriteHeader, responded. rewrite Hw.
  cbn [sv_writer headerWritten w_status sv_calls]. rewrite headers_of_app, body_of_app, header_first_app, Hh, Hb. cbn.
  split_and!; try done; [by eexists | by destruct (bodyAllowedForStatus status)].
Qed.

Lemma fresh_write s p : fresh s -> responded (dataStreamID (sv_writer s)) 200 [p] (handler_step order s (HandlerWrite p)).
Proof.
  intros (Hw & Hh & Hb). unfold handler_step, rw_Write, WriteHeader, responded. rewrite Hw.
  change (bodyAllowedForStatus 200) with true. cbn. rewrite headers_of_app, body_of_app, header_first_app, Hh, Hb. cbn.
  split_and!; try done. by eexists.
Qed.

(** The whole handler. *)
Lemma handler_responds handler s otherwise : fresh s ->
  responded (dataStreamID (sv_writer s)) (chosen_status handler otherwise) (written handler)
    (serving_WriteHeader order (steps s handler) otherwise)
  /\ sv_requestRead (steps s handler) = sv_requestRead s || reads handler.
Proof.
  revert s. induction handler as [| c handler IH]; intros s Hs.
  { cbn [foldl chosen_status written omap list_omap reads existsb]. rewrite orb_false_r. split; [by apply fresh_WriteHeader | done]. }
  assert (Hdone : forall s1 status body, responded (dataStreamID (sv_writer s)) status body s1 ->
    responded (dataStreamID (sv_writer s)) status (body ++ written handler) (serving_WriteHeader order (steps s1 handler) otherwise)
    /\ sv_requestRead (steps s1 handler) = sv_requestRead s1 || reads handler).
  { intros s1 status body Hr. pose proof (written_steps handler s1 (proj1 Hr)) as Hc.
    pose proof (continues_responded _ _ _ _ _ _ Hr Hc) as Hr'. split; [| apply Hc].
    unfold serving_WriteHeader, WriteHeader. rewrite (proj1 Hr'). rewrite app_nil_r. by destruct (steps s1 handler). }
  cbn [foldl]. rewrite (written_cons c handler), (reads_cons c handler). destruct c as [h | status | p | |]; cbn [chosen_status].
  - apply (IH (handler_step order s (HeaderSet h)) Hs).
  - cbn [written omap list_omap reads existsb orb app]. destruct (Hdone _ _ _ (fresh_WriteHeader s status Hs)) as [H1 H2].
    split; [exact H1 |]. cbn [handler_step] in *. rewrite H2. f_equal. unfold serving_WriteHeader, WriteHeader.
    by destruct (headerWritten (sv_writer s)).
  - destruct (Hdone _ _ _ (fresh_write s p Hs)) as [H1 H2]. split; [exact H1 |]. rewrite H2. f_equal.
    unfold handler_step. destruct (rw_Write _ _ _) as [[e w] calls]. done.
  - destruct (IH (handler_step order s HandlerRead)) as [H1 H2].
    { destruct Hs as (? & ? & ?). unfold fresh. cbn. rewrite headers_of_app, body_of_app, H0, H1. by split_and!. }
    split; [exact H1 |]. rewrite H2. cbn. by rewrite orb_true_r.
  - destruct (IH s Hs) as [H1 H2]. split; [exact H1 |]. cbn [handler_step]. by rewrite H2.
Qed.

Definition no_close (calls : list http_call) : Prop :=
  Forall (fun c => match c with StreamClose | StreamCancelRead _ => False | _ => True end) calls.

Lemma WriteHeader_no_close s status : no_close (sv_calls s) -> no_close (sv_calls (serving_WriteHeader order s status)).
Proof.
  intros Hs. unfold serving_WriteHeader, WriteHeader. destruct (headerWritten _); cbn; apply Forall_app; split; try done; by repeat constructor.
Qed.

(** A handler does not close the stream. *)
Lemma serving_no_close handler s status : no_close (sv_calls s) -> no_close (sv_calls (serving_WriteHeader order (steps s handler) status)).
Proof.
  intros Hs. apply WriteHeader_no_close. revert s Hs. induction handler as [| c handler IH]; intros s Hs; [done |]. apply IH.
  destruct c as [h | st | p | |]; cbn [handler_step sv_calls]; try done.
  - by apply WriteHeader_no_close.
  - unfold rw_Write, WriteHeader. destruct (headerWritten (sv_writer s)); cbn [negb w_status app].
    + destruct (negb _); cbn [sv_calls]; apply Forall_app; split; try done; by repeat constructor.
    + change (negb (bodyAllowedForStatus 200)) with false. cbn [sv_calls]. apply Forall_app. split; [done | by repeat constructor].
  - apply Forall_app. split; [done | by repeat constructor].
Qed.
End ServingTheory.

(** ** Theorems *)

(** C16. One response for each request: whatever a handler does, and also if it
    panics, exactly one header is written, before the body, with the status of
    the first call that decides it, or else 200, or 500 after a panic; the body
    is what the handler writes, unless the status allows none; reading is
    cancelled if the request has a body that was not read; and the stream is
    closed once, at the end. *)
Theorem response_written_once order closeAfter streamEnded id handler panicked :
  let calls := serve_request order closeAfter streamEnded id handler panicked in
  let status := chosen_status handler (if panicked then 500 else 200) in
  (exists h, headers_of calls = [(u32 id, response_fields status (order h))])
  /\ header_first calls = true
  /\ body_of calls = (if bodyAllowedForStatus status then written handler else [])
  /\ exists before, calls = before ++ (if negb streamEnded && negb (reads handler) then [StreamCancelRead 0] else [])
       ++ [StreamClose] ++ (if closeAfter then [SessionClose] else [])
     /\ (StreamClose ∉ before) /\ (StreamCancelRead 0 ∉ before).
Proof.
  cbn zeta. unfold serve_request.
  set (s0 := mkServing (newResponseWriter id) false (if streamEnded then [StreamCloseRemote 0; StreamRead] else [])).
  destruct (handler_responds order handler s0 (if panicked then 500 else 200)) as [Hr Hread].
  { by destruct streamEnded. }
  set (status := chosen_status handler (if panicked then 500 else 200)) in *.
  set (s1 := serving_WriteHeader order _ _) in *. destruct Hr as (_ & _ & (h & Hh) & Hb & Hf).
  assert (Hread1 : sv_requestRead s1 = reads handler).
  { transitivity (sv_requestRead (foldl (handler_step order) s0 handler)); [| exact Hread]. subst s1.
    unfold serving_WriteHeader. by destruct (WriteHeader _ _ _). }
  rewrite Hread1. set (tail := (if negb streamEnded && negb (reads handler) then _ else _) ++ _).
  assert (Ht : headers_of tail = [] /\ body_of tail = []) by (subst tail; by destruct (negb streamEnded && negb (reads handler)), closeAfter).
  destruct Ht as [Ht1 Ht2]. rewrite headers_of_app, body_of_app, header_first_app, Ht1, Ht2, !app_nil_r, Hh, Hb, Hf.
  split_and!; try done; [by eexists |]. exists (sv_calls s1). split; [done |].
  assert (Hno : Forall (fun c => match c with StreamClose | StreamCancelRead _ => False | _ => True end) (sv_calls s1)).
  { apply serving_no_close. by destruct streamEnded; repeat constructor. }
  rewrite Forall_forall in Hno. by split; intros Hin%Hno.
Qed.

Section Exchange.
Context `{HttpLibLaws}.
(** The encoder of the client and the decoder of the server: a decoder in sync
    with the encoder gives the fields back and stays in sync. *)
Context {E D : Type} (WriteFields : E -> list HeaderField -> list Z * E).
Context (DecodeFull : D -> list Z -> outcome (list HeaderField) * D) (in_sync : E -> D -> Prop).
Context (hpack_roundtrip : forall e d fs, in_sync e d ->
  exists d', DecodeFull d (WriteFields e fs).1 = (Ok fs, d') /\ in_sync (WriteFields e fs).2 d').
Context (GetOrOpenStream : Z -> outcome (option Z)).

(** A request of the client: its stream, the orders of its header, whether
    compression is asked for, and what the server is to get. *)
Record sending : Type := mkSending {
  sn_stream : Z; sn_order : list (string * list string); sn_order' : list (string * list string);
  sn_request : Request; sn_gzip : bool; sn_host : string; sn_path : string; sn_url : URL }.

(** [WriteRequest] for each of them; a stream ends with the header if there is no
    body. *)
Fixpoint WriteRequests (e : E) (l : list sending) : list (outcome h2_frame) :=
  match l with
  | [] => []
  | r :: l =>
      let '(block, e) := WriteFields e (WriteRequest_fields (sn_order r) (sn_order' r) (sn_request r) (sn_gzip r)) in
      Ok (HeadersFrame (u32 (sn_stream r)) true (negb (Body (sn_request r))) block) :: WriteRequests e l
  end.

Record sending_ok (r : sending) : Prop := {
  so_stream : GetOrOpenStream (u32 (sn_stream r)) = Ok (Some (sn_stream r));
  so_order : sn_order r ≡ₚ map_to_list (Request_Header (sn_request r));
  so_order' : sn_order' r ≡ₚ map_to_list (Request_Header (sn_request r));
  so_request : request_valid (sn_request r) (sn_host r) (sn_path r) (sn_url r) }.

End Exchange.

(** A frame that fails ends the session, and with it all requests: the frames
    before it are served, those after it are not. *)
Theorem bad_frame_ends_session `{HttpLib} {D : Type} (DecodeFull : D -> list Z -> outcome (list HeaderField) * D)
    GetOrOpenStream d frames l c : handleHeaderStream DecodeFull GetOrOpenStream d frames = (l, Some c) ->
  exists pre f rest d' e, frames = pre ++ f :: rest /\ handleHeaderStream DecodeFull GetOrOpenStream d pre = (l, None)
    /\ c = SessionCloseWithError (close_code e) e
    /\ ((handleRequest DecodeFull GetOrOpenStream d' f).1 = Err e
        \/ exists msg, (handleRequest DecodeFull GetOrOpenStream d' f).1 = Panic msg /\ e = Errorf msg []).
Proof.
  revert d l. induction frames as [| f frames IH]; intros d l; [done |]. cbn [handleHeaderStream].
  destruct (handleRequest DecodeFull GetOrOpenStream d f) as [[[s |] | e | msg] d1] eqn:Ef.
  - destruct (handleHeaderStream DecodeFull GetOrOpenStream d1 frames) as [l1 c1] eqn:El. intros [= <- ->].
    destruct (IH d1 l1 El) as (pre & f' & rest & d' & e & -> & Hp & Hc & He). exists (f :: pre), f', rest, d', e.
    split_and!; try done. cbn [handleHeaderStream]. by rewrite Ef, Hp.
  - intros El. destruct (IH d1 l El) as (pre & f' & rest & d' & e & -> & Hp & Hc & He). exists (f :: pre), f', rest, d', e.
    split_and!; try done. cbn [handleHeaderStream]. by rewrite Ef.
  - intros [= <- <-]. exists [], f, frames, d, e. split_and!; try done. left. by rewrite Ef.
  - intros [= <- <-]. exists [], f, frames, d, (Errorf msg []). split_and!; try done. right. exists msg. by rewrite Ef.
Qed.

(** ** An instance: header blocks without compression *)

Fixpoint string_bytes (s : string) : list Z := match s with EmptyString => [] | String c s => byte_of c :: string_bytes s end.
Definition bytes_string (l : list Z) : string := foldr (fun b s => String (char_of b) s) "" l.
Definition put_string (s : string) : list Z := len (string_bytes s) :: string_bytes s.
Definition plain_encode (e : unit) (fs : list HeaderField) : list Z * unit :=
  (concat ((fun f => put_string (Name f) ++ put_string (Value f)) <$> fs), e).

Definition get_string (l : list Z) : string * list Z :=
  match l with [] => ("", []) | n :: l => (bytes_string (take_z n l), drop_z n l) end.
Fixpoint get_fields (fuel : nat) (l : list Z) : list HeaderField :=
  match fuel, l with
  | S fuel, _ :: _ =>
      let '(name, l) := get_string l in
      let '(value, l) := get_string l in
      mkField name value :: get_fields fuel l
  | _, _ => []
  end.
Definition plain_decode (d : unit) (l : list Z) : outcome (list HeaderField) * unit := (Ok (get_fields (length l) l), d).

Lemma get_put s rest : get_string (put_string s ++ rest) = (s, rest).
Proof.
  unfold get_string, put_string. cbn [app]. rewrite take_z_app, drop_z_app. f_equal.
  induction s as [| c s IH]; [done |]. cbn. fold (bytes_string (string_bytes s)). rewrite IH. f_equal.
  unfold char_of, byte_of. by rewrite N2Z.id, ascii_N_embedding.
Qed.

Lemma get_fields_step fuel n v rest :
  get_fields (S fuel) (put_string n ++ put_string v ++ rest) = mkField n v :: get_fields fuel rest.
Proof.
  cbn [get_fields]. destruct (put_string n ++ put_string v ++ rest) as [| b l] eqn:El; [done |].
  by rewrite <- El, get_put, get_put.
Qed.

Lemma plain_roundtrip e d fs : True -> exists d', plain_decode d (plain_encode e fs).1 = (Ok fs, d') /\ True.
Proof.
  intros _. exists d. split; [| done]. unfold plain_decode, plain_encode. cbn [fst]. do 2 f_equal.
  assert (Hf : forall fuel, (length (concat ((fun f => put_string (Name f) ++ put_string (Value f)) <$> fs)) <= fuel)%nat ->
    get_fields fuel (concat ((fun f => put_string (Name f) ++ put_string (Value f)) <$> fs)) = fs); [| by apply Hf].
  induction fs as [| [n v] fs IH]; intros fuel Hl; [by destruct fuel |]. rewrite fmap_cons in *. cbn [concat] in *.
  rewrite <- app_assoc in *. destruct fuel as [| fuel]; [cbn in Hl; lia |].
  cbn [Name Value] in *. rewrite get_fields_step, IH; [done |]. rewrite !length_app in *. cbn in *. lia.
Qed.

Definition sample_sending : sending :=
  mkSending 4 [("Cookie", ["a=1"; "b=2"])] [("Cookie", ["a=1"; "b=2"])] sample_request true
    "www.example.org" "/index.html" (mkURL "" "" "" "/index.html").

Lemma sample_sending_ok : sending_ok (fun id => Ok (Some id)) sample_sending.
Proof. split; [reflexivity | reflexivity | reflexivity | apply sample_request_valid]. Qed.

