(* ===== verification/HttpClient.v ===== *)
(** * An HTTP client over QUIC (h2quic: client.go, roundtrip.go, gzipreader.go)

    A client has one connection.  Each request is a call of [RoundTrip] in a
    goroutine of its own, which waits for its response; another goroutine reads
    the responses from the header stream and hands them over, on channels without
    a buffer.  A step is one communication.  Requests are known by the order in
    which they are started; a response is kept with the stream of its frame. *)

From Stdlib Require Import Ascii String.
From S2P Require Import Prelude Qerr HttpHeaders HttpServer.

Open Scope string_scope.
Open Scope list_scope.
Open Scope Z_scope.

(** ** roundtrip.go *)

(** What is used of net and golang.org/x/net/idna. *)
Class NetNames : Type := {
  SplitHostPort : string -> outcome (string * string);
  JoinHostPort : string -> string -> string;
  idna_ToASCII : string -> outcome string;
  IsTokenRune : ascii -> bool }.

Definition last_char (s : string) : option ascii := String.get (String.length s - 1) s.

Definition authorityAddr `{NetNames} (scheme authority : string) : string :=
  let '(host, port) :=
    match SplitHostPort authority with
    | Ok hp => hp
    | _ => (authority, if String.eqb scheme "http" then "80" else "443")
    end in
  let host := match idna_ToASCII host with Ok a => a | _ => host end in
  if String.prefix "[" host && bool_decide (last_char host = Some "]"%char) then host +:+ ":" +:+ port
  else JoinHostPort host port.

Definition validMethod `{NetNames} (method : string) : bool :=
  negb (String.eqb method "") && string_forallb IsTokenRune method.

(** The checks of [RoundTripOpt]: the error, and whether the body is closed. *)
Definition check_request `{HttpLib} `{NetNames} (order : list (string * list string)) (nilHeader : bool) (req : Request)
    : option go_error * bool :=
  match Request_URL req with
  | None => (Some (Errorf "quic: nil Request.URL" []), true)
  | Some u =>
      if String.eqb (URL_Host u) "" then (Some (Errorf "quic: no Host in request URL" []), true)
      else if nilHeader then (Some (Errorf "quic: nil Request.Header" []), true)
      else if String.eqb (Scheme u) "https" then
        match check_headers (Errorf "quic: invalid http header field name %q" [])
                (Errorf "quic: invalid http header field value %q for key %v" []) order with
        | Ok _ =>
            if negb (String.eqb (Method req) "") && negb (validMethod (Method req)) then
              (Some (Errorf "quic: invalid method %q" []), true)
            else (None, false)
        | Err e => (Some e, false)
        | Panic msg => (Some (Errorf msg []), false)
        end
      else (Some (Errorf "quic: unsupported protocol scheme: %s" []), true)
  end.

(** The clients by their host names; [new] is the new one. *)
Definition ErrNoCachedConn : go_error := Errorf "h2quic: no cached connection was available" [].

Definition getClient (clients : gmap string nat) (new : nat) (hostname : string) (onlyCached : bool)
    : outcome nat * gmap string nat :=
  match clients !! hostname with
  | Some c => (Ok c, clients)
  | None => if onlyCached then (Err ErrNoCachedConn, clients) else (Ok new, <[hostname := new]> clients)
  end.

(** The clients are closed in any order, up to the first error. *)
Fixpoint RoundTripper_Close (close : nat -> option go_error) (order : list (string * nat)) (clients : gmap string nat)
    : option go_error * gmap string nat :=
  match order with
  | [] => (None, ∅)
  | (_, c) :: order => match close c with Some e => (Some e, clients) | None => RoundTripper_Close close order clients end
  end.

(** ** client.go *)

Record roundtrip : Type := mkRoundTrip {
  rt_stream : Z;
  rt_hasBody : bool;
  rt_written : bool;                       (* writeRequestBody has returned *)
  rt_resc : option (option go_error);
  rt_bodySent : bool;
  rt_response : option (Z * Response);
  rt_result : option (option go_error) }.  (* no error: the response was returned *)

Inductive reader_state : Type :=
| Reading
| Sending (i : nat) (res : Z * Response)   (* on the channel of request [i] *)
| Stopped (e : go_error).                  (* headerErrored is closed *)

Record http_client : Type := mkHttpClient {
  hc_responses : gmap Z nat;
  hc_reader : reader_state;
  hc_requests : list roundtrip;
  hc_closed : list go_error }.             (* calls of CloseWithError *)

Inductive client_event : Type :=
| Start (id : Z) (hasBody : bool) (writeErr : option go_error)
| BodyWritten (i : nat) (e : option go_error)
| SelectBody (i : nat)
| SelectResponse (i : nat)
| SelectContext (i : nat)
| SelectHeaderError (i : nat)
| Frame (id : Z) (res : outcome Response)
| FrameError (e : go_error).

Definition new_client : http_client := mkHttpClient ∅ Reading [] [].

(** The checks of [RoundTrip]; [hostname] is the one of the client. *)
Definition check_roundtrip `{NetNames} (hostname : string) (req : Request) : option go_error :=
  if negb (String.eqb (Scheme (request_url req)) "https") then Some (Errorf "quic http2: unsupported scheme" [])
  else if negb (String.eqb (authorityAddr "https" (hostnameFromRequest req)) hostname) then
    Some (Errorf "h2quic Client BUG: RoundTrip called for the wrong client (expected %s, got %s)" [])
  else None.

(** Whether compression is asked for. *)
Definition requested_gzip (disableCompression : bool) (req : Request) : bool :=
  negb disableCompression && String.eqb (header_Get (Request_Header req) "Accept-Encoding") ""
  && String.eqb (header_Get (Request_Header req) "Range") "" && negb (String.eqb (Method req) "HEAD").

(** [RoundTrip] up to its loop, on the stream [id] that was opened for it. *)
Definition start_roundtrip (c : http_client) (id : Z) (hasBody : bool) (writeErr : option go_error) : http_client :=
  let i := length (hc_requests c) in
  mkHttpClient (<[id := i]> (hc_responses c)) (hc_reader c)
    (hc_requests c ++ [mkRoundTrip id hasBody false None (negb hasBody) None
                         (match writeErr with Some e => Some (Some e) | None => None end)])
    (match writeErr with Some e => hc_closed c ++ [e] | None => hc_closed c end).

Definition set_request (c : http_client) (i : nat) (r : roundtrip) : http_client :=
  mkHttpClient (hc_responses c) (hc_reader c) (<[i := r]> (hc_requests c)) (hc_closed c).

(** The condition of the loop: both the response and the end of the body. *)
Definition settle (r : roundtrip) : roundtrip :=
  match rt_response r with
  | Some _ =>
      if rt_bodySent r then
        mkRoundTrip (rt_stream r) (rt_hasBody r) (rt_written r) (rt_resc r) (rt_bodySent r) (rt_response r) (Some None)
      else r
  | None => r
  end.

Definition got_response (r : roundtrip) (res : Z * Response) : roundtrip :=
  settle (mkRoundTrip (rt_stream r) (rt_hasBody r) (rt_written r) (rt_resc r) (rt_bodySent r) (Some res) (rt_result r)).
Definition body_result (r : roundtrip) (e : option go_error) : roundtrip :=
  let r := mkRoundTrip (rt_stream r) (rt_hasBody r) (rt_written r) None true (rt_response r) (rt_result r) in
  match e with
  | Some e => mkRoundTrip (rt_stream r) (rt_hasBody r) (rt_written r) None true (rt_response r) (Some (Some e))
  | None => settle r
  end.
Definition return_error (r : roundtrip) (e : go_error) : roundtrip :=
  mkRoundTrip (rt_stream r) (rt_hasBody r) (rt_written r) (rt_resc r) (rt_bodySent r) (rt_response r) (Some (Some e)).

(** [readResponse] once a frame for the stream [id] was read and decoded; [res] is
    the result of [responseFromHeaders], which is computed after the channel was
    found. *)
Definition readResponse (c : http_client) (id : Z) (res : outcome Response) : reader_state :=
  match hc_responses c !! id with
  | None => Stopped (Errorf "response channel for stream %d not found" [id])
  | Some i =>
      match res with
      | Ok r => Sending i (id, r)
      | Err e => Stopped e
      | Panic msg => Stopped (Errorf msg [])
      end
  end.

Definition set_reader (c : http_client) (r : reader_state) : http_client :=
  mkHttpClient (hc_responses c) r (hc_requests c) (hc_closed c).

Definition header_error (e : go_error) : go_error := QuicError InvalidHeadersStreamData (MsgOf e).

Definition context_error : go_error := Errorf "context canceled" [].

Definition client_step (c : http_client) (e : client_event) : option http_client :=
  match e with
  | Start id hasBody writeErr =>
      if existsb (fun r => rt_stream r =? id) (hc_requests c) then None else Some (start_roundtrip c id hasBody writeErr)
  | BodyWritten i err =>
      match hc_requests c !! i with
      | Some r =>
          if rt_hasBody r && negb (rt_written r) then
            Some (set_request c i (mkRoundTrip (rt_stream r) true true (Some err) (rt_bodySent r) (rt_response r) (rt_result r)))
          else None
      | None => None
      end
  | SelectBody i =>
      match hc_requests c !! i with
      | Some r =>
          match rt_result r, rt_resc r with
          | None, Some err => Some (set_request c i (body_result r err))
          | _, _ => None
          end
      | None => None
      end
  | SelectResponse i =>
      match hc_reader c, hc_requests c !! i with
      | Sending j res, Some r =>
          match rt_result r with
          | None =>
              if (j =? i)%nat then
                Some (mkHttpClient (delete (rt_stream r) (hc_responses c)) Reading (<[i := got_response r res]> (hc_requests c)) (hc_closed c))
              else None
          | Some _ => None
          end
      | _, _ => None
      end
  | SelectContext i =>
      match hc_requests c !! i with
      | Some r =>
          match rt_result r with
          | None => Some (mkHttpClient (delete (rt_stream r) (hc_responses c)) (hc_reader c)
                            (<[i := return_error r context_error]> (hc_requests c)) (hc_closed c))
          | Some _ => None
          end
      | None => None
      end
  | SelectHeaderError i =>
      match hc_reader c, hc_requests c !! i with
      | Stopped e, Some r =>
          match rt_result r with
          | None => Some (mkHttpClient (hc_responses c) (hc_reader c) (<[i := return_error r (header_error e)]> (hc_requests c))
                            (hc_closed c ++ [header_error e]))
          | Some _ => None
          end
      | _, _ => None
      end
  | Frame id res => match hc_reader c with Reading => Some (set_reader c (readResponse c id res)) | _ => None end
  | FrameError e => match hc_reader c with Reading => Some (set_reader c (Stopped e)) | _ => None end
  end.

Fixpoint client_run (c : http_client) (es : list client_event) : option http_client :=
  match es with
  | [] => Some c
  | e :: es => match client_step c e with Some c => client_run c es | None => None end
  end.

Inductive client_reach : http_client -> Prop :=
| client_new : client_reach new_client
| client_next c e c' : client_reach c -> client_step c e = Some c' -> client_reach c'.

(** The end of [RoundTrip]; [streamEnded] is always false. *)
Definition finish_response (res : Response) (isHead requestedGzip : bool) : Response :=
  let res := setLength res isHead false in
  if isHead then res
  else if requestedGzip && String.eqb (header_Get (Response_Header res) "Content-Encoding") "gzip" then
    mkResponse (StatusCode res) (header_Del (header_Del (Response_Header res) "Content-Encoding") "Content-Length") (Trailer res) (-1) true
  else res.

(** ** gzipreader.go *)

(** A reader that is made at the first [Read]; [NewReader] and its [Read] are
    those of compress/gzip. *)
Section gzip.
Context {R : Type} (NewReader : outcome R) (reader_Read : R -> outcome (list Z) * R).

Record gzipReader : Type := mkGzipReader { zr : option R; zerr : option go_error }.

Definition gzip_Read (gz : gzipReader) : outcome (list Z) * gzipReader :=
  match zerr gz with
  | Some e => (Err e, gz)
  | None =>
      match zr gz with
      | Some r => let '(res, r) := reader_Read r in (res, mkGzipReader (Some r) None)
      | None =>
          match NewReader with
          | Ok r => let '(res, r) := reader_Read r in (res, mkGzipReader (Some r) None)
          | Err e => (Err e, mkGzipReader None (Some e))
          | Panic msg => (Panic msg, gz)
          end
      end
  end.
End gzip.

(** ** The invariant *)

Record request_ok (r : roundtrip) : Prop := {
  ro_response id res : rt_response r = Some (id, res) -> id = rt_stream r;
  ro_body : rt_hasBody r = false -> rt_bodySent r = true;
  ro_resc : rt_hasBody r = false -> rt_resc r = None;
  ro_result : rt_result r = Some None -> is_Some (rt_response r) /\ rt_bodySent r = true;
  ro_waiting : rt_result r = None -> rt_response r = None \/ rt_bodySent r = false }.

Record client_ok (c : http_client) : Prop := {
  co_requests i r : hc_requests c !! i = Some r -> request_ok r;
  co_streams i j r r' : hc_requests c !! i = Some r -> hc_requests c !! j = Some r' -> rt_stream r = rt_stream r' -> i = j;
  co_responses id i : hc_responses c !! id = Some i ->
    exists r, hc_requests c !! i = Some r /\ rt_stream r = id /\ rt_response r = None;
  co_sending i id res : hc_reader c = Sending i (id, res) ->
    exists r, hc_requests c !! i = Some r /\ rt_stream r = id /\ rt_response r = None }.

Lemma settle_fields r : rt_stream (settle r) = rt_stream r /\ rt_hasBody (settle r) = rt_hasBody r /\ rt_resc (settle r) = rt_resc r
  /\ rt_bodySent (settle r) = rt_bodySent r /\ rt_response (settle r) = rt_response r.
Proof. unfold settle. destruct (rt_response r) eqn:E1; [| done]. destruct (rt_bodySent r) eqn:E2; [| done]. done. Qed.

Lemma settle_ok r : (forall id res, rt_response r = Some (id, res) -> id = rt_stream r) ->
  (rt_hasBody r = false -> rt_bodySent r = true) -> (rt_hasBody r = false -> rt_resc r = None) -> rt_result r = None ->
  request_ok (settle r).
Proof.
  intros H1 H2 H3 H4. destruct (settle_fields r) as (E1 & E2 & E3 & E4 & E5).
  constructor; rewrite ?E1, ?E2, ?E3, ?E4, ?E5; try done; unfold settle;
    destruct (rt_response r) eqn:Er, (rt_bodySent r) eqn:Eb; cbn; rewrite ?H4; try done; by eauto.
Qed.

(** One request changes, keeping its stream. *)
Lemma set_request_ok c i r r' responses reader closed :
  client_ok c -> hc_requests c !! i = Some r -> request_ok r' -> rt_stream r' = rt_stream r ->
  (forall id j, responses !! id = Some j -> hc_responses c !! id = Some j /\ (j = i -> rt_response r' = rt_response r)) ->
  (forall j id res, reader = Sending j (id, res) -> hc_reader c = Sending j (id, res) /\ (j = i -> rt_response r' = rt_response r)) ->
  client_ok (mkHttpClient responses reader (<[i := r']> (hc_requests c)) closed).
Proof.
  intros [] Hr Hr' Hst Hresp Hread. assert (Hlt : (i < length (hc_requests c))%nat) by (by eapply lookup_lt_Some).
  assert (Hlook : forall j x, <[i := r']> (hc_requests c) !! j = Some x ->
    (j = i /\ x = r') \/ (j <> i /\ hc_requests c !! j = Some x)).
  { intros j x. destruct (decide (j = i)) as [-> |].
    - rewrite list_lookup_insert_eq by done. intros [= <-]. by left.
    - rewrite list_lookup_insert_ne by done. by right. }
  assert (Hkeep : forall j id, (j = i -> rt_response r' = rt_response r) ->
    (exists x, hc_requests c !! j = Some x /\ rt_stream x = id /\ rt_response x = None) ->
    exists x, <[i := r']> (hc_requests c) !! j = Some x /\ rt_stream x = id /\ rt_response x = None).
  { intros j id Hj (x & Hx & Hs & Hn). destruct (decide (j = i)) as [-> |].
    - exists r'. rewrite list_lookup_insert_eq by done. simplify_eq. rewrite Hst, Hj by done. done.
    - exists x. by rewrite list_lookup_insert_ne. }
  constructor; cbn.
  - intros j x [[-> ->] | [_ Hx]]%Hlook; [done | by eapply co_requests0].
  - intros j k x y [[-> ->] | [Hj Hx]]%Hlook [[-> ->] | [Hk Hy]]%Hlook E; [done | | | by eapply co_streams0].
    + rewrite Hst in E. by destruct Hk; eapply co_streams0.
    + rewrite Hst in E. by destruct Hj; eapply co_streams0.
  - intros id j Hj. apply Hresp in Hj as [Hj Hk]. apply Hkeep; [done | by apply co_responses0].
  - intros j id res Hj. apply Hread in Hj as [Hj Hk]. apply Hkeep; [done | by eapply co_sending0].
Qed.

Lemma start_ok c id hasBody writeErr : client_ok c -> existsb (fun r => rt_stream r =? id) (hc_requests c) = false ->
  client_ok (start_roundtrip c id hasBody writeErr).
Proof.
  intros [] Hnew.
  assert (Hfresh : forall i r, hc_requests c !! i = Some r -> rt_stream r <> id).
  { intros i r Hr E. assert (existsb (fun r => rt_stream r =? id) (hc_requests c) = true); [| congruence].
    apply existsb_exists. exists r. split; [by eapply list_elem_of_In, list_elem_of_lookup_2 | by apply Z.eqb_eq]. }
  set (r0 := mkRoundTrip id hasBody false None (negb hasBody) None (match writeErr with Some e => Some (Some e) | None => None end)).
  assert (Hlook : forall j x, (hc_requests c ++ [r0]) !! j = Some x ->
    hc_requests c !! j = Some x \/ (j = length (hc_requests c) /\ x = r0)).
  { intros j x [Hx | [Hl Hx]]%lookup_app_Some; [by left |]. apply list_lookup_singleton_Some in Hx as [Hj <-]. right. split; [lia | done]. }
  assert (Hkeep : forall i s, (exists x, hc_requests c !! i = Some x /\ rt_stream x = s /\ rt_response x = None) ->
    exists x, (hc_requests c ++ [r0]) !! i = Some x /\ rt_stream x = s /\ rt_response x = None).
  { intros i s (x & Hx & ? & ?). exists x. split; [by apply lookup_app_l_Some | done]. }
  constructor; cbn; fold r0.
  - intros i r [Hr | [_ ->]]%Hlook; [by eapply co_requests0 |]. constructor; cbn; try done; [by intros -> | by destruct writeErr | by left].
  - intros i j r r' [Hr | [-> ->]]%Hlook [Hr' | [-> ->]]%Hlook E; [by eapply co_streams0 | | | done].
    + by destruct (Hfresh i r Hr).
    + by destruct (Hfresh j r' Hr').
  - intros s i. rewrite lookup_insert_Some. intros [[<- <-] | [_ Hi]].
    + exists r0. split; [by rewrite lookup_app_r, Nat.sub_diag by lia | done].
    + apply Hkeep. by apply co_responses0.
  - intros i s res Hi. apply Hkeep. by eapply co_sending0.
Qed.

Lemma client_step_ok c e c' : client_ok c -> client_step c e = Some c' -> client_ok c'.
Proof.
  intros Hc H. pose proof Hc as Hc0. destruct Hc0. destruct e as [id hasBody writeErr | i err | i | i | i | i | id res | e]; cbn [client_step] in H.
  - destruct (existsb _ _) eqn:E; [done |]. injection H as <-. by apply start_ok.
  - destruct (hc_requests c !! i) as [r |] eqn:Hr; [| done]. destruct (rt_hasBody r) eqn:Eb; [| done]. destruct (negb _); [| done].
    injection H as <-. eapply set_request_ok; try done.
    destruct (co_requests0 i r Hr). by constructor.
  - destruct (hc_requests c !! i) as [r |] eqn:Hr; [| done]. destruct (rt_result r) eqn:Er; [done |].
    destruct (rt_resc r) as [err |] eqn:Ec; [| done]. injection H as <-. pose proof (co_requests0 i r Hr) as [].
    assert (Hb : rt_hasBody r = true) by (destruct (rt_hasBody r); [done |]; by rewrite ro_resc0 in Ec).
    assert (Hresp : rt_response (body_result r err) = rt_response r).
    { unfold body_result. destruct err; [done |]. match goal with |- context [settle ?x] => by destruct (settle_fields x) as (_ & _ & _ & _ & ->) end. }
    eapply set_request_ok; try done.
    + unfold body_result. destruct err; [by constructor |]. by apply settle_ok.
    + unfold body_result. destruct err; [done |]. match goal with |- context [settle ?x] => by destruct (settle_fields x) as (-> & _) end.
  - destruct (hc_reader c) as [| j [id res] |] eqn:Erd; [done | | done]. destruct (hc_requests c !! i) as [r |] eqn:Hr; [| done].
    destruct (rt_result r) eqn:Er; [done |]. destruct (Nat.eqb_spec j i) as [-> |]; [| done]. injection H as <-.
    destruct (co_sending0 i id res eq_refl) as (r1 & Hr1 & Hid & Hn). simplify_eq. pose proof (co_requests0 i r Hr) as [].
    eapply set_request_ok; try done.
    + unfold got_response. apply settle_ok; cbn; try done. by intros ? ? [= <- <-].
    + unfold got_response. match goal with |- context [settle ?x] => by destruct (settle_fields x) as (-> & _) end.
    + intros s k [Hne Hk]%lookup_delete_Some. split; [done |]. intros ->.
      destruct (co_responses0 s i Hk) as (x & Hx & Hs & _). congruence.
  - destruct (hc_requests c !! i) as [r |] eqn:Hr; [| done]. destruct (rt_result r) eqn:Er; [done |]. injection H as <-.
    pose proof (co_requests0 i r Hr) as []. eapply (set_request_ok c i r); [done | done | by constructor | done | | done].
    intros s k [_ Hk]%lookup_delete_Some. done.
  - destruct (hc_reader c) eqn:Erd; [done | done |]. destruct (hc_requests c !! i) as [r |] eqn:Hr; [| done].
    destruct (rt_result r) eqn:Er; [done |]. injection H as <-. pose proof (co_requests0 i r Hr) as [].
    by eapply (set_request_ok c i r).
  - destruct (hc_reader c) eqn:Erd; [| done | done]. injection H as <-. constructor; cbn; try done.
    intros i s r. unfold readResponse. destruct (hc_responses c !! id) as [j |] eqn:Ej; [| done]. destruct res; [| done | done].
    intros [= <- <- <-]. by apply co_responses0.
  - destruct (hc_reader c) eqn:Erd; [| done | done]. injection H as <-. by constructor.
Qed.

Lemma client_reach_ok c : client_reach c -> client_ok c.
Proof.
  induction 1 as [| c e c' _ IH H]; [| by eapply client_step_ok]. constructor; cbn; try done; intros i; by rewrite ?lookup_nil, ?lookup_empty.
Qed.

(** ** Theorems *)


Lemma run_reader c es c' i res r : hc_reader c = Sending i res -> hc_requests c !! i = Some r -> rt_result r <> None ->
  client_run c es = Some c' -> hc_reader c' = Sending i res.
Proof.
  revert c r. induction es as [| e es IH]; intros c r Hs Hr Hres; cbn; [by intros [= <-] |].
  destruct (client_step c e) as [c1 |] eqn:E; [| done].
  assert (H1 : hc_reader c1 = Sending i res /\ exists r1, hc_requests c1 !! i = Some r1 /\ rt_result r1 <> None);
    [| destruct H1 as (H1 & r1 & H2 & H3); by apply (IH c1 r1)].
  assert (Hins : forall j x y, hc_requests c !! j = Some x -> (rt_result x <> None -> rt_result y <> None) ->
    exists r1, <[j := y]> (hc_requests c) !! i = Some r1 /\ rt_result r1 <> None).
  { intros j x y Hx Hxy. destruct (decide (i = j)) as [<- |].
    - exists y. rewrite list_lookup_insert_eq by (by eapply lookup_lt_Some). simplify_eq. by auto.
    - exists r. by rewrite list_lookup_insert_ne. }
  destruct e; cbn in E; rewrite ?Hs in E; repeat case_match; simplify_eq;
    try match goal with Ej : (_ =? _)%nat = true |- _ => apply Nat.eqb_eq in Ej; subst; congruence end; cbn; rewrite ?Hs; split; try done;
    try (by eapply Hins; [done | cbn; intros ?; congruence]); try (by eapply Hins; [done | cbn; intros ?; done]); try (exists r; split; [by apply lookup_app_l_Some | done]).
Qed.

(** ** Defects *)

(** A response that nobody waits for: when a request has returned after its
    channel was looked up, or because its body could not be sent, the goroutine
    that reads the header stream waits forever, and no other request gets its
    response. *)
Theorem reader_stuck c i res r es c' : hc_reader c = Sending i res -> hc_requests c !! i = Some r -> rt_result r <> None ->
  client_run c es = Some c' -> hc_reader c' = Sending i res.
Proof. apply run_reader. Qed.

Definition ok_response : Response := mkResponse 200 ∅ None 0 false.
Definition failed_body : list client_event :=
  [Start 4 true None; Start 8 false None; BodyWritten 0 (Some EOF); SelectBody 0; Frame 4 (Ok ok_response)].

Lemma reader_stuck_witness : exists c, client_run new_client failed_body = Some c /\ hc_reader c = Sending 0 (4, ok_response)
  /\ forall es c', client_run c es = Some c' -> hc_reader c' = Sending 0 (4, ok_response).
Proof.
  eexists. split; [reflexivity |]. split; [reflexivity |]. intros es c'.
  eapply (reader_stuck _ 0 (4, ok_response)); [reflexivity | reflexivity | discriminate].
Defined.

(** A response to a request that was cancelled ends all other requests: its
    stream is not known any more, which is an error of the header stream. *)
Theorem cancelled_request_ends_others : exists c r,
  client_run new_client [Start 4 false None; Start 8 false None; SelectContext 0; Frame 4 (Ok ok_response); SelectHeaderError 1] = Some c
  /\ hc_requests c !! 1%nat = Some r
  /\ rt_result r = Some (Some (header_error (Errorf "response channel for stream %d not found" [4])))
  /\ hc_closed c = [header_error (Errorf "response channel for stream %d not found" [4])].
Proof. eexists _, _. split; [reflexivity |]. by split_and!. Qed.


(** The body of a request with a bad header is not closed, unlike that of other
    requests that are refused. *)
Theorem bad_header_leaves_body `{HttpLib} `{NetNames} order req e u : Request_URL req = Some u -> URL_Host u <> "" -> Scheme u = "https" ->
  check_headers (Errorf "quic: invalid http header field name %q" [])
    (Errorf "quic: invalid http header field value %q for key %v" []) order = Err e ->
  check_request order false req = (Some e, false).
Proof. intros Hu Hh Hs Hc. unfold check_request. rewrite Hu, (proj2 (String.eqb_neq _ _) Hh), Hs, Hc. done. Qed.

(** Compression the client has asked for itself is undone: the response does not
    tell of it, and its length is unknown; other responses keep their header. *)
Theorem compression_hidden res isHead requestedGzip : let res' := finish_response res isHead requestedGzip in
  if negb isHead && requestedGzip && String.eqb (header_Get (Response_Header res) "Content-Encoding") "gzip" then
    values (Response_Header res') "Content-Encoding" = [] /\ values (Response_Header res') "Content-Length" = []
    /\ Response_ContentLength res' = -1 /\ Uncompressed res' = true
  else Response_Header res' = Response_Header res /\ Uncompressed res' = Uncompressed res.
Proof.
  cbn zeta. unfold finish_response, setLength. cbn [negb orb]. destruct isHead; [done |]. cbn [negb andb Response_Header].
  destruct (requestedGzip && _); [| done]. cbn [Response_Header Response_ContentLength Uncompressed].
  unfold header_Del, values. change (CanonicalHeaderKey "Content-Encoding") with "Content-Encoding".
  change (CanonicalHeaderKey "Content-Length") with "Content-Length".
  split_and!; try done; [by rewrite lookup_delete_ne, lookup_delete_eq | by rewrite lookup_delete_eq].
Qed.

(** There is one client for each host name. *)
Theorem one_client_per_host clients new new' hostname onlyCached c clients' :
  getClient clients new hostname onlyCached = (Ok c, clients') -> getClient clients' new' hostname true = (Ok c, clients').
Proof.
  unfold getClient. destruct (clients !! hostname) as [x |] eqn:E; [intros [= <- <-]; by rewrite E |].
  destruct onlyCached; [done |]. intros [= <- <-]. by rewrite lookup_insert_eq.
Qed.
