(* ===== verification/Utilities.v ===== *)
(** * Utilities (internal/utils: timer.go, log.go, host.go)

    The timer of a session, with the timer of the run time that it wraps and its
    channel, and the small functions of the package. *)

From Stdlib Require Import Ascii String.
From S2P Require Import Prelude HttpHeaders.

Open Scope string_scope.
Open Scope list_scope.
Open Scope Z_scope.

(** ** timer.go *)

(** [time.Timer]: the time at which it fires, and whether its channel, which has
    room for one value, is full. *)
Record time_Timer : Type := mkTimeTimer { fires : option Z; full : bool }.

(** The run time sends the value when the timer fires. *)
Definition fire (now : Z) (t : time_Timer) : option time_Timer :=
  match fires t with
  | Some at_ => if at_ <=? now then Some (mkTimeTimer None true) else None
  | None => None
  end.

(** [Stop] tells whether the timer was still running. *)
Definition Stop (t : time_Timer) : bool * time_Timer :=
  (match fires t with Some _ => true | None => false end, mkTimeTimer None (full t)).

(** A receive that has nothing to receive waits. *)
Definition receive (t : time_Timer) : option time_Timer := if full t then Some (mkTimeTimer (fires t) false) else None.

Record Timer : Type := mkTimer { t_timer : time_Timer; t_read : bool; t_deadline : Z }.

(** Time zero is Go's zero time. *)
Definition NewTimer (now : Z) : Timer := mkTimer (mkTimeTimer (Some now) false) false 0.

Definition SetRead (t : Timer) : Timer := mkTimer (t_timer t) true (t_deadline t).

(** No result: the call waits, forever if the timer does not run. *)
Definition Reset (now : Z) (t : Timer) (deadline : Z) : option Timer :=
  if (deadline =? t_deadline t) && negb (t_read t) then Some t
  else
    let '(running, tt_) := Stop (t_timer t) in
    tt_ ← (if negb running && negb (t_read t) then receive tt_ else Some tt_);
    Some (mkTimer (mkTimeTimer (Some (now `max` deadline)) (full tt_)) false deadline).

(** How a session uses it: it resets the timer, and calls [SetRead] when it has
    received a value.  Time passes. *)
Inductive timer_step : Z * Timer -> Z * Timer -> Prop :=
| timer_passes now now' t : now <= now' -> timer_step (now, t) (now', t)
| timer_fires now t tt' : fire now (t_timer t) = Some tt' -> timer_step (now, t) (now, mkTimer tt' (t_read t) (t_deadline t))
| timer_received now t tt' : receive (t_timer t) = Some tt' ->
    timer_step (now, t) (now, SetRead (mkTimer tt' (t_read t) (t_deadline t)))
| timer_reset now t t' deadline : Reset now t deadline = Some t' -> timer_step (now, t) (now, t').

Inductive timer_reach : Z * Timer -> Prop :=
| timer_new now : 0 <= now -> timer_reach (now, NewTimer now)
| timer_next s s' : timer_reach s -> timer_step s s' -> timer_reach s'.

(** There is a value for the deadline, or there will be one; after it was read
    there is none. *)
Definition timer_ok (s : Z * Timer) : Prop :=
  let '(now, t) := s in
  0 <= now /\
  match fires (t_timer t), full (t_timer t) with
  | Some at_, false => t_read t = false /\ t_deadline t <= at_ /\ (at_ = t_deadline t \/ at_ <= now)
  | None, true => t_read t = false /\ t_deadline t <= now
  | None, false => t_read t = true
  | Some _, true => False
  end.

Lemma Reset_ok now t deadline : timer_ok (now, t) ->
  exists t', Reset now t deadline = Some t' /\ timer_ok (now, t') /\ t_read t' = false /\ t_deadline t' = deadline.
Proof.
  intros [Hnow Hok]. unfold Reset. destruct (Z.eqb_spec deadline (t_deadline t)) as [E |]; cbn [andb].
  - destruct (t_read t) eqn:Er; cbn [negb].
    + destruct (fires (t_timer t)) eqn:Ef, (full (t_timer t)) eqn:Eu; try (by destruct Hok); try done.
      unfold Stop. rewrite Ef. cbn. eexists. split; [done |]. split; [| done]. split; [done |]. rewrite ?Eu. cbn. split_and!; [done | lia | lia].
    + exists t. split; [done |]. split; [split; [done | by rewrite Er] | done].
  - unfold Stop. destruct (fires (t_timer t)) as [at_ |] eqn:Ef, (full (t_timer t)) eqn:Eu; try done; cbn.
    + eexists. split; [done |]. split; [| done]. split; [done |]. rewrite ?Eu. cbn. split_and!; [done | lia | lia].
    + destruct Hok as [-> _]. cbn. unfold receive. cbn. rewrite ?Eu. cbn. eexists. split; [done |]. split; [| done]. split; [done |].
      cbn. split_and!; [done | lia | lia].
    + rewrite Hok. cbn. eexists. split; [done |]. split; [| done]. split; [done |]. rewrite ?Eu. cbn. split_and!; [done | lia | lia].
Qed.

Lemma timer_reach_ok s : timer_reach s -> timer_ok s.
Proof.
  induction 1 as [now Hnow | s s' _ IH Hst]; [cbn; split_and!; try done; lia |].
  destruct Hst as [now now' t Hle | now t tt' H | now t tt' H | now t t' deadline H].
  - destruct IH as [Hn IH]. split; [lia |]. destruct (fires (t_timer t)), (full (t_timer t)); try done; destruct IH as (? & ?); split_and!; try done; lia.
  - destruct IH as [Hn IH]. unfold fire in H. destruct (fires (t_timer t)) as [at_ |] eqn:Ef; [| done].
    destruct (Z.leb_spec at_ now); [| done]. injection H as <-. split; [done |]. cbn.
    destruct (full (t_timer t)); [done |]. destruct IH as (-> & ? & ?). split; [done | lia].
  - destruct IH as [Hn IH]. unfold receive in H. destruct (full (t_timer t)) eqn:Eu; [| done]. injection H as <-. split; [done |]. cbn.
    destruct (fires (t_timer t)); done.
  - destruct (Reset_ok now t deadline IH) as (t'' & H' & Hok & _). congruence.
Qed.

(** ** Theorems *)

(** [Reset] never waits, no matter whether the timer has fired and whether its
    value was read, and afterwards there is one value, at the deadline and not
    before: a value that is received belongs to the last deadline that was set. *)
Theorem timer_correct now t : timer_reach (now, t) ->
  (forall deadline, exists t', Reset now t deadline = Some t' /\ t_read t' = false /\ t_deadline t' = deadline)
  /\ (full (t_timer t) = true -> t_deadline t <= now)
  /\ (t_read t = false -> t_deadline t <= now -> full (t_timer t) = true \/ exists at_, fires (t_timer t) = Some at_ /\ at_ <= now).
Proof.
  intros Hok%timer_reach_ok. split_and!.
  - intros deadline. destruct (Reset_ok now t deadline Hok) as (t' & ? & _ & ? & ?). by exists t'.
  - destruct Hok as [_ Hok]. intros Hf. rewrite Hf in Hok. destruct (fires (t_timer t)); [done | by destruct Hok].
  - destruct Hok as [_ Hok]. intros Hr Hd. destruct (fires (t_timer t)) as [at_ |], (full (t_timer t)); try (by left); try done.
    + right. exists at_. split; [done |]. destruct Hok as (_ & ? & ?). lia.
    + congruence.
Qed.

(** A value that is read without [SetRead] makes the next [Reset] wait forever. *)
Theorem unread_timer_waits now deadline : 0 < deadline ->
  exists tt1 tt2, fire now (t_timer (NewTimer now)) = Some tt1 /\ receive tt1 = Some tt2
    /\ Reset now (mkTimer tt2 false 0) deadline = None.
Proof.
  intros Hd. exists (mkTimeTimer None true), (mkTimeTimer None false). unfold fire. cbn. rewrite Z.leb_refl. split_and!; try done.
  unfold Reset. cbn [t_deadline t_read]. by destruct (Z.eqb_spec deadline 0); [lia |].
Qed.

(** ** log.go *)

Inductive LogLevel : Type := LogLevelNothing | LogLevelError | LogLevelInfo | LogLevelDebug.

Definition level_number (l : LogLevel) : Z :=
  match l with LogLevelNothing => 0 | LogLevelError => 1 | LogLevelInfo => 2 | LogLevelDebug => 3 end.

Record defaultLogger : Type := mkLogger { prefix_ : string; logLevel : LogLevel; timeFormat : string }.

Definition Debug (l : defaultLogger) : bool := level_number (logLevel l) =? level_number LogLevelDebug.
(** Whether a message of a level is printed. *)
Definition logs_debug (l : defaultLogger) : bool := level_number (logLevel l) =? level_number LogLevelDebug.
Definition logs_info (l : defaultLogger) : bool := level_number LogLevelInfo <=? level_number (logLevel l).
Definition logs_error (l : defaultLogger) : bool := level_number LogLevelError <=? level_number (logLevel l).

(** The text before a message; [now] is the time in the format of the logger. *)
Definition message_prefix (l : defaultLogger) (now : string) : string :=
  let pre := if String.eqb (timeFormat l) "" then "" else now +:+ " " in
  if String.eqb (prefix_ l) "" then pre else pre +:+ prefix_ l +:+ " ".

Definition WithPrefix (l : defaultLogger) (p : string) : defaultLogger :=
  mkLogger (if String.eqb (prefix_ l) "" then p else prefix_ l +:+ " " +:+ p) (logLevel l) (timeFormat l).

Definition readLoggingEnv (env : string) : LogLevel :=
  let e := ToLower env in
  if String.eqb e "" then LogLevelNothing
  else if String.eqb e "debug" then LogLevelDebug
  else if String.eqb e "info" then LogLevelInfo
  else if String.eqb e "error" then LogLevelError
  else LogLevelNothing.

(** A level that logs a message logs the more important ones, too, and prefixes
    do not change it. *)
Theorem log_levels_nested l p : (logs_debug l = true -> logs_info l = true) /\ (logs_info l = true -> logs_error l = true)
  /\ logs_debug (WithPrefix l p) = logs_debug l /\ logs_info (WithPrefix l p) = logs_info l /\ logs_error (WithPrefix l p) = logs_error l.
Proof. unfold logs_debug, logs_info, logs_error, WithPrefix. cbn [logLevel]. destruct (logLevel l); by split_and!. Qed.

(** ** host.go *)

(** [strings.LastIndex] of one character, -1 if it is not there. *)
Fixpoint last_index (c : ascii) (s : string) (i found : Z) : Z :=
  match s with
  | EmptyString => found
  | String d s => last_index c s (i + 1) (if Ascii.eqb c d then i else found)
  end.
Definition LastIndex (s : string) (c : ascii) : Z := last_index c s 0 (-1).

Definition hasPort (s : string) : bool := LastIndex s "]"%char <? LastIndex s ":"%char.

(** The host of a URL, without its port. *)
Definition HostnameFromAddr `{HttpLib} (addr : string) : outcome string :=
  p ← Parse addr;
  let h := URL_Host p in
  Ok (if hasPort h then String.substring 0 (Z.to_nat (LastIndex h ":"%char)) h else h).

Lemma last_index_app c s t i found : last_index c (s +:+ t) i found = last_index c t (i + Z.of_nat (String.length s)) (last_index c s i found).
Proof.
  revert i found. induction s as [| d s IH]; intros i found.
  - change (EmptyString +:+ t) with t. cbn [String.length last_index]. f_equal. lia.
  - change (String d s +:+ t) with (String d (s +:+ t)). cbn [last_index String.length]. rewrite IH. f_equal. lia.
Qed.

Lemma last_index_none c s i found : string_forallb (fun d => negb (Ascii.eqb c d)) s = true -> last_index c s i found = found.
Proof.
  revert i found. induction s as [| d s IH]; intros i found; [done |]. cbn. intros [Hd Hs]%andb_true_iff. rewrite IH by done.
  by destruct (Ascii.eqb c d).
Qed.

Lemma substring_prefix s t : String.substring 0 (String.length s) (s +:+ t) = s.
Proof.
  induction s as [| c s IH]; [by destruct t |]. change (String c s +:+ t) with (String c (s +:+ t)).
  cbn [String.length String.substring]. by rewrite IH.
Qed.

(** The port is cut off, whatever the host. *)
Theorem hostname_without_port `{HttpLib} addr u host port : Parse addr = Ok u -> URL_Host u = host +:+ ":" +:+ port ->
  string_forallb (fun d => negb (Ascii.eqb "]"%char d) && negb (Ascii.eqb ":"%char d)) port = true ->
  LastIndex host "]"%char < Z.of_nat (String.length host) -> HostnameFromAddr addr = Ok host.
Proof.
  intros Hp Hu Hport Hb. unfold HostnameFromAddr. rewrite Hp. cbn [mbind outcome_bind]. rewrite Hu.
  assert (Hp1 : string_forallb (fun d => negb (Ascii.eqb "]"%char d)) port = true
    /\ string_forallb (fun d => negb (Ascii.eqb ":"%char d)) port = true).
  { clear -Hport. induction port as [| c p IH]; [done |]. cbn in *. apply andb_true_iff in Hport as [Hc Hp].
    apply andb_true_iff in Hc as [-> ->]. destruct (IH Hp) as [-> ->]. done. }
  destruct Hp1 as [Hp1 Hp2].
  assert (E1 : LastIndex (host +:+ ":" +:+ port) ":"%char = Z.of_nat (String.length host)).
  { unfold LastIndex. rewrite !last_index_app, last_index_none by done. cbn. done. }
  assert (E2 : LastIndex (host +:+ ":" +:+ port) "]"%char = LastIndex host "]"%char).
  { unfold LastIndex. rewrite !last_index_app, last_index_none by done. done. }
  unfold hasPort. rewrite E1, E2, (proj2 (Z.ltb_lt _ _)) by done. by rewrite Nat2Z.id, substring_prefix.
Qed.
